(* ===== verification/_CoqProject ===== *)
-Q . S2P
Prelude.v
U256.v
CommonData.v
Instruction.v
EVMVersion.v
Token.v
AssemblyItem.v
SemanticInformation.v
Interpreter.v
Yul.v
YulInterpreter.v
YulEquivalence.v
YulOptimiser.v
YulDialects.v
YulSound.v
YulLoops.v
YulFlow.v
YulShape.v
YulWellFormed.v
YulSuite.v
YulTheorems.v
Pattern.v
RuleList.v
SemVer.v
SimplificationRules.v
ExpressionClasses.v
KnownState.v
CommonSubexpressionEliminator.v
GasMeter.v
GasEstimate.v
PathGasMeter.v
PathGasQueue.v
ControlFlowGraph.v
ConstantOptimiser.v
Peephole.v
JumpdestRemover.v
BlockDeduplicator.v
Assembly.v
LinkerObject.v
Assemble.v
Machine.v
RuleSound.v
MatchSound.v
ClassSound.v
WordClasses.v
RuleWeight.v
ClassTotal.v
ClassShape.v
ClassQueries.v
StateWorld.v
InterpreterWorld.v
StoreOrder.v
KnownSound.v
KnownFeed.v
KnownBlock.v
CSEDependencies.v
CSEStack.v
CSEGenerate.v
CSECode.v
CSESequence.v
CSEOptimised.v
CSETheorems.v
KnownTheorems.v
GasBound.v
PathGasTheorems.v
Simulation.v
ConstantSound.v
ConstantTheorems.v
PeepholeSound.v
PeepholeTheorems.v
BlockRun.v
BlockOrder.v
BlockSound.v
TagTheorems.v
AssemblyTheorems.v
AssembleSound.v
AssembleTheorems.v
ExpressionTheorems.v
