(* ===== verification/Prelude.v ===== *)
(** * SigSolid: the back end for EVM assembly and Yul, verified

    The repository is a fork of the Solidity compiler whose instruction set has signals and
    handlers.  This library models the part that works on EVM assembly: src/libevmasm with
    what it uses of src/libsolutil and src/liblangutil, the steps of the Yul optimiser that
    rewrite control flow (src/libyul/optimiser), and the reference interpreter of
    src/test/tools/yulInterpreter as the meaning of instructions and of Yul.

    ** The program

    An assembly is a list of items (AssemblyItem): instructions, pushes and tags, with
    sub-assemblies and data. [Assembly::optimiseInternal] optimises the sub-assemblies, then
    repeats four steps until nothing changes: unused tags are removed, the peephole optimiser
    runs, equal blocks are unified, and each basic block is replaced by the code the common
    subexpression eliminator makes of it; the constant optimiser comes last. The eliminator
    feeds the items of a block to a KnownState, which describes stack, storage and memory by
    classes of equal expressions (ExpressionClasses). Classes are simplified by the rules of
    RuleList, matched by SimplificationRules. [Assembly::assemble] lays the items out as bytes
    with the references patched, a [LinkerObject] whose library addresses [link] fills in. The
    gas of an item, and of a path through the items, is estimated over a KnownState as well
    (GasMeter, PathGasMeter). The ControlFlowGraph cuts items into blocks and gathers what is
    known on entry to each.

    Yul is a tree of statements over the builtins of a dialect.  The optimiser runs sequences
    of steps, named by letters, over the tree (Suite.cpp).

    ** Files

    Words, bytes and tables: U256 (libsolutil/Common.h), CommonData (libsolutil/CommonData),
    Instruction, EVMVersion and Token (liblangutil), AssemblyItem, SemanticInformation, GasMeter.

    Components, one file each with the names of the source: Interpreter
    (EVMInstructionInterpreter), Pattern, RuleList, SimplificationRules, ExpressionClasses,
    KnownState, CommonSubexpressionEliminator, ConstantOptimiser, Peephole, JumpdestRemover,
    BlockDeduplicator, Assembly (the optimiser of Assembly.cpp), Assemble (its assembling),
    LinkerObject, GasEstimate ([GasMeter::estimateMax]), PathGasMeter, ControlFlowGraph; SemVer
    (SemVerHandler: version expressions); Yul (the tree and the dialects), YulInterpreter,
    YulOptimiser (the steps), YulSuite (the sequences). A C++ exception is [None], [Exception]
    or [Throws]; a mutable object is a record that is threaded, by the monads [K] (KnownState
    and the classes its copies share) and [G] (the code generator).

    Specifications: Machine is a stack machine over an abstract world (class [World], laws in
    [WorldLaws]), StateWorld adds storage and memory ([StateLaws]); InterpreterWorld shows that
    the reference interpreter satisfies both interfaces.  MatchSound states what a meaning of
    expressions is; words (WordClasses) and weights (RuleWeight) are two instances.
    YulEquivalence says when lists of Yul statements mean the same, YulDialects what the steps
    rely on of a dialect (class [Lawful]).

    Theorems:
    - rules: RuleSound and MatchSound prove every rule and the matching sound;
    - classes: ClassSound, ClassTotal, ClassShape, ClassQueries and ExpressionTheorems prove
      that [find] returns and only equates equal values;
    - known state: KnownSound, KnownFeed, KnownBlock and KnownTheorems prove that what is known
      after a block is true of the machine;
    - eliminator: StoreOrder, CSEDependencies, CSEStack, CSEGenerate, CSECode, CSESequence,
      CSEOptimised and CSETheorems prove that the code generated for a block has the
      effect of the block;
    - peephole and constants: Simulation, PeepholeSound, PeepholeTheorems, ConstantSound and
      ConstantTheorems prove that the optimised code refines the code it is made from and that
      the optimisers terminate;
    - tags and blocks: BlockRun, BlockOrder, BlockSound and TagTheorems prove that unifying
      blocks and removing tags keeps every run, that the comparator of blocks is an order, and
      that the unification terminates; AssemblyTheorems proves the loop of the four steps to
      terminate and shows which tags it loses;
    - assembling: AssembleSound and AssembleTheorems prove that every item has its bytes at the
      place the layout assigns, that references hold the positions they name, and that
      assembling returns;
    - gas: GasBound bounds the estimate of an item, PathGasTheorems the estimate
      of a path, PathGasQueue proves that the queue of paths runs empty;
    - control flow graph: ControlFlowGraph proves that the blocks are a partition of the items,
      linked in their order, and that the blocks kept are those needed; it shows code the graph
      throws on;
    - tokens and versions: Token proves that the names of the elementary types are read back, and
      that only types that exist are read; SemVer proves that version expressions are read as they
      are written and accept the versions they ask for;
    - Yul: YulSound, YulLoops and YulFlow prove that the steps keep the meaning of a program,
      YulShape that they return, YulWellFormed that they keep code well formed; YulTheorems
      states it step by step and for a sequence of steps.

    ** Fuel

    Recursion that is not structural has fuel, and each component has a theorem that enough fuel
    gives a result: the weight of an expression for [find] (ClassTotal), the number of classes
    for the depth of the code generator (CSETheorems), the number of items for [optimise]
    (PeepholeTheorems), the bits of the constant for the constant optimiser (ConstantSound), the
    number of items and tags for the unification of blocks (TagTheorems), a power of the number
    of items for the queue of paths (PathGasQueue), the number of blocks for the search of the
    control flow graph (ControlFlowGraph), the characters for the parser of versions (SemVer). A
    sequence of Yul steps is read with its length as fuel (YulSuite). Two recursions have no such
    theorem: the chains and the queue of states of the control flow graph, about which nothing
    but an exception on one program is claimed, and the interpreter of Yul, which need not end: the depth of calls and the iterations of a loop are bounded, [Unfinished] says that the
    bound was met, and a step keeps the outcome for every bound.

    ** Not modelled

    The gas and the size of the memory are not observed by the machine. Text and JSON output,
    source maps and the ownership of items are left out, and so is the scanner: tokens come to
    SemVer as lists. Of Yul, so are the parser, the analysis and the back ends, the limit on
    steps of the interpreter and the scopes it keeps, and the steps that move code between names
    (function hoisting, inlining) or follow data flow: they rest on names being unique in the
    whole program, which the model does not state. A step that is not modelled is a parameter of
    the sequences. The front end, the SMT encoding and the command line are left out: their
    state is the syntax tree of a whole contract. What the machine leaves abstract is a
    parameter of the definitions: Keccak-256, calls, logs, the addresses of tags. *)

From Stdlib Require Export ZArith Lia Bool List.
From stdpp Require Export base decidable countable option list gmap strings.

#[global] Open Scope Z_scope.

(** The source's [assertThrow] and exceptions are the value [None] of an option;
    [o ← f; k] is stdpp's bind of the option monad, and [guard] is [assertThrow]. *)
Definition assertThrow (b : bool) : option unit :=
  if b then Some tt else None.

(** The result of a function whose recursion is bounded by fuel: a value, an
    exception, or no result yet. *)
Inductive Result (A : Type) : Type :=
| Ret (a : A)
| Exception
| OutOfFuel.
Arguments Ret {A} a.
Arguments Exception {A}.
Arguments OutOfFuel {A}.

#[export] Instance Result_bind : MBind Result := fun A B f m =>
  match m with Ret a => f a | Exception => Exception | OutOfFuel => OutOfFuel end.

(** An operation that may throw, as a result. *)
Definition lift {A} (o : option A) : Result A :=
  match o with Some a => Ret a | None => Exception end.

(** [nth_def l i d]: reads an index the caller has checked to be in range. *)
Definition nth_def {A} (l : list A) (i : nat) (d : A) : A := nth i l d.

(** First pair of an association list with a given key: [std::map] built from an
    initialiser list keeps the first entry of a key, and [at] throws when there is
    none. *)
Fixpoint assoc {K V} `{EqDecision K} (k : K) (l : list (K * V)) : option V :=
  match l with
  | [] => None
  | (k', v) :: l' => if decide (k = k') then Some v else assoc k l'
  end.

Create HintDb word discriminated.
Create HintDb evmasm discriminated.

(** Destructs the scrutinee of the first [match] or [if] of the goal or a
    hypothesis and simplifies. *)
Ltac case_step :=
  match goal with
  | H : context [match ?x with _ => _ end] |- _ => destruct x eqn:?; simplify_eq/=
  | |- context [match ?x with _ => _ end] => destruct x eqn:?; simplify_eq/=
  end.

(** Turns boolean tests on integers into propositions. *)
Ltac bool_to_prop :=
  repeat match goal with
  | H : (_ && _)%bool = true |- _ => apply andb_true_iff in H; destruct H
  | H : (_ || _)%bool = false |- _ => apply orb_false_iff in H; destruct H
  | H : (_ && _)%bool = false |- _ => apply andb_false_iff in H
  | H : (_ || _)%bool = true |- _ => apply orb_true_iff in H
  | H : negb _ = true |- _ => apply negb_true_iff in H
  | H : negb _ = false |- _ => apply negb_false_iff in H
  | H : (_ =? _) = true |- _ => apply Z.eqb_eq in H
  | H : (_ =? _) = false |- _ => apply Z.eqb_neq in H
  | H : (_ <? _) = true |- _ => apply Z.ltb_lt in H
  | H : (_ <? _) = false |- _ => apply Z.ltb_ge in H
  | H : (_ <=? _) = true |- _ => apply Z.leb_le in H
  | H : (_ <=? _) = false |- _ => apply Z.leb_gt in H
  end.

Lemma assertThrow_Some (b : bool) u : assertThrow b = Some u <-> b = true.
Proof. destruct b, u; split; done. Qed.

Lemma assoc_In {K V} `{EqDecision K} (k : K) (l : list (K * V)) v :
  assoc k l = Some v -> In (k, v) l.
Proof.
  induction l as [|[k' v'] l IH]; simpl; [done|].
  case_decide; naive_solver.
Qed.

Lemma assoc_None {K V} `{EqDecision K} (k : K) (l : list (K * V)) :
  assoc k l = None <-> ~ In k (map fst l).
Proof.
  induction l as [|[k' v'] l IH]; simpl; [naive_solver|].
  case_decide; naive_solver.
Qed.
