(* ===== verification/U256.v ===== *)
(** * U256: the 256-bit words of libsolutil/Common.h

    [u256] is boost's unchecked unsigned 256-bit integer: arithmetic wraps modulo
    2^256.  [s256] is a sign-magnitude integer with 256 bits of magnitude, so every
    value met below fits and it is a plain [Z].  [bigint] is [Z]. *)

From S2P Require Import Prelude.

(** The word size, [Pattern::WordSize]. *)
Definition WordSize : Z := 256.
Definition modulus : Z := 2 ^ 256.

Definition is_u256 (x : Z) : Prop := 0 <= x < modulus.

(** Conversion of a [bigint] to [u256]: keeps the low 256 bits. *)
Definition u256 (x : Z) : Z := x mod modulus.

Definition u256_add (a b : Z) : Z := u256 (a + b).
Definition u256_sub (a b : Z) : Z := u256 (a - b).
Definition u256_mul (a b : Z) : Z := u256 (a * b).
Definition u256_not (a : Z) : Z := u256 (Z.lnot a).
Definition u256_shl (a n : Z) : Z := u256 (Z.shiftl a n).
Definition u256_shr (a n : Z) : Z := Z.shiftr a n.

Definition u256_max : Z := modulus - 1.

(** [u2s]: two's complement reading of a word. *)
Definition u2s (_u : Z) : Z :=
  let c_end := Z.shiftl 1 256 in
  if Z.testbit _u 255 then - (c_end - _u) else _u.

(** [s2u]: two's complement representation of a signed number. *)
Definition s2u (_u : Z) : Z :=
  let c_end := Z.shiftl 1 256 in
  if 0 <=? _u then u256 _u else u256 (c_end + _u).

(** The loop of [exp256]: one iteration per bit of the exponent. *)
Fixpoint exp256_loop (fuel : nat) (result _base _exponent : Z) : option Z :=
  if _exponent =? 0 then Some result
  else match fuel with
       | O => None
       | S fuel =>
           let result := if Z.testbit _exponent 0 then u256_mul result _base else result in
           exp256_loop fuel result (u256_mul _base _base) (u256_shr _exponent 1)
       end.

(** A word has 256 bits, so 256 iterations are enough ([exp256_correct]). *)
Definition exp256 (_base _exponent : Z) : option Z :=
  exp256_loop 256 1 _base _exponent.

(** ** Lemmas on words *)

Lemma modulus_pos : 0 < modulus.
Proof. done. Qed.

Lemma u256_range x : is_u256 (u256 x).
Proof. apply Z.mod_pos_bound, modulus_pos. Qed.

Lemma u256_id x : is_u256 x -> u256 x = x.
Proof. apply Z.mod_small. Qed.

Lemma u256_idem x : u256 (u256 x) = u256 x.
Proof. apply u256_id, u256_range. Qed.

Lemma u256_small x : 0 <= x < 256 -> is_u256 x.
Proof. unfold is_u256. change modulus with (2 ^ 256). lia. Qed.

Lemma bits_above x n i : 0 <= x < 2 ^ n -> n <= i -> Z.testbit x i = false.
Proof.
  intros Hx Hi. destruct (Z.eq_dec x 0) as [->|]; [apply Z.bits_0|].
  destruct (Z.lt_ge_cases n 0).
  - rewrite Z.pow_neg_r in Hx by done. lia.
  - apply Z.bits_above_log2; [lia|].
    apply Z.log2_lt_pow2; [lia|].
    eapply Z.lt_le_trans; [apply Hx|]. apply Z.pow_le_mono_r; lia.
Qed.

Lemma word_bits_above x i : is_u256 x -> 256 <= i -> Z.testbit x i = false.
Proof. apply bits_above. Qed.

(** A non-negative integer is below [2^n] when its bits from [n] on are clear. *)
Lemma below_pow2 x n :
  0 <= n -> 0 <= x -> (forall i, n <= i -> Z.testbit x i = false) -> x < 2 ^ n.
Proof.
  intros Hn Hx Hb. destruct (Z.eq_dec x 0) as [->|]; [apply Z.pow_pos_nonneg; lia|].
  destruct (Z.lt_ge_cases x (2 ^ n)) as [|Hge]; [done|].
  pose proof (Z.log2_le_mono _ _ Hge) as Hl. rewrite Z.log2_pow2 in Hl by lia.
  specialize (Hb (Z.log2 x) Hl). rewrite Z.bit_log2 in Hb; [done|lia].
Qed.

Lemma is_u256_bits x :
  0 <= x -> (forall i, 256 <= i -> Z.testbit x i = false) -> is_u256 x.
Proof. intros. split; [done|]. by apply below_pow2. Qed.

Lemma u256_testbit x i :
  Z.testbit (u256 x) i = if i <? 256 then Z.testbit x i else false.
Proof.
  unfold u256. change modulus with (2 ^ 256).
  destruct (Z.ltb_spec i 256).
  - destruct (Z.lt_ge_cases i 0); [by rewrite !Z.testbit_neg_r|].
    by apply Z.mod_pow2_bits_low.
  - by apply Z.mod_pow2_bits_high.
Qed.

Lemma u256_land_ones x : Z.land x u256_max = u256 x.
Proof. change u256_max with (Z.ones 256). by apply Z.land_ones. Qed.

Lemma land_range a b : is_u256 a -> is_u256 b -> is_u256 (Z.land a b).
Proof.
  intros Ha Hb. apply is_u256_bits; [apply Z.land_nonneg; left; apply Ha|].
  intros i Hi. by rewrite Z.land_spec, (word_bits_above a).
Qed.

Lemma lor_range a b : is_u256 a -> is_u256 b -> is_u256 (Z.lor a b).
Proof.
  intros Ha Hb. apply is_u256_bits.
  - apply Z.lor_nonneg; split; [apply Ha|apply Hb].
  - intros i Hi. by rewrite Z.lor_spec, (word_bits_above a), (word_bits_above b).
Qed.

Lemma lxor_range a b : is_u256 a -> is_u256 b -> is_u256 (Z.lxor a b).
Proof.
  intros Ha Hb. apply is_u256_bits.
  - apply Z.lxor_nonneg; split; intros; [apply Hb|apply Ha].
  - intros i Hi. by rewrite Z.lxor_spec, (word_bits_above a), (word_bits_above b).
Qed.

Lemma shr_range a n : is_u256 a -> 0 <= n -> is_u256 (Z.shiftr a n).
Proof.
  intros Ha Hn. apply is_u256_bits; [apply Z.shiftr_nonneg, Ha|].
  intros i Hi. rewrite Z.shiftr_spec by lia. apply word_bits_above; [done|lia].
Qed.

Lemma u256_not_eq a : is_u256 a -> u256_not a = u256_max - a.
Proof.
  intros Ha. unfold u256_not, u256, u256_max, Z.lnot.
  rewrite <- (Z.mod_add _ 1) by done. rewrite Z.mod_small; unfold is_u256 in *; lia.
Qed.

Lemma u256_max_testbit i : Z.testbit u256_max i = (0 <=? i) && (i <? 256).
Proof. change u256_max with (Z.ones 256). by apply Z.testbit_ones. Qed.

Lemma byte_mask_testbit i : Z.testbit 255 i = (0 <=? i) && (i <? 8).
Proof. change 255 with (Z.ones 8). by apply Z.testbit_ones. Qed.

Lemma u256_shl_range a n : is_u256 (u256_shl a n).
Proof. apply u256_range. Qed.

Lemma u256_shr_range a n : is_u256 a -> is_u256 n -> is_u256 (u256_shr a n).
Proof. intros Ha [Hn _]. by apply shr_range. Qed.

Lemma is_u256_0 : is_u256 0.
Proof. done. Qed.

Lemma if_range (b : bool) x y : is_u256 x -> is_u256 y -> is_u256 (if b then x else y).
Proof. by destruct b. Qed.

#[export] Hint Resolve u256_range is_u256_0 u256_shl_range u256_shr_range if_range land_range lor_range lxor_range shr_range : word.
#[export] Hint Rewrite u256_testbit Z.land_spec Z.lor_spec Z.lxor_spec Z.bits_0 : wordbits.

Lemma shiftl_testbit a n i : Z.testbit (Z.shiftl a n) i = (0 <=? i) && Z.testbit a (i - n).
Proof.
  destruct (Z.leb_spec 0 i); [by apply Z.shiftl_spec|by rewrite Z.testbit_neg_r].
Qed.

Lemma shiftr_testbit a n i : Z.testbit (Z.shiftr a n) i = (0 <=? i) && Z.testbit a (i + n).
Proof.
  destruct (Z.leb_spec 0 i); [by apply Z.shiftr_spec|by rewrite Z.testbit_neg_r].
Qed.

(** [word_bits]: an equation between words by its bits; every shift, mask and wrap
    is turned into a test on the index and the cases are closed by [lia] and the
    range of the variables. *)
Ltac bit_spec :=
  match goal with
  | |- context [Z.testbit (u256 ?x) ?i] => rewrite (u256_testbit x i)
  | |- context [Z.testbit (Z.land ?a ?b) ?i] => rewrite (Z.land_spec a b i)
  | |- context [Z.testbit (Z.lor ?a ?b) ?i] => rewrite (Z.lor_spec a b i)
  | |- context [Z.testbit (Z.lxor ?a ?b) ?i] => rewrite (Z.lxor_spec a b i)
  | |- context [Z.testbit (Z.lnot ?a) ?i] => rewrite (Z.lnot_spec a i) by lia
  | |- context [Z.testbit (Z.shiftl ?a ?n) ?i] => rewrite (Z.shiftl_spec a n i) by lia
  | |- context [Z.testbit (Z.shiftr ?a ?n) ?i] => rewrite (Z.shiftr_spec a n i) by lia
  | |- context [Z.testbit u256_max ?i] => rewrite (u256_max_testbit i)
  | |- context [Z.testbit 255 ?i] => rewrite (byte_mask_testbit i)
  | |- context [Z.testbit 0 ?i] => rewrite (Z.bits_0 i)
  | |- context [Z.testbit (-1) ?i] => rewrite (Z.bits_m1 i) by lia
  | |- context [Z.testbit ?a ?i] => rewrite (Z.testbit_neg_r a i) by lia
  | H : is_u256 ?a |- context [Z.testbit ?a ?i] => rewrite (word_bits_above a i H) by lia
  | |- context [Z.testbit (Z.shiftl ?a ?n) ?i] => rewrite (shiftl_testbit a n i)
  | |- context [Z.testbit (Z.shiftr ?a ?n) ?i] => rewrite (shiftr_testbit a n i)
  end.

Ltac bit_case :=
  match goal with
  | |- context [?i <? ?n] => destruct (Z.ltb_spec i n)
  | |- context [?i <=? ?n] => destruct (Z.leb_spec i n)
  end.

Ltac word_bits :=
  apply Z.bits_inj'; intros i Hi;
  repeat (bit_spec || bit_case);
  rewrite ?andb_true_l, ?andb_true_r, ?andb_false_l, ?andb_false_r;
  try (f_equal; lia);
  repeat match goal with
  | |- context [Z.testbit ?a ?i] => destruct (Z.testbit a i)
  end; simpl; try done; try lia.

(** ** [exp256] is exponentiation modulo 2^256 *)

Lemma u256_mul_idem_l a b : u256_mul (u256 a) b = u256_mul a b.
Proof. unfold u256_mul, u256. by rewrite Zmult_mod_idemp_l. Qed.

Lemma u256_mul_idem_r a b : u256_mul a (u256 b) = u256_mul a b.
Proof. unfold u256_mul, u256. by rewrite Zmult_mod_idemp_r. Qed.

Lemma exp256_loop_spec fuel r b e :
  0 <= e < 2 ^ Z.of_nat fuel -> is_u256 r ->
  exp256_loop fuel r b e = Some (u256 (r * b ^ e)).
Proof.
  revert r b e. induction fuel as [|fuel IH]; intros r b e He Hr.
  - assert (e = 0) as -> by (simpl in He; lia). simpl.
    by rewrite Z.mul_1_r, u256_id.
  - cbn [exp256_loop]. destruct (Z.eqb_spec e 0) as [->|Hne].
    { by rewrite Z.pow_0_r, Z.mul_1_r, u256_id. }
    unfold u256_shr. rewrite Z.shiftr_div_pow2, Z.pow_1_r by lia.
    rewrite Nat2Z.inj_succ, Z.pow_succ_r in He by lia.
    rewrite IH; [| split; [apply Z.div_pos; lia | apply Z.div_lt_upper_bound; lia] |].
    + f_equal. rewrite Z.bit0_odd.
      assert (e = 2 * (e / 2) + Z.b2z (Z.odd e)) as He2.
      { rewrite <- Z.div2_div. apply Z.div2_odd. }
      set (q := e / 2) in *. assert (0 <= q) by (apply Z.div_pos; lia).
      change (u256 (?x * ?y)) with (u256_mul x y).
      assert (u256_mul b b ^ q mod modulus = (b * b) ^ q mod modulus) as Hpow
        by (unfold u256_mul, u256; by rewrite Z.mod_pow_l).
      rewrite <- u256_mul_idem_r. unfold u256 at 1. rewrite Hpow.
      change (_ mod modulus) with (u256 ((b * b) ^ q)). rewrite u256_mul_idem_r.
      rewrite He2 at 2.
      rewrite Z.pow_add_r, Z.pow_mul_r by (destruct (Z.odd e); simpl; lia).
      replace (b ^ 2) with (b * b) by lia.
      destruct (Z.odd e); unfold Z.b2z.
      * unfold u256_mul at 2. rewrite u256_mul_idem_l. unfold u256_mul. f_equal. lia.
      * unfold u256_mul. f_equal. lia.
    + destruct (Z.testbit e 0); [apply u256_range|done].
Qed.

Lemma exp256_pow b e :
  is_u256 b -> is_u256 e -> exp256 b e = Some (u256 (b ^ e)).
Proof.
  intros Hb He. unfold exp256. rewrite exp256_loop_spec; [by rewrite Z.mul_1_l| |].
  - apply He.
  - by apply u256_small.
Qed.

(** ** Two's complement *)

Lemma u2s_cases u :
  is_u256 u -> u2s u = if u <? 2 ^ 255 then u else u - modulus.
Proof.
  intros Hu. unfold u2s. change (Z.shiftl 1 256) with modulus.
  destruct (Z.ltb_spec u (2 ^ 255)).
  - by rewrite (bits_above u 255) by (split; [apply Hu|done] || lia).
  - replace (Z.testbit u 255) with true; [lia|].
    symmetry. apply Z.testbit_true; [lia|].
    replace (u / 2 ^ 255) with 1; [done|].
    apply Z.div_unique with (u - 2 ^ 255).
    + left. unfold is_u256, modulus in Hu. lia.
    + lia.
Qed.

(** [u2s] reads a word as a signed number of 256 bits and [s2u] brings it back: no word
    is lost and no intermediate overflows. *)
Theorem u2s_s2u_roundtrip u :
  is_u256 u -> s2u (u2s u) = u /\ - 2 ^ 255 <= u2s u < 2 ^ 255.
Proof.
  intros Hu. rewrite u2s_cases by done. unfold s2u.
  change (Z.shiftl 1 256) with modulus.
  pose proof Hu as [H0 H1]. unfold modulus in *.
  destruct (Z.ltb_spec u (2 ^ 255)).
  - destruct (Z.leb_spec 0 u); [|lia]. split; [by apply u256_id|lia].
  - destruct (Z.leb_spec 0 (u - 2 ^ 256)); [lia|].
    split; [|lia]. rewrite u256_id; [lia|]. unfold is_u256, modulus. lia.
Qed.

Lemma u2s_s2u_roundtrip_witness : s2u (u2s u256_max) = u256_max /\ - 2 ^ 255 <= u2s u256_max < 2 ^ 255.
Proof. apply u2s_s2u_roundtrip. by split. Defined.

(** [exp256], square and multiply with wrapping products, returns for every exponent and
    is the power modulo 2^256. *)
Theorem exp256_correct b e :
  is_u256 b -> is_u256 e -> exp256 b e = Some (u256 (b ^ e)).
Proof. apply exp256_pow. Qed.

Lemma exp256_correct_witness : exp256 3 300 = Some (u256 (3 ^ 300)).
Proof. apply exp256_correct; by split. Defined.
