(* ===== verification/CommonData.v ===== *)
(** * CommonData: byte strings and hexadecimal, libsolutil/CommonData.{h,cpp}

    A [bytes] is a list of integers in [0,256); a [std::string] is the list of its
    character codes. *)

From Stdlib Require Import Ascii.
From S2P Require Import Prelude U256.

(** The code of a character literal. *)
Definition chr (c : Ascii.ascii) : Z := Z.of_N (Ascii.N_of_ascii c).
(** The character codes of a string literal. *)
Definition str (s : String.string) : list Z := map chr (String.list_ascii_of_string s).

Arguments chr _%_char_scope.
Arguments str _%_string_scope.

Definition is_byte (b : Z) : Prop := 0 <= b < 256.
Definition is_bytes (l : list Z) : Prop := Forall is_byte l.

(** ** Big-endian encodings *)

(** [toBigEndian(_val, o_out)] for an output of [size] bytes: the loop fills
    [o_out[i - 1]] from the last index down, shifting the value by 8. *)
Fixpoint toBigEndian (size : nat) (_val : Z) : list Z :=
  match size with
  | O => []
  | S i => toBigEndian i (Z.shiftr _val 8) ++ [Z.land _val 0xff]
  end.

(** [fromBigEndian<u256>]. *)
Definition fromBigEndian (_bytes : list Z) : Z :=
  fold_left (fun ret i => u256 (Z.lor (u256_shl ret 8) i)) _bytes 0.

(** The counting loop of [bytesRequired] and [toCompactBigEndian]. *)
Fixpoint bytesRequired_loop (fuel : nat) (_i : Z) (i : nat) : nat :=
  match fuel with
  | O => i
  | S fuel => if _i =? 0 then i else bytesRequired_loop fuel (Z.shiftr _i 8) (S i)
  end.

(** A word has 32 bytes: after 32 shifts it is zero ([bytesRequired_spec]). *)
Definition bytesRequired (_i : Z) : nat := bytesRequired_loop 32 _i 0.

Definition toCompactBigEndian (_val : Z) (_min : nat) : list Z :=
  toBigEndian (Nat.max _min (bytesRequired _val)) _val.

(** ** Hexadecimal *)

Inductive HexPrefix := DontAdd | Add.
Inductive HexCase := Lower | Upper | Mixed.
Inductive WhenError := DontThrow | Throw.

Definition upperHexChars : list Z := str "0123456789ABCDEF".
Definition lowerHexChars : list Z := str "0123456789abcdef".

(** [toHex(uint8_t, HexCase)]. *)
Definition toHex_byte (_data : Z) (_case : HexCase) : option (list Z) :=
  match _case with
  | Mixed => None
  | _ =>
      let chars := match _case with Upper => upperHexChars | _ => lowerHexChars end in
      Some [nth_def chars (Z.to_nat (Z.land (_data / 16) 0xf)) 0;
            nth_def chars (Z.to_nat (Z.land _data 0xf)) 0]
  end.

(** The loop of [toHex(bytes, ...)]; [rix] is a [size_t] counting down. *)
Fixpoint toHex_loop (_case : HexCase) (rix : Z) (_data : list Z) : list Z :=
  match _data with
  | [] => []
  | c :: _data =>
      let chars := match _case with
                   | Mixed => if Z.land rix 2 =? 0 then lowerHexChars else upperHexChars
                   | Upper => upperHexChars
                   | Lower => lowerHexChars
                   end in
      nth_def chars (Z.to_nat (Z.land (Z.shiftr c 4) 0xf)) 0
        :: nth_def chars (Z.to_nat (Z.land c 0xf)) 0
        :: toHex_loop _case ((rix - 1) mod 2 ^ 64) _data
  end.

Definition toHex (_data : list Z) (_prefix : HexPrefix) (_case : HexCase) : list Z :=
  (match _prefix with Add => str "0x" | DontAdd => [] end)
    ++ toHex_loop _case ((Z.of_nat (length _data) - 1) mod 2 ^ 64) _data.

(** [fromHex(char, WhenError)]: [None] is the exception, [-1] the error value. *)
Definition fromHex_char (_i : Z) (_throw : WhenError) : option Z :=
  if (chr "0" <=? _i) && (_i <=? chr "9") then Some (_i - chr "0")
  else if (chr "a" <=? _i) && (_i <=? chr "f") then Some (_i - chr "a" + 10)
  else if (chr "A" <=? _i) && (_i <=? chr "F") then Some (_i - chr "A" + 10)
  else match _throw with Throw => None | DontThrow => Some (-1) end.

(** The pair loop of [fromHex(string, ...)]; reading [_s[i + 1]] at the end gives the
    terminating NUL of the string. [inl tt] is the early return of empty bytes. *)
Fixpoint fromHex_loop (_s : list Z) (_throw : WhenError) (ret : list Z) : option (list Z) :=
  match _s with
  | [] => Some ret
  | [c] =>
      h ← fromHex_char c _throw; l ← fromHex_char 0 _throw;
      if negb (h =? -1) && negb (l =? -1) then Some (ret ++ [(h * 16 + l) mod 256])
      else Some []
  | c :: c' :: _s =>
      h ← fromHex_char c _throw; l ← fromHex_char c' _throw;
      if negb (h =? -1) && negb (l =? -1)
      then fromHex_loop _s _throw (ret ++ [(h * 16 + l) mod 256])
      else Some []
  end.

Definition fromHex (_s : list Z) (_throw : WhenError) : option (list Z) :=
  match _s with
  | [] => Some []
  | _ =>
      let s := if (2 <=? Z.of_nat (length _s)) && (nth_def _s 0 0 =? chr "0")
                  && (nth_def _s 1 0 =? chr "x") then 2%nat else 0%nat in
      if Nat.odd (length _s) then
        h ← fromHex_char (nth_def _s s 0) _throw;
        if negb (h =? -1) then fromHex_loop (skipn (S s) _s) _throw [h] else Some []
      else fromHex_loop (skipn s _s) _throw []
  end.

(** [_string.find_first_not_of(chars) == npos]. *)
Definition only_chars (chars _string : list Z) : bool :=
  forallb (fun c => existsb (Z.eqb c) chars) _string.
(** [_string.find_first_of(chars) != npos]. *)
Definition has_chars (chars _string : list Z) : bool :=
  existsb (fun c => existsb (Z.eqb c) chars) _string.

Definition isValidHex (_string : list Z) : bool :=
  if negb (bool_decide (firstn 2 _string = str "0x")) then false
  else only_chars (str "0123456789abcdefABCDEF") (skipn 2 _string).

Definition isValidDecimal (_string : list Z) : bool :=
  match _string with
  | [] => false
  | c :: _ =>
      if bool_decide (_string = str "0") then true
      else if c =? chr "0" then false
      else only_chars (str "0123456789") _string
  end.

(** [tolower] and [toupper] of the classic locale. *)
Definition tolower (c : Z) : Z :=
  if (chr "A" <=? c) && (c <=? chr "Z") then c + 32 else c.
Definition toupper (c : Z) : Z :=
  if (chr "a" <=? c) && (c <=? chr "z") then c - 32 else c.

(** ** Address checksums *)

Section Checksum.
(** The 32 bytes of the Keccak-256 hash of a string; nothing is assumed of it. *)
Context (keccak256 : list Z -> list Z).

Definition getChecksummedAddress (_addr : list Z) : option (list Z) :=
  let s := if bool_decide (firstn 2 _addr = str "0x") then skipn 2 _addr else _addr in
  _ ← assertThrow (Nat.eqb (length s) 40);
  _ ← assertThrow (only_chars (str "0123456789abcdefABCDEF") s);
  let hash := keccak256 (map tolower s) in
  Some (str "0x" ++ imap (fun i addressCharacter =>
    let nibble := Z.land (Z.shiftr (nth_def hash (i / 2) 0)
                                   (4 * (1 - Z.of_nat i mod 2))) 0xf in
    if 8 <=? nibble then toupper addressCharacter else tolower addressCharacter) s).

Definition passesAddressChecksum (_str : list Z) (_strict : bool) : option bool :=
  let s := if bool_decide (firstn 2 _str = str "0x") then _str else str "0x" ++ _str in
  if negb (Nat.eqb (length s) 42) then Some false
  else if negb _strict && (negb (has_chars (str "abcdef") s) || negb (has_chars (str "ABCDEF") s))
  then Some true
  else c ← getChecksummedAddress s; Some (bool_decide (s = c)).

End Checksum.

(** ** Lemmas: big-endian *)

Lemma toBigEndian_length n v : length (toBigEndian n v) = n.
Proof. revert v; induction n; intros; simpl; [done|]. rewrite length_app, IHn; simpl; lia. Qed.

Lemma land_byte v : is_byte (Z.land v 0xff).
Proof.
  unfold is_byte. change 0xff with (Z.ones 8). rewrite Z.land_ones by lia.
  apply Z.mod_pos_bound; lia.
Qed.

Lemma toBigEndian_bytes n v : is_bytes (toBigEndian n v).
Proof.
  revert v; induction n; intros; simpl; [constructor|].
  apply Forall_app; split; [apply IHn|]. constructor; [apply land_byte|constructor].
Qed.

(** The mathematical value of a byte string. *)
Definition be_value (l : list Z) : Z := fold_left (fun r b => r * 256 + b) l 0.

Lemma be_value_snoc l b : be_value (l ++ [b]) = be_value l * 256 + b.
Proof. unfold be_value. by rewrite fold_left_app. Qed.

Lemma be_value_toBigEndian n v : 0 <= v -> be_value (toBigEndian n v) = v mod 256 ^ Z.of_nat n.
Proof.
  revert v. induction n as [|n IH]; intros v Hv.
  - simpl. by rewrite Z.mod_1_r.
  - cbn [toBigEndian]. rewrite be_value_snoc.
    rewrite Z.shiftr_div_pow2 by lia. change (2 ^ 8) with 256.
    rewrite IH by (apply Z.div_pos; lia).
    change 0xff with (Z.ones 8). rewrite Z.land_ones by lia. change (2 ^ 8) with 256.
    rewrite Nat2Z.inj_succ, Z.pow_succ_r by lia.
    rewrite Z.rem_mul_r by lia. lia.
Qed.

Lemma be_value_bound l : is_bytes l -> 0 <= be_value l < 256 ^ Z.of_nat (length l).
Proof.
  intros Hl. induction l as [|b l IH] using rev_ind; [done|].
  apply Forall_app in Hl as [Hl Hb]. inversion Hb as [|? ? Hb' _]; subst.
  rewrite be_value_snoc, length_app. simpl length.
  replace (Z.of_nat (length l + 1)) with (Z.succ (Z.of_nat (length l))) by lia.
  rewrite Z.pow_succ_r by lia. specialize (IH Hl). unfold is_byte in Hb'. lia.
Qed.

Lemma lor_shl_byte r b : 0 <= r -> is_byte b -> Z.lor (r * 256) b = r * 256 + b.
Proof.
  intros Hr Hb. change 256 with (2 ^ 8). rewrite <- Z.shiftl_mul_pow2 by lia.
  symmetry. apply Z.add_nocarry_lor.
  apply Z.bits_inj'; intros i Hi. rewrite Z.land_spec, Z.bits_0, Z.shiftl_spec by lia.
  destruct (Z.lt_ge_cases i 8).
  - by rewrite Z.testbit_neg_r by lia.
  - rewrite (bits_above b 8); [apply andb_false_r|apply Hb|lia].
Qed.

Lemma fromBigEndian_value l :
  is_bytes l -> (length l <= 32)%nat -> fromBigEndian l = be_value l.
Proof.
  intros Hl Hlen. induction l as [|b l IH] using rev_ind; [done|].
  unfold fromBigEndian. rewrite fold_left_app. cbn [fold_left].
  fold (fromBigEndian l).
  pose proof Hl as Hall. apply Forall_app in Hl as [Hl Hb]. inversion Hb as [|? ? Hb' _]; subst.
  rewrite length_app in Hlen. simpl in Hlen.
  rewrite IH by (done || lia). rewrite be_value_snoc.
  pose proof (be_value_bound l Hl) as Hv.
  assert (be_value l * 256 + b < 2 ^ 256) as Hub.
  { pose proof (be_value_bound _ Hall) as [_ Hall']. rewrite be_value_snoc, length_app in Hall'.
    simpl length in Hall'. eapply Z.lt_le_trans; [apply Hall'|].
    change (2 ^ 256) with (256 ^ 32). apply Z.pow_le_mono_r; lia. }
  unfold is_byte in Hb'.
  unfold u256_shl. rewrite Z.shiftl_mul_pow2 by lia. change (2 ^ 8) with 256.
  rewrite (u256_id (be_value l * 256)) by (unfold is_u256, modulus; lia).
  rewrite lor_shl_byte by (done || lia). apply u256_id. unfold is_u256, modulus. lia.
Qed.

Lemma bytesRequired_loop_spec fuel v i :
  0 <= v < 256 ^ Z.of_nat fuel ->
  exists n, bytesRequired_loop fuel v i = (i + n)%nat /\ (n <= fuel)%nat /\
    v < 256 ^ Z.of_nat n /\ (v = 0 /\ n = 0%nat \/ 256 ^ (Z.of_nat n - 1) <= v /\ (0 < n)%nat).
Proof.
  revert v i. induction fuel as [|fuel IH]; intros v i Hv.
  - simpl in *. exists 0%nat. split_and!; lia.
  - cbn [bytesRequired_loop]. destruct (Z.eqb_spec v 0) as [->|Hne].
    { exists 0%nat. split_and!; try lia. }
    rewrite Z.shiftr_div_pow2 by lia. change (2 ^ 8) with 256.
    rewrite Nat2Z.inj_succ, Z.pow_succ_r in Hv by lia.
    destruct (IH (v / 256) (S i)) as (n & Hn & Hle & Hlt & Hge).
    { split; [apply Z.div_pos; lia | apply Z.div_lt_upper_bound; lia]. }
    exists (S n). rewrite Hn. split_and!; [lia|lia| |].
    + rewrite Nat2Z.inj_succ, Z.pow_succ_r by lia.
      pose proof (Z.mod_pos_bound v 256). pose proof (Z.div_mod v 256). lia.
    + right. split; [|lia].
      replace (Z.of_nat (S n) - 1) with (Z.of_nat n) by lia.
      pose proof (Z.mod_pos_bound v 256). pose proof (Z.div_mod v 256).
      destruct Hge as [[Hv0 ->]|[Hge Hn0]]; [simpl; lia|].
      replace (Z.of_nat n) with (Z.succ (Z.of_nat n - 1)) by lia.
      rewrite Z.pow_succ_r by lia. lia.
Qed.

Lemma bytesRequired_spec v :
  is_u256 v ->
  (bytesRequired v <= 32)%nat /\ v < 256 ^ Z.of_nat (bytesRequired v) /\
  (v = 0 /\ bytesRequired v = 0%nat \/ 256 ^ (Z.of_nat (bytesRequired v) - 1) <= v /\ (0 < bytesRequired v)%nat).
Proof.
  intros Hv. unfold bytesRequired.
  destruct (bytesRequired_loop_spec 32 v 0) as (n & -> & H); [apply Hv|done].
Qed.

(** A value fits in [n] bytes exactly when [bytesRequired] says so. *)
Lemma bytesRequired_le v n :
  is_u256 v -> (bytesRequired v <= n)%nat <-> v < 256 ^ Z.of_nat n.
Proof.
  intros Hv. destruct (bytesRequired_spec v Hv) as (H32 & Hlt & Hge). split; intros H.
  - eapply Z.lt_le_trans; [done|]. apply Z.pow_le_mono_r; lia.
  - destruct Hge as [[_ ->]|[Hge Hpos]]; [lia|].
    assert (Z.of_nat (bytesRequired v) - 1 < Z.of_nat n); [|lia].
    eapply (Z.pow_lt_mono_r_iff 256); lia.
Qed.

Lemma be_value_inj l l' :
  is_bytes l -> is_bytes l' -> length l = length l' -> be_value l = be_value l' -> l = l'.
Proof.
  revert l'. induction l as [|b l IH] using rev_ind; intros l' Hl Hl' Hlen Hv.
  { by destruct l'. }
  destruct l' as [|b' l' _] using rev_ind.
  { rewrite length_app in Hlen. simpl in Hlen. lia. }
  rewrite !length_app in Hlen. simpl in Hlen. rewrite !be_value_snoc in Hv.
  apply Forall_app in Hl as [Hl Hb], Hl' as [Hl' Hb'].
  rewrite Forall_singleton in Hb, Hb'.
  assert (be_value l = be_value l') as Hll by (unfold is_byte in *; lia).
  assert (b = b') as -> by lia.
  f_equal. apply IH; [done..|lia|done].
Qed.

Lemma fromHex_char_byte c : is_byte c -> forall t, fromHex_char c t <> None \/ t = Throw.
Proof. intros _ t. unfold fromHex_char. repeat case_match; auto; left; done. Qed.

(** Every hexadecimal digit reads back as its value, in either case. *)
Lemma fromHex_char_digit d t :
  0 <= d < 16 ->
  fromHex_char (nth_def lowerHexChars (Z.to_nat d) 0) t = Some d /\
  fromHex_char (nth_def upperHexChars (Z.to_nat d) 0) t = Some d.
Proof.
  intros Hd. assert (Forall (fun d =>
    forall t, fromHex_char (nth_def lowerHexChars (Z.to_nat d) 0) t = Some d /\
    fromHex_char (nth_def upperHexChars (Z.to_nat d) 0) t = Some d) (seqZ 0 16)) as Hall
    by (repeat constructor).
  rewrite Forall_forall in Hall. apply Hall. apply elem_of_seqZ. lia.
Qed.

Lemma nibbles b : is_byte b ->
  0 <= Z.land (Z.shiftr b 4) 0xf < 16 /\ 0 <= Z.land b 0xf < 16 /\
  (Z.land (Z.shiftr b 4) 0xf * 16 + Z.land b 0xf) mod 256 = b.
Proof.
  intros Hb. change 0xf with (Z.ones 4). rewrite !Z.land_ones, Z.shiftr_div_pow2 by lia.
  change (2 ^ 4) with 16. unfold is_byte in Hb.
  assert (0 <= b / 16 < 16) by (split; [apply Z.div_pos|apply Z.div_lt_upper_bound]; lia).
  pose proof (Z.mod_pos_bound b 16 ltac:(lia)). pose proof (Z.div_mod b 16 ltac:(lia)).
  rewrite (Z.mod_small (b / 16)) by lia. split_and!; [lia..|].
  rewrite Z.mod_small; lia.
Qed.

(** The digits [toHex] writes are never the letter [x], so an unprefixed encoding is
    not mistaken for a prefixed one. *)
Lemma hex_digit_not_x d :
  0 <= d < 16 ->
  nth_def lowerHexChars (Z.to_nat d) 0 <> chr "x" /\ nth_def upperHexChars (Z.to_nat d) 0 <> chr "x".
Proof.
  intros Hd. assert (Forall (fun d =>
    nth_def lowerHexChars (Z.to_nat d) 0 <> chr "x" /\
    nth_def upperHexChars (Z.to_nat d) 0 <> chr "x") (seqZ 0 16)) as Hall
    by (repeat constructor; vm_compute; done).
  rewrite Forall_forall in Hall. apply Hall. apply elem_of_seqZ. lia.
Qed.

Lemma toHex_loop_length k r l : length (toHex_loop k r l) = (2 * length l)%nat.
Proof. revert r; induction l; intros; simpl; [done|]. rewrite IHl. lia. Qed.

Lemma fromHex_loop_toHex k r l t acc :
  is_bytes l -> fromHex_loop (toHex_loop k r l) t acc = Some (acc ++ l).
Proof.
  intros Hl. revert r acc. induction Hl as [|b l Hb Hl IH]; intros r acc.
  { cbn. by rewrite app_nil_r. }
  destruct (nibbles b Hb) as (Hh & Hlo & Hval).
  cbn [toHex_loop]. set (chars := match k with Lower => _ | _ => _ end).
  destruct (fromHex_char_digit _ t Hh) as [Hh1 Hh2].
  destruct (fromHex_char_digit _ t Hlo) as [Hl1 Hl2].
  assert (fromHex_char (nth_def chars (Z.to_nat (Z.land (Z.shiftr b 4) 0xf)) 0) t
            = Some (Z.land (Z.shiftr b 4) 0xf) /\
          fromHex_char (nth_def chars (Z.to_nat (Z.land b 0xf)) 0) t = Some (Z.land b 0xf)) as [E1 E2]
    by (unfold chars; destruct k; [done..|]; by destruct (Z.land r 2 =? 0)).
  cbn [fromHex_loop]. rewrite E1, E2. cbn [mbind option_bind].
  destruct (Z.eqb_spec (Z.land (Z.shiftr b 4) 0xf) (-1)); [lia|].
  destruct (Z.eqb_spec (Z.land b 0xf) (-1)); [lia|]. cbn [negb andb].
  rewrite IH, Hval, <- app_assoc. done.
Qed.

Lemma toHex_loop_not_x k r l :
  is_bytes l -> nth_def (toHex_loop k r l) 1 0 <> chr "x".
Proof.
  intros Hl. destruct Hl as [|b l Hb _]; [done|]. cbn [toHex_loop nth_def nth].
  destruct (nibbles b Hb) as (_ & Hlo & _). destruct (hex_digit_not_x _ Hlo) as [H1 H2].
  by destruct k; [..|destruct (Z.land r 2 =? 0)].
Qed.

(** Decoding the hexadecimal form of bytes gives the bytes back, with or without the
    prefix, in lower, upper or mixed case, whether errors throw or not. *)
Theorem fromHex_toHex l p k t :
  is_bytes l -> fromHex (toHex l p k) t = Some l.
Proof.
  intros Hl. unfold toHex. set (r := (_ mod 2 ^ 64)).
  assert (forall s, Nat.odd (2 * length l + 2 * s) = false) as Hpar
    by (intros s; rewrite <- Nat.mul_add_distr_l, Nat.odd_mul; done).
  destruct p.
  - simpl app. pose proof (toHex_loop_not_x k r l Hl) as Hx.
    unfold fromHex. destruct (toHex_loop k r l) as [|c cs] eqn:E.
    { destruct l; [done|by cbn in E]. }
    rewrite (proj2 (Z.eqb_neq _ _) Hx), andb_false_r. rewrite <- E.
    rewrite toHex_loop_length. specialize (Hpar 0%nat). rewrite Nat.add_0_r in Hpar.
    rewrite Hpar. by apply fromHex_loop_toHex.
  - change (str "0x" ++ ?x) with (48 :: 120 :: x). unfold fromHex.
    replace (length (48 :: 120 :: toHex_loop k r l)) with (2 * length l + 2 * 1)%nat
      by (simpl; rewrite toHex_loop_length; lia).
    rewrite Hpar. rewrite (proj2 (Z.leb_le 2 _)) by lia. cbn [nth_def nth skipn andb Z.eqb].
    change (48 =? chr "0") with true. change (120 =? chr "x") with true. cbn [andb skipn].
    by apply fromHex_loop_toHex.
Qed.

Lemma fromBigEndian_toBigEndian n v :
  (n <= 32)%nat -> 0 <= v < 256 ^ Z.of_nat n -> fromBigEndian (toBigEndian n v) = v.
Proof.
  intros Hn Hv. rewrite fromBigEndian_value.
  - rewrite be_value_toBigEndian by lia. by apply Z.mod_small.
  - apply toBigEndian_bytes.
  - by rewrite toBigEndian_length.
Qed.

Lemma toBigEndian_fromBigEndian l :
  is_bytes l -> (length l <= 32)%nat -> toBigEndian (length l) (fromBigEndian l) = l.
Proof.
  intros Hl Hlen. rewrite fromBigEndian_value by done.
  apply be_value_inj; [apply toBigEndian_bytes|done|apply toBigEndian_length|].
  pose proof (be_value_bound l Hl). rewrite be_value_toBigEndian by lia.
  by apply Z.mod_small.
Qed.

Lemma fromHex_toHex_witness : fromHex (toHex [0; 171; 255] Add Mixed) Throw = Some [0; 171; 255].
Proof. apply fromHex_toHex. repeat constructor; done. Defined.

(** The big-endian encodings are inverse: a number that fits the size comes back from its
    bytes, and up to 32 bytes come back from their number. *)
Theorem bigEndian_roundtrip n v l :
  (n <= 32)%nat -> 0 <= v < 256 ^ Z.of_nat n -> is_bytes l -> (length l <= 32)%nat ->
  fromBigEndian (toBigEndian n v) = v /\ toBigEndian (length l) (fromBigEndian l) = l.
Proof.
  intros Hn Hv Hl Hlen. split; [by apply fromBigEndian_toBigEndian|by apply toBigEndian_fromBigEndian].
Qed.

Lemma bigEndian_roundtrip_witness :
  fromBigEndian (toBigEndian 2 258) = 258 /\ toBigEndian 3 (fromBigEndian [0; 1; 2]) = [0; 1; 2].
Proof. apply (bigEndian_roundtrip 2 258 [0; 1; 2]); [lia|done|repeat constructor; done|simpl; lia]. Defined.

(** [toCompactBigEndian] is the shortest encoding of at least [_min] bytes: its length
    is the larger of [_min] and [bytesRequired], it decodes to the number, and no shorter byte
    string than [bytesRequired] does. *)
Theorem toCompactBigEndian_minimal v _min l :
  is_u256 v -> (_min <= 32)%nat -> is_bytes l -> (length l <= 32)%nat -> fromBigEndian l = v ->
  length (toCompactBigEndian v _min) = Nat.max _min (bytesRequired v) /\
  fromBigEndian (toCompactBigEndian v _min) = v /\ (bytesRequired v <= length l)%nat.
Proof.
  intros Hv Hm Hl Hlen Hf. destruct (bytesRequired_spec v Hv) as (H32 & Hlt & _).
  unfold toCompactBigEndian. split; [apply toBigEndian_length|]. split.
  - apply fromBigEndian_toBigEndian; [lia|]. split; [apply Hv|].
    eapply Z.lt_le_trans; [exact Hlt|]. apply Z.pow_le_mono_r; lia.
  - apply bytesRequired_le; [done|]. rewrite <- Hf, fromBigEndian_value by done. by apply be_value_bound.
Qed.

Lemma toCompactBigEndian_minimal_witness :
  length (toCompactBigEndian 258 1) = Nat.max 1 (bytesRequired 258) /\
  fromBigEndian (toCompactBigEndian 258 1) = 258 /\ (bytesRequired 258 <= 3)%nat.
Proof.
  apply (toCompactBigEndian_minimal 258 1 [0; 1; 2]); [by split|lia|repeat constructor; done|simpl; lia|done].
Defined.

(** ** Checksums *)

Lemma has_two_chars c : In c (str "0123456789abcdefABCDEF") ->
  tolower (toupper c) = tolower c /\ tolower (tolower c) = tolower c /\
  existsb (Z.eqb (toupper c)) (str "0123456789abcdefABCDEF") = true /\
  existsb (Z.eqb (tolower c)) (str "0123456789abcdefABCDEF") = true.
Proof. intros H. repeat destruct H as [<-|H]; [vm_compute; done..|destruct H]. Qed.

(** Changing the case of digits changes neither the digits nor what is hashed. *)
Lemma cased_digits s (f : nat -> bool) :
  only_chars (str "0123456789abcdefABCDEF") s = true ->
  let c := imap (fun i a => if f i then toupper a else tolower a) s in
  map tolower c = map tolower s /\ only_chars (str "0123456789abcdefABCDEF") c = true /\
  imap (fun i a => if f i then toupper a else tolower a) c = c.
Proof.
  revert f. induction s as [|a s IH]; intros f Hs; [done|].
  unfold only_chars in Hs. cbn [forallb] in Hs. apply andb_true_iff in Hs as [Ha Hs].
  apply existsb_exists in Ha as (a' & Hin & ->%Z.eqb_eq).
  destruct (has_two_chars a' Hin) as (H1 & H2 & H3 & H4).
  destruct (IH (fun i => f (S i)) Hs) as (I1 & I2 & I3).
  cbn [imap map only_chars forallb]. unfold compose in *. cbn [imap map].
  repeat split.
  - destruct (f 0%nat); rewrite ?H1, ?H2; f_equal; exact I1.
  - unfold only_chars in *. cbn [forallb]. rewrite I2, andb_true_r. by destruct (f 0%nat).
  - f_equal; [|exact I3]. assert (toupper (toupper a') = toupper a') as H5
      by (clear -Hin; repeat destruct Hin as [<-|Hin]; [vm_compute; done..|destruct Hin]).
    by destruct (f 0%nat).
Qed.

Lemma checksum_parts keccak256 a c :
  getChecksummedAddress keccak256 a = Some c -> exists s,
    length s = 40%nat /\ only_chars (str "0123456789abcdefABCDEF") s = true /\
    c = str "0x" ++ imap (fun i ch =>
      if 8 <=? Z.land (Z.shiftr (nth_def (keccak256 (map tolower s)) (i / 2) 0) (4 * (1 - Z.of_nat i mod 2))) 0xf
      then toupper ch else tolower ch) s.
Proof.
  unfold getChecksummedAddress. set (s := if bool_decide _ then _ else a). intros H.
  destruct (Nat.eqb_spec (length s) 40) as [Hl|]; [|done]. cbn [assertThrow mbind option_bind] in H.
  destruct (only_chars _ s) eqn:Ho; [|done]. cbn [assertThrow mbind option_bind] in H.
  injection H as <-. by exists s.
Qed.

(** An address that [getChecksummedAddress] returns passes the strict check, whatever
    the hash function. *)
Theorem checksum_passes keccak256 a c strict :
  getChecksummedAddress keccak256 a = Some c ->
  passesAddressChecksum keccak256 c strict = Some true.
Proof.
  intros (s & Hl & Ho & ->)%checksum_parts. unfold passesAddressChecksum.
  destruct (cased_digits s (fun i => 8 <=? Z.land (Z.shiftr (nth_def (keccak256 (map tolower s)) (i / 2) 0)
    (4 * (1 - Z.of_nat i mod 2))) 0xf) Ho) as (H1 & H2 & H3).
  set (cs := imap _ s) in *.
  assert (length cs = 40%nat) as Hcs by (unfold cs; by rewrite length_imap).
  assert (firstn 2 (str "0x" ++ cs) = str "0x" /\ skipn 2 (str "0x" ++ cs) = cs) as [Hf Hsk] by done.
  rewrite Hf, bool_decide_eq_true_2 by done. rewrite length_app, Hcs. cbn [length str map Nat.eqb negb Nat.add].
  destruct (negb strict && _); [done|].
  unfold getChecksummedAddress. rewrite Hf, bool_decide_eq_true_2, Hsk by done.
  rewrite Hcs, H2. cbn [Nat.eqb assertThrow mbind option_bind]. rewrite H1, H3.
  by rewrite bool_decide_eq_true_2.
Qed.

Lemma checksum_passes_witness :
  let a := str "0x" ++ replicate 40 (chr "a") in
  passesAddressChecksum (fun _ => replicate 32 0xf0)
    (str "0x" ++ concat (replicate 20 [chr "A"; chr "a"])) true = Some true.
Proof.
  intros a. apply (checksum_passes _ a). vm_compute. reflexivity.
Defined.
