(* ===== verification/Instruction.v ===== *)
(** * Instruction: the opcodes and their table, libevmasm/Instruction.{h,cpp}

    The enumeration with the signal and handler opcodes of this fork, the mnemonic
    and information tables, the PUSH/DUP/SWAP/LOG helpers, the walk over a byte
    string ([eachInstruction]) and the disassembler.  An [Instruction] converted from
    an arbitrary byte is that byte: [instructionOfByte] says which enumerator it is,
    if any. *)

From Stdlib Require Import Ascii.
From S2P Require Import Prelude U256 CommonData.

(** [enum class Instruction: uint8_t]. *)
Inductive Instruction : Set :=
| STOP | ADD | MUL | SUB | DIV | SDIV | MOD | SMOD
| ADDMOD | MULMOD | EXP | SIGNEXTEND | LT | GT | SLT | SGT
| EQ | ISZERO | AND | OR | XOR | NOT | BYTE | SHL
| SHR | SAR | KECCAK256 | ADDRESS | BALANCE | ORIGIN | CALLER | CALLVALUE
| CALLDATALOAD | CALLDATASIZE | CALLDATACOPY | CODESIZE | CODECOPY | GASPRICE | EXTCODESIZE | EXTCODECOPY
| RETURNDATASIZE | RETURNDATACOPY | EXTCODEHASH | BLOCKHASH | COINBASE | TIMESTAMP | NUMBER | DIFFICULTY
| GASLIMIT | CHAINID | SELFBALANCE | POP | MLOAD | MSTORE | MSTORE8 | SLOAD
| SSTORE | JUMP | JUMPI | PC | MSIZE | GAS | JUMPDEST | PUSH1
| PUSH2 | PUSH3 | PUSH4 | PUSH5 | PUSH6 | PUSH7 | PUSH8 | PUSH9
| PUSH10 | PUSH11 | PUSH12 | PUSH13 | PUSH14 | PUSH15 | PUSH16 | PUSH17
| PUSH18 | PUSH19 | PUSH20 | PUSH21 | PUSH22 | PUSH23 | PUSH24 | PUSH25
| PUSH26 | PUSH27 | PUSH28 | PUSH29 | PUSH30 | PUSH31 | PUSH32 | DUP1
| DUP2 | DUP3 | DUP4 | DUP5 | DUP6 | DUP7 | DUP8 | DUP9
| DUP10 | DUP11 | DUP12 | DUP13 | DUP14 | DUP15 | DUP16 | SWAP1
| SWAP2 | SWAP3 | SWAP4 | SWAP5 | SWAP6 | SWAP7 | SWAP8 | SWAP9
| SWAP10 | SWAP11 | SWAP12 | SWAP13 | SWAP14 | SWAP15 | SWAP16 | LOG0
| LOG1 | LOG2 | LOG3 | LOG4 | EIP615_JUMPTO | EIP615_JUMPIF | EIP615_JUMPV | EIP615_JUMPSUB
| EIP615_JUMPSUBV | EIP615_BEGINSUB | EIP615_BEGINDATA | EIP615_RETURNSUB | EIP615_PUTLOCAL | EIP615_GETLOCAL | CREATESIGNAL | SIGBIND
| SIGDETACH | SIGEMIT | DELETESIGNAL | CREATE | CALL | CALLCODE | RETURN | DELEGATECALL
| CREATE2 | STATICCALL | REVERT | INVALID | SELFDESTRUCT.

(** The value of an enumerator. *)
Definition opcode (_inst : Instruction) : Z :=
  match _inst with
  | STOP => 0x00 | ADD => 0x01 | MUL => 0x02 | SUB => 0x03
  | DIV => 0x04 | SDIV => 0x05 | MOD => 0x06 | SMOD => 0x07
  | ADDMOD => 0x08 | MULMOD => 0x09 | EXP => 0x0a | SIGNEXTEND => 0x0b
  | LT => 0x10 | GT => 0x11 | SLT => 0x12 | SGT => 0x13
  | EQ => 0x14 | ISZERO => 0x15 | AND => 0x16 | OR => 0x17
  | XOR => 0x18 | NOT => 0x19 | BYTE => 0x1a | SHL => 0x1b
  | SHR => 0x1c | SAR => 0x1d | KECCAK256 => 0x20 | ADDRESS => 0x30
  | BALANCE => 0x31 | ORIGIN => 0x32 | CALLER => 0x33 | CALLVALUE => 0x34
  | CALLDATALOAD => 0x35 | CALLDATASIZE => 0x36 | CALLDATACOPY => 0x37 | CODESIZE => 0x38
  | CODECOPY => 0x39 | GASPRICE => 0x3a | EXTCODESIZE => 0x3b | EXTCODECOPY => 0x3c
  | RETURNDATASIZE => 0x3d | RETURNDATACOPY => 0x3e | EXTCODEHASH => 0x3f | BLOCKHASH => 0x40
  | COINBASE => 0x41 | TIMESTAMP => 0x42 | NUMBER => 0x43 | DIFFICULTY => 0x44
  | GASLIMIT => 0x45 | CHAINID => 0x46 | SELFBALANCE => 0x47 | POP => 0x50
  | MLOAD => 0x51 | MSTORE => 0x52 | MSTORE8 => 0x53 | SLOAD => 0x54
  | SSTORE => 0x55 | JUMP => 0x56 | JUMPI => 0x57 | PC => 0x58
  | MSIZE => 0x59 | GAS => 0x5a | JUMPDEST => 0x5b | PUSH1 => 0x60
  | PUSH2 => 0x61 | PUSH3 => 0x62 | PUSH4 => 0x63 | PUSH5 => 0x64
  | PUSH6 => 0x65 | PUSH7 => 0x66 | PUSH8 => 0x67 | PUSH9 => 0x68
  | PUSH10 => 0x69 | PUSH11 => 0x6a | PUSH12 => 0x6b | PUSH13 => 0x6c
  | PUSH14 => 0x6d | PUSH15 => 0x6e | PUSH16 => 0x6f | PUSH17 => 0x70
  | PUSH18 => 0x71 | PUSH19 => 0x72 | PUSH20 => 0x73 | PUSH21 => 0x74
  | PUSH22 => 0x75 | PUSH23 => 0x76 | PUSH24 => 0x77 | PUSH25 => 0x78
  | PUSH26 => 0x79 | PUSH27 => 0x7a | PUSH28 => 0x7b | PUSH29 => 0x7c
  | PUSH30 => 0x7d | PUSH31 => 0x7e | PUSH32 => 0x7f | DUP1 => 0x80
  | DUP2 => 0x81 | DUP3 => 0x82 | DUP4 => 0x83 | DUP5 => 0x84
  | DUP6 => 0x85 | DUP7 => 0x86 | DUP8 => 0x87 | DUP9 => 0x88
  | DUP10 => 0x89 | DUP11 => 0x8a | DUP12 => 0x8b | DUP13 => 0x8c
  | DUP14 => 0x8d | DUP15 => 0x8e | DUP16 => 0x8f | SWAP1 => 0x90
  | SWAP2 => 0x91 | SWAP3 => 0x92 | SWAP4 => 0x93 | SWAP5 => 0x94
  | SWAP6 => 0x95 | SWAP7 => 0x96 | SWAP8 => 0x97 | SWAP9 => 0x98
  | SWAP10 => 0x99 | SWAP11 => 0x9a | SWAP12 => 0x9b | SWAP13 => 0x9c
  | SWAP14 => 0x9d | SWAP15 => 0x9e | SWAP16 => 0x9f | LOG0 => 0xa0
  | LOG1 => 0xa1 | LOG2 => 0xa2 | LOG3 => 0xa3 | LOG4 => 0xa4
  | EIP615_JUMPTO => 0xb0 | EIP615_JUMPIF => 0xb1 | EIP615_JUMPV => 0xb2 | EIP615_JUMPSUB => 0xb3
  | EIP615_JUMPSUBV => 0xb4 | EIP615_BEGINSUB => 0xb5 | EIP615_BEGINDATA => 0xb6 | EIP615_RETURNSUB => 0xb7
  | EIP615_PUTLOCAL => 0xb8 | EIP615_GETLOCAL => 0xb9 | CREATESIGNAL => 0xc0 | SIGBIND => 0xc2
  | SIGDETACH => 0xc3 | SIGEMIT => 0xc4 | DELETESIGNAL => 0xc5 | CREATE => 0xf0
  | CALL => 0xf1 | CALLCODE => 0xf2 | RETURN => 0xf3 | DELEGATECALL => 0xf4
  | CREATE2 => 0xf5 | STATICCALL => 0xfa | REVERT => 0xfd | INVALID => 0xfe
  | SELFDESTRUCT => 0xff
  end.

(** Every enumerator, in the order of the declaration. *)
Definition allInstructions : list Instruction :=
  [ STOP; ADD; MUL; SUB; DIV; SDIV; MOD; SMOD;
    ADDMOD; MULMOD; EXP; SIGNEXTEND; LT; GT; SLT; SGT;
    EQ; ISZERO; AND; OR; XOR; NOT; BYTE; SHL;
    SHR; SAR; KECCAK256; ADDRESS; BALANCE; ORIGIN; CALLER; CALLVALUE;
    CALLDATALOAD; CALLDATASIZE; CALLDATACOPY; CODESIZE; CODECOPY; GASPRICE; EXTCODESIZE; EXTCODECOPY;
    RETURNDATASIZE; RETURNDATACOPY; EXTCODEHASH; BLOCKHASH; COINBASE; TIMESTAMP; NUMBER; DIFFICULTY;
    GASLIMIT; CHAINID; SELFBALANCE; POP; MLOAD; MSTORE; MSTORE8; SLOAD;
    SSTORE; JUMP; JUMPI; PC; MSIZE; GAS; JUMPDEST; PUSH1;
    PUSH2; PUSH3; PUSH4; PUSH5; PUSH6; PUSH7; PUSH8; PUSH9;
    PUSH10; PUSH11; PUSH12; PUSH13; PUSH14; PUSH15; PUSH16; PUSH17;
    PUSH18; PUSH19; PUSH20; PUSH21; PUSH22; PUSH23; PUSH24; PUSH25;
    PUSH26; PUSH27; PUSH28; PUSH29; PUSH30; PUSH31; PUSH32; DUP1;
    DUP2; DUP3; DUP4; DUP5; DUP6; DUP7; DUP8; DUP9;
    DUP10; DUP11; DUP12; DUP13; DUP14; DUP15; DUP16; SWAP1;
    SWAP2; SWAP3; SWAP4; SWAP5; SWAP6; SWAP7; SWAP8; SWAP9;
    SWAP10; SWAP11; SWAP12; SWAP13; SWAP14; SWAP15; SWAP16; LOG0;
    LOG1; LOG2; LOG3; LOG4; EIP615_JUMPTO; EIP615_JUMPIF; EIP615_JUMPV; EIP615_JUMPSUB;
    EIP615_JUMPSUBV; EIP615_BEGINSUB; EIP615_BEGINDATA; EIP615_RETURNSUB; EIP615_PUTLOCAL; EIP615_GETLOCAL; CREATESIGNAL; SIGBIND;
    SIGDETACH; SIGEMIT; DELETESIGNAL; CREATE; CALL; CALLCODE; RETURN; DELEGATECALL;
    CREATE2; STATICCALL; REVERT; INVALID; SELFDESTRUCT ].

(** The enumerator with a given byte value. *)
Definition instructionOfByte (b : Z) : option Instruction :=
  List.find (fun i => opcode i =? b) allInstructions.

#[export] Instance Instruction_eq_dec : EqDecision Instruction.
Proof.
  refine (fun x y => cast_if (decide (opcode x = opcode y))); [|abstract congruence].
  abstract (assert (forall i, instructionOfByte (opcode i) = Some i) as H by (intros []; reflexivity);
    pose proof (H x) as Hx; rewrite e, H in Hx; congruence).
Defined.

(** [enum class Tier]. *)
Inductive Tier : Set :=
| Tier_Zero | Tier_Base | Tier_VeryLow | Tier_Low | Tier_Mid | Tier_High | Tier_Ext
| Tier_ExtCode | Tier_Balance | Tier_Special | Tier_Invalid.

(** [struct InstructionInfo]. *)
Record InstructionInfo : Set := mkInfo {
  name : String.string;
  additional : nat;
  args : nat;
  ret : nat;
  sideEffects : bool;
  gasPriceTier : Tier }.

(** [c_instructions]: mnemonics. *)
Definition c_instructions : list (String.string * Instruction) :=
  [ ("STOP"%string, STOP); ("ADD"%string, ADD); ("SUB"%string, SUB); ("MUL"%string, MUL);
    ("DIV"%string, DIV); ("SDIV"%string, SDIV); ("MOD"%string, MOD); ("SMOD"%string, SMOD);
    ("EXP"%string, EXP); ("NOT"%string, NOT); ("LT"%string, LT); ("GT"%string, GT);
    ("SLT"%string, SLT); ("SGT"%string, SGT); ("EQ"%string, EQ); ("ISZERO"%string, ISZERO);
    ("AND"%string, AND); ("OR"%string, OR); ("XOR"%string, XOR); ("BYTE"%string, BYTE);
    ("SHL"%string, SHL); ("SHR"%string, SHR); ("SAR"%string, SAR); ("ADDMOD"%string, ADDMOD);
    ("MULMOD"%string, MULMOD); ("SIGNEXTEND"%string, SIGNEXTEND); ("KECCAK256"%string, KECCAK256); ("ADDRESS"%string, ADDRESS);
    ("BALANCE"%string, BALANCE); ("ORIGIN"%string, ORIGIN); ("CALLER"%string, CALLER); ("CALLVALUE"%string, CALLVALUE);
    ("CALLDATALOAD"%string, CALLDATALOAD); ("CALLDATASIZE"%string, CALLDATASIZE); ("CALLDATACOPY"%string, CALLDATACOPY); ("CODESIZE"%string, CODESIZE);
    ("CODECOPY"%string, CODECOPY); ("GASPRICE"%string, GASPRICE); ("EXTCODESIZE"%string, EXTCODESIZE); ("EXTCODECOPY"%string, EXTCODECOPY);
    ("RETURNDATASIZE"%string, RETURNDATASIZE); ("RETURNDATACOPY"%string, RETURNDATACOPY); ("EXTCODEHASH"%string, EXTCODEHASH); ("BLOCKHASH"%string, BLOCKHASH);
    ("COINBASE"%string, COINBASE); ("TIMESTAMP"%string, TIMESTAMP); ("NUMBER"%string, NUMBER); ("DIFFICULTY"%string, DIFFICULTY);
    ("GASLIMIT"%string, GASLIMIT); ("CHAINID"%string, CHAINID); ("SELFBALANCE"%string, SELFBALANCE); ("POP"%string, POP);
    ("MLOAD"%string, MLOAD); ("MSTORE"%string, MSTORE); ("MSTORE8"%string, MSTORE8); ("SLOAD"%string, SLOAD);
    ("SSTORE"%string, SSTORE); ("JUMP"%string, JUMP); ("JUMPI"%string, JUMPI); ("PC"%string, PC);
    ("MSIZE"%string, MSIZE); ("GAS"%string, GAS); ("JUMPDEST"%string, JUMPDEST); ("PUSH1"%string, PUSH1);
    ("PUSH2"%string, PUSH2); ("PUSH3"%string, PUSH3); ("PUSH4"%string, PUSH4); ("PUSH5"%string, PUSH5);
    ("PUSH6"%string, PUSH6); ("PUSH7"%string, PUSH7); ("PUSH8"%string, PUSH8); ("PUSH9"%string, PUSH9);
    ("PUSH10"%string, PUSH10); ("PUSH11"%string, PUSH11); ("PUSH12"%string, PUSH12); ("PUSH13"%string, PUSH13);
    ("PUSH14"%string, PUSH14); ("PUSH15"%string, PUSH15); ("PUSH16"%string, PUSH16); ("PUSH17"%string, PUSH17);
    ("PUSH18"%string, PUSH18); ("PUSH19"%string, PUSH19); ("PUSH20"%string, PUSH20); ("PUSH21"%string, PUSH21);
    ("PUSH22"%string, PUSH22); ("PUSH23"%string, PUSH23); ("PUSH24"%string, PUSH24); ("PUSH25"%string, PUSH25);
    ("PUSH26"%string, PUSH26); ("PUSH27"%string, PUSH27); ("PUSH28"%string, PUSH28); ("PUSH29"%string, PUSH29);
    ("PUSH30"%string, PUSH30); ("PUSH31"%string, PUSH31); ("PUSH32"%string, PUSH32); ("DUP1"%string, DUP1);
    ("DUP2"%string, DUP2); ("DUP3"%string, DUP3); ("DUP4"%string, DUP4); ("DUP5"%string, DUP5);
    ("DUP6"%string, DUP6); ("DUP7"%string, DUP7); ("DUP8"%string, DUP8); ("DUP9"%string, DUP9);
    ("DUP10"%string, DUP10); ("DUP11"%string, DUP11); ("DUP12"%string, DUP12); ("DUP13"%string, DUP13);
    ("DUP14"%string, DUP14); ("DUP15"%string, DUP15); ("DUP16"%string, DUP16); ("SWAP1"%string, SWAP1);
    ("SWAP2"%string, SWAP2); ("SWAP3"%string, SWAP3); ("SWAP4"%string, SWAP4); ("SWAP5"%string, SWAP5);
    ("SWAP6"%string, SWAP6); ("SWAP7"%string, SWAP7); ("SWAP8"%string, SWAP8); ("SWAP9"%string, SWAP9);
    ("SWAP10"%string, SWAP10); ("SWAP11"%string, SWAP11); ("SWAP12"%string, SWAP12); ("SWAP13"%string, SWAP13);
    ("SWAP14"%string, SWAP14); ("SWAP15"%string, SWAP15); ("SWAP16"%string, SWAP16); ("LOG0"%string, LOG0);
    ("LOG1"%string, LOG1); ("LOG2"%string, LOG2); ("LOG3"%string, LOG3); ("LOG4"%string, LOG4);
    ("CREATESIGNAL"%string, CREATESIGNAL); ("SIGBIND"%string, SIGBIND); ("SIGDETACH"%string, SIGDETACH); ("SIGEMIT"%string, SIGEMIT);
    ("DELETESIGNAL"%string, DELETESIGNAL); ("CREATE"%string, CREATE); ("CALL"%string, CALL); ("CALLCODE"%string, CALLCODE);
    ("STATICCALL"%string, STATICCALL); ("RETURN"%string, RETURN); ("DELEGATECALL"%string, DELEGATECALL); ("CREATE2"%string, CREATE2);
    ("REVERT"%string, REVERT); ("INVALID"%string, INVALID); ("SELFDESTRUCT"%string, SELFDESTRUCT) ].

(** [c_instructionInfo]: the table of valid instructions. *)
Definition c_instructionInfo : list (Instruction * InstructionInfo) :=
  [ (STOP, mkInfo "STOP" 0 0 0 true Tier_Zero);
    (ADD, mkInfo "ADD" 0 2 1 false Tier_VeryLow);
    (SUB, mkInfo "SUB" 0 2 1 false Tier_VeryLow);
    (MUL, mkInfo "MUL" 0 2 1 false Tier_Low);
    (DIV, mkInfo "DIV" 0 2 1 false Tier_Low);
    (SDIV, mkInfo "SDIV" 0 2 1 false Tier_Low);
    (MOD, mkInfo "MOD" 0 2 1 false Tier_Low);
    (SMOD, mkInfo "SMOD" 0 2 1 false Tier_Low);
    (EXP, mkInfo "EXP" 0 2 1 false Tier_Special);
    (NOT, mkInfo "NOT" 0 1 1 false Tier_VeryLow);
    (LT, mkInfo "LT" 0 2 1 false Tier_VeryLow);
    (GT, mkInfo "GT" 0 2 1 false Tier_VeryLow);
    (SLT, mkInfo "SLT" 0 2 1 false Tier_VeryLow);
    (SGT, mkInfo "SGT" 0 2 1 false Tier_VeryLow);
    (EQ, mkInfo "EQ" 0 2 1 false Tier_VeryLow);
    (ISZERO, mkInfo "ISZERO" 0 1 1 false Tier_VeryLow);
    (AND, mkInfo "AND" 0 2 1 false Tier_VeryLow);
    (OR, mkInfo "OR" 0 2 1 false Tier_VeryLow);
    (XOR, mkInfo "XOR" 0 2 1 false Tier_VeryLow);
    (BYTE, mkInfo "BYTE" 0 2 1 false Tier_VeryLow);
    (SHL, mkInfo "SHL" 0 2 1 false Tier_VeryLow);
    (SHR, mkInfo "SHR" 0 2 1 false Tier_VeryLow);
    (SAR, mkInfo "SAR" 0 2 1 false Tier_VeryLow);
    (ADDMOD, mkInfo "ADDMOD" 0 3 1 false Tier_Mid);
    (MULMOD, mkInfo "MULMOD" 0 3 1 false Tier_Mid);
    (SIGNEXTEND, mkInfo "SIGNEXTEND" 0 2 1 false Tier_Low);
    (KECCAK256, mkInfo "KECCAK256" 0 2 1 true Tier_Special);
    (ADDRESS, mkInfo "ADDRESS" 0 0 1 false Tier_Base);
    (BALANCE, mkInfo "BALANCE" 0 1 1 false Tier_Balance);
    (ORIGIN, mkInfo "ORIGIN" 0 0 1 false Tier_Base);
    (CALLER, mkInfo "CALLER" 0 0 1 false Tier_Base);
    (CALLVALUE, mkInfo "CALLVALUE" 0 0 1 false Tier_Base);
    (CALLDATALOAD, mkInfo "CALLDATALOAD" 0 1 1 false Tier_VeryLow);
    (CALLDATASIZE, mkInfo "CALLDATASIZE" 0 0 1 false Tier_Base);
    (CALLDATACOPY, mkInfo "CALLDATACOPY" 0 3 0 true Tier_VeryLow);
    (CODESIZE, mkInfo "CODESIZE" 0 0 1 false Tier_Base);
    (CODECOPY, mkInfo "CODECOPY" 0 3 0 true Tier_VeryLow);
    (GASPRICE, mkInfo "GASPRICE" 0 0 1 false Tier_Base);
    (EXTCODESIZE, mkInfo "EXTCODESIZE" 0 1 1 false Tier_ExtCode);
    (EXTCODECOPY, mkInfo "EXTCODECOPY" 0 4 0 true Tier_ExtCode);
    (RETURNDATASIZE, mkInfo "RETURNDATASIZE" 0 0 1 false Tier_Base);
    (RETURNDATACOPY, mkInfo "RETURNDATACOPY" 0 3 0 true Tier_VeryLow);
    (EXTCODEHASH, mkInfo "EXTCODEHASH" 0 1 1 false Tier_Balance);
    (BLOCKHASH, mkInfo "BLOCKHASH" 0 1 1 false Tier_Ext);
    (COINBASE, mkInfo "COINBASE" 0 0 1 false Tier_Base);
    (TIMESTAMP, mkInfo "TIMESTAMP" 0 0 1 false Tier_Base);
    (NUMBER, mkInfo "NUMBER" 0 0 1 false Tier_Base);
    (DIFFICULTY, mkInfo "DIFFICULTY" 0 0 1 false Tier_Base);
    (GASLIMIT, mkInfo "GASLIMIT" 0 0 1 false Tier_Base);
    (CHAINID, mkInfo "CHAINID" 0 0 1 false Tier_Base);
    (SELFBALANCE, mkInfo "SELFBALANCE" 0 0 1 false Tier_Low);
    (POP, mkInfo "POP" 0 1 0 false Tier_Base);
    (MLOAD, mkInfo "MLOAD" 0 1 1 true Tier_VeryLow);
    (MSTORE, mkInfo "MSTORE" 0 2 0 true Tier_VeryLow);
    (MSTORE8, mkInfo "MSTORE8" 0 2 0 true Tier_VeryLow);
    (SLOAD, mkInfo "SLOAD" 0 1 1 false Tier_Special);
    (SSTORE, mkInfo "SSTORE" 0 2 0 true Tier_Special);
    (JUMP, mkInfo "JUMP" 0 1 0 true Tier_Mid);
    (JUMPI, mkInfo "JUMPI" 0 2 0 true Tier_High);
    (PC, mkInfo "PC" 0 0 1 false Tier_Base);
    (MSIZE, mkInfo "MSIZE" 0 0 1 false Tier_Base);
    (GAS, mkInfo "GAS" 0 0 1 false Tier_Base);
    (JUMPDEST, mkInfo "JUMPDEST" 0 0 0 true Tier_Special);
    (PUSH1, mkInfo "PUSH1" 1 0 1 false Tier_VeryLow);
    (PUSH2, mkInfo "PUSH2" 2 0 1 false Tier_VeryLow);
    (PUSH3, mkInfo "PUSH3" 3 0 1 false Tier_VeryLow);
    (PUSH4, mkInfo "PUSH4" 4 0 1 false Tier_VeryLow);
    (PUSH5, mkInfo "PUSH5" 5 0 1 false Tier_VeryLow);
    (PUSH6, mkInfo "PUSH6" 6 0 1 false Tier_VeryLow);
    (PUSH7, mkInfo "PUSH7" 7 0 1 false Tier_VeryLow);
    (PUSH8, mkInfo "PUSH8" 8 0 1 false Tier_VeryLow);
    (PUSH9, mkInfo "PUSH9" 9 0 1 false Tier_VeryLow);
    (PUSH10, mkInfo "PUSH10" 10 0 1 false Tier_VeryLow);
    (PUSH11, mkInfo "PUSH11" 11 0 1 false Tier_VeryLow);
    (PUSH12, mkInfo "PUSH12" 12 0 1 false Tier_VeryLow);
    (PUSH13, mkInfo "PUSH13" 13 0 1 false Tier_VeryLow);
    (PUSH14, mkInfo "PUSH14" 14 0 1 false Tier_VeryLow);
    (PUSH15, mkInfo "PUSH15" 15 0 1 false Tier_VeryLow);
    (PUSH16, mkInfo "PUSH16" 16 0 1 false Tier_VeryLow);
    (PUSH17, mkInfo "PUSH17" 17 0 1 false Tier_VeryLow);
    (PUSH18, mkInfo "PUSH18" 18 0 1 false Tier_VeryLow);
    (PUSH19, mkInfo "PUSH19" 19 0 1 false Tier_VeryLow);
    (PUSH20, mkInfo "PUSH20" 20 0 1 false Tier_VeryLow);
    (PUSH21, mkInfo "PUSH21" 21 0 1 false Tier_VeryLow);
    (PUSH22, mkInfo "PUSH22" 22 0 1 false Tier_VeryLow);
    (PUSH23, mkInfo "PUSH23" 23 0 1 false Tier_VeryLow);
    (PUSH24, mkInfo "PUSH24" 24 0 1 false Tier_VeryLow);
    (PUSH25, mkInfo "PUSH25" 25 0 1 false Tier_VeryLow);
    (PUSH26, mkInfo "PUSH26" 26 0 1 false Tier_VeryLow);
    (PUSH27, mkInfo "PUSH27" 27 0 1 false Tier_VeryLow);
    (PUSH28, mkInfo "PUSH28" 28 0 1 false Tier_VeryLow);
    (PUSH29, mkInfo "PUSH29" 29 0 1 false Tier_VeryLow);
    (PUSH30, mkInfo "PUSH30" 30 0 1 false Tier_VeryLow);
    (PUSH31, mkInfo "PUSH31" 31 0 1 false Tier_VeryLow);
    (PUSH32, mkInfo "PUSH32" 32 0 1 false Tier_VeryLow);
    (DUP1, mkInfo "DUP1" 0 1 2 false Tier_VeryLow);
    (DUP2, mkInfo "DUP2" 0 2 3 false Tier_VeryLow);
    (DUP3, mkInfo "DUP3" 0 3 4 false Tier_VeryLow);
    (DUP4, mkInfo "DUP4" 0 4 5 false Tier_VeryLow);
    (DUP5, mkInfo "DUP5" 0 5 6 false Tier_VeryLow);
    (DUP6, mkInfo "DUP6" 0 6 7 false Tier_VeryLow);
    (DUP7, mkInfo "DUP7" 0 7 8 false Tier_VeryLow);
    (DUP8, mkInfo "DUP8" 0 8 9 false Tier_VeryLow);
    (DUP9, mkInfo "DUP9" 0 9 10 false Tier_VeryLow);
    (DUP10, mkInfo "DUP10" 0 10 11 false Tier_VeryLow);
    (DUP11, mkInfo "DUP11" 0 11 12 false Tier_VeryLow);
    (DUP12, mkInfo "DUP12" 0 12 13 false Tier_VeryLow);
    (DUP13, mkInfo "DUP13" 0 13 14 false Tier_VeryLow);
    (DUP14, mkInfo "DUP14" 0 14 15 false Tier_VeryLow);
    (DUP15, mkInfo "DUP15" 0 15 16 false Tier_VeryLow);
    (DUP16, mkInfo "DUP16" 0 16 17 false Tier_VeryLow);
    (SWAP1, mkInfo "SWAP1" 0 2 2 false Tier_VeryLow);
    (SWAP2, mkInfo "SWAP2" 0 3 3 false Tier_VeryLow);
    (SWAP3, mkInfo "SWAP3" 0 4 4 false Tier_VeryLow);
    (SWAP4, mkInfo "SWAP4" 0 5 5 false Tier_VeryLow);
    (SWAP5, mkInfo "SWAP5" 0 6 6 false Tier_VeryLow);
    (SWAP6, mkInfo "SWAP6" 0 7 7 false Tier_VeryLow);
    (SWAP7, mkInfo "SWAP7" 0 8 8 false Tier_VeryLow);
    (SWAP8, mkInfo "SWAP8" 0 9 9 false Tier_VeryLow);
    (SWAP9, mkInfo "SWAP9" 0 10 10 false Tier_VeryLow);
    (SWAP10, mkInfo "SWAP10" 0 11 11 false Tier_VeryLow);
    (SWAP11, mkInfo "SWAP11" 0 12 12 false Tier_VeryLow);
    (SWAP12, mkInfo "SWAP12" 0 13 13 false Tier_VeryLow);
    (SWAP13, mkInfo "SWAP13" 0 14 14 false Tier_VeryLow);
    (SWAP14, mkInfo "SWAP14" 0 15 15 false Tier_VeryLow);
    (SWAP15, mkInfo "SWAP15" 0 16 16 false Tier_VeryLow);
    (SWAP16, mkInfo "SWAP16" 0 17 17 false Tier_VeryLow);
    (LOG0, mkInfo "LOG0" 0 2 0 true Tier_Special);
    (LOG1, mkInfo "LOG1" 0 3 0 true Tier_Special);
    (LOG2, mkInfo "LOG2" 0 4 0 true Tier_Special);
    (LOG3, mkInfo "LOG3" 0 5 0 true Tier_Special);
    (LOG4, mkInfo "LOG4" 0 6 0 true Tier_Special);
    (CREATESIGNAL, mkInfo "CREATESIGNAL" 0 1 1 false Tier_Special);
    (SIGBIND, mkInfo "SIGBIND" 0 11 1 false Tier_Special);
    (SIGDETACH, mkInfo "SIGDETACH" 0 3 1 false Tier_Special);
    (SIGEMIT, mkInfo "SIGEMIT" 0 6 1 false Tier_Special);
    (DELETESIGNAL, mkInfo "DELETESIGNAL" 0 1 1 false Tier_Special);
    (CREATE, mkInfo "CREATE" 0 3 1 true Tier_Special);
    (CALL, mkInfo "CALL" 0 7 1 true Tier_Special);
    (CALLCODE, mkInfo "CALLCODE" 0 7 1 true Tier_Special);
    (RETURN, mkInfo "RETURN" 0 2 0 true Tier_Zero);
    (DELEGATECALL, mkInfo "DELEGATECALL" 0 6 1 true Tier_Special);
    (STATICCALL, mkInfo "STATICCALL" 0 6 1 true Tier_Special);
    (CREATE2, mkInfo "CREATE2" 0 4 1 true Tier_Special);
    (REVERT, mkInfo "REVERT" 0 2 0 true Tier_Zero);
    (INVALID, mkInfo "INVALID" 0 0 0 true Tier_Zero);
    (SELFDESTRUCT, mkInfo "SELFDESTRUCT" 0 1 0 true Tier_Special) ].

Definition isValidInstruction (_inst : Instruction) : bool :=
  match assoc _inst c_instructionInfo with Some _ => true | None => false end.

(** The fallback entry's name ends in the decimal code of the instruction; no
    definition below reads the name of an invalid instruction. *)
Definition instructionInfo (_inst : Instruction) : InstructionInfo :=
  match assoc _inst c_instructionInfo with
  | Some info => info
  | None => mkInfo "<INVALID_INSTRUCTION>" 0 0 0 false Tier_Invalid
  end.

(** ** PUSH, DUP, SWAP and LOG *)

Definition isPushInstruction (_inst : Instruction) : bool :=
  (opcode PUSH1 <=? opcode _inst) && (opcode _inst <=? opcode PUSH32).
Definition isDupInstruction (_inst : Instruction) : bool :=
  (opcode DUP1 <=? opcode _inst) && (opcode _inst <=? opcode DUP16).
Definition isSwapInstruction (_inst : Instruction) : bool :=
  (opcode SWAP1 <=? opcode _inst) && (opcode _inst <=? opcode SWAP16).
Definition isLogInstruction (_inst : Instruction) : bool :=
  (opcode LOG0 <=? opcode _inst) && (opcode _inst <=? opcode LOG4).

(** [unsigned] arithmetic is modulo 2^32. *)
Definition getPushNumber (_inst : Instruction) : Z := (opcode _inst - opcode PUSH1 + 1) mod 2 ^ 32.
Definition getDupNumber (_inst : Instruction) : Z := (opcode _inst - opcode DUP1 + 1) mod 2 ^ 32.
Definition getSwapNumber (_inst : Instruction) : Z := (opcode _inst - opcode SWAP1 + 1) mod 2 ^ 32.
Definition getLogNumber (_inst : Instruction) : Z := (opcode _inst - opcode LOG0) mod 2 ^ 32.

Definition pushInstruction (_number : Z) : option Instruction :=
  _ ← assertThrow ((1 <=? _number) && (_number <=? 32));
  instructionOfByte (opcode PUSH1 + _number - 1).
Definition dupInstruction (_number : Z) : option Instruction :=
  _ ← assertThrow ((1 <=? _number) && (_number <=? 16));
  instructionOfByte (opcode DUP1 + _number - 1).
Definition swapInstruction (_number : Z) : option Instruction :=
  _ ← assertThrow ((1 <=? _number) && (_number <=? 16));
  instructionOfByte (opcode SWAP1 + _number - 1).
Definition logInstruction (_number : Z) : option Instruction :=
  _ ← assertThrow (_number <=? 4);
  instructionOfByte (opcode LOG0 + _number).

(** The signal and handler opcodes this fork adds. *)
Definition isSignalInstruction (_inst : Instruction) : bool :=
  match _inst with
  | CREATESIGNAL | SIGBIND | SIGDETACH | SIGEMIT | DELETESIGNAL => true
  | _ => false
  end.

(** ** Walking over bytecode *)

(** The inner loop of [eachInstruction]: reads up to [additional] bytes into [data]. *)
Fixpoint readData (additional : nat) (data : Z) (_mem : list Z) : Z * nat * list Z :=
  match additional, _mem with
  | S additional', b :: _mem' => readData additional' (Z.lor (u256_shl data 8) b) _mem'
  | _, _ => (data, additional, _mem)
  end.

(** [instructionInfo(instr).additional] of a byte, zero for an invalid instruction. *)
Definition additionalOfByte (b : Z) : nat :=
  match instructionOfByte b with
  | Some instr => if isValidInstruction instr then additional (instructionInfo instr) else 0%nat
  | None => 0%nat
  end.

(** [eachInstruction]: the sequence of calls of the callback, as pairs of the byte and
    its data word.  Each iteration consumes a byte: the length of the memory is
    enough fuel ([eachInstruction_total]). *)
Fixpoint eachInstruction_loop (fuel : nat) (_mem : list Z) : option (list (Z * Z)) :=
  match _mem, fuel with
  | [], _ => Some []
  | _ :: _, O => None
  | b :: _mem, S fuel =>
      let '(data, missing, rest) := readData (additionalOfByte b) 0 _mem in
      calls ← eachInstruction_loop fuel rest;
      Some ((b, u256_shl data (8 * Z.of_nat missing)) :: calls)
  end.

Definition eachInstruction (_mem : list Z) : option (list (Z * Z)) :=
  eachInstruction_loop (length _mem) _mem.

(** [stream << uppercase << hex << v]: the hexadecimal digits without leading zeros. *)
Fixpoint hexDigits (fuel : nat) (v : Z) (acc : list Z) : list Z :=
  let acc := nth_def upperHexChars (Z.to_nat (v mod 16)) 0 :: acc in
  match fuel with
  | O => acc
  | S fuel => if v / 16 =? 0 then acc else hexDigits fuel (v / 16) acc
  end.

(** One line of [disassemble]: what the callback prints for one call. *)
Definition disassemble_one (_instr _data : Z) : list Z :=
  match instructionOfByte _instr with
  | Some instr =>
      if isValidInstruction instr then
        let info := instructionInfo instr in
        str (name info) ++ str " " ++
        (if Nat.eqb (additional info) 0 then []
         else str "0x" ++ hexDigits 64 _data [] ++ str " ")
      else str "0x" ++ hexDigits 64 _instr [] ++ str " "
  | None => str "0x" ++ hexDigits 64 _instr [] ++ str " "
  end.

Definition disassemble (_mem : list Z) : option (list Z) :=
  calls ← eachInstruction _mem;
  Some (concat (map (fun '(i, d) => disassemble_one i d) calls)).

(** ** Lemmas *)

Lemma opcode_byte i : is_byte (opcode i).
Proof. destruct i; vm_compute; split; congruence. Qed.

Lemma instructionOfByte_opcode i : instructionOfByte (opcode i) = Some i.
Proof. destruct i; reflexivity. Qed.

Lemma opcode_inj i j : opcode i = opcode j -> i = j.
Proof.
  intros H. pose proof (instructionOfByte_opcode i) as Hi. rewrite H in Hi.
  rewrite instructionOfByte_opcode in Hi. by simplify_eq.
Qed.

Lemma instructionOfByte_Some b i : instructionOfByte b = Some i -> opcode i = b.
Proof. intros H. apply find_some in H as [_ H]. by apply Z.eqb_eq. Qed.

#[export] Instance opcode_injective : Inj (=) (=) opcode.
Proof. exact opcode_inj. Qed.

Lemma allInstructions_complete i : In i allInstructions.
Proof. apply (find_some (fun j => opcode j =? opcode i)), (instructionOfByte_opcode i). Qed.

(** A decidable property of all instructions is checked by computation. *)
Lemma all_instructions_dec (P : Instruction -> bool) :
  forallb P allInstructions = true -> forall i, P i = true.
Proof. intros H i. rewrite forallb_forall in H. apply H, allInstructions_complete. Qed.

(** *** The walk over bytecode *)

Lemma readData_length n d mem d' k rest :
  readData n d mem = (d', k, rest) -> (length rest <= length mem)%nat.
Proof.
  revert d mem. induction n as [|n IH]; intros d mem H; simpl in H.
  - destruct mem; simplify_eq; done.
  - destruct mem as [|b mem]; simplify_eq; [done|]. apply IH in H. simpl. lia.
Qed.

Lemma readData_full l d rest :
  readData (length l) d (l ++ rest)
  = (fold_left (fun ret i => u256 (Z.lor (u256_shl ret 8) i)) l d, 0%nat, rest) \/ ~ is_bytes l.
Proof.
  destruct (decide (Forall (fun b => 0 <= b < 256) l)) as [Hl|Hl]; [left|by right].
  revert d. induction Hl as [|b l Hb Hl IH]; intros d; [by destruct rest|].
  cbn [length app readData fold_left]. rewrite IH.
  assert (u256 (Z.lor (u256_shl d 8) b) = Z.lor (u256_shl d 8) b) as ->; [|done].
  apply u256_id, lor_range; [apply u256_range|by apply u256_small].
Qed.

Lemma readData_toBigEndian n v rest :
  (n <= 32)%nat -> 0 <= v < 256 ^ Z.of_nat n ->
  readData n 0 (toBigEndian n v ++ rest) = (v, 0%nat, rest).
Proof.
  intros Hn Hv. destruct (readData_full (toBigEndian n v) 0 rest) as [H|[]].
  - rewrite toBigEndian_length in H. rewrite H.
    fold (fromBigEndian (toBigEndian n v)). by rewrite fromBigEndian_toBigEndian.
  - apply toBigEndian_bytes.
Qed.

Lemma eachInstruction_loop_fuel fuel mem :
  (length mem <= fuel)%nat -> exists calls, eachInstruction_loop fuel mem = Some calls.
Proof.
  revert mem. induction fuel as [|fuel IH]; intros [|b mem] H; simpl in *; try lia; eauto.
  destruct (readData _ _ _) as [[d k] rest] eqn:E.
  apply readData_length in E. destruct (IH rest) as [calls ->]; [lia|]. simpl. eauto.
Qed.

Lemma eachInstruction_loop_mono fuel fuel' mem calls :
  eachInstruction_loop fuel mem = Some calls -> (fuel <= fuel')%nat ->
  eachInstruction_loop fuel' mem = Some calls.
Proof.
  revert fuel' mem calls. induction fuel as [|fuel IH]; intros [|fuel'] [|b mem] calls H Hle;
    simpl in *; try done; try lia.
  destruct (readData _ _ _) as [[d k] rest].
  destruct (eachInstruction_loop fuel rest) eqn:E; [|done].
  by erewrite IH by (done || lia).
Qed.

Lemma additional_le_32 i : (additional (instructionInfo i) <= 32)%nat.
Proof.
  apply Nat.leb_le. revert i.
  apply (all_instructions_dec (fun i => Nat.leb (additional (instructionInfo i)) 32)).
  vm_compute. done.
Qed.

(** What the assembler writes for an instruction with immediate data. *)
Definition encodeInstruction (p : Instruction * Z) : list Z :=
  opcode (fst p) :: toBigEndian (additional (instructionInfo (fst p))) (snd p).

Definition encodable (p : Instruction * Z) : Prop :=
  isValidInstruction (fst p) = true /\
  0 <= snd p < 256 ^ Z.of_nat (additional (instructionInfo (fst p))).

(** [eachInstruction] decodes what was encoded: on the bytes of a list of valid
    instructions with their data it calls back each instruction with its data, in order. *)
Theorem eachInstruction_roundtrip prog :
  Forall encodable prog ->
  eachInstruction (concat (map encodeInstruction prog))
  = Some (map (fun p => (opcode (fst p), snd p)) prog).
Proof.
  intros Hp. unfold eachInstruction.
  induction Hp as [|[i d] prog [Hv Hd] Hp IH]; [done|]. simpl in Hv, Hd.
  cbn [map concat].
  change (encodeInstruction (i, d)) with (opcode i :: toBigEndian (additional (instructionInfo i)) d).
  cbn [fst snd app length].
  cbn [eachInstruction_loop].
  assert (additionalOfByte (opcode i) = additional (instructionInfo i)) as ->
    by (unfold additionalOfByte; by rewrite instructionOfByte_opcode, Hv).
  rewrite readData_toBigEndian by (apply additional_le_32 || done).
  erewrite eachInstruction_loop_mono by (exact IH || (rewrite length_app; lia)).
  cbn [mbind option_bind]. unfold u256_shl. rewrite Z.mul_0_r, Z.shiftl_0_r.
  rewrite u256_id; [done|]. split; [lia|]. eapply Z.lt_le_trans; [apply Hd|].
  change modulus with (256 ^ 32). apply Z.pow_le_mono_r; [lia|].
  pose proof (additional_le_32 i). lia.
Qed.

(** The loop ends on every byte string. *)
Lemma eachInstruction_total mem :
  exists calls, eachInstruction mem = Some calls.
Proof. by apply eachInstruction_loop_fuel. Qed.

(** *** The tables *)

(** The two tables agree: an instruction is valid, that is has a row, exactly when its
    row's name is the mnemonic that names it. *)
Theorem instruction_tables_agree i :
  isValidInstruction i = true <->
  assoc (name (instructionInfo i)) c_instructions = Some i.
Proof.
  pose proof (all_instructions_dec (fun i => eqb (isValidInstruction i)
    (bool_decide (assoc (name (instructionInfo i)) c_instructions = Some i)))) as H.
  specialize (H ltac:(vm_compute; reflexivity) i). apply eqb_prop in H.
  rewrite H. apply bool_decide_eq_true.
Qed.

Lemma forallb_seqZ (P : Z -> bool) n m : forallb P (seqZ n m) = true -> forall z, n <= z < n + m -> P z = true.
Proof.
  intros H z Hz. rewrite forallb_forall in H. apply H. apply list_elem_of_In, elem_of_seqZ. lia.
Qed.

Lemma eachInstruction_roundtrip_witness :
  eachInstruction (concat (map encodeInstruction [(PUSH2, 258); (ADD, 0)]))
  = Some [(opcode PUSH2, 258); (opcode ADD, 0)].
Proof. apply (eachInstruction_roundtrip [(PUSH2, 258); (ADD, 0)]). repeat constructor; done. Defined.

Section Numbered.
  (** A family [make] of numbered instructions against its test and its numbering. *)
  Context (make : Z -> option Instruction) (kind : Instruction -> bool) (number : Instruction -> Z) (lo count : Z).

Lemma numbered n i :
  (forall m, 0 <= m -> ~ lo <= m < lo + count -> make m = None) ->
  forallb (fun m => match make m with Some j => kind j && (number j =? m) | None => false end)
          (seqZ lo count) = true ->
  forallb (fun j => negb (kind j) || bool_decide (make (number j) = Some j)) allInstructions = true ->
  0 <= n ->
  (make n = Some i <-> kind i = true /\ number i = n) /\ (is_Some (make n) <-> lo <= n < lo + count).
Proof.
  intros Hout Hin Hall Hn.
  assert (is_Some (make n) <-> lo <= n < lo + count) as Hrange.
  { split; intros H.
    - apply dec_stable. intros Hr. rewrite Hout in H by done. by destruct H.
    - pose proof (forallb_seqZ _ _ _ Hin n H) as H'. cbv beta in H'. by destruct (make n). }
  split; [split|done].
  - intros Hm. assert (lo <= n < lo + count) as Hr by (apply Hrange; eauto).
    pose proof (forallb_seqZ _ _ _ Hin n Hr) as H. cbv beta in H. rewrite Hm in H. by bool_to_prop.
  - intros [Hk <-]. pose proof (all_instructions_dec _ Hall i) as H. cbv beta in H.
    rewrite Hk in H. by apply bool_decide_eq_true in H.
Qed.

End Numbered.

(** A numbered family refuses a number outside its range and the two tables agree. *)
Ltac numbered_family f lo count :=
  apply (numbered f _ _ lo count);
  [ intros m Hm Hr; unfold f, assertThrow; case_match; [bool_to_prop; lia | reflexivity]
  | vm_compute; reflexivity
  | vm_compute; reflexivity
  | assumption ].

Lemma dup_numbered n i : 0 <= n ->
  (dupInstruction n = Some i <-> isDupInstruction i = true /\ getDupNumber i = n) /\
  (is_Some (dupInstruction n) <-> 1 <= n < 1 + 16).
Proof. intros Hn. numbered_family dupInstruction 1 16. Qed.

Lemma swap_numbered n i : 0 <= n ->
  (swapInstruction n = Some i <-> isSwapInstruction i = true /\ getSwapNumber i = n) /\
  (is_Some (swapInstruction n) <-> 1 <= n < 1 + 16).
Proof. intros Hn. numbered_family swapInstruction 1 16. Qed.

(** The numbered instructions: [pushInstruction], [dupInstruction], [swapInstruction] and
    [logInstruction] return exactly for the numbers 1 to 32, 1 to 16, 1 to 16 and 0 to 4, an
    instruction of the kind with that number, and every instruction of a kind is theirs. *)
Theorem numbered_instructions n i :
  0 <= n ->
  ((pushInstruction n = Some i <-> isPushInstruction i = true /\ getPushNumber i = n) /\
   (is_Some (pushInstruction n) <-> 1 <= n < 1 + 32)) /\
  ((dupInstruction n = Some i <-> isDupInstruction i = true /\ getDupNumber i = n) /\
   (is_Some (dupInstruction n) <-> 1 <= n < 1 + 16)) /\
  ((swapInstruction n = Some i <-> isSwapInstruction i = true /\ getSwapNumber i = n) /\
   (is_Some (swapInstruction n) <-> 1 <= n < 1 + 16)) /\
  ((logInstruction n = Some i <-> isLogInstruction i = true /\ getLogNumber i = n) /\
   (is_Some (logInstruction n) <-> 0 <= n < 0 + 5)).
Proof.
  intros Hn. split; [|split; [|split]].
  - numbered_family pushInstruction 1 32.
  - by apply dup_numbered.
  - by apply swap_numbered.
  - numbered_family logInstruction 0 5.
Qed.

Lemma numbered_instructions_witness : dupInstruction 3 = Some DUP3 <-> isDupInstruction DUP3 = true /\ getDupNumber DUP3 = 3.
Proof. refine (proj1 (proj1 (proj2 (numbered_instructions 3 DUP3 _)))). lia. Defined.
