(* ===== verification/EVMVersion.v ===== *)
(** * EVMVersion: the target machine version, liblangutil/EVMVersion.{h,cpp} *)

From S2P Require Import Prelude Instruction.

(** [enum class Version], ordered by release. *)
Inductive EVMVersion : Set :=
| Homestead | TangerineWhistle | SpuriousDragon | Byzantium | Constantinople | Petersburg
| Istanbul | Berlin.

(** The value of an enumerator; [operator<] and [operator==] compare it. *)
Definition version_index (v : EVMVersion) : Z :=
  match v with
  | Homestead => 0 | TangerineWhistle => 1 | SpuriousDragon => 2 | Byzantium => 3
  | Constantinople => 4 | Petersburg => 5 | Istanbul => 6 | Berlin => 7
  end.

(** [_a >= _b], from boost's [less_than_comparable]. *)
Definition version_ge (_a _b : EVMVersion) : bool := negb (version_index _a <? version_index _b).

Definition version_name (v : EVMVersion) : String.string :=
  match v with
  | Homestead => "homestead"
  | TangerineWhistle => "tangerineWhistle"
  | SpuriousDragon => "spuriousDragon"
  | Byzantium => "byzantium"
  | Constantinople => "constantinople"
  | Petersburg => "petersburg"
  | Istanbul => "istanbul"
  | Berlin => "berlin"
  end.

Definition allVersions : list EVMVersion :=
  [Homestead; TangerineWhistle; SpuriousDragon; Byzantium; Constantinople; Petersburg;
   Istanbul; Berlin].

Definition fromString (_version : String.string) : option EVMVersion :=
  List.find (fun v => bool_decide (_version = version_name v)) allVersions.

Definition supportsReturndata (v : EVMVersion) : bool := version_ge v Byzantium.
Definition hasStaticCall (v : EVMVersion) : bool := version_ge v Byzantium.
Definition hasBitwiseShifting (v : EVMVersion) : bool := version_ge v Constantinople.
Definition hasCreate2 (v : EVMVersion) : bool := version_ge v Constantinople.
Definition hasExtCodeHash (v : EVMVersion) : bool := version_ge v Constantinople.
Definition hasChainID (v : EVMVersion) : bool := version_ge v Istanbul.
Definition hasSelfBalance (v : EVMVersion) : bool := version_ge v Istanbul.
Definition canOverchargeGasForCall (v : EVMVersion) : bool := version_ge v TangerineWhistle.

Definition hasOpcode (v : EVMVersion) (_opcode : Instruction) : bool :=
  match _opcode with
  | RETURNDATACOPY | RETURNDATASIZE => supportsReturndata v
  | STATICCALL => hasStaticCall v
  | SHL | SHR | SAR => hasBitwiseShifting v
  | CREATE2 => hasCreate2 v
  | EXTCODEHASH => hasExtCodeHash v
  | CHAINID => hasChainID v
  | SELFBALANCE => hasSelfBalance v
  | _ => true
  end.

(** ** Lemmas *)

Lemma version_ge_refl v : version_ge v v = true.
Proof. by destruct v. Qed.

Lemma version_ge_trans u v w : version_ge u v = true -> version_ge v w = true -> version_ge u w = true.
Proof. by destruct u, v, w. Qed.

(** An opcode available in a version is available in every later one. *)
Theorem hasOpcode_monotone v w :
  version_ge w v = true -> forall i, hasOpcode v i = true -> hasOpcode w i = true.
Proof.
  intros Hvw i. destruct i; try done; simpl; intros H; eapply version_ge_trans; done.
Qed.

Lemma hasOpcode_monotone_witness : hasOpcode Constantinople CREATE2 = true /\ hasOpcode Berlin CREATE2 = true.
Proof. split; [reflexivity|]. by apply (hasOpcode_monotone Constantinople Berlin). Defined.
