(* ===== verification/Token.v ===== *)
(** * Token: the tokens of Solidity and Yul, liblangutil/Token.{h,cpp}

    The enumeration with its table of spellings and precedences, the predicates on ranges of it,
    the keywords with the elementary types that carry sizes ([fromIdentifierOrKeyword]), and the
    names of these types ([ElementaryTypeNameToken]).  A spelling is the list of its characters. *)

From Stdlib Require Import Ascii.
From S2P Require Import Prelude CommonData.

(** [enum class Token], with [Type] called [Type_]. *)
Module Token.
Inductive t : Set :=
| EOS | LParen | RParen | LBrack | RBrack | LBrace | RBrace | Colon | Semicolon | Period
| Conditional | Arrow | Assign | AssignBitOr | AssignBitXor | AssignBitAnd | AssignShl | AssignSar
| AssignShr | AssignAdd | AssignSub | AssignMul | AssignDiv | AssignMod | Comma | Or | And | BitOr
| BitXor | BitAnd | SHL | SAR | SHR | Add | Sub | Mul | Div | Mod | Exp | Equal | NotEqual
| LessThan | GreaterThan | LessThanOrEqual | GreaterThanOrEqual | Not | BitNot | Inc | Dec | Delete
| AssemblyAssign | Abstract | Anonymous | As | Assembly | Break | Catch | Constant | Constructor
| Continue | Contract | Do | Else | Enum | Emit | Event | External | Fallback | For | Function
| Hex | If | Indexed | Interface | Internal | Immutable | Import | Is | Library | Mapping | Memory
| Modifier | New | Override | Payable | Public | Pragma | Private | Pure | Receive | Return
| Returns | Storage | CallData | Struct | Throw | Try | Type_ | Unicode | Using | View | Virtual
| While | SubWei | SubGwei | SubEther | SubSecond | SubMinute | SubHour | SubDay | SubWeek
| SubYear | Int | UInt | Bytes | Byte | String | Address | Bool | Fixed | UFixed | IntM | UIntM
| BytesM | FixedMxN | UFixedMxN | TypesEnd | TrueLiteral | FalseLiteral | Number | StringLiteral
| UnicodeStringLiteral | HexStringLiteral | CommentLiteral | Identifier | After | Alias | Apply
| Auto | Case | CopyOf | Default | Define | Final | Implements | In | Inline | Let | Macro | Match
| Mutable | NullLiteral | Of | Partial | Promise | Reference | Relocatable | Sealed | Sizeof
| Static | Supports | Switch | Typedef | TypeOf | Unchecked | Var | Illegal | Whitespace.

(** The value of an enumerator. *)
Definition ord (tok : t) : Z :=
  match tok with
  | EOS => 0 | LParen => 1 | RParen => 2 | LBrack => 3 | RBrack => 4 | LBrace => 5 | RBrace => 6
  | Colon => 7 | Semicolon => 8 | Period => 9 | Conditional => 10 | Arrow => 11 | Assign => 12
  | AssignBitOr => 13 | AssignBitXor => 14 | AssignBitAnd => 15 | AssignShl => 16 | AssignSar => 17
  | AssignShr => 18 | AssignAdd => 19 | AssignSub => 20 | AssignMul => 21 | AssignDiv => 22
  | AssignMod => 23 | Comma => 24 | Or => 25 | And => 26 | BitOr => 27 | BitXor => 28
  | BitAnd => 29 | SHL => 30 | SAR => 31 | SHR => 32 | Add => 33 | Sub => 34 | Mul => 35
  | Div => 36 | Mod => 37 | Exp => 38 | Equal => 39 | NotEqual => 40 | LessThan => 41
  | GreaterThan => 42 | LessThanOrEqual => 43 | GreaterThanOrEqual => 44 | Not => 45 | BitNot => 46
  | Inc => 47 | Dec => 48 | Delete => 49 | AssemblyAssign => 50 | Abstract => 51 | Anonymous => 52
  | As => 53 | Assembly => 54 | Break => 55 | Catch => 56 | Constant => 57 | Constructor => 58
  | Continue => 59 | Contract => 60 | Do => 61 | Else => 62 | Enum => 63 | Emit => 64 | Event => 65
  | External => 66 | Fallback => 67 | For => 68 | Function => 69 | Hex => 70 | If => 71
  | Indexed => 72 | Interface => 73 | Internal => 74 | Immutable => 75 | Import => 76 | Is => 77
  | Library => 78 | Mapping => 79 | Memory => 80 | Modifier => 81 | New => 82 | Override => 83
  | Payable => 84 | Public => 85 | Pragma => 86 | Private => 87 | Pure => 88 | Receive => 89
  | Return => 90 | Returns => 91 | Storage => 92 | CallData => 93 | Struct => 94 | Throw => 95
  | Try => 96 | Type_ => 97 | Unicode => 98 | Using => 99 | View => 100 | Virtual => 101
  | While => 102 | SubWei => 103 | SubGwei => 104 | SubEther => 105 | SubSecond => 106
  | SubMinute => 107 | SubHour => 108 | SubDay => 109 | SubWeek => 110 | SubYear => 111
  | Int => 112 | UInt => 113 | Bytes => 114 | Byte => 115 | String => 116 | Address => 117
  | Bool => 118 | Fixed => 119 | UFixed => 120 | IntM => 121 | UIntM => 122 | BytesM => 123
  | FixedMxN => 124 | UFixedMxN => 125 | TypesEnd => 126 | TrueLiteral => 127 | FalseLiteral => 128
  | Number => 129 | StringLiteral => 130 | UnicodeStringLiteral => 131 | HexStringLiteral => 132
  | CommentLiteral => 133 | Identifier => 134 | After => 135 | Alias => 136 | Apply => 137
  | Auto => 138 | Case => 139 | CopyOf => 140 | Default => 141 | Define => 142 | Final => 143
  | Implements => 144 | In => 145 | Inline => 146 | Let => 147 | Macro => 148 | Match => 149
  | Mutable => 150 | NullLiteral => 151 | Of => 152 | Partial => 153 | Promise => 154
  | Reference => 155 | Relocatable => 156 | Sealed => 157 | Sizeof => 158 | Static => 159
  | Supports => 160 | Switch => 161 | Typedef => 162 | TypeOf => 163 | Unchecked => 164
  | Var => 165 | Illegal => 166 | Whitespace => 167
  end.
End Token.

(** An entry of [TOKEN_LIST]: T for a token, K for a keyword. *)
Inductive TokenKind : Set := T_kind | K_kind.

Record TokenEntry := mkEntry {
  entry_token : Token.t;
  entry_kind : TokenKind;
  entry_name : list Z;
  entry_string : option (list Z);
  entry_precedence : Z }.

Definition nullptr : option (list Z) := None.

Definition TOKEN_LIST : list TokenEntry :=
  let T tok name s p := mkEntry tok T_kind (str name) s p in
  let K tok name s p := mkEntry tok K_kind (str name) s p in
  [ T Token.EOS "EOS" (Some (str "EOS")) 0;
    T Token.LParen "LParen" (Some (str "(")) 0;
    T Token.RParen "RParen" (Some (str ")")) 0;
    T Token.LBrack "LBrack" (Some (str "[")) 0;
    T Token.RBrack "RBrack" (Some (str "]")) 0;
    T Token.LBrace "LBrace" (Some (str "{")) 0;
    T Token.RBrace "RBrace" (Some (str "}")) 0;
    T Token.Colon "Colon" (Some (str ":")) 0;
    T Token.Semicolon "Semicolon" (Some (str ";")) 0;
    T Token.Period "Period" (Some (str ".")) 0;
    T Token.Conditional "Conditional" (Some (str "?")) 3;
    T Token.Arrow "Arrow" (Some (str "=>")) 0;
    T Token.Assign "Assign" (Some (str "=")) 2;
    T Token.AssignBitOr "AssignBitOr" (Some (str "|=")) 2;
    T Token.AssignBitXor "AssignBitXor" (Some (str "^=")) 2;
    T Token.AssignBitAnd "AssignBitAnd" (Some (str "&=")) 2;
    T Token.AssignShl "AssignShl" (Some (str "<<=")) 2;
    T Token.AssignSar "AssignSar" (Some (str ">>=")) 2;
    T Token.AssignShr "AssignShr" (Some (str ">>>=")) 2;
    T Token.AssignAdd "AssignAdd" (Some (str "+=")) 2;
    T Token.AssignSub "AssignSub" (Some (str "-=")) 2;
    T Token.AssignMul "AssignMul" (Some (str "*=")) 2;
    T Token.AssignDiv "AssignDiv" (Some (str "/=")) 2;
    T Token.AssignMod "AssignMod" (Some (str "%=")) 2;
    T Token.Comma "Comma" (Some (str ",")) 1;
    T Token.Or "Or" (Some (str "||")) 4;
    T Token.And "And" (Some (str "&&")) 5;
    T Token.BitOr "BitOr" (Some (str "|")) 8;
    T Token.BitXor "BitXor" (Some (str "^")) 9;
    T Token.BitAnd "BitAnd" (Some (str "&")) 10;
    T Token.SHL "SHL" (Some (str "<<")) 11;
    T Token.SAR "SAR" (Some (str ">>")) 11;
    T Token.SHR "SHR" (Some (str ">>>")) 11;
    T Token.Add "Add" (Some (str "+")) 12;
    T Token.Sub "Sub" (Some (str "-")) 12;
    T Token.Mul "Mul" (Some (str "*")) 13;
    T Token.Div "Div" (Some (str "/")) 13;
    T Token.Mod "Mod" (Some (str "%")) 13;
    T Token.Exp "Exp" (Some (str "**")) 14;
    T Token.Equal "Equal" (Some (str "==")) 6;
    T Token.NotEqual "NotEqual" (Some (str "!=")) 6;
    T Token.LessThan "LessThan" (Some (str "<")) 7;
    T Token.GreaterThan "GreaterThan" (Some (str ">")) 7;
    T Token.LessThanOrEqual "LessThanOrEqual" (Some (str "<=")) 7;
    T Token.GreaterThanOrEqual "GreaterThanOrEqual" (Some (str ">=")) 7;
    T Token.Not "Not" (Some (str "!")) 0;
    T Token.BitNot "BitNot" (Some (str "~")) 0;
    T Token.Inc "Inc" (Some (str "++")) 0;
    T Token.Dec "Dec" (Some (str "--")) 0;
    K Token.Delete "Delete" (Some (str "delete")) 0;
    T Token.AssemblyAssign "AssemblyAssign" (Some (str ":=")) 2;
    K Token.Abstract "Abstract" (Some (str "abstract")) 0;
    K Token.Anonymous "Anonymous" (Some (str "anonymous")) 0;
    K Token.As "As" (Some (str "as")) 0;
    K Token.Assembly "Assembly" (Some (str "assembly")) 0;
    K Token.Break "Break" (Some (str "break")) 0;
    K Token.Catch "Catch" (Some (str "catch")) 0;
    K Token.Constant "Constant" (Some (str "constant")) 0;
    K Token.Constructor "Constructor" (Some (str "constructor")) 0;
    K Token.Continue "Continue" (Some (str "continue")) 0;
    K Token.Contract "Contract" (Some (str "contract")) 0;
    K Token.Do "Do" (Some (str "do")) 0;
    K Token.Else "Else" (Some (str "else")) 0;
    K Token.Enum "Enum" (Some (str "enum")) 0;
    K Token.Emit "Emit" (Some (str "emit")) 0;
    K Token.Event "Event" (Some (str "event")) 0;
    K Token.External "External" (Some (str "external")) 0;
    K Token.Fallback "Fallback" (Some (str "fallback")) 0;
    K Token.For "For" (Some (str "for")) 0;
    K Token.Function "Function" (Some (str "function")) 0;
    K Token.Hex "Hex" (Some (str "hex")) 0;
    K Token.If "If" (Some (str "if")) 0;
    K Token.Indexed "Indexed" (Some (str "indexed")) 0;
    K Token.Interface "Interface" (Some (str "interface")) 0;
    K Token.Internal "Internal" (Some (str "internal")) 0;
    K Token.Immutable "Immutable" (Some (str "immutable")) 0;
    K Token.Import "Import" (Some (str "import")) 0;
    K Token.Is "Is" (Some (str "is")) 0;
    K Token.Library "Library" (Some (str "library")) 0;
    K Token.Mapping "Mapping" (Some (str "mapping")) 0;
    K Token.Memory "Memory" (Some (str "memory")) 0;
    K Token.Modifier "Modifier" (Some (str "modifier")) 0;
    K Token.New "New" (Some (str "new")) 0;
    K Token.Override "Override" (Some (str "override")) 0;
    K Token.Payable "Payable" (Some (str "payable")) 0;
    K Token.Public "Public" (Some (str "public")) 0;
    K Token.Pragma "Pragma" (Some (str "pragma")) 0;
    K Token.Private "Private" (Some (str "private")) 0;
    K Token.Pure "Pure" (Some (str "pure")) 0;
    K Token.Receive "Receive" (Some (str "receive")) 0;
    K Token.Return "Return" (Some (str "return")) 0;
    K Token.Returns "Returns" (Some (str "returns")) 0;
    K Token.Storage "Storage" (Some (str "storage")) 0;
    K Token.CallData "CallData" (Some (str "calldata")) 0;
    K Token.Struct "Struct" (Some (str "struct")) 0;
    K Token.Throw "Throw" (Some (str "throw")) 0;
    K Token.Try "Try" (Some (str "try")) 0;
    K Token.Type_ "Type" (Some (str "type")) 0;
    K Token.Unicode "Unicode" (Some (str "unicode")) 0;
    K Token.Using "Using" (Some (str "using")) 0;
    K Token.View "View" (Some (str "view")) 0;
    K Token.Virtual "Virtual" (Some (str "virtual")) 0;
    K Token.While "While" (Some (str "while")) 0;
    K Token.SubWei "SubWei" (Some (str "wei")) 0;
    K Token.SubGwei "SubGwei" (Some (str "gwei")) 0;
    K Token.SubEther "SubEther" (Some (str "ether")) 0;
    K Token.SubSecond "SubSecond" (Some (str "seconds")) 0;
    K Token.SubMinute "SubMinute" (Some (str "minutes")) 0;
    K Token.SubHour "SubHour" (Some (str "hours")) 0;
    K Token.SubDay "SubDay" (Some (str "days")) 0;
    K Token.SubWeek "SubWeek" (Some (str "weeks")) 0;
    K Token.SubYear "SubYear" (Some (str "years")) 0;
    K Token.Int "Int" (Some (str "int")) 0;
    K Token.UInt "UInt" (Some (str "uint")) 0;
    K Token.Bytes "Bytes" (Some (str "bytes")) 0;
    K Token.Byte "Byte" (Some (str "byte")) 0;
    K Token.String "String" (Some (str "string")) 0;
    K Token.Address "Address" (Some (str "address")) 0;
    K Token.Bool "Bool" (Some (str "bool")) 0;
    K Token.Fixed "Fixed" (Some (str "fixed")) 0;
    K Token.UFixed "UFixed" (Some (str "ufixed")) 0;
    T Token.IntM "IntM" (Some (str "intM")) 0;
    T Token.UIntM "UIntM" (Some (str "uintM")) 0;
    T Token.BytesM "BytesM" (Some (str "bytesM")) 0;
    T Token.FixedMxN "FixedMxN" (Some (str "fixedMxN")) 0;
    T Token.UFixedMxN "UFixedMxN" (Some (str "ufixedMxN")) 0;
    T Token.TypesEnd "TypesEnd" nullptr 0;
    K Token.TrueLiteral "TrueLiteral" (Some (str "true")) 0;
    K Token.FalseLiteral "FalseLiteral" (Some (str "false")) 0;
    T Token.Number "Number" nullptr 0;
    T Token.StringLiteral "StringLiteral" nullptr 0;
    T Token.UnicodeStringLiteral "UnicodeStringLiteral" nullptr 0;
    T Token.HexStringLiteral "HexStringLiteral" nullptr 0;
    T Token.CommentLiteral "CommentLiteral" nullptr 0;
    T Token.Identifier "Identifier" nullptr 0;
    K Token.After "After" (Some (str "after")) 0;
    K Token.Alias "Alias" (Some (str "alias")) 0;
    K Token.Apply "Apply" (Some (str "apply")) 0;
    K Token.Auto "Auto" (Some (str "auto")) 0;
    K Token.Case "Case" (Some (str "case")) 0;
    K Token.CopyOf "CopyOf" (Some (str "copyof")) 0;
    K Token.Default "Default" (Some (str "default")) 0;
    K Token.Define "Define" (Some (str "define")) 0;
    K Token.Final "Final" (Some (str "final")) 0;
    K Token.Implements "Implements" (Some (str "implements")) 0;
    K Token.In "In" (Some (str "in")) 0;
    K Token.Inline "Inline" (Some (str "inline")) 0;
    K Token.Let "Let" (Some (str "let")) 0;
    K Token.Macro "Macro" (Some (str "macro")) 0;
    K Token.Match "Match" (Some (str "match")) 0;
    K Token.Mutable "Mutable" (Some (str "mutable")) 0;
    K Token.NullLiteral "NullLiteral" (Some (str "null")) 0;
    K Token.Of "Of" (Some (str "of")) 0;
    K Token.Partial "Partial" (Some (str "partial")) 0;
    K Token.Promise "Promise" (Some (str "promise")) 0;
    K Token.Reference "Reference" (Some (str "reference")) 0;
    K Token.Relocatable "Relocatable" (Some (str "relocatable")) 0;
    K Token.Sealed "Sealed" (Some (str "sealed")) 0;
    K Token.Sizeof "Sizeof" (Some (str "sizeof")) 0;
    K Token.Static "Static" (Some (str "static")) 0;
    K Token.Supports "Supports" (Some (str "supports")) 0;
    K Token.Switch "Switch" (Some (str "switch")) 0;
    K Token.Typedef "Typedef" (Some (str "typedef")) 0;
    K Token.TypeOf "TypeOf" (Some (str "typeof")) 0;
    K Token.Unchecked "Unchecked" (Some (str "unchecked")) 0;
    K Token.Var "Var" (Some (str "var")) 0;
    T Token.Illegal "Illegal" (Some (str "ILLEGAL")) 0;
    T Token.Whitespace "Whitespace" nullptr 0 ].

#[export] Instance Token_eq_dec : EqDecision Token.t.
Proof.
  refine (fun x y => cast_if (decide (Token.ord x = Token.ord y))); [|abstract congruence].
  abstract (assert (forall t, entry_token <$> TOKEN_LIST !! Z.to_nat (Token.ord t) = Some t) as H by (intros []; reflexivity);
    pose proof (H x) as Hx; rewrite e, H in Hx; congruence).
Defined.

(** ** Characters, Common.h *)

Definition isDecimalDigit (c : Z) : bool := (chr "0" <=? c) && (c <=? chr "9").
Definition isHexDigit (c : Z) : bool :=
  isDecimalDigit c || ((chr "a" <=? c) && (c <=? chr "f")) || ((chr "A" <=? c) && (c <=? chr "F")).
Definition isWhiteSpace (c : Z) : bool := (c =? chr " ") || (c =? 10) || (c =? 9) || (c =? 13).
Definition isIdentifierStart (c : Z) : bool :=
  (c =? chr "_") || (c =? chr "$") || ((chr "a" <=? c) && (c <=? chr "z")) || ((chr "A" <=? c) && (c <=? chr "Z")).
Definition isIdentifierPart (c : Z) : bool := isIdentifierStart c || isDecimalDigit c.
(** The value of a hexadecimal digit, -1 for another character. *)
Definition hexValue (c : Z) : Z :=
  if (chr "0" <=? c) && (c <=? chr "9") then c - chr "0"
  else if (chr "a" <=? c) && (c <=? chr "f") then c - chr "a" + 10
  else if (chr "A" <=? c) && (c <=? chr "F") then c - chr "A" + 10
  else -1.

(** ** [TokenTraits] *)

Definition entryOf (tok : Token.t) : option TokenEntry := TOKEN_LIST !! Z.to_nat (Token.ord tok).

Definition between (a tok b : Token.t) : bool :=
  (Token.ord a <=? Token.ord tok) && (Token.ord tok <=? Token.ord b).
Definition tokenIs (tok a : Token.t) : bool := bool_decide (tok = a).

Definition isElementaryTypeName (tok : Token.t) : bool :=
  (Token.ord Token.Int <=? Token.ord tok) && (Token.ord tok <? Token.ord Token.TypesEnd).
Definition isAssignmentOp (tok : Token.t) : bool := between Token.Assign tok Token.AssignMod.
Definition isBinaryOp (op : Token.t) : bool := between Token.Comma op Token.Exp.
Definition isCommutativeOp (op : Token.t) : bool :=
  tokenIs op Token.BitOr || tokenIs op Token.BitXor || tokenIs op Token.BitAnd ||
  tokenIs op Token.Add || tokenIs op Token.Mul || tokenIs op Token.Equal || tokenIs op Token.NotEqual.
Definition isArithmeticOp (op : Token.t) : bool := between Token.Add op Token.Exp.
Definition isCompareOp (op : Token.t) : bool := between Token.Equal op Token.GreaterThanOrEqual.
Definition isBitOp (op : Token.t) : bool := between Token.BitOr op Token.BitAnd || tokenIs op Token.BitNot.
Definition isBooleanOp (op : Token.t) : bool := between Token.Or op Token.And || tokenIs op Token.Not.
Definition isUnaryOp (op : Token.t) : bool := between Token.Not op Token.Delete || tokenIs op Token.Add || tokenIs op Token.Sub.
Definition isCountOp (op : Token.t) : bool := tokenIs op Token.Inc || tokenIs op Token.Dec.
Definition isShiftOp (op : Token.t) : bool := between Token.SHL op Token.SHR.
Definition isVariableVisibilitySpecifier (op : Token.t) : bool :=
  tokenIs op Token.Public || tokenIs op Token.Private || tokenIs op Token.Internal.
Definition isVisibilitySpecifier (op : Token.t) : bool := isVariableVisibilitySpecifier op || tokenIs op Token.External.
Definition isLocationSpecifier (op : Token.t) : bool :=
  tokenIs op Token.Memory || tokenIs op Token.Storage || tokenIs op Token.CallData.
Definition isStateMutabilitySpecifier (op : Token.t) : bool :=
  tokenIs op Token.Pure || tokenIs op Token.View || tokenIs op Token.Payable.
Definition isEtherSubdenomination (op : Token.t) : bool := between Token.SubWei op Token.SubEther.
Definition isTimeSubdenomination (op : Token.t) : bool :=
  tokenIs op Token.SubSecond || tokenIs op Token.SubMinute || tokenIs op Token.SubHour || tokenIs op Token.SubDay ||
  tokenIs op Token.SubWeek || tokenIs op Token.SubYear.
Definition isReservedKeyword (op : Token.t) : bool := between Token.After op Token.Unchecked.

(** The cast of a number to an enumerator. *)
Definition tokenOf (n : Z) : option Token.t := entry_token <$> TOKEN_LIST !! Z.to_nat n.

Definition AssignmentToBinaryOp (op : Token.t) : option Token.t :=
  _ ← assertThrow (isAssignmentOp op && negb (tokenIs op Token.Assign));
  tokenOf (Token.ord op + (Token.ord Token.BitOr - Token.ord Token.AssignBitOr)).

Definition precedence (tok : Token.t) : Z := default 0 (entry_precedence <$> entryOf tok).

(** [toString]: [None] is a null pointer. *)
Definition toString (tok : Token.t) : option (list Z) := entryOf tok ≫= entry_string.
Definition name (tok : Token.t) : list Z := default [] (entry_name <$> entryOf tok).
Definition friendlyName (tok : Token.t) : list Z := default (name tok) (toString tok).

(** ** Identifiers and keywords *)

Definition decimalValue (s : list Z) : Z := fold_left (fun v c => v * 10 + (c - chr "0")) s 0.

(** [parseSize]: the value of digits as an [int], -1 if there are none or the value is too large. *)
Definition parseSize (s : list Z) : Z :=
  match s with
  | [] => -1
  | _ => if decimalValue s <? 2 ^ 31 then decimalValue s else -1
  end.

(** The macro [KEYWORD]. *)
Definition keywordOf (e : TokenEntry) : option (list Z * Token.t) :=
  match entry_kind e, entry_string e with
  | K_kind, Some s => Some (s, entry_token e)
  | _, _ => None
  end.

Definition keywords : list (list Z * Token.t) := omap keywordOf TOKEN_LIST.

Definition keywordByName (_name : list Z) : Token.t := default Token.Identifier (assoc _name keywords).

(** The characters up to the first that satisfies [p], and the rest ([find_if]). *)
Fixpoint splitAt (p : Z -> bool) (s : list Z) : list Z * list Z :=
  match s with
  | [] => ([], [])
  | c :: s' => if p c then ([], s) else let '(a, b) := splitAt p s' in (c :: a, b)
  end.

(** The type a keyword, a size and the characters after it make. *)
Definition sizedType (keyword : Token.t) (m : Z) (positionX : list Z) : Token.t * Z * Z :=
  let identifier := (Token.Identifier, 0, 0) in
  match keyword with
  | Token.Bytes =>
      if (0 <? m) && (m <=? 32) && bool_decide (positionX = []) then (Token.BytesM, m, 0) else identifier
  | Token.UInt | Token.Int =>
      if (0 <? m) && (m <=? 256) && (m mod 8 =? 0) && bool_decide (positionX = [])
      then (if tokenIs keyword Token.UInt then Token.UIntM else Token.IntM, m, 0) else identifier
  | Token.UFixed | Token.Fixed =>
      match positionX with
      | c :: rest =>
          if (c =? chr "x") && forallb isDecimalDigit rest then
            let n := parseSize rest in
            if (8 <=? m) && (m <=? 256) && (m mod 8 =? 0) && (0 <=? n) && (n <=? 80)
            then (if tokenIs keyword Token.UFixed then Token.UFixedMxN else Token.FixedMxN, m, n) else identifier
          else identifier
      | [] => identifier
      end
  | _ => identifier
  end.

Definition fromIdentifierOrKeyword (_literal : list Z) : Token.t * Z * Z :=
  let '(baseType, positionM) := splitAt isDecimalDigit _literal in
  match positionM with
  | [] => (keywordByName _literal, 0, 0)
  | _ =>
      let '(digits, positionX) := splitAt (fun c => negb (isDecimalDigit c)) positionM in
      sizedType (keywordByName baseType) (parseSize digits) positionX
  end.

(** ** [ElementaryTypeNameToken] *)

Record ElementaryTypeNameToken := mkElementary {
  et_token : Token.t;
  m_firstNumber : Z;
  m_secondNumber : Z }.

(** The constructor with [assertDetails]. *)
Definition assertDetails (_baseType : Token.t) (_first _second : Z) : option ElementaryTypeNameToken :=
  _ ← assertThrow (isElementaryTypeName _baseType);
  _ ← match _baseType with
      | Token.BytesM => assertThrow ((_second =? 0) && (_first <=? 32))
      | Token.UIntM | Token.IntM => assertThrow ((_second =? 0) && (_first <=? 256) && (_first mod 8 =? 0))
      | Token.UFixedMxN | Token.FixedMxN =>
          assertThrow ((8 <=? _first) && (_first <=? 256) && (_first mod 8 =? 0) && (_second <=? 80))
      | _ => assertThrow ((_first =? 0) && (_second =? 0))
      end;
  Some (mkElementary _baseType _first _second).

(** The decimal digits of a number ([to_string]); [fuel] bounds their number. *)
Fixpoint digitsOf (fuel : nat) (n : Z) : list Z :=
  match fuel with
  | O => []
  | S fuel => if n <? 10 then [chr "0" + n] else digitsOf fuel (n / 10) ++ [chr "0" + n mod 10]
  end.
(** An [unsigned] has at most ten digits. *)
Definition to_string (n : Z) : list Z := digitsOf 10 n.

Definition typeName (t : ElementaryTypeNameToken) (tokenValue : bool) : option (list Z) :=
  name ← toString (et_token t);
  if tokenValue || ((m_firstNumber t =? 0) && (m_secondNumber t =? 0)) then Some name
  else
    _ ← assertThrow (Nat.leb 3 (length name));
    Some match et_token t with
         | Token.FixedMxN | Token.UFixedMxN =>
             take (length name - 3) name ++ to_string (m_firstNumber t) ++ str "x" ++ to_string (m_secondNumber t)
         | _ => take (length name - 1) name ++ to_string (m_firstNumber t)
         end.

(** ** Properties *)

(** The elementary types whose token carries sizes. *)
Definition hasSize (tok : Token.t) : bool := between Token.IntM tok Token.UFixedMxN.

(** Sizes are written in digits and read back. *)
Lemma to_string_sizes m :
  0 <= m <= 256 -> forallb isDecimalDigit (to_string m) = true /\ parseSize (to_string m) = m /\ to_string m <> [].
Proof.
  intros Hm. assert (forallb (fun m => forallb isDecimalDigit (to_string m) && (parseSize (to_string m) =? m) &&
    negb (bool_decide (to_string m = []))) (seqZ 0 257) = true) as H by (vm_compute; reflexivity).
  rewrite forallb_forall in H. specialize (H m ltac:(apply list_elem_of_In, elem_of_seqZ; lia)). cbv beta in H.
  apply andb_true_iff in H as [[H1 H2]%andb_true_iff H3]. split; [done|]. split; [by apply Z.eqb_eq|].
  by apply negb_true_iff, bool_decide_eq_false in H3.
Qed.

Lemma splitAt_app (p : Z -> bool) a c b :
  forallb (fun x => negb (p x)) a = true -> p c = true -> splitAt p (a ++ c :: b) = (a, c :: b).
Proof.
  induction a as [|x a IH]; cbn [app splitAt forallb]; [by intros _ ->|].
  intros [Hx Ha]%andb_true_iff Hc. apply negb_true_iff in Hx. by rewrite Hx, IH.
Qed.

Lemma splitAt_all (p : Z -> bool) a : forallb (fun x => negb (p x)) a = true -> splitAt p a = (a, []).
Proof.
  induction a as [|x a IH]; cbn [splitAt forallb]; [done|].
  intros [Hx Ha]%andb_true_iff. apply negb_true_iff in Hx. by rewrite Hx, IH.
Qed.

Lemma digits_not_digits l : forallb isDecimalDigit l = true -> forallb (fun c => negb (negb (isDecimalDigit c))) l = true.
Proof. rewrite !forallb_forall. intros H c Hc. by rewrite H. Qed.

(** A name without digits followed by a size and more. *)
Lemma fromIdentifier_sized base m rest :
  forallb (fun c => negb (isDecimalDigit c)) base = true -> 0 <= m <= 256 ->
  match rest with [] => True | c :: _ => isDecimalDigit c = false end ->
  fromIdentifierOrKeyword (base ++ to_string m ++ rest) = sizedType (keywordByName base) m rest.
Proof.
  intros Hb Hm Hr. destruct (to_string_sizes m Hm) as (Hd & Hp & Hn). unfold fromIdentifierOrKeyword.
  destruct (to_string m) as [|c l] eqn:E; [done|]. pose proof Hd as [Hc _]%andb_true_iff. cbn [app].
  rewrite (splitAt_app isDecimalDigit base c (l ++ rest)) by done. rewrite app_comm_cons.
  assert (splitAt (fun c => negb (isDecimalDigit c)) ((c :: l) ++ rest) = (c :: l, rest)) as ->.
  { destruct rest as [|r rest].
    - rewrite app_nil_r. apply splitAt_all. by apply digits_not_digits.
    - apply splitAt_app; [by apply digits_not_digits|by rewrite Hr]. }
  by rewrite Hp.
Qed.

Lemma sizedType_integer (keyword : Token.t) m :
  0 < m <= 256 -> m mod 8 = 0 -> keyword = Token.UInt \/ keyword = Token.Int ->
  sizedType keyword m [] = (if tokenIs keyword Token.UInt then Token.UIntM else Token.IntM, m, 0).
Proof.
  intros Hm H8 Hk. assert ((0 <? m) && (m <=? 256) && (m mod 8 =? 0) = true) as E
    by (rewrite !andb_true_iff, Z.ltb_lt, Z.leb_le, Z.eqb_eq; lia).
  destruct Hk as [-> | ->]; unfold sizedType; by rewrite E.
Qed.

Lemma sizedType_fixed (keyword : Token.t) m n :
  8 <= m <= 256 -> m mod 8 = 0 -> 0 <= n <= 80 -> keyword = Token.UFixed \/ keyword = Token.Fixed ->
  sizedType keyword m (str "x" ++ to_string n)
  = (if tokenIs keyword Token.UFixed then Token.UFixedMxN else Token.FixedMxN, m, n).
Proof.
  intros Hm H8 Hn Hk. destruct (to_string_sizes n ltac:(lia)) as (Hd & Hp & _).
  assert ((8 <=? m) && (m <=? 256) && (m mod 8 =? 0) && (0 <=? n) && (n <=? 80) = true) as E
    by (rewrite !andb_true_iff, !Z.leb_le, Z.eqb_eq; lia).
  destruct Hk as [-> | ->]; unfold sizedType; change (str "x" ++ to_string n) with (chr "x" :: to_string n);
    cbn iota; rewrite Z.eqb_refl, Hd, Hp; cbn [andb]; by rewrite E.
Qed.

Lemma assertDetails_bounds tok m n e :
  assertDetails tok m n = Some e -> e = mkElementary tok m n /\ m <= 256 /\ n <= 80.
Proof.
  unfold assertDetails. intros H.
  destruct (assertThrow (isElementaryTypeName tok)); [|discriminate H]. cbn [mbind option_bind] in H.
  destruct tok; cbn [mbind option_bind] in H; try (destruct (assertThrow _) as [[]|] eqn:E; [|discriminate H]);
    cbn [mbind option_bind] in H; injection H as <-; apply assertThrow_Some in E; bool_to_prop; (split; [done|lia]).
Qed.

(** C36 The name of an elementary type is scanned as this type: for every token and sizes a type may
    have, those of one with a size being positive, [toString] returns a name that
    [fromIdentifierOrKeyword] gives back with the same sizes. *)
Theorem elementaryType_roundtrip tok m n e :
  assertDetails tok m n = Some e -> 0 <= m -> 0 <= n -> (hasSize tok = true -> 0 < m) ->
  exists s, typeName e false = Some s /\ fromIdentifierOrKeyword s = (tok, m, n).
Proof.
  intros He Hm Hn Hs. destruct (assertDetails_bounds _ _ _ _ He) as (-> & Hm' & Hn').
  assert (Hsz : hasSize tok = true -> m <> 0) by (intros H; specialize (Hs H); lia). unfold assertDetails in He.
  destruct tok; try discriminate He; cbn [isElementaryTypeName mbind option_bind] in He.
  all: match type of He with context [assertThrow ?b] => destruct b eqn:E end; try discriminate He; clear He.
  all: try (apply andb_true_iff in E as [->%Z.eqb_eq ->%Z.eqb_eq]; by eexists).
  all: specialize (Hsz eq_refl); specialize (Hs eq_refl); unfold typeName; cbn [et_token m_firstNumber m_secondNumber orb].
  all: rewrite (proj2 (Z.eqb_neq m 0)) by done.
  all: eexists; split; [reflexivity|]; bool_to_prop; subst.
  - change (fromIdentifierOrKeyword (str "int" ++ to_string m) = (Token.IntM, m, 0)). rewrite <- (app_nil_r (to_string m)).
    rewrite fromIdentifier_sized by (done || lia). apply (sizedType_integer Token.Int); auto; lia.
  - change (fromIdentifierOrKeyword (str "uint" ++ to_string m) = (Token.UIntM, m, 0)). rewrite <- (app_nil_r (to_string m)).
    rewrite fromIdentifier_sized by (done || lia). apply (sizedType_integer Token.UInt); auto; lia.
  - change (fromIdentifierOrKeyword (str "bytes" ++ to_string m) = (Token.BytesM, m, 0)). rewrite <- (app_nil_r (to_string m)).
    rewrite fromIdentifier_sized by (done || lia). change (keywordByName (str "bytes")) with Token.Bytes.
    unfold sizedType. by rewrite (proj2 (Z.ltb_lt _ _)), (proj2 (Z.leb_le _ _)) by lia.
  - change (fromIdentifierOrKeyword (str "fixed" ++ to_string m ++ str "x" ++ to_string n) = (Token.FixedMxN, m, n)).
    rewrite fromIdentifier_sized by (done || lia). apply (sizedType_fixed Token.Fixed); auto; lia.
  - change (fromIdentifierOrKeyword (str "ufixed" ++ to_string m ++ str "x" ++ to_string n) = (Token.UFixedMxN, m, n)).
    rewrite fromIdentifier_sized by (done || lia). apply (sizedType_fixed Token.UFixed); auto; lia.
Qed.

Lemma elementaryType_roundtrip_witness :
  exists s, typeName (mkElementary Token.UFixedMxN 128 18) false = Some s /\
    fromIdentifierOrKeyword s = (Token.UFixedMxN, 128, 18).
Proof. by apply (elementaryType_roundtrip Token.UFixedMxN 128 18 _ eq_refl). Defined.

Lemma keywordOf_entry s tok l :
  (s, tok) ∈ omap keywordOf l -> exists e, In e l /\ entry_token e = tok /\ entry_kind e = K_kind.
Proof.
  intros (e & Hin & He)%list_elem_of_omap. exists e. split; [by apply list_elem_of_In|]. unfold keywordOf in He.
  destruct (entry_kind e); [discriminate He|]. destruct (entry_string e); [|discriminate He]. by injection He as _ <-.
Qed.

Lemma default_assoc (s : list Z) (d : Token.t) (ks : list (list Z * Token.t)) :
  default d (assoc s ks) = d \/ (s, default d (assoc s ks)) ∈ ks.
Proof. destruct (assoc s ks) eqn:E; [right|by left]. by apply list_elem_of_In, assoc_In. Qed.

Lemma keywords_eq : keywords = omap keywordOf TOKEN_LIST.
Proof. reflexivity. Qed.

Lemma keywordByName_entry s :
  keywordByName s = Token.Identifier \/ exists e, In e TOKEN_LIST /\ entry_token e = keywordByName s /\ entry_kind e = K_kind.
Proof.
  unfold keywordByName. rewrite keywords_eq. generalize TOKEN_LIST. intros l.
  destruct (default_assoc s Token.Identifier (omap keywordOf l)) as [H|H]; [by left|right].
  by apply keywordOf_entry in H.
Qed.

(** A keyword that names a type has no size. *)
Lemma keyword_no_size s : hasSize (keywordByName s) = false.
Proof.
  destruct (keywordByName_entry s) as [-> |(e & Hin & <- & Hk)]; [reflexivity|].
  assert (forallb (fun e => match entry_kind e with K_kind => negb (hasSize (entry_token e)) | T_kind => true end) TOKEN_LIST
          = true) as H by (vm_compute; reflexivity).
  rewrite forallb_forall in H. specialize (H _ Hin). rewrite Hk in H. by apply negb_true_iff in H.
Qed.

Lemma sizedType_valid keyword m0 rest tok m n :
  sizedType keyword m0 rest = (tok, m, n) -> isElementaryTypeName tok = true ->
  assertDetails tok m n = Some (mkElementary tok m n).
Proof.
  intros H Ht. assert (Hid : (Token.Identifier, 0, 0) <> (tok, m, n)) by (intros [= <- <- <-]; discriminate Ht).
  unfold sizedType in H. destruct keyword; try (by destruct Hid).
  all: repeat (case_match; try (by destruct Hid)); injection H as <- <- <-; bool_to_prop.
  all: unfold assertDetails; cbn [tokenIs isElementaryTypeName mbind option_bind].
  all: match goal with |- context [assertThrow ?b] => assert (b = true) as -> end; [|reflexivity].
  all: rewrite ?andb_true_iff, ?Z.leb_le, ?Z.eqb_eq; lia.
Qed.

Lemma unsized_valid tok :
  hasSize tok = false -> isElementaryTypeName tok = true -> assertDetails tok 0 0 = Some (mkElementary tok 0 0).
Proof. destruct tok; intros Hs He; try discriminate He; try discriminate Hs; reflexivity. Qed.

#[local] Opaque keywordByName.

(** The scanner only makes elementary types that exist: where [fromIdentifierOrKeyword] returns the token
    of an elementary type, the assertions of [ElementaryTypeNameToken] hold for its sizes. *)
Theorem elementaryType_valid s tok m n :
  fromIdentifierOrKeyword s = (tok, m, n) -> isElementaryTypeName tok = true ->
  assertDetails tok m n = Some (mkElementary tok m n).
Proof.
  unfold fromIdentifierOrKeyword. destruct (splitAt isDecimalDigit s) as [baseType positionM]. intros H Ht.
  destruct positionM as [|c p]; [injection H as <- <- <-; apply unsized_valid; [apply keyword_no_size|done]|].
  destruct (splitAt (fun c => negb (isDecimalDigit c)) (c :: p)) as [digits positionX]. by eapply sizedType_valid.
Qed.

#[local] Transparent keywordByName.

Lemma elementaryType_valid_witness :
  assertDetails Token.BytesM 20 0 = Some (mkElementary Token.BytesM 20 0).
Proof. by apply (elementaryType_valid (str "bytes20")). Defined.

(** The sizes of a type may have leading zeros: [uint08] is scanned as the type [uint8], although
    no type is written so and the name is not that of the type. *)
Theorem leading_zeros_accepted :
  fromIdentifierOrKeyword (str "uint08") = (Token.UIntM, 8, 0) /\
  fromIdentifierOrKeyword (str "bytes032") = (Token.BytesM, 32, 0) /\
  typeName (mkElementary Token.UIntM 8 0) false = Some (str "uint8").
Proof. vm_compute. done. Qed.
