(* ===== verification/AssemblyItem.v ===== *)
(** * AssemblyItem: one item of an assembly, libevmasm/AssemblyItem.{h,cpp}

    An item is an opcode, a push of some kind or a tag.  [m_instruction] is only
    meaningful for an [Operation] and [m_data] only for the other types, as in the
    source; the accessors [instruction()] and [data()] are used behind the test of
    the type everywhere below. *)

From S2P Require Import Prelude U256 CommonData Instruction.

Inductive AssemblyItemType : Set :=
| UndefinedItem | Operation | Push | PushString | PushTag | PushSub | PushSubSize
| PushProgramSize | Tag | PushData | PushLibraryAddress | PushDeployTimeAddress
| PushImmutable | AssignImmutable.

#[export] Instance AssemblyItemType_eq_dec : EqDecision AssemblyItemType.
Proof. solve_decision. Defined.

Inductive JumpType : Set := Ordinary | IntoFunction | OutOfFunction.

(** [langutil::SourceLocation]: offsets (-1 when unknown) and the source's name. *)
Record SourceLocation : Set := mkLocation {
  loc_start : Z;
  loc_end : Z;
  loc_source : option String.string }.

Definition noLocation : SourceLocation := mkLocation (-1) (-1) None.

Record AssemblyItem : Set := mkItem {
  m_type : AssemblyItemType;
  m_instruction : Instruction;
  m_data : Z;
  m_location : SourceLocation;
  m_jumpType : JumpType;
  m_modifierDepth : Z;
  m_pushedValue : option Z;
  m_immutableOccurrences : option Z }.

(** The constructors [AssemblyItem(Instruction, location)] and
    [AssemblyItem(AssemblyItemType, u256, location)]. *)
Definition opItem (_i : Instruction) (_location : SourceLocation) : AssemblyItem :=
  mkItem Operation _i 0 _location Ordinary 0 None None.
Definition dataItem (_type : AssemblyItemType) (_data : Z) (_location : SourceLocation) : AssemblyItem :=
  mkItem _type STOP _data _location Ordinary 0 None None.

(** [operator==(AssemblyItem)]: the type and the instruction or data. *)
Definition item_eqb (_a _b : AssemblyItem) : bool :=
  bool_decide (m_type _a = m_type _b) &&
  match m_type _a with
  | Operation => bool_decide (m_instruction _a = m_instruction _b)
  | _ => m_data _a =? m_data _b
  end.

(** [operator==(Instruction)]. *)
Definition is_op (_item : AssemblyItem) (_instr : Instruction) : bool :=
  match m_type _item with
  | Operation => bool_decide (m_instruction _item = _instr)
  | _ => false
  end.

(** [numeric_limits<size_t>::max()]. *)
Definition size_t_max : Z := 2 ^ 64 - 1.

Definition setData (_item : AssemblyItem) (_data : Z) : AssemblyItem :=
  mkItem (m_type _item) (m_instruction _item) _data (m_location _item) (m_jumpType _item)
    (m_modifierDepth _item) (m_pushedValue _item) (m_immutableOccurrences _item).

Definition setType (_item : AssemblyItem) (_type : AssemblyItemType) : AssemblyItem :=
  mkItem _type (m_instruction _item) (m_data _item) (m_location _item) (m_jumpType _item)
    (m_modifierDepth _item) (m_pushedValue _item) (m_immutableOccurrences _item).

(** [m_type == PushTag || m_type == Tag]. *)
Definition isTagItem (_item : AssemblyItem) : bool :=
  match m_type _item with PushTag | Tag => true | _ => false end.

(** [tag()] and [pushTag()]. *)
Definition tag (_item : AssemblyItem) : option AssemblyItem :=
  _ ← assertThrow (isTagItem _item); Some (dataItem Tag (m_data _item) noLocation).
Definition pushTag (_item : AssemblyItem) : option AssemblyItem :=
  _ ← assertThrow (isTagItem _item); Some (dataItem PushTag (m_data _item) noLocation).

(** [splitForeignPushTag]: the sub-assembly id and the tag id, both of type
    [size_t]; the conversions from [u256] keep the low 64 bits. *)
Definition splitForeignPushTag (_item : AssemblyItem) : option (Z * Z) :=
  _ ← assertThrow (isTagItem _item);
  let combined := m_data _item in
  let subId := u256_sub (u256_shr combined 64) 1 mod 2 ^ 64 in
  let tag := Z.land combined 0xffffffffffffffff in
  Some (subId, tag).

Definition setPushTagSubIdAndTag (_item : AssemblyItem) (_subId _tag : Z) : option AssemblyItem :=
  _ ← assertThrow (isTagItem _item);
  let data := _tag in
  let data := if negb (_subId =? size_t_max)
              then Z.lor data (u256_shl (u256_add _subId 1) 64) else data in
  Some (setData _item data).

Definition toSubAssemblyTag (_item : AssemblyItem) (_subId : Z) : option AssemblyItem :=
  _ ← assertThrow (m_data _item <? u256_shl 1 64);
  _ ← assertThrow (isTagItem _item);
  let tag := Z.land (m_data _item) 0xffffffffffffffff in
  setPushTagSubIdAndTag (setType _item PushTag) _subId tag.

(** [AssemblyItem::bytesRequired(_addressLength)]; throws for an undefined item. *)
Definition item_bytesRequired (_item : AssemblyItem) (_addressLength : Z) : option Z :=
  match m_type _item with
  | Operation | Tag => Some 1
  | PushString => Some (1 + 32)
  | Push => Some (1 + Z.max 1 (Z.of_nat (bytesRequired (m_data _item))))
  | PushSubSize | PushProgramSize => Some (1 + 4)
  | PushTag | PushData | PushSub => Some (1 + _addressLength)
  | PushLibraryAddress | PushDeployTimeAddress => Some (1 + 20)
  | PushImmutable => Some (1 + 32)
  | AssignImmutable =>
      match m_immutableOccurrences _item with
      | Some n => Some (1 + (3 + 32) * n)
      | None => Some (1 + (3 + 32) * 1024)
      end
  | UndefinedItem => None
  end.

(** [evmasm::bytesRequired(_items, _addressLength)]. *)
Fixpoint items_bytesRequired (_items : list AssemblyItem) (_addressLength : Z) : option Z :=
  match _items with
  | [] => Some 0
  | item :: _items =>
      b ← item_bytesRequired item _addressLength;
      size ← items_bytesRequired _items _addressLength;
      Some (b + size)
  end.

Definition arguments (_item : AssemblyItem) : Z :=
  match m_type _item with
  | Operation => Z.of_nat (args (instructionInfo (m_instruction _item)))
  | AssignImmutable => 1
  | _ => 0
  end.

Definition returnValues (_item : AssemblyItem) : Z :=
  match m_type _item with
  | Operation => Z.of_nat (ret (instructionInfo (m_instruction _item)))
  | Push | PushString | PushTag | PushData | PushSub | PushSubSize | PushProgramSize
  | PushLibraryAddress | PushImmutable | PushDeployTimeAddress => 1
  | Tag => 0
  | _ => 0
  end.

(** [deposit]: a [size_t] difference, and its conversion to [int]. *)
Definition deposit (_item : AssemblyItem) : Z := (returnValues _item - arguments _item) mod 2 ^ 64.
Definition to_int (x : Z) : Z :=
  let y := x mod 2 ^ 32 in if y <? 2 ^ 31 then y else y - 2 ^ 32.

Definition canBeFunctional (_item : AssemblyItem) : bool :=
  match m_jumpType _item with
  | Ordinary =>
      match m_type _item with
      | Operation =>
          negb (isDupInstruction (m_instruction _item)) && negb (isSwapInstruction (m_instruction _item))
      | Push | PushString | PushTag | PushData | PushSub | PushSubSize | PushProgramSize
      | PushLibraryAddress | PushDeployTimeAddress | PushImmutable => true
      | Tag => false
      | _ => false
      end
  | _ => false
  end.

Definition getJumpTypeAsString (_item : AssemblyItem) : String.string :=
  match m_jumpType _item with
  | IntoFunction => "[in]"
  | OutOfFunction => "[out]"
  | Ordinary => ""
  end.

(** ** Lemmas *)

Lemma is_op_spec it i : is_op it i = true <-> m_type it = Operation /\ m_instruction it = i.
Proof.
  unfold is_op. destruct (m_type it); split; intros H; try naive_solver.
  by apply bool_decide_eq_true in H.
  apply bool_decide_eq_true, H.
Qed.

Lemma item_eqb_spec a b :
  item_eqb a b = true <->
  m_type a = m_type b /\ (if decide (m_type a = Operation) then m_instruction a = m_instruction b
                          else m_data a = m_data b).
Proof.
  unfold item_eqb. rewrite andb_true_iff, bool_decide_eq_true.
  destruct (m_type a); simpl; rewrite ?bool_decide_eq_true, ?Z.eqb_eq; done.
Qed.

(** A tag of the assembly itself. *)
Lemma split_local it : isTagItem it = true -> 0 <= m_data it <= size_t_max ->
  splitForeignPushTag it = Some (size_t_max, m_data it).
Proof.
  intros Ht Hd. unfold splitForeignPushTag, size_t_max in *. rewrite Ht. cbn [assertThrow mbind option_bind].
  unfold u256_shr. rewrite Z.shiftr_div_pow2 by lia. rewrite (Z.div_small (m_data it)) by lia.
  change 0xffffffffffffffff with (Z.ones 64). rewrite Z.land_ones by lia.
  by rewrite (Z.mod_small (m_data it)) by lia.
Qed.

(** A tag of a sub-assembly read back: the ids [setPushTagSubIdAndTag] stores are the ids
    [splitForeignPushTag] returns, the id of no sub-assembly included. *)
Theorem foreignTag_roundtrip it subId tag it' :
  0 <= subId <= size_t_max -> 0 <= tag <= size_t_max ->
  setPushTagSubIdAndTag it subId tag = Some it' -> splitForeignPushTag it' = Some (subId, tag).
Proof.
  intros Hs Ht. unfold setPushTagSubIdAndTag. destruct (isTagItem it) eqn:Hi; [|done].
  cbn [assertThrow mbind option_bind]. intros [= <-]. unfold splitForeignPushTag.
  change (isTagItem (setData it _)) with (isTagItem it). rewrite Hi.
  cbn [assertThrow mbind option_bind setData m_data]. unfold size_t_max in *.
  destruct (Z.eqb_spec subId (2 ^ 64 - 1)) as [->|Hne]; cbn [negb].
  - do 2 f_equal.
    + unfold u256_shr. rewrite Z.shiftr_div_pow2, Z.div_small by lia. done.
    + change 0xffffffffffffffff with (Z.ones 64). rewrite Z.land_ones, Z.mod_small; lia.
  - assert (u256_shl (u256_add subId 1) 64 = (subId + 1) * 2 ^ 64) as ->.
    { unfold u256_add, u256_shl. rewrite (u256_id (subId + 1)) by (unfold is_u256, modulus; lia).
      rewrite Z.shiftl_mul_pow2 by lia. apply u256_id. unfold is_u256, modulus. lia. }
    assert (Z.lor tag ((subId + 1) * 2 ^ 64) = tag + (subId + 1) * 2 ^ 64) as ->.
    { rewrite <- Z.shiftl_mul_pow2 by lia. symmetry. apply Z.add_nocarry_lor.
      apply Z.bits_inj'. intros k Hk. rewrite Z.land_spec, Z.bits_0, Z.shiftl_spec by lia.
      destruct (Z.lt_ge_cases k 64).
      - rewrite (Z.testbit_neg_r (subId + 1)) by lia. apply andb_false_r.
      - by rewrite (bits_above tag 64) by lia. }
    do 2 f_equal.
    + unfold u256_shr, u256_sub. rewrite Z.shiftr_div_pow2 by lia.
      rewrite Z.div_add, Z.div_small by lia. rewrite u256_id by (unfold is_u256, modulus; lia).
      rewrite Z.mod_small; lia.
    + change 0xffffffffffffffff with (Z.ones 64). rewrite Z.land_ones by lia.
      rewrite Z.mod_add by lia. by rewrite Z.mod_small by lia.
Qed.

Lemma foreignTag_roundtrip_witness :
  exists it', setPushTagSubIdAndTag (dataItem PushTag 0 noLocation) 3 17 = Some it' /\
    splitForeignPushTag it' = Some (3, 17).
Proof.
  eexists. split; [reflexivity|].
  by apply (foreignTag_roundtrip (dataItem PushTag 0 noLocation) 3 17).
Defined.
