(* ===== verification/SemanticInformation.v ===== *)
(** * SemanticInformation: classification of items, libevmasm/SemanticInformation.cpp *)

From S2P Require Import Prelude Instruction AssemblyItem.

(** [SemanticInformation::isDupInstruction] and the like on items: an operation with
    the property. *)
Definition item_isDup (_item : AssemblyItem) : bool :=
  match m_type _item with Operation => isDupInstruction (m_instruction _item) | _ => false end.
Definition item_isSwap (_item : AssemblyItem) : bool :=
  match m_type _item with Operation => isSwapInstruction (m_instruction _item) | _ => false end.

Definition breaksCSEAnalysisBlock (_item : AssemblyItem) (_msizeImportant : bool) : bool :=
  match m_type _item with
  | UndefinedItem | Tag | PushDeployTimeAddress | AssignImmutable => true
  | Push | PushString | PushTag | PushSub | PushSubSize | PushProgramSize | PushData
  | PushLibraryAddress | PushImmutable => false
  | Operation =>
      let instruction := m_instruction _item in
      if item_isSwap _item || item_isDup _item then false
      else match instruction with
           | GAS | PC => true
           | MSIZE => true
           | SSTORE => false
           | MSTORE => false
           | _ =>
               let info := instructionInfo instruction in
               if negb _msizeImportant && (match instruction with
                                            | MLOAD | KECCAK256 => true | _ => false end)
               then false
               else sideEffects info || (2 <? args info)%nat
           end
  end.

Definition isCommutativeInstruction (_instruction : Instruction) : bool :=
  match _instruction with
  | ADD | MUL | EQ | AND | OR | XOR => true
  | _ => false
  end.

Definition isCommutativeOperation (_item : AssemblyItem) : bool :=
  match m_type _item with
  | Operation => isCommutativeInstruction (m_instruction _item)
  | _ => false
  end.

Definition isJumpInstruction (_item : AssemblyItem) : bool := is_op _item JUMP || is_op _item JUMPI.

Definition altersControlFlow (_item : AssemblyItem) : bool :=
  match m_type _item with
  | Operation =>
      match m_instruction _item with
      | JUMP | JUMPI | RETURN | SELFDESTRUCT | STOP | INVALID | REVERT => true
      | _ => false
      end
  | _ => false
  end.

Definition instr_terminatesControlFlow (_instruction : Instruction) : bool :=
  match _instruction with
  | RETURN | SELFDESTRUCT | STOP | INVALID | REVERT => true
  | _ => false
  end.

Definition terminatesControlFlow (_item : AssemblyItem) : bool :=
  match m_type _item with
  | Operation => instr_terminatesControlFlow (m_instruction _item)
  | _ => false
  end.

Definition instr_reverts (_instruction : Instruction) : bool :=
  match _instruction with INVALID | REVERT => true | _ => false end.

Definition reverts (_item : AssemblyItem) : bool :=
  match m_type _item with
  | Operation => instr_reverts (m_instruction _item)
  | _ => false
  end.

Definition isDeterministicInstruction (_instruction : Instruction) : bool :=
  match _instruction with
  | CALL | CALLCODE | DELEGATECALL | STATICCALL | CREATE | CREATE2 | GAS | PC | MSIZE
  | BALANCE | SELFBALANCE | EXTCODESIZE | EXTCODEHASH | RETURNDATACOPY | RETURNDATASIZE => false
  | _ => true
  end.

Definition isDeterministic (_item : AssemblyItem) : bool :=
  match m_type _item with
  | Operation => isDeterministicInstruction (m_instruction _item)
  | _ => true
  end.

Definition movable (_instruction : Instruction) : bool :=
  if isDupInstruction _instruction || isSwapInstruction _instruction then false
  else if sideEffects (instructionInfo _instruction) then false
  else match _instruction with
       | KECCAK256 | BALANCE | SELFBALANCE | EXTCODESIZE | EXTCODEHASH | RETURNDATASIZE
       | SLOAD | PC | MSIZE | GAS => false
       | _ => true
       end.

Definition sideEffectFree (_instruction : Instruction) : option bool :=
  _ ← assertThrow (negb (isDupInstruction _instruction) && negb (isSwapInstruction _instruction));
  Some (negb (sideEffects (instructionInfo _instruction))).

Definition sideEffectFreeIfNoMSize (_instruction : Instruction) : option bool :=
  match _instruction with
  | KECCAK256 | MLOAD => Some true
  | _ => sideEffectFree _instruction
  end.

Definition invalidatesMemory (_instruction : Instruction) : bool :=
  match _instruction with
  | CALLDATACOPY | CODECOPY | EXTCODECOPY | RETURNDATACOPY | MSTORE | MSTORE8 | CALL
  | CALLCODE | DELEGATECALL | STATICCALL => true
  | _ => false
  end.

Definition invalidatesStorage (_instruction : Instruction) : bool :=
  match _instruction with
  | CALL | CALLCODE | DELEGATECALL | CREATE | CREATE2 | SSTORE => true
  | _ => false
  end.

Definition invalidInViewFunctions (_instruction : Instruction) : bool :=
  match _instruction with
  | SSTORE | JUMP | JUMPI | LOG0 | LOG1 | LOG2 | LOG3 | LOG4 | CREATE | CALL | CALLCODE
  | DELEGATECALL | CREATE2 | SELFDESTRUCT => true
  | _ => false
  end.

Definition invalidInPureFunctions (_instruction : Instruction) : bool :=
  match _instruction with
  | ADDRESS | SELFBALANCE | BALANCE | ORIGIN | CALLER | CALLVALUE | GAS | GASPRICE
  | EXTCODESIZE | EXTCODECOPY | EXTCODEHASH | BLOCKHASH | COINBASE | TIMESTAMP | NUMBER
  | DIFFICULTY | GASLIMIT | STATICCALL | SLOAD => true
  | _ => invalidInViewFunctions _instruction
  end.

(** ** Lemmas *)

Lemma item_isDup_spec it : item_isDup it = true <-> m_type it = Operation /\ isDupInstruction (m_instruction it) = true.
Proof. unfold item_isDup. destruct (m_type it); naive_solver. Qed.

Lemma item_isSwap_spec it : item_isSwap it = true <-> m_type it = Operation /\ isSwapInstruction (m_instruction it) = true.
Proof. unfold item_isSwap. destruct (m_type it); naive_solver. Qed.

(** The classifications of instructions agree: what is free of side effects writes
    neither memory nor storage and does not end the execution; what may be moved is free of
    side effects and deterministic; reverting is terminating; what pure functions may use
    view functions may use; writing storage is forbidden in view functions; and a
    commutative operation takes two arguments and may be moved. *)
Theorem classifications_agree i :
  (sideEffectFree i = Some true ->
     invalidatesMemory i = false /\ invalidatesStorage i = false /\ instr_terminatesControlFlow i = false) /\
  (movable i = true -> sideEffectFree i = Some true /\ isDeterministicInstruction i = true) /\
  (instr_reverts i = true -> instr_terminatesControlFlow i = true) /\
  (invalidInViewFunctions i = true -> invalidInPureFunctions i = true) /\
  (invalidatesStorage i = true -> invalidInViewFunctions i = true) /\
  (isCommutativeInstruction i = true -> args (instructionInfo i) = 2%nat /\ movable i = true).
Proof. destruct i; vm_compute; repeat split; congruence. Qed.

(** The five signal instructions act on other contracts' state, and are classified as
    if they did not: they count as free of side effects, movable and deterministic, and are
    allowed in pure functions. *)
Theorem signals_classified_pure i :
  In i [CREATESIGNAL; SIGBIND; SIGDETACH; SIGEMIT; DELETESIGNAL] ->
  sideEffectFree i = Some true /\ movable i = true /\ isDeterministicInstruction i = true /\
  breaksCSEAnalysisBlock (opItem i noLocation) true = (2 <? args (instructionInfo i))%nat /\
  invalidInViewFunctions i = false /\ invalidInPureFunctions i = false.
Proof. intros H. repeat destruct H as [<-|H]; [vm_compute; by repeat split..|destruct H]. Qed.

Lemma signals_classified_pure_witness :
  sideEffectFree SIGEMIT = Some true /\ movable SIGEMIT = true /\ isDeterministicInstruction SIGEMIT = true /\
  breaksCSEAnalysisBlock (opItem SIGEMIT noLocation) true = (2 <? args (instructionInfo SIGEMIT))%nat /\
  invalidInViewFunctions SIGEMIT = false /\ invalidInPureFunctions SIGEMIT = false.
Proof. apply signals_classified_pure. simpl. tauto. Defined.
