(* ===== verification/Interpreter.v ===== *)
(** * Interpreter: what the opcodes mean

    [EVMInstructionInterpreter::eval] of test/tools/yulInterpreter, the reference
    interpreter the repository uses to compare programs before and after
    optimisation.  It is the semantics the optimiser's rules are proved against.
    Keccak-256 is an argument.  A C++ exception ends the evaluation:
    [ExplicitlyTerminated], [TraceLimitReached] and a failed [yulAssert] are the
    values of [Stop]. *)

From S2P Require Import Prelude U256 CommonData Instruction.

(** The fields of [InterpreterState] an instruction reads or writes.  A trace line
    is the instruction with its arguments and data rather than its text. *)
Record InterpreterState := mkState {
  calldata : list Z;
  returndata : list Z;
  memory : gmap Z Z;
  msize : Z;
  storage : gmap Z Z;
  address : Z;
  balance : Z;
  selfbalance : Z;
  origin : Z;
  caller : Z;
  callvalue : Z;
  code : list Z;
  gasprice : Z;
  coinbase : Z;
  timestamp : Z;
  blockNumber : Z;
  difficulty : Z;
  gaslimit : Z;
  chainid : Z;
  trace : list (option (Instruction * list Z * list Z));
  maxTraceSize : Z }.

(** The values a state starts with. *)
Definition initialState : InterpreterState := {|
  calldata := []; returndata := []; memory := ∅; msize := 0; storage := ∅;
  address := 0x11111111; balance := 0x22222222; selfbalance := 0x22223333;
  origin := 0x33333333; caller := 0x44444444; callvalue := 0x55555555;
  code := [99; 111; 100; 101; 99; 111; 100; 101; 99; 111; 100; 101; 99; 111; 100; 101;
           99; 111; 100; 101];
  gasprice := 0x66666666; coinbase := 0x77777777; timestamp := 0x88888888;
  blockNumber := 1024; difficulty := 0x9999999; gaslimit := 4000000; chainid := 1;
  trace := []; maxTraceSize := 0 |}.

Inductive Stop : Set := ExplicitlyTerminated | TraceLimitReached | AssertionFailed.

(** A computation on the state that returns a value or throws. *)
Definition M (A : Type) : Type := InterpreterState -> (A + Stop) * InterpreterState.
Definition mreturn {A} (a : A) : M A := fun s => (inl a, s).
Definition mthrow {A} (e : Stop) : M A := fun s => (inr e, s).
Definition mseq {A B} (m : M A) (k : A -> M B) : M B :=
  fun s => match m s with (inl a, s) => k a s | (inr e, s) => (inr e, s) end.
Definition mget {A} (f : InterpreterState -> A) : M A := fun s => (inl (f s), s).
Definition mmodify (f : InterpreterState -> InterpreterState) : M unit := fun s => (inl tt, f s).

Declare Scope interp_scope.
Delimit Scope interp_scope with interp.
Notation "x <-- m ;; k" := (mseq m (fun x => k))
  (at level 100, m at next level, right associativity) : interp_scope.
Notation "m ;;; k" := (mseq m (fun _ => k))
  (at level 100, right associativity) : interp_scope.

Definition set_memory (m : gmap Z Z) (s : InterpreterState) : InterpreterState :=
  mkState (calldata s) (returndata s) m (msize s) (storage s) (address s) (balance s)
    (selfbalance s) (origin s) (caller s) (callvalue s) (code s) (gasprice s) (coinbase s)
    (timestamp s) (blockNumber s) (difficulty s) (gaslimit s) (chainid s) (trace s) (maxTraceSize s).
Definition set_msize (n : Z) (s : InterpreterState) : InterpreterState :=
  mkState (calldata s) (returndata s) (memory s) n (storage s) (address s) (balance s)
    (selfbalance s) (origin s) (caller s) (callvalue s) (code s) (gasprice s) (coinbase s)
    (timestamp s) (blockNumber s) (difficulty s) (gaslimit s) (chainid s) (trace s) (maxTraceSize s).
Definition set_storage (m : gmap Z Z) (s : InterpreterState) : InterpreterState :=
  mkState (calldata s) (returndata s) (memory s) (msize s) m (address s) (balance s)
    (selfbalance s) (origin s) (caller s) (callvalue s) (code s) (gasprice s) (coinbase s)
    (timestamp s) (blockNumber s) (difficulty s) (gaslimit s) (chainid s) (trace s) (maxTraceSize s).
Definition set_trace (t : list (option (Instruction * list Z * list Z))) (s : InterpreterState) : InterpreterState :=
  mkState (calldata s) (returndata s) (memory s) (msize s) (storage s) (address s) (balance s)
    (selfbalance s) (origin s) (caller s) (callvalue s) (code s) (gasprice s) (coinbase s)
    (timestamp s) (blockNumber s) (difficulty s) (gaslimit s) (chainid s) t (maxTraceSize s).

(** ** The arithmetic instructions *)

Definition bool_word (b : bool) : Z := if b then 1 else 0.

(** The arithmetic cases of [eval]; [None] for any other instruction or number of
    arguments.  Division and remainder of [s256] truncate towards zero. *)
Definition eval_arith (_instruction : Instruction) (arg : list Z) : option Z :=
  match _instruction, arg with
  | ADD, [a; b] => Some (u256_add a b)
  | MUL, [a; b] => Some (u256_mul a b)
  | SUB, [a; b] => Some (u256_sub a b)
  | DIV, [a; b] => Some (if b =? 0 then 0 else a / b)
  | SDIV, [a; b] => Some (if b =? 0 then 0 else s2u (Z.quot (u2s a) (u2s b)))
  | MOD, [a; b] => Some (if b =? 0 then 0 else a mod b)
  | SMOD, [a; b] => Some (if b =? 0 then 0 else s2u (Z.rem (u2s a) (u2s b)))
  | EXP, [a; b] => exp256 a b
  | NOT, [a] => Some (u256_not a)
  | LT, [a; b] => Some (bool_word (a <? b))
  | GT, [a; b] => Some (bool_word (b <? a))
  | SLT, [a; b] => Some (bool_word (u2s a <? u2s b))
  | SGT, [a; b] => Some (bool_word (u2s b <? u2s a))
  | EQ, [a; b] => Some (bool_word (a =? b))
  | ISZERO, [a] => Some (bool_word (a =? 0))
  | AND, [a; b] => Some (Z.land a b)
  | OR, [a; b] => Some (Z.lor a b)
  | XOR, [a; b] => Some (Z.lxor a b)
  | BYTE, [a; b] => Some (if 32 <=? a then 0 else Z.land (u256_shr b (8 * (31 - a))) 0xff)
  | SHL, [a; b] => Some (if 255 <? a then 0 else u256_shl b a)
  | SHR, [a; b] => Some (if 255 <? a then 0 else u256_shr b a)
  | SAR, [a; b] =>
      let hibit := u256_shl 1 255 in
      Some (if 256 <=? a then (if negb (Z.land b hibit =? 0) then u256 (-1) else 0)
            else
              let amount := a in
              let v := u256_shr b amount in
              if negb (Z.land b hibit =? 0) then Z.lor v (u256_shl (u256 (-1)) (256 - amount)) else v)
  | ADDMOD, [a; b; c] => Some (if c =? 0 then 0 else (a + b) mod c)
  | MULMOD, [a; b; c] => Some (if c =? 0 then 0 else (a * b) mod c)
  | SIGNEXTEND, [a; b] =>
      Some (if 31 <=? a then b
            else
              let testBit := a * 8 + 7 in
              let mask := u256_sub (u256_shl 1 testBit) 1 in
              if Z.testbit b testBit then Z.lor b (u256_not mask) else Z.land b mask)
  | _, _ => None
  end.

(** ** Memory *)

(** [readZeroExtended]. *)
Definition readZeroExtended (_data : list Z) (_offset : Z) : Z :=
  if Z.of_nat (length _data) <=? _offset then 0
  else fold_left (fun val i =>
         let val := u256_shl val 8 in
         if (Z.to_nat _offset + i <? length _data)%nat
         then u256_add val (nth_def _data (Z.to_nat _offset + i) 0) else val)
       (seq 0 32) 0.

(** [copyZeroExtended]; the offsets are [size_t]s. *)
Definition copyZeroExtended (_target : gmap Z Z) (_source : list Z)
    (_targetOffset _sourceOffset : Z) (_size : nat) : gmap Z Z :=
  fold_left (fun m i =>
    <[u256 ((_targetOffset + Z.of_nat i) mod 2 ^ 64) :=
        nth_def _source (Z.to_nat ((_sourceOffset + Z.of_nat i) mod 2 ^ 64)) 0]> m)
    (seq 0 _size) _target.

Section Eval.
Context (keccak256 : list Z -> Z).
Local Open Scope interp_scope.

Definition accessMemory (_offset _size : Z) : M bool :=
  if (_offset <=? u256_add _offset _size) &&
     (u256_add _offset _size <=? u256_add (u256_add _offset _size) 0x1f) then
    let newSize := Z.land (u256_add (u256_add _offset _size) 0x1f) (u256_not 0x1f) in
    mmodify (fun s => set_msize (Z.max (msize s) newSize) s) ;;; mreturn (_size <=? 0xffff)
  else
    mmodify (set_msize (u256 (-1))) ;;; mreturn false.

Definition memory_at (m : gmap Z Z) (a : Z) : Z := default 0 (m !! a).

Definition readMemory (_offset _size : Z) : M (list Z) :=
  if _size <=? 0xffff then
    mget (fun s => map (fun i => memory_at (memory s) (u256_add _offset (Z.of_nat i)))
                       (seq 0 (Z.to_nat _size)))
  else mthrow AssertionFailed.

Definition readMemoryWord (_offset : Z) : M Z :=
  d <-- readMemory _offset 32 ;; mreturn (fromBigEndian d).

Definition writeMemoryWord (_offset _value : Z) : M unit :=
  mmodify (fun s => set_memory (fold_left (fun m i =>
      <[u256_add _offset (Z.of_nat i) := Z.land (u256_shr _value (8 * (31 - Z.of_nat i))) 0xff]> m)
    (seq 0 32) (memory s)) s).

Definition logTrace (_instruction : Instruction) (_arguments _data : list Z) : M unit :=
  mmodify (fun s => set_trace (trace s ++ [Some (_instruction, _arguments, _data)]) s) ;;;
  limit <-- mget (fun s => (0 <? maxTraceSize s) && (maxTraceSize s <=? Z.of_nat (length (trace s)))) ;;
  if limit : bool then mmodify (fun s => set_trace (trace s ++ [None]) s) ;;; mthrow TraceLimitReached
  else mreturn tt.

Definition u64 (x : Z) : Z := x mod 2 ^ 64.

(** The instructions that copy [source] to memory. *)
Definition copyInstruction (source : InterpreterState -> list Z) (target offset size : Z) : M Z :=
  ok <-- accessMemory target size ;;
  (if ok : bool then
     mmodify (fun s => set_memory (copyZeroExtended (memory s) (source s)
       (u64 target) (u64 offset) (Z.to_nat (u64 size))) s)
   else mreturn tt) ;;;
  mreturn 0.

(** [eval].  A wrong number of arguments fails the assertion. *)
Definition eval (_instruction : Instruction) (arg : list Z) : M Z :=
  if negb (Nat.eqb (args (instructionInfo _instruction)) (length arg)) then mthrow AssertionFailed
  else
  match eval_arith _instruction arg with
  | Some v => mreturn v
  | None =>
  match _instruction, arg with
  | CREATESIGNAL, _ | SIGDETACH, _ | SIGBIND, _ | SIGEMIT, _ | DELETESIGNAL, _ => mreturn 0
  | STOP, _ => mthrow ExplicitlyTerminated
  | KECCAK256, [a; b] =>
      ok <-- accessMemory a b ;;
      if ok : bool then
        data <-- readMemory (u64 a) (u64 b) ;; mreturn (u256 (keccak256 data))
      else mreturn (u256_add 0x1234cafe1234cafe1234cafe a)
  | ADDRESS, _ => mget address
  | BALANCE, [a] => mget (fun s => if a =? address s then selfbalance s else balance s)
  | SELFBALANCE, _ => mget selfbalance
  | ORIGIN, _ => mget origin
  | CALLER, _ => mget caller
  | CALLVALUE, _ => mget callvalue
  | CALLDATALOAD, [a] => mget (fun s => readZeroExtended (calldata s) a)
  | CALLDATASIZE, _ => mget (fun s => Z.of_nat (length (calldata s)))
  | CALLDATACOPY, [a; b; c] => copyInstruction calldata a b c
  | CODESIZE, _ => mget (fun s => Z.of_nat (length (code s)))
  | CODECOPY, [a; b; c] => copyInstruction code a b c
  | GASPRICE, _ => mget gasprice
  | CHAINID, _ => mget chainid
  | EXTCODESIZE, [a] => mreturn (Z.land (u256 (keccak256 (toBigEndian 32 a))) 0xffffff)
  | EXTCODEHASH, [a] => mreturn (u256 (keccak256 (toBigEndian 32 (u256_add a 1))))
  | EXTCODECOPY, [a; b; c; e] =>
      logTrace _instruction arg [] ;;; copyInstruction code b c e
  | RETURNDATASIZE, _ => mget (fun s => Z.of_nat (length (returndata s)))
  | RETURNDATACOPY, [a; b; c] =>
      logTrace _instruction arg [] ;;; copyInstruction returndata a b c
  | BLOCKHASH, [a] =>
      mget (fun s =>
        if (blockNumber s <=? a) || (u256_add a 256 <? blockNumber s) then 0
        else u256_add 0xaaaaaaaa (u256_sub (u256_sub a (blockNumber s)) 256))
  | COINBASE, _ => mget coinbase
  | TIMESTAMP, _ => mget timestamp
  | NUMBER, _ => mget blockNumber
  | DIFFICULTY, _ => mget difficulty
  | GASLIMIT, _ => mget gaslimit
  | MLOAD, [a] => accessMemory a 0x20 ;;; readMemoryWord a
  | MSTORE, [a; b] => accessMemory a 0x20 ;;; writeMemoryWord a b ;;; mreturn 0
  | MSTORE8, [a; b] =>
      accessMemory a 1 ;;;
      mmodify (fun s => set_memory (<[a := Z.land b 0xff]> (memory s)) s) ;;; mreturn 0
  | SLOAD, [a] => mget (fun s => default 0 (storage s !! a))
  | SSTORE, [a; b] => mmodify (fun s => set_storage (<[a := b]> (storage s)) s) ;;; mreturn 0
  | PC, _ => mreturn 0x77
  | MSIZE, _ => mget msize
  | GAS, _ => mreturn 0x99
  | LOG0, a :: b :: _ | LOG1, a :: b :: _ | LOG2, a :: b :: _ | LOG3, a :: b :: _
  | LOG4, a :: b :: _ =>
      accessMemory a b ;;; logTrace _instruction arg [] ;;; mreturn 0
  | CREATE, [a; b; c] =>
      accessMemory b c ;;; logTrace _instruction arg [] ;;;
      mreturn (u256_add 0xcccccc b mod 2 ^ 160)
  | CREATE2, [a; b; c; e] =>
      accessMemory c e ;;; logTrace _instruction arg [] ;;;
      mreturn (u256_add 0xdddddd b mod 2 ^ 160)
  | CALL, [a; b; c; e; f; g; h] | CALLCODE, [a; b; c; e; f; g; h] =>
      accessMemory e f ;;; accessMemory g h ;;; logTrace _instruction arg [] ;;;
      mreturn (Z.land a 1)
  | DELEGATECALL, [a; b; c; e; f; g] | STATICCALL, [a; b; c; e; f; g] =>
      accessMemory c e ;;; accessMemory f g ;;; logTrace _instruction arg [] ;;; mreturn 0
  | RETURN, [a; b] =>
      ok <-- accessMemory a b ;;
      data <-- (if ok : bool then readMemory a b else mreturn []) ;;
      logTrace _instruction arg data ;;; mthrow ExplicitlyTerminated
  | REVERT, [a; b] =>
      accessMemory a b ;;; logTrace _instruction arg [] ;;; mthrow ExplicitlyTerminated
  | INVALID, _ => logTrace _instruction [] [] ;;; mthrow ExplicitlyTerminated
  | SELFDESTRUCT, _ => logTrace _instruction arg [] ;;; mthrow ExplicitlyTerminated
  | POP, _ => mreturn 0
  | _, _ => mthrow AssertionFailed
  end
  end.

End Eval.
