(* ===== verification/Yul.v ===== *)
(** * Yul: the syntax of Yul, its literals and its dialects for the EVM

    The tree of libyul/AsmData.h, the values of literals (libyul/Utilities.cpp), and the dialects
    of libyul/Dialect.h and libyul/backends/evm/EVMDialect.cpp as a [Dialect] record: the tables
    of builtin functions and the virtual functions of the dialects.  Source locations are left
    out: no definition here reads them. *)

From Stdlib Require Import Ascii.
From stdpp Require Import strings.
From S2P Require Import Prelude U256 CommonData Instruction EVMVersion SemanticInformation.

Definition YulString : Set := String.string.

Inductive LiteralKind : Set := Number | Boolean | StringLiteral.
#[export] Instance LiteralKind_eq_dec : EqDecision LiteralKind.
Proof. solve_decision. Defined.

Record Literal : Set := mkLiteral { kind : LiteralKind; literal : YulString; literal_type : YulString }.
#[export] Instance Literal_eq_dec : EqDecision Literal.
Proof. solve_decision. Defined.

Record TypedName : Set := mkTyped { name_of : YulString; type_of : YulString }.

Inductive Expression : Set :=
| FunctionCall (functionName : YulString) (arguments : list Expression)
| Identifier (name : YulString)
| LiteralExpression (l : Literal).

Inductive Statement : Set :=
| ExpressionStatement (expression : Expression)
| Assignment (variableNames : list YulString) (value : Expression)
| VariableDeclaration (variables : list TypedName) (value : option Expression)
| FunctionDefinition (name : YulString) (parameters returnVariables : list TypedName) (body : list Statement)
| If (condition : Expression) (body : list Statement)
| Switch (expression : Expression) (cases : list (option Literal * list Statement))
| ForLoop (pre : list Statement) (condition : Expression) (post body : list Statement)
| Break
| Continue
| Leave
| Block (statements : list Statement).

Definition isFunctionDefinition (s : Statement) : bool :=
  match s with FunctionDefinition _ _ _ _ => true | _ => false end.

(** Induction over the lists of a tree. *)
Section Induction.
Context (P : Statement -> Prop).
Context (HExpression : forall e, P (ExpressionStatement e)) (HAssignment : forall x e, P (Assignment x e))
  (HVariable : forall x e, P (VariableDeclaration x e))
  (HFunction : forall f p r b, Forall P b -> P (FunctionDefinition f p r b))
  (HIf : forall e b, Forall P b -> P (If e b))
  (HSwitch : forall e c, Forall (fun p => Forall P (snd p)) c -> P (Switch e c))
  (HFor : forall pre e post b, Forall P pre -> Forall P post -> Forall P b -> P (ForLoop pre e post b))
  (HBreak : P Break) (HContinue : P Continue) (HLeave : P Leave)
  (HBlock : forall b, Forall P b -> P (Block b)).

Fixpoint Statement_nested_ind (s : Statement) : P s :=
  let all := fix all (l : list Statement) : Forall P l :=
    match l with [] => Forall_nil_2 _ | s :: l => Forall_cons_2 _ _ _ (Statement_nested_ind s) (all l) end in
  match s with
  | ExpressionStatement e => HExpression e
  | Assignment x e => HAssignment x e
  | VariableDeclaration x e => HVariable x e
  | FunctionDefinition f p r b => HFunction f p r b (all b)
  | If e b => HIf e b (all b)
  | Switch e c =>
      HSwitch e c ((fix cases (c : list (option Literal * list Statement)) : Forall (fun p => Forall P (snd p)) c :=
        match c with [] => Forall_nil_2 _ | p :: c => Forall_cons_2 _ _ _ (all (snd p)) (cases c) end) c)
  | ForLoop pre e post b => HFor pre e post b (all pre) (all post) (all b)
  | Break => HBreak
  | Continue => HContinue
  | Leave => HLeave
  | Block b => HBlock b (all b)
  end.
End Induction.

Section ExpressionInduction.
Context (P : Expression -> Prop).
Context (HCall : forall f l, Forall P l -> P (FunctionCall f l)) (HIdentifier : forall x, P (Identifier x))
  (HLiteral : forall l, P (LiteralExpression l)).

Fixpoint Expression_nested_ind (e : Expression) : P e :=
  match e with
  | FunctionCall f l =>
      HCall f l ((fix all (l : list Expression) : Forall P l :=
        match l with [] => Forall_nil_2 _ | e :: l => Forall_cons_2 _ _ _ (Expression_nested_ind e) (all l) end) l)
  | Identifier x => HIdentifier x
  | LiteralExpression l => HLiteral l
  end.
End ExpressionInduction.

(** ** Literals *)

Definition digit_value (c : Z) : Z :=
  if (chr "0" <=? c) && (c <=? chr "9") then c - chr "0"
  else if (chr "a" <=? c) && (c <=? chr "f") then c - chr "a" + 10
  else c - chr "A" + 10.

(** [u256(string)], of a valid decimal or hexadecimal number. *)
Definition u256_of_string (s : list Z) : Z :=
  let base := if bool_decide (firstn 2 s = str "0x") then 16 else 10 in
  let digits := if base =? 16 then skipn 2 s else s in
  u256 (fold_left (fun v c => v * base + digit_value c) digits 0).

Definition valueOfNumberLiteral (_literal : Literal) : option Z :=
  _ ← assertThrow (bool_decide (kind _literal = Number));
  let literalString := str (literal _literal) in
  _ ← assertThrow (isValidDecimal literalString || isValidHex literalString);
  Some (u256_of_string literalString).

(** [h256(_, FromBinary, AlignLeft)]. *)
Definition valueOfStringLiteral (_literal : Literal) : option Z :=
  _ ← assertThrow (bool_decide (kind _literal = StringLiteral));
  let bytes := str (literal _literal) in
  _ ← assertThrow (Nat.leb (length bytes) 32);
  Some (u256 (fromBigEndian (bytes ++ repeat 0 (32 - length bytes)))).

Definition valueOfBoolLiteral (_literal : Literal) : option Z :=
  _ ← assertThrow (bool_decide (kind _literal = Boolean));
  if String.eqb (literal _literal) "true" then Some 1
  else if String.eqb (literal _literal) "false" then Some 0
  else None.

Definition valueOfLiteral (_literal : Literal) : option Z :=
  match kind _literal with
  | Number => valueOfNumberLiteral _literal
  | Boolean => valueOfBoolLiteral _literal
  | StringLiteral => valueOfStringLiteral _literal
  end.

(** ** Dialects *)

Record SideEffects : Set := mkEffects {
  movable : bool;
  sideEffectFree : bool;
  sideEffectFreeIfNoMSize : bool;
  invalidatesStorage : bool;
  invalidatesMemory : bool }.

Definition noEffects : SideEffects := mkEffects true true true false false.
Definition worst : SideEffects := mkEffects false false false true true.

(** [operator+]. *)
Definition effects_add (a b : SideEffects) : SideEffects :=
  mkEffects (movable a && movable b) (sideEffectFree a && sideEffectFree b)
    (sideEffectFreeIfNoMSize a && sideEffectFreeIfNoMSize b)
    (invalidatesStorage a || invalidatesStorage b) (invalidatesMemory a || invalidatesMemory b).

(** [BuiltinFunctionForEVM]; [generateCode] is left out. *)
Record BuiltinFunction : Set := mkBuiltin {
  builtin_name : YulString;
  parameters : list YulString;
  returns : list YulString;
  builtin_sideEffects : SideEffects;
  terminates : bool;
  reverts : bool;
  isMSize : bool;
  literalArguments : list (option LiteralKind);
  instruction : option Instruction }.

(** [Dialect]; [discardFunction] and [equalityFunction] may fail an assertion on the type. *)
Record Dialect : Type := mkDialect {
  defaultType : YulString;
  boolType : YulString;
  builtin : YulString -> option BuiltinFunction;
  discardFunction : YulString -> option (option BuiltinFunction);
  equalityFunction : YulString -> option (option BuiltinFunction);
  booleanNegationFunction : option BuiltinFunction }.

Definition zeroLiteralForType (d : Dialect) (_type : YulString) : Literal :=
  if String.eqb _type (boolType d) && negb (String.eqb _type (defaultType d))
  then mkLiteral Boolean "false" _type
  else mkLiteral Number "0" _type.

(** ** The dialects for the EVM *)

Definition sideEffectsOfInstruction (_instruction : Instruction) : option SideEffects :=
  free ← SemanticInformation.sideEffectFree _instruction;
  freeIfNoMSize ← SemanticInformation.sideEffectFreeIfNoMSize _instruction;
  Some (mkEffects (SemanticInformation.movable _instruction) free freeIfNoMSize
    (SemanticInformation.invalidatesStorage _instruction) (SemanticInformation.invalidatesMemory _instruction)).

Definition createEVMFunction (_name : YulString) (_instruction : Instruction) : option BuiltinFunction :=
  let info := instructionInfo _instruction in
  effects ← sideEffectsOfInstruction _instruction;
  Some (mkBuiltin _name (repeat EmptyString (args info)) (repeat EmptyString (ret info)) effects
    (instr_terminatesControlFlow _instruction) (SemanticInformation.instr_reverts _instruction)
    (bool_decide (_instruction = MSIZE)) [] (Some _instruction)).

Definition createFunction (_name : YulString) (_params _returns : nat) (_sideEffects : SideEffects)
    (_literalArguments : list (option LiteralKind)) : BuiltinFunction :=
  mkBuiltin _name (repeat EmptyString _params) (repeat EmptyString _returns) _sideEffects false false false
    _literalArguments None.

(** [tolower] on a name. *)
Fixpoint lower (s : YulString) : YulString :=
  match s with
  | EmptyString => EmptyString
  | String c s =>
      let n := Ascii.nat_of_ascii c in
      String (if Nat.leb 65 n && Nat.leb n 90 then Ascii.ascii_of_nat (n + 32) else c) (lower s)
  end.

(** The instructions that are builtin functions. *)
Definition isBuiltinInstruction (_evmVersion : EVMVersion) (opcode : Instruction) : bool :=
  negb (isDupInstruction opcode) && negb (isSwapInstruction opcode) && negb (isPushInstruction opcode) &&
  negb (bool_decide (opcode = JUMP)) && negb (bool_decide (opcode = JUMPI)) &&
  negb (bool_decide (opcode = JUMPDEST)) && hasOpcode _evmVersion opcode.

Definition Functions : Type := gmap YulString BuiltinFunction.

(** [emplace]: a name that is there stays. *)
Definition emplace (f : BuiltinFunction) (m : Functions) : Functions :=
  match m !! builtin_name f with Some _ => m | None => <[builtin_name f := f]> m end.

Fixpoint instructionBuiltins (_evmVersion : EVMVersion) (l : list (String.string * Instruction)) (builtins : Functions)
    : option Functions :=
  match l with
  | [] => Some builtins
  | (name, opcode) :: l =>
      if isBuiltinInstruction _evmVersion opcode then
        f ← createEVMFunction (lower name) opcode;
        instructionBuiltins _evmVersion l (emplace f builtins)
      else instructionBuiltins _evmVersion l builtins
  end.

Definition objectBuiltins : list BuiltinFunction :=
  [createFunction "linkersymbol" 1 1 noEffects [Some StringLiteral];
   createFunction "datasize" 1 1 noEffects [Some StringLiteral];
   createFunction "dataoffset" 1 1 noEffects [Some StringLiteral];
   createFunction "datacopy" 3 0 (mkEffects false false false false true) [];
   createFunction "setimmutable" 2 0 (mkEffects false false false false true) [Some StringLiteral; None];
   createFunction "loadimmutable" 1 1 noEffects [Some StringLiteral]].

Definition createBuiltins (_evmVersion : EVMVersion) (_objectAccess : bool) : option Functions :=
  builtins ← instructionBuiltins _evmVersion c_instructions ∅;
  Some (if _objectAccess then fold_left (fun m f => emplace f m) objectBuiltins builtins else builtins).

(** [EVMDialect]; the types of its functions and [defaultType] are empty. *)
Definition EVMDialect (_evmVersion : EVMVersion) (_objectAccess : bool) : option Dialect :=
  m_functions ← createBuiltins _evmVersion _objectAccess;
  Some (mkDialect "" "" (fun _name => m_functions !! _name) (fun _ => Some (m_functions !! "pop"))
    (fun _ => Some (m_functions !! "eq")) (m_functions !! "iszero")).

(** The dialect with types.  [at_name] is [operator[]] of the table. *)
Definition noBuiltin : BuiltinFunction := mkBuiltin "" [] [] noEffects false false false [] None.
Definition at_name (m : Functions) (n : YulString) : BuiltinFunction := default noBuiltin (m !! n).

Definition with_types (params rets : list YulString) (f : BuiltinFunction) : BuiltinFunction :=
  mkBuiltin (builtin_name f) params rets (builtin_sideEffects f) (terminates f) (reverts f) (isMSize f)
    (literalArguments f) (instruction f).
Definition with_name (n : YulString) (f : BuiltinFunction) : BuiltinFunction :=
  mkBuiltin n (parameters f) (returns f) (builtin_sideEffects f) (terminates f) (reverts f) (isMSize f)
    (literalArguments f) (instruction f).

Definition set_returns (n : YulString) (rets : list YulString) (m : Functions) : Functions :=
  <[n := with_types (parameters (at_name m n)) rets (at_name m n)]> m.
Definition set_parameters (n : YulString) (params : list YulString) (m : Functions) : Functions :=
  <[n := with_types params (returns (at_name m n)) (at_name m n)]> m.
(** [m[to] = m[from]; m[to].name = to]. *)
Definition copy_function (to from : YulString) (m : Functions) : Functions := <[to := with_name to (at_name m from)]> m.

Definition u256_type : YulString := "u256".
Definition bool_type : YulString := "bool".

Definition typedFunctions (m_functions : Functions) : Functions :=
  let m := (fun f => with_types (map (fun _ => u256_type) (parameters f)) (map (fun _ => u256_type) (returns f)) f)
             <$> m_functions in
  let m := fold_left (fun m n => set_returns n [bool_type] m) ["lt"; "gt"; "slt"; "sgt"; "eq"]%string m in
  let m := copy_function "bitnot" "not" m in
  let m := copy_function "not" "iszero" m in
  let m := set_returns "not" [bool_type] m in
  let m := set_parameters "not" [bool_type] m in
  let m := delete ("iszero" : YulString) m in
  let m := copy_function "bitand" "and" m in
  let m := copy_function "bitor" "or" m in
  let m := copy_function "bitxor" "xor" m in
  let m := fold_left (fun m n => set_returns n [bool_type] (set_parameters n [bool_type; bool_type] m)) ["and"; "or"; "xor"]%string m in
  let m := set_parameters "popbool" [bool_type] (copy_function "popbool" "pop" m) in
  let m := emplace (createFunction "bool_to_u256" 1 1 noEffects []) m in
  let m := set_returns "bool_to_u256" [u256_type] (set_parameters "bool_to_u256" [bool_type] m) in
  let m := emplace (createFunction "u256_to_bool" 1 1 noEffects []) m in
  set_returns "u256_to_bool" [bool_type] (set_parameters "u256_to_bool" [u256_type] m).

Definition EVMDialectTyped (_evmVersion : EVMVersion) (_objectAccess : bool) : option Dialect :=
  m_functions ← createBuiltins _evmVersion _objectAccess;
  let m := typedFunctions m_functions in
  Some (mkDialect u256_type bool_type (fun _name => m !! _name)
    (fun _type => if String.eqb _type bool_type then Some (m !! ("popbool" : YulString))
                  else _ ← assertThrow (String.eqb _type u256_type); Some (m !! ("pop" : YulString)))
    (fun _type => if String.eqb _type bool_type then Some None
                  else _ ← assertThrow (String.eqb _type u256_type); Some (m !! ("eq" : YulString)))
    (m !! ("not" : YulString))).
