(* ===== verification/YulInterpreter.v ===== *)
(** * YulInterpreter: the meaning of Yul, test/tools/yulInterpreter

    [Interpreter] and [ExpressionEvaluator] of Interpreter.cpp and [evalBuiltin] of
    EVMInstructionInterpreter.cpp, over the [InterpreterState] of the instructions.  The limit on
    the number of steps is off, as by default ([maxSteps] 0); in its place the depth of calls and
    the number of iterations of a loop are bounded by fuel, and [Unfinished] says that it did not
    suffice.  A scope is made anew when a block is entered: the interpreter keeps it from the last
    time, with the names of variables that are gone. *)

From Stdlib Require Import Ascii.
From stdpp Require Import strings.
From S2P Require Import Prelude U256 CommonData Instruction Interpreter Yul.

Module ControlFlowState.
Inductive t : Set := Default | Continue | Break | Leave.
#[export] Instance eq_dec : EqDecision t.
Proof. solve_decision. Defined.
End ControlFlowState.
Export (hints) ControlFlowState.

(** The part of the state a statement changes besides the variables. *)
Record RunState := mkRun { controlFlowState : ControlFlowState.t; machine : InterpreterState }.

Inductive Outcome (A : Type) : Type :=
| Ran (a : A) (s : RunState)
| Threw (e : Stop) (s : InterpreterState)
| Unfinished.
Arguments Ran {_}. Arguments Threw {_}. Arguments Unfinished {_}.

Definition Y (A : Type) : Type := RunState -> Outcome A.
Definition yret {A} (a : A) : Y A := fun s => Ran a s.
Definition ybind {A B} (m : Y A) (k : A -> Y B) : Y B := fun s =>
  match m s with Ran a s => k a s | Threw e s => Threw e s | Unfinished => Unfinished end.
Definition ythrow {A} (e : Stop) : Y A := fun s => Threw e (machine s).
Definition yassert (b : bool) : Y unit := if b then yret tt else ythrow AssertionFailed.
Definition yoption {A} (o : option A) : Y A := match o with Some a => yret a | None => ythrow AssertionFailed end.
Definition ymode : Y ControlFlowState.t := fun s => Ran (controlFlowState s) s.
Definition yset (m : ControlFlowState.t) : Y unit := fun s => Ran tt (mkRun m (machine s)).
(** An operation on the state of the machine. *)
Definition ymachine {A} (m : M A) : Y A := fun s =>
  match m (machine s) with
  | (inl a, s') => Ran a (mkRun (controlFlowState s) s')
  | (inr e, s') => Threw e s'
  end.

Declare Scope yul_scope.
Delimit Scope yul_scope with yul.
Notation "x <-- m ;; k" := (ybind m (fun x => k))
  (at level 100, m at next level, right associativity) : yul_scope.
Notation "m ;;; k" := (ybind m (fun _ => k))
  (at level 100, right associativity) : yul_scope.
Local Open Scope yul_scope.

(** ** Scopes *)

Record Function : Set := mkFunction {
  function_parameters : list TypedName;
  function_returns : list TypedName;
  function_body : list Statement }.

(** The names of a scope; [None] for a variable. *)
Abbreviation Scope := (gmap YulString (option Function)).
Abbreviation Variables := (gmap YulString Z).

Definition add_name (n : YulString) (f : option Function) (h : Scope) : Scope :=
  match h !! n with Some _ => h | None => <[n := f]> h end.

(** [enterScope], with the functions a block registers. *)
Fixpoint registered (l : list Statement) (h : Scope) : Scope :=
  match l with
  | [] => h
  | FunctionDefinition f p r b :: l => registered l (add_name f (Some (mkFunction p r b)) h)
  | _ :: l => registered l h
  end.

Definition is_variable (h : Scope) (x : YulString) : bool :=
  match h !! x with Some None => true | _ => false end.

(** The variables that are left when a scope is left. *)
Definition leaveScope (h : Scope) (v : Variables) : Variables := filter (fun p => is_variable h (fst p) = false) v.

(** The innermost scope that has a name, with what it says. *)
Fixpoint lookupName (n : YulString) (scopes : list Scope) : option (option Function * list Scope) :=
  match scopes with
  | [] => None
  | h :: rest => match h !! n with Some f => Some (f, scopes) | None => lookupName n rest end
  end.

Section Interpreter.
Context (d : Dialect) (keccak256 : list Z -> Z).

(** ** Builtin functions *)

Definition literalAt (arguments : list Expression) : option YulString :=
  match arguments with LiteralExpression l :: _ => Some (literal l) | _ => None end.

Definition evalBuiltin (_fun : BuiltinFunction) (_arguments : list Expression) (_evaluatedArguments : list Z) : M Z :=
  match instruction _fun with
  | Some i => eval keccak256 i _evaluatedArguments
  | None =>
      let name := builtin_name _fun in
      if String.eqb name "datasize" || String.eqb name "dataoffset" then
        match literalAt _arguments with
        | None => mthrow AssertionFailed
        | Some s =>
            let arg := str s ++ repeat 0 (32 - String.length s) in
            let arg := if String.eqb name "datasize" then arg
                       else firstn 31 arg ++ (nth_def arg 31 0 + 2) mod 256 :: skipn 32 arg in
            mreturn (Z.land (u256 (keccak256 arg)) 0xfff)
        end
      else if String.eqb name "datacopy" then
        match _evaluatedArguments with
        | a :: b :: c :: _ => copyInstruction code a b c
        | _ => mthrow AssertionFailed
        end
      else mthrow AssertionFailed
  end.

(** ** Expressions *)

(** Calls of the functions in a scope. *)
Context (call : list Scope -> Function -> list Z -> Y (list Z)).

(** Whether the argument at a position is a literal that is not evaluated; [None] if there is no
    such argument. *)
Definition isLiteralArgument (literals : list (option LiteralKind)) (i : nat) : option bool :=
  match literals with
  | [] => Some false
  | _ => k ← literals !! i; Some (match k with Some _ => true | None => false end)
  end.

Definition literalsOf (f : YulString) : list (option LiteralKind) :=
  match builtin d f with Some b => literalArguments b | None => [] end.

(** [value]. *)
Definition single (values : list Z) : Y Z := match values with [v] => yret v | _ => ythrow AssertionFailed end.

(** The call of a builtin or of the function of that name, after its arguments. *)
Definition callFunction (scopes : list Scope) (f : YulString) (arguments : list Expression) (values : list Z) : Y (list Z) :=
  match builtin d f with
  | Some b => v <-- ymachine (evalBuiltin b arguments values) ;; yret [v]
  | None =>
      match lookupName f scopes with
      | Some (Some fd, scope) => call scope fd values
      | _ => ythrow AssertionFailed
      end
  end.

(** [evaluateMulti]: the arguments are evaluated from the last to the first. *)
Fixpoint evaluateMulti (scopes : list Scope) (v : Variables) (e : Expression) : Y (list Z) :=
  match e with
  | LiteralExpression l => x <-- yoption (valueOfLiteral l) ;; yret [x]
  | Identifier n => x <-- yoption (v !! n) ;; yret [x]
  | FunctionCall f arguments =>
      values <-- (fix evaluateArgs (i : nat) (arguments : list Expression) : Y (list Z) :=
                   match arguments with
                   | [] => yret []
                   | a :: arguments =>
                       values <-- evaluateArgs (S i) arguments ;;
                       isLiteral <-- yoption (isLiteralArgument (literalsOf f) i) ;;
                       x <-- (if isLiteral : bool then yret 0 else r <-- evaluateMulti scopes v a ;; single r) ;;
                       yret (x :: values)
                   end) 0%nat arguments ;;
      callFunction scopes f arguments values
  end.

Definition evaluate (scopes : list Scope) (v : Variables) (e : Expression) : Y Z :=
  values <-- evaluateMulti scopes v e ;; single values.

(** ** Statements *)

(** The values of an assignment and of a declaration. *)
Fixpoint assign (names : list YulString) (values : list Z) (v : Variables) : Y Variables :=
  match names, values with
  | [], [] => yret v
  | x :: names, y :: values =>
      yassert (bool_decide (is_Some (v !! x))) ;;; assign names values (<[x := y]> v)
  | _, _ => ythrow AssertionFailed
  end.

Fixpoint declare (names : list YulString) (values : list Z) (h : Scope) (v : Variables) : Y (Scope * Variables) :=
  match names, values with
  | [], [] => yret (h, v)
  | x :: names, y :: values =>
      yassert (bool_decide (v !! x = None)) ;;; declare names values (add_name x None h) (<[x := y]> v)
  | _, _ => ythrow AssertionFailed
  end.

Section Sequence.
Context (execute : Statement -> Scope -> list Scope -> Variables -> Y (Scope * Variables)).

(** The statements of a block, up to one that changes the control flow. *)
Fixpoint sequence (l : list Statement) (h : Scope) (scopes : list Scope) (v : Variables) : Y (Scope * Variables) :=
  match l with
  | [] => yret (h, v)
  | s :: l =>
      r <-- execute s h scopes v ;;
      m <-- ymode ;;
      if bool_decide (m = ControlFlowState.Default) then sequence l (fst r) scopes (snd r) else yret r
  end.

Definition block (l : list Statement) (scopes : list Scope) (v : Variables) : Y Variables :=
  r <-- sequence l (registered l ∅) scopes v ;; yret (leaveScope (fst r) (snd r)).

(** The statements of the initialisation of a loop. *)
Fixpoint initialise (l : list Statement) (h : Scope) (scopes : list Scope) (v : Variables) : Y (Scope * Variables) :=
  match l with
  | [] => yret (h, v)
  | s :: l =>
      r <-- execute s h scopes v ;;
      m <-- ymode ;;
      if bool_decide (m = ControlFlowState.Leave) then yret r else initialise l (fst r) scopes (snd r)
  end.

(** The iterations of a loop. *)
Section Loop.
Context (condition : Expression) (post body : list Statement).

Fixpoint iterate (bound : nat) (scopes : list Scope) (v : Variables) : Y Variables :=
  match bound with
  | O => fun _ => Unfinished
  | S bound =>
      c <-- evaluate scopes v condition ;;
      if c =? 0 then yret v
      else
        yset ControlFlowState.Default ;;;
        v <-- block body scopes v ;;
        m <-- ymode ;;
        if bool_decide (m = ControlFlowState.Break) || bool_decide (m = ControlFlowState.Leave) then yret v
        else
          yset ControlFlowState.Default ;;;
          v <-- block post scopes v ;;
          m <-- ymode ;;
          if bool_decide (m = ControlFlowState.Leave) then yret v else iterate bound scopes v
  end.

Definition loop (pre : list Statement) (bound : nat) (scopes : list Scope) (v : Variables) : Y Variables :=
  r <-- initialise pre ∅ scopes v ;;
  m <-- ymode ;;
  if bool_decide (m = ControlFlowState.Leave) then yret (leaveScope (fst r) (snd r))
  else
    v <-- iterate bound (fst r :: scopes) (snd r) ;;
    m <-- ymode ;;
    (if bool_decide (m = ControlFlowState.Leave) then yret tt else yset ControlFlowState.Default) ;;;
    yret (leaveScope (fst r) v).
End Loop.

(** The body of the first case that matches. *)
Fixpoint select (value : Z) (cases : list (option Literal * list Statement)) (scopes : list Scope) (v : Variables) : Y Variables :=
  match cases with
  | [] => yret v
  | (None, body) :: _ => block body scopes v
  | (Some l, body) :: cases =>
      x <-- yoption (valueOfLiteral l) ;;
      if x =? value then block body scopes v else select value cases scopes v
  end.
End Sequence.

(** A statement in the scope [h] inside [scopes]; [bound] is the number of iterations of a loop. *)
Context (bound : nat).

Fixpoint execute (s : Statement) (h : Scope) (scopes : list Scope) (v : Variables) : Y (Scope * Variables) :=
  match s with
  | ExpressionStatement e => evaluateMulti (h :: scopes) v e ;;; yret (h, v)
  | Assignment names e =>
      values <-- evaluateMulti (h :: scopes) v e ;;
      v <-- assign names values v ;; yret (h, v)
  | VariableDeclaration variables value =>
      values <-- match value with
                 | Some e => evaluateMulti (h :: scopes) v e
                 | None => yret (repeat 0 (length variables))
                 end ;;
      declare (map name_of variables) values h v
  | FunctionDefinition _ _ _ _ => yret (h, v)
  | If condition body =>
      c <-- evaluate (h :: scopes) v condition ;;
      if c =? 0 then yret (h, v) else v <-- block execute body (h :: scopes) v ;; yret (h, v)
  | Switch e cases =>
      x <-- evaluate (h :: scopes) v e ;;
      yassert (negb (Nat.eqb (length cases) 0)) ;;;
      v <-- select execute x cases (h :: scopes) v ;; yret (h, v)
  | ForLoop pre condition post body =>
      v <-- loop execute condition post body pre bound (h :: scopes) v ;; yret (h, v)
  | Break => yset ControlFlowState.Break ;;; yret (h, v)
  | Continue => yset ControlFlowState.Continue ;;; yret (h, v)
  | Leave => yset ControlFlowState.Leave ;;; yret (h, v)
  | Block l => v <-- block execute l (h :: scopes) v ;; yret (h, v)
  end.
End Interpreter.

(** ** Calls *)

Section Calls.
Context (d : Dialect) (keccak256 : list Z -> Z).

Definition zeros (names : list TypedName) (v : Variables) : Variables :=
  fold_left (fun v x => <[name_of x := 0]> v) names v.

Fixpoint bind_parameters (names : list TypedName) (values : list Z) (v : Variables) : Variables :=
  match names, values with
  | x :: names, y :: values => bind_parameters names values (<[name_of x := y]> v)
  | _, _ => v
  end.

(** The calls that nest at most [fuel] deep. *)
Fixpoint call (fuel : nat) (scopes : list Scope) (f : Function) (values : list Z) : Y (list Z) :=
  match fuel with
  | O => fun _ => Unfinished
  | S fuel =>
      yassert (Nat.eqb (length values) (length (function_parameters f))) ;;;
      let v := zeros (function_returns f) (bind_parameters (function_parameters f) values ∅) in
      yset ControlFlowState.Default ;;;
      v <-- block (execute d keccak256 (call fuel) (S fuel)) (function_body f) scopes v ;;
      yset ControlFlowState.Default ;;;
      yoption (mapM (fun x => v !! name_of x) (function_returns f))
  end.

(** [Interpreter::run]. *)
Definition run (fuel : nat) (_ast : list Statement) (s : InterpreterState) : Outcome Variables :=
  block (execute d keccak256 (call fuel) (S fuel)) _ast [∅] ∅ (mkRun ControlFlowState.Default s).
End Calls.
