(* ===== verification/YulEquivalence.v ===== *)
(** * YulEquivalence: when lists of statements mean the same

    Two lists of statements are equivalent when they have the same effect, whatever functions are
    in scope and however deep calls may nest.  The scopes hold the bodies of functions, so the
    relation is indexed by the depth: functions are related when their calls agree, in scopes
    whose functions are related one level below.  Equivalence is a congruence. *)

From stdpp Require Import strings.
From S2P Require Import Prelude U256 CommonData Instruction Interpreter Yul YulInterpreter.

Local Open Scope yul_scope.

Abbreviation normal := (mkRun ControlFlowState.Default).

Section Equivalence.
Context (d : Dialect) (keccak256 : list Z -> Z).

Abbreviation exec n := (execute d keccak256 (call d keccak256 n) (S n)).
Abbreviation evalMulti n := (evaluateMulti d keccak256 (call d keccak256 n)).
Abbreviation eval n := (evaluate d keccak256 (call d keccak256 n)).

(** ** Related scopes *)

Section Scopes.
Context (R : Function -> Function -> Prop).

Definition name_rel (o o' : option (option Function)) : Prop :=
  match o, o' with
  | None, None => True
  | Some None, Some None => True
  | Some (Some f), Some (Some f') => R f f'
  | _, _ => False
  end.

Definition scope_rel (h h' : Scope) : Prop := forall x, name_rel (h !! x) (h' !! x).

(** The scopes of a block, where scopes without names do not count. *)
Inductive scopes_rel : list Scope -> list Scope -> Prop :=
| scopes_nil : scopes_rel [] []
| scopes_cons h h' l l' : scope_rel h h' -> scopes_rel l l' -> scopes_rel (h :: l) (h' :: l')
| scopes_left l l' : scopes_rel l l' -> scopes_rel (∅ :: l) l'
| scopes_right l l' : scopes_rel l l' -> scopes_rel l (∅ :: l').

Lemma lookupName_rel n l l' :
  scopes_rel l l' ->
  match lookupName n l, lookupName n l' with
  | None, None => True
  | Some (None, _), Some (None, _) => True
  | Some (Some f, k), Some (Some f', k') => R f f' /\ scopes_rel k k'
  | _, _ => False
  end.
Proof using.
  induction 1 as [|h h' l l' Hh Hl IH|l l' Hl IH|l l' Hl IH]; cbn [lookupName]; [done| |by rewrite lookup_empty..].
  pose proof (Hh n) as Hn. unfold name_rel in Hn. destruct (h !! n) as [[f|]|], (h' !! n) as [[f'|]|]; try done.
  split; [done|]. by apply scopes_cons.
Qed.

Lemma add_name_rel x o o' h h' :
  name_rel (Some o) (Some o') -> scope_rel h h' -> scope_rel (add_name x o h) (add_name x o' h').
Proof using.
  intros Ho Hh y. unfold add_name. pose proof (Hh x) as Hx. unfold name_rel in Hx.
  destruct (h !! x) as [[f|]|] eqn:E, (h' !! x) as [[f'|]|] eqn:E'; try done.
  destruct (decide (x = y)) as [<-|Hne]; [by rewrite !lookup_insert_eq|]. rewrite !lookup_insert_ne by done. apply Hh.
Qed.

Lemma leaveScope_rel h h' v : scope_rel h h' -> leaveScope h v = leaveScope h' v.
Proof using.
  intros Hh. unfold leaveScope. apply map_filter_ext. intros x y _. cbn [fst]. unfold is_variable.
  specialize (Hh x). unfold name_rel in Hh. destruct (h !! x) as [[f|]|], (h' !! x) as [[f'|]|]; done.
Qed.

(** Outcomes with related scopes, and otherwise equal. *)
Definition out_rel (o o' : Outcome (Scope * Variables)) : Prop :=
  match o, o' with
  | Ran r s, Ran r' s' => scope_rel (fst r) (fst r') /\ snd r = snd r' /\ s = s'
  | Threw e s, Threw e' s' => e = e' /\ s = s'
  | Unfinished, Unfinished => True
  | _, _ => False
  end.
End Scopes.

Lemma name_rel_mono (R S : Function -> Function -> Prop) o o' :
  (forall f f', R f f' -> S f f') -> name_rel R o o' -> name_rel S o o'.
Proof using. intros HRS. unfold name_rel. destruct o as [[f|]|], o' as [[f'|]|]; auto. Qed.

Lemma scope_rel_mono (R S : Function -> Function -> Prop) h h' :
  (forall f f', R f f' -> S f f') -> scope_rel R h h' -> scope_rel S h h'.
Proof using. intros HRS Hh x. eapply name_rel_mono; [exact HRS|apply Hh]. Qed.

Lemma scopes_rel_mono (R S : Function -> Function -> Prop) l l' :
  (forall f f', R f f' -> S f f') -> scopes_rel R l l' -> scopes_rel S l l'.
Proof using.
  intros HRS. induction 1; constructor; auto. eapply scope_rel_mono; eassumption.
Qed.

(** ** Related functions *)

Fixpoint fun_rel (n : nat) (f f' : Function) : Prop :=
  match n with
  | O => True
  | S m =>
      fun_rel m f f' /\
      forall l l' values s, scopes_rel (fun_rel m) l l' ->
        call d keccak256 (S m) l f values s = call d keccak256 (S m) l' f' values s
  end.

Lemma call_rel n f f' l l' values s :
  fun_rel n f f' -> scopes_rel (fun_rel n) l l' -> call d keccak256 n l f values s = call d keccak256 n l' f' values s.
Proof using.
  destruct n as [|n]; [done|]. intros [_ Hf] Hl. apply Hf. eapply scopes_rel_mono; [|exact Hl]. by intros g g' [].
Qed.

Abbreviation scope_at n := (scope_rel (fun_rel n)).
Abbreviation scopes_at n := (scopes_rel (fun_rel n)).

(** ** Expressions *)

Lemma ybind_ext {A B} (m m' : Y A) (k k' : A -> Y B) s :
  m s = m' s -> (forall a s', m s = Ran a s' -> k a s' = k' a s') -> ybind m k s = ybind m' k' s.
Proof using. intros Hm Hk. unfold ybind. rewrite <- Hm. destruct (m s) eqn:E; [by apply Hk|done..]. Qed.

Lemma callFunction_rel n l l' f arguments values s :
  scopes_at n l l' ->
  callFunction d keccak256 (call d keccak256 n) l f arguments values s =
  callFunction d keccak256 (call d keccak256 n) l' f arguments values s.
Proof using.
  intros Hl. unfold callFunction. destruct (builtin d f); [done|].
  pose proof (lookupName_rel _ f l l' Hl) as Hf.
  destruct (lookupName f l) as [[[g|] k]|], (lookupName f l') as [[[g'|] k']|]; try done.
  destruct Hf as [Hg Hk]. by apply call_rel.
Qed.

Lemma evaluateMulti_rel n l l' v e s : scopes_at n l l' -> evalMulti n l v e s = evalMulti n l' v e s.
Proof using.
  intros Hl. revert s. induction e as [f args IH|x|lit] using Expression_nested_ind; intros s; [|done|done].
  cbn [evaluateMulti]. apply ybind_ext; [|intros values s' _; by apply callFunction_rel].
  generalize 0%nat as i. revert s. induction IH as [|a args Ha Hargs IH]; intros s i; [done|].
  apply ybind_ext; [apply IH|]. intros values s1 _. apply ybind_ext; [done|]. intros b s2 _.
  apply ybind_ext; [|done]. destruct b; [done|]. apply ybind_ext; [apply Ha|done].
Qed.

Lemma evaluate_rel n l l' v e s : scopes_at n l l' -> eval n l v e s = eval n l' v e s.
Proof using. intros Hl. unfold evaluate. apply ybind_ext; [by apply evaluateMulti_rel|done]. Qed.

(** The control flow is the default one after a call. *)
Lemma call_normal n l f values s r s' :
  call d keccak256 n l f values s = Ran r s' -> controlFlowState s' = ControlFlowState.Default.
Proof using.
  destruct n as [|n]; [done|]. cbn [call]. unfold ybind, yassert, yset, yoption.
  destruct (Nat.eqb _ _); [|done]. cbn [yret]. destruct (block _ _ _ _ _) as [v s1| |]; [|done..].
  destruct (mapM _ _); [|done]. by intros [= <- <-].
Qed.

Lemma ymachine_mode {A} (m : M A) s a s' : ymachine m s = Ran a s' -> controlFlowState s' = controlFlowState s.
Proof using. unfold ymachine. destruct (m (machine s)) as [[b|] w]; [|done]. by intros [= <- <-]. Qed.

Lemma ybind_ran {A B} (m : Y A) (k : A -> Y B) s b s' :
  ybind m k s = Ran b s' -> exists a s1, m s = Ran a s1 /\ k a s1 = Ran b s'.
Proof using. unfold ybind. destruct (m s) as [a s1| |]; [|done..]. by exists a, s1. Qed.

Abbreviation is_normal s := (controlFlowState s = ControlFlowState.Default).

Lemma evaluateMulti_normal n l v e s r s' : evalMulti n l v e s = Ran r s' -> is_normal s -> is_normal s'.
Proof using.
  revert s r s'. induction e as [f args IH|x|lit] using Expression_nested_ind; intros s r s' Hr Hs; cbn [evaluateMulti] in Hr.
  - apply ybind_ran in Hr as (values & s1 & Hargs & Hr).
    assert (is_normal s1) as Hs1.
    { clear Hr. revert Hargs. generalize 0%nat as i. revert s Hs values s1.
      induction IH as [|a args Ha Hargs IH]; intros s Hs values s1 i Hr; [by injection Hr as <- <-|].
      apply ybind_ran in Hr as (vs & s2 & H2 & Hr). apply IH in H2; [|done].
      apply ybind_ran in Hr as (b & s3 & H3 & Hr). unfold yoption in H3.
      destruct (isLiteralArgument _ _); [|done]. injection H3 as <- <-.
      apply ybind_ran in Hr as (x & s4 & H4 & Hr). injection Hr as <- <-. destruct b0; [by injection H4 as <- <-|].
      apply ybind_ran in H4 as (y & s5 & H5 & H4). apply Ha in H5; [|done]. unfold single in H4.
      destruct y as [|y [|]]; try done. by injection H4 as <- <-. }
    unfold callFunction in Hr. destruct (builtin d f) as [b|].
    + apply ybind_ran in Hr as (x & s2 & H2 & Hr). injection Hr as <- <-. by rewrite (ymachine_mode _ _ _ _ H2).
    + destruct (lookupName f l) as [[[g|] k]|]; try done. by eapply call_normal.
  - apply ybind_ran in Hr as (y & s1 & H1 & Hr). unfold yoption in H1. destruct (v !! x); [|done].
    injection H1 as <- <-. by injection Hr as <- <-.
  - apply ybind_ran in Hr as (y & s1 & H1 & Hr). unfold yoption in H1. destruct (valueOfLiteral lit); [|done].
    injection H1 as <- <-. by injection Hr as <- <-.
Qed.

Lemma evaluate_normal n l v e s r s' : eval n l v e s = Ran r s' -> is_normal s -> is_normal s'.
Proof using.
  intros Hr Hs. apply ybind_ran in Hr as (values & s1 & H1 & Hr). eapply evaluateMulti_normal in H1; [|done].
  unfold single in Hr. destruct values as [|y [|]]; try done. by injection Hr as <- <-.
Qed.
(** ** Related statements

    [any] says whether a relation holds from every state or only from those with the default
    control flow, in which the statements of a program are run. *)

Definition starts (any : bool) (s : RunState) : Prop := any = true \/ is_normal s.

Definition stmt_rel (any : bool) (n : nat) (s s' : Statement) : Prop :=
  forall h h' l l' v st, starts any st -> scope_at n h h' -> scopes_at n l l' ->
    out_rel (fun_rel n) (exec n s h l v st) (exec n s' h' l' v st).

Definition seq_rel (any : bool) (n : nat) (b b' : list Statement) : Prop :=
  forall h h' l l' v st, starts any st -> scope_at n h h' -> scopes_at n l l' ->
    out_rel (fun_rel n) (sequence (exec n) b h l v st) (sequence (exec n) b' h' l' v st).

Definition init_rel (any : bool) (n : nat) (b b' : list Statement) : Prop :=
  forall h h' l l' v st, starts any st -> scope_at n h h' -> scopes_at n l l' ->
    out_rel (fun_rel n) (initialise (exec n) b h l v st) (initialise (exec n) b' h' l' v st).

Definition reg_rel (n : nat) (b b' : list Statement) : Prop :=
  forall h h', scope_at n h h' -> scope_at n (registered b h) (registered b' h').

Definition body_rel (any : bool) (n : nat) (b b' : list Statement) : Prop := seq_rel any n b b' /\ reg_rel n b b'.

Lemma starts_normal any s : is_normal s -> starts any s.
Proof using. by right. Qed.

Lemma scope_empty n : scope_at n ∅ ∅.
Proof using. intros x. by rewrite lookup_empty. Qed.

Lemma evaluateMulti_starts any n l v e s r s' : evalMulti n l v e s = Ran r s' -> starts any s -> starts any s'.
Proof using. intros Hr [->|Hs]; [by left|right]. by eapply evaluateMulti_normal. Qed.

Lemma evaluate_starts any n l v e s r s' : eval n l v e s = Ran r s' -> starts any s -> starts any s'.
Proof using. intros Hr [->|Hs]; [by left|right]. by eapply evaluate_normal. Qed.

(** The binds of related outcomes. *)
Lemma out_bind (R : Function -> Function -> Prop) (m m' : Y (Scope * Variables)) (k k' : Scope * Variables -> Y (Scope * Variables)) s :
  out_rel R (m s) (m' s) ->
  (forall h h' v s', scope_rel R h h' -> m s = Ran (h, v) s' -> out_rel R (k (h, v) s') (k' (h', v) s')) ->
  out_rel R (ybind m k s) (ybind m' k' s).
Proof using.
  intros Hm Hk. unfold ybind. destruct (m s) as [[h v] s1|e s1|], (m' s) as [[h' v'] s1'|e' s1'|]; try done.
  destruct Hm as (Hh & Hv & ->). cbn [fst snd] in *. subst v'. by apply Hk.
Qed.

Lemma eq_out_bind {A} (R : Function -> Function -> Prop) (m m' : Y (Scope * Variables)) (k k' : Scope * Variables -> Y A) s :
  out_rel R (m s) (m' s) ->
  (forall h h' v s', scope_rel R h h' -> m s = Ran (h, v) s' -> k (h, v) s' = k' (h', v) s') ->
  ybind m k s = ybind m' k' s.
Proof using.
  intros Hm Hk. unfold ybind. destruct (m s) as [[h v] s1|e s1|], (m' s) as [[h' v'] s1'|e' s1'|]; try done.
  - destruct Hm as (Hh & Hv & ->). cbn [fst snd] in *. subst v'. by apply Hk.
  - by destruct Hm as [-> ->].
Qed.

Lemma out_eq_bind {A} (R : Function -> Function -> Prop) (m m' : Y A) (k k' : A -> Y (Scope * Variables)) s :
  m s = m' s -> (forall a s', m s = Ran a s' -> out_rel R (k a s') (k' a s')) ->
  out_rel R (ybind m k s) (ybind m' k' s).
Proof using. intros Hm Hk. unfold ybind. rewrite <- Hm. destruct (m s); [by apply Hk|done..]. Qed.

Lemma out_ret (R : Function -> Function -> Prop) h h' v s : scope_rel R h h' -> out_rel R (yret (h, v) s) (yret (h', v) s).
Proof using. done. Qed.

(** A sequence whose statements are related. *)
Lemma sequence_rel any n b b' : Forall2 (stmt_rel any n) b b' -> seq_rel any n b b'.
Proof using.
  induction 1 as [|s s' b b' Hs _ IH]; intros h h' l l' v st Hst Hh Hl; [by apply out_ret|]. cbn [sequence].
  apply out_bind; [by apply Hs|]. intros h1 h1' v1 st1 Hh1 _. unfold ybind, ymode.
  destruct (bool_decide_reflect (controlFlowState st1 = ControlFlowState.Default)) as [Hn|]; [|done].
  apply IH; [by right|done..].
Qed.

Lemma initialise_rel n b b' : Forall2 (stmt_rel true n) b b' -> init_rel true n b b'.
Proof using.
  induction 1 as [|s s' b b' Hs _ IH]; intros h h' l l' v st Hst Hh Hl; [by apply out_ret|]. cbn [initialise].
  apply out_bind; [by apply Hs|]. intros h1 h1' v1 st1 Hh1 _. unfold ybind, ymode.
  destruct (bool_decide_reflect (controlFlowState st1 = ControlFlowState.Leave)) as [Hn|]; [done|].
  apply IH; [by left|done..].
Qed.

Lemma block_rel any n b b' l l' v st :
  body_rel any n b b' -> starts any st -> scopes_at n l l' -> block (exec n) b l v st = block (exec n) b' l' v st.
Proof using.
  intros [Hseq Hreg] Hst Hl. unfold block.
  apply (eq_out_bind (fun_rel n)); [by apply Hseq; [|apply Hreg, scope_empty|]|].
  intros h h' v1 s1 Hh _. unfold yret. by rewrite (leaveScope_rel _ _ _ _ Hh).
Qed.

(** ** Statements with related parts *)

Lemma if_rel any n e b b' : body_rel any n b b' -> stmt_rel any n (If e b) (If e b').
Proof using.
  intros Hb h h' l l' v st Hst Hh Hl. cbn [execute]. assert (scopes_at n (h :: l) (h' :: l')) as Hl' by by constructor.
  apply out_eq_bind; [by apply evaluate_rel|]. intros c s1 H1. destruct (c =? 0); [by apply out_ret|].
  apply out_eq_bind; [|intros; by apply out_ret]. apply (block_rel any); [done| |done]. by eapply evaluate_starts.
Qed.

Lemma select_rel any n x c c' l l' v st :
  Forall2 (fun p p' => fst p = fst p' /\ body_rel any n (snd p) (snd p')) c c' -> starts any st -> scopes_at n l l' ->
  select (exec n) x c l v st = select (exec n) x c' l' v st.
Proof using.
  intros Hc Hst Hl. revert st Hst. induction Hc as [|[lit b] [lit' b'] c c' [Hlit Hb] _ IH]; intros st Hst; [done|].
  cbn [fst snd] in *. subst lit'. cbn [select]. destruct lit as [lit|]; [|by apply (block_rel any)].
  unfold yoption. destruct (valueOfLiteral lit) as [y|]; [|done]. unfold ybind, yret.
  destruct (y =? x); [by apply (block_rel any)|by apply IH].
Qed.

Lemma switch_rel any n e c c' :
  Forall2 (fun p p' => fst p = fst p' /\ body_rel any n (snd p) (snd p')) c c' -> stmt_rel any n (Switch e c) (Switch e c').
Proof using.
  intros Hc h h' l l' v st Hst Hh Hl. cbn [execute]. assert (scopes_at n (h :: l) (h' :: l')) as Hl' by by constructor.
  apply out_eq_bind; [by apply evaluate_rel|]. intros x s1 H1. rewrite <- (Forall2_length _ _ _ Hc).
  apply out_eq_bind; [done|]. intros [] s2 H2. assert (s2 = s1) as ->.
  { unfold yassert in H2. destruct (negb _); [|done]. by injection H2. }
  apply out_eq_bind; [|intros; by apply out_ret]. apply (select_rel any); [done| |done]. by eapply evaluate_starts.
Qed.

Lemma nested_block_rel any n b b' : body_rel any n b b' -> stmt_rel any n (Block b) (Block b').
Proof using.
  intros Hb h h' l l' v st Hst Hh Hl. cbn [execute]. apply out_eq_bind; [|intros; by apply out_ret].
  apply (block_rel any); [done..|by constructor].
Qed.

(** The iterations of a loop; [post] has to leave a state to go on from. *)
Lemma iterate_rel any n e post post' b b' k l l' v st :
  body_rel any n post post' -> body_rel any n b b' ->
  (forall l v s r s', is_normal s -> block (exec n) post l v s = Ran r s' -> controlFlowState s' <> ControlFlowState.Leave ->
     starts any s') ->
  starts any st -> scopes_at n l l' ->
  iterate d keccak256 (call d keccak256 n) (exec n) e post b k l v st =
  iterate d keccak256 (call d keccak256 n) (exec n) e post' b' k l' v st.
Proof using.
  intros Hpost Hb Hnext. revert v st. induction k as [|k IH]; intros v st Hst Hl; [done|]. cbn [iterate].
  apply ybind_ext; [by apply evaluate_rel|]. intros c s1 _. destruct (c =? 0); [done|].
  apply ybind_ext; [done|]. intros [] s2 [= <-]. apply ybind_ext; [apply (block_rel any); [done|by right|done]|].
  intros v1 s3 _. apply ybind_ext; [done|]. intros m s4 _. destruct (bool_decide _ || bool_decide _); [done|].
  apply ybind_ext; [done|]. intros [] s5 [= <-]. apply ybind_ext; [apply (block_rel any); [done|by right|done]|].
  intros v2 s6 H6. apply ybind_ext; [done|]. intros m' s7 [= <- <-].
  destruct (bool_decide_reflect (controlFlowState s6 = ControlFlowState.Leave)) as [|Hne]; [done|].
  apply IH; [|done]. eapply Hnext; [|exact H6|done]. done.
Qed.

Lemma for_rel any n pre pre' e post post' b b' :
  init_rel any n pre pre' -> body_rel any n post post' -> body_rel any n b b' ->
  (forall h l v s r s', starts any s -> initialise (exec n) pre h l v s = Ran r s' ->
     controlFlowState s' <> ControlFlowState.Leave -> starts any s') ->
  (forall l v s r s', is_normal s -> block (exec n) post l v s = Ran r s' -> controlFlowState s' <> ControlFlowState.Leave ->
     starts any s') ->
  stmt_rel any n (ForLoop pre e post b) (ForLoop pre' e post' b').
Proof using.
  intros Hpre Hpost Hb Hinit Hnext h h' l l' v st Hst Hh Hl. cbn [execute].
  apply out_eq_bind; [|intros; by apply out_ret]. unfold loop.
  assert (scopes_at n (h :: l) (h' :: l')) as Hl' by by constructor.
  apply (eq_out_bind (fun_rel n)); [by apply Hpre; [|apply scope_empty|]|].
  intros h1 h1' v1 s1 Hh1 E1. apply ybind_ext; [done|]. intros m s3 [= <- <-]. cbn [fst snd].
  destruct (bool_decide_reflect (controlFlowState s1 = ControlFlowState.Leave)) as [|Hne];
    [unfold yret; by rewrite (leaveScope_rel _ _ _ _ Hh1)|].
  apply ybind_ext; [apply (iterate_rel any); try done; [by eapply Hinit|by constructor]|].
  intros v2 s2 _. apply ybind_ext; [done|]. intros m s3 _. apply ybind_ext; [done|]. intros [] s4 _.
  unfold yret. by rewrite (leaveScope_rel _ _ _ _ Hh1).
Qed.

Lemma declare_rel (R : Function -> Function -> Prop) names values h h' v s :
  scope_rel R h h' -> out_rel R (declare names values h v s) (declare names values h' v s).
Proof using.
  revert values h h' v s. induction names as [|x names IH]; intros [|y values] h h' v s Hh; try done.
  cbn [declare]. apply out_eq_bind; [done|]. intros [] s' _. apply IH. by apply add_name_rel.
Qed.

(** A statement without parts, in related scopes. *)
Lemma plain_rel any n s :
  match s with
  | ExpressionStatement _ | Assignment _ _ | VariableDeclaration _ _ | FunctionDefinition _ _ _ _ | Break | Continue | Leave => True
  | _ => False
  end -> stmt_rel any n s s.
Proof using.
  intros Hp h h' l l' v st Hst Hh Hl. assert (scopes_at n (h :: l) (h' :: l')) as Hl' by by constructor.
  destruct s; try done; cbn [execute].
  - apply out_eq_bind; [by apply evaluateMulti_rel|intros; by apply out_ret].
  - apply out_eq_bind; [by apply evaluateMulti_rel|]. intros values s1 _. apply out_eq_bind; [done|intros; by apply out_ret].
  - apply out_eq_bind; [by destruct value; [apply evaluateMulti_rel|]|]. intros values s1 _. by apply declare_rel.
Qed.
(** ** Functions with related bodies *)

Lemma function_rel p r b b' :
  (forall n, body_rel false n b b') -> forall n, fun_rel n (mkFunction p r b) (mkFunction p r b').
Proof using.
  intros Hb n. induction n as [|n IH]; [done|]. split; [exact IH|]. intros l l' values s Hl.
  cbn [call function_parameters function_returns function_body]. apply ybind_ext; [done|]. intros [] s1 _.
  apply ybind_ext; [done|]. intros [] s2 [= <-]. apply ybind_ext; [|done].
  apply (block_rel false); [apply Hb|by right|done].
Qed.

Lemma reg_cons n s s' b b' :
  match s, s' with
  | FunctionDefinition f p r c, FunctionDefinition f' p' r' c' =>
      f = f' /\ fun_rel n (mkFunction p r c) (mkFunction p' r' c')
  | FunctionDefinition _ _ _ _, _ | _, FunctionDefinition _ _ _ _ => False
  | _, _ => True
  end -> reg_rel n b b' -> reg_rel n (s :: b) (s' :: b').
Proof using.
  intros Hs Hb h h' Hh. destruct s, s'; try done; cbn [registered]; try by apply Hb.
  destruct Hs as [<- Hf]. apply Hb. by apply add_name_rel.
Qed.

Lemma reg_nil n : reg_rel n [] [].
Proof using. by intros h h'. Qed.

(** A statement is related to itself. *)
Definition itself (s : Statement) : Prop :=
  (forall n, stmt_rel true n s s) /\
  match s with FunctionDefinition f p r b => forall n, fun_rel n (mkFunction p r b) (mkFunction p r b) | _ => True end.

Lemma itself_body b : Forall itself b -> forall n, body_rel true n b b.
Proof using.
  intros Hb n. split.
  - apply sequence_rel. induction Hb as [|s b [Hs _] _ IH]; constructor; auto.
  - induction Hb as [|s b [_ Hs] _ IH]; [apply reg_nil|]. apply reg_cons; [|done]. by destruct s.
Qed.

Lemma body_weaken n b b' : body_rel true n b b' -> body_rel false n b b'.
Proof using. intros [Hs Hr]. split; [|done]. intros h h' l l' v st _. apply Hs. by left. Qed.

Lemma statement_itself s : itself s.
Proof using.
  induction s as [e|x e|x e|f p r b Hb|e b Hb|e c Hc|pre e post b Hpre Hpost Hb| | | |b Hb] using Statement_nested_ind;
    (split; [intros n|try exact I]); try (by apply plain_rel).
  - apply function_rel. intros n. by apply body_weaken, itself_body.
  - apply if_rel. by apply itself_body.
  - apply switch_rel. induction Hc as [|[lit b] c Hb _ IH]; constructor; [|done]. split; [done|]. by apply itself_body.
  - apply for_rel; [apply initialise_rel|by apply itself_body..|by left|by left].
    induction Hpre as [|s pre [Hs _] _ IH]; constructor; auto.
  - apply nested_block_rel. by apply itself_body.
Qed.

Lemma body_refl any n b : body_rel any n b b.
Proof using.
  assert (body_rel true n b b) as Hb.
  { apply itself_body. induction b; constructor; [apply statement_itself|done]. }
  destruct any; [done|by apply body_weaken].
Qed.

Lemma fun_refl n f : fun_rel n f f.
Proof using. destruct f as [p r b]. apply function_rel. intros m. apply body_refl. Qed.

Lemma scope_refl n h : scope_at n h h.
Proof using. intros x. unfold name_rel. destruct (h !! x) as [[f|]|]; [apply fun_refl|done..]. Qed.

Lemma scopes_refl n l : scopes_at n l l.
Proof using. induction l; constructor; [apply scope_refl|done]. Qed.

(** ** Symmetry and transitivity *)

Lemma scope_sym (R : Function -> Function -> Prop) h h' : Symmetric R -> scope_rel R h h' -> scope_rel R h' h.
Proof using.
  intros HR Hh x. specialize (Hh x). unfold name_rel in *. destruct (h !! x) as [[f|]|], (h' !! x) as [[f'|]|]; auto.
Qed.

Lemma scopes_sym (R : Function -> Function -> Prop) l l' : Symmetric R -> scopes_rel R l l' -> scopes_rel R l' l.
Proof using. intros HR. induction 1; constructor; try done. by apply scope_sym. Qed.

Lemma scope_trans (R : Function -> Function -> Prop) h1 h2 h3 :
  Transitive R -> scope_rel R h1 h2 -> scope_rel R h2 h3 -> scope_rel R h1 h3.
Proof using.
  intros HR H1 H2 x. specialize (H1 x). specialize (H2 x). unfold name_rel in *.
  destruct (h1 !! x) as [[f|]|], (h2 !! x) as [[g|]|], (h3 !! x) as [[k|]|]; try done. by etrans.
Qed.

#[local] Instance fun_sym n : Symmetric (fun_rel n).
Proof using.
  induction n as [|n IH]; intros f g H0; [done|]. destruct H0 as [Hf Hc]. split; [by symmetry|].
  intros l l' values s Hl. symmetry. apply Hc. by apply scopes_sym.
Qed.

#[local] Instance fun_trans n : Transitive (fun_rel n).
Proof using.
  induction n as [|n IH]; intros f g k H1 H2; [done|]. destruct H1 as [H1 Hc1], H2 as [H2 Hc2]. split; [by etrans|].
  intros l l' values s Hl. rewrite (Hc1 l l values s (scopes_refl n l)). by apply Hc2.
Qed.

Lemma out_sym (R : Function -> Function -> Prop) o o' : Symmetric R -> out_rel R o o' -> out_rel R o' o.
Proof using.
  intros HR. destruct o as [r s|e s|], o' as [r' s'|e' s'|]; try done; cbn.
  - intros (Hh & Hv & Hs). split; [by apply scope_sym|done].
  - by intros [-> ->].
Qed.

Lemma out_trans (R : Function -> Function -> Prop) o1 o2 o3 :
  Transitive R -> out_rel R o1 o2 -> out_rel R o2 o3 -> out_rel R o1 o3.
Proof using.
  intros HR. destruct o1 as [r1 s1|e1 s1|], o2 as [r2 s2|e2 s2|], o3 as [r3 s3|e3 s3|]; try done; cbn.
  - intros (Hh & -> & ->) (Hh' & -> & ->). split; [|done]. by eapply scope_trans.
  - by intros [-> ->] [-> ->].
Qed.

(** ** Equivalence *)

(** The same effect from the default control flow, and the same functions. *)
Definition equiv (b b' : list Statement) : Prop := forall n, body_rel false n b b'.

#[export] Instance equiv_equivalence : Equivalence equiv.
Proof using.
  split.
  - intros b n. apply body_refl.
  - intros b b' Hb n. destruct (Hb n) as [Hs Hr]. split.
    + intros h h' l l' v st Hst Hh Hl. apply out_sym; [apply _|]. apply Hs; [done|by apply scope_sym; [apply _|]|].
      by apply scopes_sym; [apply _|].
    + intros h h' Hh. apply scope_sym; [apply _|]. apply Hr. by apply scope_sym; [apply _|].
  - intros b1 b2 b3 H1 H2 n. destruct (H1 n) as [Hs1 Hr1], (H2 n) as [Hs2 Hr2]. split.
    + intros h h' l l' v st Hst Hh Hl. eapply out_trans; [apply _|by apply Hs1; [|apply scope_refl|apply scopes_refl]|].
      by apply Hs2.
    + intros h h' Hh. eapply scope_trans; [apply _|apply Hr1, scope_refl|]. by apply Hr2.
Qed.

(** Equivalent programs run alike. *)
Lemma equiv_run n b b' s : equiv b b' -> run d keccak256 n b s = run d keccak256 n b' s.
Proof using. intros Hb. apply (block_rel false); [apply Hb|by right|apply scopes_refl]. Qed.

End Equivalence.

(** ** Equivalence in context

    Equivalent parts make equivalent statements.  The parser allows [break] and [continue] in the
    body of a loop only: code is [regular] when its loops have none elsewhere, and then every
    statement starts with the default control flow. *)

(** No [break] or [continue] outside the loops of a statement. *)
Fixpoint calm (s : Statement) : bool :=
  match s with
  | Break | Continue => false
  | If _ b => forallb calm b
  | Switch _ c => forallb (fun p => forallb calm (snd p)) c
  | Block b => forallb calm b
  | _ => true
  end.

Fixpoint regular (s : Statement) : bool :=
  match s with
  | FunctionDefinition _ _ _ b => forallb regular b
  | If _ b => forallb regular b
  | Switch _ c => forallb (fun p => forallb regular (snd p)) c
  | ForLoop pre _ post b =>
      forallb calm pre && forallb calm post && forallb regular pre && forallb regular post && forallb regular b
  | Block b => forallb regular b
  | _ => true
  end.

Lemma yassert_state b s r s' : yassert b s = Ran r s' -> s' = s /\ b = true.
Proof. unfold yassert. destruct b; [|done]. by intros [= <- <-]. Qed.

(** Assigning and declaring leaves the state. *)
Lemma assign_state names values v s v' s' : assign names values v s = Ran v' s' -> s' = s.
Proof.
  revert values v. induction names as [|x names IH]; intros [|y values] v Hr; try done; cbn [assign] in Hr; [by injection Hr|].
  apply ybind_ran in Hr as ([] & s1 & [-> _]%yassert_state & Hr). by eapply IH.
Qed.

Lemma declare_state names values h v s r s' : declare names values h v s = Ran r s' -> s' = s.
Proof.
  revert values h v. induction names as [|x names IH]; intros [|y values] h v Hr; try done; cbn [declare] in Hr; [by injection Hr|].
  apply ybind_ran in Hr as ([] & s1 & [-> _]%yassert_state & Hr). by eapply IH.
Qed.

Section Congruence.
Context (d : Dialect) (keccak256 : list Z -> Z).

Local Abbreviation exec n := (execute d keccak256 (call d keccak256 n) (S n)).
Local Abbreviation equiv := (equiv d keccak256).
Local Abbreviation is_normal s := (controlFlowState s = ControlFlowState.Default).
Local Abbreviation scope_at n := (scope_rel (fun_rel d keccak256 n)).
Local Abbreviation scopes_at n := (scopes_rel (fun_rel d keccak256 n)).

(** ** Sequences *)

Lemma sequence_single n s h l v st :
  sequence (exec n) [s] h l v st = exec n s h l v st.
Proof using.
  cbn [sequence]. unfold ybind, ymode. destruct (exec n s h l v st) as [r s1| |]; [|done..].
  destruct (bool_decide _); [|done]. by destruct r.
Qed.

(** What a sequence does after another one. *)
Definition after (n : nat) (b : list Statement) (l : list Scope) (r : Scope * Variables) : Y (Scope * Variables) := fun s =>
  if bool_decide (is_normal s) then sequence (exec n) b (fst r) l (snd r) s else Ran r s.

Lemma sequence_app n b b' h l v st :
  is_normal st -> sequence (exec n) (b ++ b') h l v st = ybind (sequence (exec n) b h l v) (after n b' l) st.
Proof using.
  revert h v st. induction b as [|s b IH]; intros h v st Hst; cbn [app sequence].
  - unfold ybind, yret, after. by rewrite (bool_decide_eq_true_2 _ Hst).
  - unfold ybind at 1 3. unfold ybind at 2. destruct (exec n s h l v st) as [r s1| |]; [|done..].
    unfold ybind at 1 2, ymode. destruct (bool_decide_reflect (controlFlowState s1 = ControlFlowState.Default)) as [Hs|Hs].
    + rewrite IH by done. done.
    + unfold yret, after. by rewrite bool_decide_eq_false_2.
Qed.

Lemma registered_app b b' h : registered (b ++ b') h = registered b' (registered b h).
Proof using. revert h. induction b as [|s b IH]; intros h; [done|]. destruct s; cbn [app registered]; apply IH. Qed.

Lemma equiv_app b1 b1' b2 b2' : equiv b1 b1' -> equiv b2 b2' -> equiv (b1 ++ b2) (b1' ++ b2').
Proof using.
  intros H1 H2 n. destruct (H1 n) as [Hs1 Hr1], (H2 n) as [Hs2 Hr2]. split.
  - intros h h' l l' v st [|Hst] Hh Hl; [done|]. rewrite !sequence_app by done.
    apply out_bind; [apply Hs1; [by right|done..]|]. intros h1 h1' v1 s1 Hh1 _. unfold after.
    destruct (bool_decide_reflect (is_normal s1)); [|done]. apply Hs2; [by right|done..].
  - intros h h' Hh. rewrite !registered_app. by apply Hr2, Hr1.
Qed.

Lemma equiv_cons s b' c c' : equiv [s] b' -> equiv c c' -> equiv (s :: c) (b' ++ c').
Proof using. apply (equiv_app [s]). Qed.

Lemma equiv_map (f : Statement -> Statement) b : Forall (fun s => equiv [s] [f s]) b -> equiv b (map f b).
Proof using. induction 1 as [|s b Hs _ IH]; [reflexivity|]. by apply (equiv_cons s [f s]). Qed.

Lemma equiv_flat_map (f : Statement -> list Statement) b : Forall (fun s => equiv [s] (f s)) b -> equiv b (flat_map f b).
Proof using. induction 1 as [|s b Hs _ IH]; [reflexivity|]. by apply equiv_cons. Qed.

(** Statements other than function definitions. *)
Lemma equiv_statement s s' :
  isFunctionDefinition s = false -> isFunctionDefinition s' = false ->
  (forall n, stmt_rel d keccak256 false n s s') -> equiv [s] [s'].
Proof using.
  intros Hf Hf' Hs n. split.
  - apply sequence_rel. constructor; [apply Hs|constructor].
  - apply reg_cons; [|apply reg_nil]. by destruct s, s'.
Qed.

(** ** Congruence *)

Lemma equiv_if e b b' : equiv b b' -> equiv [If e b] [If e b'].
Proof using. intros Hb. apply equiv_statement; [done..|]. intros n. by apply if_rel. Qed.

Lemma equiv_switch e c c' :
  Forall2 (fun p p' => fst p = fst p' /\ equiv (snd p) (snd p')) c c' -> equiv [Switch e c] [Switch e c'].
Proof using.
  intros Hc. apply equiv_statement; [done..|]. intros n. apply switch_rel.
  eapply Forall2_impl; [exact Hc|]. intros p p' [Hl Hb]. by split.
Qed.

Lemma equiv_block b b' : equiv b b' -> equiv [Block b] [Block b'].
Proof using. intros Hb. apply equiv_statement; [done..|]. intros n. by apply nested_block_rel. Qed.

Lemma equiv_function f p r b b' : equiv b b' -> equiv [FunctionDefinition f p r b] [FunctionDefinition f p r b'].
Proof using.
  intros Hb n. split.
  - apply sequence_rel. constructor; [|constructor]. intros h h' l l' v st Hst Hh Hl. by apply out_ret.
  - apply reg_cons; [|apply reg_nil]. split; [done|]. by apply function_rel.
Qed.

(** The control flow calm statements leave. *)
Definition calm_mode (s : RunState) : Prop := is_normal s \/ controlFlowState s = ControlFlowState.Leave.

Definition keeps_calm (s : Statement) : Prop :=
  calm s = true -> forall n h l v st r st', is_normal st -> exec n s h l v st = Ran r st' -> calm_mode st'.

Lemma sequence_calm b : Forall keeps_calm b -> forallb calm b = true ->
  forall n h l v st r st', is_normal st -> sequence (exec n) b h l v st = Ran r st' -> calm_mode st'.
Proof using.
  intros Hb Hc n. induction Hb as [|s b Hs _ IH]; intros h l v st r st' Hst Hr; [injection Hr as <- <-; by left|].
  cbn [forallb] in Hc. apply andb_true_iff in Hc as [Hc Hcs]. cbn [sequence] in Hr.
  apply ybind_ran in Hr as (r1 & s1 & H1 & Hr). unfold ybind, ymode in Hr.
  apply (Hs Hc) in H1 as Hm; [|done].
  destruct (bool_decide_reflect (controlFlowState s1 = ControlFlowState.Default)); [by eapply IH|].
  by injection Hr as <- <-.
Qed.

Lemma block_calm b : Forall keeps_calm b -> forallb calm b = true ->
  forall n l v st r st', is_normal st -> block (exec n) b l v st = Ran r st' -> calm_mode st'.
Proof using.
  intros Hb Hc n l v st r st' Hst Hr. apply ybind_ran in Hr as (r1 & s1 & H1 & Hr). injection Hr as <- <-.
  by eapply sequence_calm.
Qed.

Lemma loop_calm n e post b pre k l v st r st' :
  loop d keccak256 (call d keccak256 n) (exec n) e post b pre k l v st = Ran r st' -> calm_mode st'.
Proof using.
  intros Hr. unfold loop in Hr. apply ybind_ran in Hr as (r1 & s1 & _ & Hr). unfold ybind at 1, ymode in Hr.
  destruct (bool_decide_reflect (controlFlowState s1 = ControlFlowState.Leave)) as [Hl|]; [injection Hr as <- <-; by right|].
  apply ybind_ran in Hr as (v2 & s2 & _ & Hr). unfold ybind at 1 in Hr.
  destruct (bool_decide_reflect (controlFlowState s2 = ControlFlowState.Leave)) as [Hl|];
    injection Hr as <- <-; [by right|by left].
Qed.

Lemma statement_calm s : keeps_calm s.
Proof using.
  induction s as [e|x e|x e|f p q b Hb|e b Hb|e c Hc|pre e post b Hpre Hpost Hb| | | |b Hb] using Statement_nested_ind;
    intros Hcalm n h l v st r st' Hst Hr; try done; cbn [execute] in Hr; cbn [calm] in Hcalm.
  - apply ybind_ran in Hr as (vs & s1 & H1 & Hr). injection Hr as <- <-. left. by eapply evaluateMulti_normal.
  - apply ybind_ran in Hr as (vs & s1 & H1 & Hr). apply evaluateMulti_normal in H1; [|done]. left.
    apply ybind_ran in Hr as (v1 & s2 & H2 & Hr). injection Hr as <- <-. by rewrite (assign_state _ _ _ _ _ _ H2).
  - apply ybind_ran in Hr as (vs & s1 & H1 & Hr). left. rewrite (declare_state _ _ _ _ _ _ _ Hr).
    destruct e; [by eapply evaluateMulti_normal|by injection H1 as <- <-].
  - injection Hr as <- <-. by left.
  - apply ybind_ran in Hr as (c & s1 & H1 & Hr). apply evaluate_normal in H1; [|done].
    destruct (c =? 0); [injection Hr as <- <-; by left|].
    apply ybind_ran in Hr as (v1 & s2 & H2 & Hr). injection Hr as <- <-. by eapply block_calm.
  - apply ybind_ran in Hr as (x & s1 & H1 & Hr). apply evaluate_normal in H1; [|done].
    apply ybind_ran in Hr as ([] & s2 & H2 & Hr). unfold yassert in H2. destruct (negb _); [|done]. injection H2 as <-.
    apply ybind_ran in Hr as (v1 & s3 & H3 & Hr). injection Hr as <- <-. clear st Hst.
    induction Hc as [|[lit b] c Hb _ IH]; [injection H3 as <- <-; by left|].
    cbn [forallb snd select] in *. apply andb_true_iff in Hcalm as [Hcb Hcalm].
    destruct lit as [lit|]; [|by eapply block_calm]. apply ybind_ran in H3 as (y & s4 & H4 & H3).
    unfold yoption in H4. destruct (valueOfLiteral lit); [|done]. injection H4 as <- <-.
    destruct (_ =? x); [by eapply block_calm|by apply IH].
  - apply ybind_ran in Hr as (v1 & s1 & H1 & Hr). injection Hr as <- <-. by eapply loop_calm.
  - injection Hr as <- <-. by right.
  - apply ybind_ran in Hr as (v1 & s1 & H1 & Hr). injection Hr as <- <-. by eapply block_calm.
Qed.

Lemma calm_sequence n b h l v st r st' :
  forallb calm b = true -> is_normal st -> sequence (exec n) b h l v st = Ran r st' -> calm_mode st'.
Proof using.
  intros Hb. apply sequence_calm; [|done]. clear Hb. induction b; constructor; [apply statement_calm|done].
Qed.

(** Calm statements initialise a loop like the statements of a block. *)
Lemma initialise_calm n b h l v st :
  forallb calm b = true -> is_normal st -> initialise (exec n) b h l v st = sequence (exec n) b h l v st.
Proof using.
  revert h v st. induction b as [|s b IH]; intros h v st Hc Hst; [done|]. cbn [forallb] in Hc.
  apply andb_true_iff in Hc as [Hs Hb]. cbn [initialise sequence]. apply ybind_ext; [done|]. intros r s1 H1.
  apply (statement_calm s Hs) in H1; [|done]. unfold ybind, ymode. destruct H1 as [H1|H1]; rewrite H1.
  - rewrite bool_decide_eq_false_2, bool_decide_eq_true_2 by done. by apply IH.
  - by rewrite bool_decide_eq_true_2, bool_decide_eq_false_2 by done.
Qed.

Lemma equiv_for pre pre' e post post' b b' :
  forallb calm pre = true -> forallb calm pre' = true -> forallb calm post = true ->
  equiv pre pre' -> equiv post post' -> equiv b b' ->
  equiv [ForLoop pre e post b] [ForLoop pre' e post' b'].
Proof using.
  intros Hc Hc' Hcp Hpre Hpost Hb. apply equiv_statement; [done..|]. intros n.
  assert (forall st, calm_mode st -> controlFlowState st <> ControlFlowState.Leave -> starts false st) as Hleave
    by (intros st [Hst|Hst] Hne; [by right|done]).
  apply for_rel; [|apply Hpost|apply Hb| |].
  - intros h h' l l' v st [|Hst] Hh Hl; [done|]. rewrite !initialise_calm by done. by apply Hpre; [right|..].
  - intros h l v st r st' [|Hst] Hr; [done|]. rewrite initialise_calm in Hr by done. apply Hleave. eapply calm_sequence; [exact Hc|exact Hst|exact Hr].
  - intros l v st r st' Hst Hr. apply Hleave. apply ybind_ran in Hr as (r1 & s1 & H1 & Hr). injection Hr as <- <-.
    by eapply calm_sequence.
Qed.
End Congruence.
