(* ===== verification/YulOptimiser.v ===== *)
(** * YulOptimiser: steps of the Yul optimiser, libyul/optimiser

    The termination finder and the movable check of Semantics.cpp, the types of TypeInfo.cpp, and
    the steps that rewrite control flow: DeadCodeEliminator, ControlFlowSimplifier,
    ConditionalSimplifier, ConditionalUnsimplifier, ForLoopConditionIntoBody,
    ForLoopConditionOutOfBody and VarDeclInitializer.  Each is a function of the tree; [None] is a
    failed assertion or another exception. *)

From stdpp Require Import strings.
From S2P Require Import Prelude U256 CommonData Instruction SemanticInformation Interpreter Yul.

(** The elements of a list, one after the other. *)
Section Traverse.
Context {A B : Type} (f : A -> option B).
Fixpoint traverse (l : list A) : option (list B) :=
  match l with
  | [] => Some []
  | a :: l => b ← f a; l ← traverse l; Some (b :: l)
  end.
End Traverse.

Module ControlFlow.
Inductive t : Set := FlowOut | Break | Continue | Terminate | Leave.
#[export] Instance eq_dec : EqDecision t.
Proof. solve_decision. Defined.
End ControlFlow.
Export (hints) ControlFlow.

Section Steps.
Context (m_dialect : Dialect).

(** ** TerminationFinder *)

Definition isTerminatingBuiltin (e : Expression) : bool :=
  match e with
  | FunctionCall f _ =>
      match builtin m_dialect f with
      | Some b => match instruction b with Some i => instr_terminatesControlFlow i | None => false end
      | None => false
      end
  | _ => false
  end.

Definition controlFlowKind (_statement : Statement) : ControlFlow.t :=
  match _statement with
  | ExpressionStatement e => if isTerminatingBuiltin e then ControlFlow.Terminate else ControlFlow.FlowOut
  | Break => ControlFlow.Break
  | Continue => ControlFlow.Continue
  | Leave => ControlFlow.Leave
  | _ => ControlFlow.FlowOut
  end.

Definition flowsOut (s : Statement) : bool := bool_decide (controlFlowKind s = ControlFlow.FlowOut).

(** The index is [None] for [size_t(-1)]. *)
Fixpoint firstUnconditionalControlFlowChange (_statements : list Statement) : ControlFlow.t * option nat :=
  match _statements with
  | [] => (ControlFlow.FlowOut, None)
  | s :: l =>
      if flowsOut s then
        let r := firstUnconditionalControlFlowChange l in (fst r, S <$> snd r)
      else (controlFlowKind s, Some 0%nat)
  end.

(** The last statement of a body changes the control flow. *)
Definition endsFlow (b : list Statement) : bool :=
  match last b with Some s => negb (flowsOut s) | None => false end.

(** ** SideEffectsCollector *)

(** The side effects of an expression; a function that is not a builtin has the worst. *)
Fixpoint expressionEffects (e : Expression) : SideEffects :=
  match e with
  | FunctionCall f arguments =>
      effects_add
        ((fix all (l : list Expression) := match l with [] => noEffects | a :: l => effects_add (all l) (expressionEffects a) end)
           arguments)
        (match builtin m_dialect f with Some b => builtin_sideEffects b | None => worst end)
  | _ => noEffects
  end.

(** ** DeadCodeEliminator *)

(** What is left of the statements of a block. *)
Definition eraseUnreachable (l : list Statement) : list Statement :=
  match snd (firstUnconditionalControlFlowChange l) with
  | None => l
  | Some i => take (S i) l ++ List.filter isFunctionDefinition (drop (S i) l)
  end.

(** The step on the statements of a block: [dead] says that a statement that changes the control
    flow was passed.  The statements are those of [eraseUnreachable]. *)
Section DeadBlock.
Context (deadCode : Statement -> option Statement).

Fixpoint deadBlock (dead : bool) (l : list Statement) : option (list Statement) :=
  match l with
  | [] => Some []
  | s :: l =>
      if dead && negb (isFunctionDefinition s) then deadBlock dead l
      else
        s' ← deadCode s;
        l' ← deadBlock (dead || negb (flowsOut s)) l;
        Some (s' :: l')
  end.

Lemma deadBlock_erased l : deadBlock true l = traverse deadCode (List.filter isFunctionDefinition l).
Proof using.
  induction l as [|s l IH]; [done|]. cbn [deadBlock List.filter]. destruct (isFunctionDefinition s) eqn:E; cbn [andb negb orb]; [|done].
  cbn [traverse]. by rewrite IH.
Qed.

Lemma deadBlock_erase l : deadBlock false l = traverse deadCode (eraseUnreachable l).
Proof using.
  induction l as [|s l IH]; [done|]. cbn [deadBlock andb orb]. unfold eraseUnreachable in *.
  cbn [firstUnconditionalControlFlowChange]. destruct (flowsOut s) eqn:E; cbn [negb snd].
  - destruct (snd (firstUnconditionalControlFlowChange l)) as [i|]; cbn [fmap option_fmap option_map take drop app traverse];
      by rewrite IH.
  - rewrite deadBlock_erased. done.
Qed.
End DeadBlock.

Fixpoint deadCode (s : Statement) : option Statement :=
  match s with
  | FunctionDefinition f p r b => b ← deadBlock deadCode false b; Some (FunctionDefinition f p r b)
  | If e b => b ← deadBlock deadCode false b; Some (If e b)
  | Switch e c =>
      c ← traverse (fun p => b ← deadBlock deadCode false (snd p); Some (fst p, b)) c;
      Some (Switch e c)
  | ForLoop pre e post b =>
      _ ← assertThrow (bool_decide (pre = []));
      post ← deadBlock deadCode false post;
      b ← deadBlock deadCode false b;
      Some (ForLoop pre e post b)
  | Block b => b ← deadBlock deadCode false b; Some (Block b)
  | s => Some s
  end.

Definition DeadCodeEliminator (_ast : list Statement) : option (list Statement) := deadBlock deadCode false _ast.

(** ** TypeInfo *)

Definition add_types (l : list TypedName) (m : gmap YulString YulString) : gmap YulString YulString :=
  fold_left (fun m x => <[name_of x := type_of x]> m) l m.

(** The types of variables and what functions return, overwritten by later ones. *)
Record Types := mkTypes { variableTypes : gmap YulString YulString; functionReturns : gmap YulString (list YulString) }.

Fixpoint collectTypes (s : Statement) (m : Types) : Types :=
  let all := fix all (l : list Statement) (m : Types) := match l with [] => m | s :: l => all l (collectTypes s m) end in
  match s with
  | VariableDeclaration x _ => mkTypes (add_types x (variableTypes m)) (functionReturns m)
  | FunctionDefinition f p r b =>
      let m := all b m in
      mkTypes (add_types r (add_types p (variableTypes m)))
        (<[f := default [] (functionReturns m !! f) ++ map type_of r]> (functionReturns m))
  | If _ b => all b m
  | Switch _ c => (fix cases (c : list (option Literal * list Statement)) m := match c with [] => m | (_, b) :: c => cases c (all b m) end) c m
  | ForLoop pre _ post b => all post (all b (all pre m))
  | Block b => all b m
  | _ => m
  end.

Definition TypeInfo (_ast : list Statement) : Types := fold_left (fun m s => collectTypes s m) _ast (mkTypes ∅ ∅).

Definition typeOf (m : Types) (_expression : Expression) : option YulString :=
  match _expression with
  | FunctionCall f _ =>
      retTypes ← match builtin m_dialect f with Some b => Some (returns b) | None => functionReturns m !! f end;
      match retTypes with [t] => Some t | _ => None end
  | Identifier x => variableTypes m !! x
  | LiteralExpression l => Some (literal_type l)
  end.
(** ** ControlFlowSimplifier *)

(** [m_numBreakStatements] and [m_numContinueStatements]. *)
Definition Counters : Set := nat * nat.

(** [makeDiscardCall]. *)
Definition makeDiscardCall (_discardFunction : BuiltinFunction) (_expression : Expression) : Statement :=
  ExpressionStatement (FunctionCall (builtin_name _discardFunction) [_expression]).

(** A case, whether its body was empty, and its body after the step. *)
Definition SimplifiedCase : Type := option Literal * bool * list Statement.
Definition isDefault (c : SimplifiedCase) : bool := match fst (fst c) with None => true | Some _ => false end.

Definition removeEmptyDefaultFromSwitch (c : list SimplifiedCase) : list SimplifiedCase :=
  List.filter (fun c => negb (isDefault c && snd (fst c))) c.

Definition removeEmptyCasesFromSwitch (c : list SimplifiedCase) : list SimplifiedCase :=
  if existsb isDefault c then c else List.filter (fun c => negb (snd (fst c))) c.

(** [reduceNoCaseSwitch] and [reduceSingleCaseSwitch]; [None] inside is to leave the statement. *)
Definition reduceNoCaseSwitch (m_typeInfo : Types) (e : Expression) : option (option (list Statement)) :=
  type ← typeOf m_typeInfo e;
  discard ← discardFunction m_dialect type;
  Some (match discard with Some f => Some [makeDiscardCall f e] | None => None end).

Definition reduceSingleCaseSwitch (m_typeInfo : Types) (e : Expression) (value : option Literal) (body : list Statement)
    : option (option (list Statement)) :=
  type ← typeOf m_typeInfo e;
  match value with
  | Some l =>
      equality ← equalityFunction m_dialect type;
      Some (match equality with
            | Some f => Some [If (FunctionCall (builtin_name f) [LiteralExpression l; e]) body]
            | None => None
            end)
  | None =>
      discard ← discardFunction m_dialect type;
      Some (match discard with Some f => Some [makeDiscardCall f e; Block body] | None => None end)
  end.

(** The [If] of [visitor], with its body after the step: an empty body is a call of [pop]. *)
Definition simplifyIf (e : Expression) (empty : bool) (body : list Statement) : option (list Statement) :=
  if empty then
    discard ← discardFunction m_dialect (boolType m_dialect);
    Some (match discard with Some f => [makeDiscardCall f e] | None => [If e body] end)
  else Some [If e body].

Definition simplifySwitch (m_typeInfo : Types) (e : Expression) (c : list SimplifiedCase) : option (list Statement) :=
  let c := removeEmptyCasesFromSwitch (removeEmptyDefaultFromSwitch c) in
  reduced ← match c with
            | [] => reduceNoCaseSwitch m_typeInfo e
            | [(l, _, body)] => reduceSingleCaseSwitch m_typeInfo e l body
            | _ => Some None
            end;
  Some (match reduced with
        | Some r => r
        | None => [Switch e (map (fun c => (fst (fst c), snd c)) c)]
        end).

(** What becomes of a loop whose counters are [n]: its body ends in [break], or terminates. *)
Definition replaceLoop (e : Expression) (post body : list Statement) (n : Counters) : Statement :=
  match last body with
  | None => ForLoop [] e post body
  | Some s =>
      let kind := controlFlowKind s in
      let isBreak := bool_decide (kind = ControlFlow.Break) in
      let isTerminating := isBreak || bool_decide (kind = ControlFlow.Terminate) || bool_decide (kind = ControlFlow.Leave) in
      let breaks := if isBreak then Nat.pred (fst n) else fst n in
      if isTerminating && Nat.eqb (snd n) 0 && Nat.eqb breaks 0
      then If e (if isBreak then removelast body else body)
      else ForLoop [] e post body
  end.

(** [leave] at the end of a function. *)
Definition removeLeave (b : list Statement) : list Statement :=
  match last b with Some Leave => removelast b | _ => b end.

Section ControlFlowSimplifier.
Context (m_typeInfo : Types).

Section Lists.
Context (simplify : Statement -> Counters -> option (list Statement * Counters)).

Fixpoint simplifyAll (l : list Statement) (n : Counters) : option (list Statement * Counters) :=
  match l with
  | [] => Some ([], n)
  | s :: l => r ← simplify s n; q ← simplifyAll l (snd r); Some (fst r ++ fst q, snd q)
  end.

Fixpoint simplifyCases (c : list (option Literal * list Statement)) (n : Counters) : option (list SimplifiedCase * Counters) :=
  match c with
  | [] => Some ([], n)
  | (l, b) :: c =>
      r ← simplifyAll b n;
      q ← simplifyCases c (snd r);
      Some ((l, match b with [] => true | _ => false end, fst r) :: fst q, snd q)
  end.
End Lists.

Fixpoint simplify (s : Statement) (n : Counters) : option (list Statement * Counters) :=
  match s with
  | FunctionDefinition f p r b =>
      q ← simplifyAll simplify b n; Some ([FunctionDefinition f p r (removeLeave (fst q))], snd q)
  | If e b =>
      q ← simplifyAll simplify b n;
      r ← simplifyIf e (match b with [] => true | _ => false end) (fst q);
      Some (r, snd q)
  | Switch e c =>
      q ← simplifyCases simplify c n;
      r ← simplifySwitch m_typeInfo e (fst q);
      Some (r, snd q)
  | ForLoop pre e post b =>
      _ ← assertThrow (bool_decide (pre = []));
      r ← simplifyAll simplify post (0, 0)%nat;
      q ← simplifyAll simplify b (snd r);
      Some ([replaceLoop e (fst r) (fst q) (snd q)], n)
  | Break => Some ([Break], (S (fst n), snd n))
  | Continue => Some ([Continue], (fst n, S (snd n)))
  | Block b => q ← simplifyAll simplify b n; Some ([Block (fst q)], snd q)
  | s => Some ([s], n)
  end.
End ControlFlowSimplifier.

(** [run], with the types of the code. *)
Definition ControlFlowSimplifier (_ast : list Statement) : option (list Statement) :=
  r ← simplifyAll (simplify (TypeInfo _ast)) _ast (0, 0)%nat; Some (fst r).

(** ** ConditionalSimplifier and ConditionalUnsimplifier *)

(** The assignment of zero after an [if] whose body does not go on. *)
Definition zeroAfter (s : Statement) : list Statement :=
  match s with
  | If (Identifier condition) body =>
      if endsFlow body then
        [Assignment [condition] (LiteralExpression (zeroLiteralForType m_dialect (boolType m_dialect)))]
      else []
  | _ => []
  end.

(** The assignment of the value at the start of a case. *)
Definition valueFirst (e : Expression) (value : option Literal) : list Statement :=
  match e, value with
  | Identifier expr, Some l => [Assignment [expr] (LiteralExpression l)]
  | _, _ => []
  end.

Fixpoint conditionalSimplify (s : Statement) : Statement :=
  let inBlock := flat_map (fun s => let s := conditionalSimplify s in s :: zeroAfter s) in
  match s with
  | FunctionDefinition f p r b => FunctionDefinition f p r (inBlock b)
  | If e b => If e (inBlock b)
  | Switch e c => Switch e (map (fun p => (fst p, valueFirst e (fst p) ++ inBlock (snd p))) c)
  | ForLoop pre e post b => ForLoop (inBlock pre) e (inBlock post) (inBlock b)
  | Block b => Block (inBlock b)
  | s => s
  end.

Definition ConditionalSimplifier (_ast : list Statement) : list Statement :=
  flat_map (fun s => let s := conditionalSimplify s in s :: zeroAfter s) _ast.

(** Whether [s] assigns a literal of the given value to [x]; [None] if its value is not valid. *)
Definition assignsValue (x : YulString) (value : option Z) (s : Statement) : option bool :=
  match s with
  | Assignment [y] (LiteralExpression l) =>
      if String.eqb y x then v ← valueOfLiteral l; w ← value; Some (v =? w) else Some false
  | _ => Some false
  end.

(** The two statements [if x { ... }] and [x := 0]. *)
Definition isZeroAfter (s1 s2 : Statement) : option bool :=
  match s1 with
  | If (Identifier condition) body => if endsFlow body then assignsValue condition (Some 0) s2 else Some false
  | _ => Some false
  end.

(** [iterateReplacingWindow<2>]. *)
Fixpoint removeZeros (l : list Statement) : option (list Statement) :=
  match l with
  | s1 :: ((s2 :: l') as rest) =>
      b ← isZeroAfter s1 s2;
      if b : bool then r ← removeZeros l'; Some (s1 :: r) else r ← removeZeros rest; Some (s1 :: r)
  | l => Some l
  end.

(** Whether a case starts with the assignment of its value to the expression of the switch. *)
Definition startsWithValue (e : Expression) (value : option Literal) (b : list Statement) : option bool :=
  match e, value, b with
  | Identifier expr, Some l, front :: _ => assignsValue expr (valueOfLiteral l) front
  | _, _, _ => Some false
  end.

Section UnsimplifyBody.
Context (conditionalUnsimplify : Statement -> option Statement).
Definition unsimplifyBody (b : list Statement) : option (list Statement) :=
  l ← traverse conditionalUnsimplify b; removeZeros l.

(** A case, without the assignment of its value. *)
Definition unsimplifyCase (e : Expression) (p : option Literal * list Statement) : option (option Literal * list Statement) :=
  same ← startsWithValue e (fst p) (snd p);
  b ← match snd p with
      | front :: rest => if same : bool then unsimplifyBody rest else unsimplifyBody (snd p)
      | [] => unsimplifyBody []
      end;
  Some (fst p, b).
End UnsimplifyBody.

Fixpoint conditionalUnsimplify (s : Statement) : option Statement :=
  match s with
  | FunctionDefinition f p r b => b ← unsimplifyBody conditionalUnsimplify b; Some (FunctionDefinition f p r b)
  | If e b => b ← unsimplifyBody conditionalUnsimplify b; Some (If e b)
  | Switch e c => c ← traverse (unsimplifyCase conditionalUnsimplify e) c; Some (Switch e c)
  | ForLoop pre e post b =>
      pre ← unsimplifyBody conditionalUnsimplify pre;
      post ← unsimplifyBody conditionalUnsimplify post;
      b ← unsimplifyBody conditionalUnsimplify b;
      Some (ForLoop pre e post b)
  | Block b => b ← unsimplifyBody conditionalUnsimplify b; Some (Block b)
  | s => Some s
  end.

Definition ConditionalUnsimplifier (_ast : list Statement) : option (list Statement) :=
  unsimplifyBody conditionalUnsimplify _ast.

(** ** ForLoopConditionIntoBody and ForLoopConditionOutOfBody *)

(** [if iszero(condition) { break }]. *)
Definition breakUnless (negation : BuiltinFunction) (e : Expression) : Statement :=
  If (FunctionCall (builtin_name negation) [e]) [Break].

Definition trueLiteral : Expression := LiteralExpression (mkLiteral Boolean "true" (boolType m_dialect)).

(** The condition and the body of a loop with its condition in the body. *)
Definition conditionIntoBody (e : Expression) (body : list Statement) : Expression * list Statement :=
  match booleanNegationFunction m_dialect, e with
  | Some negation, FunctionCall _ _ => (trueLiteral, breakUnless negation e :: body)
  | _, _ => (e, body)
  end.

Fixpoint intoBody (s : Statement) : Statement :=
  match s with
  | FunctionDefinition f p r b => FunctionDefinition f p r (map intoBody b)
  | If e b => If e (map intoBody b)
  | Switch e c => Switch e (map (fun p => (fst p, map intoBody (snd p))) c)
  | ForLoop pre e post b =>
      let r := conditionIntoBody e (map intoBody b) in
      ForLoop (map intoBody pre) (fst r) (map intoBody post) (snd r)
  | Block b => Block (map intoBody b)
  | s => s
  end.

Definition ForLoopConditionIntoBody (_ast : list Statement) : list Statement := map intoBody _ast.

(** The condition of a loop whose body starts with [if condition { break ... }]. *)
Definition negated (negation : BuiltinFunction) (condition : Expression) : option Expression :=
  match condition with
  | FunctionCall f arguments =>
      if String.eqb f (builtin_name negation) then head arguments else Some (FunctionCall (builtin_name negation) [condition])
  | _ => Some (FunctionCall (builtin_name negation) [condition])
  end.

Definition conditionOutOfBody (e : Expression) (body : list Statement) : option (Expression * list Statement) :=
  match booleanNegationFunction m_dialect, e with
  | Some negation, LiteralExpression l =>
      v ← valueOfLiteral l;
      if v =? 0 then Some (e, body)
      else
        match body with
        | If condition (Break :: _) :: rest =>
            if movable (expressionEffects condition)
            then c ← negated negation condition; Some (c, rest)
            else Some (e, body)
        | _ => Some (e, body)
        end
  | _, _ => Some (e, body)
  end.

Fixpoint outOfBody (s : Statement) : option Statement :=
  match s with
  | FunctionDefinition f p r b => b ← traverse outOfBody b; Some (FunctionDefinition f p r b)
  | If e b => b ← traverse outOfBody b; Some (If e b)
  | Switch e c =>
      c ← traverse (fun p => b ← traverse outOfBody (snd p); Some (fst p, b)) c;
      Some (Switch e c)
  | ForLoop pre e post b =>
      pre ← traverse outOfBody pre;
      post ← traverse outOfBody post;
      b ← traverse outOfBody b;
      r ← conditionOutOfBody e b;
      Some (ForLoop pre (fst r) post (snd r))
  | Block b => b ← traverse outOfBody b; Some (Block b)
  | s => Some s
  end.

Definition ForLoopConditionOutOfBody (_ast : list Statement) : option (list Statement) := traverse outOfBody _ast.

(** ** VarDeclInitializer *)

(** [let x, y] as [let x := 0 let y := 0]. *)
Definition initializeVariables (s : Statement) : list Statement :=
  match s with
  | VariableDeclaration x None =>
      map (fun x => VariableDeclaration [x] (Some (LiteralExpression (zeroLiteralForType m_dialect (type_of x))))) x
  | s => [s]
  end.

Fixpoint initialize (s : Statement) : list Statement :=
  match s with
  | FunctionDefinition f p r b => [FunctionDefinition f p r (flat_map initialize b)]
  | If e b => [If e (flat_map initialize b)]
  | Switch e c => [Switch e (map (fun p => (fst p, flat_map initialize (snd p))) c)]
  | ForLoop pre e post b => [ForLoop (flat_map initialize pre) e (flat_map initialize post) (flat_map initialize b)]
  | Block b => [Block (flat_map initialize b)]
  | s => initializeVariables s
  end.

Definition VarDeclInitializer (_ast : list Statement) : list Statement := flat_map initialize _ast.
End Steps.
