(* ===== verification/YulDialects.v ===== *)
(** * YulDialects: what the optimiser relies on of a dialect

    A dialect is [Lawful] when the functions it names to negate, to discard and to compare are the
    builtins of ISZERO, POP and EQ.  The dialects for the EVM are, in every version. *)

From stdpp Require Import strings.
From S2P Require Import Prelude U256 CommonData Instruction EVMVersion SemanticInformation Interpreter Yul YulInterpreter YulEquivalence YulOptimiser.

Local Open Scope yul_scope.

(** A function of the dialect that is the instruction [i]. *)
Definition is_instruction (d : Dialect) (i : Instruction) (f : BuiltinFunction) : Prop :=
  builtin d (builtin_name f) = Some f /\ instruction f = Some i /\ literalArguments f = [].

Class Lawful (d : Dialect) : Prop := {
  negation_law f : booleanNegationFunction d = Some f -> is_instruction d ISZERO f;
  discard_law t f : discardFunction d t = Some (Some f) -> is_instruction d POP f;
  discard_total t : discardFunction d t <> Some None;
  equality_law t f : equalityFunction d t = Some (Some f) -> is_instruction d EQ f }.

(** ** The dialects for the EVM *)

Definition instruction_check (m : Functions) (n : YulString) (i : Instruction) : bool :=
  match m !! n with
  | Some f =>
      String.eqb (builtin_name f) n && bool_decide (instruction f = Some i) && Nat.eqb (length (literalArguments f)) 0
  | None => false
  end.

Lemma instruction_check_ok d m n i f :
  builtin d = (fun n => m !! n) -> instruction_check m n i = true -> m !! n = Some f -> is_instruction d i f.
Proof.
  intros Hd Hc Hf. unfold instruction_check in Hc. rewrite Hf in Hc.
  apply andb_true_iff in Hc as [[Hn%String.eqb_eq Hi]%andb_true_iff Hl%Nat.eqb_eq]. apply bool_decide_eq_true in Hi.
  split; [by rewrite Hd, Hn|]. split; [done|]. by destruct (literalArguments f).
Qed.

Definition functions_check (o : option Functions) (l : list (YulString * Instruction)) : bool :=
  match o with Some m => forallb (fun p => instruction_check m (fst p) (snd p)) l | None => false end.

Lemma createBuiltins_check v b :
  functions_check (createBuiltins v b) [("iszero", ISZERO); ("pop", POP); ("eq", EQ)]%string = true.
Proof. destruct v, b; vm_compute; reflexivity. Qed.

Lemma typedFunctions_check v b :
  functions_check (typedFunctions <$> createBuiltins v b) [("not", ISZERO); ("pop", POP); ("popbool", POP); ("eq", EQ)]%string = true.
Proof. destruct v, b; vm_compute; reflexivity. Qed.

#[local] Opaque createBuiltins typedFunctions.

(** Creating the table of builtins does not throw. *)
Lemma createBuiltins_returns v b : exists m, createBuiltins v b = Some m.
Proof. pose proof (createBuiltins_check v b) as Hc. destruct (createBuiltins v b) as [m|]; [by exists m|discriminate Hc]. Qed.

Lemma EVMDialect_returns v b : exists d, EVMDialect v b = Some d.
Proof. destruct (createBuiltins_returns v b) as [m Hm]. unfold EVMDialect. rewrite Hm. by eexists. Qed.

Lemma functions_check_in m l n i f :
  functions_check (Some m) l = true -> In (n, i) l -> m !! n = Some f -> instruction_check m n i = true.
Proof. intros Hc Hin _. cbn [functions_check] in Hc. rewrite forallb_forall in Hc. apply (Hc _ Hin). Qed.

Lemma lawful_table d m l :
  builtin d = (fun n => m !! n) -> functions_check (Some m) l = true ->
  (forall f, booleanNegationFunction d = Some f -> exists n, In (n, ISZERO) l /\ m !! n = Some f) ->
  (forall t o, discardFunction d t = Some o -> exists n, In (n, POP) l /\ m !! n = o) ->
  (forall t f, equalityFunction d t = Some (Some f) -> exists n, In (n, EQ) l /\ m !! n = Some f) ->
  Lawful d.
Proof.
  intros Hd Hc Hn Hp He.
  assert (forall n i f, In (n, i) l -> m !! n = Some f -> is_instruction d i f) as Hi.
  { intros n i f Hin Hf. apply (instruction_check_ok d m n); [done| |done]. by eapply functions_check_in. }
  split.
  - intros f Hf. destruct (Hn f Hf) as (n & Hin & Hm). by eapply Hi.
  - intros t f Hf. destruct (Hp t (Some f) Hf) as (n & Hin & Hm). by eapply Hi.
  - intros t Hf. destruct (Hp t None Hf) as (n & Hin & Hm). cbn [functions_check] in Hc. rewrite forallb_forall in Hc.
    specialize (Hc _ Hin). unfold instruction_check in Hc. cbn [fst snd] in Hc. by rewrite Hm in Hc.
  - intros t f Hf. destruct (He t f Hf) as (n & Hin & Hm). by eapply Hi.
Qed.

Definition untyped_laws : list (YulString * Instruction) := [("iszero", ISZERO); ("pop", POP); ("eq", EQ)]%string.
Definition typed_laws : list (YulString * Instruction) :=
  [("not", ISZERO); ("pop", POP); ("popbool", POP); ("eq", EQ)]%string.

Lemma EVMDialect_lawful v b d : EVMDialect v b = Some d -> Lawful d.
Proof.
  intros Hd. destruct (createBuiltins_returns v b) as [m Hm]. pose proof (createBuiltins_check v b) as Hc.
  rewrite Hm in Hc. unfold EVMDialect in Hd. rewrite Hm in Hd. injection Hd as <-.
  apply (lawful_table _ m untyped_laws); [reflexivity|exact Hc|..]; cbn [booleanNegationFunction discardFunction equalityFunction].
  - intros f Hf. exists "iszero"%string. split; [left; reflexivity|exact Hf].
  - intros _ f [= Hf]. exists "pop"%string. split; [right; left; reflexivity|exact Hf].
  - intros _ f [= Hf]. exists "eq"%string. split; [right; right; left; reflexivity|exact Hf].
Qed.

Lemma EVMDialectTyped_lawful v b d : EVMDialectTyped v b = Some d -> Lawful d.
Proof.
  intros Hd. destruct (createBuiltins_returns v b) as [m Hm]. pose proof (typedFunctions_check v b) as Hc.
  rewrite Hm in Hc. unfold EVMDialectTyped in Hd. rewrite Hm in Hd. injection Hd as <-.
  cbn [fmap option_fmap option_map] in Hc. revert Hc. generalize (typedFunctions m). clear m Hm. intros m Hc.
  apply (lawful_table _ m typed_laws); [reflexivity|exact Hc|..]; cbn [booleanNegationFunction discardFunction equalityFunction].
  - intros f Hf. exists "not"%string. split; [left; reflexivity|exact Hf].
  - intros t f. destruct (String.eqb t bool_type).
    + intros [= Hf]. exists "popbool"%string. split; [right; right; left; reflexivity|exact Hf].
    + destruct (String.eqb t u256_type); [|done]. intros [= Hf]. exists "pop"%string. split; [right; left; reflexivity|exact Hf].
  - intros t f. destruct (String.eqb t bool_type); [done|]. destruct (String.eqb t u256_type); [|done].
    intros [= Hf]. exists "eq"%string. split; [do 3 right; left; reflexivity|exact Hf].
Qed.

Section Laws.
Context (d : Dialect) (keccak256 : list Z -> Z) `{!Lawful d}.
Context (call : list Scope -> Function -> list Z -> Y (list Z)).

Local Abbreviation evaluateMulti := (evaluateMulti d keccak256 call).
Local Abbreviation evaluate := (evaluate d keccak256 call).

(** ** Calls of instructions *)

Lemma evaluate_unary i f e scopes v s :
  is_instruction d i f ->
  evaluateMulti scopes v (FunctionCall (builtin_name f) [e]) s =
  ybind (evaluate scopes v e) (fun x => ybind (ymachine (eval keccak256 i [x])) (fun y => yret [y])) s.
Proof using.
  intros (Hf & Hi & Hl). cbn [YulInterpreter.evaluateMulti]. unfold literalsOf, callFunction. rewrite Hf, Hl.
  unfold evalBuiltin. rewrite Hi. unfold ybind, yret, yoption. cbn [isLiteralArgument].
  unfold YulInterpreter.evaluate, ybind. change (yret false s) with (Ran false s). cbn beta iota.
  destruct (evaluateMulti scopes v e s) as [r s1| |]; [|done..]. unfold single. destruct r as [|x [|]]; done.
Qed.

Lemma ymachine_return {A} (a : A) s : ymachine (mreturn a) s = Ran a s.
Proof using. unfold ymachine, mreturn. by destruct s. Qed.

(** [iszero(e)]. *)
Lemma evaluate_negation f e scopes v s :
  booleanNegationFunction d = Some f ->
  evaluate scopes v (FunctionCall (builtin_name f) [e]) s =
  ybind (evaluate scopes v e) (fun x => yret (bool_word (x =? 0))) s.
Proof using Lawful0.
  intros Hf. unfold YulInterpreter.evaluate at 1. unfold ybind at 1.
  rewrite (evaluate_unary ISZERO f e scopes v s (negation_law f Hf)). unfold ybind.
  destruct (evaluate scopes v e s) as [x s1| |]; [|done..].
  change (eval keccak256 ISZERO [x]) with (mreturn (bool_word (x =? 0))). by rewrite ymachine_return.
Qed.

(** [pop(e)]. *)
Lemma evaluate_discard t f e scopes v s :
  discardFunction d t = Some (Some f) ->
  evaluateMulti scopes v (FunctionCall (builtin_name f) [e]) s = ybind (evaluate scopes v e) (fun _ => yret [0]) s.
Proof using Lawful0.
  intros Hf. rewrite (evaluate_unary POP f e scopes v s (discard_law t f Hf)). unfold ybind.
  destruct (evaluate scopes v e s) as [x s1| |]; [|done..].
  change (eval keccak256 POP [x]) with (mreturn 0). by rewrite ymachine_return.
Qed.

(** [eq(l, e)]. *)
Lemma evaluate_equality t f l e scopes v s :
  equalityFunction d t = Some (Some f) ->
  evaluate scopes v (FunctionCall (builtin_name f) [LiteralExpression l; e]) s =
  ybind (evaluate scopes v e) (fun x => ybind (yoption (valueOfLiteral l)) (fun y => yret (bool_word (y =? x)))) s.
Proof using Lawful0.
  intros Hf. destruct (equality_law t f Hf) as (Hb & Hi & Hl). unfold YulInterpreter.evaluate. cbn [YulInterpreter.evaluateMulti].
  unfold literalsOf, callFunction. rewrite Hb, Hl. unfold evalBuiltin. rewrite Hi. unfold ybind, yret, yoption. cbn [isLiteralArgument].
  change (yret false s) with (Ran false s). cbn beta iota.
  destruct (evaluateMulti scopes v e s) as [r s1| |]; [|done..]. destruct r as [|x [|]]; try done.
  cbn [single]. unfold yret. cbn beta iota. destruct (valueOfLiteral l) as [y|]; [|done]. unfold yret. cbn beta iota.
  change (single [y] s1) with (Ran y s1). cbn beta iota.
  by rewrite (ymachine_return (bool_word (y =? x)) s1 : ymachine (eval keccak256 EQ [y; x]) s1 = _).
Qed.

(** A terminating builtin does not return. *)
Lemma eval_terminates i arg s : instr_terminatesControlFlow i = true -> exists e s', eval keccak256 i arg s = (inr e, s').
Proof using.
  intros Hi. unfold eval. destruct (negb _) eqn:Hn; [by do 2 eexists|]. apply negb_false_iff, Nat.eqb_eq in Hn.
  destruct i; try discriminate Hi; cbn in Hn.
  - by do 2 eexists.
  - destruct arg as [|a [|b [|]]]; try discriminate Hn. cbn [eval_arith]. unfold mseq, mthrow.
    destruct (accessMemory a b s) as [[ok|e] s1]; [|by do 2 eexists].
    destruct ((if ok then readMemory a b else mreturn []) s1) as [[data|e] s2]; [|by do 2 eexists].
    destruct (logTrace _ _ _ s2) as [[u|e] s3]; by do 2 eexists.
  - destruct arg as [|a [|b [|]]]; try discriminate Hn. cbn [eval_arith]. unfold mseq, mthrow.
    destruct (accessMemory a b s) as [[ok|e] s1]; [|by do 2 eexists].
    destruct (logTrace _ _ _ s1) as [[u|e] s3]; by do 2 eexists.
  - destruct arg; [|discriminate Hn]. cbn [eval_arith]. unfold mseq, mthrow.
    destruct (logTrace _ _ _ s) as [[u|e] s3]; by do 2 eexists.
  - destruct arg as [|a [|]]; try discriminate Hn. cbn [eval_arith]. unfold mseq, mthrow.
    destruct (logTrace _ _ _ s) as [[u|e] s3]; by do 2 eexists.
Qed.

Lemma terminating_call e scopes v s : isTerminatingBuiltin d e = true -> forall r s', evaluateMulti scopes v e s <> Ran r s'.
Proof using.
  destruct e as [f args| |]; try done. cbn [isTerminatingBuiltin]. intros Hi r s' Hr.
  destruct (builtin d f) as [b|] eqn:Hb; [|done]. destruct (instruction b) as [i|] eqn:Hbi; [|done].
  apply ybind_ran in Hr as (values & s1 & _ & Hr). unfold callFunction in Hr. rewrite Hb in Hr.
  apply ybind_ran in Hr as (x & s2 & H2 & _). unfold ymachine, evalBuiltin in H2. rewrite Hbi in H2.
  destruct (eval_terminates i values (machine s1) Hi) as (e & w & Hw). by rewrite Hw in H2.
Qed.
End Laws.
