(* ===== verification/YulSound.v ===== *)
(** * YulSound: the steps of the Yul optimiser that keep the loops

    DeadCodeEliminator, ConditionalSimplifier, ConditionalUnsimplifier and VarDeclInitializer:
    a program and what the step makes of it run alike.  Each step is followed over the tree by
    the congruence of YulEquivalence; what is left to show is what it does to one statement. *)

From stdpp Require Import strings.
From S2P Require Import Prelude U256 CommonData Instruction EVMVersion SemanticInformation Interpreter Yul YulInterpreter YulEquivalence YulOptimiser YulDialects.

Local Open Scope yul_scope.

(** ** Lists of statements *)

Lemma Forall_holds {A} (p : A -> bool) (Q : A -> Prop) l :
  Forall (fun a => p a = true -> Q a) l -> forallb p l = true -> Forall Q l.
Proof.
  induction 1 as [|a l Ha _ IH]; [done|]. cbn [forallb]. rewrite andb_true_iff. intros [Hp Hl]. constructor; auto.
Qed.

Lemma forallb_flat_map {A} (p : A -> bool) (f : A -> list A) l :
  Forall (fun a => forallb p (f a) = true) l -> forallb p (flat_map f l) = true.
Proof. induction 1 as [|a l Ha _ IH]; [done|]. cbn [flat_map]. by rewrite forallb_app, Ha, IH. Qed.

Lemma forallb_map_of {A B} (p : B -> bool) (f : A -> B) l :
  Forall (fun a => p (f a) = true) l -> forallb p (map f l) = true.
Proof. induction 1 as [|a l Ha _ IH]; [done|]. cbn [map forallb]. by rewrite Ha, IH. Qed.

Lemma zeroLiteral_value d t : valueOfLiteral (zeroLiteralForType d t) = Some 0.
Proof. unfold zeroLiteralForType. by destruct (String.eqb t (boolType d) && _). Qed.

Section Steps.
Context (d : Dialect) (keccak256 : list Z -> Z).

Local Abbreviation exec n := (execute d keccak256 (call d keccak256 n) (S n)).
Local Abbreviation equiv := (equiv d keccak256).
Local Abbreviation is_normal s := (controlFlowState s = ControlFlowState.Default).

(** Statements that do the same in the same scopes. *)
Lemma equiv_same b b' :
  (forall n h l v st, is_normal st -> sequence (exec n) b h l v st = sequence (exec n) b' h l v st) ->
  (forall h, registered b h = registered b' h) -> equiv b b'.
Proof using.
  intros Hs Hr n. destruct (body_refl d keccak256 false n b) as [Hs0 Hr0]. split.
  - intros h h' l l' v st [|Hst] Hh Hl; [done|]. rewrite <- Hs by done. apply Hs0; [by right|done..].
  - intros h h' Hh. rewrite <- Hr. by apply Hr0.
Qed.

(** ** Statements that change the control flow *)

Lemma flows_stop n s h l v st r st' : flowsOut d s = false -> exec n s h l v st = Ran r st' -> ~ is_normal st'.
Proof using.
  unfold flowsOut. intros Hf%bool_decide_eq_false Hr. destruct s; cbn [controlFlowKind] in Hf; try done; cbn [execute] in Hr.
  - destruct (isTerminatingBuiltin d expression) eqn:Ht; [|done]. apply ybind_ran in Hr as (vs & s1 & H1 & _).
    by apply terminating_call in H1.
  - injection Hr as <- <-. done.
  - injection Hr as <- <-. done.
  - injection Hr as <- <-. done.
Qed.

Lemma sequence_ends n b h l v st r st' :
  endsFlow d b = true -> sequence (exec n) b h l v st = Ran r st' -> ~ is_normal st'.
Proof using.
  unfold endsFlow. revert h v st. induction b as [|s b IH]; intros h v st Hb Hr; [done|].
  rewrite last_cons in Hb. cbn [sequence] in Hr. apply ybind_ran in Hr as (r1 & s1 & H1 & Hr). unfold ybind, ymode in Hr.
  destruct (bool_decide_reflect (is_normal s1)) as [Hn|Hn]; [|by injection Hr as <- <-].
  destruct (last b) as [s'|]; [by eapply IH|]. apply negb_true_iff in Hb. by apply (flows_stop n s h l v st r1 s1) in Hb.
Qed.

Lemma block_ends n b l v st r st' : endsFlow d b = true -> block (exec n) b l v st = Ran r st' -> ~ is_normal st'.
Proof using.
  intros Hb Hr. apply ybind_ran in Hr as (r1 & s1 & H1 & Hr). injection Hr as <- <-. by eapply sequence_ends.
Qed.

(** After them it only matters which functions the statements define. *)
Lemma equiv_stop s l l' :
  flowsOut d s = false -> (forall n, reg_rel d keccak256 n l l') -> equiv (s :: l) (s :: l').
Proof using.
  intros Hs Hr n. destruct (body_refl d keccak256 false n [s]) as [Hs0 Hr0]. split.
  - intros h h' k k' v st Hst Hh Hk. specialize (Hs0 h h' k k' v st Hst Hh Hk). rewrite !sequence_single in Hs0.
    cbn [sequence]. apply out_bind; [exact Hs0|]. intros h1 h1' v1 s1 Hh1 H1. unfold ybind, ymode.
    rewrite bool_decide_eq_false_2 by (by eapply flows_stop). done.
  - intros h h' Hh. rewrite (registered_app [s] l), (registered_app [s] l'). by apply Hr, Hr0.
Qed.

(** ** DeadCodeEliminator *)

Section DeadCode.

Local Abbreviation deadBlock := (deadBlock d (deadCode d)).

(** The step on one statement. *)
Definition dead_ok (s : Statement) : Prop :=
  forall s', deadCode d s = Some s' -> regular s = true -> isFunctionDefinition s' = isFunctionDefinition s /\ equiv [s] [s'].

Lemma equiv_registers n s s' l l' :
  equiv [s] [s'] -> reg_rel d keccak256 n l l' -> reg_rel d keccak256 n (s :: l) (s' :: l').
Proof using.
  intros Hs Hl h h' Hh. rewrite (registered_app [s] l), (registered_app [s'] l'). by apply Hl, (proj2 (Hs n)).
Qed.

(** What follows a statement that changes the control flow. *)
Lemma dead_registers n l l' :
  Forall dead_ok l -> forallb regular l = true -> deadBlock true l = Some l' -> reg_rel d keccak256 n l l'.
Proof using.
  intros Hl. revert l'. induction Hl as [|s l Hs _ IH]; intros l' Hr E; cbn [forallb YulOptimiser.deadBlock andb orb] in *.
  - injection E as <-. apply reg_nil.
  - apply andb_true_iff in Hr as [Hrs Hr]. destruct (isFunctionDefinition s) eqn:Hf; cbn [negb] in E.
    + destruct (deadCode d s) as [s'|] eqn:Es; [|done]. cbn [mbind option_bind] in E.
      destruct (deadBlock true l) as [r|] eqn:El; [|done]. injection E as <-.
      apply equiv_registers; [by apply (Hs s')|by apply IH].
    + intros h h' Hh. destruct s; try done; by apply (IH l').
Qed.

Lemma deadCode_stop s s' : flowsOut d s = false -> deadCode d s = Some s' -> s' = s.
Proof using. unfold flowsOut. intros Hf%bool_decide_eq_false E. destruct s; try done; by injection E as <-. Qed.

Lemma dead_block l l' :
  Forall dead_ok l -> forallb regular l = true -> deadBlock false l = Some l' -> equiv l l'.
Proof using.
  intros Hl. revert l'. induction Hl as [|s l Hs Hl IH]; intros l' Hr E; cbn [forallb YulOptimiser.deadBlock andb orb] in *.
  - by injection E as <-.
  - apply andb_true_iff in Hr as [Hrs Hr]. destruct (deadCode d s) as [s'|] eqn:Es; [|done]. cbn [mbind option_bind] in E.
    destruct (deadBlock (negb (flowsOut d s)) l) as [r|] eqn:El; [|done]. injection E as <-.
    destruct (flowsOut d s) eqn:Hf; cbn [negb] in El.
    + apply (equiv_cons d keccak256 s [s']); [by apply (Hs s')|by apply IH].
    + rewrite (deadCode_stop s s' Hf Es). apply equiv_stop; [done|]. intros n. by apply dead_registers.
Qed.

Lemma dead_statement s : dead_ok s.
Proof using.
  induction s as [e|x e|x e|f p r b Hb|e b Hb|e c Hc|pre e post b Hpre Hpost Hb| | | |b Hb] using Statement_nested_ind;
    intros s' E Hr; cbn [deadCode] in E; cbn [regular] in Hr; try by injection E as <-.
  - destruct (deadBlock false b) as [b'|] eqn:Eb; [|done]. injection E as <-. split; [done|].
    apply equiv_function. by apply dead_block.
  - destruct (deadBlock false b) as [b'|] eqn:Eb; [|done]. injection E as <-. split; [done|].
    apply equiv_if. by apply dead_block.
  - destruct (traverse _ c) as [c'|] eqn:Ec; [|done]. injection E as <-. split; [done|]. apply equiv_switch. revert c' Ec.
    induction Hc as [|[l b] c Hb _ IH]; intros c' Ec; cbn [traverse fst snd forallb] in *; [by injection Ec as <-|].
    apply andb_true_iff in Hr as [Hrb Hr].
    destruct (deadBlock false b) as [b'|] eqn:Eb; [|done]. cbn [mbind option_bind] in Ec.
    destruct (traverse _ c) as [c2|]; [|done]. injection Ec as <-. constructor; [|by apply IH].
    split; [done|]. by apply dead_block.
  - unfold assertThrow in E. destruct (bool_decide_reflect (pre = [])) as [->|]; [|done]. cbn [mbind option_bind] in E.
    destruct (deadBlock false post) as [post'|] eqn:Ep; [|done]. cbn [mbind option_bind] in E.
    destruct (deadBlock false b) as [b'|] eqn:Eb; [|done]. injection E as <-. split; [done|].
    rewrite !andb_true_iff in Hr. destruct Hr as ((((_ & Hcp) & _) & Hrp) & Hrb).
    apply equiv_for; try done; by apply dead_block.
  - destruct (deadBlock false b) as [b'|] eqn:Eb; [|done]. injection E as <-. split; [done|].
    apply equiv_block. by apply dead_block.
Qed.

Lemma deadCode_equiv _ast ast' :
  forallb regular _ast = true -> DeadCodeEliminator d _ast = Some ast' -> equiv _ast ast'.
Proof using.
  intros Hr E. apply dead_block; [|done..]. apply Forall_true, dead_statement.
Qed.
End DeadCode.

(** ** Assignments of the value a variable has *)

Lemma assign_same x y v s : v !! x = Some y -> assign [x] [y] v s = Ran v s.
Proof using.
  intros Hx. cbn [assign]. unfold yassert. rewrite bool_decide_eq_true_2 by (by rewrite Hx; eexists).
  unfold ybind, yret. by rewrite insert_id.
Qed.

Lemma assignment_noop n x l y h ls v st :
  v !! x = Some y -> valueOfLiteral l = Some y -> exec n (Assignment [x] (LiteralExpression l)) h ls v st = Ran (h, v) st.
Proof using.
  intros Hx Hl. cbn [execute evaluateMulti]. unfold yoption. rewrite Hl. unfold ybind at 1 2, yret at 1 2.
  unfold ybind. by rewrite (assign_same _ _ _ _ Hx).
Qed.

Lemma identifier_value n x scopes v s y s' :
  evaluate d keccak256 (call d keccak256 n) scopes v (Identifier x) s = Ran y s' -> s' = s /\ v !! x = Some y.
Proof using.
  unfold evaluate. cbn [evaluateMulti]. unfold ybind, yoption. destruct (v !! x) as [z|]; [|done]. cbn. by intros [= -> ->].
Qed.

Lemma yoption_ran {A} (o : option A) s a s' : yoption o s = Ran a s' -> o = Some a /\ s' = s.
Proof using. unfold yoption. destruct o as [b|]; [|done]. by intros [= -> ->]. Qed.

(** After [if x { ... }], whose body does not go on, [x] is zero. *)
Lemma zero_after c b l :
  endsFlow d b = true -> valueOfLiteral l = Some 0 ->
  equiv [If (Identifier c) b] [If (Identifier c) b; Assignment [c] (LiteralExpression l)].
Proof using.
  intros Hb Hl. apply equiv_same; [|done]. intros n h ls v st Hst. cbn [sequence].
  apply ybind_ext; [done|]. intros r s1 H1. apply ybind_ext; [done|]. intros m s2 [= <- <-].
  destruct (bool_decide_reflect (is_normal s1)) as [Hn|]; [|done]. cbn [execute] in H1.
  apply ybind_ran in H1 as (x & s2 & [-> Hx]%identifier_value & H1).
  destruct (x =? 0) eqn:E.
  - apply Z.eqb_eq in E as ->. injection H1 as <- <-. cbn [fst snd]. unfold ybind at 1.
    rewrite (assignment_noop n c l 0) by done. unfold ybind, ymode. by rewrite bool_decide_eq_true_2.
  - apply ybind_ran in H1 as (v1 & s2 & H2 & H1). injection H1 as <- <-. by apply block_ends in H2.
Qed.

(** A case of a switch starts with the value of the case. *)
Lemma block_value n x l y b ls v st :
  v !! x = Some y -> valueOfLiteral l = Some y -> is_normal st ->
  block (exec n) (Assignment [x] (LiteralExpression l) :: b) ls v st = block (exec n) b ls v st.
Proof using.
  intros Hx Hl Hst. unfold block. apply ybind_ext; [|done]. cbn [sequence registered]. unfold ybind at 1.
  rewrite (assignment_noop n x l y) by done. unfold ybind, ymode. by rewrite bool_decide_eq_true_2.
Qed.

(** Cases some of which start with the assignment of a literal of the value of the case. *)
Inductive same_case (x : YulString) : option Literal * list Statement -> option Literal * list Statement -> Prop :=
| case_same p : same_case x p p
| case_value l l' b :
    valueOfLiteral l' = valueOfLiteral l -> same_case x (Some l, b) (Some l, Assignment [x] (LiteralExpression l') :: b).

Lemma switch_values x c c' : Forall2 (same_case x) c c' -> equiv [Switch (Identifier x) c] [Switch (Identifier x) c'].
Proof using.
  intros Hc. apply equiv_same; [|done]. intros n h ls v st Hst. rewrite !sequence_single. cbn [execute].
  apply ybind_ext; [done|]. intros y s1 [-> Hy]%identifier_value. rewrite (Forall2_length _ _ _ Hc).
  apply ybind_ext; [done|]. intros [] s2 [-> _]%yassert_state. apply ybind_ext; [|done].
  induction Hc as [|p p' c c' Hp _ IH]; [done|]. destruct Hp as [[[l|] b]|l l' b Hl]; cbn [select].
  - apply ybind_ext; [done|]. intros z s1 [_ ->]%yoption_ran. destruct (z =? y); [done|exact IH].
  - done.
  - apply ybind_ext; [done|]. intros z s1 [El ->]%yoption_ran. rewrite El in Hl. destruct (Z.eqb_spec z y) as [->|]; [|exact IH]. symmetry. by apply (block_value n x l' y).
Qed.

(** ** ConditionalSimplifier *)

Section Simplifier.
Local Abbreviation inBlock := (flat_map (fun s => conditionalSimplify d s :: zeroAfter d (conditionalSimplify d s))).

Lemma zeroAfter_equiv s : equiv [s] (s :: zeroAfter d s).
Proof using.
  destruct s as [| | | |[f args|c|l] b| | | | | |]; try reflexivity. cbn [zeroAfter].
  destruct (endsFlow d b) eqn:Hb; [|reflexivity]. apply zero_after; [done|]. apply zeroLiteral_value.
Qed.

Lemma zeroAfter_calm s : forallb calm (zeroAfter d s) = true.
Proof using. destruct s as [| | | |[f args|c|l] b| | | | | |]; try done. cbn [zeroAfter]. by destruct (endsFlow d b). Qed.

Lemma valueFirst_case x (p : option Literal * list Statement) b : same_case x (fst p, b) (fst p, valueFirst (Identifier x) (fst p) ++ b).
Proof using. destruct p as [[l|] c]; cbn [fst valueFirst app]; constructor. done. Qed.

Lemma valueFirst_calm e o : forallb calm (valueFirst e o) = true.
Proof using. by destruct e, o. Qed.

Lemma simplify_calm s : calm s = true -> calm (conditionalSimplify d s) = true.
Proof using.
  assert (forall b, Forall (fun s => calm s = true -> calm (conditionalSimplify d s) = true) b ->
    forallb calm b = true -> forallb calm (inBlock b) = true) as Hall.
  { intros b Hb Hc. apply forallb_flat_map. eapply Forall_impl; [exact (Forall_holds _ _ _ Hb Hc)|].
    intros a Ha. cbn [forallb]. by rewrite Ha, zeroAfter_calm. }
  induction s as [e|x e|x e|f p r b Hb|e b Hb|e c Hc|pre e post b Hpre Hpost Hb| | | |b Hb] using Statement_nested_ind;
    intros Hs; cbn [conditionalSimplify calm] in *; try done; try by apply Hall.
  induction Hc as [|[l b] c Hb _ IH]; cbn [map fst snd forallb] in *; [done|]. apply andb_true_iff in Hs as [Hsb Hs].
  by rewrite forallb_app, valueFirst_calm, (Hall b Hb Hsb), (IH Hs).
Qed.

Lemma inBlock_calm b : forallb calm b = true -> forallb calm (inBlock b) = true.
Proof using.
  intros Hc. apply forallb_flat_map. eapply Forall_impl; [exact (Forall_holds calm _ b (Forall_true _ b simplify_calm) Hc)|].
  intros s Hs. cbn [forallb]. by rewrite Hs, zeroAfter_calm.
Qed.

Lemma inBlock_equiv b :
  Forall (fun s => regular s = true -> equiv [s] [conditionalSimplify d s]) b -> forallb regular b = true -> equiv b (inBlock b).
Proof using.
  intros Hb Hr. apply equiv_flat_map. eapply Forall_impl; [exact (Forall_holds _ _ _ Hb Hr)|].
  intros s Hs. rewrite Hs at 1. apply zeroAfter_equiv.
Qed.

Lemma simplify_statement s : regular s = true -> equiv [s] [conditionalSimplify d s].
Proof using.
  induction s as [e|x e|x e|f p r b Hb|e b Hb|e c Hc|pre e post b Hpre Hpost Hb| | | |b Hb] using Statement_nested_ind;
    intros Hr; cbn [conditionalSimplify regular] in *; try reflexivity.
  - apply equiv_function. by apply inBlock_equiv.
  - apply equiv_if. by apply inBlock_equiv.
  - transitivity [Switch e (map (fun p => (fst p, inBlock (snd p))) c)].
    + apply equiv_switch. induction Hc as [|[l b] c Hb _ IH]; cbn [map fst snd forallb] in *; [constructor|].
      apply andb_true_iff in Hr as [Hrb Hr]. constructor; [|by apply IH]. split; [done|]. by apply inBlock_equiv.
    + destruct e as [f args|x|l]; [reflexivity| |reflexivity]. apply switch_values. clear. induction c as [|p c IH]; constructor; [|done].
      apply valueFirst_case.
  - rewrite !andb_true_iff in Hr. destruct Hr as ((((Hcp & Hcq) & Hrp) & Hrq) & Hrb).
    apply equiv_for; try done; try by apply inBlock_equiv. by apply inBlock_calm.
  - apply equiv_block. by apply inBlock_equiv.
Qed.

Lemma ConditionalSimplifier_equiv _ast : forallb regular _ast = true -> equiv _ast (ConditionalSimplifier d _ast).
Proof using. intros Hr. apply inBlock_equiv; [|done]. apply Forall_true, simplify_statement. Qed.
End Simplifier.

(** ** ConditionalUnsimplifier *)

Section Unsimplifier.
Local Abbreviation unsimplify := (conditionalUnsimplify d).
Local Abbreviation unsimplifyBody := (unsimplifyBody d (conditionalUnsimplify d)).

Lemma assignsValue_true x o s :
  assignsValue x o s = Some true -> exists l w, s = Assignment [x] (LiteralExpression l) /\ valueOfLiteral l = Some w /\ o = Some w.
Proof using.
  destruct s as [|[|y [|]] [| |l]| | | | | | | | |]; try done. cbn [assignsValue]. destruct (String.eqb_spec y x) as [->|]; [|done].
  destruct (valueOfLiteral l) as [v|] eqn:Hl; [|done]. cbn [mbind option_bind]. destruct o as [w|]; [|done]. cbn [mbind option_bind].
  intros [= Hw%Z.eqb_eq]. subst w. by exists l, v.
Qed.

Lemma isZeroAfter_equiv s1 s2 : isZeroAfter d s1 s2 = Some true -> equiv [s1; s2] [s1].
Proof using.
  destruct s1 as [| | | |[f args|c|l] b| | | | | |]; try done. cbn [isZeroAfter]. destruct (endsFlow d b) eqn:Hb; [|done].
  intros (l & w & -> & Hl & [= <-])%assignsValue_true. symmetry. by apply zero_after.
Qed.

(** The lists [removeZeros] makes. *)
Inductive removed : list Statement -> list Statement -> Prop :=
| removed_nil : removed [] []
| removed_cons s l r : removed l r -> removed (s :: l) (s :: r)
| removed_zero s1 s2 l r : isZeroAfter d s1 s2 = Some true -> removed l r -> removed (s1 :: s2 :: l) (s1 :: r).

Lemma removeZeros_removed l r : removeZeros d l = Some r -> removed l r.
Proof using.
  assert (forall k l r, Nat.le (length l) k -> removeZeros d l = Some r -> removed l r) as H; [|by eapply H].
  clear. induction k as [|k IH]; intros [|s1 [|s2 l]] r Hl E; cbn [removeZeros length] in *; try lia;
    try (injection E as <-; repeat constructor).
  destruct (isZeroAfter d s1 s2) as [[|]|] eqn:Hz; [| |done]; cbn [mbind option_bind] in E.
  - destruct (removeZeros d l) as [q|] eqn:Eq; [|done]. injection E as <-. apply removed_zero; [done|]. apply IH; [lia|done].
  - change (match removeZeros d (s2 :: l) with Some q => Some (s1 :: q) | None => None end = Some r) in E.
    destruct (removeZeros d (s2 :: l)) as [q|] eqn:Eq; [|done]. injection E as <-. apply removed_cons. apply IH; [cbn [length]; lia|done].
Qed.

Lemma removed_equiv l r : removed l r -> equiv l r.
Proof using.
  induction 1 as [|s l r _ IH|s1 s2 l r Hz _ IH]; [reflexivity|by apply (equiv_cons d keccak256 s [s])|].
  apply (equiv_app d keccak256 [s1; s2] [s1]); [by apply isZeroAfter_equiv|done].
Qed.

Lemma removed_calm l r : removed l r -> forallb calm l = true -> forallb calm r = true.
Proof using.
  induction 1 as [|s l r _ IH|s1 s2 l r Hz _ IH]; [done| |]; cbn [forallb]; rewrite !andb_true_iff.
  - intros [Hs Hl]. auto.
  - intros (Hs & _ & Hl). auto.
Qed.

(** Traversals, of the code they make. *)
Lemma traverse_calm (f : Statement -> option Statement) b b' :
  Forall (fun s => forall s', f s = Some s' -> calm s = true -> calm s' = true) b -> traverse f b = Some b' ->
  forallb calm b = true -> forallb calm b' = true.
Proof using.
  intros Hb. revert b'. induction Hb as [|s b Hs _ IH]; intros b' E Hc; cbn [traverse forallb] in *; [by injection E as <-|].
  apply andb_true_iff in Hc as [Hcs Hc]. destruct (f s) as [s'|] eqn:Es; [|done]. cbn [mbind option_bind] in E.
  destruct (traverse f b) as [r|]; [|done]. injection E as <-. cbn [forallb]. by rewrite (Hs s'), (IH r).
Qed.

Lemma traverse_equiv (f : Statement -> option Statement) b b' :
  Forall (fun s => regular s = true -> forall s', f s = Some s' -> equiv [s] [s']) b -> traverse f b = Some b' ->
  forallb regular b = true -> equiv b b'.
Proof using.
  intros Hb. revert b'. induction Hb as [|s b Hs _ IH]; intros b' E Hr; cbn [traverse forallb] in *; [by injection E as <-|].
  apply andb_true_iff in Hr as [Hrs Hr]. destruct (f s) as [s'|] eqn:Es; [|done]. cbn [mbind option_bind] in E.
  destruct (traverse f b) as [r|]; [|done]. injection E as <-. apply (equiv_cons d keccak256 s [s']); [by apply Hs|by apply IH].
Qed.

(** What the step does to statements. *)
Definition unsimplify_keeps (s : Statement) : Prop := forall s', unsimplify s = Some s' -> calm s = true -> calm s' = true.
Definition unsimplify_ok (s : Statement) : Prop := regular s = true -> forall s', unsimplify s = Some s' -> equiv [s] [s'].

Lemma unsimplify_body_calm b b' :
  Forall unsimplify_keeps b -> unsimplifyBody b = Some b' -> forallb calm b = true -> forallb calm b' = true.
Proof using.
  intros Hb E Hc. unfold YulOptimiser.unsimplifyBody in E. destruct (traverse unsimplify b) as [l|] eqn:El; [|done].
  cbn [mbind option_bind] in E. apply removeZeros_removed, removed_calm in E; [done|]. by eapply traverse_calm.
Qed.

Lemma unsimplify_body_equiv b b' :
  Forall unsimplify_ok b -> unsimplifyBody b = Some b' -> forallb regular b = true -> equiv b b'.
Proof using.
  intros Hb E Hr. unfold YulOptimiser.unsimplifyBody in E. destruct (traverse unsimplify b) as [l|] eqn:El; [|done].
  cbn [mbind option_bind] in E. transitivity l; [by eapply traverse_equiv|]. by apply removed_equiv, removeZeros_removed.
Qed.

(** The cases of a switch. *)
Definition value_case (e : Expression) (p p' : option Literal * list Statement) : Prop :=
  match e with Identifier x => same_case x p p' | _ => p = p' end.

Lemma value_cases e c c' : Forall2 (value_case e) c c' -> equiv [Switch e c] [Switch e c'].
Proof using.
  intros Hc. destruct e as [f args|x|l]; cbn [value_case] in Hc; [|by apply switch_values|];
    apply list_eq_Forall2 in Hc; by subst c'.
Qed.

Lemma value_case_refl e p : value_case e p p.
Proof using. destruct e; [done|constructor|done]. Qed.

Lemma startsWithValue_case e o front rest :
  startsWithValue e o (front :: rest) = Some true -> value_case e (o, rest) (o, front :: rest).
Proof using.
  destruct e as [f args|x|lit]; [done| |done]. destruct o as [l|]; [|done]. cbn [startsWithValue].
  intros (l' & w & -> & Hl' & Hw)%assignsValue_true. apply case_value. by rewrite Hl', Hw.
Qed.

Lemma unsimplifyCase_split e p p' :
  unsimplifyCase d unsimplify e p = Some p' ->
  exists b, value_case e (fst p, b) p /\ fst p' = fst p /\ unsimplifyBody b = Some (snd p') /\
    (forall f : Statement -> bool, forallb f (snd p) = true -> forallb f b = true) /\
    (forall Q : Statement -> Prop, Forall Q (snd p) -> Forall Q b).
Proof using.
  destruct p as [o b]. unfold unsimplifyCase. cbn [fst snd]. destruct (startsWithValue e o b) as [same|] eqn:Hs; [|done].
  cbn [mbind option_bind]. intros E. destruct (match b with [] => _ | _ => _ end) as [b'|] eqn:Eb; [|done]. injection E as <-.
  cbn [fst snd]. destruct b as [|front rest]; [|destruct same].
  - exists []. split; [apply value_case_refl|]. done.
  - exists rest. split; [by apply startsWithValue_case|]. repeat split; try done.
    + intros f Hf. cbn [forallb] in Hf. by apply andb_true_iff in Hf as [_ Hf].
    + intros Q HQ. by inversion HQ.
  - exists (front :: rest). split; [apply value_case_refl|]. done.
Qed.

Lemma unsimplify_calm s : unsimplify_keeps s.
Proof using.
  induction s as [e|x e|x e|f p r b Hb|e b Hb|e c Hc|pre e post b Hpre Hpost Hb| | | |b Hb] using Statement_nested_ind;
    intros s' E Hs; cbn [conditionalUnsimplify] in E; cbn [calm] in Hs; try by injection E as <-.
  - destruct (unsimplifyBody b); [|done]. by injection E as <-.
  - destruct (unsimplifyBody b) eqn:Eb; [|done]. injection E as <-. cbn [calm]. by eapply unsimplify_body_calm.
  - destruct (traverse _ c) as [c'|] eqn:Ec; [|done]. injection E as <-. cbn [calm]. revert c' Ec.
    induction Hc as [|p c Hb _ IH]; intros c' Ec; cbn [traverse forallb] in *; [by injection Ec as <-|].
    apply andb_true_iff in Hs as [Hsb Hs]. destruct (unsimplifyCase d unsimplify e p) as [p'|] eqn:Ep; [|done].
    cbn [mbind option_bind] in Ec. destruct (traverse _ c) as [c2|]; [|done]. injection Ec as <-. cbn [forallb].
    apply unsimplifyCase_split in Ep as (b & _ & _ & Eb & Hp & HQ). rewrite (IH Hs c2) by done.
    rewrite (unsimplify_body_calm b (snd p')); auto.
  - destruct (unsimplifyBody pre); [|done]. cbn [mbind option_bind] in E. destruct (unsimplifyBody post); [|done].
    cbn [mbind option_bind] in E. destruct (unsimplifyBody b); [|done]. by injection E as <-.
  - destruct (unsimplifyBody b) eqn:Eb; [|done]. injection E as <-. cbn [calm]. by eapply unsimplify_body_calm.
Qed.

Lemma unsimplify_statement s : unsimplify_ok s.
Proof using.
  induction s as [e|x e|x e|f p r b Hb|e b Hb|e c Hc|pre e post b Hpre Hpost Hb| | | |b Hb] using Statement_nested_ind;
    intros Hr s' E; cbn [conditionalUnsimplify] in E; cbn [regular] in Hr; try by injection E as <-.
  - destruct (unsimplifyBody b) eqn:Eb; [|done]. injection E as <-. apply equiv_function. by apply unsimplify_body_equiv.
  - destruct (unsimplifyBody b) eqn:Eb; [|done]. injection E as <-. apply equiv_if. by apply unsimplify_body_equiv.
  - destruct (traverse _ c) as [c'|] eqn:Ec; [|done]. injection E as <-.
    assert (exists c0, Forall2 (value_case e) c0 c /\ Forall2 (fun p p' => fst p = fst p' /\ equiv (snd p) (snd p')) c0 c')
      as (c0 & H0 & H1); [|transitivity [Switch e c0]; [symmetry; by apply value_cases|by apply equiv_switch]].
    revert c' Ec. induction Hc as [|p c Hb _ IH]; intros c' Ec; cbn [traverse forallb] in *; [injection Ec as <-; by exists []|].
    apply andb_true_iff in Hr as [Hrb Hr]. destruct (unsimplifyCase d unsimplify e p) as [p'|] eqn:Ep; [|done].
    cbn [mbind option_bind] in Ec. destruct (traverse _ c) as [c2|]; [|done]. injection Ec as <-.
    destruct (IH Hr c2 eq_refl) as (c0 & H0 & H1). apply unsimplifyCase_split in Ep as (b & Hv & Hl & Eb & Hp & HQ).
    exists ((fst p, b) :: c0). split; [by constructor|]. constructor; [|done]. split; [done|].
    apply unsimplify_body_equiv; auto.
  - destruct (unsimplifyBody pre) eqn:E1; [|done]. cbn [mbind option_bind] in E. destruct (unsimplifyBody post) eqn:E2; [|done].
    cbn [mbind option_bind] in E. destruct (unsimplifyBody b) eqn:E3; [|done]. injection E as <-.
    rewrite !andb_true_iff in Hr. destruct Hr as ((((Hcp & Hcq) & Hrp) & Hrq) & Hrb).
    apply equiv_for; try done; try by apply unsimplify_body_equiv.
    eapply unsimplify_body_calm; [|exact E1|done]. apply Forall_true, unsimplify_calm.
  - destruct (unsimplifyBody b) eqn:Eb; [|done]. injection E as <-. apply equiv_block. by apply unsimplify_body_equiv.
Qed.

Lemma ConditionalUnsimplifier_equiv _ast ast' :
  forallb regular _ast = true -> ConditionalUnsimplifier d _ast = Some ast' -> equiv _ast ast'.
Proof using. intros Hr E. apply unsimplify_body_equiv; [|done..]. apply Forall_true, unsimplify_statement. Qed.
End Unsimplifier.

(** ** VarDeclInitializer *)

Lemma declare_zeros n x h ls v st :
  is_normal st ->
  declare (map name_of x) (repeat 0 (length x)) h v st =
  sequence (exec n) (map (fun x => VariableDeclaration [x] (Some (LiteralExpression (zeroLiteralForType d (type_of x))))) x) h ls v st.
Proof using.
  intros Hst. revert h v. induction x as [|x l IH]; intros h v; [done|]. cbn [map length repeat declare sequence execute evaluateMulti].
  unfold yoption. rewrite zeroLiteral_value. unfold ybind at 2 3 4, yret at 1 2. cbn [declare]. unfold yassert.
  destruct (bool_decide (v !! name_of x = None)); [|done]. unfold ybind, yret, ymode. rewrite bool_decide_eq_true_2 by done.
  cbn [fst snd]. apply IH.
Qed.

Lemma initializeVariables_equiv s : equiv [s] (initializeVariables d s).
Proof using.
  destruct s as [| |x [e|]| | | | | | | |]; try reflexivity. cbn [initializeVariables]. apply equiv_same.
  - intros n h ls v st Hst. rewrite sequence_single. cbn [execute]. unfold ybind at 1, yret. by apply declare_zeros.
  - intros h. cbn [registered]. by induction x.
Qed.

Lemma initialize_calm s : calm s = true -> forallb calm (initialize d s) = true.
Proof using.
  assert (forall b, Forall (fun s => calm s = true -> forallb calm (initialize d s) = true) b ->
    forallb calm b = true -> forallb calm (flat_map (initialize d) b) = true) as Hall.
  { intros b Hb Hc. apply forallb_flat_map. exact (Forall_holds _ _ _ Hb Hc). }
  induction s as [e|x e|x [e|]|f p r b Hb|e b Hb|e c Hc|pre e post b Hpre Hpost Hb| | | |b Hb] using Statement_nested_ind;
    intros Hs; cbn [initialize initializeVariables calm forallb] in *; try done; rewrite ?andb_true_r; try by apply Hall.
  - apply forallb_map_of, Forall_true. done.
  - induction Hc as [|[l b] c Hb _ IH]; cbn [map fst snd forallb] in *; [done|]. apply andb_true_iff in Hs as [Hsb Hs].
    by rewrite (Hall b Hb Hsb), (IH Hs).
Qed.

Lemma flat_initialize_calm b : forallb calm b = true -> forallb calm (flat_map (initialize d) b) = true.
Proof using. intros Hc. apply forallb_flat_map. apply (Forall_holds calm); [|done]. apply Forall_true, initialize_calm. Qed.

Lemma initialize_statement s : regular s = true -> equiv [s] (initialize d s).
Proof using.
  assert (forall b, Forall (fun s => regular s = true -> equiv [s] (initialize d s)) b ->
    forallb regular b = true -> equiv b (flat_map (initialize d) b)) as Hall.
  { intros b Hb Hr. apply equiv_flat_map. exact (Forall_holds _ _ _ Hb Hr). }
  induction s as [e|x e|x e|f p r b Hb|e b Hb|e c Hc|pre e post b Hpre Hpost Hb| | | |b Hb] using Statement_nested_ind;
    intros Hr; cbn [initialize regular] in *; try reflexivity.
  - apply initializeVariables_equiv.
  - apply equiv_function. by apply Hall.
  - apply equiv_if. by apply Hall.
  - apply equiv_switch. induction Hc as [|[l b] c Hb _ IH]; cbn [map fst snd forallb] in *; [constructor|].
    apply andb_true_iff in Hr as [Hrb Hr]. constructor; [|by apply IH]. split; [done|]. by apply Hall.
  - rewrite !andb_true_iff in Hr. destruct Hr as ((((Hcp & Hcq) & Hrp) & Hrq) & Hrb).
    apply equiv_for; try done; try by apply Hall. by apply flat_initialize_calm.
  - apply equiv_block. by apply Hall.
Qed.

Lemma VarDeclInitializer_equiv _ast : forallb regular _ast = true -> equiv _ast (VarDeclInitializer d _ast).
Proof using.
  intros Hr. apply equiv_flat_map. apply (Forall_holds regular); [|done]. apply Forall_true, initialize_statement.
Qed.
End Steps.
