(* ===== verification/YulLoops.v ===== *)
(** * YulLoops: the steps of the Yul optimiser that rewrite loops

    ForLoopConditionIntoBody and ForLoopConditionOutOfBody move the condition of a loop into its
    body and back: the loop runs alike, as long as the functions the condition calls are not
    defined in the body, which the analysis of Yul enforces. *)

From stdpp Require Import strings.
From S2P Require Import Prelude U256 CommonData Instruction EVMVersion SemanticInformation Interpreter Yul YulInterpreter YulEquivalence YulOptimiser YulDialects YulSound.

Local Open Scope yul_scope.

(** A condition on every statement of a tree. *)
Fixpoint everywhere (p : Statement -> bool) (s : Statement) : bool :=
  p s &&
  match s with
  | FunctionDefinition _ _ _ b | If _ b | Block b => forallb (everywhere p) b
  | Switch _ c => forallb (fun q => forallb (everywhere p) (snd q)) c
  | ForLoop pre _ post b => forallb (everywhere p) pre && forallb (everywhere p) post && forallb (everywhere p) b
  | _ => true
  end.

(** The functions a list of statements defines. *)
Definition definitions (l : list Statement) : list YulString :=
  flat_map (fun s => match s with FunctionDefinition f _ _ _ => [f] | _ => [] end) l.

Lemma registered_none f l h : registered l h !! f = None <-> h !! f = None /\ ~ In f (definitions l).
Proof.
  revert h. induction l as [|s l IH]; intros h; [cbn; tauto|].
  destruct s; try (cbn [registered]; by rewrite IH). cbn [registered]. rewrite IH.
  change (definitions (FunctionDefinition name parameters returnVariables body :: l)) with (name :: definitions l).
  cbn [In]. unfold add_name. destruct (decide (name = f)) as [->|Hne].
  - destruct (h !! f) as [o|] eqn:E; [rewrite E|rewrite lookup_insert_eq]; naive_solver.
  - destruct (h !! name); [|rewrite lookup_insert_ne by done]; naive_solver.
Qed.

Lemma registered_variable l h x : is_variable (registered l h) x = is_variable h x.
Proof.
  revert h. induction l as [|s l IH]; intros h; [done|]. destruct s; try (cbn [registered]; by rewrite IH). cbn [registered].
  rewrite IH. unfold is_variable, add_name. destruct (h !! name) as [o|] eqn:E; [done|].
  destruct (decide (name = x)) as [->|Hne]; [by rewrite lookup_insert_eq, E|by rewrite lookup_insert_ne].
Qed.

Lemma leaveScope_registered l v : leaveScope (registered l ∅) v = v.
Proof.
  unfold leaveScope. apply map_filter_id. intros x y _. cbn [fst]. rewrite registered_variable. unfold is_variable.
  by rewrite lookup_empty.
Qed.

(** The outcome of a sequence, from the outcome of its first part. *)
Lemma ybind_is_ran {A B} (m : Y A) (f : A -> Y B) s a s1 : m s = Ran a s1 -> ybind m f s = f a s1.
Proof. unfold ybind. by intros ->. Qed.
Lemma ybind_is_threw {A B} (m : Y A) (f : A -> Y B) s x s1 : m s = Threw x s1 -> ybind m f s = Threw x s1.
Proof. unfold ybind. by intros ->. Qed.
Lemma ybind_is_unfinished {A B} (m : Y A) (f : A -> Y B) s : m s = Unfinished -> ybind m f s = Unfinished.
Proof. unfold ybind. by intros ->. Qed.
Lemma ybind_assoc {A B C} (m : Y A) (f : A -> Y B) (g : B -> Y C) s :
  ybind (ybind m f) g s = ybind m (fun a => ybind (f a) g) s.
Proof. unfold ybind. by destruct (m s). Qed.

Section Loops.
Context (d : Dialect) (keccak256 : list Z -> Z).

Local Abbreviation exec n := (execute d keccak256 (call d keccak256 n) (S n)).
Local Abbreviation evalMulti n := (evaluateMulti d keccak256 (call d keccak256 n)).
Local Abbreviation eval n := (evaluate d keccak256 (call d keccak256 n)).
Local Abbreviation iterations n e post b k := (iterate d keccak256 (call d keccak256 n) (exec n) e post b k).
Local Abbreviation equiv := (equiv d keccak256).
Local Abbreviation is_normal s := (controlFlowState s = ControlFlowState.Default).

(** ** Scopes that do not matter *)

(** The functions an expression calls, other than builtins. *)
Fixpoint calls (e : Expression) : list YulString :=
  match e with
  | FunctionCall f arguments =>
      match builtin d f with Some _ => [] | None => [f] end ++
      (fix all (l : list Expression) := match l with [] => [] | a :: l => calls a ++ all l end) arguments
  | _ => []
  end.

Lemma evaluateMulti_scope n h l v e s :
  (forall f, In f (calls e) -> h !! f = None) -> evalMulti n (h :: l) v e s = evalMulti n l v e s.
Proof using.
  revert s. induction e as [f args IH|x|lit] using Expression_nested_ind; intros s Hc; [|done|done]. cbn [calls] in Hc.
  cbn [evaluateMulti]. apply ybind_ext.
  - assert (forall g, In g ((fix all (l : list Expression) := match l with [] => [] | a :: l => calls a ++ all l end) args) ->
      h !! g = None) as Ha by (intros g Hg; apply Hc, in_or_app; by right).
    clear Hc. generalize 0%nat as i. revert s. induction IH as [|a args He Hargs IH]; intros s i; [done|].
    apply ybind_ext; [apply IH; intros g Hg; apply Ha, in_or_app; by right|]. intros values s1 _. apply ybind_ext; [done|]. intros b s2 _.
    apply ybind_ext; [|done]. destruct b; [done|]. apply ybind_ext; [|done]. apply He. intros g Hg. apply Ha, in_or_app. by left.
  - intros values s1 _. unfold callFunction. destruct (builtin d f); [done|]. cbn [lookupName]. by rewrite (Hc f) by (by left).
Qed.

Lemma evaluate_scope n h l v e s :
  (forall f, In f (calls e) -> h !! f = None) -> eval n (h :: l) v e s = eval n l v e s.
Proof using. intros Hc. unfold evaluate. apply ybind_ext; [by apply evaluateMulti_scope|done]. Qed.

(** A movable expression calls builtins only. *)
Lemma movable_calls e : movable (expressionEffects d e) = true -> calls e = [].
Proof using.
  induction e as [f args IH|x|lit] using Expression_nested_ind; intros Hm; [|done|done]. cbn [expressionEffects calls] in *.
  cbn [effects_add movable] in Hm. apply andb_true_iff in Hm as [Ha Hf]. destruct (builtin d f); [|done]. cbn [app].
  induction IH as [|a args He Hargs IH]; [done|]. cbn [effects_add movable] in Ha. apply andb_true_iff in Ha as [Ha He'].
  by rewrite He, IH.
Qed.

(** ** The control flow after a loop *)

(** After its iterations a loop goes on, but for a [leave]. *)
Definition settled (m : Y Variables) : Y Variables :=
  v <-- m ;;
  f <-- ymode ;;
  (if bool_decide (f = ControlFlowState.Leave) then yret tt else yset ControlFlowState.Default) ;;;
  yret v.

Lemma settled_bind {A} (m : Y A) (f : A -> Y Variables) s : settled (ybind m f) s = ybind m (fun a => settled (f a)) s.
Proof using. unfold settled, ybind. by destruct (m s). Qed.

Lemma settled_ext m m' s : m s = m' s -> settled m s = settled m' s.
Proof using. unfold settled, ybind. by intros ->. Qed.

Lemma yset_normal s : is_normal s -> yset ControlFlowState.Default s = Ran tt s.
Proof using. destruct s as [m w]. cbn. by intros ->. Qed.

(** What a loop does after its body. *)
Definition next (n : nat) (post : list Statement) (l : list Scope) (again : Variables -> Y Variables) (v : Variables) : Y Variables :=
  m <-- ymode ;;
  if bool_decide (m = ControlFlowState.Break) || bool_decide (m = ControlFlowState.Leave) then yret v
  else
    yset ControlFlowState.Default ;;;
    v <-- block (exec n) post l v ;;
    m <-- ymode ;;
    if bool_decide (m = ControlFlowState.Leave) then yret v else again v.

Lemma iterate_step n e post b k l v s :
  iterations n e post b (S k) l v s =
  ybind (eval n l v e) (fun c =>
    if c =? 0 then yret v
    else ybind (yset ControlFlowState.Default) (fun _ => ybind (block (exec n) b l v) (next n post l (iterations n e post b k l)))) s.
Proof using. done. Qed.

Lemma forallb_keeps_calm b : Forall (keeps_calm d keccak256) b.
Proof using. apply Forall_true, statement_calm. Qed.

Lemma next_ext n post l again again' v s :
  forallb calm post = true -> (forall v s, is_normal s -> settled (again v) s = settled (again' v) s) ->
  settled (next n post l again v) s = settled (next n post l again' v) s.
Proof using.
  intros Hc Ha. unfold next. rewrite !settled_bind. apply ybind_ext; [done|]. intros m s1 _.
  destruct (bool_decide _ || bool_decide _); [done|]. rewrite !settled_bind. apply ybind_ext; [done|]. intros [] s2 [= <-].
  rewrite !settled_bind. apply ybind_ext; [done|]. intros v1 s3 H3. rewrite !settled_bind.
  apply ybind_ext; [done|]. intros m' s4 [= <- <-].
  destruct (bool_decide_reflect (controlFlowState s3 = ControlFlowState.Leave)) as [|Hl]; [done|]. apply Ha.
  apply (block_calm d keccak256 post (forallb_keeps_calm post) Hc) in H3; [|done]. by destruct H3.
Qed.

(** Loops whose iterations agree. *)
Lemma loop_settled n e1 b1 e2 b2 post pre k h l v s :
  forallb calm pre = true -> is_normal s ->
  (forall l v s, is_normal s -> settled (iterations n e1 post b1 k l v) s = settled (iterations n e2 post b2 k l v) s) ->
  loop d keccak256 (call d keccak256 n) (exec n) e1 post b1 pre k (h :: l) v s =
  loop d keccak256 (call d keccak256 n) (exec n) e2 post b2 pre k (h :: l) v s.
Proof using.
  intros Hc Hs Hi. unfold loop. apply ybind_ext; [done|]. intros r s1 H1. apply ybind_ext; [done|]. intros m s2 [= <- <-].
  destruct (bool_decide_reflect (controlFlowState s1 = ControlFlowState.Leave)) as [|Hl]; [done|].
  rewrite initialise_calm in H1 by done. apply calm_sequence in H1 as [Hn|]; [|done..].
  specialize (Hi (fst r :: h :: l) (snd r) s1 Hn). unfold settled, ybind in Hi. unfold ybind.
  destruct (iterations n e1 post b1 k _ _ s1) as [v1 t1|e1' t1|], (iterations n e2 post b2 k _ _ s1) as [v2 t2|e2' t2|];
    unfold ymode, yset, yret in *; repeat case_bool_decide; by inversion Hi.
Qed.

Lemma equiv_iterations pre post e1 b1 e2 b2 :
  forallb calm pre = true ->
  (forall n k l v s, is_normal s -> settled (iterations n e1 post b1 k l v) s = settled (iterations n e2 post b2 k l v) s) ->
  equiv [ForLoop pre e1 post b1] [ForLoop pre e2 post b2].
Proof using.
  intros Hc Hi. apply equiv_same; [|done]. intros n h l v s Hs. rewrite !sequence_single. cbn [execute].
  apply ybind_ext; [|done]. apply loop_settled; [done..|]. intros. by apply Hi.
Qed.

(** ** The condition in the body *)

(** [t] says in the body when to leave the loop, [e] outside when to stay. *)
Definition opposite (n : nat) (rest : list Statement) (t e : Expression) : Prop :=
  forall l v s, is_normal s ->
    ybind (eval n (registered rest ∅ :: l) v t) (fun x => yret (x =? 0)) s =
    ybind (eval n l v e) (fun y => yret (negb (y =? 0))) s.

(** The body of the loop, with the condition first. *)
Lemma block_condition n t e brk rest l v s :
  opposite n rest t e -> is_normal s ->
  block (exec n) (If t (Break :: brk) :: rest) l v s =
  ybind (eval n l v e) (fun c =>
    if c =? 0 then ybind (yset ControlFlowState.Break) (fun _ => yret v) else block (exec n) rest l v) s.
Proof using.
  intros Ho Hs. specialize (Ho l v s Hs). unfold block at 1. cbn [sequence registered execute]. rewrite !ybind_assoc.
  destruct (eval n (registered rest ∅ :: l) v t s) as [x s1|x s1|] eqn:Ex, (eval n l v e s) as [y s2|y s2|] eqn:Ey;
    unfold ybind, yret in Ho; rewrite Ex, Ey in Ho; try done.
  - injection Ho as Hx <-. rewrite (ybind_is_ran _ _ _ _ _ Ex), (ybind_is_ran _ _ _ _ _ Ey), Hx. destruct (y =? 0); cbn [negb].
    + unfold block at 1. cbn [sequence registered execute]. unfold ybind, yset, yret, ymode. cbn [fst snd controlFlowState].
      rewrite !bool_decide_eq_false_2 by done. cbn [fst snd]. by rewrite !leaveScope_registered.
    + unfold ybind at 1 2, yret at 1, ymode. unfold ybind at 1. rewrite bool_decide_eq_true_2 by (by eapply evaluate_normal). done.
  - injection Ho as -> ->. by rewrite (ybind_is_threw _ _ _ _ _ Ex), (ybind_is_threw _ _ _ _ _ Ey).
  - by rewrite (ybind_is_unfinished _ _ _ Ex), (ybind_is_unfinished _ _ _ Ey).
Qed.

Lemma iterations_condition n e1 e2 t brk rest post :
  (forall l v s, exists y, y <> 0 /\ eval n l v e1 s = Ran y s) -> opposite n rest t e2 -> forallb calm post = true ->
  forall k l v s, is_normal s ->
    settled (iterations n e1 post (If t (Break :: brk) :: rest) k l v) s = settled (iterations n e2 post rest k l v) s.
Proof using.
  intros H1 Ho Hc k. induction k as [|k IH]; intros l v s Hs; [done|].
  transitivity (settled (ybind (eval n l v e2) (fun c =>
      if c =? 0 then ybind (yset ControlFlowState.Break) (fun _ => yret v)
      else ybind (block (exec n) rest l v) (next n post l (iterations n e1 post (If t (Break :: brk) :: rest) k l)))) s).
  - apply settled_ext. rewrite iterate_step. destruct (H1 l v s) as (y & Hy%Z.eqb_neq & Ey).
    rewrite (ybind_is_ran _ _ _ _ _ Ey), Hy, (ybind_is_ran _ _ _ _ _ (yset_normal s Hs)).
    rewrite (ybind_ext _ _ _ _ s (block_condition n t e2 brk rest l v s Ho Hs) (fun _ _ _ => eq_refl)), ybind_assoc.
    apply ybind_ext; [done|]. intros c s1 _. by destruct (c =? 0).
  - rewrite (settled_ext _ _ s (iterate_step n e2 post rest k l v s)), !settled_bind. apply ybind_ext; [done|].
    intros c s1 Hs1%evaluate_normal; [|done]. destruct (c =? 0); [by destruct s1 as [m w]; cbn in Hs1; subst m|].
    rewrite !settled_bind, (ybind_is_ran _ _ _ _ _ (yset_normal s1 Hs1)), settled_bind. apply ybind_ext; [done|].
    intros v2 s2 _. apply next_ext; [done|]. intros. by apply IH.
Qed.

(** The functions the condition of a loop calls are not defined in its body. *)
Definition conditionVisible (s : Statement) : bool :=
  match s with
  | ForLoop _ e _ b => forallb (fun f => negb (existsb (String.eqb f) (definitions b))) (calls e)
  | _ => true
  end.

Lemma conditionVisible_none pre e post b f :
  conditionVisible (ForLoop pre e post b) = true -> In f (calls e) -> registered b ∅ !! f = None.
Proof using.
  intros Hc Hf. cbn [conditionVisible] in Hc. rewrite forallb_forall in Hc. apply Hc, negb_true_iff in Hf.
  apply registered_none. split; [apply lookup_empty|]. intros Hin.
  rewrite <- not_true_iff_false in Hf. apply Hf, existsb_exists. exists f. split; [done|]. apply String.eqb_refl.
Qed.

Lemma everywhere_all p l : forallb (everywhere p) l = true -> Forall (fun s => everywhere p s = true) l.
Proof using. intros Hl. apply (Forall_holds (everywhere p)); [|done]. by apply Forall_true. Qed.

Section Lawful.
Context `{!Lawful d}.

Lemma literal_evaluates l y : valueOfLiteral l = Some y -> forall n scopes v s, eval n scopes v (LiteralExpression l) s = Ran y s.
Proof using. intros Hl n scopes v s. unfold evaluate. cbn [evaluateMulti]. unfold yoption. by rewrite Hl. Qed.

Lemma true_evaluates n scopes v s : eval n scopes v (trueLiteral d) s = Ran 1 s.
Proof using. apply literal_evaluates. vm_compute. reflexivity. Qed.

(** [iszero(e)] in the body is the opposite of [e]. *)
Lemma opposite_negation n f rest e :
  booleanNegationFunction d = Some f -> (forall g, In g (calls e) -> registered rest ∅ !! g = None) ->
  opposite n rest (FunctionCall (builtin_name f) [e]) e.
Proof using Lawful0.
  intros Hf Hc l v s Hs.
  rewrite (ybind_ext _ (ybind (eval n (registered rest ∅ :: l) v e) (fun x => yret (bool_word (x =? 0)))) _ (fun x => yret (x =? 0)) s
    (evaluate_negation d keccak256 (call d keccak256 n) f e (registered rest ∅ :: l) v s Hf) (fun _ _ _ => eq_refl)), ybind_assoc.
  apply ybind_ext; [by apply evaluate_scope|]. intros x s1 _. unfold ybind, yret. by destruct (x =? 0).
Qed.

(** [e] in the body is the opposite of [iszero(e)]. *)
Lemma negation_opposite n f rest e :
  booleanNegationFunction d = Some f -> (forall g, In g (calls e) -> registered rest ∅ !! g = None) ->
  opposite n rest e (FunctionCall (builtin_name f) [e]).
Proof using Lawful0.
  intros Hf Hc l v s Hs. symmetry.
  rewrite (ybind_ext _ (ybind (eval n l v e) (fun x => yret (bool_word (x =? 0)))) _ (fun y => yret (negb (y =? 0))) s
    (evaluate_negation d keccak256 (call d keccak256 n) f e l v s Hf) (fun _ _ _ => eq_refl)), ybind_assoc.
  symmetry. apply ybind_ext; [by apply evaluate_scope|]. intros x s1 _. unfold ybind, yret. by destruct (x =? 0).
Qed.

(** ** ForLoopConditionIntoBody *)

Lemma intoBody_definitions l : definitions (map (intoBody d) l) = definitions l.
Proof using. induction l as [|s l IH]; [done|]. unfold definitions in *. cbn [map flat_map]. rewrite IH. by destruct s. Qed.

Lemma intoBody_calm s : calm s = true -> calm (intoBody d s) = true.
Proof using.
  assert (forall b, Forall (fun s => calm s = true -> calm (intoBody d s) = true) b ->
    forallb calm b = true -> forallb calm (map (intoBody d) b) = true) as Hall.
  { intros b Hb Hc. apply forallb_map_of. exact (Forall_holds _ _ _ Hb Hc). }
  induction s as [e|x e|x e|f p r b Hb|e b Hb|e c Hc|pre e post b Hpre Hpost Hb| | | |b Hb] using Statement_nested_ind;
    intros Hs; cbn [intoBody calm] in *; try done; try by apply Hall.
  induction Hc as [|[l b] c Hb _ IH]; cbn [map fst snd forallb] in *; [done|]. apply andb_true_iff in Hs as [Hsb Hs].
  by rewrite (Hall b Hb Hsb), (IH Hs).
Qed.

Lemma map_intoBody_calm b : forallb calm b = true -> forallb calm (map (intoBody d) b) = true.
Proof using. intros Hc. apply forallb_map_of, (Forall_holds calm); [|done]. apply Forall_true, intoBody_calm. Qed.

(** The step on one loop. *)
Lemma conditionIntoBody_equiv pre e post b r :
  conditionVisible (ForLoop pre e post b) = true -> conditionIntoBody d e b = r ->
  forallb calm pre = true -> forallb calm post = true -> equiv [ForLoop pre e post b] [ForLoop pre (fst r) post (snd r)].
Proof using Lawful0.
  intros Hv <- Hc Hcp. unfold conditionIntoBody. destruct (booleanNegationFunction d) as [f|] eqn:Hf; [|reflexivity].
  destruct e as [g args|x|l]; [|reflexivity..]. cbn [fst snd]. symmetry. apply equiv_iterations; [done|]. intros n. 
  apply (iterations_condition n _ _ _ [] b post); [|by apply opposite_negation; [|intros g' Hg; eapply conditionVisible_none]|done].
  intros l v s. exists 1. split; [done|]. apply true_evaluates.
Qed.

Definition into_ok (s : Statement) : Prop :=
  regular s = true -> everywhere conditionVisible s = true -> equiv [s] [intoBody d s].

Lemma into_all b :
  Forall into_ok b -> forallb regular b = true -> forallb (everywhere conditionVisible) b = true -> equiv b (map (intoBody d) b).
Proof using.
  intros Hb Hr Hv. apply equiv_map. apply (Forall_holds (everywhere conditionVisible)); [|done].
  apply (Forall_holds regular); [|done]. exact Hb.
Qed.

Lemma intoBody_statement s : into_ok s.
Proof using Lawful0.
  induction s as [e|x e|x e|f p r b Hb|e b Hb|e c Hc|pre e post b Hpre Hpost Hb| | | |b Hb] using Statement_nested_ind;
    intros Hr Hv; cbn [intoBody regular everywhere] in *; try reflexivity; apply andb_true_iff in Hv as [Hv Hvs].
  - apply equiv_function. by apply into_all.
  - apply equiv_if. by apply into_all.
  - apply equiv_switch. induction Hc as [|[l b] c Hb _ IH]; cbn [map fst snd forallb] in *; [constructor|].
    apply andb_true_iff in Hr as [Hrb Hr]. apply andb_true_iff in Hvs as [Hvb Hvs]. constructor; [|by apply IH].
    split; [done|]. by apply into_all.
  - rewrite !andb_true_iff in Hr. destruct Hr as ((((Hcp & Hcq) & Hrp) & Hrq) & Hrb).
    rewrite !andb_true_iff in Hvs. destruct Hvs as ((Hvp & Hvq) & Hvb).
    transitivity [ForLoop (map (intoBody d) pre) e (map (intoBody d) post) (map (intoBody d) b)].
    + apply equiv_for; try done; try by apply into_all. by apply map_intoBody_calm.
    + apply conditionIntoBody_equiv; [|done|by apply map_intoBody_calm..]. cbn [conditionVisible] in *. by rewrite intoBody_definitions.
  - apply equiv_block. by apply into_all.
Qed.

Lemma ForLoopConditionIntoBody_equiv _ast :
  forallb regular _ast = true -> forallb (everywhere conditionVisible) _ast = true -> equiv _ast (ForLoopConditionIntoBody d _ast).
Proof using Lawful0. apply into_all, Forall_true, intoBody_statement. Qed.

(** ** ForLoopConditionOutOfBody *)

(** A negation in a condition has one argument. *)
Definition negationUnary (s : Statement) : bool :=
  match s, booleanNegationFunction d with
  | If (FunctionCall f arguments) _, Some negation =>
      if String.eqb f (builtin_name negation) then Nat.eqb (length arguments) 1 else true
  | _, _ => true
  end.

Lemma negated_opposite n f rest c c' brk :
  booleanNegationFunction d = Some f -> movable (expressionEffects d c) = true -> negationUnary (If c brk) = true ->
  negated f c = Some c' -> opposite n rest c c'.
Proof using Lawful0.
  intros Hf Hm Hu Hc. apply movable_calls in Hm.
  assert (opposite n rest c (FunctionCall (builtin_name f) [c])) as Ho by (apply negation_opposite; [done|]; by rewrite Hm).
  destruct c as [g args|x|l]; [|by injection Hc as <-..]. unfold negated in Hc. unfold negationUnary in Hu. rewrite Hf in Hu.
  destruct (String.eqb_spec g (builtin_name f)) as [->|]; [|by injection Hc as <-].
  destruct args as [|a [|]]; try done. injection Hc as <-. apply opposite_negation; [done|]. intros g Hg.
  cbn [calls] in Hm. apply app_eq_nil in Hm as [_ Hm]. rewrite app_nil_r in Hm. by rewrite Hm in Hg.
Qed.

(** The step on one loop. *)
Lemma conditionOutOfBody_equiv pre e post b r :
  conditionOutOfBody d e b = Some r -> match b with s :: _ => negationUnary s = true | [] => True end ->
  forallb calm pre = true -> forallb calm post = true -> equiv [ForLoop pre e post b] [ForLoop pre (fst r) post (snd r)].
Proof using Lawful0.
  intros E Hu Hc Hcp. unfold conditionOutOfBody in E.
  destruct (booleanNegationFunction d) as [f|] eqn:Hf; [|by injection E as <-].
  destruct e as [g args|x|l]; [by injection E as <-..|]. destruct (valueOfLiteral l) as [y|] eqn:Hl; [|done].
  cbn [mbind option_bind] in E. destruct (Z.eqb_spec y 0) as [|Hy]; [by injection E as <-|].
  destruct b as [|[| | | |c [|[| | | | | | |  | | |] brk]| | | | | |] rest]; try by injection E as <-.
  destruct (movable (expressionEffects d c)) eqn:Hm; [|by injection E as <-].
  destruct (negated f c) as [c'|] eqn:Hn; [|done]. injection E as <-. cbn [fst snd].
  apply equiv_iterations; [done|]. intros n. apply (iterations_condition n _ _ _ brk rest post); [|by eapply negated_opposite|done].
  intros k v s. exists y. split; [done|]. by apply literal_evaluates.
Qed.

Definition out_keeps (s : Statement) : Prop := forall s', outOfBody d s = Some s' -> calm s = true -> calm s' = true.

Lemma outOfBody_calm s : out_keeps s.
Proof using.
  induction s as [e|x e|x e|f p r b Hb|e b Hb|e c Hc|pre e post b Hpre Hpost Hb| | | |b Hb] using Statement_nested_ind;
    intros s' E Hs; cbn [outOfBody] in E; cbn [calm] in Hs; try by injection E as <-.
  - destruct (traverse _ b); [|done]. by injection E as <-.
  - destruct (traverse _ b) eqn:Eb; [|done]. injection E as <-. cbn [calm]. by eapply traverse_calm.
  - destruct (traverse _ c) as [c'|] eqn:Ec; [|done]. injection E as <-. cbn [calm]. revert c' Ec.
    induction Hc as [|[l b] c Hb _ IH]; intros c' Ec; cbn [traverse fst snd forallb] in *; [by injection Ec as <-|].
    apply andb_true_iff in Hs as [Hsb Hs]. destruct (traverse (outOfBody d) b) as [b'|] eqn:Eb; [|done]. cbn [mbind option_bind] in Ec.
    destruct (traverse _ c) as [c2|]; [|done]. injection Ec as <-. cbn [forallb snd]. rewrite (IH Hs c2) by done.
    by rewrite (traverse_calm _ _ _ Hb Eb Hsb).
  - destruct (traverse _ pre); [|done]. cbn [mbind option_bind] in E. destruct (traverse _ post); [|done]. cbn [mbind option_bind] in E.
    destruct (traverse _ b); [|done]. cbn [mbind option_bind] in E. destruct (conditionOutOfBody d e _); [|done]. by injection E as <-.
  - destruct (traverse _ b) eqn:Eb; [|done]. injection E as <-. cbn [calm]. by eapply traverse_calm.
Qed.

Lemma traverse_out_calm b b' : traverse (outOfBody d) b = Some b' -> forallb calm b = true -> forallb calm b' = true.
Proof using. apply traverse_calm, Forall_true, outOfBody_calm. Qed.

Lemma outOfBody_unary s s' : outOfBody d s = Some s' -> negationUnary s = true -> negationUnary s' = true.
Proof using.
  intros E Hu. destruct s; cbn [outOfBody] in E; try by injection E as <-.
  - destruct (traverse _ _); [|done]. by injection E as <-.
  - destruct (traverse _ _); [|done]. by injection E as <-.
  - destruct (traverse _ _); [|done]. by injection E as <-.
  - destruct (traverse _ pre); [|done]. cbn [mbind option_bind] in E. destruct (traverse _ post); [|done]. cbn [mbind option_bind] in E.
    destruct (traverse _ body); [|done]. cbn [mbind option_bind] in E. destruct (conditionOutOfBody d _ _); [|done]. by injection E as <-.
  - destruct (traverse _ _); [|done]. by injection E as <-.
Qed.

Lemma traverse_unary b b' :
  traverse (outOfBody d) b = Some b' -> forallb (everywhere negationUnary) b = true ->
  match b' with s :: _ => negationUnary s = true | [] => True end.
Proof using.
  destruct b as [|s b]; intros E Hu; cbn [traverse forallb] in *; [by injection E as <-|].
  destruct (outOfBody d s) as [s'|] eqn:Es; [|done]. cbn [mbind option_bind] in E. destruct (traverse _ b); [|done].
  injection E as <-. apply andb_true_iff in Hu as [Hu _]. apply (outOfBody_unary s s' Es).
  destruct s; cbn [everywhere] in Hu; by apply andb_true_iff in Hu as [Hu _].
Qed.

Definition out_ok (s : Statement) : Prop :=
  everywhere negationUnary s = true -> regular s = true -> forall s', outOfBody d s = Some s' -> equiv [s] [s'].

Lemma out_all b b' :
  Forall out_ok b -> traverse (outOfBody d) b = Some b' -> forallb (everywhere negationUnary) b = true -> forallb regular b = true ->
  equiv b b'.
Proof using. intros Hb E Hu. apply (traverse_equiv d keccak256 (outOfBody d)); [|done]. exact (Forall_holds (everywhere negationUnary) _ _ Hb Hu). Qed.

Lemma outOfBody_statement s : out_ok s.
Proof using Lawful0.
  induction s as [e|x e|x e|f p r b Hb|e b Hb|e c Hc|pre e post b Hpre Hpost Hb| | | |b Hb] using Statement_nested_ind;
    intros Hu Hr s' E; cbn [outOfBody] in E; cbn [regular] in Hr; cbn [everywhere] in Hu; try by injection E as <-.
  all: apply andb_true_iff in Hu as [_ Hu].
  - destruct (traverse _ b) eqn:Eb; [|done]. injection E as <-. apply equiv_function. by apply out_all.
  - destruct (traverse _ b) eqn:Eb; [|done]. injection E as <-. apply equiv_if. by apply out_all.
  - destruct (traverse _ c) as [c'|] eqn:Ec; [|done]. injection E as <-. apply equiv_switch. revert c' Ec.
    induction Hc as [|[l b] c Hb _ IH]; intros c' Ec; cbn [traverse fst snd forallb] in *; [by injection Ec as <-|].
    apply andb_true_iff in Hr as [Hrb Hr]. apply andb_true_iff in Hu as [Hub Hu].
    destruct (traverse (outOfBody d) b) as [b'|] eqn:Eb; [|done]. cbn [mbind option_bind] in Ec.
    destruct (traverse _ c) as [c2|]; [|done]. injection Ec as <-. constructor; [|by apply IH]. split; [done|]. by apply out_all.
  - destruct (traverse _ pre) as [pre'|] eqn:E1; [|done]. cbn [mbind option_bind] in E.
    destruct (traverse _ post) as [post'|] eqn:E2; [|done]. cbn [mbind option_bind] in E.
    destruct (traverse _ b) as [b'|] eqn:E3; [|done]. cbn [mbind option_bind] in E.
    destruct (conditionOutOfBody d e b') as [q|] eqn:Eq; [|done]. injection E as <-.
    rewrite !andb_true_iff in Hr. destruct Hr as ((((Hcp & Hcq) & Hrp) & Hrq) & Hrb).
    rewrite !andb_true_iff in Hu. destruct Hu as ((Hup & Huq) & Hub).
    apply (traverse_out_calm pre) in E1 as Hcp'; [|done]. apply (traverse_out_calm post) in E2 as Hcq'; [|done].
    transitivity [ForLoop pre' e post' b']; [apply equiv_for; try done; by apply out_all|].
    apply conditionOutOfBody_equiv; [done| |done..]. by eapply traverse_unary.
  - destruct (traverse _ b) eqn:Eb; [|done]. injection E as <-. apply equiv_block. by apply out_all.
Qed.

Lemma ForLoopConditionOutOfBody_equiv _ast ast' :
  forallb regular _ast = true -> forallb (everywhere negationUnary) _ast = true -> ForLoopConditionOutOfBody d _ast = Some ast' ->
  equiv _ast ast'.
Proof using Lawful0. intros Hr Hu E. apply out_all; [|done..]. apply Forall_true, outOfBody_statement. Qed.
End Lawful.
End Loops.
