(* ===== verification/YulFlow.v ===== *)
(** * YulFlow: the control flow simplifier of the Yul optimiser

    ControlFlowSimplifier: an [if] without a body, a [switch] with no case or one, a loop that
    runs at most once, and a [leave] at the end of a function.  The cases of a [switch] are as
    the analysis of Yul wants them: at least one, the default last, and values that differ. *)

From stdpp Require Import strings.
From S2P Require Import Prelude U256 CommonData Instruction EVMVersion SemanticInformation Interpreter Yul YulInterpreter YulEquivalence YulOptimiser YulDialects YulSound YulLoops.

Local Open Scope yul_scope.

(** ** The cases of a switch *)

Fixpoint casesValid (seen : list Z) (c : list (option Literal * list Statement)) : bool :=
  match c with
  | [] => true
  | (None, _) :: c => match c with [] => true | _ => false end
  | (Some l, _) :: c =>
      match valueOfLiteral l with
      | Some y => negb (existsb (Z.eqb y) seen) && casesValid (y :: seen) c
      | None => false
      end
  end.

Definition switchValid (s : Statement) : bool :=
  match s with
  | Switch _ c => negb (Nat.eqb (length c) 0) && casesValid [] c
  | _ => true
  end.

(** ** Jumps out of a statement *)

Definition total {A} (f : A -> nat) (l : list A) : nat := fold_right (fun a n => (f a + n)%nat) 0%nat l.

Lemma total_cons {A} (f : A -> nat) a l : total f (a :: l) = (f a + total f l)%nat.
Proof. done. Qed.

Lemma total_app {A} (f : A -> nat) l k : total f (l ++ k) = (total f l + total f k)%nat.
Proof. unfold total. induction l as [|a l IH]; [done|]. cbn [app fold_right]. rewrite IH. lia. Qed.

(** The number of [break] and [continue] that are not in a loop inside. *)
Fixpoint jumps (s : Statement) : nat :=
  match s with
  | Break | Continue => 1
  | FunctionDefinition _ _ _ b | If _ b | Block b => total jumps b
  | Switch _ c => total (fun p => total jumps (snd p)) c
  | _ => 0
  end.

Lemma jumps_calm s : jumps s = 0%nat -> calm s = true.
Proof.
  assert (forall b, Forall (fun s => jumps s = 0%nat -> calm s = true) b -> total jumps b = 0%nat -> forallb calm b = true) as Hall.
  { induction 1 as [|a b Ha _ IH]; intros Hj; [done|]. change (jumps a + total jumps b = 0)%nat in Hj. cbn [forallb].
    by rewrite Ha, IH by lia. }
  induction s as [e|x e|x e|f p r b Hb|e b Hb|e c Hc|pre e post b Hpre Hpost Hb| | | |b Hb] using Statement_nested_ind;
    intros Hj; cbn [jumps calm] in *; try done; try by apply Hall.
  induction Hc as [|[l b] c Hb _ IH]; [done|]. cbn [snd forallb] in *.
  change (total jumps b + total (fun p : option Literal * list Statement => total jumps (snd p)) c = 0)%nat in Hj.
  rewrite (Hall b Hb), IH by lia. done.
Qed.

Lemma total_calm b : total jumps b = 0%nat -> forallb calm b = true.
Proof.
  induction b as [|s b IH]; intros Hj; [done|]. change (jumps s + total jumps b = 0)%nat in Hj. cbn [forallb].
  by rewrite jumps_calm, IH by lia.
Qed.

Section Flow.
Context (d : Dialect) (keccak256 : list Z -> Z).

Local Abbreviation exec n := (execute d keccak256 (call d keccak256 n) (S n)).
Local Abbreviation eval n := (evaluate d keccak256 (call d keccak256 n)).
Local Abbreviation iterations n e post b k := (iterate d keccak256 (call d keccak256 n) (exec n) e post b k).
Local Abbreviation equiv := (equiv d keccak256).
Local Abbreviation is_normal s := (controlFlowState s = ControlFlowState.Default).

Lemma block_nil n l v s : block (exec n) [] l v s = Ran v s.
Proof using. unfold block. cbn [registered sequence]. unfold ybind, yret. cbn [fst snd]. by rewrite (leaveScope_registered []). Qed.

(** ** Loops that run at most once *)

(** What is left of the body of such a loop. *)
Definition once (body body' : list Statement) : Prop :=
  forallb calm body' = true /\ (body = body' ++ [Break] \/ (body = body' /\ endsFlow d body = true)).

Lemma calm_settled n body l v s r s' :
  forallb calm body = true -> is_normal s -> block (exec n) body l v s = Ran r s' -> is_normal s' \/ controlFlowState s' = ControlFlowState.Leave.
Proof using. intros Hc. by apply (block_calm d keccak256 body (forallb_keeps_calm d keccak256 body) Hc). Qed.

Lemma settled_ret v s : is_normal s \/ controlFlowState s = ControlFlowState.Leave -> settled (yret v) s = Ran v s.
Proof using. destruct s as [m w]. cbn. by intros [->| ->]. Qed.

Lemma block_once n post body body' l again v s :
  once body body' -> is_normal s ->
  settled (ybind (block (exec n) body l v) (next d keccak256 n post l again)) s = block (exec n) body' l v s.
Proof using.
  intros [Hc Hb] Hs. rewrite settled_bind. destruct Hb as [->|[-> He]].
  - unfold block. rewrite registered_app. cbn [registered].
    rewrite ybind_assoc, (ybind_ext _ _ _ _ s (sequence_app d keccak256 n body' [Break] _ l v s Hs) (fun _ _ _ => eq_refl)), ybind_assoc.
    apply ybind_ext; [done|]. intros [h1 v1] s1 H1. apply (calm_sequence d keccak256 n body') in H1; [|done..]. unfold after. cbn [fst snd].
    destruct s1 as [m w]. unfold calm_mode in H1. cbn in H1. by destruct H1 as [->| ->].
  - unfold ybind at 1. destruct (block (exec n) body' l v s) as [v1 s1| |] eqn:E; [|done..].
    pose proof (block_ends d keccak256 n body' l v s v1 s1 He E) as Hn. apply calm_settled in E as [|Hl]; [done| |done..].
    destruct s1 as [m w]. cbn in Hl. by subst m.
Qed.

Lemma loop_nil n e post body k l v s :
  is_normal s ->
  loop d keccak256 (call d keccak256 n) (exec n) e post body [] k l v s = settled (iterations n e post body k (∅ :: l) v) s.
Proof using.
  intros Hs. unfold loop. rewrite (ybind_is_ran _ _ s (∅, v) s) by done. rewrite (ybind_is_ran _ _ s (controlFlowState s) s) by done.
  rewrite Hs, bool_decide_eq_false_2 by done. unfold settled. apply ybind_ext; [done|]. intros v1 s1 _.
  apply ybind_ext; [done|]. intros m s2 _. apply ybind_ext; [done|]. intros [] s3 _. cbn [fst].
  by rewrite (leaveScope_registered []).
Qed.

Lemma equiv_once e post body body' : once body body' -> equiv [ForLoop [] e post body] [If e body'].
Proof using.
  intros Hb. apply equiv_same; [|done]. intros n h ls v s Hs. rewrite !sequence_single. cbn [execute].
  rewrite (ybind_ext _ _ _ _ s (loop_nil n e post body (S n) (h :: ls) v s Hs) (fun _ _ _ => eq_refl)).
  rewrite (ybind_ext _ _ _ _ s (settled_ext _ _ s (iterate_step d keccak256 n e post body n (∅ :: h :: ls) v s)) (fun _ _ _ => eq_refl)).
  rewrite (ybind_ext _ _ _ _ s (settled_bind _ _ s) (fun _ _ _ => eq_refl)), ybind_assoc.
  apply ybind_ext; [apply evaluate_scope; intros; apply lookup_empty|]. intros c s1 Hs1%evaluate_normal; [|done].
  destruct (c =? 0).
  - rewrite (ybind_is_ran _ _ _ _ _ (settled_ret v s1 (or_introl Hs1))). done.
  - apply ybind_ext; [|done]. rewrite settled_bind, (ybind_is_ran _ _ _ _ _ (yset_normal s1 Hs1)).
    rewrite (block_once n post body body') by done. apply (block_rel d keccak256 false); [apply body_refl|by right|].
    apply scopes_left. apply scopes_refl.
Qed.

(** ** [leave] at the end of a function *)

Lemma last_removelast {A} (l : list A) x : last l = Some x -> l = removelast l ++ [x].
Proof using.
  induction l as [|a l IH]; [done|]. rewrite last_cons. destruct l as [|b l]; [by intros [= ->]|]. intros Hl.
  change (removelast (a :: b :: l)) with (a :: removelast (b :: l)). cbn [app]. f_equal. apply IH.
  destruct (last (b :: l)) as [y|] eqn:E; [done|].
  rewrite last_cons in E. by destruct (last l).
Qed.

Lemma function_leave p r b n : fun_rel d keccak256 n (mkFunction p r (b ++ [Leave])) (mkFunction p r b).
Proof using.
  induction n as [|n IH]; [done|]. split; [exact IH|]. intros l l' values s Hl.
  transitivity (call d keccak256 (S n) l' (mkFunction p r (b ++ [Leave])) values s);
    [by apply (fun_refl d keccak256 (S n) (mkFunction p r (b ++ [Leave])))|].
  cbn [call function_parameters function_returns function_body]. apply ybind_ext; [done|]. intros [] s1 _.
  apply ybind_ext; [done|]. intros [] s2 [= <-]. unfold block. rewrite registered_app. cbn [registered]. rewrite !ybind_assoc.
  rewrite (ybind_ext _ _ _ _ _ (sequence_app d keccak256 n b [Leave] (registered b ∅) l' _ (normal (machine s1)) eq_refl) (fun _ _ _ => eq_refl)),
    ybind_assoc.
  apply ybind_ext; [done|]. intros [h1 v1] s3 _. unfold after, ybind at 1 4.
  by destruct (bool_decide (is_normal s3)).
Qed.

Lemma equiv_leave f p r b b' : equiv b b' -> equiv [FunctionDefinition f p r b] [FunctionDefinition f p r (removeLeave b')].
Proof using.
  intros Hb. transitivity [FunctionDefinition f p r b']; [by apply equiv_function|]. unfold removeLeave.
  destruct (last b') as [[]|] eqn:E; try reflexivity. intros n. split.
  - apply sequence_rel. constructor; [|constructor]. intros h h' l l' v st Hst Hh Hl. by apply out_ret.
  - apply reg_cons; [|apply reg_nil]. split; [done|]. rewrite (last_removelast b' Leave) at 1 by done. apply function_leave.
Qed.

(** ** Conditions and switches *)

Section Lawful.
Context `{!Lawful d}.

(** [pop(e)]. *)
Lemma discard_runs t f e n h ls v s :
  discardFunction d t = Some (Some f) ->
  exec n (makeDiscardCall f e) h ls v s = ybind (eval n (h :: ls) v e) (fun _ => yret (h, v)) s.
Proof using Lawful0.
  intros Hf. unfold makeDiscardCall. cbn [execute].
  rewrite (ybind_ext _ _ _ (fun _ => yret (h, v)) s (evaluate_discard d keccak256 (call d keccak256 n) t f e (h :: ls) v s Hf) (fun _ _ _ => eq_refl)).
  by rewrite ybind_assoc.
Qed.

Lemma simplifyIf_equiv e empty body r :
  (empty = true -> body = []) -> simplifyIf d e empty body = Some r -> equiv [If e body] r.
Proof using Lawful0.
  intros He E. unfold simplifyIf in E. destruct empty; [|by injection E as <-]. rewrite He in * by done.
  destruct (discardFunction d (boolType d)) as [[f|]|] eqn:Hf; [|by injection E as <-|done]. injection E as <-.
  apply equiv_same; [|done]. intros n h ls v s Hs. rewrite !sequence_single, (discard_runs _ _ _ _ _ _ _ _ Hf). cbn [execute].
  apply ybind_ext; [done|]. intros c s1 _. destruct (c =? 0); [done|]. by rewrite (ybind_is_ran _ _ _ _ _ (block_nil n _ v s1)).
Qed.

(** The cases of the step, as those of a switch. *)
Definition cases_of (c : list SimplifiedCase) : list (option Literal * list Statement) := map (fun c => (fst (fst c), snd c)) c.
Definition empty_cases (c : list SimplifiedCase) : Prop := Forall (fun c => snd (fst c) = true -> snd c = []) c.

(** A switch without its empty default. *)
Lemma select_default n c seen x l v s :
  empty_cases c -> casesValid seen (cases_of c) = true ->
  select (exec n) x (cases_of (removeEmptyDefaultFromSwitch c)) l v s = select (exec n) x (cases_of c) l v s.
Proof using.
  intros Hc. revert seen s. induction Hc as [|[[[lit|] b] body] c Hb _ IH]; intros seen s Hv; [done| |];
    cbn [cases_of map fst snd casesValid removeEmptyDefaultFromSwitch List.filter isDefault andb negb] in *.
  - destruct (valueOfLiteral lit) as [y|] eqn:Hl; [|done]. apply andb_true_iff in Hv as [_ Hv]. cbn [map fst snd select].
    apply ybind_ext; [done|]. intros z s1 _. destruct (z =? x); [done|]. by eapply IH.
  - destruct c; [|done]. destruct b; cbn [negb map fst snd List.filter select]; [|done]. rewrite Hb by done.
    by rewrite block_nil.
Qed.

(** No case has a value that is known to be different. *)
Lemma select_none n c seen x l v s :
  existsb isDefault c = false -> existsb (Z.eqb x) seen = true -> casesValid seen (cases_of c) = true ->
  select (exec n) x (cases_of c) l v s = Ran v s.
Proof using.
  revert seen. induction c as [|[[[lit|] b] body] c IH]; intros seen Hd Hx Hv; [done| |done].
  cbn [cases_of map fst snd casesValid existsb isDefault orb] in *. destruct (valueOfLiteral lit) as [y|] eqn:Hl; [|done].
  apply andb_true_iff in Hv as [Hy Hv]. cbn [select]. unfold yoption. rewrite Hl. unfold ybind, yret.
  destruct (Z.eqb_spec y x) as [->|]; [by rewrite Hx in Hy|]. apply (IH (y :: seen)); [done| |done].
  cbn [existsb]. rewrite Hx. apply orb_true_r.
Qed.

(** A switch without a default, without its empty cases. *)
Lemma select_empty n c seen x l v s :
  empty_cases c -> casesValid seen (cases_of c) = true ->
  select (exec n) x (cases_of (removeEmptyCasesFromSwitch c)) l v s = select (exec n) x (cases_of c) l v s.
Proof using.
  intros Hc. unfold removeEmptyCasesFromSwitch. destruct (existsb isDefault c) eqn:Hd; [done|]. revert seen s.
  induction Hc as [|[[[lit|] b] body] c Hb _ IH]; intros seen s Hv; [done| |done].
  cbn [cases_of map fst snd casesValid existsb isDefault orb] in *. destruct (valueOfLiteral lit) as [y|] eqn:Hl; [|done].
  apply andb_true_iff in Hv as [_ Hv]. cbn [List.filter fst snd]. destruct b; cbn [negb map fst snd select].
  - rewrite (ybind_is_ran _ _ s y s) by (unfold yoption; by rewrite Hl). rewrite (IH Hd (y :: seen)) by done.
    destruct (Z.eqb_spec y x) as [->|]; [|done]. rewrite Hb, block_nil by done. apply (select_none n c (x :: seen)); try done.
    cbn [existsb]. by rewrite Z.eqb_refl.
  - apply ybind_ext; [done|]. intros z s1 _. destruct (z =? x); [done|]. by apply (IH Hd (y :: seen)).
Qed.

(** ** Cases that are removed *)

Lemma casesValid_weaken c seen seen' :
  (forall x, existsb (Z.eqb x) seen = true -> existsb (Z.eqb x) seen' = true) -> casesValid seen' c = true -> casesValid seen c = true.
Proof using.
  revert seen seen'. induction c as [|[[lit|] b] c IH]; intros seen seen' Hs Hv; [done| |done]. cbn [casesValid] in *.
  destruct (valueOfLiteral lit) as [y|]; [|done]. apply andb_true_iff in Hv as [Hy Hv]. apply andb_true_iff. split.
  - apply negb_true_iff in Hy. apply negb_true_iff. apply not_true_iff_false. intros Hx%Hs. by rewrite Hx in Hy.
  - apply (IH (y :: seen) (y :: seen')); [|done]. intros x. cbn [existsb]. destruct (x =? y); [done|apply Hs].
Qed.

Lemma casesValid_filter p c seen : casesValid seen (cases_of c) = true -> casesValid seen (cases_of (List.filter p c)) = true.
Proof using.
  revert seen. induction c as [|[[[lit|] b] body] c IH]; intros seen Hv; [done| |]; cbn [cases_of map fst snd casesValid List.filter] in *.
  - destruct (valueOfLiteral lit) as [y|] eqn:Hl; [|done]. apply andb_true_iff in Hv as [Hy Hv].
    destruct (p _); [cbn [map fst snd casesValid]; by rewrite Hl, Hy, IH|].
    apply IH. eapply casesValid_weaken; [|exact Hv]. intros x Hx. cbn [existsb]. rewrite Hx. apply orb_true_r.
  - destruct c; [|done]. by destruct (p _).
Qed.

Lemma empty_filter p c : empty_cases c -> empty_cases (List.filter p c).
Proof using. induction 1 as [|q c Hq _ IH]; [constructor|]. cbn [List.filter]. destruct (p q); [by constructor|done]. Qed.

Lemma jumps_filter p c :
  (forall q, p q = false -> snd (fst q) = true) -> empty_cases c ->
  total (fun q => total jumps (snd q)) (List.filter p c) = total (fun q => total jumps (snd q)) c.
Proof using.
  intros Hp. induction 1 as [|q c Hq _ IH]; [done|]. cbn [List.filter].
  change (total _ (q :: c)) with (total jumps (snd q) + total (fun q : SimplifiedCase => total jumps (snd q)) c)%nat.
  destruct (p q) eqn:E; [exact (f_equal (Nat.add (total jumps (snd q))) IH)|]. rewrite (Hq (Hp q E)). exact IH.
Qed.

(** The cases that are left. *)
Definition remaining (c : list SimplifiedCase) : list SimplifiedCase := removeEmptyCasesFromSwitch (removeEmptyDefaultFromSwitch c).

Lemma remaining_facts c :
  empty_cases c -> casesValid [] (cases_of c) = true ->
  casesValid [] (cases_of (remaining c)) = true /\
  total (fun q => total jumps (snd q)) (remaining c) = total (fun q => total jumps (snd q)) c /\
  forall n x l v s, select (exec n) x (cases_of (remaining c)) l v s = select (exec n) x (cases_of c) l v s.
Proof using.
  intros Hc Hv. unfold remaining.
  assert (empty_cases (removeEmptyDefaultFromSwitch c)) as Hc1 by by apply empty_filter.
  assert (casesValid [] (cases_of (removeEmptyDefaultFromSwitch c)) = true) as Hv1 by by apply casesValid_filter.
  assert (total (fun q => total jumps (snd q)) (removeEmptyDefaultFromSwitch c) = total (fun q => total jumps (snd q)) c) as Hj1.
  { apply jumps_filter; [|done]. intros q Hq%negb_false_iff. by apply andb_true_iff in Hq as [_ Hq]. }
  repeat split.
  - unfold removeEmptyCasesFromSwitch. destruct (existsb isDefault _); [done|]. by apply casesValid_filter.
  - unfold removeEmptyCasesFromSwitch. destruct (existsb isDefault _); [done|]. rewrite jumps_filter; [done| |done].
    by intros q Hq%negb_false_iff.
  - intros n x l v s. rewrite (select_empty n _ []) by done. by apply (select_default n c []).
Qed.

(** The statements a switch is reduced to. *)
Lemma single_case_equiv types e o body r :
  casesValid [] [(o, body)] = true -> reduceSingleCaseSwitch d types e o body = Some (Some r) -> equiv [Switch e [(o, body)]] r.
Proof using Lawful0.
  intros Hv E. unfold reduceSingleCaseSwitch in E. destruct (typeOf d types e) as [t|]; [|done]. cbn [mbind option_bind] in E.
  destruct o as [l|].
  - destruct (equalityFunction d t) as [[f|]|] eqn:Hf; [|done..]. injection E as <-. cbn [casesValid] in Hv.
    destruct (valueOfLiteral l) as [y|] eqn:Hl; [|done]. apply equiv_same; [|done]. intros n h ls v s Hs. rewrite !sequence_single.
    cbn [execute].
    rewrite (ybind_ext _ _ _ (fun c => if c =? 0 then yret (h, v) else _) s
      (evaluate_equality d keccak256 (call d keccak256 n) t f l e (h :: ls) v s Hf) (fun _ _ _ => eq_refl)), ybind_assoc.
    apply ybind_ext; [done|]. intros x s1 _. rewrite Hl. cbn [length select]. unfold yassert, yoption. rewrite Hl.
    cbn [Nat.eqb negb]. unfold ybind, yret. by destruct (y =? x).
  - destruct (discardFunction d t) as [[f|]|] eqn:Hf; [|done..]. injection E as <-.
    apply equiv_same; [|done]. intros n h ls v s Hs. rewrite sequence_single. cbn [sequence].
    rewrite (ybind_ext _ _ _ _ s (discard_runs _ _ _ _ _ _ _ s Hf) (fun _ _ _ => eq_refl)), ybind_assoc. cbn [execute].
    apply ybind_ext; [done|]. intros x s1 Hs1%evaluate_normal; [|done]. cbn [length select]. unfold yassert. cbn [Nat.eqb negb fst snd].
    unfold ybind at 1 3 4, yret at 1 3, ymode at 1. rewrite bool_decide_eq_true_2 by done. rewrite ybind_assoc.
    unfold ybind, ymode, yret. cbn [fst snd]. destruct (block (exec n) body (h :: ls) v s1) as [v2 s2| |]; [|done..].
    by destruct (bool_decide (is_normal s2)).
Qed.

Lemma select_remaining e c :
  empty_cases c -> casesValid [] (cases_of c) = true -> c <> [] -> remaining c <> [] ->
  equiv [Switch e (cases_of c)] [Switch e (cases_of (remaining c))].
Proof using.
  intros He Hv Hc Hr. destruct (remaining_facts c He Hv) as (_ & _ & Hs). apply equiv_same; [|done]. intros n h ls v s Hst.
  rewrite !sequence_single. cbn [execute]. apply ybind_ext; [done|]. intros x s1 _.
  assert (forall c : list SimplifiedCase, c <> [] -> Nat.eqb (length (cases_of c)) 0 = false) as Hl by by intros [].
  rewrite !Hl by done. apply ybind_ext; [done|]. intros [] s2 _. apply ybind_ext; [|done]. by rewrite Hs.
Qed.

Lemma no_case_equiv types e c r :
  empty_cases c -> casesValid [] (cases_of c) = true -> c <> [] -> remaining c = [] -> reduceNoCaseSwitch d types e = Some (Some r) ->
  equiv [Switch e (cases_of c)] r.
Proof using Lawful0.
  intros He Hv Hc Hr E. destruct (remaining_facts c He Hv) as (_ & _ & Hs). unfold reduceNoCaseSwitch in E.
  destruct (typeOf d types e) as [t|]; [|done]. cbn [mbind option_bind] in E.
  destruct (discardFunction d t) as [[f|]|] eqn:Hf; [|done..]. injection E as <-.
  apply equiv_same; [|done]. intros n h ls v s Hst. rewrite !sequence_single, (discard_runs _ _ _ _ _ _ _ _ Hf). cbn [execute].
  apply ybind_ext; [done|]. intros x s1 _.
  assert (Nat.eqb (length (cases_of c)) 0 = false) as -> by by destruct c. unfold yassert. cbn [negb].
  unfold ybind, yret. by rewrite <- Hs, Hr.
Qed.

Lemma total_cases (c : list SimplifiedCase) :
  total (fun p : option Literal * list Statement => total jumps (snd p)) (cases_of c) = total (fun q => total jumps (snd q)) c.
Proof using. unfold total, cases_of. induction c as [|q c IH]; [done|]. cbn [map fold_right fst snd]. by rewrite IH. Qed.

Lemma simplifySwitch_equiv types e c r :
  empty_cases c -> casesValid [] (cases_of c) = true -> c <> [] -> simplifySwitch d types e c = Some r ->
  equiv [Switch e (cases_of c)] r /\ total jumps r = total (fun q => total jumps (snd q)) c.
Proof using Lawful0.
  intros He Hv Hc E. unfold simplifySwitch in E. fold (remaining c) in E.
  destruct (remaining_facts c He Hv) as (Hv' & Hj & _). rewrite <- Hj.
  pose proof (select_remaining e c He Hv Hc) as Hs. pose proof (no_case_equiv types e c) as Hn.
  assert (forall k : list SimplifiedCase, total jumps [Switch e (cases_of k)] = total (fun q => total jumps (snd q)) k) as Ht.
  { intros k. rewrite <- total_cases. cbn [total fold_right jumps]. lia. }
  destruct (remaining c) as [|[[o b] body] [|q k]].
  - destruct (reduceNoCaseSwitch d types e) as [[q|]|] eqn:Er; [| |done]; injection E as <-.
    + split; [by apply Hn|]. unfold reduceNoCaseSwitch in Er. destruct (typeOf d types e); [|done]. cbn [mbind option_bind] in Er.
      destruct (discardFunction d y) as [[f|]|]; [|done..]. by injection Er as <-.
    + unfold reduceNoCaseSwitch in Er. destruct (typeOf d types e) as [t|]; [|done]. cbn [mbind option_bind] in Er.
      destruct (discardFunction d t) as [[f|]|] eqn:Hf; [done| |done]. by apply discard_total in Hf.
  - specialize (Hs ltac:(done)). destruct (reduceSingleCaseSwitch d types e o body) as [[q|]|] eqn:Er; [| |done]; injection E as <-;
      [|split; [exact Hs|]; apply (Ht [(o, b, body)])].
    split; [transitivity [Switch e (cases_of [(o, b, body)])]; [exact Hs|by eapply single_case_equiv]|].
    unfold reduceSingleCaseSwitch in Er. destruct (typeOf d types e) as [t|]; [|done]. cbn [mbind option_bind] in Er. destruct o as [l|].
    + destruct (equalityFunction d t) as [[f|]|]; [|done..]. by injection Er as <-.
    + destruct (discardFunction d t) as [[f|]|]; [|done..]. by injection Er as <-.
  - injection E as <-. split; [by apply Hs|]. apply (Ht ((o, b, body) :: q :: k)).
Qed.

(** ** Loops *)

Lemma replaceLoop_equiv e post body n :
  (total jumps body <= fst n + snd n)%nat ->
  equiv [ForLoop [] e post body] [replaceLoop d e post body n] /\ total jumps [replaceLoop d e post body n] = 0%nat.
Proof using.
  intros Hn. unfold replaceLoop. destruct (last body) as [s|] eqn:El; [|split; reflexivity].
  destruct (bool_decide_reflect (controlFlowKind d s = ControlFlow.Break)) as [Hk|Hk]; cbn [orb].
  - assert (s = Break) as -> by (destruct s; try done; cbn [controlFlowKind] in Hk; by destruct (isTerminatingBuiltin d expression)).
    cbn [andb]. destruct (Nat.eqb_spec (snd n) 0) as [Hc|]; [|split; reflexivity].
    destruct (Nat.eqb_spec (Nat.pred (fst n)) 0) as [Hb|]; [|split; reflexivity]. cbn [andb].
    pose proof (last_removelast body Break El) as Eb. rewrite Eb, total_app in Hn. change (total jumps [Break]) with 1%nat in Hn.
    assert (total jumps (removelast body) = 0%nat) as Ht by lia.
    split; [|cbn [total fold_right jumps]; unfold total in Ht; lia]. apply equiv_once. split; [by apply total_calm|by left].
  - destruct (bool_decide (controlFlowKind d s = ControlFlow.Terminate) || bool_decide (controlFlowKind d s = ControlFlow.Leave)) eqn:Ht;
      cbn [andb]; [|split; reflexivity].
    destruct (Nat.eqb_spec (snd n) 0) as [Hc|]; [|split; reflexivity].
    destruct (Nat.eqb_spec (fst n) 0) as [Hb|]; [|split; reflexivity]. cbn [andb].
    assert (total jumps body = 0%nat) as Hz by lia.
    split; [|cbn [total fold_right jumps]; unfold total in Hz; lia]. apply equiv_once. split; [by apply total_calm|right].
    split; [done|]. unfold endsFlow. rewrite El. unfold flowsOut. apply negb_true_iff, bool_decide_eq_false. intros Hf. by rewrite Hf in Ht.
Qed.

(** ** The step *)

Section Step.
Context (types : Types).
Local Abbreviation step := (simplify d types).

(** The number of jumps seen is that of the result. *)
Definition counted (n n' : Counters) (j : nat) : Prop := (fst n' + snd n' = fst n + snd n + j)%nat.

Definition step_ok (s : Statement) : Prop := forall n r,
  step s n = Some r -> regular s = true -> everywhere switchValid s = true ->
  equiv [s] (fst r) /\ counted n (snd r) (total jumps (fst r)).

Lemma step_all b : Forall step_ok b -> forall n r,
  simplifyAll step b n = Some r -> forallb regular b = true -> forallb (everywhere switchValid) b = true ->
  equiv b (fst r) /\ counted n (snd r) (total jumps (fst r)).
Proof using.
  induction 1 as [|s b Hs _ IH]; intros n r E Hr Hv; cbn [simplifyAll forallb] in *.
  - injection E as <-. split; [reflexivity|]. unfold counted. cbn. lia.
  - destruct (step s n) as [q|] eqn:Eq; [|done]. cbn [mbind option_bind] in E.
    destruct (simplifyAll step b (snd q)) as [q'|] eqn:Eq'; [|done]. injection E as <-.
    apply andb_true_iff in Hr as [Hrs Hr]. apply andb_true_iff in Hv as [Hvs Hv]. destruct (Hs n q Eq Hrs Hvs) as [H1 C1].
    destruct (IH (snd q) q' Eq' Hr Hv) as [H2 C2]. cbn [fst snd]. split; [by apply equiv_cons|].
    unfold counted in *. rewrite total_app. lia.
Qed.

(** The cases of a switch after the step on their bodies. *)
Lemma step_cases c : Forall (fun p => Forall step_ok (snd p)) c -> forall n r,
  simplifyCases step c n = Some r -> forallb (fun p => forallb regular (snd p)) c = true ->
  forallb (fun p => forallb (everywhere switchValid) (snd p)) c = true ->
  Forall2 (fun p p' => fst p = fst p' /\ equiv (snd p) (snd p')) c (cases_of (fst r)) /\ empty_cases (fst r) /\
  counted n (snd r) (total (fun q => total jumps (snd q)) (fst r)).
Proof using.
  induction 1 as [|[l b] c Hb _ IH]; intros n r E Hr Hv; cbn [simplifyCases forallb fst snd] in *.
  - injection E as <-. repeat constructor. unfold counted. cbn. lia.
  - destruct (simplifyAll step b n) as [q|] eqn:Eq; [|done]. cbn [mbind option_bind] in E.
    destruct (simplifyCases step c (snd q)) as [q'|] eqn:Eq'; [|done]. injection E as <-.
    apply andb_true_iff in Hr as [Hrb Hr]. apply andb_true_iff in Hv as [Hvb Hv].
    destruct (step_all b Hb n q Eq Hrb Hvb) as [H1 C1]. destruct (IH (snd q) q' Eq' Hr Hv) as (H2 & E2 & C2). cbn [fst snd].
    split; [by constructor|]. split.
    + constructor; [|done]. cbn [fst snd]. destruct b; [|done]. intros _. by injection Eq as <-.
    + unfold counted, SimplifiedCase, Counters in *. cbn [fst snd]. rewrite total_cons. cbn [fst snd]. lia.
Qed.

Lemma casesValid_labels c c' seen :
  Forall2 (fun p p' => fst p = fst p' /\ equiv (snd p) (snd p')) c c' -> casesValid seen c = casesValid seen c'.
Proof using.
  intros Hc. revert seen. induction Hc as [|[o b] [o' b'] c c' [Ho _] Hc IH]; intros seen; [done|]. cbn [fst] in Ho. subst o'.
  cbn [casesValid]. destruct o as [l|]; [destruct (valueOfLiteral l); [by rewrite IH|done]|by destruct Hc].
Qed.

Lemma counted_same n s : total jumps [s] = 0%nat -> counted n n (total jumps [s]).
Proof using. unfold counted. intros ->. lia. Qed.

Lemma step_statement s : step_ok s.
Proof using Lawful0.
  induction s as [e|x e|x e|f p r b Hb|e b Hb|e c Hc|pre e post b Hpre Hpost Hb| | | |b Hb] using Statement_nested_ind;
    intros n q E Hr Hv; cbn [simplify] in E; cbn [regular] in Hr; cbn [everywhere] in Hv;
    try (injection E as <-; split; [reflexivity|]; by (apply counted_same || (unfold counted; cbn; lia))).
  all: apply andb_true_iff in Hv as [Hvs Hv].
  - destruct (simplifyAll step b n) as [q1|] eqn:E1; [|done]. injection E as <-.
    destruct (step_all b Hb n q1 E1 Hr Hv) as [H1 C1]. cbn [fst snd]. split; [by apply equiv_leave|].
    unfold counted in *. rewrite C1. change (total jumps [FunctionDefinition f p r (removeLeave (fst q1))])
      with (total jumps (removeLeave (fst q1)) + 0)%nat. unfold removeLeave. destruct (last (fst q1)) as [[]|] eqn:El; try lia.
    rewrite (last_removelast _ _ El) at 1. rewrite total_app. change (total jumps [Leave]) with 0%nat. lia.
  - destruct (simplifyAll step b n) as [q1|] eqn:E1; [|done]. cbn [mbind option_bind] in E.
    destruct (simplifyIf d e _ (fst q1)) as [r|] eqn:Er; [|done]. injection E as <-.
    destruct (step_all b Hb n q1 E1 Hr Hv) as [H1 C1]. cbn [fst snd].
    assert (match b with [] => true | _ => false end = true -> fst q1 = []) as He by (destruct b; [|done]; by injection E1 as <-).
    split; [transitivity [If e (fst q1)]; [by apply equiv_if|by eapply simplifyIf_equiv]|].
    unfold simplifyIf in Er. unfold counted in *. rewrite C1. destruct (match b with [] => true | _ => false end).
    + rewrite He by done. destruct (discardFunction _ _) as [[g|]|]; [by injection Er as <-|injection Er as <-|done].
      rewrite He by done. done.
    + injection Er as <-. change (total jumps [If e (fst q1)]) with (total jumps (fst q1) + 0)%nat. lia.
  - destruct (simplifyCases step c n) as [q1|] eqn:E1; [|done]. cbn [mbind option_bind] in E.
    destruct (simplifySwitch d types e (fst q1)) as [r|] eqn:Er; [|done]. injection E as <-.
    destruct (step_cases c Hc n q1 E1 Hr Hv) as (H1 & He & C1). cbn [fst snd].
    apply andb_true_iff in Hvs as [Hl Hvc]. rewrite (casesValid_labels _ _ _ H1) in Hvc.
    assert (fst q1 <> []) as Hn. { intros Hq. rewrite Hq in H1. by inversion H1; subst c. }
    destruct (simplifySwitch_equiv types e (fst q1) r He Hvc Hn Er) as [H2 J2].
    split; [transitivity [Switch e (cases_of (fst q1))]; [by apply equiv_switch|done]|]. by rewrite J2.
  - unfold assertThrow in E. destruct (bool_decide_reflect (pre = [])) as [->|]; [|done]. cbn [mbind option_bind] in E.
    destruct (simplifyAll step post _) as [q1|] eqn:E1; [|done]. cbn [mbind option_bind] in E.
    destruct (simplifyAll step b (snd q1)) as [q2|] eqn:E2; [|done]. injection E as <-.
    rewrite !andb_true_iff in Hr. destruct Hr as ((((_ & Hcq) & _) & Hrq) & Hrb).
    rewrite !andb_true_iff in Hv. destruct Hv as ((_ & Hvq) & Hvb).
    destruct (step_all post Hpost _ q1 E1 Hrq Hvq) as [H1 C1]. destruct (step_all b Hb _ q2 E2 Hrb Hvb) as [H2 C2].
    cbn [fst snd]. unfold counted in C1, C2. destruct (replaceLoop_equiv e (fst q1) (fst q2) (snd q2)) as [H3 J3]; [lia|].
    split; [transitivity [ForLoop [] e (fst q1) (fst q2)]; [by apply equiv_for|done]|]. by apply counted_same.
  - destruct (simplifyAll step b n) as [q1|] eqn:E1; [|done]. injection E as <-.
    destruct (step_all b Hb n q1 E1 Hr Hv) as [H1 C1]. cbn [fst snd]. split; [by apply equiv_block|].
    unfold counted in *. change (total jumps [Block (fst q1)]) with (total jumps (fst q1) + 0)%nat. lia.
Qed.
End Step.

Lemma ControlFlowSimplifier_equiv _ast ast' :
  forallb regular _ast = true -> forallb (everywhere switchValid) _ast = true -> ControlFlowSimplifier d _ast = Some ast' ->
  equiv _ast ast'.
Proof using Lawful0.
  intros Hr Hv E. unfold ControlFlowSimplifier in E. destruct (simplifyAll _ _ast _) as [q|] eqn:Eq; [|done]. injection E as <-.
  eapply step_all; [apply Forall_true, step_statement|exact Eq|done..].
Qed.
End Lawful.
End Flow.
