(* ===== verification/YulShape.v ===== *)
(** * YulShape: the steps of the Yul optimiser return, and what their results look like

    The assertions and exceptions of the steps do not happen on code as the analysis and the
    steps before leave it: loops without initialisation, valid literals, expressions with a type.
    Dead code, declarations without a value and conditions that are calls are gone afterwards. *)

From stdpp Require Import strings.
From S2P Require Import Prelude U256 CommonData Instruction EVMVersion SemanticInformation Interpreter Yul YulInterpreter YulEquivalence YulOptimiser YulDialects YulSound YulLoops YulFlow.

(** ** Lists *)

Lemma everywhere_self p s : everywhere p s = true -> p s = true.
Proof. intros Hs. destruct s; cbn [everywhere] in Hs; by apply andb_true_iff in Hs as [Hs _]. Qed.

Lemma traverse_returns {A B} (p : A -> bool) (f : A -> option B) l :
  Forall (fun a => p a = true -> exists b, f a = Some b) l -> forallb p l = true -> exists l', traverse f l = Some l'.
Proof.
  induction 1 as [|a l Ha _ IH]; intros Hp; cbn [traverse forallb] in *; [by eexists|].
  apply andb_true_iff in Hp as [Hpa Hp]. destruct (Ha Hpa) as [b ->], (IH Hp) as [l' ->]. by eexists.
Qed.

(** The value is [0] or what it is. *)
Definition validLiteral (l : Literal) : bool := match valueOfLiteral l with Some _ => true | None => false end.

Lemma validLiteral_value l : validLiteral l = true -> exists v, valueOfLiteral l = Some v.
Proof. unfold validLiteral. destruct (valueOfLiteral l) as [v|]; [by exists v|done]. Qed.

Section Shape.
Context (d : Dialect).

(** ** DeadCodeEliminator *)

(** A loop has no initialisation, as ForLoopInitRewriter leaves it. *)
Definition emptyInit (s : Statement) : bool :=
  match s with ForLoop (_ :: _) _ _ _ => false | _ => true end.

(** Only definitions of functions after a statement that changes the control flow. *)
Fixpoint live (dead : bool) (l : list Statement) : bool :=
  match l with
  | [] => true
  | s :: l => (negb dead || isFunctionDefinition s) && live (dead || negb (flowsOut d s)) l
  end.

Definition liveBodies (s : Statement) : bool :=
  match s with
  | FunctionDefinition _ _ _ b | If _ b | Block b => live false b
  | Switch _ c => forallb (fun p => live false (snd p)) c
  | ForLoop _ _ post b => live false post && live false b
  | _ => true
  end.

Local Abbreviation deadBlock := (deadBlock d (deadCode d)).

Definition dead_shape (s : Statement) : Prop := everywhere emptyInit s = true ->
  exists s', deadCode d s = Some s' /\ everywhere liveBodies s' = true /\ flowsOut d s' = flowsOut d s /\
    isFunctionDefinition s' = isFunctionDefinition s.

Lemma dead_block_shape b dead :
  Forall dead_shape b -> forallb (everywhere emptyInit) b = true ->
  exists b', deadBlock dead b = Some b' /\ live dead b' = true /\ forallb (everywhere liveBodies) b' = true.
Proof using.
  intros Hb. revert dead. induction Hb as [|s b Hs _ IH]; intros dead Hi; cbn [YulOptimiser.deadBlock forallb] in *; [by exists []|].
  apply andb_true_iff in Hi as [His Hi]. destruct (dead && negb (isFunctionDefinition s)) eqn:Hd; [by apply IH|].
  destruct (Hs His) as (s' & Es & Hl & Hf & Hdef). destruct (IH (dead || negb (flowsOut d s)) Hi) as (b' & Eb & Hb' & Hlb).
  rewrite Es. cbn [mbind option_bind]. rewrite Eb. exists (s' :: b'). cbn [live forallb]. rewrite Hf, Hdef, Hb', Hl, Hlb.
  split; [done|]. split; [|done]. destruct dead; [|done]. cbn [negb orb andb] in *. by apply negb_false_iff in Hd as ->.
Qed.

Lemma dead_statement_shape s : dead_shape s.
Proof using.
  induction s as [e|x e|x e|f p r b Hb|e b Hb|e c Hc|pre e post b Hpre Hpost Hb| | | |b Hb] using Statement_nested_ind;
    intros Hi; cbn [deadCode]; try (eexists; repeat split; reflexivity); cbn [everywhere] in Hi; apply andb_true_iff in Hi as [Hi Hib].
  - destruct (dead_block_shape b false Hb Hib) as (b' & Eb & H1 & H2). rewrite Eb. cbn [mbind option_bind]. eexists.
    split; [reflexivity|]. cbn [everywhere liveBodies]. by rewrite H1, H2.
  - destruct (dead_block_shape b false Hb Hib) as (b' & Eb & H1 & H2). rewrite Eb. cbn [mbind option_bind]. eexists.
    split; [reflexivity|]. cbn [everywhere liveBodies]. by rewrite H1, H2.
  - assert (exists c', traverse (fun p => b ← deadBlock false (snd p); Some (fst p, b)) c = Some c' /\
      forallb (fun p => live false (snd p)) c' = true /\ forallb (fun p => forallb (everywhere liveBodies) (snd p)) c' = true)
      as (c' & Ec & H1 & H2).
    { clear Hi. induction Hc as [|[l b] c Hb _ IH]; [by exists []|]. cbn [forallb snd traverse fst] in *.
      apply andb_true_iff in Hib as [Hb' Hib]. destruct (dead_block_shape b false Hb Hb') as (b' & -> & H1 & H2).
      destruct (IH Hib) as (c' & Ec & H3 & H4). cbn [mbind option_bind fst snd] in *. rewrite Ec. eexists. split; [reflexivity|].
      cbn [forallb snd]. by rewrite H1, H2, H3, H4. }
    rewrite Ec. cbn [mbind option_bind]. eexists. split; [reflexivity|]. cbn [everywhere liveBodies]. by rewrite H1, H2.
  - destruct pre; [|done]. rewrite !andb_true_iff in Hib. destruct Hib as ((_ & Hip) & Hib).
    destruct (dead_block_shape post false Hpost Hip) as (post' & Ep & H1 & H2).
    destruct (dead_block_shape b false Hb Hib) as (b' & Eb & H3 & H4). unfold assertThrow. rewrite bool_decide_eq_true_2 by done.
    cbn [mbind option_bind]. rewrite Ep. cbn [mbind option_bind]. rewrite Eb. cbn [mbind option_bind]. eexists. split; [reflexivity|].
    cbn [everywhere liveBodies forallb]. by rewrite H1, H2, H3, H4.
  - destruct (dead_block_shape b false Hb Hib) as (b' & Eb & H1 & H2). rewrite Eb. cbn [mbind option_bind]. eexists.
    split; [reflexivity|]. cbn [everywhere liveBodies]. by rewrite H1, H2.
Qed.

Lemma DeadCodeEliminator_shape _ast :
  forallb (everywhere emptyInit) _ast = true ->
  exists ast', DeadCodeEliminator d _ast = Some ast' /\ live false ast' = true /\ forallb (everywhere liveBodies) ast' = true.
Proof using. apply dead_block_shape, Forall_true, dead_statement_shape. Qed.

(** ** VarDeclInitializer *)

Definition initialized (s : Statement) : bool := match s with VariableDeclaration _ None => false | _ => true end.

Lemma initialize_shape s : forallb (everywhere initialized) (initialize d s) = true.
Proof using.
  assert (forall b, Forall (fun s => forallb (everywhere initialized) (initialize d s) = true) b ->
    forallb (everywhere initialized) (flat_map (initialize d) b) = true) as Hall by (intros; by apply forallb_flat_map).
  induction s as [e|x e|x [e|]|f p r b Hb|e b Hb|e c Hc|pre e post b Hpre Hpost Hb| | | |b Hb] using Statement_nested_ind;
    cbn [initialize initializeVariables forallb everywhere initialized andb]; rewrite ?andb_true_r; try done; try by apply Hall.
  - by apply forallb_map_of, Forall_true.
  - induction Hc as [|[l b] c Hb _ IH]; [done|]. cbn [map forallb fst snd]. by rewrite (Hall b Hb), IH.
  - by rewrite (Hall pre Hpre), (Hall post Hpost), (Hall b Hb).
Qed.

Lemma VarDeclInitializer_shape _ast : forallb (everywhere initialized) (VarDeclInitializer d _ast) = true.
Proof using. apply forallb_flat_map, Forall_true, initialize_shape. Qed.

(** ** ForLoopConditionIntoBody *)

Definition conditionPlain (s : Statement) : bool := match s with ForLoop _ (FunctionCall _ _) _ _ => false | _ => true end.

Lemma intoBody_shape s : is_Some (booleanNegationFunction d) -> everywhere conditionPlain (intoBody d s) = true.
Proof using.
  intros [g Hg].
  induction s as [e|x e|x e|f p r b Hb|e b Hb|e c Hc|pre e post b Hpre Hpost Hb| | | |b Hb] using Statement_nested_ind;
    cbn [intoBody everywhere conditionPlain andb]; try done; try by apply forallb_map_of.
  - induction Hc as [|[l b] c Hb _ IH]; [done|]. cbn [map forallb fst snd]. by rewrite IH, (forallb_map_of _ _ b Hb).
  - unfold conditionIntoBody. rewrite Hg. rewrite (forallb_map_of _ _ pre Hpre), (forallb_map_of _ _ post Hpost).
    destruct e; cbn [fst snd andb forallb everywhere conditionPlain trueLiteral breakUnless]; by rewrite (forallb_map_of _ _ b Hb).
Qed.

Lemma ForLoopConditionIntoBody_shape _ast :
  is_Some (booleanNegationFunction d) -> forallb (everywhere conditionPlain) (ForLoopConditionIntoBody d _ast) = true.
Proof using. intros Hn. apply forallb_map_of, Forall_true. intros s. by apply intoBody_shape. Qed.

(** ** ConditionalUnsimplifier *)

(** The literals of assignments and cases are valid. *)
Definition literalsValid (s : Statement) : bool :=
  match s with
  | Assignment _ (LiteralExpression l) => validLiteral l
  | Switch _ c => forallb (fun p => match fst p with Some l => validLiteral l | None => true end) c
  | _ => true
  end.

Lemma assignsValue_returns x o s : literalsValid s = true -> is_Some o -> exists b, assignsValue x o s = Some b.
Proof using.
  intros Hs [w ->]. destruct s as [|[|y [|]] [| |l]| | | | | | | | |]; try by eexists. cbn [assignsValue literalsValid] in *.
  destruct (String.eqb y x); [|by eexists]. apply validLiteral_value in Hs as [v ->]. by eexists.
Qed.

Lemma isZeroAfter_returns s1 s2 : literalsValid s2 = true -> exists b, isZeroAfter d s1 s2 = Some b.
Proof using.
  intros Hs. destruct s1 as [| | | |[f args|c|l] b| | | | | |]; try by eexists. cbn [isZeroAfter].
  destruct (endsFlow d b); [|by eexists]. by apply assignsValue_returns.
Qed.

Lemma removeZeros_returns l : forallb literalsValid l = true -> exists r, removeZeros d l = Some r.
Proof using.
  assert (forall k l, Nat.le (length l) k -> forallb literalsValid l = true -> exists r, removeZeros d l = Some r) as H; [|by eapply H].
  clear. induction k as [|k IH]; intros [|s1 [|s2 l]] Hl Hv; cbn [removeZeros length forallb] in *; try lia; try by eexists.
  rewrite !andb_true_iff in Hv. destruct Hv as (_ & Hv2 & Hv). destruct (isZeroAfter_returns s1 s2 Hv2) as [[|] ->]; cbn [mbind option_bind].
  - destruct (IH l) as [r ->]; [lia|done|]. by eexists.
  - destruct (IH (s2 :: l)) as [r Er]; [cbn [length]; lia|by cbn [forallb]; rewrite Hv2|].
    change (exists r, match removeZeros d (s2 :: l) with Some q => Some (s1 :: q) | None => None end = Some r). rewrite Er. by eexists.
Qed.

Lemma startsWithValue_returns e o b :
  match o with Some l => validLiteral l | None => true end = true -> forallb literalsValid b = true ->
  exists same, startsWithValue e o b = Some same.
Proof using.
  intros Ho Hb. destruct e as [f args|x|lit]; try by eexists. destruct o as [l|]; [|by eexists]. destruct b as [|front rest]; [by eexists|].
  cbn [startsWithValue]. cbn [forallb] in Hb. apply andb_true_iff in Hb as [Hf _]. apply assignsValue_returns; [done|].
  apply validLiteral_value in Ho as [v ->]. by eexists.
Qed.

Local Abbreviation unsimplify := (conditionalUnsimplify d).

Definition unsimplify_returns (s : Statement) : Prop := everywhere literalsValid s = true ->
  exists s', unsimplify s = Some s' /\ literalsValid s' = true.

Lemma unsimplify_body_returns b :
  Forall unsimplify_returns b -> forallb (everywhere literalsValid) b = true -> exists b', unsimplifyBody d unsimplify b = Some b'.
Proof using.
  intros Hb Hv. assert (exists l, traverse unsimplify b = Some l /\ forallb literalsValid l = true) as (l & El & Hl).
  { induction Hb as [|s b Hs _ IH]; [by exists []|]. cbn [forallb traverse] in *. apply andb_true_iff in Hv as [Hvs Hv].
    destruct (Hs Hvs) as (s' & -> & Hs'), (IH Hv) as (l & -> & Hl). eexists. split; [reflexivity|]. cbn [forallb]. by rewrite Hs', Hl. }
  unfold unsimplifyBody. rewrite El. by apply removeZeros_returns.
Qed.

Lemma forallb_self p b : forallb (everywhere p) b = true -> forallb p b = true.
Proof using.
  induction b as [|s b IH]; [done|]. cbn [forallb]. rewrite !andb_true_iff. intros [Hs%everywhere_self Hb]. auto.
Qed.

Lemma unsimplifyCase_returns e p :
  Forall unsimplify_returns (snd p) -> match fst p with Some l => validLiteral l | None => true end = true ->
  forallb (everywhere literalsValid) (snd p) = true -> exists b, unsimplifyCase d unsimplify e p = Some (fst p, b).
Proof using.
  destruct p as [o b]. cbn [fst snd]. intros Hb Ho Hv. unfold unsimplifyCase. cbn [fst snd].
  destruct (startsWithValue_returns e o b Ho (forallb_self _ _ Hv)) as [same ->]. cbn [mbind option_bind].
  destruct b as [|front rest]; [by eexists|]. destruct same.
  - destruct (unsimplify_body_returns rest) as [b' ->]; [by inversion Hb| |by eexists].
    cbn [forallb] in Hv. by apply andb_true_iff in Hv as [_ Hv].
  - destruct (unsimplify_body_returns (front :: rest) Hb Hv) as [b' ->]. by eexists.
Qed.

Lemma unsimplify_statement_returns s : unsimplify_returns s.
Proof using.
  induction s as [e|x e|x e|f p r b Hb|e b Hb|e c Hc|pre e post b Hpre Hpost Hb| | | |b Hb] using Statement_nested_ind;
    intros Hv; cbn [conditionalUnsimplify]; try (eexists; split; [reflexivity|exact (everywhere_self _ _ Hv)]);
    cbn [everywhere] in Hv; apply andb_true_iff in Hv as [Hs Hv].
  - destruct (unsimplify_body_returns b Hb Hv) as [b' Eb]. rewrite Eb. by eexists.
  - destruct (unsimplify_body_returns b Hb Hv) as [b' Eb]. rewrite Eb. by eexists.
  - assert (exists c', traverse (unsimplifyCase d unsimplify e) c = Some c' /\ literalsValid (Switch e c') = true) as (c' & Ec & Hc').
    { induction Hc as [|p c Hb _ IH]; [by exists []|]. cbn [forallb traverse literalsValid] in *.
      apply andb_true_iff in Hs as [Hp Hs]. apply andb_true_iff in Hv as [Hvp Hv].
      destruct (unsimplifyCase_returns e p Hb Hp Hvp) as [b' ->], (IH Hs Hv) as (c' & Ec & Hc'). cbn [mbind option_bind]. rewrite Ec.
      eexists. split; [reflexivity|]. cbn [forallb fst]. by rewrite Hp. }
    rewrite Ec. by eexists.
  - rewrite !andb_true_iff in Hv. destruct Hv as ((Hvp & Hvq) & Hvb).
    destruct (unsimplify_body_returns pre Hpre Hvp) as [b1 E1], (unsimplify_body_returns post Hpost Hvq) as [b2 E2],
      (unsimplify_body_returns b Hb Hvb) as [b3 E3].
    rewrite E1. cbn [mbind option_bind]. rewrite E2. cbn [mbind option_bind]. rewrite E3. by eexists.
  - destruct (unsimplify_body_returns b Hb Hv) as [b' Eb]. rewrite Eb. by eexists.
Qed.

Lemma ConditionalUnsimplifier_returns _ast :
  forallb (everywhere literalsValid) _ast = true -> exists ast', ConditionalUnsimplifier d _ast = Some ast'.
Proof using. apply unsimplify_body_returns, Forall_true, unsimplify_statement_returns. Qed.

(** ** ForLoopConditionOutOfBody *)

Definition conditionValid (s : Statement) : bool :=
  match s with ForLoop _ (LiteralExpression l) _ _ => validLiteral l | _ => true end.

Lemma conditionOutOfBody_returns pre e post b0 b :
  conditionValid (ForLoop pre e post b0) = true -> match b with s :: _ => negationUnary d s = true | [] => True end ->
  exists r, conditionOutOfBody d e b = Some r.
Proof using.
  intros Hv Hu. unfold conditionOutOfBody. destruct (booleanNegationFunction d) as [g|] eqn:Hg; [|by eexists].
  destruct e as [f args|x|l]; try by eexists. cbn [conditionValid] in Hv. apply validLiteral_value in Hv as [v ->].
  cbn [mbind option_bind]. destruct (v =? 0); [by eexists|].
  destruct b as [|[| | | |c [|[| | | | | | |  | | |] brk]| | | | | |] rest]; try by eexists.
  destruct (movable (expressionEffects d c)); [|by eexists]. unfold negationUnary in Hu. rewrite Hg in Hu.
  destruct c as [f args|x|k]; try by eexists. unfold negated. destruct (String.eqb f (builtin_name g)); [|by eexists].
  destruct args as [|a args]; [done|]. by eexists.
Qed.

Definition out_valid (s : Statement) : bool := conditionValid s && negationUnary d s.

Lemma everywhere_and p q s : everywhere (fun s => p s && q s) s = true -> everywhere q s = true.
Proof using.
  assert (forall b, Forall (fun s => everywhere (fun s => p s && q s) s = true -> everywhere q s = true) b ->
    forallb (everywhere (fun s => p s && q s)) b = true -> forallb (everywhere q) b = true) as Hall.
  { induction 1 as [|a b Ha _ IH]; [done|]. cbn [forallb]. rewrite !andb_true_iff. intros [Hs Hb]. auto. }
  induction s as [e|x e|x e|f p' r b Hb|e b Hb|e c Hc|pre e post b Hpre Hpost Hb| | | |b Hb] using Statement_nested_ind;
    cbn [everywhere]; rewrite !andb_true_iff; intros [[Hp Hq] Hs]; (split; [exact Hq|]); try done; try by apply Hall.
  - clear Hp Hq. induction Hc as [|[l b] c Hb _ IH]; [done|]. cbn [forallb snd] in *. rewrite andb_true_iff in Hs. rewrite andb_true_iff. destruct Hs as [Hs1 Hs2].
    split; [by apply Hall|]. by apply IH.
  - destruct Hs as [[H1 H2] H3]. repeat split; by apply Hall.
Qed.

Definition out_returns (s : Statement) : Prop := everywhere out_valid s = true -> exists s', outOfBody d s = Some s'.

Lemma out_statement_returns s : out_returns s.
Proof using.
  assert (forall b, Forall out_returns b -> forallb (everywhere out_valid) b = true -> exists b', traverse (outOfBody d) b = Some b')
    as Hall by (intros; by eapply (traverse_returns (everywhere out_valid))).
  induction s as [e|x e|x e|f p r b Hb|e b Hb|e c Hc|pre e post b Hpre Hpost Hb| | | |b Hb] using Statement_nested_ind;
    intros Hv; cbn [outOfBody]; try (by eexists); cbn [everywhere] in Hv; apply andb_true_iff in Hv as [Hs Hv].
  - destruct (Hall b Hb Hv) as [b' Eb]. rewrite Eb. by eexists.
  - destruct (Hall b Hb Hv) as [b' Eb]. rewrite Eb. by eexists.
  - assert (exists c', traverse (fun p => b ← traverse (outOfBody d) (snd p); Some (fst p, b)) c = Some c') as [c' Ec].
    { eapply (traverse_returns (fun p => forallb (everywhere out_valid) (snd p))); [|exact Hv]. eapply Forall_impl; [exact Hc|].
      intros p Hp Hvp. destruct (Hall (snd p) Hp Hvp) as [b' ->]. by eexists. }
    rewrite Ec. by eexists.
  - rewrite !andb_true_iff in Hv. destruct Hv as ((Hvp & Hvq) & Hvb).
    destruct (Hall pre Hpre Hvp) as [b1 E1], (Hall post Hpost Hvq) as [b2 E2], (Hall b Hb Hvb) as [b3 E3].
    rewrite E1. cbn [mbind option_bind]. rewrite E2. cbn [mbind option_bind]. rewrite E3. cbn [mbind option_bind].
    apply andb_true_iff in Hs as [Hs _]. destruct (conditionOutOfBody_returns pre e post b b3 Hs) as [r ->]; [|by eexists].
    apply (traverse_unary d b b3 E3). rewrite forallb_forall in Hvb. apply forallb_forall. intros s Hin.
    by apply (everywhere_and conditionValid), Hvb.
  - destruct (Hall b Hb Hv) as [b' Eb]. rewrite Eb. by eexists.
Qed.

Lemma ForLoopConditionOutOfBody_returns _ast :
  forallb (everywhere out_valid) _ast = true -> exists ast', ForLoopConditionOutOfBody d _ast = Some ast'.
Proof using. apply traverse_returns, Forall_true, out_statement_returns. Qed.

(** ** ControlFlowSimplifier *)

(** The expression of a switch has a type, for which the dialect can be asked. *)
Definition switchTyped (types : Types) (s : Statement) : bool :=
  match s with
  | Switch e _ =>
      match typeOf d types e with
      | Some t => bool_decide (is_Some (discardFunction d t)) && bool_decide (is_Some (equalityFunction d t))
      | None => false
      end
  | s => emptyInit s
  end.

Lemma simplifySwitch_returns types e c c0 : switchTyped types (Switch e c0) = true -> exists r, simplifySwitch d types e c = Some r.
Proof using.
  cbn [switchTyped]. unfold simplifySwitch. intros Ht.
  destruct (removeEmptyCasesFromSwitch (removeEmptyDefaultFromSwitch c)) as [|[[o b] body] [|]]; [| |by eexists].
  - unfold reduceNoCaseSwitch. destruct (typeOf d types e) as [t|]; [|done]. apply andb_true_iff in Ht as [H1 _].
    apply bool_decide_eq_true in H1 as [f Hf]. cbn [mbind option_bind]. rewrite Hf. by eexists.
  - unfold reduceSingleCaseSwitch. destruct (typeOf d types e) as [t|]; [|done]. apply andb_true_iff in Ht as [H1 H2].
    apply bool_decide_eq_true in H1 as [f Hf]. apply bool_decide_eq_true in H2 as [g Hg]. cbn [mbind option_bind]. rewrite Hf, Hg.
    destruct o; by eexists.
Qed.

Section Simplify.
Context (types : Types) (Hbool : is_Some (discardFunction d (boolType d))).

Definition simplify_returns (s : Statement) : Prop :=
  everywhere (switchTyped types) s = true -> forall n, exists r, simplify d types s n = Some r.

Lemma simplifyAll_returns b :
  Forall simplify_returns b -> forallb (everywhere (switchTyped types)) b = true ->
  forall n, exists r, simplifyAll (simplify d types) b n = Some r.
Proof using.
  clear Hbool. induction 1 as [|s b Hs _ IH]; intros Hv n; cbn [simplifyAll forallb] in *; [by eexists|].
  apply andb_true_iff in Hv as [Hvs Hv]. destruct (Hs Hvs n) as [r ->]. cbn [mbind option_bind].
  destruct (IH Hv (snd r)) as [q ->]. by eexists.
Qed.

Lemma simplifyCases_returns c :
  Forall (fun p => Forall simplify_returns (snd p)) c ->
  forallb (fun p => forallb (everywhere (switchTyped types)) (snd p)) c = true ->
  forall n, exists r, simplifyCases (simplify d types) c n = Some r.
Proof using.
  clear Hbool. induction 1 as [|[l b] c Hb _ IH]; intros Hv n; cbn [simplifyCases forallb snd] in *; [by eexists|].
  apply andb_true_iff in Hv as [Hvb Hv]. destruct (simplifyAll_returns b Hb Hvb n) as [r ->]. cbn [mbind option_bind].
  destruct (IH Hv (snd r)) as [q ->]. by eexists.
Qed.

Lemma simplify_statement_returns s : simplify_returns s.
Proof using Hbool.
  induction s as [e|x e|x e|f p r b Hb|e b Hb|e c Hc|pre e post b Hpre Hpost Hb| | | |b Hb] using Statement_nested_ind;
    intros Hv n; cbn [simplify]; try (by eexists); cbn [everywhere] in Hv; apply andb_true_iff in Hv as [Hs Hv].
  - destruct (simplifyAll_returns b Hb Hv n) as [q Eq]. rewrite Eq. by eexists.
  - destruct (simplifyAll_returns b Hb Hv n) as [q Eq]. rewrite Eq. cbn [mbind option_bind]. destruct Hbool as [f Hf].
    unfold simplifyIf. rewrite Hf. destruct b; by eexists.
  - destruct (simplifyCases_returns c Hc Hv n) as [q Eq]. rewrite Eq. cbn [mbind option_bind].
    destruct (simplifySwitch_returns types e (fst q) c Hs) as [k ->]. by eexists.
  - destruct pre; [|done]. rewrite !andb_true_iff in Hv. destruct Hv as ((_ & Hvq) & Hvb). unfold assertThrow.
    rewrite bool_decide_eq_true_2 by done. cbn [mbind option_bind].
    destruct (simplifyAll_returns post Hpost Hvq (0, 0)%nat) as [q1 E1]. rewrite E1. cbn [mbind option_bind].
    destruct (simplifyAll_returns b Hb Hvb (snd q1)) as [q2 E2]. rewrite E2. by eexists.
  - destruct (simplifyAll_returns b Hb Hv n) as [q Eq]. rewrite Eq. by eexists.
Qed.
End Simplify.

Lemma ControlFlowSimplifier_returns _ast :
  is_Some (discardFunction d (boolType d)) -> forallb (everywhere (switchTyped (TypeInfo _ast))) _ast = true ->
  exists ast', ControlFlowSimplifier d _ast = Some ast'.
Proof using.
  intros Hb Hv. unfold ControlFlowSimplifier.
  destruct (simplifyAll_returns (TypeInfo _ast) _ast (Forall_true _ _ (simplify_statement_returns _ Hb)) Hv (0, 0)%nat) as [r ->]. by eexists.
Qed.
End Shape.
