(* ===== verification/YulWellFormed.v ===== *)
(** * YulWellFormed: the steps of the Yul optimiser keep code well formed

    Well-formed code is as the analysis of Yul and the steps before leave it: no [break] or
    [continue] outside the bodies of loops, loops without initialisation, cases whose values
    differ, valid literals, and no loop whose body defines a function its condition calls.  Every
    step keeps it, so that steps can follow one another. *)

From stdpp Require Import strings.
From S2P Require Import Prelude U256 CommonData Instruction EVMVersion SemanticInformation Interpreter Yul YulInterpreter YulEquivalence YulOptimiser YulDialects YulSound YulLoops YulFlow YulShape.

Section WellFormed.
Context (d : Dialect).

(** Literals are valid, and a call of the negation has one argument. *)
Fixpoint validExpression (e : Expression) : bool :=
  match e with
  | FunctionCall f arguments =>
      match booleanNegationFunction d with
      | Some negation => if String.eqb f (builtin_name negation) then Nat.eqb (length arguments) 1 else true
      | None => true
      end && (fix all (l : list Expression) := match l with [] => true | a :: l => validExpression a && all l end) arguments
  | LiteralExpression l => validLiteral l
  | Identifier _ => true
  end.

Definition expressions (s : Statement) : list Expression :=
  match s with
  | ExpressionStatement e | Assignment _ e | VariableDeclaration _ (Some e) | If e _ | Switch e _ | ForLoop _ e _ _ => [e]
  | _ => []
  end.

Definition postCalm (s : Statement) : bool := match s with ForLoop _ _ post _ => forallb calm post | _ => true end.

Definition wellFormedAt (s : Statement) : bool :=
  forallb validExpression (expressions s) && literalsValid s && switchValid s && conditionVisible d s && emptyInit s && postCalm s.

Definition wellFormed (l : list Statement) : bool := forallb (everywhere wellFormedAt) l.

Lemma everywhere_impl (p q : Statement -> bool) s :
  (forall s, p s = true -> q s = true) -> everywhere p s = true -> everywhere q s = true.
Proof using.
  intros Hpq. assert (forall b, Forall (fun s => everywhere p s = true -> everywhere q s = true) b ->
    forallb (everywhere p) b = true -> forallb (everywhere q) b = true) as Hall.
  { induction 1 as [|a b Ha _ IH]; [done|]. cbn [forallb]. rewrite !andb_true_iff. intros [Hs Hb]. auto. }
  induction s as [e|x e|x e|f p' r b Hb|e b Hb|e c Hc|pre e post b Hpre Hpost Hb| | | |b Hb] using Statement_nested_ind;
    cbn [everywhere]; rewrite !andb_true_iff; intros [Hp Hs]; (split; [by apply Hpq|]); try done; try by apply Hall.
  - clear Hp. induction Hc as [|[l b] c Hb _ IH]; [done|]. cbn [forallb snd] in *. rewrite andb_true_iff in Hs. rewrite andb_true_iff.
    destruct Hs as [Hs1 Hs2]. split; [by apply Hall|by apply IH].
  - destruct Hs as [[H1 H2] H3]. repeat split; by apply Hall.
Qed.

Lemma wellFormed_every (q : Statement -> bool) l :
  (forall s, wellFormedAt s = true -> q s = true) -> wellFormed l = true -> forallb (everywhere q) l = true.
Proof using.
  intros Hq Hl. apply forallb_forall. intros s Hs. unfold wellFormed in Hl. rewrite forallb_forall in Hl.
  apply (everywhere_impl wellFormedAt); [done|by apply Hl].
Qed.

Lemma wellFormedAt_parts s :
  wellFormedAt s = true ->
  forallb validExpression (expressions s) = true /\ literalsValid s = true /\ switchValid s = true /\
  conditionVisible d s = true /\ emptyInit s = true /\ postCalm s = true.
Proof using. unfold wellFormedAt. rewrite !andb_true_iff. tauto. Qed.

Lemma valid_negation s : forallb validExpression (expressions s) = true -> negationUnary d s = true.
Proof using.
  intros Hu. unfold negationUnary. destruct s; try done. destruct condition as [f args| |]; try done.
  destruct (booleanNegationFunction d) as [g|] eqn:Hg; [|done]. cbn [expressions forallb validExpression] in Hu. rewrite Hg in Hu.
  destruct (String.eqb f (builtin_name g)); [|done]. rewrite !andb_true_iff in Hu. tauto.
Qed.

Lemma valid_condition s : forallb validExpression (expressions s) = true -> conditionValid s = true.
Proof using. destruct s; try done. destruct condition; try done. cbn. by rewrite andb_true_r. Qed.

Lemma wellFormed_regular l : wellFormed l = true -> forallb regular l = true.
Proof using.
  assert (forall s, everywhere wellFormedAt s = true -> regular s = true) as H.
  { assert (forall b, Forall (fun s => everywhere wellFormedAt s = true -> regular s = true) b ->
      forallb (everywhere wellFormedAt) b = true -> forallb regular b = true) as Hall.
    { induction 1 as [|a b Ha _ IH]; [done|]. cbn [forallb]. rewrite !andb_true_iff. intros [Hs Hb]. auto. }
    intros s. induction s as [e|x e|x e|f p r b Hb|e b Hb|e c Hc|pre e post b Hpre Hpost Hb| | | |b Hb] using Statement_nested_ind;
      intros Hw; cbn [everywhere] in Hw; apply andb_true_iff in Hw as [Hw Hs]; cbn [regular]; try done; try by apply Hall.
    - clear Hw. induction Hc as [|[l' b] c Hb _ IH]; [done|]. cbn [forallb snd] in *. apply andb_true_iff in Hs as [Hs1 Hs2].
      by rewrite (Hall b Hb Hs1), (IH Hs2).
    - apply wellFormedAt_parts in Hw as (_ & _ & _ & _ & Hi & Hp). rewrite !andb_true_iff in Hs. destruct Hs as [[Hs1 Hs2] Hs3].
      cbn [postCalm] in Hp. destruct pre; [|done]. by rewrite Hp, (Hall post Hpost Hs2), (Hall b Hb Hs3). }
  intros Hl. apply forallb_forall. intros s Hs. unfold wellFormed in Hl. rewrite forallb_forall in Hl. by apply H, Hl.
Qed.

(** ** Code that is kept well formed *)

Definition kept (l l' : list Statement) : Prop :=
  wellFormed l' = true /\ definitions l' = definitions l /\ (forallb calm l = true -> forallb calm l' = true).

Lemma kept_refl l : wellFormed l = true -> kept l l.
Proof using. done. Qed.

Lemma kept_nil : kept [] [].
Proof using. done. Qed.

Lemma definitions_app l l' : definitions (l ++ l') = definitions l ++ definitions l'.
Proof using. apply flat_map_app. Qed.

Lemma kept_app l1 l1' l2 l2' : kept l1 l1' -> kept l2 l2' -> kept (l1 ++ l2) (l1' ++ l2').
Proof using.
  intros (W1 & D1 & C1) (W2 & D2 & C2). unfold kept, wellFormed in *. rewrite !definitions_app, !forallb_app, D1, D2, W1, W2.
  repeat split. rewrite !andb_true_iff. intros []. auto.
Qed.

Lemma kept_cons s l1' l2 l2' : kept [s] l1' -> kept l2 l2' -> kept (s :: l2) (l1' ++ l2').
Proof using. apply (kept_app [s]). Qed.

Lemma kept_trans l1 l2 l3 : kept l1 l2 -> kept l2 l3 -> kept l1 l3.
Proof using. intros (W1 & D1 & C1) (W2 & D2 & C2). repeat split; [done|by rewrite D2|auto]. Qed.

Lemma wellFormed_one s : wellFormed [s] = everywhere wellFormedAt s.
Proof using. unfold wellFormed. cbn [forallb]. apply andb_true_r. Qed.

(** Statements whose bodies are kept. *)
Lemma kept_if e b b' : everywhere wellFormedAt (If e b) = true -> kept b b' -> kept [If e b] [If e b'].
Proof using.
  intros Hw (Wb & _ & Cb). cbn [everywhere] in Hw. apply andb_true_iff in Hw as [Hw _]. repeat split.
  - rewrite wellFormed_one. cbn [everywhere]. apply andb_true_iff. by split.
  - cbn [forallb calm]. rewrite !andb_true_r. auto.
Qed.

Lemma kept_block b b' : everywhere wellFormedAt (Block b) = true -> kept b b' -> kept [Block b] [Block b'].
Proof using.
  intros Hw (Wb & _ & Cb). cbn [everywhere] in Hw. apply andb_true_iff in Hw as [Hw _]. repeat split.
  - rewrite wellFormed_one. cbn [everywhere]. apply andb_true_iff. by split.
  - cbn [forallb calm]. rewrite !andb_true_r. auto.
Qed.

Lemma kept_function f p r b b' : wellFormed b' = true -> kept [FunctionDefinition f p r b] [FunctionDefinition f p r b'].
Proof using. intros Wb. repeat split. rewrite wellFormed_one. cbn [everywhere]. apply andb_true_iff. by split. Qed.

Lemma kept_for e post post' b b' :
  everywhere wellFormedAt (ForLoop [] e post b) = true -> kept post post' -> kept b b' ->
  kept [ForLoop [] e post b] [ForLoop [] e post' b'].
Proof using.
  intros Hw (Wp & _ & Cp) (Wb & Db & _). cbn [everywhere] in Hw. apply andb_true_iff in Hw as [Hw _]. repeat split.
  rewrite wellFormed_one. cbn [everywhere forallb andb]. unfold wellFormed in *. rewrite Wp, Wb, andb_true_r.
  apply wellFormedAt_parts in Hw as (H1 & H2 & H4 & H5 & H6 & H7). unfold wellFormedAt.
  cbn [expressions literalsValid switchValid conditionVisible emptyInit postCalm] in *.
  by rewrite Db, (Cp H7), H1, H5.
Qed.

Lemma casesValid_same c c' seen :
  Forall2 (fun p p' : option Literal * list Statement => fst p = fst p') c c' -> casesValid seen c = casesValid seen c'.
Proof using.
  intros Hc. revert seen. induction Hc as [|[o b] [o' b'] c c' Ho Hc IH]; intros seen; [done|]. cbn [fst] in Ho. subst o'.
  cbn [casesValid]. destruct o as [l|]; [destruct (valueOfLiteral l); [by rewrite IH|done]|by destruct Hc].
Qed.

Lemma kept_switch e c c' :
  everywhere wellFormedAt (Switch e c) = true -> Forall2 (fun p p' => fst p = fst p' /\ kept (snd p) (snd p')) c c' ->
  kept [Switch e c] [Switch e c'].
Proof using.
  intros Hw Hc. cbn [everywhere] in Hw. apply andb_true_iff in Hw as [Hw _].
  assert (Forall2 (fun p p' : option Literal * list Statement => fst p = fst p') c c') as Hl
    by (eapply Forall2_impl; [exact Hc|]; by intros p p' []).
  apply wellFormedAt_parts in Hw as (H1 & H2 & H4 & H5 & H6 & H7). repeat split.
  - rewrite wellFormed_one. cbn [everywhere]. apply andb_true_iff. split.
    + unfold wellFormedAt. cbn [expressions switchValid literalsValid conditionVisible emptyInit postCalm] in *.
      rewrite <- (Forall2_length _ _ _ Hl), <- (casesValid_same _ _ [] Hl), H1, H4.
      assert (forall f : option Literal -> bool, forallb (fun p : option Literal * list Statement => f (fst p)) c =
        forallb (fun p => f (fst p)) c') as Hf.
      { intros f. clear -Hl. induction Hl as [|p p' c c' Hp _ IH]; [done|]. cbn [forallb]. by rewrite Hp, IH. }
      pose proof (Hf (fun o => match o with Some l => validLiteral l | None => true end)) as Hv. cbn beta in Hv. by rewrite <- Hv, H2.
    + clear -Hc. induction Hc as [|p p' c c' [_ (Wp & _ & _)] _ IH]; [done|]. cbn [forallb]. unfold wellFormed in Wp. by rewrite Wp, IH.
  - cbn [forallb calm]. rewrite !andb_true_r. clear -Hc. induction Hc as [|p p' c c' [_ (_ & _ & Cp)] _ IH]; [done|].
    cbn [forallb]. rewrite !andb_true_iff. intros [H1 H2]. auto.
Qed.

(** The bodies of well-formed statements. *)
Lemma wellFormed_if e b : everywhere wellFormedAt (If e b) = true -> wellFormed b = true.
Proof using. cbn [everywhere]. by intros [_ Hb]%andb_true_iff. Qed.

Lemma wellFormed_block b : everywhere wellFormedAt (Block b) = true -> wellFormed b = true.
Proof using. cbn [everywhere]. by intros [_ Hb]%andb_true_iff. Qed.

Lemma wellFormed_function f p r b : everywhere wellFormedAt (FunctionDefinition f p r b) = true -> wellFormed b = true.
Proof using. cbn [everywhere]. by intros [_ Hb]%andb_true_iff. Qed.

Lemma wellFormed_for pre e post b :
  everywhere wellFormedAt (ForLoop pre e post b) = true -> pre = [] /\ wellFormed post = true /\ wellFormed b = true.
Proof using.
  cbn [everywhere]. intros [Hw [[_ Hp]%andb_true_iff Hb]%andb_true_iff]%andb_true_iff.
  apply wellFormedAt_parts in Hw as (_ & _ & _ & _ & Hi & _). by destruct pre.
Qed.

Lemma wellFormed_switch e c : everywhere wellFormedAt (Switch e c) = true -> Forall (fun p => wellFormed (snd p) = true) c.
Proof using.
  cbn [everywhere]. intros [_ Hc]%andb_true_iff. apply Forall_forall. intros p Hp. rewrite forallb_forall in Hc.
  by apply Hc, list_elem_of_In.
Qed.

Lemma wellFormed_cons s l : wellFormed (s :: l) = true -> everywhere wellFormedAt s = true /\ wellFormed l = true.
Proof using. unfold wellFormed. cbn [forallb]. apply andb_true_iff. Qed.

Lemma kept_flat_map (f : Statement -> list Statement) l :
  Forall (fun s => everywhere wellFormedAt s = true -> kept [s] (f s)) l -> wellFormed l = true -> kept l (flat_map f l).
Proof using.
  induction 1 as [|s l Hs _ IH]; intros Hw; [apply kept_nil|]. apply wellFormed_cons in Hw as [Hws Hw]. cbn [flat_map].
  apply kept_cons; auto.
Qed.

(** ** The steps keep code well formed *)

Lemma zeroLiteral_valid t : validLiteral (zeroLiteralForType d t) = true.
Proof using. unfold validLiteral. by rewrite zeroLiteral_value. Qed.

Lemma initialize_kept s : everywhere wellFormedAt s = true -> kept [s] (initialize d s).
Proof using.
  induction s as [e|x e|x [e|]|f p r b Hb|e b Hb|e c Hc|pre e post b Hpre Hpost Hb| | | |b Hb] using Statement_nested_ind;
    intros Hw; cbn [initialize initializeVariables]; try (apply kept_refl; by rewrite wellFormed_one).
  - repeat split.
    + unfold wellFormed. apply forallb_map_of, Forall_true. intros y. cbn [everywhere]. rewrite andb_true_r. unfold wellFormedAt. cbn.
      by rewrite zeroLiteral_valid.
    + unfold definitions. cbn [flat_map app]. induction x as [|y x IH]; [done|]. cbn [map flat_map app]. apply IH. done.
    + intros _. apply forallb_map_of, Forall_true. done.
  - apply kept_function, kept_flat_map; [done|]. by eapply wellFormed_function.
  - apply kept_if; [done|]. apply kept_flat_map; [done|]. by eapply wellFormed_if.
  - apply kept_switch; [done|]. apply wellFormed_switch in Hw. clear -Hc Hw. induction Hc as [|p c Hb _ IH]; [constructor|].
    inversion Hw; subst. constructor; [|by apply IH]. split; [done|]. by apply kept_flat_map.
  - destruct (wellFormed_for _ _ _ _ Hw) as (-> & Hp & Hb'). apply kept_for; [done|by apply kept_flat_map..].
  - apply kept_block; [done|]. apply kept_flat_map; [done|]. by eapply wellFormed_block.
Qed.

Lemma VarDeclInitializer_kept _ast : wellFormed _ast = true -> kept _ast (VarDeclInitializer d _ast).
Proof using. apply kept_flat_map, Forall_true, initialize_kept. Qed.

(** *** DeadCodeEliminator *)

Definition dead_kept (s : Statement) : Prop :=
  everywhere wellFormedAt s = true -> forall s', deadCode d s = Some s' -> kept [s] [s'].

Lemma kept_drop s l l' : isFunctionDefinition s = false -> kept l l' -> kept (s :: l) l'.
Proof using.
  intros Hs (W & D & C). repeat split; [done| |].
  - rewrite D. unfold definitions. cbn [flat_map]. by destruct s.
  - cbn [forallb]. rewrite andb_true_iff. intros []. auto.
Qed.

Lemma dead_block_kept l l' dead :
  Forall dead_kept l -> wellFormed l = true -> YulOptimiser.deadBlock d (deadCode d) dead l = Some l' -> kept l l'.
Proof using.
  intros Hl. revert dead l'. induction Hl as [|s l Hs _ IH]; intros dead l' Hw E; cbn [YulOptimiser.deadBlock] in E.
  - injection E as <-. apply kept_nil.
  - apply wellFormed_cons in Hw as [Hws Hw]. destruct (dead && negb (isFunctionDefinition s)) eqn:Hd.
    + apply andb_true_iff in Hd as [_ Hd%negb_true_iff]. apply kept_drop; [done|]. by eapply IH.
    + destruct (deadCode d s) as [s'|] eqn:Es; [|done]. cbn [mbind option_bind] in E.
      destruct (YulOptimiser.deadBlock _ _ _ l) as [r|] eqn:Er; [|done]. injection E as <-.
      apply (kept_cons s [s']); [by apply Hs|by eapply IH].
Qed.

Lemma deadCode_kept s : dead_kept s.
Proof using.
  induction s as [e|x e|x e|f p r b Hb|e b Hb|e c Hc|pre e post b Hpre Hpost Hb| | | |b Hb] using Statement_nested_ind;
    intros Hw s' E; cbn [deadCode] in E; try (injection E as <-; apply kept_refl; by rewrite wellFormed_one).
  - destruct (YulOptimiser.deadBlock _ _ _ b) as [b'|] eqn:Eb; [|done]. injection E as <-. apply kept_function.
    apply dead_block_kept in Eb as (Wb & _); [done..|]. by eapply wellFormed_function.
  - destruct (YulOptimiser.deadBlock _ _ _ b) as [b'|] eqn:Eb; [|done]. injection E as <-. apply kept_if; [done|].
    eapply dead_block_kept; [done| |exact Eb]. by eapply wellFormed_if.
  - destruct (traverse _ c) as [c'|] eqn:Ec; [|done]. injection E as <-. apply kept_switch; [done|].
    apply wellFormed_switch in Hw. revert c' Ec. clear -Hc Hw.
    induction Hc as [|[l b] c Hb _ IH]; intros c' Ec; cbn [traverse fst snd] in *; [injection Ec as <-; constructor|].
    inversion Hw; subst. destruct (YulOptimiser.deadBlock _ _ _ b) as [b'|] eqn:Eb; [|done]. cbn [mbind option_bind] in Ec.
    destruct (traverse _ c) as [c2|]; [|done]. injection Ec as <-. constructor; [|by apply IH]. split; [done|].
    by eapply dead_block_kept.
  - destruct (assertThrow _); [|done]. cbn [mbind option_bind] in E.
    destruct (YulOptimiser.deadBlock _ _ _ post) as [post'|] eqn:Ep; [|done]. cbn [mbind option_bind] in E.
    destruct (YulOptimiser.deadBlock _ _ _ b) as [b'|] eqn:Eb; [|done]. injection E as <-.
    destruct (wellFormed_for _ _ _ _ Hw) as (-> & Hwp & Hwb). apply kept_for; [done|by eapply dead_block_kept..].
  - destruct (YulOptimiser.deadBlock _ _ _ b) as [b'|] eqn:Eb; [|done]. injection E as <-. apply kept_block; [done|].
    eapply dead_block_kept; [done| |exact Eb]. by eapply wellFormed_block.
Qed.

Lemma DeadCodeEliminator_kept _ast ast' : wellFormed _ast = true -> DeadCodeEliminator d _ast = Some ast' -> kept _ast ast'.
Proof using. apply dead_block_kept, Forall_true, deadCode_kept. Qed.

(** *** ConditionalSimplifier *)

Lemma assignment_kept x l b :
  validLiteral l = true -> kept b (Assignment [x] (LiteralExpression l) :: b) \/ wellFormed b = false.
Proof using.
  intros Hl. destruct (wellFormed b) eqn:Hb; [left|by right]. repeat split; [|done..].
  unfold wellFormed in *. cbn [forallb]. rewrite Hb, andb_true_r. cbn [everywhere]. rewrite andb_true_r.
  unfold wellFormedAt. cbn. by rewrite Hl.
Qed.

Lemma kept_assignment x l b b' : validLiteral l = true -> kept b b' -> kept b (Assignment [x] (LiteralExpression l) :: b').
Proof using.
  intros Hl Hb. apply (kept_trans b b'); [done|]. destruct (assignment_kept x l b' Hl) as [Ha|Ha]; [done|].
  destruct Hb as [Hw _]. by rewrite Hw in Ha.
Qed.

Local Abbreviation inBlock := (flat_map (fun s => conditionalSimplify d s :: zeroAfter d (conditionalSimplify d s))).

Lemma zeroAfter_kept s s' : kept [s] [s'] -> kept [s] (s' :: zeroAfter d s').
Proof using.
  intros Hs. destruct s' as [| | | |[f args|x|l] b| | | | | |]; try done. cbn [zeroAfter]. destruct (endsFlow d b); [|done].
  destruct Hs as (W & D & C). repeat split.
  - unfold wellFormed in *. cbn [forallb] in *. rewrite andb_true_r in *. rewrite W. cbn [andb everywhere]. rewrite andb_true_r.
    unfold wellFormedAt. cbn. by rewrite zeroLiteral_valid.
  - rewrite <- D. done.
  - intros Hc. specialize (C Hc). cbn [forallb] in *. rewrite andb_true_r in C. by rewrite C.
Qed.

Lemma switch_literal e c l b : everywhere wellFormedAt (Switch e c) = true -> In (Some l, b) c -> validLiteral l = true.
Proof using.
  cbn [everywhere]. intros [Hw _]%andb_true_iff Hin. apply wellFormedAt_parts in Hw as (_ & Hl & _). cbn [literalsValid] in Hl.
  rewrite forallb_forall in Hl. exact (Hl _ Hin).
Qed.

Lemma simplify_kept s : everywhere wellFormedAt s = true -> kept [s] [conditionalSimplify d s].
Proof using.
  assert (forall b, Forall (fun s => everywhere wellFormedAt s = true -> kept [s] [conditionalSimplify d s]) b ->
    wellFormed b = true -> kept b (inBlock b)) as Hall.
  { intros b Hb. apply kept_flat_map. eapply Forall_impl; [exact Hb|]. intros a Ha Hw. by apply zeroAfter_kept, Ha. }
  induction s as [e|x e|x e|f p r b Hb|e b Hb|e c Hc|pre e post b Hpre Hpost Hb| | | |b Hb] using Statement_nested_ind;
    intros Hw; cbn [conditionalSimplify]; try (apply kept_refl; by rewrite wellFormed_one).
  - apply kept_function. apply (Hall b Hb). by eapply wellFormed_function.
  - apply kept_if; [done|]. apply Hall; [done|]. by eapply wellFormed_if.
  - apply kept_switch; [done|]. pose proof (wellFormed_switch _ _ Hw) as Hws.
    assert (forall l b, In (Some l, b) c -> validLiteral l = true) as Hl by (intros l b; by eapply switch_literal).
    clear Hw. induction Hc as [|[o b] c Hb _ IH]; [constructor|]. inversion Hws; subst.
    constructor; [|apply IH; [done|]; intros l b' Hin; apply (Hl l b'); by right]. split; [done|]. cbn [fst snd] in *.
    destruct e as [f args|x|l], o as [lit|]; cbn [valueFirst app]; try by apply Hall.
    apply kept_assignment; [apply (Hl lit b); by left|]. by apply Hall.
  - destruct (wellFormed_for _ _ _ _ Hw) as (-> & Hp & Hb'). apply kept_for; [done|by apply Hall..].
  - apply kept_block; [done|]. apply Hall; [done|]. by eapply wellFormed_block.
Qed.

Lemma ConditionalSimplifier_kept _ast : wellFormed _ast = true -> kept _ast (ConditionalSimplifier d _ast).
Proof using. apply kept_flat_map, Forall_true. intros s Hw. by apply zeroAfter_kept, simplify_kept. Qed.

(** *** ConditionalUnsimplifier *)

Lemma kept_traverse (f : Statement -> option Statement) b b' :
  Forall (fun s => everywhere wellFormedAt s = true -> forall s', f s = Some s' -> kept [s] [s']) b -> traverse f b = Some b' ->
  wellFormed b = true -> kept b b'.
Proof using.
  intros Hb. revert b'. induction Hb as [|s b Hs _ IH]; intros b' E Hw; cbn [traverse] in E; [injection E as <-; apply kept_nil|].
  apply wellFormed_cons in Hw as [Hws Hw]. destruct (f s) as [s'|] eqn:Es; [|done]. cbn [mbind option_bind] in E.
  destruct (traverse f b) as [r|]; [|done]. injection E as <-. apply (kept_cons s [s']); [by apply Hs|by apply IH].
Qed.

Lemma removed_kept l r : removed d l r -> wellFormed l = true -> kept l r.
Proof using.
  induction 1 as [|s l r _ IH|s1 s2 l r Hz _ IH]; intros Hw; [apply kept_nil| |].
  - apply wellFormed_cons in Hw as [Hws Hw]. apply (kept_cons s [s]); [apply kept_refl; by rewrite wellFormed_one|by apply IH].
  - apply wellFormed_cons in Hw as [Hw1 Hw]. apply wellFormed_cons in Hw as [_ Hw].
    apply (kept_cons s1 [s1]); [apply kept_refl; by rewrite wellFormed_one|]. apply kept_drop; [|by apply IH].
    unfold isZeroAfter in Hz. destruct s1 as [| | | |[f args|c|k] b| | | | | |]; try done. destruct (endsFlow d b); [|done].
    by destruct (assignsValue_true _ _ _ Hz) as (l' & w & -> & _).
Qed.

Local Abbreviation unsimplifyBody := (unsimplifyBody d (conditionalUnsimplify d)).

Definition unsimplify_kept (s : Statement) : Prop :=
  everywhere wellFormedAt s = true -> forall s', conditionalUnsimplify d s = Some s' -> kept [s] [s'].

Lemma unsimplify_body_kept b b' : Forall unsimplify_kept b -> unsimplifyBody b = Some b' -> wellFormed b = true -> kept b b'.
Proof using.
  intros Hb E Hw. unfold YulOptimiser.unsimplifyBody in E. destruct (traverse (conditionalUnsimplify d) b) as [l|] eqn:El; [|done].
  cbn [mbind option_bind] in E. apply (kept_trans b l); [by eapply kept_traverse|]. apply removed_kept; [by apply removeZeros_removed|].
  by apply (kept_traverse _ _ _ Hb El Hw).
Qed.

Lemma value_case_kept e o b p : value_case e (o, b) p -> wellFormed (snd p) = true -> kept (snd p) b.
Proof using.
  intros Hv Hw. assert (b = snd p \/ exists s, isFunctionDefinition s = false /\ snd p = s :: b) as [->|(s & Hs & E)].
  { destruct e; cbn [value_case] in Hv; [left; by subst p| |left; by subst p]. inversion Hv; subst; [by left|right].
    eexists. split; [|reflexivity]. done. }
  - by apply kept_refl.
  - rewrite E in Hw |- *. apply wellFormed_cons in Hw as [_ Hw]. apply kept_drop; [done|by apply kept_refl].
Qed.

Lemma unsimplify_statement_kept s : unsimplify_kept s.
Proof using.
  induction s as [e|x e|x e|f p r b Hb|e b Hb|e c Hc|pre e post b Hpre Hpost Hb| | | |b Hb] using Statement_nested_ind;
    intros Hw s' E; cbn [conditionalUnsimplify] in E; try (injection E as <-; apply kept_refl; by rewrite wellFormed_one).
  - destruct (unsimplifyBody b) eqn:Eb; [|done]. injection E as <-. apply kept_function.
    apply unsimplify_body_kept in Eb as (Wb & _); [done..|]. by eapply wellFormed_function.
  - destruct (unsimplifyBody b) eqn:Eb; [|done]. injection E as <-. apply kept_if; [done|].
    apply unsimplify_body_kept; [done..|]. by eapply wellFormed_if.
  - destruct (traverse _ c) as [c'|] eqn:Ec; [|done]. injection E as <-. apply kept_switch; [done|].
    apply wellFormed_switch in Hw. revert c' Ec. clear -Hc Hw.
    induction Hc as [|p c Hb _ IH]; intros c' Ec; cbn [traverse] in *; [injection Ec as <-; constructor|].
    inversion Hw; subst. destruct (unsimplifyCase d (conditionalUnsimplify d) e p) as [p'|] eqn:Ep; [|done].
    cbn [mbind option_bind] in Ec. destruct (traverse _ c) as [c2|]; [|done]. injection Ec as <-. constructor; [|by apply IH].
    apply unsimplifyCase_split in Ep as (b & Hv & Hl & Eb & Hp & HQ). split; [done|].
    apply value_case_kept in Hv; [|done]. apply (kept_trans _ b); [done|]. apply unsimplify_body_kept; [by apply HQ|done|by apply Hv].
  - destruct (wellFormed_for _ _ _ _ Hw) as (-> & Hwp & Hwb). cbn [YulOptimiser.unsimplifyBody traverse mbind option_bind removeZeros] in E.
    destruct (unsimplifyBody post) eqn:E2; [|done]. cbn [mbind option_bind] in E. destruct (unsimplifyBody b) eqn:E3; [|done].
    injection E as <-. apply kept_for; [done|by apply unsimplify_body_kept..].
  - destruct (unsimplifyBody b) eqn:Eb; [|done]. injection E as <-. apply kept_block; [done|].
    apply unsimplify_body_kept; [done..|]. by eapply wellFormed_block.
Qed.

Lemma ConditionalUnsimplifier_kept _ast ast' : wellFormed _ast = true -> ConditionalUnsimplifier d _ast = Some ast' -> kept _ast ast'.
Proof using. intros Hw E. apply unsimplify_body_kept; [|done..]. apply Forall_true, unsimplify_statement_kept. Qed.

(** *** ForLoopConditionIntoBody *)

Lemma negation_valid g e : booleanNegationFunction d = Some g -> validExpression (FunctionCall (builtin_name g) [e]) = validExpression e.
Proof using. intros Hg. cbn [validExpression]. rewrite Hg, String.eqb_refl. cbn. apply andb_true_r. Qed.

Lemma for_parts e post b :
  everywhere wellFormedAt (ForLoop [] e post b) = true <->
  validExpression e = true /\ conditionVisible d (ForLoop [] e post b) = true /\ forallb calm post = true /\
  wellFormed post = true /\ wellFormed b = true.
Proof using.
  cbn [everywhere forallb andb]. unfold wellFormedAt, wellFormed. cbn [expressions literalsValid switchValid emptyInit postCalm forallb].
  rewrite !andb_true_iff. tauto.
Qed.

Lemma if_parts e b : everywhere wellFormedAt (If e b) = true <-> validExpression e = true /\ wellFormed b = true.
Proof using.
  cbn [everywhere forallb andb]. unfold wellFormedAt, wellFormed. cbn [expressions literalsValid switchValid conditionVisible emptyInit postCalm forallb].
  rewrite !andb_true_iff. tauto.
Qed.

Lemma conditionIntoBody_kept e post b r :
  everywhere wellFormedAt (ForLoop [] e post b) = true -> conditionIntoBody d e b = r ->
  kept [ForLoop [] e post b] [ForLoop [] (fst r) post (snd r)].
Proof using.
  intros Hw <-. unfold conditionIntoBody. destruct (booleanNegationFunction d) as [g|] eqn:Hg; [|apply kept_refl; by rewrite wellFormed_one].
  destruct e as [f args|x|l]; try (apply kept_refl; by rewrite wellFormed_one). apply for_parts in Hw as (H1 & H2 & H3 & H4 & H5).
  repeat split. rewrite wellFormed_one. cbn [fst snd]. apply for_parts. repeat split; try done. unfold wellFormed. cbn [forallb].
  apply andb_true_iff. split; [|done]. apply if_parts. split; [by rewrite negation_valid|done].
Qed.

Lemma kept_map (f : Statement -> Statement) l :
  Forall (fun s => everywhere wellFormedAt s = true -> kept [s] [f s]) l -> wellFormed l = true -> kept l (map f l).
Proof using.
  induction 1 as [|s l Hs _ IH]; intros Hw; [apply kept_nil|]. apply wellFormed_cons in Hw as [Hws Hw]. cbn [map].
  apply (kept_cons s [f s]); auto.
Qed.

Lemma intoBody_kept s : everywhere wellFormedAt s = true -> kept [s] [intoBody d s].
Proof using.
  induction s as [e|x e|x e|f p r b Hb|e b Hb|e c Hc|pre e post b Hpre Hpost Hb| | | |b Hb] using Statement_nested_ind;
    intros Hw; cbn [intoBody]; try (apply kept_refl; by rewrite wellFormed_one).
  - apply kept_function. apply kept_map; [done|]. by eapply wellFormed_function.
  - apply kept_if; [done|]. apply kept_map; [done|]. by eapply wellFormed_if.
  - apply kept_switch; [done|]. apply wellFormed_switch in Hw. clear -Hc Hw. induction Hc as [|p c Hb _ IH]; [constructor|].
    inversion Hw; subst. constructor; [|by apply IH]. split; [done|]. by apply kept_map.
  - destruct (wellFormed_for _ _ _ _ Hw) as (-> & Hp & Hb'). cbn [map].
    assert (kept [ForLoop [] e post b] [ForLoop [] e (map (intoBody d) post) (map (intoBody d) b)]) as H1
      by (apply kept_for; [done|by apply kept_map..]).
    apply (kept_trans _ _ _ H1). apply conditionIntoBody_kept; [|done]. destruct H1 as [H1 _]. by rewrite wellFormed_one in H1.
  - apply kept_block; [done|]. apply kept_map; [done|]. by eapply wellFormed_block.
Qed.

Lemma ForLoopConditionIntoBody_kept _ast : wellFormed _ast = true -> kept _ast (ForLoopConditionIntoBody d _ast).
Proof using. apply kept_map, Forall_true, intoBody_kept. Qed.

(** *** ForLoopConditionOutOfBody *)

Lemma conditionVisible_builtins pre e post b : calls d e = [] -> conditionVisible d (ForLoop pre e post b) = true.
Proof using. intros Hc. cbn [conditionVisible]. by rewrite Hc. Qed.

Section Lawful.
Context `{!Lawful d}.

Lemma negated_valid g c c' :
  booleanNegationFunction d = Some g -> negated g c = Some c' -> validExpression c = true -> calls d c = [] ->
  validExpression c' = true /\ calls d c' = [].
Proof using Lawful0.
  intros Hg Hn Hv Hc. destruct (negation_law g Hg) as (Hb & _).
  assert (validExpression (FunctionCall (builtin_name g) [c]) = true /\ calls d (FunctionCall (builtin_name g) [c]) = []) as H.
  { rewrite negation_valid by done. split; [done|]. cbn [calls]. by rewrite Hb, Hc. }
  destruct c as [f args|x|l]; [|by injection Hn as <-..]. unfold negated in Hn.
  destruct (String.eqb f (builtin_name g)); [|by injection Hn as <-]. destruct args as [|a args]; [done|]. injection Hn as ->.
  cbn [validExpression] in Hv. rewrite !andb_true_iff in Hv. destruct Hv as (_ & Ha & _). split; [done|]. cbn [calls] in Hc.
  apply app_eq_nil in Hc as [_ Hc]. by apply app_eq_nil in Hc as [Hc _].
Qed.

Lemma conditionOutOfBody_kept e post b r :
  everywhere wellFormedAt (ForLoop [] e post b) = true -> conditionOutOfBody d e b = Some r ->
  kept [ForLoop [] e post b] [ForLoop [] (fst r) post (snd r)].
Proof using Lawful0.
  intros Hw E. assert (kept [ForLoop [] e post b] [ForLoop [] e post b]) as Hk by (apply kept_refl; by rewrite wellFormed_one).
  unfold conditionOutOfBody in E. destruct (booleanNegationFunction d) as [g|] eqn:Hg; [|by injection E as <-].
  destruct e as [f args|x|l]; [by injection E as <-..|]. destruct (valueOfLiteral l) as [y|]; [|done]. cbn [mbind option_bind] in E.
  destruct (y =? 0); [by injection E as <-|]. destruct b as [|[| | | |c [|[| | | | | | |  | | |] brk]| | | | | |] rest]; try by injection E as <-.
  destruct (movable (expressionEffects d c)) eqn:Hm; [|by injection E as <-].
  destruct (negated g c) as [c'|] eqn:Hn; [|done]. injection E as <-. cbn [fst snd].
  apply for_parts in Hw as (H1 & H2 & H3 & H4 & H5). apply wellFormed_cons in H5 as [[Hc _]%if_parts H5].
  destruct (negated_valid g c c' Hg Hn Hc (movable_calls d c Hm)) as [Hv Hcalls]. repeat split.
  rewrite wellFormed_one. apply for_parts. repeat split; try done. by apply conditionVisible_builtins.
Qed.

Definition out_kept (s : Statement) : Prop :=
  everywhere wellFormedAt s = true -> forall s', outOfBody d s = Some s' -> kept [s] [s'].

Lemma outOfBody_kept s : out_kept s.
Proof using Lawful0.
  induction s as [e|x e|x e|f p r b Hb|e b Hb|e c Hc|pre e post b Hpre Hpost Hb| | | |b Hb] using Statement_nested_ind;
    intros Hw s' E; cbn [outOfBody] in E; try (injection E as <-; apply kept_refl; by rewrite wellFormed_one).
  - destruct (traverse _ b) eqn:Eb; [|done]. injection E as <-. apply kept_function.
    apply kept_traverse in Eb as (Wb & _); [done..|]. by eapply wellFormed_function.
  - destruct (traverse _ b) eqn:Eb; [|done]. injection E as <-. apply kept_if; [done|].
    eapply kept_traverse; [exact Hb|done|]. by eapply wellFormed_if.
  - destruct (traverse _ c) as [c'|] eqn:Ec; [|done]. injection E as <-. apply kept_switch; [done|].
    apply wellFormed_switch in Hw. revert c' Ec. clear -Hc Hw.
    induction Hc as [|p c Hb _ IH]; intros c' Ec; cbn [traverse] in *; [injection Ec as <-; constructor|].
    inversion Hw; subst. destruct (traverse (outOfBody d) (snd p)) as [b'|] eqn:Eb; [|done]. cbn [mbind option_bind] in Ec.
    destruct (traverse _ c) as [c2|]; [|done]. injection Ec as <-. constructor; [|by apply IH]. split; [done|].
    by eapply kept_traverse.
  - destruct (wellFormed_for _ _ _ _ Hw) as (-> & Hwp & Hwb). cbn [traverse mbind option_bind] in E.
    destruct (traverse (outOfBody d) post) as [post'|] eqn:E2; [|done]. cbn [mbind option_bind] in E.
    destruct (traverse (outOfBody d) b) as [b'|] eqn:E3; [|done]. cbn [mbind option_bind] in E.
    destruct (conditionOutOfBody d e b') as [q|] eqn:Eq; [|done]. injection E as <-.
    assert (kept [ForLoop [] e post b] [ForLoop [] e post' b']) as H1 by (apply kept_for; [done|by eapply kept_traverse..]).
    apply (kept_trans _ _ _ H1). apply conditionOutOfBody_kept; [|done]. destruct H1 as [H1 _]. by rewrite wellFormed_one in H1.
  - destruct (traverse _ b) eqn:Eb; [|done]. injection E as <-. apply kept_block; [done|].
    eapply kept_traverse; [exact Hb|done|]. by eapply wellFormed_block.
Qed.

Lemma ForLoopConditionOutOfBody_kept _ast ast' :
  wellFormed _ast = true -> ForLoopConditionOutOfBody d _ast = Some ast' -> kept _ast ast'.
Proof using Lawful0. intros Hw E. eapply kept_traverse; [|exact E|done]. apply Forall_true, outOfBody_kept. Qed.
End Lawful.

(** *** ControlFlowSimplifier *)

Section Flow.
Context `{!Lawful d}.

Lemma call_valid f e : validExpression e = true -> validExpression (FunctionCall f [e]) = true.
Proof using.
  intros He. cbn [validExpression]. rewrite He. destruct (booleanNegationFunction d) as [g|]; [|done]. by destruct (String.eqb f _).
Qed.

Lemma discard_wellFormed f e : validExpression e = true -> everywhere wellFormedAt (makeDiscardCall f e) = true.
Proof using.
  intros He. cbn [makeDiscardCall everywhere]. rewrite andb_true_r. unfold wellFormedAt. cbn [expressions forallb].
  by rewrite call_valid.
Qed.

(** The function that compares is not the one that negates. *)
Lemma equality_valid t f l e :
  equalityFunction d t = Some (Some f) -> validLiteral l = true -> validExpression e = true ->
  validExpression (FunctionCall (builtin_name f) [LiteralExpression l; e]) = true.
Proof using Lawful0.
  intros Hf Hl He. cbn [validExpression]. rewrite Hl, He. destruct (booleanNegationFunction d) as [g|] eqn:Hg; [|done].
  destruct (String.eqb_spec (builtin_name f) (builtin_name g)) as [Hn|]; [|done].
  destruct (equality_law t f Hf) as (Hb & Hi & _), (negation_law g Hg) as (Hb' & Hi' & _).
  rewrite Hn, Hb' in Hb. injection Hb as ->. congruence.
Qed.

Lemma simplifyIf_kept e empty body r :
  everywhere wellFormedAt (If e body) = true -> simplifyIf d e empty body = Some r -> kept [If e body] r.
Proof using.
  intros Hw E. assert (kept [If e body] [If e body]) as Hk by (apply kept_refl; by rewrite wellFormed_one).
  unfold simplifyIf in E. destruct empty; [|by injection E as <-]. apply if_parts in Hw as [He _].
  destruct (discardFunction d (boolType d)) as [[f|]|]; [|by injection E as <-|done]. injection E as <-.
  repeat split. rewrite wellFormed_one. by apply discard_wellFormed.
Qed.

Lemma switch_parts e c :
  everywhere wellFormedAt (Switch e c) = true <->
  validExpression e = true /\ literalsValid (Switch e c) = true /\ switchValid (Switch e c) = true /\
  forallb (fun p => wellFormed (snd p)) c = true.
Proof using.
  cbn [everywhere forallb andb]. unfold wellFormedAt, wellFormed. cbn [expressions conditionVisible emptyInit postCalm forallb].
  rewrite !andb_true_iff. tauto.
Qed.

Lemma remaining_in q c : In q (remaining c) -> In q c.
Proof using.
  unfold remaining, removeEmptyCasesFromSwitch, removeEmptyDefaultFromSwitch. destruct (existsb isDefault _); rewrite ?filter_In; tauto.
Qed.

Lemma simplifySwitch_kept types e c r :
  everywhere wellFormedAt (Switch e (cases_of c)) = true -> empty_cases c -> simplifySwitch d types e c = Some r ->
  kept [Switch e (cases_of c)] r.
Proof using Lawful0.
  intros Hw Hc E. apply switch_parts in Hw as (He & Hl & Hs & Hb). cbn [switchValid] in Hs. apply andb_true_iff in Hs as [Hn Hv].
  destruct (remaining_facts d (fun _ => 0) c Hc Hv) as (Hv' & _ & _). unfold simplifySwitch in E. fold (remaining c) in E.
  assert (forall q, In q (remaining c) -> match fst (fst q) with Some l => validLiteral l | None => true end = true /\
    wellFormed (snd q) = true /\ (forallb calm [Switch e (cases_of c)] = true -> forallb calm (snd q) = true)) as Hin.
  { intros q Hq%remaining_in. assert (In (fst (fst q), snd q) (cases_of c)) as Hq' by (by apply (in_map (fun c => (fst (fst c), snd c)))).
    cbn [literalsValid] in Hl. rewrite forallb_forall in Hl, Hb. split; [apply (Hl _ Hq')|]. split; [apply (Hb _ Hq')|].
    cbn [forallb calm]. rewrite andb_true_r, forallb_forall. intros Hcalm. apply (Hcalm _ Hq'). }
  assert (remaining c <> [] -> kept [Switch e (cases_of c)] [Switch e (cases_of (remaining c))]) as Hk.
  { intros Hne. repeat split.
    - rewrite wellFormed_one. apply switch_parts. repeat split; [done| | |].
      + cbn [literalsValid]. apply forallb_forall. intros p (q & <- & Hq)%in_map_iff. apply (Hin q Hq).
      + cbn [switchValid]. rewrite Hv', andb_true_r. by destruct (remaining c).
      + apply forallb_forall. intros p (q & <- & Hq)%in_map_iff. apply (Hin q Hq).
    - intros Hcalm. cbn [forallb calm]. rewrite andb_true_r. apply forallb_forall. intros p (q & <- & Hq)%in_map_iff. by apply (Hin q Hq). }
  destruct (remaining c) as [|[[o b] body] [|q k]].
  - unfold reduceNoCaseSwitch in E. destruct (typeOf d types e) as [t|]; [|done]. cbn [mbind option_bind] in E.
    destruct (discardFunction d t) as [[f|]|] eqn:Hf; [|by apply discard_total in Hf|done]. injection E as <-.
    repeat split. rewrite wellFormed_one. by apply discard_wellFormed.
  - specialize (Hk ltac:(done)). destruct (Hin (o, b, body) (or_introl eq_refl)) as (Hlit & Hbody & Hcalm). cbn [fst snd] in *.
    unfold reduceSingleCaseSwitch in E. destruct (typeOf d types e) as [t|]; [|done]. cbn [mbind option_bind] in E. destruct o as [l|].
    + destruct (equalityFunction d t) as [[f|]|] eqn:Hf; [|by injection E as <-|done]. injection E as <-. repeat split.
      * rewrite wellFormed_one. apply if_parts. split; [|done]. by apply (equality_valid t).
      * intros H. cbn [forallb calm]. rewrite andb_true_r. by apply Hcalm.
    + destruct (discardFunction d t) as [[f|]|] eqn:Hf; [|by injection E as <-|done]. injection E as <-. repeat split.
      * unfold wellFormed. cbn [forallb]. rewrite discard_wellFormed by done. cbn [everywhere]. unfold wellFormed in Hbody. by rewrite Hbody.
      * intros H. cbn [forallb calm makeDiscardCall]. rewrite andb_true_r. by apply Hcalm.
  - injection E as <-. by apply Hk.
Qed.

Lemma forallb_removelast (p : Statement -> bool) l : forallb p l = true -> forallb p (removelast l) = true.
Proof using.
  induction l as [|s l IH]; [done|]. cbn [forallb]. intros [Hs Hl]%andb_true_iff. destruct l as [|s' l]; [done|].
  change (removelast (s :: s' :: l)) with (s :: removelast (s' :: l)). cbn [forallb]. rewrite Hs. by apply IH.
Qed.

Lemma replaceLoop_kept e post body n :
  everywhere wellFormedAt (ForLoop [] e post body) = true -> (total jumps body <= fst n + snd n)%nat ->
  kept [ForLoop [] e post body] [replaceLoop d e post body n].
Proof using.
  intros Hw Hn. destruct (replaceLoop_equiv d (fun _ => 0) e post body n Hn) as [_ Hj].
  assert (forall r, r = replaceLoop d e post body n -> definitions [r] = [] /\ everywhere wellFormedAt r = true) as H.
  { apply for_parts in Hw as Hp. destruct Hp as (He & _ & _ & _ & Hb). unfold replaceLoop.
    intros r ->. destruct (last body) as [s|]; [|done]. destruct (_ && _); [|done].
    split; [done|]. apply if_parts. split; [done|]. destruct (bool_decide _); [by apply forallb_removelast|done]. }
  destruct (H _ eq_refl) as [Hd Hwf]. split; [by rewrite wellFormed_one|]. split; [done|]. intros _. by apply total_calm.
Qed.

Section Step.
Context (types : Types).
Local Abbreviation step := (simplify d types).

Definition step_kept (s : Statement) : Prop :=
  everywhere wellFormedAt s = true -> forall n r, step s n = Some r -> kept [s] (fst r).

Lemma step_all_kept b : Forall step_kept b -> wellFormed b = true -> forall n r, simplifyAll step b n = Some r -> kept b (fst r).
Proof using.
  induction 1 as [|s b Hs _ IH]; intros Hw n r E; cbn [simplifyAll] in E; [injection E as <-; apply kept_nil|].
  apply wellFormed_cons in Hw as [Hws Hw]. destruct (step s n) as [q|] eqn:Eq; [|done]. cbn [mbind option_bind] in E.
  destruct (simplifyAll step b (snd q)) as [q'|] eqn:Eq'; [|done]. injection E as <-. cbn [fst].
  apply kept_cons; [by eapply Hs|by eapply IH].
Qed.

Lemma step_cases_kept c :
  Forall (fun p => Forall step_kept (snd p)) c -> Forall (fun p => wellFormed (snd p) = true) c ->
  forall n r, simplifyCases step c n = Some r ->
  Forall2 (fun p p' => fst p = fst p' /\ kept (snd p) (snd p')) c (cases_of (fst r)) /\ empty_cases (fst r).
Proof using.
  induction 1 as [|[l b] c Hb _ IH]; intros Hw n r E; cbn [simplifyCases] in E; [injection E as <-; by repeat constructor|].
  inversion Hw; subst. destruct (simplifyAll step b n) as [q|] eqn:Eq; [|done]. cbn [mbind option_bind] in E.
  destruct (simplifyCases step c (snd q)) as [q'|] eqn:Eq'; [|done]. injection E as <-. cbn [fst snd].
  edestruct IH as [K1 K2]; [done|exact Eq'|]. split.
  - constructor; [|done]. split; [done|]. cbn [snd]. by eapply step_all_kept.
  - constructor; [|done]. cbn [fst snd]. destruct b; [|done]. intros _. by injection Eq as <-.
Qed.

Lemma wellFormed_switches l : wellFormed l = true -> forallb (everywhere switchValid) l = true.
Proof using. apply wellFormed_every. intros s Hs. apply wellFormedAt_parts in Hs. tauto. Qed.

Lemma step_statement_kept s : step_kept s.
Proof using Lawful0.
  induction s as [e|x e|x e|f p r b Hb|e b Hb|e c Hc|pre e post b Hpre Hpost Hb| | | |b Hb] using Statement_nested_ind;
    intros Hw n q E; cbn [simplify] in E; try (injection E as <-; cbn [fst]; apply kept_refl; rewrite wellFormed_one; exact Hw).
  - destruct (simplifyAll step b n) as [q1|] eqn:E1; [|done]. injection E as <-. cbn [fst]. apply kept_function.
    apply step_all_kept in E1 as (Wb & _); [|done|by eapply wellFormed_function]. unfold removeLeave.
    destruct (last (fst q1)) as [[]|]; try done. by apply forallb_removelast.
  - destruct (simplifyAll step b n) as [q1|] eqn:E1; [|done]. cbn [mbind option_bind] in E.
    destruct (simplifyIf d e _ (fst q1)) as [r|] eqn:Er; [|done]. injection E as <-. cbn [fst].
    apply step_all_kept in E1; [|done|by eapply wellFormed_if]. pose proof (kept_if e b _ Hw E1) as H1.
    apply (kept_trans _ _ _ H1). eapply simplifyIf_kept; [|exact Er]. destruct H1 as [H1 _]. by rewrite wellFormed_one in H1.
  - destruct (simplifyCases step c n) as [q1|] eqn:E1; [|done]. cbn [mbind option_bind] in E.
    destruct (simplifySwitch d types e (fst q1)) as [r|] eqn:Er; [|done]. injection E as <-. cbn [fst].
    pose proof (wellFormed_switch _ _ Hw) as Hws. destruct (step_cases_kept c Hc Hws n q1 E1) as [H2 He].
    pose proof (kept_switch e c _ Hw H2) as H1. apply (kept_trans _ _ _ H1). eapply simplifySwitch_kept; [|done|exact Er].
    destruct H1 as [H1 _]. by rewrite wellFormed_one in H1.
  - destruct (wellFormed_for _ _ _ _ Hw) as (-> & Hwp & Hwb). cbn [assertThrow mbind option_bind] in E.
    destruct (simplifyAll step post _) as [q1|] eqn:E1; [|done]. cbn [mbind option_bind] in E.
    destruct (simplifyAll step b (snd q1)) as [q2|] eqn:E2; [|done]. injection E as <-. cbn [fst].
    pose proof (step_all_kept post Hpost Hwp _ _ E1) as Kp. pose proof (step_all_kept b Hb Hwb _ _ E2) as Kb.
    pose proof (kept_for e post _ b _ Hw Kp Kb) as H1. apply (kept_trans _ _ _ H1). apply replaceLoop_kept;
      [destruct H1 as [H1 _]; by rewrite wellFormed_one in H1|].
    destruct (step_all d (fun _ => 0) types post (Forall_true _ _ (step_statement d (fun _ => 0) types)) _ _ E1) as [_ C1];
      [by apply wellFormed_regular|by apply wellFormed_switches|].
    destruct (step_all d (fun _ => 0) types b (Forall_true _ _ (step_statement d (fun _ => 0) types)) _ _ E2) as [_ C2];
      [by apply wellFormed_regular|by apply wellFormed_switches|]. unfold counted in *. lia.
  - destruct (simplifyAll step b n) as [q1|] eqn:E1; [|done]. injection E as <-. cbn [fst]. apply kept_block; [done|].
    eapply step_all_kept; [done| |exact E1]. by eapply wellFormed_block.
Qed.
End Step.

Lemma ControlFlowSimplifier_kept _ast ast' : wellFormed _ast = true -> ControlFlowSimplifier d _ast = Some ast' -> kept _ast ast'.
Proof using Lawful0.
  intros Hw E. unfold ControlFlowSimplifier in E. destruct (simplifyAll _ _ast _) as [q|] eqn:Eq; [|done]. injection E as <-.
  eapply step_all_kept; [apply Forall_true, step_statement_kept|done|exact Eq].
Qed.
End Flow.
End WellFormed.
