(* ===== verification/YulSuite.v ===== *)
(** * YulSuite: sequences of steps of the Yul optimiser, libyul/optimiser/Suite.cpp

    The steps by name and abbreviation, the sequences of abbreviations a user gives, and how they
    are run: a part in brackets is repeated until the size of the code (Metrics.cpp) does not
    change, at most [MaxRounds] times.  The steps that are not modelled are a parameter. *)

From Stdlib Require Import Ascii.
From stdpp Require Import strings.
From S2P Require Import Prelude U256 CommonData Instruction Interpreter Yul YulOptimiser.

(** ** The size of code *)

Record CodeWeights : Set := mkWeights {
  expressionStatementCost : Z; assignmentCost : Z; variableDeclarationCost : Z; functionDefinitionCost : Z;
  ifCost : Z; switchCost : Z; caseCost : Z; forLoopCost : Z; breakCost : Z; continueCost : Z; leaveCost : Z;
  blockCost : Z; functionCallCost : Z; identifierCost : Z; literalCost : Z }.

Definition defaultWeights : CodeWeights := mkWeights 0 0 0 1 2 1 2 3 2 2 2 0 1 0 1.

Section CodeSize.
Context (m_weights : CodeWeights) (m_ignoreFunctions : bool).

Definition costOfStatement (_statement : Statement) : Z :=
  match _statement with
  | ExpressionStatement _ => expressionStatementCost m_weights
  | Assignment _ _ => assignmentCost m_weights
  | VariableDeclaration _ _ => variableDeclarationCost m_weights
  | FunctionDefinition _ _ _ _ => functionDefinitionCost m_weights
  | If _ _ => ifCost m_weights
  | Switch _ cases => switchCost m_weights + caseCost m_weights * Z.of_nat (length cases)
  | ForLoop _ _ _ _ => forLoopCost m_weights
  | Break => breakCost m_weights
  | Continue => continueCost m_weights
  | Leave => leaveCost m_weights
  | Block _ => blockCost m_weights
  end.

Definition costOfExpression (_expression : Expression) : Z :=
  match _expression with
  | FunctionCall _ _ => functionCallCost m_weights
  | Identifier _ => identifierCost m_weights
  | LiteralExpression _ => literalCost m_weights
  end.

Fixpoint expressionSize (e : Expression) : Z :=
  costOfExpression e +
  match e with
  | FunctionCall _ arguments =>
      (fix all (l : list Expression) : Z := match l with [] => 0 | a :: l => all l + expressionSize a end) arguments
  | _ => 0
  end.

(** [visit] of a statement. *)
Fixpoint statementSize (s : Statement) : Z :=
  let all := fix all (l : list Statement) : Z := match l with [] => 0 | s :: l => statementSize s + all l end in
  if isFunctionDefinition s && m_ignoreFunctions then 0
  else
    costOfStatement s +
    match s with
    | ExpressionStatement e | Assignment _ e | VariableDeclaration _ (Some e) => expressionSize e
    | FunctionDefinition _ _ _ b => all b
    | If e b => expressionSize e + all b
    | Switch e c =>
        expressionSize e +
        (fix cases (c : list (option Literal * list Statement)) : Z := match c with [] => 0 | (_, b) :: c => all b + cases c end) c
    | ForLoop pre e post b => all pre + expressionSize e + all b + all post
    | Block b => all b
    | _ => 0
    end.

Definition blockSize (b : list Statement) : Z := fold_right (fun s n => statementSize s + n) 0 b.
End CodeSize.

Definition codeSizeIncludingFunctions (_block : list Statement) : Z := blockSize defaultWeights false _block.

(** ** Steps *)

Module OptimiserStep.
Inductive t : Set :=
| BlockFlattener | CircularReferencesPruner | CommonSubexpressionEliminator | ConditionalSimplifier
| ConditionalUnsimplifier | ControlFlowSimplifier | DeadCodeEliminator | EquivalentFunctionCombiner
| ExpressionInliner | ExpressionJoiner | ExpressionSimplifier | ExpressionSplitter | ForLoopConditionIntoBody
| ForLoopConditionOutOfBody | ForLoopInitRewriter | FullInliner | FunctionGrouper | FunctionHoister
| LiteralRematerialiser | LoadResolver | LoopInvariantCodeMotion | RedundantAssignEliminator | Rematerialiser
| SSAReverser | SSATransform | StructuralSimplifier | UnusedPruner | VarDeclInitializer.
#[export] Instance eq_dec : EqDecision t.
Proof. solve_decision. Defined.
End OptimiserStep.
Export (hints) OptimiserStep.

Definition stepNameToAbbreviationMap : list (OptimiserStep.t * Z) :=
  [(OptimiserStep.BlockFlattener, chr "f"); (OptimiserStep.CircularReferencesPruner, chr "l");
   (OptimiserStep.CommonSubexpressionEliminator, chr "c"); (OptimiserStep.ConditionalSimplifier, chr "C");
   (OptimiserStep.ConditionalUnsimplifier, chr "U"); (OptimiserStep.ControlFlowSimplifier, chr "n");
   (OptimiserStep.DeadCodeEliminator, chr "D"); (OptimiserStep.EquivalentFunctionCombiner, chr "v");
   (OptimiserStep.ExpressionInliner, chr "e"); (OptimiserStep.ExpressionJoiner, chr "j");
   (OptimiserStep.ExpressionSimplifier, chr "s"); (OptimiserStep.ExpressionSplitter, chr "x");
   (OptimiserStep.ForLoopConditionIntoBody, chr "I"); (OptimiserStep.ForLoopConditionOutOfBody, chr "O");
   (OptimiserStep.ForLoopInitRewriter, chr "o"); (OptimiserStep.FullInliner, chr "i");
   (OptimiserStep.FunctionGrouper, chr "g"); (OptimiserStep.FunctionHoister, chr "h");
   (OptimiserStep.LiteralRematerialiser, chr "T"); (OptimiserStep.LoadResolver, chr "L");
   (OptimiserStep.LoopInvariantCodeMotion, chr "M"); (OptimiserStep.RedundantAssignEliminator, chr "r");
   (OptimiserStep.Rematerialiser, chr "m"); (OptimiserStep.SSAReverser, chr "V");
   (OptimiserStep.SSATransform, chr "a"); (OptimiserStep.StructuralSimplifier, chr "t");
   (OptimiserStep.UnusedPruner, chr "u"); (OptimiserStep.VarDeclInitializer, chr "d")].

Definition stepAbbreviationToNameMap (abbreviation : Z) : option OptimiserStep.t :=
  fst <$> List.find (fun p => snd p =? abbreviation) stepNameToAbbreviationMap.

Definition MaxRounds : nat := 12.

(** [' '] and ['\n'], which are ignored. *)
Definition isBlank (c : Z) : bool := (c =? chr " ") || (c =? 10).

(** [false] for an exception. *)
Fixpoint validate (insideLoop : bool) (_stepAbbreviations : list Z) : bool :=
  match _stepAbbreviations with
  | [] => negb insideLoop
  | abbreviation :: l =>
      if isBlank abbreviation then validate insideLoop l
      else if abbreviation =? chr "[" then negb insideLoop && validate true l
      else if abbreviation =? chr "]" then insideLoop && validate false l
      else match stepAbbreviationToNameMap abbreviation with Some _ => validate insideLoop l | None => false end
  end.

Definition validateSequence (_stepAbbreviations : list Z) : bool := validate false _stepAbbreviations.

(** What is before and after the first [c]. *)
Fixpoint split_at (c : Z) (l : list Z) : list Z * option (list Z) :=
  match l with
  | [] => ([], None)
  | x :: l => if x =? c then ([], Some l) else (x :: fst (split_at c l), snd (split_at c l))
  end.

Definition abbreviationsToSteps (_sequence : list Z) : option (list OptimiserStep.t) := traverse stepAbbreviationToNameMap _sequence.

Section Suite.
Context (m_dialect : Dialect) (otherStep : OptimiserStep.t -> list Statement -> option (list Statement)).

(** [allSteps().at(step)->run]. *)
Definition runStep (step : OptimiserStep.t) (_ast : list Statement) : option (list Statement) :=
  match step with
  | OptimiserStep.ConditionalSimplifier => Some (ConditionalSimplifier m_dialect _ast)
  | OptimiserStep.ConditionalUnsimplifier => ConditionalUnsimplifier m_dialect _ast
  | OptimiserStep.ControlFlowSimplifier => ControlFlowSimplifier m_dialect _ast
  | OptimiserStep.DeadCodeEliminator => DeadCodeEliminator m_dialect _ast
  | OptimiserStep.ForLoopConditionIntoBody => Some (ForLoopConditionIntoBody m_dialect _ast)
  | OptimiserStep.ForLoopConditionOutOfBody => ForLoopConditionOutOfBody m_dialect _ast
  | OptimiserStep.VarDeclInitializer => Some (VarDeclInitializer m_dialect _ast)
  | step => otherStep step _ast
  end.

Fixpoint runSteps (_steps : list OptimiserStep.t) (_ast : list Statement) : option (list Statement) :=
  match _steps with
  | [] => Some _ast
  | step :: _steps => _ast ← runStep step _ast; runSteps _steps _ast
  end.

(** The rounds of [runSequenceUntilStable]. *)
Fixpoint untilStable (rounds : nat) (codeSize : Z) (_steps : list OptimiserStep.t) (_ast : list Statement)
    : option (list Statement) :=
  match rounds with
  | O => Some _ast
  | S rounds =>
      let newSize := codeSizeIncludingFunctions _ast in
      if newSize =? codeSize then Some _ast
      else _ast ← runSteps _steps _ast; untilStable rounds newSize _steps _ast
  end.

Definition runSequenceUntilStable (_steps : list OptimiserStep.t) (_ast : list Statement) : option (list Statement) :=
  untilStable MaxRounds 0 _steps _ast.

(** The segments [aaa[bbb]] of what is left of the sequence from [currentPairStart]. *)
Fixpoint runPairs (fuel : nat) (input : list Z) (_ast : list Statement) : option (list Statement) :=
  match fuel, input with
  | _, [] => Some _ast
  | O, _ => None
  | S fuel, _ =>
      let (before, inside) := split_at (chr "[") input in
      match inside with
      | None =>
          steps ← abbreviationsToSteps before;
          _ast ← runSteps steps _ast;
          runSequenceUntilStable [] _ast
      | Some inside =>
          let (inside, rest) := split_at (chr "]") inside in
          match rest with
          | None => None
          | Some rest =>
              steps ← abbreviationsToSteps before;
              _ast ← runSteps steps _ast;
              steps ← abbreviationsToSteps inside;
              _ast ← runSequenceUntilStable steps _ast;
              runPairs fuel rest _ast
          end
      end
  end.

(** [runSequence]; the sequence is its characters. *)
Definition runSequence (_stepAbbreviations : list Z) (_ast : list Statement) : option (list Statement) :=
  if validateSequence _stepAbbreviations then
    let input := List.filter (fun c => negb (isBlank c)) _stepAbbreviations in
    runPairs (length input) input _ast
  else None.
End Suite.

(** ** The grammar of sequences

    A sequence is a list of steps and of bracketed lists of steps, blanks left out. *)

Inductive Item : Set := Once (step : OptimiserStep.t) | Stable (steps : list OptimiserStep.t).

(** [inside] holds the steps of the brackets that are open. *)
Fixpoint parse (inside : option (list OptimiserStep.t)) (l : list Z) : option (list Item) :=
  match l with
  | [] => match inside with None => Some [] | Some _ => None end
  | c :: l =>
      if isBlank c then parse inside l
      else if c =? chr "[" then match inside with None => parse (Some []) l | Some _ => None end
      else if c =? chr "]" then match inside with Some steps => items ← parse None l; Some (Stable steps :: items) | None => None end
      else
        step ← stepAbbreviationToNameMap c;
        match inside with
        | Some steps => parse (Some (steps ++ [step])) l
        | None => items ← parse None l; Some (Once step :: items)
        end
  end.

Lemma validate_parse l inside :
  validate (bool_decide (is_Some inside)) l = true <-> is_Some (parse inside l).
Proof.
  assert (forall b : bool, b = false -> (b = true <-> is_Some (@None (list Item)))) as Hnone
    by (intros b ->; split; [done|by intros []]).
  assert (forall (o : option (list Item)) f, is_Some o <-> is_Some (items ← o; Some (f items : list Item))) as Hmap
    by (intros [items|] f; split; intros []; by eexists).
  revert inside. induction l as [|c l IH]; intros inside; cbn [validate parse].
  - destruct inside; [by apply Hnone|]. split; [by eexists|done].
  - destruct (isBlank c); [apply IH|]. destruct (c =? chr "["); [|destruct (c =? chr "]")].
    + destruct inside as [steps|]; [by apply Hnone|apply (IH (Some []))].
    + destruct inside as [steps|]; [|by apply Hnone]. cbn [andb]. rewrite <- Hmap. apply (IH None).
    + destruct (stepAbbreviationToNameMap c) as [s|]; cbn [mbind option_bind]; [|by apply Hnone].
      destruct inside as [steps|]; [apply (IH (Some (steps ++ [s])))|]. rewrite <- Hmap. apply (IH None).
Qed.

(** Blanks do not matter. *)
Definition visible (l : list Z) : list Z := List.filter (fun c => negb (isBlank c)) l.

Lemma parse_visible l inside : parse inside (visible l) = parse inside l.
Proof.
  revert inside. induction l as [|c l IH]; intros inside; [done|]. cbn [visible List.filter parse].
  destruct (isBlank c) eqn:Hc; cbn [negb]; [apply IH|]. cbn [parse]. rewrite Hc.
  destruct (c =? chr "["), (c =? chr "]"), inside, (stepAbbreviationToNameMap c); cbn [mbind option_bind]; try done; by rewrite IH.
Qed.

Lemma visible_blank l : forallb (fun c => negb (isBlank c)) (visible l) = true.
Proof. apply forallb_forall. intros c Hc. by apply filter_In in Hc as [_ Hc]. Qed.

Local Abbreviation no_blank l := (forallb (fun c => negb (isBlank c)) l = true).

(** What is in front of a bracket that opens. *)
Lemma parse_before l items :
  no_blank l -> parse None l = Some items ->
  exists steps, abbreviationsToSteps (fst (split_at (chr "[") l)) = Some steps /\
    match snd (split_at (chr "[") l) with
    | None => items = map Once steps
    | Some r => exists items', no_blank r /\ (length r < length l)%nat /\ parse (Some []) r = Some items' /\ items = map Once steps ++ items'
    end.
Proof.
  revert items. induction l as [|c l IH]; intros items Hb Hp; cbn [parse split_at forallb] in *.
  - injection Hp as <-. by exists [].
  - apply andb_true_iff in Hb as [Hc%negb_true_iff Hb]. rewrite Hc in Hp. destruct (c =? chr "[").
    + exists []. split; [done|]. exists items. repeat split; [done|cbn; lia|done].
    + destruct (c =? chr "]"); [done|]. destruct (stepAbbreviationToNameMap c) as [s|] eqn:Es; [|done]. cbn [mbind option_bind] in Hp.
      destruct (parse None l) as [items0|]; [|done]. injection Hp as <-. destruct (IH items0 Hb eq_refl) as (steps & E & H).
      exists (s :: steps). unfold abbreviationsToSteps in *. cbn [fst snd traverse]. rewrite Es. cbn [mbind option_bind]. rewrite E.
      split; [done|]. destruct (snd (split_at _ l)) as [r|]; [|by rewrite H].
      destruct H as (items' & Hr & Hl & Hp & ->). exists items'. repeat split; [done|cbn; lia|done].
Qed.

(** What is in front of the bracket that closes. *)
Lemma parse_inside l acc items :
  no_blank l -> parse (Some acc) l = Some items ->
  exists r steps items', snd (split_at (chr "]") l) = Some r /\ abbreviationsToSteps (fst (split_at (chr "]") l)) = Some steps /\
    no_blank r /\ (length r < length l)%nat /\ parse None r = Some items' /\ items = Stable (acc ++ steps) :: items'.
Proof.
  revert acc items. induction l as [|c l IH]; intros acc items Hb Hp; cbn [parse split_at forallb] in *; [done|].
  apply andb_true_iff in Hb as [Hc%negb_true_iff Hb]. rewrite Hc in Hp. destruct (Z.eqb_spec c (chr "[")) as [|Ho]; [done|].
  destruct (c =? chr "]").
  - destruct (parse None l) as [items'|] eqn:Ep; [|done]. injection Hp as <-. exists l, [], items'. rewrite app_nil_r.
    repeat split; [done|cbn; lia|done].
  - destruct (stepAbbreviationToNameMap c) as [s|] eqn:Es; [|done]. cbn [mbind option_bind] in Hp.
    destruct (IH (acc ++ [s]) items Hb Hp) as (r & steps & items' & E1 & E2 & Hr & Hl & Hp' & ->).
    exists r, (s :: steps), items'. unfold abbreviationsToSteps in *. cbn [fst snd traverse]. rewrite Es. cbn [mbind option_bind]. rewrite E2.
    repeat split; [done|done|cbn; lia|done|]. by rewrite <- app_assoc.
Qed.

Section Items.
Context (m_dialect : Dialect) (otherStep : OptimiserStep.t -> list Statement -> option (list Statement)).

Definition runItem (item : Item) (_ast : list Statement) : option (list Statement) :=
  match item with
  | Once step => runStep m_dialect otherStep step _ast
  | Stable steps => runSequenceUntilStable m_dialect otherStep steps _ast
  end.

Fixpoint runItems (items : list Item) (_ast : list Statement) : option (list Statement) :=
  match items with
  | [] => Some _ast
  | item :: items => _ast ← runItem item _ast; runItems items _ast
  end.

Lemma runItems_once steps items _ast :
  runItems (map Once steps ++ items) _ast = (_ast ← runSteps m_dialect otherStep steps _ast; runItems items _ast).
Proof using.
  revert _ast. induction steps as [|s steps IH]; intros _ast; [done|]. cbn [map app runItems runItem runSteps].
  destruct (runStep m_dialect otherStep s _ast) as [ast'|]; [apply IH|done].
Qed.

(** No steps in the brackets: nothing is changed. *)
Lemma untilStable_nil rounds n _ast : untilStable m_dialect otherStep rounds n [] _ast = Some _ast.
Proof using.
  revert n. induction rounds as [|k IH]; intros n; [done|]. cbn [untilStable runSteps]. destruct (_ =? n); [done|]. apply IH.
Qed.

Lemma runPairs_items fuel l items _ast :
  no_blank l -> Nat.le (length l) fuel -> parse None l = Some items ->
  runPairs m_dialect otherStep fuel l _ast = runItems items _ast.
Proof using.
  revert l items _ast. induction fuel as [|fuel IH]; intros l items _ast Hb Hl Hp.
  - destruct l; [|cbn in Hl; lia]. by injection Hp as <-.
  - destruct l as [|c l]; [by injection Hp as <-|]. cbn [runPairs].
    destruct (parse_before (c :: l) items Hb Hp) as (steps & E & H).
    destruct (split_at (chr "[") (c :: l)) as [before inside]. cbn [fst snd] in *. rewrite E. cbn [mbind option_bind].
    destruct inside as [r|].
    + destruct H as (items' & Hr & Hlr & Hpr & ->). destruct (parse_inside r [] items' Hr Hpr) as (q & steps' & items2 & E1 & E2 & Hq & Hlq & Hpq & ->).
      destruct (split_at (chr "]") r) as [ins rest]. cbn [fst snd] in *. subst rest. rewrite runItems_once.
      destruct (runSteps m_dialect otherStep steps _ast) as [ast1|]; [|done]. cbn [mbind option_bind runItems runItem]. rewrite E2.
      cbn [mbind option_bind app]. destruct (runSequenceUntilStable m_dialect otherStep steps' ast1) as [ast2|]; [|done]. cbn [mbind option_bind].
      apply IH; [done|cbn in Hl; cbn in Hlr; lia|done].
    + subst items. rewrite <- (app_nil_r (map Once steps)), runItems_once.
      destruct (runSteps m_dialect otherStep steps _ast) as [ast1|]; [|done]. cbn [mbind option_bind runItems].
      apply untilStable_nil.
Qed.

Lemma runSequence_items _stepAbbreviations _ast :
  runSequence m_dialect otherStep _stepAbbreviations _ast = (items ← parse None _stepAbbreviations; runItems items _ast).
Proof using.
  pose proof (validate_parse _stepAbbreviations None) as Hv. cbn in Hv. unfold runSequence, validateSequence.
  destruct (validate false _stepAbbreviations).
  - destruct (proj1 Hv eq_refl) as [items Hp]. rewrite Hp. cbn [mbind option_bind].
    apply runPairs_items; [apply visible_blank|done|]. by rewrite parse_visible.
  - destruct (parse None _stepAbbreviations) as [items|] eqn:E; [|done].
    discriminate (proj2 Hv (ex_intro _ items eq_refl)).
Qed.

(** C16 [runSequence] runs a sequence as the grammar reads it: steps one after the other, blanks
    ignored, a part in brackets until the size of the code is stable; a sequence that is not in
    the grammar is refused before any step is run. *)
Theorem runSequence_parses _stepAbbreviations _ast :
  runSequence m_dialect otherStep _stepAbbreviations _ast = (items ← parse None _stepAbbreviations; runItems items _ast) /\
  (validateSequence _stepAbbreviations = true <-> is_Some (parse None _stepAbbreviations)).
Proof using. split; [apply runSequence_items|]. apply (validate_parse _stepAbbreviations None). Qed.
End Items.
