(* ===== verification/YulTheorems.v ===== *)
(** * YulTheorems: what the steps of the Yul optimiser promise

    Each step returns on code as the analysis and the steps before leave it, and the program it
    returns runs like the program it was given: with the same variables, the same storage, memory
    and trace and the same way to end, whatever the depth of calls and the number of iterations
    allowed, from every state of the machine and for every hash function. *)

From stdpp Require Import strings.
From S2P Require Import Prelude U256 CommonData Instruction EVMVersion SemanticInformation Interpreter Yul YulInterpreter YulEquivalence YulOptimiser YulDialects YulSound YulLoops YulFlow YulShape YulWellFormed YulSuite.

(** ** An example *)

Definition noDialect : Dialect := mkDialect "" "" (fun _ => None) (fun _ => None) (fun _ => None) None.
Definition exampleDialect : Dialect := default noDialect (EVMDialect Istanbul true).
Definition exampleHash (_ : list Z) : Z := 0.

#[local] Opaque createBuiltins.
Lemma exampleDialect_lawful : Lawful exampleDialect.
Proof.
  destruct (EVMDialect_returns Istanbul true) as [d Hd]. apply (EVMDialect_lawful Istanbul true). unfold exampleDialect.
  by rewrite Hd.
Qed.

Definition num (n : YulString) : Expression := LiteralExpression (mkLiteral Number n "").
Definition var (x : YulString) : Expression := Identifier x.
Definition app1 (f : YulString) (a : Expression) : Expression := FunctionCall f [a].
Definition app2 (f : YulString) (a b : Expression) : Expression := FunctionCall f [a; b].
Definition let1 (x : YulString) (e : Expression) : Statement := VariableDeclaration [mkTyped x ""] (Some e).
Definition set1 (x : YulString) (e : Expression) : Statement := Assignment [x] e.
Definition sstore (a b : Expression) : Statement := ExpressionStatement (app2 "sstore" a b).

(** [let x := 5 for {} x { x := sub(x, 1) } { ... } return(0, 0) sstore(2, 2)], with code that is
    not reached in the loop, in a function and at the end. *)
Definition deadExample : list Statement :=
  [let1 "x" (num "5");
   FunctionDefinition "f" [] [] [Leave; sstore (num "1") (num "1"); FunctionDefinition "g" [] [] []];
   ForLoop [] (var "x") [set1 "x" (app2 "sub" (var "x") (num "1"))]
     [If (app2 "eq" (var "x") (num "2")) [Break; set1 "x" (num "7")]; sstore (var "x") (var "x"); Continue; sstore (num "0") (num "9")];
   ExpressionStatement (FunctionCall "f" []);
   ExpressionStatement (app2 "return" (num "0") (num "0"));
   sstore (num "2") (num "2")].
Definition deadResult : list Statement :=
  [let1 "x" (num "5");
   FunctionDefinition "f" [] [] [Leave; FunctionDefinition "g" [] [] []];
   ForLoop [] (var "x") [set1 "x" (app2 "sub" (var "x") (num "1"))]
     [If (app2 "eq" (var "x") (num "2")) [Break]; sstore (var "x") (var "x"); Continue];
   ExpressionStatement (FunctionCall "f" []);
   ExpressionStatement (app2 "return" (num "0") (num "0"))].

Lemma deadExample_result : DeadCodeEliminator exampleDialect deadExample = Some deadResult.
Proof. vm_compute. reflexivity. Qed.

(** ** The theorems *)

Section Theorems.
Context (d : Dialect) (keccak256 : list Z -> Z).

(** C11 DeadCodeEliminator returns on code whose loops have no initialisation, removes all
    statements after one that changes the control flow but the definitions of functions, and the
    program it returns runs like the original. *)
Theorem DeadCodeEliminator_correct _ast :
  forallb regular _ast = true -> forallb (everywhere emptyInit) _ast = true ->
  exists ast',
    DeadCodeEliminator d _ast = Some ast' /\
    (forall n s, run d keccak256 n _ast s = run d keccak256 n ast' s) /\
    live d false ast' = true /\ forallb (everywhere (liveBodies d)) ast' = true.
Proof using.
  intros Hr Hi. destruct (DeadCodeEliminator_shape d _ast Hi) as (ast' & E & Hl & Hb). exists ast'.
  split; [done|]. split; [|done]. intros n s. by apply equiv_run, deadCode_equiv.
Qed.

(** C10 ControlFlowSimplifier returns on code as the steps before leave it, and the program it
    returns runs like the original: an [if] without a body discards its condition, a [switch]
    loses its empty cases and with one case or none becomes an [if] or a block, a loop that runs
    at most once becomes an [if], and a [leave] at the end of a function is dropped. *)
Theorem ControlFlowSimplifier_correct _ast :
  Lawful d -> is_Some (discardFunction d (boolType d)) ->
  forallb regular _ast = true -> forallb (everywhere switchValid) _ast = true ->
  forallb (everywhere (switchTyped d (TypeInfo _ast))) _ast = true ->
  exists ast',
    ControlFlowSimplifier d _ast = Some ast' /\ (forall n s, run d keccak256 n _ast s = run d keccak256 n ast' s).
Proof using.
  intros Hd Hb Hr Hv Ht. destruct (ControlFlowSimplifier_returns d _ast Hb Ht) as (ast' & E). exists ast'.
  split; [done|]. intros n s. by apply equiv_run, ControlFlowSimplifier_equiv.
Qed.

(** C14 ConditionalSimplifier keeps what the program does: after [if x { ... }] whose body does
    not go on [x] is zero, and in a case of a [switch] over [x] it is the value of the case. *)
Theorem ConditionalSimplifier_correct _ast n s :
  forallb regular _ast = true -> run d keccak256 n _ast s = run d keccak256 n (ConditionalSimplifier d _ast) s.
Proof using. intros Hr. by apply equiv_run, ConditionalSimplifier_equiv. Qed.

(** C15 ConditionalUnsimplifier returns on code whose literals are valid, and the program it
    returns runs like the original. *)
Theorem ConditionalUnsimplifier_correct _ast :
  forallb regular _ast = true -> forallb (everywhere literalsValid) _ast = true ->
  exists ast',
    ConditionalUnsimplifier d _ast = Some ast' /\ (forall n s, run d keccak256 n _ast s = run d keccak256 n ast' s).
Proof using.
  intros Hr Hv. destruct (ConditionalUnsimplifier_returns d _ast Hv) as (ast' & E). exists ast'.
  split; [done|]. intros n s. by apply equiv_run, ConditionalUnsimplifier_equiv.
Qed.

(** C13 ForLoopConditionIntoBody keeps what the program does and leaves no loop with a call as
    its condition, if the functions conditions call are not defined in the bodies. *)
Theorem ForLoopConditionIntoBody_correct _ast :
  Lawful d -> forallb regular _ast = true -> forallb (everywhere (conditionVisible d)) _ast = true ->
  (forall n s, run d keccak256 n _ast s = run d keccak256 n (ForLoopConditionIntoBody d _ast) s) /\
  (is_Some (booleanNegationFunction d) -> forallb (everywhere conditionPlain) (ForLoopConditionIntoBody d _ast) = true).
Proof using.
  intros Hd Hr Hv. split; [|apply ForLoopConditionIntoBody_shape].
  intros n s. by apply equiv_run, ForLoopConditionIntoBody_equiv.
Qed.

(** C12 ForLoopConditionOutOfBody returns on code whose conditions are valid, and the program
    it returns runs like the original. *)
Theorem ForLoopConditionOutOfBody_correct _ast :
  Lawful d -> forallb regular _ast = true -> forallb (everywhere (out_valid d)) _ast = true ->
  exists ast',
    ForLoopConditionOutOfBody d _ast = Some ast' /\ (forall n s, run d keccak256 n _ast s = run d keccak256 n ast' s).
Proof using.
  intros Hd Hr Hv. destruct (ForLoopConditionOutOfBody_returns d _ast Hv) as (ast' & E). exists ast'.
  split; [done|]. intros n s. apply equiv_run, ForLoopConditionOutOfBody_equiv; try done.
  apply forallb_forall. rewrite forallb_forall in Hv. intros a Ha. by apply (everywhere_and conditionValid), Hv.
Qed.

(** VarDeclInitializer keeps what the program does and leaves no declaration without a
    value. *)
Theorem VarDeclInitializer_correct _ast :
  forallb regular _ast = true ->
  (forall n s, run d keccak256 n _ast s = run d keccak256 n (VarDeclInitializer d _ast) s) /\
  forallb (everywhere initialized) (VarDeclInitializer d _ast) = true.
Proof using.
  intros Hr. split; [|apply VarDeclInitializer_shape]. intros n s. by apply equiv_run, VarDeclInitializer_equiv.
Qed.
End Theorems.

(** ** Sequences of steps *)

(** A step that keeps code well formed and what it does. *)
Class StepSound (d : Dialect) (keccak256 : list Z -> Z) (step : list Statement -> option (list Statement)) : Prop :=
  step_sound _ast ast' :
    wellFormed d _ast = true -> step _ast = Some ast' -> wellFormed d ast' = true /\ equiv d keccak256 _ast ast'.

(** The steps that return on well-formed code. *)
Definition total_step (s : OptimiserStep.t) : bool :=
  match s with
  | OptimiserStep.ConditionalSimplifier | OptimiserStep.ConditionalUnsimplifier | OptimiserStep.DeadCodeEliminator
  | OptimiserStep.ForLoopConditionIntoBody | OptimiserStep.ForLoopConditionOutOfBody | OptimiserStep.VarDeclInitializer => true
  | _ => false
  end.

Definition item_steps (i : Item) : list OptimiserStep.t := match i with Once s => [s] | Stable l => l end.

Section Suite.
Context (d : Dialect) (keccak256 : list Z -> Z) `{!Lawful d}.
Context (otherStep : OptimiserStep.t -> list Statement -> option (list Statement))
  (other_sound : forall s, StepSound d keccak256 (otherStep s)).

#[local] Instance runStep_sound s : StepSound d keccak256 (runStep d otherStep s).
Proof using Lawful0 other_sound.
  intros _ast ast' Hw E. pose proof (wellFormed_regular d _ast Hw) as Hr. destruct s; cbn [runStep] in E; try by eapply other_sound.
  - injection E as <-. split; [by apply ConditionalSimplifier_kept|by apply ConditionalSimplifier_equiv].
  - split; [by apply (ConditionalUnsimplifier_kept d _ast ast')|by apply ConditionalUnsimplifier_equiv].
  - split; [by apply (ControlFlowSimplifier_kept d _ast ast')|].
    apply ControlFlowSimplifier_equiv; try done. by eapply wellFormed_switches.
  - split; [by apply (DeadCodeEliminator_kept d _ast ast')|by apply deadCode_equiv].
  - injection E as <-. split; [by apply ForLoopConditionIntoBody_kept|]. apply ForLoopConditionIntoBody_equiv; try done.
    apply (wellFormed_every d); [|done]. intros s Hs. apply wellFormedAt_parts in Hs. tauto.
  - split; [by apply (ForLoopConditionOutOfBody_kept d _ast ast')|]. apply ForLoopConditionOutOfBody_equiv; try done.
    apply (wellFormed_every d); [|done]. intros s Hs. apply wellFormedAt_parts in Hs as [Hs _]. by apply valid_negation.
  - injection E as <-. split; [by apply VarDeclInitializer_kept|by apply VarDeclInitializer_equiv].
Qed.

#[local] Instance runSteps_sound l : StepSound d keccak256 (runSteps d otherStep l).
Proof using Lawful0 other_sound.
  induction l as [|s l IH]; intros _ast ast' Hw E; cbn [runSteps] in E; [injection E as <-; split; [done|reflexivity]|].
  destruct (runStep d otherStep s _ast) as [ast1|] eqn:E1; [|done]. apply runStep_sound in E1 as [W1 Q1]; [|done].
  apply IH in E as [W2 Q2]; [|done]. split; [done|by transitivity ast1].
Qed.

#[local] Instance untilStable_sound k n l : StepSound d keccak256 (untilStable d otherStep k n l).
Proof using Lawful0 other_sound.
  revert n. induction k as [|k IH]; intros n _ast ast' Hw E; cbn [untilStable] in E; [injection E as <-; split; [done|reflexivity]|].
  destruct (_ =? n); [injection E as <-; split; [done|reflexivity]|]. destruct (runSteps d otherStep l _ast) as [ast1|] eqn:E1; [|done].
  apply runSteps_sound in E1 as [W1 Q1]; [|done]. apply IH in E as [W2 Q2]; [|done]. split; [done|by transitivity ast1].
Qed.

Lemma runItems_sound items : StepSound d keccak256 (runItems d otherStep items).
Proof using Lawful0 other_sound.
  induction items as [|i items IH]; intros _ast ast' Hw E; cbn [runItems] in E; [injection E as <-; split; [done|reflexivity]|].
  destruct (runItem d otherStep i _ast) as [ast1|] eqn:E1; [|done].
  assert (wellFormed d ast1 = true /\ equiv d keccak256 _ast ast1) as [W1 Q1]
    by (destruct i; [by apply runStep_sound in E1|by apply untilStable_sound in E1]).
  apply IH in E as [W2 Q2]; [|done]. split; [done|by transitivity ast1].
Qed.

(** *** Steps that return *)

Lemma total_step_returns s _ast : total_step s = true -> wellFormed d _ast = true -> exists ast', runStep d otherStep s _ast = Some ast'.
Proof using.
  intros Hs Hw. destruct s; try done; cbn [runStep]; try by eexists.
  - apply ConditionalUnsimplifier_returns. apply (wellFormed_every d); [|done]. intros s H. apply wellFormedAt_parts in H. tauto.
  - destruct (DeadCodeEliminator_shape d _ast) as (ast' & E & _); [|by exists ast'].
    apply (wellFormed_every d); [|done]. intros s H. apply wellFormedAt_parts in H. tauto.
  - apply ForLoopConditionOutOfBody_returns. apply (wellFormed_every d); [|done]. intros s H.
    apply wellFormedAt_parts in H as [H _]. unfold out_valid. by rewrite (valid_condition d s H), (valid_negation d s H).
Qed.

Lemma runSteps_returns l _ast :
  forallb total_step l = true -> wellFormed d _ast = true -> exists ast', runSteps d otherStep l _ast = Some ast'.
Proof using Lawful0 other_sound.
  revert _ast. induction l as [|s l IH]; intros _ast Hl Hw; cbn [runSteps forallb] in *; [by eexists|].
  apply andb_true_iff in Hl as [Hs Hl]. destruct (total_step_returns s _ast Hs Hw) as [ast1 E]. rewrite E. cbn [mbind option_bind].
  apply IH; [done|]. by apply runStep_sound in E as [? _].
Qed.

Lemma untilStable_returns k n l _ast :
  forallb total_step l = true -> wellFormed d _ast = true -> exists ast', untilStable d otherStep k n l _ast = Some ast'.
Proof using Lawful0 other_sound.
  revert n _ast. induction k as [|k IH]; intros n _ast Hl Hw; cbn [untilStable]; [by eexists|]. destruct (_ =? n); [by eexists|].
  destruct (runSteps_returns l _ast Hl Hw) as [ast1 E]. rewrite E. cbn [mbind option_bind]. apply IH; [done|].
  by apply runSteps_sound in E as [? _].
Qed.

Lemma runItems_returns items _ast :
  forallb (fun i => forallb total_step (item_steps i)) items = true -> wellFormed d _ast = true ->
  exists ast', runItems d otherStep items _ast = Some ast'.
Proof using Lawful0 other_sound.
  revert _ast. induction items as [|i items IH]; intros _ast Hl Hw; cbn [runItems forallb] in *; [by eexists|].
  apply andb_true_iff in Hl as [Hi Hl]. assert (exists ast1, runItem d otherStep i _ast = Some ast1) as [ast1 E].
  { destruct i; cbn [runItem item_steps forallb] in *; [|by apply untilStable_returns]. rewrite andb_true_r in Hi. by apply total_step_returns. }
  rewrite E. cbn [mbind option_bind]. apply IH; [done|]. destruct i; [by apply runStep_sound in E as [? _]|by apply untilStable_sound in E as [? _]].
Qed.

(** C9 A sequence of steps keeps code well formed and what it does, whichever steps and brackets
    it has, as long as the steps that are not modelled do; and a sequence of the modelled steps
    other than ControlFlowSimplifier returns. *)
Theorem runSequence_correct _stepAbbreviations _ast :
  wellFormed d _ast = true ->
  (forall ast', runSequence d otherStep _stepAbbreviations _ast = Some ast' ->
     wellFormed d ast' = true /\ forall n s, run d keccak256 n _ast s = run d keccak256 n ast' s) /\
  (forall items, parse None _stepAbbreviations = Some items ->
     forallb (fun i => forallb total_step (item_steps i)) items = true ->
     exists ast', runSequence d otherStep _stepAbbreviations _ast = Some ast').
Proof using Lawful0 other_sound.
  intros Hw. rewrite runSequence_items. split.
  - intros ast' E. destruct (parse None _stepAbbreviations) as [items|]; [|done]. cbn [mbind option_bind] in E.
    apply runItems_sound in E as [W Q]; [|done]. split; [done|]. intros n s. by apply equiv_run.
  - intros items Hp Hi. rewrite Hp. cbn [mbind option_bind]. by apply runItems_returns.
Qed.
End Suite.

(** ** The examples *)

Lemma DeadCodeEliminator_correct_witness :
  DeadCodeEliminator exampleDialect deadExample = Some deadResult /\
  exists ast',
    DeadCodeEliminator exampleDialect deadExample = Some ast' /\
    (forall n s, run exampleDialect exampleHash n deadExample s = run exampleDialect exampleHash n ast' s) /\
    live exampleDialect false ast' = true /\ forallb (everywhere (liveBodies exampleDialect)) ast' = true.
Proof.
  split; [exact deadExample_result|]. apply (DeadCodeEliminator_correct exampleDialect exampleHash deadExample); reflexivity.
Defined.

(** A [switch] with empty cases, one with a single case, an [if] without a body, a loop that ends
    in [break], and a [leave] at the end of a function. *)
Definition flowExample : list Statement :=
  [let1 "x" (num "5");
   FunctionDefinition "f" [mkTyped "a" ""] [] [sstore (var "a") (num "1"); Leave];
   Switch (var "x") [(Some (mkLiteral Number "1" ""), []); (Some (mkLiteral Number "5" ""), [sstore (num "1") (num "2")]); (None, [])];
   Switch (app1 "calldataload" (num "0")) [(None, [])];
   Switch (var "x") [(None, [ExpressionStatement (app1 "f" (var "x"))])];
   If (app1 "mload" (num "0")) [];
   ForLoop [] (var "x") [set1 "x" (num "0")] [sstore (var "x") (num "3"); Break]].
Definition flowResult : list Statement :=
  [let1 "x" (num "5");
   FunctionDefinition "f" [mkTyped "a" ""] [] [sstore (var "a") (num "1")];
   If (FunctionCall "eq" [num "5"; var "x"]) [sstore (num "1") (num "2")];
   ExpressionStatement (app1 "pop" (app1 "calldataload" (num "0")));
   ExpressionStatement (app1 "pop" (var "x")); Block [ExpressionStatement (app1 "f" (var "x"))];
   ExpressionStatement (app1 "pop" (app1 "mload" (num "0")));
   If (var "x") [sstore (var "x") (num "3")]].

Lemma ControlFlowSimplifier_correct_witness :
  ControlFlowSimplifier exampleDialect flowExample = Some flowResult /\
  exists ast',
    ControlFlowSimplifier exampleDialect flowExample = Some ast' /\
    (forall n s, run exampleDialect exampleHash n flowExample s = run exampleDialect exampleHash n ast' s).
Proof.
  split; [vm_compute; reflexivity|].
  apply (ControlFlowSimplifier_correct exampleDialect exampleHash flowExample);
    [exact exampleDialect_lawful|vm_compute; eexists; reflexivity|vm_compute; reflexivity..].
Defined.

Definition conditionalExample : list Statement :=
  [let1 "x" (app1 "calldataload" (num "0"));
   ForLoop [] (num "1") []
     [If (var "x") [sstore (num "0") (num "1"); Break];
      Switch (var "x") [(Some (mkLiteral Number "0" ""), [sstore (num "1") (var "x")]); (None, [Continue])]; Break]].
Definition conditionalResult : list Statement :=
  [let1 "x" (app1 "calldataload" (num "0"));
   ForLoop [] (num "1") []
     [If (var "x") [sstore (num "0") (num "1"); Break];
      set1 "x" (num "0");
      Switch (var "x")
        [(Some (mkLiteral Number "0" ""), [set1 "x" (num "0"); sstore (num "1") (var "x")]); (None, [Continue])]; Break]].

Lemma ConditionalSimplifier_correct_witness :
  ConditionalSimplifier exampleDialect conditionalExample = conditionalResult /\
  run exampleDialect exampleHash 3 conditionalExample initialState =
    run exampleDialect exampleHash 3 (ConditionalSimplifier exampleDialect conditionalExample) initialState.
Proof.
  split; [vm_compute; reflexivity|]. apply (ConditionalSimplifier_correct exampleDialect exampleHash conditionalExample 3 initialState).
  reflexivity.
Defined.

Lemma ConditionalUnsimplifier_correct_witness :
  ConditionalUnsimplifier exampleDialect conditionalResult = Some conditionalExample /\
  exists ast',
    ConditionalUnsimplifier exampleDialect conditionalResult = Some ast' /\
    (forall n s, run exampleDialect exampleHash n conditionalResult s = run exampleDialect exampleHash n ast' s).
Proof.
  split; [vm_compute; reflexivity|].
  apply (ConditionalUnsimplifier_correct exampleDialect exampleHash conditionalResult); reflexivity.
Defined.

Definition loopExample : list Statement :=
  [FunctionDefinition "f" [mkTyped "a" ""] [mkTyped "r" ""] [set1 "r" (app2 "lt" (var "a") (num "3"))];
   let1 "x" (num "0");
   ForLoop [] (app1 "f" (var "x")) [set1 "x" (app2 "add" (var "x") (num "1"))] [sstore (var "x") (num "1")]].
Definition loopInside : list Statement :=
  [FunctionDefinition "f" [mkTyped "a" ""] [mkTyped "r" ""] [set1 "r" (app2 "lt" (var "a") (num "3"))];
   let1 "x" (num "0");
   ForLoop [] (trueLiteral exampleDialect) [set1 "x" (app2 "add" (var "x") (num "1"))]
     [If (app1 "iszero" (app1 "f" (var "x"))) [Break]; sstore (var "x") (num "1")]].

Lemma ForLoopConditionIntoBody_correct_witness :
  ForLoopConditionIntoBody exampleDialect loopExample = loopInside /\
  (forall n s, run exampleDialect exampleHash n loopExample s =
     run exampleDialect exampleHash n (ForLoopConditionIntoBody exampleDialect loopExample) s) /\
  (is_Some (booleanNegationFunction exampleDialect) ->
     forallb (everywhere conditionPlain) (ForLoopConditionIntoBody exampleDialect loopExample) = true).
Proof.
  split; [vm_compute; reflexivity|].
  apply (ForLoopConditionIntoBody_correct exampleDialect exampleHash loopExample);
    [exact exampleDialect_lawful|vm_compute; reflexivity..].
Defined.

Definition outExample : list Statement :=
  [let1 "x" (num "0");
   ForLoop [] (num "1") [set1 "x" (app2 "add" (var "x") (num "1"))]
     [If (app1 "iszero" (app2 "lt" (var "x") (num "3"))) [Break]; sstore (var "x") (num "1")];
   ForLoop [] (num "1") [] [If (app2 "gt" (var "x") (num "1")) [Break]; set1 "x" (num "2")]].
Definition outResult : list Statement :=
  [let1 "x" (num "0");
   ForLoop [] (app2 "lt" (var "x") (num "3")) [set1 "x" (app2 "add" (var "x") (num "1"))] [sstore (var "x") (num "1")];
   ForLoop [] (app1 "iszero" (app2 "gt" (var "x") (num "1"))) [] [set1 "x" (num "2")]].

Lemma ForLoopConditionOutOfBody_correct_witness :
  ForLoopConditionOutOfBody exampleDialect outExample = Some outResult /\
  exists ast',
    ForLoopConditionOutOfBody exampleDialect outExample = Some ast' /\
    (forall n s, run exampleDialect exampleHash n outExample s = run exampleDialect exampleHash n ast' s).
Proof.
  split; [vm_compute; reflexivity|].
  apply (ForLoopConditionOutOfBody_correct exampleDialect exampleHash outExample);
    [exact exampleDialect_lawful|vm_compute; reflexivity..].
Defined.

Definition declareExample : list Statement :=
  [VariableDeclaration [mkTyped "x" ""; mkTyped "y" ""] None; Block [VariableDeclaration [mkTyped "z" ""] None; set1 "x" (var "z")]].
Definition declareResult : list Statement := [let1 "x" (num "0"); let1 "y" (num "0"); Block [let1 "z" (num "0"); set1 "x" (var "z")]].

Lemma VarDeclInitializer_correct_witness :
  VarDeclInitializer exampleDialect declareExample = declareResult /\
  (forall n s, run exampleDialect exampleHash n declareExample s =
     run exampleDialect exampleHash n (VarDeclInitializer exampleDialect declareExample) s) /\
  forallb (everywhere initialized) (VarDeclInitializer exampleDialect declareExample) = true.
Proof.
  split; [vm_compute; reflexivity|]. apply (VarDeclInitializer_correct exampleDialect exampleHash declareExample). reflexivity.
Defined.

Definition otherSteps (_ : OptimiserStep.t) (_ast : list Statement) : option (list Statement) := Some _ast.

Lemma otherSteps_sound s : StepSound exampleDialect exampleHash (otherSteps s).
Proof. intros _ast ast' Hw [= <-]. split; [done|reflexivity]. Qed.

(** The examples together. *)
Definition suiteExample : list Statement := [Block flowExample; Block loopExample; Block deadExample].
Definition suiteSequence : list Z := str "D C [IO nU] d".
Definition suiteResult : list Statement :=
  [Block flowResult;
   Block
     [FunctionDefinition "f" [mkTyped "a" ""] [mkTyped "r" ""] [set1 "r" (app2 "lt" (var "a") (num "3"))];
      let1 "x" (num "0");
      ForLoop [] (trueLiteral exampleDialect) [set1 "x" (app2 "add" (var "x") (num "1"))]
        [If (app1 "iszero" (app1 "f" (var "x"))) [Break]; sstore (var "x") (num "1")]];
   Block
     [let1 "x" (num "5");
      FunctionDefinition "f" [] [] [Leave; FunctionDefinition "g" [] [] []];
      ForLoop [] (var "x") [set1 "x" (app2 "sub" (var "x") (num "1"))]
        [If (app2 "eq" (var "x") (num "2")) [Break]; sstore (var "x") (var "x"); Continue];
      ExpressionStatement (FunctionCall "f" []);
      ExpressionStatement (app2 "return" (num "0") (num "0"))]].

Lemma suiteExample_result : runSequence exampleDialect otherSteps suiteSequence suiteExample = Some suiteResult.
Proof. vm_compute. reflexivity. Qed.

Lemma runSequence_correct_witness :
  (runSequence exampleDialect otherSteps suiteSequence suiteExample = Some suiteResult /\
   wellFormed exampleDialect suiteResult = true /\
   forall n s, run exampleDialect exampleHash n suiteExample s = run exampleDialect exampleHash n suiteResult s) /\
  exists ast', runSequence exampleDialect otherSteps (str "D C [IO U] d") suiteExample = Some ast'.
Proof.
  pose proof exampleDialect_lawful as Hd. split.
  - split; [exact suiteExample_result|].
    apply (runSequence_correct exampleDialect exampleHash otherSteps otherSteps_sound suiteSequence suiteExample);
      [vm_compute; reflexivity|exact suiteExample_result].
  - destruct (parse None (str "D C [IO U] d")) as [items|] eqn:E; [|discriminate E].
    apply (runSequence_correct exampleDialect exampleHash otherSteps otherSteps_sound (str "D C [IO U] d") suiteExample) with (items := items);
      [vm_compute; reflexivity|exact E|].
    vm_compute in E. injection E as <-. reflexivity.
Defined.
