(* ===== verification/Pattern.v ===== *)
(** * Pattern: rule patterns and match groups

    [Pattern], [SimplificationRule] and the pattern generators of
    libevmasm/SimplificationRules.h and SimplificationRule.h, and the expressions of
    libevmasm/ExpressionClasses.h they are matched against. *)

From S2P Require Import Prelude U256 Instruction AssemblyItem.

(** [ExpressionClasses::Expression]; the item is the null pointer when absent. *)
Record Expression : Set := mkExpression {
  id : Z;
  item : option AssemblyItem;
  e_arguments : list Z;
  sequenceNumber : Z }.

(** [class Pattern].  [m_instruction] is only meaningful for an operation. *)
Inductive Pattern : Set :=
  mkPattern (m_type : AssemblyItemType) (m_requireDataMatch : bool) (m_instruction : Instruction)
    (m_data : option Z) (m_arguments : list Pattern) (m_matchGroup : nat).

Definition p_type (p : Pattern) := let 'mkPattern t _ _ _ _ _ := p in t.
Definition p_requireDataMatch (p : Pattern) := let 'mkPattern _ r _ _ _ _ := p in r.
Definition p_instruction (p : Pattern) := let 'mkPattern _ _ i _ _ _ := p in i.
Definition p_data (p : Pattern) := let 'mkPattern _ _ _ d _ _ := p in d.
Definition p_arguments (p : Pattern) := let 'mkPattern _ _ _ _ a _ := p in a.
Definition p_matchGroup (p : Pattern) := let 'mkPattern _ _ _ _ _ g := p in g.

(** The constructors: a constant, an item type (or anything), an instruction. *)
Definition Word (_value : Z) : Pattern := mkPattern Push true STOP (Some (u256 _value)) [] 0.
Definition PType (_type : AssemblyItemType) : Pattern := mkPattern _type false STOP None [] 0.
Definition POp (_instruction : Instruction) (_arguments : list Pattern) : Pattern :=
  mkPattern Operation false _instruction None _arguments 0.
Coercion Word : Z >-> Pattern.

Definition setMatchGroup (_group : nat) (p : Pattern) : Pattern :=
  let 'mkPattern t r i d a _ := p in mkPattern t r i d a _group.

(** [m_matchGroups]: the expression each group has been bound to. *)
Abbreviation MatchGroups := (gmap nat Expression).

Definition matchGroupValue (m : MatchGroups) (p : Pattern) : option Expression :=
  _ ← assertThrow (0 <? Z.of_nat (p_matchGroup p)); m !! p_matchGroup p.

(** [id()] and [d()]; [item->data()] asserts that the item is no operation. *)
Definition p_id (m : MatchGroups) (p : Pattern) : option Z :=
  e ← matchGroupValue m p; Some (id e).
Definition d (m : MatchGroups) (p : Pattern) : option Z :=
  e ← matchGroupValue m p; it ← item e;
  _ ← assertThrow (negb (bool_decide (m_type it = Operation)));
  Some (m_data it).

(** [SimplificationRule].  The closures read the match groups. *)
Record SimplificationRule := mkRule {
  pattern : Pattern;
  action : MatchGroups -> option Pattern;
  removesNonConstants : bool;
  feasible : option (MatchGroups -> option bool) }.

Definition rule (_pattern : Pattern) (_action : MatchGroups -> option Pattern) (_removes : bool)
  : SimplificationRule := mkRule _pattern _action _removes None.
Definition ruleIf (_pattern : Pattern) (_action : MatchGroups -> option Pattern) (_removes : bool)
    (_feasible : MatchGroups -> option bool) : SimplificationRule :=
  mkRule _pattern _action _removes (Some _feasible).

(** [EVMBuiltins]: the pattern generators the rules use. *)
Module Builtins.
Definition ADD (a b : Pattern) := POp Instruction.ADD [a; b].
Definition SUB (a b : Pattern) := POp Instruction.SUB [a; b].
Definition MUL (a b : Pattern) := POp Instruction.MUL [a; b].
Definition DIV (a b : Pattern) := POp Instruction.DIV [a; b].
Definition SDIV (a b : Pattern) := POp Instruction.SDIV [a; b].
Definition MOD (a b : Pattern) := POp Instruction.MOD [a; b].
Definition SMOD (a b : Pattern) := POp Instruction.SMOD [a; b].
Definition EXP (a b : Pattern) := POp Instruction.EXP [a; b].
Definition NOT (a : Pattern) := POp Instruction.NOT [a].
Definition LT (a b : Pattern) := POp Instruction.LT [a; b].
Definition GT (a b : Pattern) := POp Instruction.GT [a; b].
Definition SLT (a b : Pattern) := POp Instruction.SLT [a; b].
Definition SGT (a b : Pattern) := POp Instruction.SGT [a; b].
Definition EQ (a b : Pattern) := POp Instruction.EQ [a; b].
Definition ISZERO (a : Pattern) := POp Instruction.ISZERO [a].
Definition AND (a b : Pattern) := POp Instruction.AND [a; b].
Definition OR (a b : Pattern) := POp Instruction.OR [a; b].
Definition XOR (a b : Pattern) := POp Instruction.XOR [a; b].
Definition BYTE (a b : Pattern) := POp Instruction.BYTE [a; b].
Definition SHL (a b : Pattern) := POp Instruction.SHL [a; b].
Definition SHR (a b : Pattern) := POp Instruction.SHR [a; b].
Definition ADDMOD (a b c : Pattern) := POp Instruction.ADDMOD [a; b; c].
Definition MULMOD (a b c : Pattern) := POp Instruction.MULMOD [a; b; c].
Definition SIGNEXTEND (a b : Pattern) := POp Instruction.SIGNEXTEND [a; b].
Definition BALANCE (a : Pattern) := POp Instruction.BALANCE [a].
Definition CREATE (a b c : Pattern) := POp Instruction.CREATE [a; b; c].
Definition CREATE2 (a b c d : Pattern) := POp Instruction.CREATE2 [a; b; c; d].
End Builtins.

(** The groups a pattern binds when it matches. *)
Fixpoint groups_of (p : Pattern) : list nat :=
  let 'mkPattern _ _ _ _ args g := p in
  (if Nat.eqb g 0 then [] else [g]) ++ concat (map groups_of args).

(** Induction on a pattern with the arguments' hypotheses. *)
Lemma Pattern_ind_args (P : Pattern -> Prop) :
  (forall t r i dt args g, Forall P args -> P (mkPattern t r i dt args g)) -> forall p, P p.
Proof.
  intros H. fix IH 1. intros [t r i dt args g]. apply H.
  induction args as [|a args IHargs]; constructor; [apply IH|apply IHargs].
Qed.
