(* ===== verification/RuleList.v ===== *)
(** * RuleList: the simplification rules, libevmasm/RuleList.h

    The rules in the order of the source.  A, B and C stand for constants and W, X,
    Y and Z for arbitrary expressions; [d m A] is the source's [A.d()].  Both pattern
    classes of the repository have 256-bit words, so [Pattern::WordSize] is 256 and
    [~Word(0)] and [Word(-1)] are [u256_max]. *)

From S2P Require Import Prelude U256 Instruction AssemblyItem EVMVersion Pattern.
Import Builtins.

(** Conversion to the 32-bit [unsigned]. *)
Definition unsigned (x : Z) : Z := x mod 2 ^ 32.

(** [S] is [u256] or [s256]; a quotient or remainder of two [s256] fits an [s256]. *)
Definition divWorkaround (S : Z -> Z) (_a _b : Z) : Z := S (Z.quot _a _b).
Definition modWorkaround (S : Z -> Z) (_a _b : Z) : Z := S (Z.rem _a _b).
Definition s256 (x : Z) : Z := x.
Definition shlWorkaround (_x _amount : Z) : Z :=
  u256 (Z.land (Z.shiftl _x _amount) (u256 (-1))).

(** A C++ condition as an integer. *)
Definition b2w (b : bool) : Z := if b then 1 else 0.

(** Closures that read one, two or three constants. *)
Definition with1 {R} (A : Pattern) (f : Z -> R) (m : MatchGroups) : option R :=
  a ← d m A; Some (f a).
Definition with2 {R} (A B : Pattern) (f : Z -> Z -> R) (m : MatchGroups) : option R :=
  a ← d m A; b ← d m B; Some (f a b).
Definition with3 {R} (A B C : Pattern) (f : Z -> Z -> Z -> R) (m : MatchGroups) : option R :=
  a ← d m A; b ← d m B; c ← d m C; Some (f a b c).
(** A closure that reads none. *)
Definition to (p : Pattern) (m : MatchGroups) : option Pattern := Some p.

(** Arithmetic on constants. *)
Definition simplificationRuleListPart1 (A B C _X _Y : Pattern) : list SimplificationRule :=
  [ rule (ADD A B) (with2 A B (fun a b => Word (u256_add a b))) false;
    rule (MUL A B) (with2 A B (fun a b => Word (u256_mul a b))) false;
    rule (SUB A B) (with2 A B (fun a b => Word (u256_sub a b))) false;
    rule (DIV A B) (with2 A B (fun a b =>
      Word (if b =? 0 then 0 else divWorkaround u256 a b))) false;
    rule (SDIV A B) (with2 A B (fun a b =>
      Word (if b =? 0 then 0 else s2u (divWorkaround s256 (u2s a) (u2s b))))) false;
    rule (MOD A B) (with2 A B (fun a b =>
      Word (if b =? 0 then 0 else modWorkaround u256 a b))) false;
    rule (SMOD A B) (with2 A B (fun a b =>
      Word (if b =? 0 then 0 else s2u (modWorkaround s256 (u2s a) (u2s b))))) false;
    rule (EXP A B) (with2 A B (fun a b => Word (a ^ b mod Z.shiftl 1 WordSize))) false;
    rule (NOT A) (with1 A (fun a => Word (u256_not a))) false;
    rule (LT A B) (with2 A B (fun a b => Word (b2w (a <? b)))) false;
    rule (GT A B) (with2 A B (fun a b => Word (b2w (b <? a)))) false;
    rule (SLT A B) (with2 A B (fun a b => Word (b2w (u2s a <? u2s b)))) false;
    rule (SGT A B) (with2 A B (fun a b => Word (b2w (u2s b <? u2s a)))) false;
    rule (EQ A B) (with2 A B (fun a b => Word (b2w (a =? b)))) false;
    rule (ISZERO A) (with1 A (fun a => Word (b2w (a =? 0)))) false;
    rule (AND A B) (with2 A B (fun a b => Word (Z.land a b))) false;
    rule (OR A B) (with2 A B (fun a b => Word (Z.lor a b))) false;
    rule (XOR A B) (with2 A B (fun a b => Word (Z.lxor a b))) false;
    rule (BYTE A B) (with2 A B (fun a b =>
      Word (if WordSize / 8 <=? a then 0
            else Z.land (u256_shr b (unsigned (8 * (WordSize / 8 - 1 - a)))) 0xff))) false;
    rule (ADDMOD A B C) (with3 A B C (fun a b c =>
      Word (if c =? 0 then 0 else Z.rem (a + b) c))) false;
    rule (MULMOD A B C) (with3 A B C (fun a b c =>
      Word (if c =? 0 then 0 else Z.rem (a * b) c))) false;
    rule (SIGNEXTEND A B) (with2 A B (fun a b =>
      if WordSize / 8 - 1 <=? a then Word b
      else
        let testBit := unsigned a * 8 + 7 in
        let mask := u256_sub (u256_shl 1 testBit) 1 in
        Word (if Z.testbit b testBit then Z.lor b (u256_not mask) else Z.land b mask))) false;
    rule (SHL A B) (with2 A B (fun a b =>
      if WordSize <=? a then Word 0 else Word (shlWorkaround b (unsigned a)))) false;
    rule (SHR A B) (with2 A B (fun a b =>
      if WordSize <=? a then Word 0 else Word (u256_shr b (unsigned a)))) false ].

(** Invariants involving known constants. *)
Definition simplificationRuleListPart2 (_A _B _C X Y : Pattern) : list SimplificationRule :=
  [ rule (ADD X 0) (to X) false;
    rule (ADD 0 X) (to X) false;
    rule (SUB X 0) (to X) false;
    rule (SUB u256_max X) (to (NOT X)) false;
    rule (MUL X 0) (to 0) true;
    rule (MUL 0 X) (to 0) true;
    rule (MUL X 1) (to X) false;
    rule (MUL 1 X) (to X) false;
    rule (MUL X u256_max) (to (SUB 0 X)) false;
    rule (MUL u256_max X) (to (SUB 0 X)) false;
    rule (DIV X 0) (to 0) true;
    rule (DIV 0 X) (to 0) true;
    rule (DIV X 1) (to X) false;
    rule (SDIV X 0) (to 0) true;
    rule (SDIV 0 X) (to 0) true;
    rule (SDIV X 1) (to X) false;
    rule (AND X u256_max) (to X) false;
    rule (AND u256_max X) (to X) false;
    rule (AND X 0) (to 0) true;
    rule (AND 0 X) (to 0) true;
    rule (OR X 0) (to X) false;
    rule (OR 0 X) (to X) false;
    rule (OR X u256_max) (to u256_max) true;
    rule (OR u256_max X) (to u256_max) true;
    rule (XOR X 0) (to X) false;
    rule (XOR 0 X) (to X) false;
    rule (MOD X 0) (to 0) true;
    rule (MOD 0 X) (to 0) true;
    rule (EQ X 0) (to (ISZERO X)) false;
    rule (EQ 0 X) (to (ISZERO X)) false;
    rule (SHL 0 X) (to X) false;
    rule (SHR 0 X) (to X) false;
    rule (SHL X 0) (to 0) true;
    rule (SHR X 0) (to 0) true;
    rule (GT X 0) (to (ISZERO (ISZERO X))) false;
    rule (LT 0 X) (to (ISZERO (ISZERO X))) false;
    rule (GT X u256_max) (to 0) true;
    rule (LT u256_max X) (to 0) true;
    rule (GT 0 X) (to 0) true;
    rule (LT X 0) (to 0) true;
    rule (AND (BYTE X Y) 0xff) (to (BYTE X Y)) false;
    rule (BYTE (WordSize / 8 - 1) X) (to (AND X 0xff)) false ].

(** Operations involving an expression and itself. *)
Definition simplificationRuleListPart3 (_A _B _C X _Y : Pattern) : list SimplificationRule :=
  [ rule (AND X X) (to X) true;
    rule (OR X X) (to X) true;
    rule (XOR X X) (to 0) true;
    rule (SUB X X) (to 0) true;
    rule (EQ X X) (to 1) true;
    rule (LT X X) (to 0) true;
    rule (SLT X X) (to 0) true;
    rule (GT X X) (to 0) true;
    rule (SGT X X) (to 0) true;
    rule (MOD X X) (to 0) true ].

(** Logical instruction combinations. *)
Definition simplificationRuleListPart4 (_A _B _C X Y : Pattern) : list SimplificationRule :=
  [ rule (NOT (NOT X)) (to X) false;
    rule (XOR X (XOR X Y)) (to Y) true;
    rule (XOR X (XOR Y X)) (to Y) true;
    rule (XOR (XOR X Y) X) (to Y) true;
    rule (XOR (XOR Y X) X) (to Y) true;
    rule (OR X (AND X Y)) (to X) true;
    rule (OR X (AND Y X)) (to X) true;
    rule (OR (AND X Y) X) (to X) true;
    rule (OR (AND Y X) X) (to X) true;
    rule (AND X (OR X Y)) (to X) true;
    rule (AND X (OR Y X)) (to X) true;
    rule (AND (OR X Y) X) (to X) true;
    rule (AND (OR Y X) X) (to X) true;
    rule (AND X (NOT X)) (to 0) true;
    rule (AND (NOT X) X) (to 0) true;
    rule (OR X (NOT X)) (to u256_max) true;
    rule (OR (NOT X) X) (to u256_max) true ].

(** Idempotent operations. *)
Definition simplificationRuleListPart4_5 (_A _B _C X Y : Pattern) : list SimplificationRule :=
  [ rule (AND (AND X Y) Y) (to (AND X Y)) true;
    rule (AND Y (AND X Y)) (to (AND X Y)) true;
    rule (AND (AND Y X) Y) (to (AND Y X)) true;
    rule (AND Y (AND Y X)) (to (AND Y X)) true;
    rule (OR (OR X Y) Y) (to (OR X Y)) true;
    rule (OR Y (OR X Y)) (to (OR X Y)) true;
    rule (OR (OR Y X) Y) (to (OR Y X)) true;
    rule (OR Y (OR Y X)) (to (OR Y X)) true ].

Definition simplificationRuleListPart5 (A _B _C X _Y : Pattern) : list SimplificationRule :=
  (* Replace MOD X, <power-of-two> with AND X, <power-of-two> - 1 *)
  map (fun i =>
    let value := u256_shl 1 (Z.of_nat i) in
    rule (MOD X value) (to (AND X (u256_sub value 1))) false) (seq 0 (Z.to_nat WordSize))
  (* Replace SHL >=256, X with 0; SHR >=256, X with 0; BYTE(A, X), A >= 32 with 0 *)
  ++ [ ruleIf (SHL A X) (to 0) true (with1 A (fun a => WordSize <=? a));
       ruleIf (SHR A X) (to 0) true (with1 A (fun a => WordSize <=? a));
       ruleIf (BYTE A X) (to 0) true (with1 A (fun a => WordSize / 8 <=? a)) ]
  ++ concat (map (fun instr =>
       let mask := u256_sub (u256_shl 1 160) 1 in
       [ rule (AND (POp instr []) mask) (to (POp instr [])) false;
         rule (AND mask (POp instr [])) (to (POp instr [])) false ])
     [ADDRESS; CALLER; ORIGIN; COINBASE]).

Definition simplificationRuleListPart6 (_A _B _C X Y : Pattern) : list SimplificationRule :=
  (* Double negation of opcodes with boolean result *)
  map (fun instr =>
    let op a b := POp instr [a; b] in
    rule (ISZERO (ISZERO (op X Y))) (to (op X Y)) false)
    [Instruction.EQ; Instruction.LT; Instruction.SLT; Instruction.GT; Instruction.SGT]
  ++ [ rule (ISZERO (ISZERO (ISZERO X))) (to (ISZERO X)) false;
       rule (ISZERO (XOR X Y)) (to (EQ X Y)) false ].

(** Moving constants to the outside of associative operations. *)
Definition associativeRules (A B X Y : Pattern) (instr : Instruction) (fn : Z -> Z -> Z)
  : list SimplificationRule :=
  let op a b := POp instr [a; b] in
  concat (map (fun opXA =>
    [ (* (X+A)+B -> X+(A+B) *)
      rule (op opXA B) (with2 A B (fun a b => op X (fn a b))) false;
      (* (X+A)+Y -> (X+Y)+A *)
      rule (op opXA Y) (to (op (op X Y) A)) false;
      (* B+(X+A) -> X+(A+B) *)
      rule (op B opXA) (with2 A B (fun a b => op X (fn a b))) false;
      (* Y+(X+A) -> (Y+X)+A *)
      rule (op Y opXA) (to (op (op Y X) A)) false ]) [op X A; op A X]).

(** Combining two shifts by constants. *)
Definition shiftRules (A B X : Pattern) : list SimplificationRule :=
  [ (* SHL(B, SHL(A, X)) -> SHL(min(A+B, 256), X) *)
    rule (SHL B (SHL A X)) (with2 A B (fun a b =>
      let sum := a + b in
      if WordSize <=? sum then AND X 0 else SHL (Word (u256 sum)) X)) false;
    (* SHR(B, SHR(A, X)) -> SHR(min(A+B, 256), X) *)
    rule (SHR B (SHR A X)) (with2 A B (fun a b =>
      let sum := a + b in
      if WordSize <=? sum then AND X 0 else SHR (Word (u256 sum)) X)) false;
    (* SHR(B, SHL(A, X)) -> AND(SH[L/R]([B - A / A - B], X), Mask) *)
    ruleIf (SHR B (SHL A X)) (with2 A B (fun a b =>
      let mask := u256_shr (shlWorkaround u256_max (unsigned a)) (unsigned b) in
      if b <? a then AND (SHL (u256_sub a b) X) mask
      else if a <? b then AND (SHR (u256_sub b a) X) mask
      else AND X mask)) false
      (with2 A B (fun a b => (a <? WordSize) && (b <? WordSize)));
    (* SHL(B, SHR(A, X)) -> AND(SH[L/R]([B - A / A - B], X), Mask) *)
    ruleIf (SHL B (SHR A X)) (with2 A B (fun a b =>
      let mask := shlWorkaround (u256_shr u256_max (unsigned a)) (unsigned b) in
      if b <? a then AND (SHR (u256_sub a b) X) mask
      else if a <? b then AND (SHL (u256_sub b a) X) mask
      else AND X mask)) false
      (with2 A B (fun a b => (a <? WordSize) && (b <? WordSize))) ].

(** Moving AND with a constant across SHL and SHR by a constant. *)
Definition shiftAndRules (A B X : Pattern) (instr : Instruction) (isSHL : bool)
  : list SimplificationRule :=
  let shiftOp a b := POp instr [a; b] in
  let replacement := with2 A B (fun a b =>
    let mask := if isSHL then shlWorkaround a (unsigned b) else u256_shr a (unsigned b) in
    AND (shiftOp (Word b) X) (Word mask)) in
  [ ruleIf (shiftOp B (AND X A)) replacement false (with1 B (fun b => b <? WordSize));
    ruleIf (shiftOp B (AND A X)) replacement false (with1 B (fun b => b <? WordSize)) ].

(** [feasibilityFunction] of the rules that drop a mask of a right shift. *)
Definition feasibilityFunction (A B : Pattern) : MatchGroups -> option bool :=
  with2 A B (fun a b =>
    if WordSize <? b then false
    else
      let bAsUint := unsigned b in
      Z.land a (u256_shr u256_max bAsUint) =? u256_shr u256_max bAsUint).

Definition mulDivRules (A B X Y : Pattern) : list SimplificationRule :=
  [ (* MUL(X, SHL(Y, 1)) -> SHL(Y, X) *)
    rule (MUL X (SHL Y 1)) (to (SHL Y X)) true;
    (* MUL(SHL(X, 1), Y) -> SHL(X, Y) *)
    rule (MUL (SHL X 1) Y) (to (SHL X Y)) false;
    (* DIV(X, SHL(Y, 1)) -> SHR(Y, X) *)
    rule (DIV X (SHL Y 1)) (to (SHR Y X)) true;
    (* AND(A, SHR(B, X)) and AND(SHR(B, X), A) when the mask keeps every bit *)
    ruleIf (AND A (SHR B X)) (to (SHR B X)) false (feasibilityFunction A B);
    ruleIf (AND (SHR B X) A) (to (SHR B X)) false (feasibilityFunction A B) ].

Definition byteRules (A B X : Pattern) : list SimplificationRule :=
  [ ruleIf (BYTE A (SHL B X)) (with2 A B (fun a b => BYTE (u256_add a (b / 8)) X)) false
      (with2 A B (fun a b => (b mod 8 =? 0) && (a <=? 32) && (b <=? 256)));
    ruleIf (BYTE A (SHR B X)) (to 0) true (with2 A B (fun a b => a <? b / 8));
    ruleIf (BYTE A (SHR B X)) (with2 A B (fun a b => BYTE (u256_sub a (b / 8)) X)) false
      (with2 A B (fun a b =>
        (b mod 8 =? 0) && (a <? WordSize / 8) && (b <=? WordSize) && (b / 8 <=? a))) ].

Definition simplificationRuleListPart7 (A B _C X Y : Pattern) : list SimplificationRule :=
  concat (map (fun '(instr, fn) => associativeRules A B X Y instr fn)
    [(Instruction.ADD, u256_add); (Instruction.MUL, u256_mul); (Instruction.AND, Z.land);
     (Instruction.OR, Z.lor); (Instruction.XOR, Z.lxor)])
  ++ shiftRules A B X
  ++ concat (map (fun '(instr, isSHL) => shiftAndRules A B X instr isSHL)
       [(Instruction.SHL, true); (Instruction.SHR, false)])
  ++ mulDivRules A B X Y
  ++ byteRules A B X.

(** Moving constants across subtractions. *)
Definition simplificationRuleListPart8 (A _B _C X Y : Pattern) : list SimplificationRule :=
  [ (* X - A -> X + (-A) *)
    rule (SUB X A) (with1 A (fun a => ADD X (u256_sub 0 a))) false;
    (* (X + A) - Y -> (X - Y) + A *)
    rule (SUB (ADD X A) Y) (to (ADD (SUB X Y) A)) false;
    (* (A + X) - Y -> (X - Y) + A *)
    rule (SUB (ADD A X) Y) (to (ADD (SUB X Y) A)) false;
    (* X - (Y + A) -> (X - Y) + (-A) *)
    rule (SUB X (ADD Y A)) (with1 A (fun a => ADD (SUB X Y) (u256_sub 0 a))) false;
    (* X - (A + Y) -> (X - Y) + (-A) *)
    rule (SUB X (ADD A Y)) (with1 A (fun a => ADD (SUB X Y) (u256_sub 0 a))) false ].

Definition simplificationRuleListPart9 (_A _B _C W X Y Z : Pattern) : list SimplificationRule :=
  let mask := u256_sub (u256_shl 1 160) 1 in
  [ rule (AND (CREATE W X Y) mask) (to (CREATE W X Y)) false;
    rule (AND mask (CREATE W X Y)) (to (CREATE W X Y)) false;
    rule (AND (CREATE2 W X Y Z) mask) (to (CREATE2 W X Y Z)) false;
    rule (AND mask (CREATE2 W X Y Z)) (to (CREATE2 W X Y Z)) false ].

Definition evmRuleList (_evmVersion : EVMVersion) (_A _B _C _W _X _Y _Z : Pattern)
  : list SimplificationRule :=
  if hasSelfBalance _evmVersion
  then [ rule (BALANCE (POp ADDRESS [])) (to (POp SELFBALANCE [])) false ]
  else [].

Definition simplificationRuleList (_evmVersion : option EVMVersion)
    (A B C W X Y Z : Pattern) : list SimplificationRule :=
  simplificationRuleListPart1 A B C W X
  ++ simplificationRuleListPart2 A B C W X
  ++ simplificationRuleListPart3 A B C W X
  ++ simplificationRuleListPart4 A B C W X
  ++ simplificationRuleListPart4_5 A B C W X
  ++ simplificationRuleListPart5 A B C W X
  ++ simplificationRuleListPart6 A B C W X
  ++ simplificationRuleListPart7 A B C W X
  ++ simplificationRuleListPart8 A B C W X
  ++ simplificationRuleListPart9 A B C W X Y Z
  ++ match _evmVersion with
     | Some v => evmRuleList v A B C W X Y Z
     | None => []
     end.

Lemma unsigned_small x : 0 <= x < 2 ^ 32 -> unsigned x = x.
Proof. apply Z.mod_small. Qed.
