(* ===== verification/SemVer.v ===== *)
(** * SemVer: versions and version expressions, liblangutil/SemVerHandler.{h,cpp}

    The versions of the compiler, the expressions a [pragma solidity] compares them with, and the
    parser of such expressions, over the tokens and literals the scanner found.  A
    [SemVerError] is [None] or [Exception]; a number is an [unsigned] of 32 bits. *)

From Stdlib Require Import Ascii.
From S2P Require Import Prelude CommonData RuleList Token.

(** ** Versions *)

Record SemVerVersion := mkVersion {
  numbers : list Z;
  prerelease : list Z;
  build : list Z }.

(** The digits at the begin of a string, as an [unsigned] that wraps. *)
Fixpoint readNumber (s : list Z) (v : Z) : Z * list Z :=
  match s with
  | c :: s' =>
      if (chr "0" <=? c) && (c <=? chr "9") then readNumber s' (unsigned (v * 10 + (c - chr "0"))) else (v, s)
  | [] => (v, [])
  end.

(** The loop over the levels. *)
Fixpoint readLevels (levels : nat) (s : list Z) : option (list Z * list Z) :=
  match levels with
  | O => Some ([], s)
  | S levels =>
      let '(v, s) := readNumber s 0 in
      match levels, s with
      | O, _ => Some ([v], s)
      | S _, c :: s =>
          _ ← assertThrow (c =? chr ".");
          '(vs, s) ← readLevels levels s; Some (v :: vs, s)
      | S _, [] => None
      end
  end.

(** The constructor. *)
Definition parseVersion (_versionString : list Z) : option SemVerVersion :=
  '(numbers, i) ← readLevels 3 _versionString;
  let '(prerelease, i) :=
    match i with
    | c :: i' => if c =? chr "-" then splitAt (fun c => c =? chr "+") i' else ([], i)
    | [] => ([], [])
    end in
  let '(build, i) :=
    match i with
    | c :: i' => if c =? chr "+" then (i', []) else ([], i)
    | [] => ([], [])
    end in
  _ ← assertThrow (bool_decide (i = []));
  Some (mkVersion numbers prerelease build).

(** ** Expressions *)

Record MatchComponent := mkComponent {
  prefix : Token.t;
  version : list Z;
  levelsPresent : nat }.

(** [unsigned(-1)] stands for a wildcard. *)
Definition wildcard : Z := 2 ^ 32 - 1.

(** The conversion of an [unsigned] to [int]. *)
Definition asInt (x : Z) : Z := if x <? 2 ^ 31 then x else x - 2 ^ 32.

(** The loop over the levels: the last comparison and whether there was one. *)
Fixpoint compareLevels (n : nat) (theirs ours : list Z) (cmp : Z) (didCompare : bool) : Z * bool :=
  match n, theirs, ours with
  | S n, t :: theirs, o :: ours =>
      if negb (cmp =? 0) then (cmp, didCompare)
      else if o =? wildcard then compareLevels n theirs ours cmp didCompare
      else compareLevels n theirs ours (asInt (unsigned (t - o))) true
  | _, _, _ => (cmp, didCompare)
  end.

(** [MatchComponent::matches] but for the prefixes ~ and ^; [None] is the failed assertion. *)
Definition matchesPlain (c : MatchComponent) (_version : SemVerVersion) : option bool :=
  let '(cmp, didCompare) := compareLevels (levelsPresent c) (numbers _version) (version c) 0 false in
  let cmp := if (cmp =? 0) && negb (bool_decide (prerelease _version = [])) && didCompare then -1 else cmp in
  match prefix c with
  | Token.Assign => Some (cmp =? 0)
  | Token.LessThan => Some (cmp <? 0)
  | Token.LessThanOrEqual => Some (cmp <=? 0)
  | Token.GreaterThan => Some (0 <? cmp)
  | Token.GreaterThanOrEqual => Some (0 <=? cmp)
  | _ => None
  end.

Definition set_prefix (p : Token.t) (c : MatchComponent) : MatchComponent := mkComponent p (version c) (levelsPresent c).
Definition set_levels (n : nat) (c : MatchComponent) : MatchComponent := mkComponent (prefix c) (version c) n.

Definition componentMatches (c : MatchComponent) (_version : SemVerVersion) : option bool :=
  match prefix c with
  | Token.BitNot =>
      lower ← matchesPlain (set_prefix Token.GreaterThanOrEqual c) _version;
      if negb lower then Some false
      else matchesPlain (set_prefix Token.LessThanOrEqual
                           (set_levels (if Nat.leb 2 (levelsPresent c) then 2%nat else 1%nat) c)) _version
  | Token.BitXor =>
      lower ← matchesPlain (set_prefix Token.GreaterThanOrEqual c) _version;
      if negb lower then Some false
      else matchesPlain (set_prefix Token.LessThanOrEqual
                           (set_levels (if (nth 0 (version c) 0 =? 0) && negb (Nat.eqb (levelsPresent c) 1)
                                        then 2%nat else 1%nat) c)) _version
  | _ => matchesPlain c _version
  end.

(** A conjunction is the list of its components, an expression the list of its conjunctions. *)
Fixpoint conjunctionMatches (components : list MatchComponent) (_version : SemVerVersion) : option bool :=
  match components with
  | [] => Some true
  | c :: components =>
      b ← componentMatches c _version;
      if b : bool then conjunctionMatches components _version else Some false
  end.

Definition isValid (m_disjunction : list (list MatchComponent)) : bool := negb (bool_decide (m_disjunction = [])).

Fixpoint disjunctionMatches (m_disjunction : list (list MatchComponent)) (_version : SemVerVersion) : option bool :=
  match m_disjunction with
  | [] => Some false
  | range :: m_disjunction =>
      b ← conjunctionMatches range _version;
      if b : bool then Some true else disjunctionMatches m_disjunction _version
  end.

Definition expressionMatches (e : list (list MatchComponent)) (_version : SemVerVersion) : option bool :=
  if negb (isValid e) then Some false else disjunctionMatches e _version.

(** ** The parser *)

Section Parser.
Context (m_tokens : list Token.t) (m_literals : list (list Z)).

(** [m_pos] and [m_posInside]. *)
Definition Position : Type := nat * nat.

(** [char(-1)] past the end. *)
Definition noChar : Z := -1.

Definition currentChar (p : Position) : Z :=
  match m_literals !! fst p with
  | Some literal => default noChar (literal !! snd p)
  | None => noChar
  end.

Definition nextToken (p : Position) : Position := (S (fst p), 0%nat).

Definition nextChar (p : Position) : Position :=
  match m_literals !! fst p with
  | Some literal => if Nat.leb (length literal) (snd p + 1) then nextToken p else (fst p, S (snd p))
  | None => p
  end.

Definition currentToken (p : Position) : Token.t := default Token.Illegal (m_tokens !! fst p).

(** The loop of [parseVersionPart] over the further digits; [steps] bounds their number. *)
Fixpoint versionDigits (steps : nat) (startPos : nat) (v : Z) (p : Position) : Result (Z * Position) :=
  let c := currentChar p in
  if Nat.eqb (fst p) startPos && (chr "0" <=? c) && (c <=? chr "9") then
    match steps with
    | O => OutOfFuel
    | S steps =>
        if (unsigned (v * 10) <? v) || (unsigned (unsigned (v * 10) + (c - chr "0")) <? unsigned (v * 10))
        then Exception
        else versionDigits steps startPos (unsigned (unsigned (v * 10) + (c - chr "0"))) (nextChar p)
    end
  else Ret (v, p).

Definition parseVersionPart (steps : nat) (p : Position) : Result (Z * Position) :=
  let c := currentChar p in
  let p' := nextChar p in
  if (c =? chr "x") || (c =? chr "X") || (c =? chr "*") then Ret (wildcard, p')
  else if c =? chr "0" then Ret (0, p')
  else if (chr "1" <=? c) && (c <=? chr "9") then versionDigits steps (fst p) (c - chr "0") p'
  else Exception.

(** The loop of [parseMatchComponent]: the numbers of the levels present. *)
Fixpoint versionParts (steps : nat) (levels : nat) (p : Position) : Result (list Z * Position) :=
  match levels with
  | O => Ret ([], p)
  | S levels =>
      '(v, p) ← parseVersionPart steps p;
      if currentChar p =? chr "."
      then '(vs, p) ← versionParts steps levels (nextChar p); Ret (v :: vs, p)
      else Ret ([v], p)
  end.

Definition isPrefix (token : Token.t) : bool :=
  match token with
  | Token.BitXor | Token.BitNot | Token.LessThan | Token.LessThanOrEqual | Token.GreaterThan
  | Token.GreaterThanOrEqual | Token.Assign => true
  | _ => false
  end.

(** The numbers that are not present stay those of the version 0.0.0. *)
Definition parseMatchComponent (steps : nat) (p : Position) : Result (MatchComponent * Position) :=
  let token := currentToken p in
  let '(prefix, p) := if isPrefix token then (token, nextToken p) else (Token.Assign, p) in
  '(vs, p) ← versionParts steps 3 p;
  Ret (mkComponent prefix (vs ++ replicate (3 - length vs) 0) (length vs), p).

(** The further components of a conjunction. *)
Fixpoint parseComponents (steps n : nat) (p : Position) : Result (list MatchComponent * Position) :=
  if tokenIs (currentToken p) Token.Or || tokenIs (currentToken p) Token.Illegal then Ret ([], p)
  else
    match n with
    | O => OutOfFuel
    | S n =>
        '(c, p) ← parseMatchComponent steps p;
        '(cs, p) ← parseComponents steps n p;
        Ret (c :: cs, p)
    end.

Definition parseMatchExpression (steps : nat) (p : Position) : Result (list MatchComponent * Position) :=
  '(c, p) ← parseMatchComponent steps p;
  if tokenIs (currentToken p) Token.Sub then
    '(c', p) ← parseMatchComponent steps (nextToken p);
    Ret ([set_prefix Token.GreaterThanOrEqual c; set_prefix Token.LessThanOrEqual c'], p)
  else
    '(cs, p) ← parseComponents steps steps p;
    Ret (c :: cs, p).

(** The loop of [parse]. *)
Fixpoint parseDisjunction (steps n : nat) (p : Position) : Result (list (list MatchComponent)) :=
  match n with
  | O => OutOfFuel
  | S n =>
      '(range, p) ← parseMatchExpression steps p;
      if Nat.leb (length m_tokens) (fst p) then Ret [range]
      else if negb (tokenIs (currentToken p) Token.Or) then Exception
      else rest ← parseDisjunction steps n (nextToken p); Ret (range :: rest)
  end.

(** Every turn of a loop moves on to the next character or token. *)
Definition parseSteps : nat := S (length m_tokens + length m_literals + sum_list_with length m_literals).

(** [parse]: an error leaves the empty expression, which is not valid. *)
Definition parse : Result (list (list MatchComponent)) :=
  match parseDisjunction parseSteps parseSteps (0%nat, 0%nat) with
  | Exception => Ret []
  | r => r
  end.
End Parser.

(** ** What a component matches *)

(** The order of versions level by level. *)
Fixpoint lexCompare (l l' : list Z) : comparison :=
  match l, l' with
  | x :: l, y :: l' => match x ?= y with Eq => lexCompare l l' | c => c end
  | _, _ => Eq
  end.

(** What a prefix asks of a version [theirs] and the [n] numbers [ours] it precedes; ~ and ^ ask for
    at least these and for the same first two or one. *)
Definition inRange (p : Token.t) (n : nat) (ours theirs : list Z) : Prop :=
  let c := lexCompare (take n theirs) (take n ours) in
  match p with
  | Token.Assign => c = Eq
  | Token.LessThan => c = Lt
  | Token.LessThanOrEqual => c <> Gt
  | Token.GreaterThan => c = Gt
  | Token.GreaterThanOrEqual => c <> Lt
  | Token.BitNot => c <> Lt /\ take (Nat.min n 2) theirs = take (Nat.min n 2) ours
  | Token.BitXor =>
      let k := if (nth 0 ours 0 =? 0) && negb (Nat.eqb n 1) then 2%nat else 1%nat in
      c <> Lt /\ take k theirs = take k ours
  | _ => False
  end.

(** Three numbers that are far from the bounds of an [int]. *)
Definition plainNumbers (l : list Z) : Prop := length l = 3%nat /\ Forall (fun x => 0 <= x < 2 ^ 31) l.

Lemma asInt_sub t o : 0 <= t < 2 ^ 31 -> 0 <= o < 2 ^ 31 -> asInt (unsigned (t - o)) = t - o.
Proof.
  intros Ht Ho. unfold asInt, unsigned. destruct (Z.ltb_spec (t - o) 0).
  - replace ((t - o) mod 2 ^ 32) with (t - o + 2 ^ 32) by (apply Z.mod_unique_pos with (-1); lia).
    rewrite (proj2 (Z.ltb_ge _ _)) by lia. lia.
  - rewrite Z.mod_small by lia. by rewrite (proj2 (Z.ltb_lt _ _)) by lia.
Qed.

Lemma compareLevels_stop n theirs ours cmp b : cmp <> 0 -> compareLevels n theirs ours cmp b = (cmp, b).
Proof.
  intros H. destruct n, theirs, ours; try done. cbn [compareLevels]. by rewrite (proj2 (Z.eqb_neq _ _)) by done.
Qed.

Lemma compareLevels_lex n theirs ours b :
  Forall (fun x => 0 <= x < 2 ^ 31) theirs -> Forall (fun x => 0 <= x < 2 ^ 31) ours ->
  (fst (compareLevels n theirs ours 0 b) ?= 0) = lexCompare (take n theirs) (take n ours).
Proof.
  intros Ht. revert n ours b. induction Ht as [|t theirs Ht _ IH]; intros n ours b Ho; [by destruct n|].
  destruct n as [|n], Ho as [|o ours Ho Hos]; try done. cbn [compareLevels take lexCompare negb].
  assert (o =? wildcard = false) as -> by (apply Z.eqb_neq; unfold wildcard; lia).
  cbn [Z.eqb negb]. rewrite asInt_sub by done. destruct (t ?= o) eqn:E.
  - apply Z.compare_eq in E as ->. rewrite Z.sub_diag. by apply IH.
  - assert (t < o) by by apply Z.compare_lt_iff. rewrite compareLevels_stop by lia. apply Z.compare_lt_iff. cbn [fst]. lia.
  - assert (o < t) by by apply Z.compare_gt_iff. rewrite compareLevels_stop by lia. apply Z.compare_gt_iff. cbn [fst]. lia.
Qed.

(** A plain comparison is the comparison of the levels present. *)
Lemma matchesPlain_lex p n ours v :
  plainNumbers ours -> plainNumbers (numbers v) -> prerelease v = [] ->
  p ∈ [Token.Assign; Token.LessThan; Token.LessThanOrEqual; Token.GreaterThan; Token.GreaterThanOrEqual] ->
  exists b, matchesPlain (mkComponent p ours n) v = Some b /\ (b = true <-> inRange p n ours (numbers v)).
Proof.
  intros [_ Ho] [_ Hv] Hp Hin. pose proof (compareLevels_lex n (numbers v) ours false Hv Ho) as H.
  unfold matchesPlain. cbn [levelsPresent version prefix].
  destruct (compareLevels n (numbers v) ours 0 false) as [cmp did]. cbn [fst] in H.
  rewrite Hp, bool_decide_true by done. cbn [negb]. rewrite andb_false_r. cbn [andb].
  repeat (apply elem_of_cons in Hin as [-> |Hin]; [eexists; split; [reflexivity|]; cbn [inRange]; rewrite <- H|]).
  - rewrite Z.eqb_eq, Z.compare_eq_iff. done.
  - by rewrite Z.ltb_lt, Z.compare_lt_iff.
  - by rewrite Z.leb_le.
  - by rewrite Z.ltb_lt, Z.compare_gt_iff.
  - rewrite Z.leb_le, Z.compare_lt_iff. lia.
  - by apply elem_of_nil in Hin.
Qed.

(** At least the numbers and at most the first of them means that these are the same. *)
Lemma lex_prefix k n l l' :
  (k <= n)%nat -> lexCompare (take n l) (take n l') <> Lt -> lexCompare (take k l) (take k l') <> Gt ->
  length l = length l' -> take k l = take k l'.
Proof.
  revert n l l'. induction k as [|k IH]; intros n l l' Hk H1 H2 Hlen; [done|]. destruct n as [|n]; [lia|].
  destruct l as [|x l], l' as [|y l']; try done. cbn [take lexCompare] in *.
  destruct (x ?= y) eqn:E; [|by destruct H1|by destruct H2]. apply Z.compare_eq in E as ->. f_equal.
  apply (IH n); [lia|done|done|by injection Hlen].
Qed.

Lemma lex_same l : lexCompare l l = Eq.
Proof. induction l as [|x l IH]; [done|]. cbn. by rewrite Z.compare_refl. Qed.


(** ** The parser ends *)

Section Ends.
Context (m_tokens : list Token.t) (m_literals : list (list Z)).

(** The characters from a position on. *)
Definition charsLeft (p : Position) : nat := sum_list_with length (drop (fst p) m_literals) - snd p.

(** A position lies within its literal. *)
Definition inside (p : Position) : Prop :=
  match m_literals !! fst p with Some literal => (snd p <= length literal)%nat | None => True end.

Lemma inside_start i : inside (i, 0%nat).
Proof. unfold inside. cbn. case_match; lia. Qed.

Lemma charsLeft_next p : inside p -> (charsLeft (nextToken p) <= charsLeft p)%nat.
Proof.
  unfold inside, charsLeft, nextToken. cbn [fst snd]. destruct (m_literals !! fst p) as [literal|] eqn:E.
  - rewrite (drop_S _ _ _ E). cbn [sum_list_with]. lia.
  - apply lookup_ge_None_1 in E. rewrite !drop_ge by lia. cbn. lia.
Qed.

Lemma nextChar_inside p : inside p -> inside (nextChar m_literals p) /\ (charsLeft (nextChar m_literals p) <= charsLeft p)%nat.
Proof.
  intros H. unfold nextChar. destruct (m_literals !! fst p) as [literal|] eqn:E; [|done].
  destruct (Nat.leb_spec (length literal) (snd p + 1)).
  - split; [apply inside_start|by apply charsLeft_next].
  - unfold inside, charsLeft. cbn [fst snd]. rewrite E. lia.
Qed.

Lemma nextChar_less p :
  inside p -> currentChar m_literals p <> noChar -> (charsLeft (nextChar m_literals p) < charsLeft p)%nat.
Proof.
  intros H. unfold currentChar, nextChar, inside, charsLeft in *. destruct (m_literals !! fst p) as [literal|] eqn:E; [|done].
  destruct (literal !! snd p) as [c|] eqn:Ec; [|done]. apply lookup_lt_Some in Ec. intros _.
  rewrite (drop_S _ _ _ E). cbn [sum_list_with]. destruct (Nat.leb_spec (length literal) (snd p + 1)); cbn [fst snd nextToken].
  - lia.
  - rewrite (drop_S _ _ _ E). cbn [sum_list_with]. lia.
Qed.

(** A result further on, or an exception: not the end of the fuel. *)
Definition advances {A} (strictly : bool) (p : Position) (r : Result (A * Position)) : Prop :=
  match r with
  | Ret (_, p') => inside p' /\ (if strictly then charsLeft p' < charsLeft p else charsLeft p' <= charsLeft p)%nat
  | Exception => True
  | OutOfFuel => False
  end.

Lemma advances_bind {A B} s s' p (r : Result (A * Position)) (k : A * Position -> Result (B * Position)) :
  advances s p r -> (forall a p', inside p' -> (charsLeft p' <= charsLeft p)%nat -> (s = true -> charsLeft p' < charsLeft p)%nat ->
    advances s' p' (k (a, p'))) ->
  advances (s || s') p (r ≫= k).
Proof.
  destruct r as [[a p']| |]; cbn [mbind Result_bind]; [|done|done]. intros [Hi Hl] Hk.
  assert (Hle : (charsLeft p' <= charsLeft p)%nat) by (destruct s; lia).
  specialize (Hk a p' Hi Hle ltac:(by intros ->)). unfold advances in *. destruct (k (a, p')) as [[b p'']| |]; [|done|done].
  destruct Hk as [Hi' Hl']. split; [done|]. destruct s, s'; cbn [orb]; lia.
Qed.

Lemma advances_weaken {A} p (r : Result (A * Position)) : advances true p r -> advances false p r.
Proof. unfold advances. destruct r as [[a q]| |]; [|done|done]. intros [H1 H2]. split; [done|lia]. Qed.

Lemma versionDigits_advances steps start v p :
  inside p -> (charsLeft p <= steps)%nat -> advances false p (versionDigits m_literals steps start v p).
Proof.
  revert v p. induction steps as [|steps IH]; intros v p Hi Hs; cbn [versionDigits].
  all: destruct (Nat.eqb (fst p) start && (chr "0" <=? currentChar m_literals p) && (currentChar m_literals p <=? chr "9")) eqn:E.
  2,4: split; [done|lia].
  all: assert (currentChar m_literals p <> noChar) as Hc
    by (intros H; rewrite H in E; change (chr "0" <=? noChar) with false in E; rewrite andb_false_r in E; discriminate E).
  all: pose proof (nextChar_less p Hi Hc).
  { exfalso. lia. }
  case_match; [done|].
  pose proof (nextChar_inside p Hi) as [Hi' _].
  specialize (IH (unsigned (unsigned (v * 10) + (currentChar m_literals p - chr "0"))) _ Hi' ltac:(lia)).
  unfold advances in *. destruct (versionDigits _ _ _ _ _) as [[? p']| |]; [|done|done]. split; [apply IH|lia].
Qed.

Lemma parseVersionPart_advances steps p :
  inside p -> (charsLeft p <= steps)%nat -> advances true p (parseVersionPart m_literals steps p).
Proof.
  intros Hi Hs. unfold parseVersionPart. destruct (nextChar_inside p Hi) as [Hi' Hle].
  destruct (Z.eq_dec (currentChar m_literals p) noChar) as [E|E]; [rewrite E; exact I|].
  pose proof (nextChar_less p Hi E). case_match; [by split|]. case_match; [by split|]. case_match; [|done].
  pose proof (versionDigits_advances steps (fst p) (currentChar m_literals p - chr "0") (nextChar m_literals p) Hi' ltac:(lia)) as V.
  unfold advances in *. destruct (versionDigits _ _ _ _ _) as [[? p']| |]; [|done|done]. split; [apply V|lia].
Qed.

Lemma versionParts_advances steps levels p :
  inside p -> (charsLeft p <= steps)%nat ->
  advances (match levels with O => false | _ => true end) p (versionParts m_literals steps levels p).
Proof.
  revert p. induction levels as [|levels IH]; intros p Hi Hs; cbn [versionParts]; [split; [done|lia]|].
  apply (advances_bind true false); [by apply parseVersionPart_advances|]. intros v p' Hi' Hle _.
  destruct (nextChar_inside p' Hi') as [Hi'' Hle']. destruct (currentChar m_literals p' =? chr "."); [|split; [done|lia]].
  apply (advances_bind false false p').
  - specialize (IH (nextChar m_literals p') Hi'' ltac:(lia)). unfold advances in *.
    destruct (versionParts _ _ _ _) as [[? q]| |]; [|done|done]. split; [apply IH|]. destruct levels; lia.
  - intros. split; [done|lia].
Qed.

Lemma parseMatchComponent_advances steps p :
  inside p -> (charsLeft p <= steps)%nat -> advances true p (parseMatchComponent m_tokens m_literals steps p).
Proof.
  intros Hi Hs. unfold parseMatchComponent. pose proof (charsLeft_next p Hi).
  assert (Hv : forall p', inside p' -> (charsLeft p' <= charsLeft p)%nat -> forall pre,
    advances true p ('(vs, p) ← versionParts m_literals steps 3 p';
      Ret (mkComponent pre (vs ++ replicate (3 - length vs) 0) (length vs), p))).
  { intros p' Hi' Hle pre. apply (advances_bind true false).
    - pose proof (versionParts_advances steps 3 p' Hi' ltac:(lia)) as V. unfold advances in *.
      destruct (versionParts _ _ _ _) as [[? q]| |]; [|done|done]. split; [apply V|lia].
    - intros. split; [done|lia]. }
  destruct (isPrefix (currentToken m_tokens p)); apply Hv; try done. apply inside_start.
Qed.

Lemma parseComponents_advances steps n p :
  inside p -> (charsLeft p < n)%nat -> (n <= steps)%nat -> advances false p (parseComponents m_tokens m_literals steps n p).
Proof.
  revert p. induction n as [|n IH]; intros p Hi Hn Hs; cbn [parseComponents]; (case_match; [by split|]).
  - lia.
  - apply advances_weaken, (advances_bind true false); [apply parseMatchComponent_advances; [done|lia]|]. intros c p' Hi' _ Hlt.
    specialize (Hlt eq_refl). apply (advances_bind false false); [apply IH; [done|lia|lia]|]. intros. split; [done|lia].
Qed.

Lemma parseMatchExpression_advances steps p :
  inside p -> (charsLeft p < steps)%nat -> advances true p (parseMatchExpression m_tokens m_literals steps p).
Proof.
  intros Hi Hs. unfold parseMatchExpression.
  apply (advances_bind true false); [apply parseMatchComponent_advances; [done|lia]|]. intros c p' Hi' _ Hlt.
  specialize (Hlt eq_refl). case_match.
  - pose proof (charsLeft_next p' Hi').
    pose proof (parseMatchComponent_advances steps (nextToken p') (inside_start _) ltac:(lia)) as V. unfold advances in *.
    destruct (parseMatchComponent _ _ _ _) as [[c' q]| |]; [|done|done]. split; [apply V|lia].
  - apply (advances_bind false false); [apply parseComponents_advances; [done|lia|lia]|]. intros. split; [done|lia].
Qed.

Lemma parseDisjunction_returns steps n p :
  inside p -> (charsLeft p < n)%nat -> (n <= steps)%nat -> parseDisjunction m_tokens m_literals steps n p <> OutOfFuel.
Proof.
  revert p. induction n as [|n IH]; intros p Hi Hn Hs; [lia|]. cbn [parseDisjunction].
  pose proof (parseMatchExpression_advances steps p Hi ltac:(lia)) as V. unfold advances in V.
  destruct (parseMatchExpression _ _ _ _) as [[range q]| |]; [|done|done]. destruct V as [Hq Hlt]. cbn [mbind Result_bind].
  case_match; [done|]. case_match; [done|]. pose proof (charsLeft_next q Hq).
  specialize (IH (nextToken q) (inside_start _) ltac:(lia) ltac:(lia)).
  destruct (parseDisjunction _ _ _ _ _); [done|done|by destruct IH].
Qed.

(** The parser of version expressions ends on all tokens and literals, also where their numbers differ:
    every turn of its loops takes a character. *)
Theorem parse_returns : exists e, parse m_tokens m_literals = Ret e.
Proof.
  unfold parse. pose proof (parseDisjunction_returns (parseSteps m_tokens m_literals) (parseSteps m_tokens m_literals)
    (0%nat, 0%nat) (inside_start 0) ltac:(unfold charsLeft, parseSteps; cbn [fst snd]; rewrite drop_0; lia) ltac:(lia)) as H.
  destruct (parseDisjunction _ _ _ _ _); [by eexists|by eexists|by destruct H].
Qed.
End Ends.

(** ** The language of the parser *)

(** How a number may be written. *)
Definition partText (v : Z) (text : list Z) : Prop :=
  (v = wildcard /\ text ∈ [str "x"; str "X"; str "*"]) \/ (0 <= v < 2 ^ 32 /\ text = to_string v).

Inductive versionText : list Z -> list Z -> Prop :=
| text_last v t : partText v t -> versionText [v] t
| text_more v t vs u : partText v t -> versionText vs u -> versionText (v :: vs) (t ++ chr "." :: u).

(** Tokens with their literals. *)
Abbreviation Tokens := (list (Token.t * list Z)).

Definition chars (l : Tokens) : list Z := concat (map snd l).

Definition endsInDigit (s : list Z) : bool := match last s with Some c => isDecimalDigit c | None => false end.
Definition startsWithDigit (s : list Z) : bool := match s with c :: _ => isDecimalDigit c | [] => false end.

(** No number goes over the end of a token. *)
Fixpoint apart (l : Tokens) : Prop :=
  match l with
  | x :: (y :: _) as l' => endsInDigit (snd x) && startsWithDigit (snd y) = false /\ apart l'
  | _ => True
  end.

Definition plainToken (tok : Token.t) : bool :=
  negb (isPrefix tok || tokenIs tok Token.Or || tokenIs tok Token.Illegal || tokenIs tok Token.Sub).

(** One to three numbers, however the scanner cuts them into tokens. *)
Record writesVersion (vs : list Z) (l : Tokens) : Prop := {
  wv_text : versionText vs (chars l);
  wv_length : (length vs <= 3)%nat;
  wv_nonempty : Forall (fun x => snd x <> []) l;
  wv_apart : apart l;
  wv_first : match l with x :: _ => plainToken (fst x) = true | [] => False end }.

Definition component (p : Token.t) (vs : list Z) : MatchComponent :=
  mkComponent p (vs ++ replicate (3 - length vs) 0) (length vs).

Definition noDot (s : list Z) : Prop := head s <> Some (chr ".").

Inductive writesComponent : MatchComponent -> Tokens -> Prop :=
| writes_bare vs l : writesVersion vs l -> writesComponent (component Token.Assign vs) l
| writes_prefixed p s vs l : isPrefix p = true -> noDot s -> writesVersion vs l ->
    writesComponent (component p vs) ((p, s) :: l).

Inductive writesComponents : list MatchComponent -> Tokens -> Prop :=
| writes_none : writesComponents [] []
| writes_some c cs l l' : writesComponent c l -> writesComponents cs l' -> writesComponents (c :: cs) (l ++ l').

Inductive writesRange : list MatchComponent -> Tokens -> Prop :=
| writes_conjunction c cs l l' : writesComponent c l -> writesComponents cs l' -> writesRange (c :: cs) (l ++ l')
| writes_between c c' s l l' : writesComponent c l -> writesComponent c' l' -> noDot s ->
    writesRange [set_prefix Token.GreaterThanOrEqual c; set_prefix Token.LessThanOrEqual c'] (l ++ (Token.Sub, s) :: l').

Inductive writesExpression : list (list MatchComponent) -> Tokens -> Prop :=
| writes_range r l : writesRange r l -> writesExpression [r] l
| writes_or r rs s l l' : writesRange r l -> noDot s -> writesExpression rs l' ->
    writesExpression (r :: rs) (l ++ (Token.Or, s) :: l').

(** *** Digits *)

Definition decimalFrom (v : Z) (ds : list Z) : Z := fold_left (fun v c => v * 10 + (c - chr "0")) ds v.

Lemma digitsOf_spec fuel n :
  0 < n < 10 ^ Z.of_nat fuel -> exists c ds, digitsOf fuel n = c :: ds /\ chr "1" <= c <= chr "9" /\
    Forall (fun c => isDecimalDigit c = true) ds /\ decimalFrom (c - chr "0") ds = n.
Proof.
  revert n. induction fuel as [|fuel IH]; intros n Hn; [change (10 ^ Z.of_nat 0) with 1 in Hn; lia|].
  change (chr "0") with 48 in *. change (chr "1") with 49 in *. change (chr "9") with 57 in *.
  cbn [digitsOf]. change (chr "0") with 48. destruct (Z.ltb_spec n 10).
  - exists (48 + n), []. split; [done|]. split; [lia|]. split; [constructor|]. cbn. lia.
  - rewrite Nat2Z.inj_succ, Z.pow_succ_r in Hn by lia.
    destruct (IH (n / 10)) as (c & ds & -> & Hc & Hds & Hv).
    { split; [apply Z.div_str_pos; lia|apply Z.div_lt_upper_bound; lia]. }
    exists c, (ds ++ [48 + n mod 10]). split; [done|]. split; [done|].
    pose proof (Z.mod_pos_bound n 10 ltac:(lia)). split.
    + apply Forall_app_2; [done|]. constructor; [|constructor]. unfold isDecimalDigit.
      change (chr "0") with 48. change (chr "9") with 57. rewrite andb_true_iff, !Z.leb_le. lia.
    + unfold decimalFrom in *. change (chr "0") with 48 in *. rewrite fold_left_app, Hv. cbn.
      pose proof (Z.div_mod n 10 ltac:(lia)). lia.
Qed.

Lemma decimalFrom_ge v ds : 0 <= v -> Forall (fun c => isDecimalDigit c = true) ds -> v <= decimalFrom v ds.
Proof.
  intros Hv H. revert v Hv. induction H as [|c ds Hc _ IH]; intros v Hv; cbn; [lia|].
  unfold isDecimalDigit in Hc. change (chr "0") with 48 in *. bool_to_prop. specialize (IH (v * 10 + (c - 48)) ltac:(lia)).
  unfold decimalFrom in IH. change (chr "0") with 48 in IH. lia.
Qed.

Section Grammar.
Context (l : Tokens) (steps : nat) (enough : (length (chars l) <= steps)%nat).
Local Abbreviation tokens := (map fst l).
Local Abbreviation literals := (map snd l).

(** What is left of the version being read, and the tokens after it. *)
Definition view (p : Position) (rest after : Tokens) : Prop :=
  match rest with
  | [] => snd p = 0%nat /\ drop (fst p) l = after
  | (tok, hd) :: rest => exists a, snd p = length a /\ drop (fst p) l = (tok, a ++ hd) :: rest ++ after
  end.

Definition proper (rest : Tokens) : Prop := Forall (fun x => snd x <> []) rest /\ apart rest.

Lemma view_lookup (p : Position) tok hd rest after a :
  drop (fst p) l = (tok, a ++ hd) :: rest ++ after -> literals !! fst p = Some (a ++ hd).
Proof.
  intros H. rewrite list_lookup_fmap, <- (Nat.add_0_r (fst p)), <- lookup_drop, H. done.
Qed.

Lemma view_char (p : Position) tok c w rest after : view p ((tok, c :: w) :: rest) after -> currentChar literals p = c.
Proof.
  intros (a & Ha & Hd). unfold currentChar. rewrite (view_lookup _ _ _ _ _ _ Hd), Ha.
  by rewrite lookup_app_r, Nat.sub_diag.
Qed.

Lemma view_next (p : Position) tok c w rest after :
  view p ((tok, c :: w) :: rest) after ->
  let q := nextChar literals p in
  match w with
  | [] => view q rest after /\ fst q = S (fst p)
  | _ => view q ((tok, w) :: rest) after /\ fst q = fst p
  end.
Proof.
  intros (a & Ha & Hd). cbv zeta. unfold nextChar. rewrite (view_lookup _ _ _ _ _ _ Hd), Ha, length_app. cbn [length].
  assert (Hs : drop (S (fst p)) l = rest ++ after) by (rewrite <- (skipn_skipn 1 (fst p)), Hd; done).
  destruct w as [|x w].
  - cbn [length]. rewrite (proj2 (Nat.leb_le _ _)) by lia. split; [|done]. unfold view, nextToken. cbn [fst snd].
    destruct rest as [|[tok' hd'] rest]; [done|]. by exists [].
  - cbn [length]. rewrite (proj2 (Nat.leb_gt _ _)) by lia. split; [|done]. unfold view. cbn [fst snd].
    exists (a ++ [c]). rewrite length_app. cbn. split; [lia|]. by rewrite Hd, <- app_assoc.
Qed.

(** At the end of a version the next token begins. *)
Lemma view_end (p : Position) after :
  view p [] after -> (forall x after', after = x :: after' -> noDot (snd x)) -> currentChar literals p <> chr ".".
Proof.
  intros [Hz Hd] Hnd. unfold currentChar. rewrite Hz, list_lookup_fmap, <- (Nat.add_0_r (fst p)), <- lookup_drop, Hd.
  destruct after as [|x after]; [done|]. cbn [lookup list_lookup fmap option_fmap option_map]. specialize (Hnd x after eq_refl).
  destruct (snd x) as [|c s]; [done|]. cbn. intros ->. by apply Hnd.
Qed.

Lemma view_token (p : Position) x rest after : view p (x :: rest) after -> currentToken tokens p = fst x.
Proof.
  destruct x as [tok hd]. intros (a & _ & Hd). unfold currentToken.
  by rewrite list_lookup_fmap, <- (Nat.add_0_r (fst p)), <- lookup_drop, Hd.
Qed.

Lemma view_end_token (p : Position) after :
  view p [] after -> currentToken tokens p = match after with x :: _ => fst x | [] => Token.Illegal end.
Proof.
  intros [_ Hd]. unfold currentToken. rewrite list_lookup_fmap, <- (Nat.add_0_r (fst p)), <- lookup_drop, Hd. by destruct after.
Qed.

(** A token boundary can be looked at as the begin of what follows. *)
Lemma view_begin (p : Position) rest after : view p [] (rest ++ after) -> view p rest after.
Proof. intros [Hz Hd]. destruct rest as [|[tok hd] rest]; [done|]. by exists []. Qed.

Lemma view_skip (p : Position) x after : view p [] (x :: after) -> view (nextToken p) [] after.
Proof. intros [Hz Hd]. split; [done|]. cbn [nextToken fst]. rewrite <- (skipn_skipn 1 (fst p)), Hd. done. Qed.

(** One character less. *)
Lemma proper_next tok c w rest :
  proper ((tok, c :: w) :: rest) ->
  match w with
  | [] => proper rest /\ (isDecimalDigit c = true -> startsWithDigit (chars rest) = false)
  | _ => proper ((tok, w) :: rest)
  end.
Proof.
  intros [Hn Ha]. apply Forall_cons in Hn as [_ Hn]. destruct w as [|x w].
  - split.
    + split; [done|]. destruct rest; [done|]. apply Ha.
    + intros Hc. destruct rest as [|[tok' [|d v]] rest]; [done|by apply Forall_cons in Hn as [? _]|].
      destruct Ha as [Ha _]. unfold endsInDigit in Ha. cbn in Ha. rewrite Hc in Ha. exact Ha.
  - split; [by constructor|]. destruct rest as [|y rest]; [done|]. exact Ha.
Qed.

Lemma proper_chars_nil rest : proper rest -> chars rest = [] -> rest = [].
Proof. intros [Hn _]. destruct Hn as [|[tok [|c w]] rest H _]; done. Qed.

Lemma proper_chars_cons rest c s :
  proper rest -> chars rest = c :: s ->
  exists tok w rest', rest = (tok, c :: w) :: rest' /\ chars (match w with [] => rest' | _ => (tok, w) :: rest' end) = s.
Proof.
  intros [Hn _] Hc. destruct Hn as [|[tok [|x w]] rest H _]; [done|done|]. unfold chars in Hc. cbn in Hc.
  injection Hc as -> Hs. exists tok, w, rest. split; [done|]. by destruct w.
Qed.

Lemma view_length (p : Position) rest after : view p rest after -> (length (chars rest) <= length (chars l))%nat.
Proof.
  intros H. rewrite <- (take_drop (fst p) l). unfold chars at 2. rewrite map_app, concat_app, length_app.
  destruct rest as [|[tok hd] rest]; [cbn; lia|]. destruct H as (a & _ & ->). unfold chars. cbn [map snd concat].
  rewrite map_app, concat_app, !length_app. lia.
Qed.

(** *** Numbers *)

Lemma versionDigits_reads n start ds v (p : Position) rest after tail :
  view p rest after -> proper rest -> chars rest = ds ++ tail ->
  Forall (fun c => isDecimalDigit c = true) ds -> startsWithDigit tail = false ->
  (rest = [] -> fst p <> start) -> (fst p <> start -> ds = []) ->
  0 <= v -> decimalFrom v ds < 2 ^ 32 -> (length ds <= n)%nat ->
  exists q rest', versionDigits literals n start v p = Ret (decimalFrom v ds, q) /\
    view q rest' after /\ proper rest' /\ chars rest' = tail.
Proof.
  revert n v p rest. induction ds as [|d ds IH]; intros n v p rest Hv Hp Hc Hd Ht H1 H2 Hv0 Hb Hn.
  - exists p, rest. split; [|done].
    assert (Nat.eqb (fst p) start && (chr "0" <=? currentChar literals p) && (currentChar literals p <=? chr "9") = false) as E.
    { destruct (Nat.eqb_spec (fst p) start) as [He|He]; [|done]. cbn [andb].
      destruct rest as [|[tok [|c w]] rest]; [by destruct H1|by destruct Hp as [[? _]%Forall_cons _]|].
      rewrite (view_char _ _ _ _ _ _ Hv). unfold chars in Hc. cbn in Hc. rewrite <- Hc in Ht. exact Ht. }
    destruct n; cbn [versionDigits]; rewrite E; done.
  - apply Forall_cons in Hd as [Hd1 Hds]. destruct n as [|n]; [cbn in Hn; lia|].
    destruct (proper_chars_cons _ _ _ Hp Hc) as (tok & w & rest' & -> & Hs). cbn [versionDigits].
    assert (fst p = start) as He by (destruct (decide (fst p = start)); [done|by specialize (H2 n0)]).
    rewrite (view_char _ _ _ _ _ _ Hv), (proj2 (Nat.eqb_eq _ _)) by done. cbn [andb].
    pose proof Hd1 as Hd1'. unfold isDecimalDigit in Hd1'. rewrite Hd1'. change (chr "0") with 48 in *. change (chr "9") with 57 in *.
    apply andb_true_iff in Hd1' as [Hd2%Z.leb_le Hd3%Z.leb_le].
    change (decimalFrom v (d :: ds)) with (decimalFrom (v * 10 + (d - 48)) ds) in *.
    pose proof (decimalFrom_ge (v * 10 + (d - 48)) ds ltac:(lia) Hds).
    rewrite (unsigned_small (v * 10)) by lia. rewrite (unsigned_small (v * 10 + (d - 48))) by lia.
    rewrite (proj2 (Z.ltb_ge (v * 10) v)), (proj2 (Z.ltb_ge (v * 10 + (d - 48)) (v * 10))) by lia. cbn [orb].
    pose proof (view_next _ _ _ _ _ _ Hv) as Hnx. pose proof (proper_next _ _ _ _ Hp) as Hpn. cbv zeta in Hnx. cbn in Hn.
    destruct w as [|x w].
    + destruct Hnx as [Hv' Hf]. destruct Hpn as [Hp' Hdig]. specialize (Hdig Hd1).
      assert (ds = []) as ->.
      { destruct ds as [|d' ds]; [done|]. rewrite Hs in Hdig. cbn in Hdig. apply Forall_cons in Hds as [Hx _]. congruence. }
      apply (IH n _ _ rest'); try done; try lia.
    + destruct Hnx as [Hv' Hf]. apply (IH n _ _ ((tok, x :: w) :: rest')); try done; try lia.
Qed.

Lemma parseVersionPart_reads p rest after v t tail :
  view p rest after -> proper rest -> partText v t -> chars rest = t ++ tail -> startsWithDigit tail = false ->
  exists q rest', parseVersionPart literals steps p = Ret (v, q) /\ view q rest' after /\ proper rest' /\ chars rest' = tail.
Proof.
  intros Hv Hp Ht Hc Htl. unfold parseVersionPart.
  assert (Hone : forall c, t = [c] -> exists tok w rest0, rest = (tok, c :: w) :: rest0 /\
    exists rest', view (nextChar literals p) rest' after /\ proper rest' /\ chars rest' = tail).
  { intros c ->. destruct (proper_chars_cons _ _ _ Hp Hc) as (tok & w & rest0 & -> & Hs). exists tok, w, rest0. split; [done|].
    pose proof (view_next _ _ _ _ _ _ Hv) as Hnx. pose proof (proper_next _ _ _ _ Hp) as Hpn. cbv zeta in Hnx.
    destruct w; [exists rest0|eexists ((tok, _) :: rest0)]; (split; [apply Hnx|]); (split; [apply Hpn|exact Hs]). }
  destruct Ht as [[-> Hin]|[Hr ->]].
  - assert (exists c, t = [c] /\ (c =? chr "x") || (c =? chr "X") || (c =? chr "*") = true) as (c & -> & Hx).
    { repeat (apply elem_of_cons in Hin as [-> |Hin]; [by eexists|]). by apply elem_of_nil in Hin. }
    destruct (Hone c eq_refl) as (tok & w & rest0 & -> & rest' & H1 & H2 & H3).
    rewrite (view_char _ _ _ _ _ _ Hv), Hx. by exists (nextChar literals p), rest'.
  - destruct (Z.eq_dec v 0) as [->|Hne].
    + destruct (Hone 48 eq_refl) as (tok & w & rest0 & -> & rest' & H1 & H2 & H3).
      rewrite (view_char _ _ _ _ _ _ Hv). by exists (nextChar literals p), rest'.
    + destruct (digitsOf_spec 10 v) as (c & ds & E & Hcr & Hds & Hval); [lia|]. unfold to_string in Hc. rewrite E in Hc.
      destruct (proper_chars_cons _ _ _ Hp Hc) as (tok & w & rest0 & -> & Hs). rewrite (view_char _ _ _ _ _ _ Hv).
      assert ((c =? chr "x") || (c =? chr "X") || (c =? chr "*") = false) as ->.
      { change (chr "1") with 49 in *. change (chr "9") with 57 in *. change (chr "x") with 120. change (chr "X") with 88.
        change (chr "*") with 42. rewrite !orb_false_iff, !Z.eqb_neq. lia. }
      assert (c =? chr "0" = false) as -> by (apply Z.eqb_neq; change (chr "1") with 49 in *; change (chr "0") with 48; lia).
      rewrite (proj2 (Z.leb_le _ _) (proj1 Hcr)), (proj2 (Z.leb_le _ _) (proj2 Hcr)). cbn [andb].
      pose proof (view_next _ _ _ _ _ _ Hv) as Hnx. pose proof (proper_next _ _ _ _ Hp) as Hpn. cbv zeta in Hnx.
      assert (Hlen : (length ds <= steps)%nat).
      { pose proof (view_length _ _ _ Hv) as Hle. rewrite Hc in Hle. cbn in Hle. rewrite length_app in Hle. lia. }
      assert (Hcd : isDecimalDigit c = true).
      { unfold isDecimalDigit. change (chr "1") with 49 in *. change (chr "9") with 57 in *. change (chr "0") with 48.
        rewrite andb_true_iff, !Z.leb_le. lia. }
      assert (Hpos : 0 <= c - chr "0") by (change (chr "1") with 49 in *; change (chr "0") with 48; lia).
      rewrite <- Hval in Hr.
      assert (exists q rest', versionDigits literals steps (fst p) (c - chr "0") (nextChar literals p)
        = Ret (decimalFrom (c - chr "0") ds, q) /\ view q rest' after /\ proper rest' /\ chars rest' = tail) as (q & rest' & Hq & H).
      { destruct w as [|x w].
        - destruct Hnx as [Hv' Hf]. destruct Hpn as [Hp' Hdig]. specialize (Hdig Hcd).
          apply (versionDigits_reads steps (fst p) ds _ _ rest0); try done; try lia.
          intros _. destruct ds as [|d ds]; [done|]. rewrite Hs in Hdig. cbn in Hdig. apply Forall_cons in Hds as [Hx _]. congruence.
        - destruct Hnx as [Hv' Hf]. apply (versionDigits_reads steps (fst p) ds _ _ ((tok, x :: w) :: rest0)); try done; try lia. }
      exists q, rest'. rewrite <- Hval. done.
Qed.

Lemma versionParts_reads levels p rest after vs text :
  view p rest after -> proper rest -> versionText vs text -> chars rest = text -> (length vs <= levels)%nat ->
  (forall x after', after = x :: after' -> noDot (snd x)) ->
  exists q, versionParts literals steps levels p = Ret (vs, q) /\ view q [] after.
Proof.
  intros Hv Hp Ht. revert levels p rest Hv Hp. induction Ht as [v t Ht|v t vs u Ht _ IH]; intros levels p rest Hv Hp Hc Hl Hnd;
    (destruct levels as [|levels]; [cbn in Hl; lia|]); cbn [versionParts].
  - destruct (parseVersionPart_reads p rest after v t [] Hv Hp Ht) as (q & rest' & -> & Hv' & Hp' & Hc'); [by rewrite app_nil_r|done|].
    apply (proper_chars_nil _ Hp') in Hc' as ->. cbn [mbind Result_bind].
    rewrite (proj2 (Z.eqb_neq _ _)) by (by apply (view_end q after)). by exists q.
  - destruct (parseVersionPart_reads p rest after v t (chr "." :: u) Hv Hp Ht Hc) as (q & rest' & -> & Hv' & Hp' & Hc'); [done|].
    destruct (proper_chars_cons _ _ _ Hp' Hc') as (tok & w & rest0 & -> & Hs). cbn [mbind Result_bind].
    rewrite (view_char _ _ _ _ _ _ Hv'), Z.eqb_refl.
    pose proof (view_next _ _ _ _ _ _ Hv') as Hnx. pose proof (proper_next _ _ _ _ Hp') as Hpn. cbv zeta in Hnx. cbn in Hl.
    destruct w as [|x w].
    + destruct (IH levels (nextChar literals q) rest0) as (q' & -> & Hq'); [apply Hnx|apply Hpn|exact Hs|lia|done|].
      by exists q'.
    + destruct (IH levels (nextChar literals q) ((tok, x :: w) :: rest0)) as (q' & -> & Hq'); [apply Hnx|apply Hpn|exact Hs|lia|done|].
      by exists q'.
Qed.

(** *** Components *)

(** What may follow a component does not go on with its version. *)
Definition separate (after : Tokens) : Prop := forall x after', after = x :: after' -> noDot (snd x).

Lemma writesVersion_noDot vs k : writesVersion vs k -> separate k.
Proof.
  intros [Ht _ Hn _ _] x after ->. apply Forall_cons in Hn as [Hx _]. destruct x as [tok [|c s]]; [done|]. cbn. intros [= ->].
  assert (forall v t, partText v t -> forall tail, t ++ tail <> chr "." :: s ++ chars after) as Hpt.
  { intros v t [[_ Hin]|[Hr ->]] tail.
    - repeat (apply elem_of_cons in Hin as [-> |Hin]; [done|]). by apply elem_of_nil in Hin.
    - destruct (Z.eq_dec v 0) as [->|]; [done|]. destruct (digitsOf_spec 10 v) as (c & ds & E & Hc & _); [lia|].
      unfold to_string. rewrite E. cbn. intros [= -> _]. change (chr "1") with 49 in Hc. change (chr ".") with 46 in Hc. lia. }
  change (chars ((tok, chr "." :: s) :: after)) with (chr "." :: s ++ chars after) in Ht.
  remember (chr "." :: s ++ chars after) as text eqn:E. destruct Ht as [v t Hp|v t vs' u Hp _].
  - by apply (Hpt v t Hp []); rewrite app_nil_r.
  - by apply (Hpt v t Hp (chr "." :: u)).
Qed.

Lemma writesComponent_first c k : writesComponent c k -> separate k /\
  match k with x :: _ => isPrefix (fst x) || plainToken (fst x) = true | [] => False end.
Proof.
  intros [vs k' Hw|pre s vs k' Hpre Hs Hw].
  - split; [by eapply writesVersion_noDot|]. pose proof (wv_first _ _ Hw) as Hf. destruct k' as [|x k']; [done|].
    by rewrite Hf, orb_true_r.
  - split; [by intros x after [= <- _]|]. cbn. by rewrite Hpre.
Qed.

Lemma parseMatchComponent_reads p c k after :
  writesComponent c k -> view p [] (k ++ after) -> separate after ->
  exists q, parseMatchComponent tokens literals steps p = Ret (c, q) /\ view q [] after.
Proof.
  intros Hc Hv Hsep. unfold parseMatchComponent. rewrite (view_end_token _ _ Hv).
  destruct Hc as [vs k Hw|pre s vs k Hpre Hs Hw].
  - pose proof Hw as [Ht Hl Hn Ha Hf]. destruct k as [|x k]; [done|]. cbn [app].
    assert (isPrefix (fst x) = false) as ->.
    { unfold plainToken in Hf. apply negb_true_iff in Hf. by apply orb_false_iff in Hf as [[[Hf _]%orb_false_iff _]%orb_false_iff _]. }
    destruct (versionParts_reads 3 p (x :: k) after vs (chars (x :: k))) as (q & -> & Hq); try done; [by apply view_begin|].
    by exists q.
  - pose proof Hw as [Ht Hl Hn Ha Hf]. cbn [app fst]. rewrite Hpre. apply view_skip in Hv.
    destruct (versionParts_reads 3 (nextToken p) k after vs (chars k)) as (q & -> & Hq); try done; [by apply view_begin|].
    by exists q.
Qed.

(** The tokens after the components of a range. *)
Definition rangeEnd (after : Tokens) : Prop :=
  separate after /\ match after with x :: _ => fst x = Token.Or | [] => True end.

Lemma writesComponents_after cs k after :
  writesComponents cs k -> rangeEnd after -> separate (k ++ after).
Proof.
  intros [|c cs' k1 k2 Hc _] [Hs _]; [done|]. destruct (writesComponent_first _ _ Hc) as [H1 H2].
  destruct k1 as [|x k1]; [done|]. intros y after' [= <- _]. by apply (H1 x k1).
Qed.

Lemma parseComponents_reads n p cs k after :
  writesComponents cs k -> view p [] (k ++ after) -> rangeEnd after -> (length cs <= n)%nat ->
  exists q, parseComponents tokens literals steps n p = Ret (cs, q) /\ view q [] after.
Proof.
  intros Hw. revert n p. induction Hw as [|c cs k k' Hc Hcs IH]; intros n p Hv He Hn.
  - exists p. split; [|done]. destruct He as [_ He].
    assert (tokenIs (currentToken tokens p) Token.Or || tokenIs (currentToken tokens p) Token.Illegal = true) as E.
    { rewrite (view_end_token _ _ Hv). cbn [app]. destruct after as [|x after]; [done|]. by rewrite He. }
    destruct n; cbn [parseComponents]; by rewrite E.
  - destruct n as [|n]; [cbn in Hn; lia|]. cbn [parseComponents].
    assert (tokenIs (currentToken tokens p) Token.Or || tokenIs (currentToken tokens p) Token.Illegal = false) as ->.
    { rewrite (view_end_token _ _ Hv). destruct (writesComponent_first _ _ Hc) as [_ Hf]. destruct k as [|x k]; [done|]. cbn.
      destruct (fst x); try done. }
    rewrite <- app_assoc in Hv. destruct (parseMatchComponent_reads p c k (k' ++ after) Hc Hv) as (q & -> & Hq).
    { by eapply writesComponents_after. }
    cbn [mbind Result_bind]. cbn in Hn. destruct (IH n q Hq He ltac:(lia)) as (q' & -> & Hq'). by exists q'.
Qed.

Lemma writesComponent_chars c k : writesComponent c k -> (1 <= length (chars k))%nat.
Proof using.
  clear l steps enough. assert (forall vs k, writesVersion vs k -> (1 <= length (chars k))%nat) as H.
  { intros vs k' [_ _ Hn _ Hf]. destruct k' as [|x k']; [done|]. apply Forall_cons in Hn as [Hx _].
    unfold chars. cbn. rewrite length_app. destruct (snd x); [done|cbn; lia]. }
  intros [vs k' Hw|pre s vs k' _ _ Hw]; [by eapply H|]. unfold chars. cbn. rewrite length_app.
  apply H in Hw. unfold chars in Hw. lia.
Qed.

Lemma chars_app k k' : chars (k ++ k') = chars k ++ chars k'.
Proof. unfold chars. by rewrite map_app, concat_app. Qed.

Lemma writesComponents_chars cs k : writesComponents cs k -> (length cs <= length (chars k))%nat.
Proof using.
  clear l steps enough. induction 1 as [|c cs k k' Hc _ IH]; [cbn; lia|]. rewrite chars_app, length_app. apply writesComponent_chars in Hc. cbn. lia.
Qed.

Lemma view_after_length (p : Position) k after : view p [] (k ++ after) -> (length (chars k) <= length (chars l))%nat.
Proof. intros H%view_begin. by eapply view_length. Qed.

Lemma parseMatchExpression_reads p r k after :
  writesRange r k -> view p [] (k ++ after) -> rangeEnd after ->
  exists q, parseMatchExpression tokens literals steps p = Ret (r, q) /\ view q [] after.
Proof.
  intros Hr Hv He. unfold parseMatchExpression. destruct Hr as [c cs k k' Hc Hcs|c c' s k k' Hc Hc' Hs].
  - rewrite <- app_assoc in Hv.
    destruct (parseMatchComponent_reads p c k (k' ++ after) Hc Hv) as (q & -> & Hq); [by eapply writesComponents_after|].
    cbn [mbind Result_bind]. assert (tokenIs (currentToken tokens q) Token.Sub = false) as ->.
    { rewrite (view_end_token _ _ Hq). destruct Hcs as [|c' cs k1 k2 Hc' _].
      - destruct He as [_ He]. cbn [app]. destruct after as [|x after]; [done|]. by rewrite He.
      - destruct (writesComponent_first _ _ Hc') as [_ Hf]. destruct k1 as [|x k1]; [done|]. cbn. by destruct (fst x). }
    pose proof (view_after_length _ _ _ Hq). pose proof (writesComponents_chars _ _ Hcs).
    destruct (parseComponents_reads steps q cs k' after Hcs Hq He ltac:(lia)) as (q' & -> & Hq'). by exists q'.
  - rewrite <- app_assoc in Hv. cbn [app] in Hv.
    destruct (parseMatchComponent_reads p c k ((Token.Sub, s) :: k' ++ after) Hc Hv) as (q & -> & Hq); [by intros x after' [= <- _]|].
    cbn [mbind Result_bind]. rewrite (view_end_token _ _ Hq). cbn [fst]. change (tokenIs Token.Sub Token.Sub) with true. cbn iota.
    apply view_skip in Hq. destruct (parseMatchComponent_reads (nextToken q) c' k' after Hc' Hq) as (q' & -> & Hq'); [apply He|].
    by exists q'.
Qed.

Lemma writesRange_chars r k : writesRange r k -> (1 <= length (chars k))%nat.
Proof using.
  clear l steps enough. intros [c cs k1 k2 Hc _|c c' s k1 k2 Hc _ _]; rewrite chars_app, length_app; apply writesComponent_chars in Hc; lia.
Qed.

Lemma writesExpression_chars e k : writesExpression e k -> (length e <= length (chars k))%nat.
Proof using.
  clear l steps enough. induction 1 as [r k Hr|r rs s k k' Hr _ _ IH]; [by apply writesRange_chars in Hr|].
  rewrite chars_app, length_app. apply writesRange_chars in Hr. unfold chars at 2. cbn. rewrite length_app.
  unfold chars in IH. lia.
Qed.

Lemma parseDisjunction_reads n p e k :
  writesExpression e k -> view p [] k -> (length e <= n)%nat ->
  parseDisjunction tokens literals steps n p = Ret e.
Proof.
  intros He. revert n p. induction He as [r k Hr|r rs s k k' Hr Hs Hrs IH]; intros n p Hv Hn;
    (destruct n as [|n]; [cbn in Hn; lia|]); cbn [parseDisjunction].
  - destruct (parseMatchExpression_reads p r k [] Hr) as (q & -> & Hq); [by rewrite app_nil_r|by split; [intros ? ?|]|].
    cbn [mbind Result_bind]. destruct Hq as [_ Hd].
    assert (length l <= fst q)%nat as Hle by (pose proof (length_drop l (fst q)) as Hx; rewrite Hd in Hx; cbn in Hx; lia).
    rewrite length_map, (proj2 (Nat.leb_le _ _) Hle). done.
  - destruct (parseMatchExpression_reads p r k ((Token.Or, s) :: k') Hr Hv) as (q & -> & Hq).
    { split; [by intros x after' [= <- _]|done]. }
    cbn [mbind Result_bind]. rewrite length_map, (view_end_token _ _ Hq). pose proof Hq as [_ Hd].
    assert (fst q < length l)%nat as Hlt.
    { destruct (Nat.lt_ge_cases (fst q) (length l)); [done|]. rewrite drop_ge in Hd by done. discriminate Hd. }
    rewrite (proj2 (Nat.leb_gt _ _) Hlt). cbn [fst]. change (negb (tokenIs Token.Or Token.Or)) with false. cbn iota.
    apply view_skip in Hq. cbn in Hn. by rewrite (IH n _ Hq ltac:(lia)).
Qed.
End Grammar.


(** [^0.8.1 || 1.x - 2]. *)
Definition example_tokens : Tokens :=
  [(Token.BitXor, str "^"); (Token.Number, str "0.8"); (Token.Number, str ".1"); (Token.Or, str "||");
   (Token.Number, str "1"); (Token.Period, str "."); (Token.Identifier, str "x"); (Token.Sub, str "-"); (Token.Number, str "2")].

Definition example_expression : list (list MatchComponent) :=
  [[mkComponent Token.BitXor [0; 8; 1] 3];
   [mkComponent Token.GreaterThanOrEqual [1; wildcard; 0] 2; mkComponent Token.LessThanOrEqual [2; 0; 0] 1]].



(** The check for overflow of the numbers of an expression is not enough: it accepts ten times a number
    where this wraps to a greater one, so that 10000000000 is read as 1410065408; and numbers that lie
    2^31 or more apart compare the wrong way round. *)
Theorem large_numbers_wrong :
  parse [Token.Number] [str "10000000000"] = Ret [[component Token.Assign [1410065408]]] /\
  componentMatches (mkComponent Token.GreaterThanOrEqual [0; 0; 0] 3) (mkVersion [3000000000; 0; 0] [] []) = Some false.
Proof. vm_compute. done. Qed.
