(* ===== verification/SimplificationRules.v ===== *)
(** * SimplificationRules: matching expressions against the rules

    [Rules], [Pattern::matches] and [ExpressionTemplate] of
    libevmasm/SimplificationRules.cpp.  [None] is an exception.  The classes of
    equivalent expressions appear as their representatives, indexed by class. *)

From S2P Require Import Prelude U256 Instruction EVMVersion AssemblyItem Pattern RuleList.

(** [Pattern::instruction()] and [Pattern::data()]. *)
Definition patternInstruction (p : Pattern) : option Instruction :=
  _ ← assertThrow (bool_decide (p_type p = Operation)); Some (p_instruction p).
Definition patternData (p : Pattern) : option Z := p_data p.

(** [Pattern::matchesBaseItem]. *)
Definition matchesBaseItem (p : Pattern) (_item : option AssemblyItem) : option bool :=
  if bool_decide (p_type p = UndefinedItem) then Some true
  else match _item with
       | None => Some false
       | Some it =>
           if negb (bool_decide (p_type p = m_type it)) then Some false
           else if bool_decide (p_type p = Operation)
           then Some (bool_decide (p_instruction p = m_instruction it))
           else if p_requireDataMatch p then data ← patternData p; Some (data =? m_data it)
           else Some true
       end.

(** [ExpressionClasses::representative]: [at] throws out of range. *)
Definition representative (m_representatives : list Expression) (_id : Z) : option Expression :=
  if 0 <=? _id then m_representatives !! Z.to_nat _id else None.

(** The match group of a pattern: bind it, or compare the classes. *)
Definition matchGroup (g : nat) (_expr : Expression) (m : MatchGroups) : bool * MatchGroups :=
  if Nat.eqb g 0 then (true, m)
  else match m !! g with
       | None => (true, <[g := _expr]> m)
       | Some e => (id e =? id _expr, m)
       end.

(** [Pattern::matches]: whether it matches, and the groups bound so far. *)
Fixpoint matches (_classes : list Expression) (p : Pattern) (_expr : Expression) (m : MatchGroups)
  : option (bool * MatchGroups) :=
  let 'mkPattern _ _ _ _ args g := p in
  base ← matchesBaseItem p (item _expr);
  if negb base then Some (false, m)
  else
    let '(ok, m) := matchGroup g _expr m in
    if negb ok then Some (false, m)
    else
      _ ← assertThrow (Nat.eqb (length args) 0 ||
                       Nat.eqb (length (e_arguments _expr)) (length args));
      (fix loop (ps : list Pattern) (ids : list Z) (m : MatchGroups) : option (bool * MatchGroups) :=
         match ps, ids with
         | [], _ => Some (true, m)
         | p :: ps, i :: ids =>
             e ← representative _classes i;
             '(ok, m) ← matches _classes p e m;
             if negb ok then Some (false, m) else loop ps ids m
         | _ :: _, [] => None
         end) args (e_arguments _expr) m.

(** [Pattern::toAssemblyItem]. *)
Definition toAssemblyItem (p : Pattern) (_location : SourceLocation) : option AssemblyItem :=
  if bool_decide (p_type p = Operation) then Some (opItem (p_instruction p) _location)
  else data ← patternData p; Some (dataItem (p_type p) data _location).

(** [ExpressionTemplate]: the class of a matched expression or an item to build. *)
Inductive ExpressionTemplate : Set :=
  mkTemplate (t_hasId : bool) (t_id : Z) (t_item : AssemblyItem) (t_arguments : list ExpressionTemplate).

(** Induction on a template with the arguments' hypotheses. *)
Lemma template_ind_args (P : ExpressionTemplate -> Prop) :
  (forall h i it l, Forall P l -> P (mkTemplate h i it l)) -> forall t, P t.
Proof.
  intros H. fix IH 1. intros [h i it l]. apply H.
  induction l as [|a l IHl]; constructor; [apply IH|apply IHl].
Qed.

Definition undefinedItem : AssemblyItem := dataItem UndefinedItem 0 noLocation.

(** [Id(-1)] and [numeric_limits<unsigned>::max()]: no class. *)
Definition noId : Z := 2 ^ 32 - 1.

(** The constructor of [ExpressionTemplate]. *)
Fixpoint expressionTemplate (m : MatchGroups) (_pattern : Pattern) (_location : SourceLocation)
  : option ExpressionTemplate :=
  let 'mkPattern _ _ _ _ args g := _pattern in
  match (fix loop (l : list Pattern) : option (list ExpressionTemplate) :=
           match l with
           | [] => Some []
           | a :: l => t ← expressionTemplate m a _location; ts ← loop l; Some (t :: ts)
           end) args with
  | None => None
  | Some ts =>
      if Nat.eqb g 0
      then it ← toAssemblyItem _pattern _location; Some (mkTemplate false noId it ts)
      else i ← p_id m _pattern; Some (mkTemplate true i undefinedItem ts)
  end.

(** [Rules::m_rules]: 256 lists of rules. *)
Abbreviation RuleTable := (list (list SimplificationRule)).

(** [addRule] and [addRules]. *)
Definition addRule (m_rules : RuleTable) (_rule : SimplificationRule) : option RuleTable :=
  i ← patternInstruction (pattern _rule);
  Some (alter (fun l => l ++ [_rule]) (Z.to_nat (opcode i)) m_rules).

Fixpoint addRules (m_rules : RuleTable) (_rules : list SimplificationRule) : option RuleTable :=
  match _rules with
  | [] => Some m_rules
  | r :: _rules => m_rules ← addRule m_rules r; addRules m_rules _rules
  end.

(** The patterns of the constructor: constants A, B, C and anything W, X, Y, Z. *)
Definition groupA : Pattern := setMatchGroup 1 (PType Push).
Definition groupB : Pattern := setMatchGroup 2 (PType Push).
Definition groupC : Pattern := setMatchGroup 3 (PType Push).
Definition groupW : Pattern := setMatchGroup 4 (PType UndefinedItem).
Definition groupX : Pattern := setMatchGroup 5 (PType UndefinedItem).
Definition groupY : Pattern := setMatchGroup 6 (PType UndefinedItem).
Definition groupZ : Pattern := setMatchGroup 7 (PType UndefinedItem).

Definition ruleSet (_evmVersion : option EVMVersion) : list SimplificationRule :=
  simplificationRuleList _evmVersion groupA groupB groupC groupW groupX groupY groupZ.

Definition isInitialized (m_rules : RuleTable) : bool :=
  match m_rules !! Z.to_nat (opcode ADD) with
  | Some (_ :: _) => true
  | _ => false
  end.

(** The constructor [Rules()]. *)
Definition Rules : option RuleTable :=
  m_rules ← addRules (replicate 256 []) (ruleSet None);
  _ ← assertThrow (isInitialized m_rules);
  Some m_rules.

(** The loop of [findFirstMatch]: the first rule of the list that matches and is
    feasible, with the groups it bound. *)
Fixpoint firstMatch (_classes : list Expression) (rules : list SimplificationRule) (_expr : Expression)
  : option (option (SimplificationRule * MatchGroups)) :=
  match rules with
  | [] => Some None
  | rule :: rules =>
      '(ok, m) ← matches _classes (pattern rule) _expr ∅;
      ok ← (if negb ok then Some false
            else match feasible rule with
                 | None => Some true
                 | Some f => f m
                 end);
      if ok : bool then Some (Some (rule, m)) else firstMatch _classes rules _expr
  end.

(** [Rules::findFirstMatch].  [item->instruction()] asserts that the item is an
    operation. *)
Definition findFirstMatch (m_rules : RuleTable) (_classes : list Expression) (_expr : Expression)
  : option (option (SimplificationRule * MatchGroups)) :=
  it ← item _expr;
  _ ← assertThrow (bool_decide (m_type it = Operation));
  rules ← m_rules !! Z.to_nat (opcode (m_instruction it));
  firstMatch _classes rules _expr.
