(* ===== verification/ExpressionClasses.v ===== *)
(** * ExpressionClasses: classes of equal expressions, libevmasm/ExpressionClasses.cpp

    The set of expressions ever seen is kept as a list of pairwise inequivalent
    expressions; [std::set] compares with [operator<], so an element is found when
    neither is less than the other.  [find], [tryToSimplify] and [rebuildExpression]
    call each other; their recursion is bounded by fuel, and a result is [Ret], [Exception]
    or [OutOfFuel]; a fuel of the expression's weight is enough (ClassTotal.v).  Items are values, so [storeItem] and [_copyItem] have no
    counterpart. *)

From stdpp Require Import sorting.
From S2P Require Import Prelude U256 Instruction AssemblyItem SemanticInformation Pattern RuleList SimplificationRules.

(** The order of the enumerators of [AssemblyItemType]. *)
Definition type_index (t : AssemblyItemType) : Z :=
  match t with
  | UndefinedItem => 0 | Operation => 1 | Push => 2 | PushString => 3 | PushTag => 4
  | PushSub => 5 | PushSubSize => 6 | PushProgramSize => 7 | Tag => 8 | PushData => 9
  | PushLibraryAddress => 10 | PushDeployTimeAddress => 11 | PushImmutable => 12
  | AssignImmutable => 13
  end.

(** Lexicographic order of vectors of ids. *)
Fixpoint ids_ltb (a b : list Z) : bool :=
  match a, b with
  | _, [] => false
  | [], _ :: _ => true
  | x :: a, y :: b => (x <? y) || ((x =? y) && ids_ltb a b)
  end.

(** [std::tie(key, arguments, sequenceNumber) < std::tie(...)]. *)
Definition tie_ltb (k k' : Z) (e e' : Expression) : bool :=
  (k <? k') || ((k =? k') &&
    (ids_ltb (e_arguments e) (e_arguments e') ||
     (bool_decide (e_arguments e = e_arguments e') && (sequenceNumber e <? sequenceNumber e')))).

(** [Expression::operator<]. *)
Definition expr_ltb (_this _other : Expression) : option bool :=
  it ← item _this;
  it' ← item _other;
  let type := m_type it in
  let otherType := m_type it' in
  if negb (bool_decide (type = otherType)) then Some (type_index type <? type_index otherType)
  else if bool_decide (type = Operation)
  then Some (tie_ltb (opcode (m_instruction it)) (opcode (m_instruction it')) _this _other)
  else Some (tie_ltb (m_data it) (m_data it') _this _other).

Record ExpressionClasses := mkClasses {
  m_representatives : list Expression;
  m_expressions : list Expression }.

(** No classes. *)
Definition emptyClasses : ExpressionClasses := mkClasses [] [].

(** [std::set::find] and [std::set::insert]. *)
Fixpoint set_find (s : list Expression) (e : Expression) : option (option Expression) :=
  match s with
  | [] => Some None
  | x :: s =>
      l ← expr_ltb x e;
      g ← expr_ltb e x;
      if negb l && negb g then Some (Some x) else set_find s e
  end.

Definition set_insert (s : list Expression) (e : Expression) : option (list Expression) :=
  found ← set_find s e;
  match found with Some _ => Some s | None => Some (s ++ [e]) end.

Definition classes_size (cl : ExpressionClasses) : Z := Z.of_nat (length (m_representatives cl)).

(** The arguments of a commutative operation are sorted. *)
Definition sort_arguments (_item : AssemblyItem) (_arguments : list Z) : list Z :=
  if isCommutativeOperation _item then merge_sort Z.le _arguments else _arguments.

Section Rebuild.
Context (find : ExpressionClasses -> AssemblyItem -> list Z -> Result (Z * ExpressionClasses)).

(** [rebuildExpression]. *)
Fixpoint rebuildExpression (cl : ExpressionClasses) (_template : ExpressionTemplate)
  : Result (Z * ExpressionClasses) :=
  let 'mkTemplate hasId i it l := _template in
  if hasId then Ret (i, cl)
  else
    '(arguments, cl) ←
      (fix loop (l : list ExpressionTemplate) (cl : ExpressionClasses)
         : Result (list Z * ExpressionClasses) :=
         match l with
         | [] => Ret ([], cl)
         | t :: l =>
             '(a, cl) ← rebuildExpression cl t;
             '(arguments, cl) ← loop l cl;
             Ret (a :: arguments, cl)
         end) l cl;
    find cl it arguments.

(** [tryToSimplify].  The class [numeric_limits<unsigned>::max()] it returns when it
    found nothing is [None]: there are fewer classes than that. *)
Definition tryToSimplify (rules : RuleTable) (cl : ExpressionClasses) (_expr : Expression)
  : Result (option Z * ExpressionClasses) :=
  _ ← lift (assertThrow (isInitialized rules));
  match item _expr with
  | None => Ret (None, cl)
  | Some it =>
      if negb (bool_decide (m_type it = Operation)) || negb (isDeterministic it)
      then Ret (None, cl)
      else
        match_ ← lift (findFirstMatch rules (m_representatives cl) _expr);
        match match_ with
        | None => Ret (None, cl)
        | Some (rule, m) =>
            p ← lift (action rule m);
            t ← lift (expressionTemplate m p (m_location it));
            '(i, cl) ← rebuildExpression cl t;
            Ret (Some i, cl)
        end
  end.
End Rebuild.

(** [ExpressionClasses::find]. *)
Fixpoint find (fuel : nat) (rules : RuleTable) (_sequenceNumber : Z) (cl : ExpressionClasses)
    (_item : AssemblyItem) (_arguments : list Z) : Result (Z * ExpressionClasses) :=
  match fuel with
  | O => OutOfFuel
  | S fuel =>
      let exp := mkExpression noId (Some _item) (sort_arguments _item _arguments) _sequenceNumber in
      found ← (if isDeterministic _item then lift (set_find (m_expressions cl) exp) else Ret None);
      match found with
      | Some e => Ret (id e, cl)
      | None =>
          '(i, cl) ← tryToSimplify (find fuel rules 0) rules cl exp;
          let fresh := classes_size cl in
          let fresh_reps := m_representatives cl ++
            [mkExpression fresh (item exp) (e_arguments exp) (sequenceNumber exp)] in
          let '(i, reps) :=
            match i with
            | Some i => if i <? classes_size cl then (i, m_representatives cl) else (fresh, fresh_reps)
            | None => (fresh, fresh_reps)
            end in
          exprs ← lift (set_insert (m_expressions cl)
                     (mkExpression i (item exp) (e_arguments exp) (sequenceNumber exp)));
          Ret (i, mkClasses reps exprs)
      end
  end.

(** [forceEqual]. *)
Definition forceEqual (cl : ExpressionClasses) (_id : Z) (_item : AssemblyItem)
    (_arguments : list Z) : option ExpressionClasses :=
  exprs ← set_insert (m_expressions cl)
            (mkExpression _id (Some _item) (sort_arguments _item _arguments) 0);
  Some (mkClasses (m_representatives cl) exprs).

(** [newClass]. *)
Definition newClass (cl : ExpressionClasses) (_location : SourceLocation)
  : option (Z * ExpressionClasses) :=
  let i := classes_size cl in
  let exp := mkExpression i
    (Some (dataItem UndefinedItem (u256_add (u256_shl 1 255) i) _location)) [] 0 in
  exprs ← set_insert (m_expressions cl) exp;
  Some (i, mkClasses (m_representatives cl ++ [exp]) exprs).

(** A pattern without match groups, matched against the representative of a class. *)
Definition matchesClass (cl : ExpressionClasses) (p : Pattern) (_c : Z) : option bool :=
  e ← representative (m_representatives cl) _c;
  '(ok, _) ← matches (m_representatives cl) p e ∅;
  Some ok.

(** [knownZero], [knownNonZero], [knownConstant]. *)
Definition knownZero (cl : ExpressionClasses) (_c : Z) : option bool := matchesClass cl (Word 0) _c.

Definition knownNonZero (fuel : nat) (rules : RuleTable) (cl : ExpressionClasses) (_c : Z)
  : Result (bool * ExpressionClasses) :=
  '(i, cl) ← find fuel rules 0 cl (opItem ISZERO noLocation) [_c];
  b ← lift (matchesClass cl (Word 0) i);
  Ret (b, cl).

Definition knownConstant (cl : ExpressionClasses) (_c : Z) : option (option Z) :=
  let constant := setMatchGroup 1 (PType Push) in
  e ← representative (m_representatives cl) _c;
  '(ok, m) ← matches (m_representatives cl) constant e ∅;
  if ok : bool then c ← d m constant; Some (Some c) else Some None.

(** [knownToBeDifferent], [knownToBeDifferentBy32]. *)
Definition knownToBeDifferent (fuel : nat) (rules : RuleTable) (cl : ExpressionClasses) (_a _b : Z)
  : Result (bool * ExpressionClasses) :=
  '(i, cl) ← find fuel rules 0 cl (opItem SUB noLocation) [_a; _b];
  knownNonZero fuel rules cl i.

Definition knownToBeDifferentBy32 (fuel : nat) (rules : RuleTable) (cl : ExpressionClasses)
    (_a _b : Z) : Result (bool * ExpressionClasses) :=
  '(i, cl) ← find fuel rules 0 cl (opItem SUB noLocation) [_a; _b];
  v ← lift (knownConstant cl i);
  Ret (match v with Some v => 62 <? u256_add v 31 | None => false end, cl).
