(* ===== verification/KnownState.v ===== *)
(** * KnownState: what is known of the machine at an instruction, libevmasm/KnownState.cpp

    The operations work on two states: the [KnownState] object and the expression classes,
    which every copy of the object shares ([m_expressionClasses] is a shared pointer), so
    the classes are threaded apart from it.  [K] is the monad of such operations; an
    operation throws or runs out of the fuel of [ExpressionClasses::find] as in
    ExpressionClasses.v.  A [std::map] is a [gmap], and its entries are visited in the
    order of their keys ([entries]).  [stream] only prints. *)

From stdpp Require Import sorting.
From S2P Require Import Prelude U256 CommonData Instruction AssemblyItem SemanticInformation Pattern RuleList SimplificationRules ExpressionClasses.

Inductive Target : Set := Invalid | Memory | Storage.

#[export] Instance Target_eq_dec : EqDecision Target.
Proof. solve_decision. Defined.

(** [numeric_limits<unsigned>::max()]. *)
Definition unsigned_max : Z := 2 ^ 32 - 1.

Record StoreOperation : Set := mkStore {
  target : Target;
  slot : Z;
  store_sequenceNumber : Z;
  expression : Z }.

(** The default values of the members. *)
Definition noStore : StoreOperation := mkStore Invalid unsigned_max unsigned_max unsigned_max.

Definition isValid (op : StoreOperation) : bool :=
  match target op with Invalid => false | _ => true end.

Record KnownState := mkKnown {
  m_stackHeight : Z;
  m_stackElements : gmap Z Z;
  m_sequenceNumber : Z;
  m_storageContent : gmap Z Z;
  m_memoryContent : gmap Z Z;
  m_knownKeccak256Hashes : gmap (list Z) Z;
  m_tagUnions : gmap Z (gset Z) }.

Definition emptyState : KnownState := mkKnown 0 ∅ 1 ∅ ∅ ∅ ∅.

(** ** Updates of the members *)

Definition set_stack (height : Z) (elements : gmap Z Z) (s : KnownState) : KnownState :=
  mkKnown height elements (m_sequenceNumber s) (m_storageContent s) (m_memoryContent s)
    (m_knownKeccak256Hashes s) (m_tagUnions s).
Definition set_sequenceNumber (n : Z) (s : KnownState) : KnownState :=
  mkKnown (m_stackHeight s) (m_stackElements s) n (m_storageContent s) (m_memoryContent s)
    (m_knownKeccak256Hashes s) (m_tagUnions s).
Definition set_storageContent (m : gmap Z Z) (s : KnownState) : KnownState :=
  mkKnown (m_stackHeight s) (m_stackElements s) (m_sequenceNumber s) m (m_memoryContent s)
    (m_knownKeccak256Hashes s) (m_tagUnions s).
Definition set_memoryContent (m : gmap Z Z) (s : KnownState) : KnownState :=
  mkKnown (m_stackHeight s) (m_stackElements s) (m_sequenceNumber s) (m_storageContent s) m
    (m_knownKeccak256Hashes s) (m_tagUnions s).
Definition set_hashes (m : gmap (list Z) Z) (s : KnownState) : KnownState :=
  mkKnown (m_stackHeight s) (m_stackElements s) (m_sequenceNumber s) (m_storageContent s)
    (m_memoryContent s) m (m_tagUnions s).
Definition set_tagUnions (m : gmap Z (gset Z)) (s : KnownState) : KnownState :=
  mkKnown (m_stackHeight s) (m_stackElements s) (m_sequenceNumber s) (m_storageContent s)
    (m_memoryContent s) (m_knownKeccak256Hashes s) m.

Definition resetStorage : KnownState -> KnownState := set_storageContent ∅.
Definition resetMemory : KnownState -> KnownState := set_memoryContent ∅.
Definition resetStack : KnownState -> KnownState := set_stack 0 ∅.
Definition reset (s : KnownState) : KnownState := resetStack (resetMemory (resetStorage s)).

(** ** The monad of operations *)

Definition K (A : Type) : Type :=
  KnownState -> ExpressionClasses -> Result (A * (KnownState * ExpressionClasses)).
Definition kret {A} (a : A) : K A := fun s cl => Ret (a, (s, cl)).
Definition kbind {A B} (m : K A) (k : A -> K B) : K B := fun s cl =>
  match m s cl with
  | Ret (a, (s, cl)) => k a s cl
  | Exception => Exception
  | OutOfFuel => OutOfFuel
  end.
Definition kget {A} (f : KnownState -> A) : K A := fun s cl => Ret (f s, (s, cl)).
Definition kmodify (f : KnownState -> KnownState) : K unit := fun s cl => Ret (tt, (f s, cl)).
Definition kassert (b : bool) : K unit := fun s cl => if b then Ret (tt, (s, cl)) else Exception.

(** An operation of the shared classes. *)
Definition kclasses {A} (f : ExpressionClasses -> Result (A * ExpressionClasses)) : K A := fun s cl =>
  match f cl with
  | Ret (a, cl) => Ret (a, (s, cl))
  | Exception => Exception
  | OutOfFuel => OutOfFuel
  end.
(** A query of the shared classes. *)
Definition kquery {A} (f : ExpressionClasses -> option A) : K A :=
  kclasses (fun cl => a ← lift (f cl); Ret (a, cl)).

Declare Scope known_scope.
Delimit Scope known_scope with known.
Notation "x <-- m ;; k" := (kbind m (fun x => k))
  (at level 100, m at next level, right associativity) : known_scope.
Notation "m ;;; k" := (kbind m (fun _ => k))
  (at level 100, right associativity) : known_scope.

(** The entries of a map in the order of their keys. *)
Definition key_le (p q : Z * Z) : Prop := fst p <= fst q.
#[export] Instance key_le_dec : RelDecision key_le.
Proof. intros p q. unfold key_le. apply _. Defined.
Definition entries (m : gmap Z Z) : list (Z * Z) := merge_sort key_le (map_to_list m).

Section Operations.
Context (fuel : nat) (rules : RuleTable) (keccak256 : list Z -> Z).
Local Open Scope known_scope.

(** [m_expressionClasses->find]. *)
Definition findClass (_sequenceNumber : Z) (_item : AssemblyItem) (_arguments : list Z) : K Z :=
  kclasses (fun cl => find fuel rules _sequenceNumber cl _item _arguments).

(** The conversion of an [int] to [u256] wraps. *)
Definition stackElement (_stackHeight : Z) (_location : SourceLocation) : K Z :=
  known <-- kget (fun s => m_stackElements s !! _stackHeight) ;;
  match known with
  | Some c => kret c
  | None =>
      c <-- findClass 0 (dataItem UndefinedItem (u256 _stackHeight) _location) [] ;;
      kmodify (fun s => set_stack (m_stackHeight s) (<[_stackHeight := c]> (m_stackElements s)) s) ;;;
      kret c
  end.

Definition relativeStackElement (_stackOffset : Z) (_location : SourceLocation) : K Z :=
  height <-- kget m_stackHeight ;; stackElement (height + _stackOffset) _location.

Definition setStackElement (_stackHeight _class : Z) : K unit :=
  kmodify (fun s => set_stack (m_stackHeight s) (<[_stackHeight := _class]> (m_stackElements s)) s).

Definition swapStackElements (_stackHeightA _stackHeightB : Z) (_location : SourceLocation) : K unit :=
  kassert (negb (_stackHeightA =? _stackHeightB)) ;;;
  a <-- stackElement _stackHeightA _location ;;
  b <-- stackElement _stackHeightB _location ;;
  setStackElement _stackHeightA b ;;; setStackElement _stackHeightB a.

(** The entries a store leaves, those for which [keep] answers true; [keep] may add
    classes. *)
Fixpoint keepEntries (keep : Z * Z -> K bool) (items : list (Z * Z)) (kept : gmap Z Z) : K (gmap Z Z) :=
  match items with
  | [] => kret kept
  | item :: items =>
      b <-- keep item ;;
      keepEntries keep items (if b : bool then <[fst item := snd item]> kept else kept)
  end.

Definition incrementSequenceNumber : K unit :=
  kmodify (fun s => set_sequenceNumber (unsigned (m_sequenceNumber s + 1)) s).

Definition storeInStorage (_slot _value : Z) (_location : SourceLocation) : K StoreOperation :=
  content <-- kget m_storageContent ;;
  if bool_decide (content !! _slot = Some _value) then kret noStore
  else
    incrementSequenceNumber ;;;
    storageContents <-- keepEntries (fun storageItem =>
        different <-- kclasses (fun cl => knownToBeDifferent fuel rules cl (fst storageItem) _slot) ;;
        kret (different || (snd storageItem =? _value)))
      (entries content) ∅ ;;
    kmodify (set_storageContent storageContents) ;;;
    seq <-- kget m_sequenceNumber ;;
    id <-- findClass seq (opItem SSTORE _location) [_slot; _value] ;;
    kmodify (fun s => set_storageContent (<[_slot := _value]> (m_storageContent s)) s) ;;;
    incrementSequenceNumber ;;;
    kret (mkStore Storage _slot seq id).

Definition loadFromStorage (_slot : Z) (_location : SourceLocation) : K Z :=
  known <-- kget (fun s => m_storageContent s !! _slot) ;;
  match known with
  | Some c => kret c
  | None =>
      seq <-- kget m_sequenceNumber ;;
      c <-- findClass seq (opItem SLOAD _location) [_slot] ;;
      kmodify (fun s => set_storageContent (<[_slot := c]> (m_storageContent s)) s) ;;;
      kret c
  end.

Definition storeInMemory (_slot _value : Z) (_location : SourceLocation) : K StoreOperation :=
  content <-- kget m_memoryContent ;;
  if bool_decide (content !! _slot = Some _value) then kret noStore
  else
    incrementSequenceNumber ;;;
    memoryContents <-- keepEntries (fun memoryItem =>
        kclasses (fun cl => knownToBeDifferentBy32 fuel rules cl (fst memoryItem) _slot))
      (entries content) ∅ ;;
    kmodify (set_memoryContent memoryContents) ;;;
    seq <-- kget m_sequenceNumber ;;
    id <-- findClass seq (opItem MSTORE _location) [_slot; _value] ;;
    kmodify (fun s => set_memoryContent (<[_slot := _value]> (m_memoryContent s)) s) ;;;
    incrementSequenceNumber ;;;
    kret (mkStore Memory _slot seq id).

Definition loadFromMemory (_slot : Z) (_location : SourceLocation) : K Z :=
  known <-- kget (fun s => m_memoryContent s !! _slot) ;;
  match known with
  | Some c => kret c
  | None =>
      seq <-- kget m_sequenceNumber ;;
      c <-- findClass seq (opItem MLOAD _location) [_slot] ;;
      kmodify (fun s => set_memoryContent (<[_slot := c]> (m_memoryContent s)) s) ;;;
      kret c
  end.

(** The loop of [applyKeccak256]: the classes of [n] words of memory, the first at offset [i]. *)
Fixpoint memoryWords (n : nat) (i _start : Z) (_location : SourceLocation) : K (list Z) :=
  match n with
  | O => kret []
  | S n =>
      offset <-- findClass 0 (dataItem Push i noLocation) [] ;;
      slot <-- findClass 0 (opItem ADD _location) [_start; offset] ;;
      word <-- loadFromMemory slot _location ;;
      arguments <-- memoryWords n (i + 32) _start _location ;;
      kret (word :: arguments)
  end.

(** [all_of] the classes are known constants: the constants. *)
Fixpoint knownConstants (arguments : list Z) : K (option (list Z)) :=
  match arguments with
  | [] => kret (Some [])
  | a :: arguments =>
      c <-- kquery (fun cl => knownConstant cl a) ;;
      match c with
      | None => kret None
      | Some c =>
          cs <-- knownConstants arguments ;;
          kret (cs ← cs; Some (c :: cs))
      end
  end.

(** [bytes::resize]: cut off or filled with zeros. *)
Definition resize (n : nat) (l : list Z) : list Z := take n l ++ replicate (n - length l) 0.

Definition applyKeccak256 (_start _length : Z) (_location : SourceLocation) : K Z :=
  let keccak256Item := opItem KECCAK256 _location in
  l <-- kquery (fun cl => knownConstant cl _length) ;;
  match l with
  | Some l =>
      if 128 <? l then
        seq <-- kget m_sequenceNumber ;; findClass seq keccak256Item [_start; _length]
      else
        arguments <-- memoryWords (Z.to_nat ((l + 31) / 32)) 0 _start _location ;;
        known <-- kget (fun s => m_knownKeccak256Hashes s !! arguments) ;;
        match known with
        | Some v => kret v
        | None =>
            constants <-- knownConstants arguments ;;
            v <-- match constants with
                  | Some cs =>
                      let data := resize (Z.to_nat l) (concat (map (toBigEndian 32) cs)) in
                      findClass 0 (dataItem Push (u256 (keccak256 data)) _location) []
                  | None =>
                      seq <-- kget m_sequenceNumber ;; findClass seq keccak256Item [_start; _length]
                  end ;;
            kmodify (fun s => set_hashes (<[arguments := v]> (m_knownKeccak256Hashes s)) s) ;;;
            kret v
        end
  | None => seq <-- kget m_sequenceNumber ;; findClass seq keccak256Item [_start; _length]
  end.

(** ** Feeding items *)

(** The classes of the [n] topmost stack elements, from offset [i] on. *)
Fixpoint stackArguments (n : nat) (i : Z) (_location : SourceLocation) : K (list Z) :=
  match n with
  | O => kret []
  | S n =>
      a <-- relativeStackElement (- i) _location ;;
      arguments <-- stackArguments n (i + 1) _location ;;
      kret (a :: arguments)
  end.

(** The [switch] of [feedItem] on an instruction other than POP, DUP and SWAP; [deposit] is the
    stack height it leaves relative to the current one. *)
Definition feedInstruction (_item : AssemblyItem) (arguments : list Z) : K StoreOperation :=
  let instruction := m_instruction _item in
  let loc := m_location _item in
  let setResult c :=
    height <-- kget m_stackHeight ;; setStackElement (height + to_int (deposit _item)) c ;;; kret noStore in
  match instruction, arguments with
  | SSTORE, [a; b] => storeInStorage a b loc
  | SLOAD, [a] => c <-- loadFromStorage a loc ;; setResult c
  | MSTORE, [a; b] => storeInMemory a b loc
  | MLOAD, [a] => c <-- loadFromMemory a loc ;; setResult c
  | KECCAK256, [a; b] => c <-- applyKeccak256 a b loc ;; setResult c
  | _, _ =>
      let invMem := invalidatesMemory instruction in
      let invStor := invalidatesStorage instruction in
      (if invMem then kmodify resetMemory else kret tt) ;;;
      (if invStor then kmodify resetStorage else kret tt) ;;;
      (if invMem || invStor
       then kmodify (fun s => set_sequenceNumber (unsigned (m_sequenceNumber s + 2)) s) else kret tt) ;;;
      kassert (Nat.leb (ret (instructionInfo instruction)) 1) ;;;
      if Nat.eqb (ret (instructionInfo instruction)) 1
      then c <-- findClass 0 _item arguments ;; setResult c
      else kret noStore
  end.

(** The items of type [Operation]. *)
Definition feedOperation (_item : AssemblyItem) : K StoreOperation :=
  let instruction := m_instruction _item in
  let loc := m_location _item in
  height <-- kget m_stackHeight ;;
  op <-- (if item_isDup _item then
            c <-- stackElement (height - opcode instruction + opcode DUP1) loc ;;
            setStackElement (height + 1) c ;;; kret noStore
          else if item_isSwap _item then
            swapStackElements height (height - 1 - opcode instruction + opcode SWAP1) loc ;;; kret noStore
          else if negb (bool_decide (instruction = POP)) then
            arguments <-- stackArguments (args (instructionInfo instruction)) 0 loc ;;
            feedInstruction _item arguments
          else kret noStore) ;;
  let newHeight := height + to_int (deposit _item) in
  kmodify (fun s => set_stack newHeight (filter (fun p => fst p <= newHeight) (m_stackElements s)) s) ;;;
  kret op.

Definition feedItem (_item : AssemblyItem) : K StoreOperation :=
  match m_type _item with
  | Tag => kret noStore
  | AssignImmutable => feedOperation (opItem POP noLocation)
  | Operation => feedOperation _item
  | _ =>
      kassert (deposit _item =? 1) ;;;
      c <-- match m_pushedValue _item with
            | Some v => findClass 0 (dataItem Push v noLocation) []
            | None => findClass 0 _item []
            end ;;
      kmodify (fun s => set_stack (m_stackHeight s + 1)
                 (<[m_stackHeight s + 1 := c]> (m_stackElements s)) s) ;;;
      kret noStore
  end.

(** ** Joining states *)

(** [tagsInExpression]; throws for a class that does not exist. *)
Definition tagsInExpression (_expressionId : Z) : K (gset Z) :=
  union <-- kget (fun s => m_tagUnions s !! _expressionId) ;;
  match union with
  | Some tags => kret tags
  | None =>
      expr <-- kquery (fun cl => representative (m_representatives cl) _expressionId) ;;
      kret match item expr with
           | Some it => if bool_decide (m_type it = PushTag) then {[ m_data it ]} else ∅
           | None => ∅
           end
  end.

(** The id a set of tags has in [m_tagUnions.right]. *)
Definition unionId (unions : gmap Z (gset Z)) (_tags : gset Z) : option Z :=
  fst <$> List.find (fun p => bool_decide (snd p = _tags)) (map_to_list unions).

Definition tagUnion (_tags : gset Z) : K Z :=
  known <-- kget (fun s => unionId (m_tagUnions s) _tags) ;;
  match known with
  | Some id => kret id
  | None =>
      id <-- kclasses (fun cl => lift (newClass cl noLocation)) ;;
      kmodify (fun s => set_tagUnions (<[id := _tags]> (m_tagUnions s)) s) ;;;
      kret id
  end.

(** What [reduceToCommonKnowledge] keeps of the stack elements of a state, given those of
    the other state, [stackDiff] lower. *)
Fixpoint commonElements (_other : gmap Z Z) (stackDiff : Z) (elements : list (Z * Z)) (kept : gmap Z Z)
  : K (gmap Z Z) :=
  match elements with
  | [] => kret kept
  | (height, c) :: elements =>
      kept <-- match _other !! (height - stackDiff) with
               | None => kret kept
               | Some other =>
                   if c =? other then kret (<[height := c]> kept)
                   else
                     theseTags <-- tagsInExpression c ;;
                     otherTags <-- tagsInExpression other ;;
                     if negb (bool_decide (theseTags = ∅)) && negb (bool_decide (otherTags = ∅)) then
                       u <-- tagUnion (theseTags ∪ otherTags) ;; kret (<[height := u]> kept)
                     else kret kept
               end ;;
      commonElements _other stackDiff elements kept
  end.

(** [intersect]. *)
Definition intersect (_this _other : gmap Z Z) : gmap Z Z :=
  filter (fun p => _other !! fst p = Some (snd p)) _this.

(** The keys of a map moved down. *)
Definition shiftDown (n : Z) (elements : gmap Z Z) : gmap Z Z := kmap (fun h => h - n) elements.

Definition reduceToCommonKnowledge (_other : KnownState) (_combineSequenceNumbers : bool) : K unit :=
  height <-- kget m_stackHeight ;;
  let stackDiff := height - m_stackHeight _other in
  elements <-- kget m_stackElements ;;
  elements <-- commonElements (m_stackElements _other) stackDiff (entries elements) ∅ ;;
  kmodify (if m_stackHeight _other <? height
           then set_stack (m_stackHeight _other) (shiftDown stackDiff elements)
           else set_stack height elements) ;;;
  kmodify (fun s => set_storageContent (intersect (m_storageContent s) (m_storageContent _other)) s) ;;;
  kmodify (fun s => set_memoryContent (intersect (m_memoryContent s) (m_memoryContent _other)) s) ;;;
  if _combineSequenceNumbers
  then kmodify (fun s => set_sequenceNumber (Z.max (m_sequenceNumber s) (m_sequenceNumber _other)) s)
  else kret tt.

(** [clearTagUnions]. *)
Definition clearTagUnions : K unit :=
  kmodify (fun s => set_stack (m_stackHeight s)
    (filter (fun p => m_tagUnions s !! snd p = None) (m_stackElements s)) s).
End Operations.

(** [operator==]: the maps are compared entry by entry in the order of their keys. *)
Fixpoint sameEntries (stackDiff : Z) (thisIt otherIt : list (Z * Z)) : bool :=
  match thisIt, otherIt with
  | [], [] => true
  | (h, c) :: thisIt, (h', c') :: otherIt =>
      if negb (h - stackDiff =? h') || negb (c =? c') then false else sameEntries stackDiff thisIt otherIt
  | _, _ => false
  end.

Definition known_eqb (_this _other : KnownState) : bool :=
  if negb (bool_decide (m_storageContent _this = m_storageContent _other)) ||
     negb (bool_decide (m_memoryContent _this = m_memoryContent _other)) then false
  else sameEntries (m_stackHeight _this - m_stackHeight _other)
         (entries (m_stackElements _this)) (entries (m_stackElements _other)).
