(* ===== verification/CommonSubexpressionEliminator.v ===== *)
(** * CommonSubexpressionEliminator: code generated from the classes of a block,
      libevmasm/CommonSubexpressionEliminator.{h,cpp}

    The eliminator feeds the items of a block to a [KnownState] and generates new items for
    the stack, storage and memory it ends with.  The code generator works on its own state
    and on the classes, which it may extend; it throws one of the exceptions its caller
    distinguishes ([CSEError]).  A [std::map] is a [gmap], except that of the store
    operations, whose order the generator follows: it is a list sorted by its keys.
    [m_neededBy] is the list of its pairs in the order they are inserted; only sets are made of
    them.  The recursive functions have fuel. *)

From stdpp Require Import sorting.
From S2P Require Import Prelude U256 CommonData Instruction AssemblyItem SemanticInformation Pattern RuleList SimplificationRules ExpressionClasses KnownState.

(** The exceptions: those [Assembly::optimiseInternal] catches, and any other. *)
Inductive CSEError : Set := StackTooDeepException | ItemNotAvailableException | OptimizerException.

Inductive Generated (A : Type) : Type :=
| Done (a : A)
| Throws (e : CSEError)
| NoFuel.
Arguments Done {A} a.
Arguments Throws {A} e.
Arguments NoFuel {A}.

Definition StoreOperations := list StoreOperation.

Record CSECodeGenerator := mkGen {
  m_generatedItems : list AssemblyItem;
  g_stackHeight : Z;
  m_neededBy : list (Z * Z);
  m_stack : gmap Z Z;
  m_classPositions : gmap Z (gset Z);
  g_storeOperations : list ((Target * Z) * StoreOperations);
  m_finalClasses : gset Z;
  m_targetStack : gmap Z Z }.

Definition set_generated (items : list AssemblyItem) (height : Z) (g : CSECodeGenerator) : CSECodeGenerator :=
  mkGen items height (m_neededBy g) (m_stack g) (m_classPositions g) (g_storeOperations g) (m_finalClasses g)
    (m_targetStack g).
Definition set_neededBy (l : list (Z * Z)) (g : CSECodeGenerator) : CSECodeGenerator :=
  mkGen (m_generatedItems g) (g_stackHeight g) l (m_stack g) (m_classPositions g) (g_storeOperations g)
    (m_finalClasses g) (m_targetStack g).
Definition set_gstack (m : gmap Z Z) (g : CSECodeGenerator) : CSECodeGenerator :=
  mkGen (m_generatedItems g) (g_stackHeight g) (m_neededBy g) m (m_classPositions g) (g_storeOperations g)
    (m_finalClasses g) (m_targetStack g).
Definition set_positions (m : gmap Z (gset Z)) (g : CSECodeGenerator) : CSECodeGenerator :=
  mkGen (m_generatedItems g) (g_stackHeight g) (m_neededBy g) (m_stack g) m (g_storeOperations g)
    (m_finalClasses g) (m_targetStack g).
Definition set_finalClasses (s : gset Z) (g : CSECodeGenerator) : CSECodeGenerator :=
  mkGen (m_generatedItems g) (g_stackHeight g) (m_neededBy g) (m_stack g) (m_classPositions g)
    (g_storeOperations g) s (m_targetStack g).

(** ** The monad of the generator *)

Definition G (A : Type) : Type :=
  CSECodeGenerator -> ExpressionClasses -> Generated (A * (CSECodeGenerator * ExpressionClasses)).
Definition gret {A} (a : A) : G A := fun g cl => Done (a, (g, cl)).
Definition gbind {A B} (m : G A) (k : A -> G B) : G B := fun g cl =>
  match m g cl with
  | Done (a, (g, cl)) => k a g cl
  | Throws e => Throws e
  | NoFuel => NoFuel
  end.
Definition gthrow {A} (e : CSEError) : G A := fun _ _ => Throws e.
Definition gget {A} (f : CSECodeGenerator -> A) : G A := fun g cl => Done (f g, (g, cl)).
Definition gmodify (f : CSECodeGenerator -> CSECodeGenerator) : G unit := fun g cl => Done (tt, (f g, cl)).
Definition gassert (b : bool) (e : CSEError) : G unit := if b then gret tt else gthrow e.

(** An operation of the classes; what it throws is not caught. *)
Definition gclasses {A} (f : ExpressionClasses -> Result (A * ExpressionClasses)) : G A := fun g cl =>
  match f cl with
  | Ret (a, cl) => Done (a, (g, cl))
  | Exception => Throws OptimizerException
  | OutOfFuel => NoFuel
  end.
Definition gquery {A} (f : ExpressionClasses -> option A) : G A :=
  gclasses (fun cl => a ← lift (f cl); Ret (a, cl)).

Declare Scope generator_scope.
Delimit Scope generator_scope with generator.
Notation "x <-- m ;; k" := (gbind m (fun x => k))
  (at level 100, m at next level, right associativity) : generator_scope.
Notation "m ;;; k" := (gbind m (fun _ => k))
  (at level 100, right associativity) : generator_scope.
Local Open Scope generator_scope.

(** ** Positions *)

(** [m_stack[p]]: a position that is not in the map is added to it. *)
Definition stack_at (p : Z) : G Z :=
  c <-- gget (fun g => m_stack g !! p) ;;
  match c with
  | Some c => gret c
  | None => gmodify (fun g => set_gstack (<[p := 0]> (m_stack g)) g) ;;; gret 0
  end.

(** [m_classPositions[c].insert(p)] and [m_classPositions[c].erase(p)]. *)
Definition insertPosition (c p : Z) : G unit :=
  gmodify (fun g => set_positions (<[c := {[ p ]} ∪ default ∅ (m_classPositions g !! c)]> (m_classPositions g)) g).
Definition erasePosition (c p : Z) : G unit :=
  gmodify (fun g => set_positions (<[c := default ∅ (m_classPositions g !! c) ∖ {[ p ]}]> (m_classPositions g)) g).

(** The largest of the positions. *)
Definition max_position (s : gset Z) : option Z :=
  match elements s with
  | [] => None
  | p :: l => Some (fold_left Z.max l p)
  end.

Definition classElementPosition (_id : Z) : G Z :=
  positions <-- gget (fun g => m_classPositions g !! _id) ;;
  match positions ≫= max_position with
  | Some p => gret p
  | None => gthrow OptimizerException
  end.

(** [canBeRemoved]; [_result] is [None] for [Id(-1)], which no class is, and [_fromPosition] for
    [c_invalidPosition]. *)
Definition canBeRemoved (_element : Z) (_result : option Z) (_fromPosition : option Z) : G bool :=
  _fromPosition <-- match _fromPosition with
                    | Some p => gret p
                    | None => classElementPosition _element
                    end ;;
  positions <-- gget (fun g => m_classPositions g !! _element) ;;
  match positions with
  | None => gthrow OptimizerException
  | Some positions =>
      let haveCopy := Nat.ltb 1 (size positions) in
      gget (fun g =>
        if bool_decide (_element ∈ m_finalClasses g) then
          haveCopy && negb (bool_decide (m_targetStack g !! _fromPosition = Some _element))
        else if negb haveCopy then
          forallb (fun p => negb ((fst p =? _element) && negb (bool_decide (_result = Some (snd p))) &&
                              negb (bool_decide (is_Some (m_classPositions g !! snd p)))))
            (m_neededBy g)
        else true)
  end.

(** ** Appending items *)

Definition appendItem (_item : AssemblyItem) : G unit :=
  gmodify (fun g => set_generated (m_generatedItems g ++ [_item]) (g_stackHeight g + to_int (deposit _item)) g).

(** The instruction, where the number is in range. *)
Definition numbered (f : Z -> option Instruction) (n : Z) : G Instruction :=
  gassert (n <=? 16) StackTooDeepException ;;;
  gassert (1 <=? n) OptimizerException ;;;
  match f n with Some i => gret i | None => gthrow OptimizerException end.

Definition appendDup (_fromPosition : Z) (_location : SourceLocation) : G unit :=
  height <-- gget g_stackHeight ;;
  i <-- numbered dupInstruction (1 + height - _fromPosition) ;;
  appendItem (opItem i _location) ;;;
  height <-- gget g_stackHeight ;;
  c <-- stack_at _fromPosition ;;
  gmodify (fun g => set_gstack (<[height := c]> (m_stack g)) g) ;;;
  insertPosition c height.

(** [m_generatedItems] without two equal swaps at its end. *)
Definition removeSwaps (items : list AssemblyItem) : list AssemblyItem :=
  match reverse items with
  | b :: a :: items' => if item_isSwap b && item_eqb a b then reverse items' else items
  | _ => items
  end.

Definition appendOrRemoveSwap (_fromPosition : Z) (_location : SourceLocation) : G unit :=
  height <-- gget g_stackHeight ;;
  if _fromPosition =? height then gret tt
  else
    i <-- numbered swapInstruction (height - _fromPosition) ;;
    appendItem (opItem i _location) ;;;
    height <-- gget g_stackHeight ;;
    top <-- stack_at height ;;
    from <-- stack_at _fromPosition ;;
    (if top =? from then gret tt
     else
       erasePosition top height ;;; insertPosition top _fromPosition ;;;
       erasePosition from _fromPosition ;;; insertPosition from height ;;;
       gmodify (fun g => set_gstack (<[_fromPosition := top]> (<[height := from]> (m_stack g))) g)) ;;;
    gmodify (fun g => set_generated (removeSwaps (m_generatedItems g)) (g_stackHeight g) g).

Definition removeStackTopIfPossible : G bool :=
  empty <-- gget (fun g => bool_decide (m_stack g = ∅)) ;;
  if empty : bool then gret false
  else
    height <-- gget g_stackHeight ;;
    top <-- gget (fun g => m_stack g !! height) ;;
    match top with
    | None => gthrow OptimizerException
    | Some top =>
        can <-- canBeRemoved top None (Some height) ;;
        if can : bool then
          erasePosition top height ;;;
          gmodify (fun g => set_gstack (delete height (m_stack g)) g) ;;;
          appendItem (opItem POP noLocation) ;;; gret true
        else gret false
    end.

(** ** Dependencies *)

(** [std::map<pair<Target, Id>, ...>::operator[]] on the sorted list, to append a store. *)
Definition target_index (t : Target) : Z :=
  match t with Invalid => 0 | Memory => 1 | Storage => 2 end.
Definition key_ltb (k k' : Target * Z) : bool :=
  (target_index (fst k) <? target_index (fst k')) ||
  ((target_index (fst k) =? target_index (fst k')) && (snd k <? snd k')).

Fixpoint addStore (op : StoreOperation) (l : list ((Target * Z) * StoreOperations))
  : list ((Target * Z) * StoreOperations) :=
  let k := (target op, slot op) in
  match l with
  | [] => [(k, [op])]
  | (k', ops) :: l' =>
      if key_ltb k k' then (k, [op]) :: l
      else if key_ltb k' k then (k', ops) :: addStore op l'
      else (k', ops ++ [op]) :: l'
  end.

(** The constructor: the store operations by target and slot. *)
Definition groupStores (ops : StoreOperations) : list ((Target * Z) * StoreOperations) :=
  fold_left (fun l op => addStore op l) ops [].

(** The [switch] of [addDependencies]: the load is known not to depend on stores at [slot]. *)
Definition knownToBeIndependent (fuel : nat) (rules : RuleTable) (i : Instruction) (loc : SourceLocation)
    (arguments : list Z) (slot slotToLoadFrom : Z) : G bool :=
  match i with
  | SLOAD => gclasses (fun cl => knownToBeDifferent fuel rules cl slot slotToLoadFrom)
  | MLOAD => gclasses (fun cl => knownToBeDifferentBy32 fuel rules cl slot slotToLoadFrom)
  | KECCAK256 =>
      match arguments !! 1%nat with
      | None => gthrow OptimizerException
      | Some length =>
          offsetToStart <-- gclasses (fun cl => find fuel rules 0 cl (opItem SUB loc) [slot; slotToLoadFrom]) ;;
          o <-- gquery (fun cl => knownConstant cl offsetToStart) ;;
          l <-- gquery (fun cl => knownConstant cl length) ;;
          gret (if bool_decide (l = Some 0) then true
                else match o with
                     | Some o =>
                         if u2s o <=? -32 then true
                         else match l with Some l => (0 <=? u2s o) && (l <=? o) | None => false end
                     | None => false
                     end)
      end
  | _ => gret false
  end.

(** The last of the stores before a sequence number, or the first store. *)
Definition latestStore (front : StoreOperation) (others : StoreOperations) (seq : Z) : Z :=
  fold_left (fun latest op => if store_sequenceNumber op <? seq then expression op else latest)
    others (expression front).

Section AddDependencies.
Context (fuel : nat) (rules : RuleTable) (addDependencies : Z -> G unit).

Fixpoint addArguments (_c : Z) (arguments : list Z) : G unit :=
  match arguments with
  | [] => gret tt
  | a :: arguments =>
      addDependencies a ;;;
      gmodify (fun g => set_neededBy (m_neededBy g ++ [(a, _c)]) g) ;;;
      addArguments _c arguments
  end.

Fixpoint addStores (_c : Z) (i : Instruction) (loc : SourceLocation) (expr : Expression) (slotToLoadFrom : Z)
    (stores : list ((Target * Z) * StoreOperations)) : G unit :=
  match stores with
  | [] => gret tt
  | ((t, slot), storeOps) :: stores =>
      (if negb (bool_decide (t = match i with SLOAD => Storage | _ => Memory end)) then gret tt
       else
         match storeOps with
         | [] => gthrow OptimizerException
         | front :: others =>
             if sequenceNumber expr <? store_sequenceNumber front then gret tt
             else
               independent <-- knownToBeIndependent fuel rules i loc (e_arguments expr) slot slotToLoadFrom ;;
               if independent : bool then gret tt
               else
                 let latest := latestStore front others (sequenceNumber expr) in
                 addDependencies latest ;;;
                 gmodify (fun g => set_neededBy (m_neededBy g ++ [(latest, _c)]) g)
         end) ;;;
      addStores _c i loc expr slotToLoadFrom stores
  end.
End AddDependencies.

(** The class's representative; [at] throws. *)
Definition representativeOf (_c : Z) : G Expression :=
  gquery (fun cl => representative (m_representatives cl) _c).

Fixpoint addDependencies (depth fuel : nat) (rules : RuleTable) (_c : Z) {struct depth} : G unit :=
  match depth with
  | O => fun _ _ => NoFuel
  | S depth =>
      onStack <-- gget (fun g => bool_decide (is_Some (m_classPositions g !! _c))) ;;
      needed <-- gget (fun g => existsb (fun p => fst p =? _c) (m_neededBy g)) ;;
      if onStack || needed : bool then gret tt
      else
        expr <-- representativeOf _c ;;
        match item expr with
        | None => gthrow OptimizerException
        | Some it =>
            gassert (negb (bool_decide (m_type it = UndefinedItem))) ItemNotAvailableException ;;;
            addArguments (addDependencies depth fuel rules) _c (e_arguments expr) ;;;
            if is_op it SLOAD || is_op it MLOAD || is_op it KECCAK256 then
              match e_arguments expr with
              | [] => gthrow OptimizerException
              | slotToLoadFrom :: _ =>
                  stores <-- gget g_storeOperations ;;
                  addStores fuel rules (addDependencies depth fuel rules) _c (m_instruction it) (m_location it)
                    expr slotToLoadFrom stores
              end
            else gret tt
        end
  end.

(** ** Generating classes *)

(** The arguments of an expression brought to the top of the stack. *)
Definition arrangeArguments (_c : Z) (arguments : list Z) (loc : SourceLocation) : G unit :=
  let swapTo c := p <-- classElementPosition c ;; appendOrRemoveSwap p loc in
  let dupOf c := p <-- classElementPosition c ;; appendDup p loc in
  let dupTop := height <-- gget g_stackHeight ;; appendDup height loc in
  let swapBelow := height <-- gget g_stackHeight ;; appendOrRemoveSwap (height - 1) loc in
  match arguments with
  | [] => gret tt
  | [a] =>
      can <-- canBeRemoved a (Some _c) None ;;
      if can : bool then swapTo a else dupOf a
  | [a; b] =>
      canB <-- canBeRemoved b (Some _c) None ;;
      if canB : bool then
        swapTo b ;;;
        if a =? b then dupTop
        else
          canA <-- canBeRemoved a (Some _c) None ;;
          if canA : bool then swapBelow ;;; swapTo a else dupOf a
      else if a =? b then dupOf a ;;; dupTop
      else
        canA <-- canBeRemoved a (Some _c) None ;;
        if canA : bool then swapTo a ;;; dupOf b ;;; swapBelow
        else dupOf b ;;; dupOf a
  | _ => gthrow OptimizerException
  end.

(** The assertions that the arguments are there. *)
Fixpoint checkArguments (i : Z) (arguments : list Z) : G unit :=
  match arguments with
  | [] => gret tt
  | a :: arguments =>
      height <-- gget g_stackHeight ;;
      c <-- stack_at (height - i) ;;
      gassert (c =? a) OptimizerException ;;;
      checkArguments (i + 1) arguments
  end.

Fixpoint eraseArguments (i : Z) (arguments : list Z) : G unit :=
  match arguments with
  | [] => gret tt
  | _ :: arguments =>
      height <-- gget g_stackHeight ;;
      c <-- stack_at (height - i) ;;
      erasePosition c (height - i) ;;;
      gmodify (fun g => set_gstack (delete (height - i) (m_stack g)) g) ;;;
      eraseArguments (i + 1) arguments
  end.

(** A swap of the arguments of a commutative operation is removed, as often as there is one. *)
Fixpoint removeArgumentSwaps (n : nat) (it : AssemblyItem) : G unit :=
  match n with
  | O => fun _ _ => NoFuel
  | S n =>
      swapped <-- gget (fun g => isCommutativeOperation it &&
        match last (m_generatedItems g) with Some b => item_eqb b (opItem SWAP1 noLocation) | None => false end) ;;
      if swapped : bool then
        height <-- gget g_stackHeight ;;
        appendOrRemoveSwap (height - 1) (m_location it) ;;; removeArgumentSwaps n it
      else gret tt
  end.

Definition generateItem (_c : Z) (expr : Expression) (it : AssemblyItem) : G unit :=
  arrangeArguments _c (e_arguments expr) (m_location it) ;;;
  checkArguments 0 (e_arguments expr) ;;;
  n <-- gget (fun g => length (m_generatedItems g)) ;;
  removeArgumentSwaps (S n) it ;;;
  eraseArguments 0 (e_arguments expr) ;;;
  appendItem it ;;;
  if negb (bool_decide (m_type it = Operation)) || Nat.eqb (ret (instructionInfo (m_instruction it))) 1 then
    height <-- gget g_stackHeight ;;
    gmodify (fun g => set_gstack (<[height := _c]> (m_stack g)) g) ;;;
    insertPosition _c height
  else
    gassert (Nat.eqb (ret (instructionInfo (m_instruction it))) 0) OptimizerException ;;;
    gmodify (fun g => set_positions (<[_c := default ∅ (m_classPositions g !! _c)]> (m_classPositions g)) g).

(** No position is above the top of the stack. *)
Definition positionsInStack (g : CSECodeGenerator) : bool :=
  bool_decide (map_Forall (fun _ s => set_Forall (fun p => p <= g_stackHeight g) s) (m_classPositions g)).

Fixpoint generateClassElement (depth : nat) (_c : Z) (_allowSequenced : bool) {struct depth} : G unit :=
  match depth with
  | O => fun _ _ => NoFuel
  | S depth =>
      inStack <-- gget positionsInStack ;;
      gassert inStack OptimizerException ;;;
      removeStackTopIfPossible ;;;
      positions <-- gget (fun g => m_classPositions g !! _c) ;;
      match positions with
      | Some s => gassert (negb (bool_decide (s = ∅))) OptimizerException
      | None =>
          expr <-- representativeOf _c ;;
          gassert (_allowSequenced || (sequenceNumber expr =? 0)) OptimizerException ;;;
          match item expr with
          | None => gthrow OptimizerException
          | Some it =>
              gassert (negb (bool_decide (m_type it = UndefinedItem))) OptimizerException ;;;
              (fix loop (l : list Z) : G unit :=
                 match l with
                 | [] => gret tt
                 | a :: l => generateClassElement depth a false ;;; loop l
                 end) (reverse (e_arguments expr)) ;;;
              generateItem _c expr it
          end
      end
  end.

(** ** Generating the code of a block *)

(** The sequenced expressions that are needed, ordered by sequence number and class. *)
Definition pair_le (p q : Z * Z) : Prop := fst p < fst q \/ (fst p = fst q /\ snd p <= snd q).
#[export] Instance pair_le_dec : RelDecision pair_le.
Proof. intros p q. unfold pair_le. apply _. Defined.

Fixpoint collectSequenced (_initialSequenceNumber : Z) (ids : list Z) (found : gset (Z * Z)) : G (gset (Z * Z)) :=
  match ids with
  | [] => gret found
  | id :: ids =>
      expr <-- representativeOf id ;;
      let seqNr := sequenceNumber expr in
      if seqNr =? 0 then collectSequenced _initialSequenceNumber ids found
      else
        gassert (_initialSequenceNumber <=? seqNr) StackTooDeepException ;;;
        collectSequenced _initialSequenceNumber ids ({[ (seqNr, id) ]} ∪ found)
  end.

Fixpoint generateSequenced (depth : nat) (sequencedExpressions : list (Z * Z)) : G unit :=
  match sequencedExpressions with
  | [] => gret tt
  | (_, id) :: sequencedExpressions =>
      generated <-- gget (fun g => bool_decide (is_Some (m_classPositions g !! id))) ;;
      (if generated : bool then gret tt else generateClassElement depth id true) ;;;
      generateSequenced depth sequencedExpressions
  end.

(** One element of the target stack. *)
Definition generateTarget (depth : nat) (position c : Z) : G unit :=
  there <-- gget (fun g => bool_decide (m_stack g !! position = Some c)) ;;
  if there : bool then gret tt
  else
    generateClassElement depth c false ;;;
    positions <-- gget (fun g => default ∅ (m_classPositions g !! c)) ;;
    gassert (negb (bool_decide (positions = ∅))) OptimizerException ;;;
    if bool_decide (position ∈ positions) then gret tt
    else
      expr <-- representativeOf c ;;
      let loc := match item expr with Some it => m_location it | None => noLocation end in
      from <-- classElementPosition c ;;
      (if from <? position then appendDup from loc else appendOrRemoveSwap from loc) ;;;
      appendOrRemoveSwap position loc.

Fixpoint generateTargets (depth : nat) (targets : list (Z * Z)) : G unit :=
  match targets with
  | [] => gret tt
  | (position, c) :: targets => generateTarget depth position c ;;; generateTargets depth targets
  end.

Fixpoint removeSurplus (n : nat) : G unit :=
  match n with
  | O => fun _ _ => NoFuel
  | S n => removed <-- removeStackTopIfPossible ;; if removed : bool then removeSurplus n else gret tt
  end.

Fixpoint addAllDependencies (depth fuel : nat) (rules : RuleTable) (ids : list Z) : G unit :=
  match ids with
  | [] => gret tt
  | c :: ids => addDependencies depth fuel rules c ;;; addAllDependencies depth fuel rules ids
  end.

Fixpoint addTargets (depth fuel : nat) (rules : RuleTable) (targets : list Z) : G unit :=
  match targets with
  | [] => gret tt
  | c :: targets =>
      gmodify (fun g => set_finalClasses ({[ c ]} ∪ m_finalClasses g) g) ;;;
      addDependencies depth fuel rules c ;;; addTargets depth fuel rules targets
  end.

(** The expressions of the last stores. *)
Definition lastStores (stores : list ((Target * Z) * StoreOperations)) : list Z :=
  omap (fun p => expression <$> last (snd p)) stores.

(** The keys of a map, ascending. *)
Definition keys (m : gmap Z Z) : list Z := map fst (entries m).

(** The positions of the classes on a stack. *)
Definition positionsOf (stack : gmap Z Z) : gmap Z (gset Z) :=
  fold_left (fun m p => <[snd p := {[ fst p ]} ∪ default ∅ (m !! snd p)]> m) (entries stack) ∅.

Definition generateCode (depth fuel : nat) (rules : RuleTable) (stores : list ((Target * Z) * StoreOperations))
    (_initialSequenceNumber _initialStackHeight : Z) (_initialStack _targetStackContents : gmap Z Z)
  : G (list AssemblyItem) :=
  gmodify (fun _ => mkGen [] _initialStackHeight [] _initialStack (positionsOf _initialStack) stores ∅
    _targetStackContents) ;;;
  addAllDependencies depth fuel rules (lastStores stores) ;;;
  addTargets depth fuel rules (map snd (entries _targetStackContents)) ;;;
  needed <-- gget m_neededBy ;;
  sequencedExpressions <-- collectSequenced _initialSequenceNumber (concat (map (fun p => [fst p; snd p]) needed)) ∅ ;;
  generateSequenced depth (merge_sort pair_le (elements sequencedExpressions)) ;;;
  generateTargets depth (entries _targetStackContents) ;;;
  size <-- gget (fun g => size (m_stack g)) ;;
  removeSurplus (S size) ;;;
  height <-- gget g_stackHeight ;;
  gassert (height =? match last (keys _targetStackContents) with
                     | Some h => h
                     | None => match keys _initialStack with
                               | h :: _ => h - 1
                               | [] => _initialStackHeight
                               end
                     end) OptimizerException ;;;
  gget m_generatedItems.

(** ** CommonSubexpressionEliminator *)

Record Eliminator := mkEliminator {
  m_initialState : KnownState;
  m_state : KnownState;
  m_storeOperations : StoreOperations;
  m_breakingItem : option AssemblyItem }.

(** The constructor. *)
Definition eliminator (_state : KnownState) : Eliminator := mkEliminator _state _state [] None.

Section Eliminator.
Context (fuel : nat) (rules : RuleTable) (keccak256 : list Z -> Z).

(** [CommonSubexpressionEliminator::feedItem], on the state and the stores. *)
Definition feedStore (_item : AssemblyItem) (stores : StoreOperations) : K StoreOperations :=
  kbind (feedItem fuel rules keccak256 _item) (fun op => kret (if isValid op then stores ++ [op] else stores)).

Fixpoint feedStores (items : list AssemblyItem) (stores : StoreOperations) : K StoreOperations :=
  match items with
  | [] => kret stores
  | it :: items => kbind (feedStore it stores) (feedStores items)
  end.

(** The items [feedItems] feeds, the item that breaks the block, and those after it. *)
Fixpoint splitBlock (_msizeImportant : bool) (items : list AssemblyItem)
  : list AssemblyItem * option AssemblyItem * list AssemblyItem :=
  match items with
  | [] => ([], None, [])
  | it :: items' =>
      if breaksCSEAnalysisBlock it _msizeImportant then ([], Some it, items')
      else let '(block, breaking, rest) := splitBlock _msizeImportant items' in (it :: block, breaking, rest)
  end.

(** [feedItems]: the eliminator and the items that must be fed to a new one. *)
Definition feedItems (e : Eliminator) (items : list AssemblyItem) (_msizeImportant : bool) (cl : ExpressionClasses)
  : Result (list AssemblyItem * (Eliminator * ExpressionClasses)) :=
  match m_breakingItem e with
  | Some _ => Exception
  | None =>
      let '(block, breaking, rest) := splitBlock _msizeImportant items in
      match feedStores block (m_storeOperations e) (m_state e) cl with
      | Ret (stores, (s, cl)) => Ret (rest, (mkEliminator (m_initialState e) s stores breaking, cl))
      | Exception => Exception
      | OutOfFuel => OutOfFuel
      end
  end.

Definition with_jumpType (t : JumpType) (_item : AssemblyItem) : AssemblyItem :=
  mkItem (m_type _item) (m_instruction _item) (m_data _item) (m_location _item) t
    (m_modifierDepth _item) (m_pushedValue _item) (m_immutableOccurrences _item).

(** [optimizeBreakingItem]: the stores and the item that breaks the block. *)
Definition optimizeBreakingItem (breaking : option AssemblyItem) (stores : StoreOperations)
  : K (StoreOperations * option AssemblyItem) :=
  match breaking with
  | None => kret (stores, None)
  | Some b =>
      let loc := m_location b in
      if item_eqb b (opItem JUMPI noLocation) then
        kbind (kget m_stackHeight) (fun height =>
        kbind (stackElement fuel rules (height - 1) loc) (fun condition =>
        kbind (kclasses (fun cl => knownNonZero fuel rules cl condition)) (fun nonZero =>
        if nonZero : bool then
          kbind (feedStore (opItem SWAP1 loc) stores) (fun stores =>
          kbind (feedStore (opItem POP loc) stores) (fun stores =>
          kret (stores, Some (with_jumpType (m_jumpType b) (opItem JUMP loc)))))
        else
          kbind (kquery (fun cl => knownZero cl condition)) (fun zero =>
          if zero : bool then
            kbind (feedStore (opItem POP loc) stores) (fun stores =>
            kbind (feedStore (opItem POP loc) stores) (fun stores => kret (stores, None)))
          else kret (stores, Some b)))))
      else if item_eqb b (opItem RETURN noLocation) then
        kbind (kget m_stackHeight) (fun height =>
        kbind (stackElement fuel rules (height - 1) loc) (fun size =>
        kbind (kquery (fun cl => knownZero cl size)) (fun zero =>
        if zero : bool then
          kbind (feedStore (opItem POP loc) stores) (fun stores =>
          kbind (feedStore (opItem POP loc) stores) (fun stores =>
          kret (stores, Some (opItem STOP loc))))
        else kret (stores, Some b))))
      else kret (stores, Some b)
  end.

(** [m_stackElements] of heights from [height] on: [n] of them. *)
Fixpoint stackContents (n : nat) (height : Z) (contents : gmap Z Z) : K (gmap Z Z) :=
  match n with
  | O => kret contents
  | S n => kbind (stackElement fuel rules height noLocation) (fun c =>
             stackContents n (height + 1) (<[height := c]> contents))
  end.

(** The smallest key, if any. *)
Definition lowest (m : gmap Z Z) : option Z := head (keys m).

(** A [KnownState] operation of the eliminator; what it throws is not caught. *)
Definition from_result {A} (r : Result A) : Generated A :=
  match r with Ret a => Done a | Exception => Throws OptimizerException | OutOfFuel => NoFuel end.

(** [getOptimizedItems]: the items, and the eliminator for the next block. *)
Definition getOptimizedItems (depth : nat) (e : Eliminator) (cl : ExpressionClasses)
  : Generated (list AssemblyItem * (Eliminator * ExpressionClasses)) :=
  match from_result (optimizeBreakingItem (m_breakingItem e) (m_storeOperations e) (m_state e) cl) with
  | Throws err => Throws err
  | NoFuel => NoFuel
  | Done ((stores, breaking), (state, cl)) =>
  match from_result (match breaking with
                     | Some b => kbind (feedItem fuel rules keccak256 b) (fun _ => kret tt) state cl
                     | None => Ret (tt, (state, cl))
                     end) with
  | Throws err => Throws err
  | NoFuel => NoFuel
  | Done (_, (nextState, cl)) =>
  let height := m_stackHeight state in
  let minHeight := match lowest (m_stackElements state) with
                   | Some h => Z.min (height + 1) h
                   | None => height + 1
                   end in
  let initialHeight := m_stackHeight (m_initialState e) in
  match from_result (stackContents (Z.to_nat (initialHeight + 1 - minHeight)) minHeight ∅ (m_initialState e) cl) with
  | Throws err => Throws err
  | NoFuel => NoFuel
  | Done (initialStackContents, (initialState, cl)) =>
  match from_result (stackContents (Z.to_nat (height + 1 - minHeight)) minHeight ∅ state cl) with
  | Throws err => Throws err
  | NoFuel => NoFuel
  | Done (targetStackContents, (state, cl)) =>
  match generateCode depth fuel rules (groupStores stores) (m_sequenceNumber initialState)
          (m_stackHeight initialState) initialStackContents targetStackContents
          (mkGen [] 0 [] ∅ ∅ [] ∅ ∅) cl with
  | Throws err => Throws err
  | NoFuel => NoFuel
  | Done (items, (_, cl)) =>
      Done (items ++ match breaking with Some b => [b] | None => [] end,
            (mkEliminator nextState nextState [] None, cl))
  end end end end end.
End Eliminator.
