(* ===== verification/GasMeter.v ===== *)
(** * GasMeter: gas costs, libevmasm/GasMeter.{h,cpp}

    The cost constants, the cost of simple instructions, the cost of data, and
    [GasConsumption] with its saturating addition and its order.  [estimateMax] is in GasEstimate. *)

From S2P Require Import Prelude U256 CommonData Instruction EVMVersion.

(** [namespace GasCosts]. *)
Module GasCosts.
Definition tier0Gas : Z := 0.
Definition tier1Gas : Z := 2.
Definition tier2Gas : Z := 3.
Definition tier3Gas : Z := 5.
Definition tier4Gas : Z := 8.
Definition tier5Gas : Z := 10.
Definition tier6Gas : Z := 20.
Definition extCodeGas (_evmVersion : EVMVersion) : Z :=
  if version_ge _evmVersion TangerineWhistle then 700 else 20.
Definition balanceGas (_evmVersion : EVMVersion) : Z :=
  if version_ge _evmVersion Istanbul then 700
  else if version_ge _evmVersion TangerineWhistle then 400 else 20.
Definition expGas : Z := 10.
Definition expByteGas (_evmVersion : EVMVersion) : Z :=
  if version_ge _evmVersion SpuriousDragon then 50 else 10.
Definition sloadGas (_evmVersion : EVMVersion) : Z :=
  if version_ge _evmVersion Istanbul then 800
  else if version_ge _evmVersion TangerineWhistle then 200 else 50.
Definition callGas (_evmVersion : EVMVersion) : Z :=
  if version_ge _evmVersion TangerineWhistle then 700 else 40.
Definition selfdestructGas (_evmVersion : EVMVersion) : Z :=
  if version_ge _evmVersion TangerineWhistle then 5000 else 0.
Definition createDataGas : Z := 200.
Definition txDataZeroGas : Z := 4.
Definition txDataNonZeroGas (_evmVersion : EVMVersion) : Z :=
  if version_ge _evmVersion Istanbul then 16 else 68.
Definition copyGas : Z := 3.
Definition keccak256Gas : Z := 30.
Definition keccak256WordGas : Z := 6.
Definition sstoreSetGas : Z := 20000.
Definition sstoreResetGas : Z := 5000.
Definition logGas : Z := 375.
Definition logDataGas : Z := 8.
Definition logTopicGas : Z := 375.
Definition createGas : Z := 32000.
Definition callValueTransferGas : Z := 9000.
Definition callNewAccountGas : Z := 25000.
Definition memoryGas : Z := 3.
Definition quadCoeffDiv : Z := 512.
End GasCosts.

(** [GasMeter::runGas]: throws for a tier without a fixed cost. *)
Definition runGas (_instruction : Instruction) : option Z :=
  if bool_decide (_instruction = JUMPDEST) then Some 1
  else match gasPriceTier (instructionInfo _instruction) with
       | Tier_Zero => Some GasCosts.tier0Gas
       | Tier_Base => Some GasCosts.tier1Gas
       | Tier_VeryLow => Some GasCosts.tier2Gas
       | Tier_Low => Some GasCosts.tier3Gas
       | Tier_Mid => Some GasCosts.tier4Gas
       | Tier_High => Some GasCosts.tier5Gas
       | Tier_Ext => Some GasCosts.tier6Gas
       | _ => None
       end.

(** [GasMeter::dataGas]; the sum is a [bigint]. *)
Definition dataGas (_data : list Z) (_inCreation : bool) (_evmVersion : EVMVersion) : option Z :=
  let gas :=
    if _inCreation
    then fold_left (fun gas b =>
           gas + (if negb (b =? 0) then GasCosts.txDataNonZeroGas _evmVersion else GasCosts.txDataZeroGas))
           _data 0
    else GasCosts.createDataGas * Z.of_nat (length _data) in
  _ ← assertThrow (gas <? u256_max);
  Some (u256 gas).

(** [GasMeter::GasConsumption]. *)
Record GasConsumption : Set := mkGas { value : Z; isInfinite : bool }.

Definition infinite : GasConsumption := mkGas 0 true.

(** [operator+=]. *)
Definition gas_add (self _other : GasConsumption) : GasConsumption :=
  let self := if isInfinite _other && negb (isInfinite self) then infinite else self in
  if isInfinite self then self
  else
    let v := value self + value _other in
    if u256_max <? v then infinite else mkGas (u256 v) (isInfinite self).

(** [operator<]: lexicographic on [(isInfinite, value)]. *)
Definition gas_ltb (self _other : GasConsumption) : bool :=
  match isInfinite self, isInfinite _other with
  | false, true => true
  | true, false => false
  | _, _ => value self <? value _other
  end.

(** ** Laws *)

(** A consumption as the code builds it: a word, and zero when infinite. *)
Definition gas_wf (g : GasConsumption) : Prop :=
  is_u256 (value g) /\ (isInfinite g = true -> value g = 0).

(** The amount; [None] is unbounded. *)
Definition amount (g : GasConsumption) : option Z := if isInfinite g then None else Some (value g).

Lemma amount_inj a b : gas_wf a -> gas_wf b -> amount a = amount b -> a = b.
Proof.
  destruct a as [va []], b as [vb []]; intros [_ Ha] [_ Hb] He; unfold amount in He; simpl in *;
    [|discriminate He..|congruence].
  by rewrite Ha, Hb.
Qed.

(** The sum of two amounts, unbounded from 2^256 on. *)
Definition amount_add (x y : option Z) : option Z :=
  a ← x; b ← y; if a + b <? modulus then Some (a + b) else None.

Lemma gas_add_ok a b :
  gas_wf a -> gas_wf b -> gas_wf (gas_add a b) /\ amount (gas_add a b) = amount_add (amount a) (amount b).
Proof.
  destruct a as [va []], b as [vb []]; intros [Ha Ha0] [Hb Hb0]; simpl in *;
    unfold gas_add; simpl; try done.
  destruct (Z.ltb_spec u256_max (va + vb)) as [Hv|Hv]; unfold amount, amount_add; simpl;
    destruct (Z.ltb_spec (va + vb) modulus); unfold is_u256, u256_max, modulus in *; try lia; try done.
  assert (is_u256 (va + vb)) as Hw by (unfold is_u256, modulus; lia).
  rewrite (u256_id _ Hw). by repeat split; try apply Hw.
Qed.

Lemma amount_add_assoc x y z :
  (forall a, x = Some a \/ y = Some a \/ z = Some a -> 0 <= a) ->
  amount_add (amount_add x y) z = amount_add x (amount_add y z).
Proof.
  intros Hp. destruct x as [a|], y as [b|], z as [c|]; try done; unfold amount_add; simpl;
    try (by destruct (_ <? _)).
  pose proof (Hp a ltac:(auto)). pose proof (Hp b ltac:(auto)). pose proof (Hp c ltac:(auto)).
  repeat (case_match || simpl in * || simplify_eq/=); bool_to_prop; try lia; try (f_equal; lia); done.
Qed.

Lemma amount_add_comm x y : amount_add x y = amount_add y x.
Proof.
  destruct x as [a|], y as [b|]; try done. unfold amount_add. simpl. by rewrite (Z.add_comm b a).
Qed.

Lemma amount_pos g a : gas_wf g -> amount g = Some a -> 0 <= a.
Proof. intros [Hv _]. unfold amount. destruct (isInfinite g); intros [= <-]. apply Hv. Qed.

(** Adding consumptions never wraps: the sum of [operator+=] is the sum of the
    amounts, or infinite when it does not fit a word; it is commutative and associative,
    and no smaller than either operand under [operator<]. *)
Theorem gas_add_saturates a b c :
  gas_wf a -> gas_wf b -> gas_wf c ->
  amount (gas_add a b) = amount_add (amount a) (amount b) /\
  gas_add a b = gas_add b a /\
  gas_add (gas_add a b) c = gas_add a (gas_add b c) /\
  gas_ltb (gas_add a b) a = false.
Proof.
  intros Ha Hb Hc. destruct (gas_add_ok a b Ha Hb) as [Hab Eab]. destruct (gas_add_ok b a Hb Ha) as [Hba Eba].
  destruct (gas_add_ok b c Hb Hc) as [Hbc Ebc].
  destruct (gas_add_ok _ c Hab Hc) as [Habc Eabc]. destruct (gas_add_ok a _ Ha Hbc) as [Habc' Eabc'].
  split_and!; [done| | |].
  - apply amount_inj; [done..|]. by rewrite Eab, Eba, amount_add_comm.
  - apply amount_inj; [done..|]. rewrite Eabc, Eabc', Eab, Ebc. apply amount_add_assoc.
    intros x [H|[H|H]]; by eapply amount_pos, H.
  - destruct a as [va []], b as [vb []]; unfold gas_add, gas_ltb; simpl; try done; try apply Z.ltb_irrefl.
    destruct Ha as [[Ha _] _], Hb as [[Hb _] _]; simpl in *.
    destruct (Z.ltb_spec u256_max (va + vb)); simpl; [done|]. apply Z.ltb_ge.
    rewrite u256_id by (unfold is_u256, u256_max, modulus in *; lia). lia.
Qed.

Lemma gas_add_saturates_witness :
  gas_add (mkGas u256_max false) (mkGas 1 false) = infinite /\
  amount (gas_add (mkGas u256_max false) (mkGas 1 false)) = amount_add (Some u256_max) (Some 1) /\
  gas_ltb (gas_add (mkGas u256_max false) (mkGas 1 false)) (mkGas u256_max false) = false.
Proof.
  assert (gas_wf (mkGas u256_max false) /\ gas_wf (mkGas 1 false) /\ gas_wf infinite) as (Ha & Hb & Hc)
    by (repeat split; done).
  destruct (gas_add_saturates _ _ _ Ha Hb Hc) as (H1 & _ & _ & H4).
  split; [reflexivity|]. by split.
Defined.

(** [runGas] throws exactly for the instructions whose cost depends on the version
    or the operands, the five signal instructions (which [estimateMax] hands to it: it has
    no case for them), and the EIP-615 instructions, which have no row in the table. *)
Theorem runGas_throws i :
  runGas i = None <->
  In i ([EXP; KECCAK256; BALANCE; EXTCODESIZE; EXTCODECOPY; EXTCODEHASH; SLOAD; SSTORE;
         LOG0; LOG1; LOG2; LOG3; LOG4; CREATE; CALL; CALLCODE; DELEGATECALL; CREATE2;
         STATICCALL; SELFDESTRUCT]
     ++ [CREATESIGNAL; SIGBIND; SIGDETACH; SIGEMIT; DELETESIGNAL]
     ++ [EIP615_JUMPTO; EIP615_JUMPIF; EIP615_JUMPV; EIP615_JUMPSUB; EIP615_JUMPSUBV;
         EIP615_BEGINSUB; EIP615_BEGINDATA; EIP615_RETURNSUB; EIP615_PUTLOCAL;
         EIP615_GETLOCAL]).
Proof.
  rewrite <- list_elem_of_In, <- (bool_decide_eq_true (i ∈ _)).
  destruct i; vm_compute; split; congruence.
Qed.

Lemma dataGas_sum l v acc :
  let cost b := if negb (b =? 0) then GasCosts.txDataNonZeroGas v else GasCosts.txDataZeroGas in
  let sum := fold_left (fun gas b => gas + cost b) l acc in
  acc + 4 * Z.of_nat (length l) <= sum <= acc + 68 * Z.of_nat (length l).
Proof.
  revert acc. induction l as [|b l IH]; intros acc cost; [simpl; lia|].
  cbn [fold_left length]. specialize (IH (acc + cost b)). fold cost in IH.
  assert (4 <= cost b <= 68) as Hc.
  { unfold cost, GasCosts.txDataZeroGas, GasCosts.txDataNonZeroGas. repeat case_match; lia. }
  cbn zeta in IH |- *. lia.
Qed.

(** The cost of data of any practical size. *)
Lemma dataGas_returns l b v :
  Z.of_nat (length l) < 2 ^ 64 ->
  exists g, dataGas l b v = Some g /\ 4 * Z.of_nat (length l) <= g <= 200 * Z.of_nat (length l).
Proof.
  intros Hl. unfold dataGas. set (gas := if b then _ else _).
  assert (4 * Z.of_nat (length l) <= gas <= 200 * Z.of_nat (length l)) as Hg.
  { unfold gas. destruct b; [|unfold GasCosts.createDataGas; lia].
    pose proof (dataGas_sum l v 0) as H. cbn zeta in H. lia. }
  clearbody gas. assert (gas < u256_max) as Hm by (unfold u256_max, modulus; lia).
  rewrite (proj2 (Z.ltb_lt _ _) Hm). simpl. exists gas. split; [|done]. f_equal. apply u256_id.
  unfold is_u256, u256_max, modulus in *. lia.
Qed.
