(* ===== verification/GasEstimate.v ===== *)
(** * GasEstimate: GasMeter::estimateMax, libevmasm/GasMeter.cpp:42-254

    The meter works on a [KnownState] that it feeds with every item, and keeps the largest position
    of the memory accessed, which is threaded through the operations as an argument and a result.
    A cost of more than 256 bits wraps where the source computes with [u256]. *)

From S2P Require Import Prelude U256 CommonData Instruction EVMVersion AssemblyItem Pattern SimplificationRules ExpressionClasses KnownState GasMeter.

(** [GasConsumption(unsigned)] and [GasConsumption(u256)]. *)
Definition gas (n : Z) : GasConsumption := mkGas n false.

(** The cost of memory up to a position, the [memGas] of [memoryGas(Id)]. *)
Definition memGas (pos : Z) : Z :=
  let size := u256_add pos 31 / 32 in
  u256_add (u256_mul GasCosts.memoryGas size) (u256_mul size size / GasCosts.quadCoeffDiv).

Section Meter.
Context (fuel : nat) (rules : RuleTable) (keccak256 : list Z -> Z) (m_evmVersion : EVMVersion).
Local Open Scope known_scope.

(** A call that may throw. *)
Definition klift {A} (o : option A) : K A := fun s cl =>
  match o with Some a => Ret (a, (s, cl)) | None => Exception end.

Definition relative (_stackOffset : Z) : K Z := relativeStackElement fuel rules _stackOffset noLocation.

Definition knownValue (_c : Z) : K (option Z) := kquery (fun cl => knownConstant cl _c).

(** [wordGas]. *)
Definition wordGas (_multiplier _value : Z) : K GasConsumption :=
  value <-- knownValue _value ;;
  match value with
  | None => kret infinite
  | Some value => kret (gas (u256_mul _multiplier (u256_add value 31 / 32)))
  end.

(** [memoryGas(Id)]: the cost, and the largest position from then on. *)
Definition memoryGasAt (_position m_largestMemoryAccess : Z) : K (GasConsumption * Z) :=
  value <-- knownValue _position ;;
  match value with
  | None => kret (infinite, m_largestMemoryAccess)
  | Some value =>
      if value <? m_largestMemoryAccess then kret (gas 0, m_largestMemoryAccess)
      else kret (gas (u256_sub (memGas value) (memGas m_largestMemoryAccess)), value)
  end.

(** [memoryGas(int, int)]. *)
Definition memoryGasOf (_stackPosOffset _stackPosSize m_largestMemoryAccess : Z) : K (GasConsumption * Z) :=
  size <-- relative _stackPosSize ;;
  zero <-- kquery (fun cl => knownZero cl size) ;;
  if zero : bool then kret (gas 0, m_largestMemoryAccess)
  else
    offset <-- relative _stackPosOffset ;;
    size <-- relative _stackPosSize ;;
    position <-- findClass fuel rules 0 (opItem ADD noLocation) [offset; size] ;;
    memoryGasAt position m_largestMemoryAccess.

(** [gas += memoryGas(...)]. *)
Definition plus (g : GasConsumption) (m : K (GasConsumption * Z)) : K (GasConsumption * Z) :=
  r <-- m ;; kret (gas_add g (fst r), snd r).

(** [gas += memoryGas(find(ADD, {relativeStackElement(0), find(AssemblyItem(n))}))]. *)
Definition accessGas (n : Z) (g : GasConsumption) (largest : Z) : K (GasConsumption * Z) :=
  offset <-- relative 0 ;;
  size <-- findClass fuel rules 0 (dataItem Push n noLocation) [] ;;
  position <-- findClass fuel rules 0 (opItem ADD noLocation) [offset; size] ;;
  plus g (memoryGasAt position largest).

(** The cases of SSTORE, LOG and EXP. *)
Definition sstoreGas : K GasConsumption :=
  slot <-- relative 0 ;;
  value <-- relative (-1) ;;
  zero <-- kquery (fun cl => knownZero cl value) ;;
  if zero : bool then kret (gas GasCosts.sstoreResetGas)
  else
    content <-- kget (fun s => m_storageContent s !! slot) ;;
    match content with
    | None => kret (gas GasCosts.sstoreSetGas)
    | Some c =>
        nonZero <-- kclasses (fun cl => knownNonZero fuel rules cl c) ;;
        kret (gas (if nonZero : bool then GasCosts.sstoreResetGas else GasCosts.sstoreSetGas))
    end.

Definition logGas (_instruction : Instruction) (largest : Z) : K (GasConsumption * Z) :=
  r <-- plus (gas (GasCosts.logGas + GasCosts.logTopicGas * getLogNumber _instruction)) (memoryGasOf 0 (-1) largest) ;;
  size <-- relative (-1) ;;
  value <-- knownValue size ;;
  kret (match value with
        | Some value => gas_add (fst r) (gas (u256_mul GasCosts.logDataGas value))
        | None => infinite
        end, snd r).

Definition expGas : K GasConsumption :=
  exponent <-- relative (-1) ;;
  value <-- knownValue exponent ;;
  kret (match value with
        | Some value =>
            if value =? 0 then gas GasCosts.expGas
            else
              let significantByteCount := (Z.log2 value + 1 + 7) / 8 in
              gas_add (gas GasCosts.expGas) (gas (GasCosts.expByteGas m_evmVersion * significantByteCount))
        | None => gas_add (gas GasCosts.expGas) (gas (GasCosts.expByteGas m_evmVersion * 32))
        end).

(** The case of the calls, when the costs of other contracts are not included. *)
Definition callGas (_instruction : Instruction) (largest : Z) : K (GasConsumption * Z) :=
  c <-- relative 0 ;;
  value <-- knownValue c ;;
  let g := match value with
           | Some value => gas_add (gas (GasCosts.callGas m_evmVersion)) (gas value)
           | None => infinite
           end in
  let g := match _instruction with CALL => gas_add g (gas GasCosts.callNewAccountGas) | _ => g end in
  let valueSize := match _instruction with DELEGATECALL | STATICCALL => 0 | _ => 1 end in
  g <-- (if valueSize =? 0 then kret g
         else
           c <-- relative (-1 - valueSize) ;;
           zero <-- kquery (fun cl => knownZero cl c) ;;
           kret (if zero : bool then g else gas_add g (gas GasCosts.callValueTransferGas))) ;;
  r <-- plus g (memoryGasOf (-2 - valueSize) (-3 - valueSize) largest) ;;
  plus (fst r) (memoryGasOf (-4 - valueSize) (-5 - valueSize) (snd r)).

(** [gas = runGas(instruction)]. *)
Definition run (_instruction : Instruction) : K GasConsumption := n <-- klift (runGas _instruction) ;; kret (gas n).

(** A cost without memory, or with words of memory copied or hashed. *)
Definition only (largest : Z) (m : K GasConsumption) : K (GasConsumption * Z) := g <-- m ;; kret (g, largest).
Definition words (multiplier offset : Z) (m : K (GasConsumption * Z)) : K (GasConsumption * Z) :=
  r <-- m ;;
  size <-- relative offset ;;
  w <-- wordGas multiplier size ;;
  kret (gas_add (fst r) w, snd r).

(** The [switch] of [estimateMax] on the instruction. *)
Definition instructionGas (_instruction : Instruction) (_includeExternalCosts : bool) (largest : Z) : K (GasConsumption * Z) :=
  match _instruction with
  | SSTORE => only largest sstoreGas
  | SLOAD => kret (gas (GasCosts.sloadGas m_evmVersion), largest)
  | RETURN | REVERT => g <-- run _instruction ;; plus g (memoryGasOf 0 (-1) largest)
  | MLOAD | MSTORE => g <-- run _instruction ;; accessGas 32 g largest
  | MSTORE8 => g <-- run _instruction ;; accessGas 1 g largest
  | KECCAK256 =>
      words GasCosts.keccak256WordGas (-1) (plus (gas GasCosts.keccak256Gas) (memoryGasOf 0 (-1) largest))
  | CALLDATACOPY | CODECOPY | RETURNDATACOPY =>
      g <-- run _instruction ;; words GasCosts.copyGas (-2) (plus g (memoryGasOf 0 (-2) largest))
  | EXTCODESIZE => kret (gas (GasCosts.extCodeGas m_evmVersion), largest)
  | EXTCODEHASH | BALANCE => kret (gas (GasCosts.balanceGas m_evmVersion), largest)
  | EXTCODECOPY =>
      words GasCosts.copyGas (-3) (plus (gas (GasCosts.extCodeGas m_evmVersion)) (memoryGasOf (-1) (-3) largest))
  | LOG0 | LOG1 | LOG2 | LOG3 | LOG4 => logGas _instruction largest
  | CALL | CALLCODE | DELEGATECALL | STATICCALL =>
      if _includeExternalCosts then kret (infinite, largest) else callGas _instruction largest
  | SELFDESTRUCT =>
      kret (gas_add (gas (GasCosts.selfdestructGas m_evmVersion)) (gas GasCosts.callNewAccountGas), largest)
  | CREATE | CREATE2 =>
      if _includeExternalCosts then kret (infinite, largest)
      else plus (gas GasCosts.createGas) (memoryGasOf (-1) (-2) largest)
  | EXP => only largest expGas
  | _ => only largest (run _instruction)
  end.

(** The cost of an item, before it is fed. *)
Definition itemGas (_item : AssemblyItem) (_includeExternalCosts : bool) (largest : Z) : K (GasConsumption * Z) :=
  match m_type _item with
  | Push | PushTag | PushData | PushString | PushSub | PushSubSize | PushProgramSize | PushLibraryAddress
  | PushDeployTimeAddress => only largest (run PUSH1)
  | Tag => only largest (run JUMPDEST)
  | Operation => instructionGas (m_instruction _item) _includeExternalCosts largest
  | _ => kret (infinite, largest)
  end.

(** [estimateMax]. *)
Definition estimateMax (_item : AssemblyItem) (_includeExternalCosts : bool) (largest : Z) : K (GasConsumption * Z) :=
  r <-- itemGas _item _includeExternalCosts largest ;;
  feedItem fuel rules keccak256 _item ;;;
  kret r.
End Meter.
