(* ===== verification/PathGasMeter.v ===== *)
(** * PathGasMeter: the paths of the gas estimation, libevmasm/PathGasMeter.{h,cpp}

    The meter follows the items from a position on, queues a path for every tag a jump may go to,
    and takes the largest cost a path ends with.  The states of the paths share their expression
    classes, which are threaded through all operations.  [handleQueue] is the loop of
    [estimateMax]: [None] says that [steps] did not suffice. *)

From stdpp Require Import sorting.
From S2P Require Import Prelude U256 Instruction EVMVersion AssemblyItem SemanticInformation Pattern SimplificationRules ExpressionClasses KnownState GasMeter GasEstimate.

Record GasPath := mkPath {
  index : nat;
  state : KnownState;
  largestMemoryAccess : Z;
  path_gas : GasConsumption;
  visitedJumpdests : gset nat }.

Record PathGasMeter := mkMeter {
  m_queue : gmap nat GasPath;
  m_highestGasUsagePerJumpdest : gmap nat GasConsumption }.

(** The largest key of a map, [rbegin]. *)
Definition last_key {A} (m : gmap nat A) : option nat :=
  fold_right (fun p k => Some (match k with Some k => Nat.max (fst p) k | None => fst p end)) None (map_to_list m).

(** [std::max]. *)
Definition gas_max (a b : GasConsumption) : GasConsumption := if gas_ltb a b then b else a.

(** [queue]: a path with less gas than the highest so far is dropped. *)
Definition queue (_newPath : GasPath) (m : PathGasMeter) : PathGasMeter :=
  let i := index _newPath in
  if match m_highestGasUsagePerJumpdest m !! i with
     | Some highest => gas_ltb (path_gas _newPath) highest
     | None => false
     end
  then m
  else mkMeter (<[i := _newPath]> (m_queue m)) (<[i := path_gas _newPath]> (m_highestGasUsagePerJumpdest m)).

(** What the loop of [handleQueueItem] does about an item before its cost is added: it gives up,
    or goes on, where the path may stop and paths to the tags are queued. *)
Inductive Step := GiveUp | Proceed (branchStops : bool) (jumpTags : gset Z) (visited : gset nat).

Section Path.
Context (fuel : nat) (rules : RuleTable) (keccak256 : list Z -> Z).
Context (m_items : list AssemblyItem) (m_evmVersion : EVMVersion).
Local Open Scope known_scope.

(** The constructor: the position of a tag is the last one. *)
Definition m_tagPositions : gmap Z nat :=
  foldl (fun m p => if bool_decide (m_type (snd p) = Tag) then <[m_data (snd p) := fst p]> m else m) ∅
    (imap (fun i it => (i, it)) m_items).

(** The tags of the jump destination; [None] if there is none. *)
Definition destinations : K (option (gset Z)) :=
  target <-- relative fuel rules 0 ;;
  tags <-- tagsInExpression target ;;
  kret (if bool_decide (tags = ∅) then None else Some tags).

Definition beforeItem (item : AssemblyItem) (i : nat) (visited : gset nat) : K Step :=
  if bool_decide (m_type item = Tag) || item_eqb item (opItem JUMPDEST noLocation) then
    kret (if bool_decide (i ∈ visited) then GiveUp else Proceed false ∅ ({[ i ]} ∪ visited))
  else if item_eqb item (opItem JUMP noLocation) then
    tags <-- destinations ;;
    kret (match tags with Some tags => Proceed true tags visited | None => GiveUp end)
  else if item_eqb item (opItem JUMPI noLocation) then
    condition <-- relative fuel rules (-1) ;;
    nonZero <-- kclasses (fun cl => knownNonZero fuel rules cl condition) ;;
    zero <-- (if nonZero : bool then kret false else kquery (fun cl => knownZero cl condition)) ;;
    tags <-- (if zero : bool then kret (Some ∅) else destinations) ;;
    match tags with
    | None => kret GiveUp
    | Some tags =>
        stops <-- kclasses (fun cl => knownNonZero fuel rules cl condition) ;;
        kret (Proceed stops tags visited)
    end
  else kret (Proceed (altersControlFlow item) ∅ visited).

(** The paths to the tags; an unknown tag is a position past the items. *)
Definition queueTags (tags : gset Z) (s : KnownState) (largest : Z) (gas : GasConsumption) (visited : gset nat)
    (m : PathGasMeter) : PathGasMeter :=
  fold_left (fun m tag => queue (mkPath (default (length m_items) (m_tagPositions !! tag)) s largest gas visited) m)
    (merge_sort Z.le (elements tags)) m.

(** The loop of [handleQueueItem] on the items from [i] on. *)
Fixpoint walk (items : list AssemblyItem) (i : nat) (largest : Z) (gas : GasConsumption) (visited : gset nat)
    (m : PathGasMeter) : K (GasConsumption * PathGasMeter) :=
  match items with
  | [] => kret (gas, m)
  | item :: items =>
      if isInfinite gas then kret (gas, m)
      else
        step <-- beforeItem item i visited ;;
        match step with
        | GiveUp => kret (infinite, m)
        | Proceed branchStops jumpTags visited =>
            r <-- estimateMax fuel rules keccak256 m_evmVersion item true largest ;;
            s <-- kget (fun s => s) ;;
            let gas := gas_add gas (fst r) in
            let m := queueTags jumpTags s (snd r) gas visited m in
            if branchStops then kret (gas, m) else walk items (S i) (snd r) gas visited m
        end
  end.

(** A path may start at the first item or at a tag. *)
Definition startsPath (i : nat) : bool :=
  match m_items !! i with
  | Some it => Nat.eqb i 0 || bool_decide (m_type it = Tag)
  | None => false
  end.

Definition handleQueueItem (m : PathGasMeter) (cl : ExpressionClasses)
    : Result ((GasConsumption * PathGasMeter) * ExpressionClasses) :=
  match (k ← last_key (m_queue m); m_queue m !! k) with
  | None => Exception
  | Some path =>
      let m := mkMeter (delete (index path) (m_queue m)) (m_highestGasUsagePerJumpdest m) in
      if startsPath (index path) then
        match walk (drop (index path) m_items) (index path) (largestMemoryAccess path) (path_gas path)
                (visitedJumpdests path) m (state path) cl with
        | Ret (r, (_, cl)) => Ret (r, cl)
        | Exception => Exception
        | OutOfFuel => OutOfFuel
        end
      else Ret ((path_gas path, m), cl)
  end.

(** The loop of [estimateMax]. *)
Fixpoint handleQueue (steps : nat) (gas : GasConsumption) (m : PathGasMeter) (cl : ExpressionClasses)
    : Result (option GasConsumption * ExpressionClasses) :=
  if bool_decide (m_queue m = ∅) || isInfinite gas then Ret (Some gas, cl)
  else
    match steps with
    | O => Ret (None, cl)
    | S steps =>
        match handleQueueItem m cl with
        | Ret ((g, m), cl) => handleQueue steps (gas_max gas g) m cl
        | Exception => Exception
        | OutOfFuel => OutOfFuel
        end
    end.
End Path.

(** [estimateMax(items, version, startIndex, state)]. *)
Definition pathEstimate (fuel steps : nat) (rules : RuleTable) (keccak256 : list Z -> Z) (_items : list AssemblyItem)
    (_evmVersion : EVMVersion) (_startIndex : nat) (_state : KnownState) (cl : ExpressionClasses)
    : Result (option GasConsumption * ExpressionClasses) :=
  handleQueue fuel rules keccak256 _items _evmVersion steps (gas 0)
    (queue (mkPath _startIndex _state 0 (gas 0) ∅) (mkMeter ∅ ∅)) cl.
