(* ===== verification/PathGasQueue.v ===== *)
(** * PathGasQueue: the paths of PathGasMeter come to an end

    A path that a walk queues has visited more jump destinations than the path it comes from, and
    the queue holds one path for every position: a path weighs more than all the paths it can put
    in the queue, so the weight of the queue decreases with every path that is handled. *)

From stdpp Require Import sorting.
From S2P Require Import Prelude U256 Instruction EVMVersion AssemblyItem SemanticInformation Pattern SimplificationRules ExpressionClasses KnownState GasMeter GasEstimate PathGasMeter.

Section Sums.
Definition total (f : nat -> nat) (n : nat) : nat := sum_list_with f (seq 0 n).

Lemma total_le f g n : (forall k, (k < n)%nat -> (f k <= g k)%nat) -> (total f n <= total g n)%nat.
Proof.
  unfold total. intros Hle. assert (forall l, (forall k, In k l -> (k < n)%nat) ->
    (sum_list_with f l <= sum_list_with g l)%nat) as Hl.
  { induction l as [|k l IH]; intros Hin; cbn [sum_list_with]; [lia|].
    specialize (Hle k (Hin k (or_introl eq_refl))). specialize (IH (fun j Hj => Hin j (or_intror Hj))). lia. }
  apply Hl. intros k Hk. apply in_seq in Hk. lia.
Qed.

Lemma total_plus f c n : total (fun k => (f k + c)%nat) n = (total f n + n * c)%nat.
Proof.
  unfold total. assert (forall l, sum_list_with (fun k => (f k + c)%nat) l = (sum_list_with f l + length l * c)%nat) as Hl.
  { induction l as [|k l IH]; cbn [sum_list_with length]; lia. }
  by rewrite Hl, length_seq.
Qed.

(** A sum without one of its terms. *)
Lemma total_without f k n :
  (k < n)%nat -> (total (fun j => if Nat.eqb j k then 0 else f j) n + f k <= total f n)%nat.
Proof.
  unfold total. intros Hk. assert (In k (seq 0 n)) as Hin by (apply in_seq; lia). revert Hin.
  generalize (seq 0 n). clear Hk. intros l Hin.
  assert (forall l, (sum_list_with (fun j => if Nat.eqb j k then 0 else f j) l <= sum_list_with f l)%nat) as Hle.
  { clear. induction l as [|j l IH]; cbn [sum_list_with]; [lia|]. destruct (Nat.eqb j k); lia. }
  induction l as [|j l IH]; [destruct Hin|]. cbn [sum_list_with]. destruct (Nat.eqb_spec j k) as [->|Hne].
  - specialize (Hle l). lia.
  - destruct Hin as [->|Hin]; [done|]. specialize (IH Hin). lia.
Qed.

(** A sum with one term. *)
Lemma total_one f k n : (forall j, j <> k -> f j = 0%nat) -> (total f n <= f k)%nat.
Proof.
  unfold total. intros Hf. assert (NoDup (seq 0 n)) as Hnd by apply NoDup_seq. revert Hnd. generalize (seq 0 n). clear n.
  intros l Hnd. assert (forall l, ~ In k l -> sum_list_with f l = 0%nat) as Hz.
  { clear l Hnd. induction l as [|j l IH]; intros Hin; cbn [sum_list_with]; [done|].
    rewrite Hf by (intros ->; apply Hin; by left). apply IH. intros Hj. apply Hin. by right. }
  induction Hnd as [|j l Hj Hnd IH]; cbn [sum_list_with]; [lia|]. destruct (decide (j = k)) as [->|Hne].
  - rewrite Hz by (intros Hin; apply Hj; by apply list_elem_of_In). lia.
  - rewrite (Hf j Hne). lia.
Qed.
End Sums.

Section Paths.
Context (fuel : nat) (rules : RuleTable) (keccak256 : list Z -> Z) (m_items : list AssemblyItem) (version : EVMVersion).

Local Abbreviation len := (length m_items).
Local Abbreviation walk := (walk fuel rules keccak256 m_items version).
Local Abbreviation startsPath := (startsPath m_items).

Definition tagAt (k : nat) : Prop := exists it, m_items !! k = Some it /\ m_type it = Tag.

Lemma m_tagPositions_tag tag k : m_tagPositions m_items !! tag = Some k -> tagAt k.
Proof using.
  unfold m_tagPositions.
  assert (forall l (m : gmap Z nat), (forall j it, In (j, it) l -> m_items !! j = Some it) ->
    (forall j, m !! tag = Some j -> tagAt j) ->
    foldl (fun m p => if bool_decide (m_type (snd p) = Tag) then <[m_data (snd p) := fst p]> m else m) m l !! tag = Some k ->
    tagAt k) as Hl.
  { induction l as [|[j it] l IH]; intros m Hin Hm; cbn [foldl]; [apply Hm|]. apply IH; [intros; apply Hin; by right|].
    cbn [fst snd]. destruct (bool_decide_reflect (m_type it = Tag)) as [Ht|]; [|done].
    intros j'. destruct (decide (m_data it = tag)) as [<-|Hne].
    - rewrite lookup_insert_eq. intros [= <-]. exists it. split; [apply Hin; by left|done].
    - rewrite lookup_insert_ne by done. apply Hm. }
  apply Hl; [|intros j; by rewrite lookup_empty]. intros j it Hin. apply list_elem_of_In, elem_of_lookup_imap in Hin as (i & x & [= -> ->] & Hx).
  done.
Qed.

(** A path queued by a walk with the visited destinations [visited]. *)
Definition child (visited : gset nat) (k : nat) (p : GasPath) : Prop :=
  index p = k /\ (k = len \/ tagAt k) /\ visited ⊆ visitedJumpdests p /\
  forall j, j ∈ visitedJumpdests p -> (j < len)%nat.

(** [m'] is [m] with more paths, or other paths, queued. *)
Definition queued (visited : gset nat) (m m' : PathGasMeter) : Prop :=
  forall k, m_queue m' !! k = m_queue m !! k \/ exists p, m_queue m' !! k = Some p /\ child visited k p.

Lemma queued_refl visited m : queued visited m m.
Proof using. intros k. by left. Qed.

Lemma queued_trans visited m1 m2 m3 : queued visited m1 m2 -> queued visited m2 m3 -> queued visited m1 m3.
Proof using. intros H1 H2 k. destruct (H2 k) as [->|]; [apply H1|by right]. Qed.

Lemma queued_subseteq v v' m m' : v ⊆ v' -> queued v' m m' -> queued v m m'.
Proof using.
  intros Hv Hq k. destruct (Hq k) as [Hk|(p & Hp & Hi & Ht & Hs & Hr)]; [by left|right]. exists p.
  split; [done|]. split; [done|]. split; [done|]. split; [set_solver|done].
Qed.

Lemma queue_queued visited p m : child visited (index p) p -> queued visited m (queue p m).
Proof using.
  intros Hc k. unfold queue. destruct (match _ with Some _ => _ | None => _ end); [by left|]. cbn [m_queue].
  destruct (decide (index p = k)) as [<-|Hne]; [rewrite lookup_insert_eq; right; by exists p|].
  rewrite lookup_insert_ne by done. by left.
Qed.

Lemma queueTags_queued tags s largest gas visited m :
  (forall j, j ∈ visited -> (j < len)%nat) -> queued visited m (queueTags m_items tags s largest gas visited m).
Proof using.
  intros Hv. unfold queueTags. revert m. induction (merge_sort Z.le (elements tags)) as [|tag l IH]; intros m; [apply queued_refl|].
  cbn [fold_left]. eapply queued_trans; [|apply IH]. apply queue_queued. split; [done|]. split; [|by split].
  cbn [index]. destruct (m_tagPositions m_items !! tag) as [k|] eqn:E; [right; by apply (m_tagPositions_tag tag)|by left].
Qed.

(** The destinations visited after an item. *)
Lemma beforeItem_visited item i visited s cl b tags v r :
  beforeItem fuel rules item i visited s cl = Ret (Proceed b tags v, r) -> visited ⊆ v /\ v ⊆ {[ i ]} ∪ visited.
Proof using.
  unfold beforeItem. intros E.
  repeat (match type of E with
          | kret _ _ _ = _ => unfold kret in E
          | kbind ?m _ _ _ = _ =>
              let H := fresh in unfold kbind at 1 in E; destruct m as [[? [? ?]]| |] eqn:H; cbn beta iota in E; clear H
          | (if ?b then _ else _) _ _ = _ => destruct b
          | (match ?o with Some _ => _ | None => _ end) _ _ = _ => destruct o
          | Ret (if ?b then _ else _, _) = _ => destruct b
          | Ret (match ?o with Some _ => _ | None => _ end, _) = _ => destruct o
          | _ => discriminate E
          | _ => injection E as <- <- <- <-; set_solver
          end).
Qed.

Lemma walk_queued items : forall i largest gas visited m s cl g m' r,
  (i + length items <= len)%nat -> (forall j, j ∈ visited -> (j < len)%nat) ->
  walk items i largest gas visited m s cl = Ret ((g, m'), r) -> queued visited m m'.
Proof using.
  induction items as [|item items IH]; intros i largest gas visited m s cl g m' r Hi Hv; cbn [PathGasMeter.walk length] in *.
  { intros [= <- <- <-]. apply queued_refl. }
  destruct (isInfinite gas); [intros [= <- <- <-]; apply queued_refl|]. unfold kbind at 1.
  destruct (beforeItem fuel rules item i visited s cl) as [[step [s1 cl1]]| |] eqn:Hstep; [|done..].
  destruct step as [|b tags v]; [intros [= <- <- <-]; apply queued_refl|].
  destruct (beforeItem_visited _ _ _ _ _ _ _ _ _ Hstep) as [Hs1 Hs2]. unfold kbind at 1.
  destruct (estimateMax _ _ _ _ _ _ _ _ _) as [[e [s2 cl2]]| |]; [|done..]. unfold kbind, kget.
  assert (forall j, j ∈ v -> (j < len)%nat) as Hv'.
  { intros j Hj. apply Hs2 in Hj. apply elem_of_union in Hj as [Hj|Hj]; [|by apply Hv]. apply elem_of_singleton in Hj. lia. }
  pose proof (queueTags_queued tags s2 (snd e) (gas_add gas (fst e)) v m Hv') as Hq.
  intros E. apply (queued_subseteq visited v); [done|]. destruct b; [injection E as <- <- <-; exact Hq|].
  eapply queued_trans; [exact Hq|]. eapply IH; [|exact Hv'|exact E]. lia.
Qed.
(** ** The weight of the queue *)

Definition Paths (m : PathGasMeter) : Prop :=
  forall k p, m_queue m !! k = Some p ->
    index p = k /\ (k <= len)%nat /\ forall j, j ∈ visitedJumpdests p -> (j < len)%nat.

(** How many more paths can follow one another from a path. *)
Definition rank (p : GasPath) : nat :=
  len - size (visitedJumpdests p) +
  match m_items !! index p with Some it => if bool_decide (m_type it = Tag) then 0 else 1 | None => 0 end.

Definition weight (m : PathGasMeter) (k : nat) : nat :=
  match m_queue m !! k with Some p => (len + 2) ^ rank p | None => 0 end.

Lemma visited_size (s : gset nat) : (forall j, j ∈ s -> (j < len)%nat) -> (size s <= len)%nat.
Proof using.
  intros Hs. rewrite <- (size_set_seq (C := gset nat) 0 len). apply subseteq_size.
  intros j Hj. apply elem_of_set_seq. specialize (Hs j Hj). lia.
Qed.

Lemma tagAt_rank q k : index q = k -> k = len \/ tagAt k -> rank q = (len - size (visitedJumpdests q))%nat.
Proof using.
  intros <- Hk. unfold rank. destruct Hk as [->|(it & -> & Ht)].
  - rewrite lookup_ge_None_2 by done. lia.
  - rewrite (bool_decide_eq_true_2 _ Ht). lia.
Qed.

(** A child of a path that starts, with the position of a tag visited. *)
Lemma child_rank p it k q :
  m_items !! index p = Some it -> (forall j, j ∈ visitedJumpdests p -> (j < len)%nat) ->
  (m_type it = Tag -> index p ∉ visitedJumpdests p) ->
  child (if bool_decide (m_type it = Tag) then {[ index p ]} ∪ visitedJumpdests p else visitedJumpdests p) k q ->
  (rank q < rank p)%nat.
Proof using.
  intros Hit Hv Hnew (Hi & Hk & Hs & Hq). rewrite (tagAt_rank q k Hi Hk). unfold rank. rewrite Hit.
  pose proof (visited_size _ Hq) as Hlen. apply subseteq_size in Hs. pose proof (visited_size _ Hv).
  destruct (bool_decide_reflect (m_type it = Tag)) as [Ht|_]; [|lia].
  rewrite size_union, size_singleton in Hs by (specialize (Hnew Ht); set_solver). lia.
Qed.

(** What the walk of a path puts in the queue. *)
Lemma walk_ranks p m s cl g m' r :
  startsPath (index p) = true -> (forall j, j ∈ visitedJumpdests p -> (j < len)%nat) ->
  walk (drop (index p) m_items) (index p) (largestMemoryAccess p) (path_gas p) (visitedJumpdests p) m s cl = Ret ((g, m'), r) ->
  forall k, m_queue m' !! k = m_queue m !! k \/
    exists q, m_queue m' !! k = Some q /\ (rank q < rank p)%nat /\ index q = k /\ (k <= len)%nat /\
      forall j, j ∈ visitedJumpdests q -> (j < len)%nat.
Proof using.
  intros Hstart Hv Hw. unfold PathGasMeter.startsPath in Hstart.
  destruct (m_items !! index p) as [it|] eqn:Hit; [|discriminate Hstart].
  pose proof (lookup_lt_Some _ _ _ Hit) as Hlt. rewrite (drop_S _ _ _ Hit) in Hw.
  set (visited := if bool_decide (m_type it = Tag) then {[ index p ]} ∪ visitedJumpdests p else visitedJumpdests p).
  assert (m' = m \/ (m_type it = Tag -> index p ∉ visitedJumpdests p) /\ queued visited m m') as [->|[Hnew Hq]]; [| |].
  - unfold visited. destruct (bool_decide_reflect (m_type it = Tag)) as [Ht|Ht].
    2: { right. split; [done|]. eapply walk_queued; [|exact Hv|exact Hw]. cbn [length]. rewrite length_drop. lia. }
    cbn [PathGasMeter.walk] in Hw. destruct (isInfinite (path_gas p)); [injection Hw as <- <- <-; by left|].
    unfold beforeItem in Hw. rewrite (bool_decide_eq_true_2 _ Ht) in Hw. cbn [orb] in Hw. unfold kbind at 1 in Hw. cbn [kret] in Hw.
    destruct (bool_decide_reflect (index p ∈ visitedJumpdests p)) as [Hin|Hin]; [injection Hw as <- <- <-; by left|].
    right. split; [done|]. unfold kbind at 1 in Hw.
    destruct (estimateMax _ _ _ _ _ _ _ _ _) as [[e [s2 cl2]]| |]; [|discriminate Hw..]. unfold kbind, kget in Hw.
    unfold queueTags in Hw. rewrite elements_empty in Hw. cbn [fold_left merge_sort] in Hw.
    eapply walk_queued; [| |exact Hw]; [rewrite length_drop; lia|]. intros j Hj. apply elem_of_union in Hj as [Hj|Hj]; [|by apply Hv].
    apply elem_of_singleton in Hj as ->. done.
  - intros k. by left.
  - intros k. destruct (Hq k) as [Hk|(q & Hk & Hc)]; [by left|right]. exists q. split; [done|].
    split; [by apply (child_rank p it k q)|]. destruct Hc as (Hi & Ht & _ & Hr). split; [done|]. split; [|done].
    destruct Ht as [->|(x & Hx & _)]; [done|]. apply lookup_lt_Some in Hx. lia.
Qed.

(** Handling a path makes the queue lighter. *)
Lemma handled_lighter m cl g m' cl' :
  Paths m -> handleQueueItem fuel rules keccak256 m_items version m cl = Ret ((g, m'), cl') ->
  Paths m' /\ (total (weight m') (S len) < total (weight m) (S len))%nat.
Proof using.
  intros Hp. unfold handleQueueItem. destruct (last_key (m_queue m)) as [k|]; [|done]. cbn [mbind option_bind].
  destruct (m_queue m !! k) as [p|] eqn:Hk; [|done]. destruct (Hp k p Hk) as (Hi & Hle & Hv). rewrite Hi.
  set (m1 := mkMeter (delete k (m_queue m)) (m_highestGasUsagePerJumpdest m)).
  assert (Paths m1) as Hp1.
  { intros j q. cbn [m_queue m1]. rewrite lookup_delete_Some. intros [_ Hj]. by apply Hp. }
  assert (total (weight m1) (S len) + (len + 2) ^ rank p <= total (weight m) (S len))%nat as Hw1.
  { pose proof (total_without (weight m) k (S len) ltac:(lia)) as Hw. unfold weight at 2 in Hw. rewrite Hk in Hw.
    etrans; [|exact Hw]. apply Nat.add_le_mono_r, total_le. intros j _. unfold weight. cbn [m_queue m1].
    destruct (Nat.eqb_spec j k) as [->|Hne]; [by rewrite lookup_delete_eq|]. by rewrite lookup_delete_ne by done. }
  assert (0 < (len + 2) ^ rank p)%nat as Hpos by (apply Nat.neq_0_lt_0, Nat.pow_nonzero; lia).
  destruct (startsPath k) eqn:Hstart.
  2: { intros [= <- <- <-]. split; [done|lia]. }
  destruct (walk _ _ _ _ _ _ _ _) as [[[g1 m2] [s2 cl2]]| |] eqn:Hw; [|done..]. intros [= <- <- <-].
  rewrite <- Hi in Hw, Hstart. pose proof (walk_ranks p m1 _ _ _ _ _ Hstart Hv Hw) as Hr. split.
  - intros j q Hj. destruct (Hr j) as [Hsame|(q' & Hq & _ & Hrest)]; [rewrite Hsame in Hj; by apply Hp1|].
    rewrite Hq in Hj. by injection Hj as ->.
  - assert (total (weight m2) (S len) <= total (weight m1) (S len) + S len * (len + 2) ^ (rank p - 1))%nat as Hle2.
    { rewrite <- total_plus. apply total_le. intros j _. unfold weight.
      destruct (Hr j) as [->|(q & -> & Hq & _)]; [lia|]. assert ((len + 2) ^ rank q <= (len + 2) ^ (rank p - 1))%nat;
        [apply Nat.pow_le_mono_r; lia|lia]. }
    destruct (rank p) as [|n] eqn:Hn.
    + assert (total (weight m2) (S len) <= total (weight m1) (S len))%nat; [|lia].
      apply total_le. intros j _. unfold weight. destruct (Hr j) as [->|(q & _ & Hq & _)]; lia.
    + cbn [Nat.sub Nat.pow] in *. rewrite Nat.sub_0_r in Hle2. nia.
Qed.

Lemma handleQueue_ends steps gas m cl cl' :
  Paths m -> (total (weight m) (S len) <= steps)%nat ->
  handleQueue fuel rules keccak256 m_items version steps gas m cl <> Ret (None, cl').
Proof using.
  revert gas m cl. induction steps as [|steps IH]; intros gas m cl Hp Hw; cbn [handleQueue].
  - destruct (bool_decide_reflect (m_queue m = ∅)) as [|Hne]; [done|]. exfalso. apply Hne, map_eq. intros k.
    rewrite lookup_empty. destruct (m_queue m !! k) as [p|] eqn:Hk; [|done]. exfalso.
    destruct (Hp k p Hk) as (_ & Hle & _). pose proof (total_without (weight m) k (S len) ltac:(lia)) as Ht.
    unfold weight at 2 in Ht. rewrite Hk in Ht. pose proof (Nat.pow_nonzero (len + 2) (rank p) ltac:(lia)). lia.
  - destruct (bool_decide _ || _); [done|].
    destruct (handleQueueItem _ _ _ _ _ _ _) as [[[g m'] cl1]| |] eqn:E; [|done..].
    destruct (handled_lighter m cl g m' cl1 Hp E) as [Hp' Hlt]. apply IH; [done|lia].
Qed.

(** C18 The estimate of the paths through any code ends, jumps included: after at most
    (n + 2)^(n + 1) paths of code of n items the queue is empty or the estimate is infinite.  A
    path that comes to a jump destination a second time is given up, and the queue holds one path
    for every position. *)
Theorem pathEstimate_terminates steps start s cl :
  ((len + 2) ^ (len + 1) <= steps)%nat ->
  forall cl', pathEstimate fuel steps rules keccak256 m_items version start s cl <> Ret (None, cl').
Proof using.
  intros Hsteps cl'. unfold pathEstimate, queue. cbn [m_highestGasUsagePerJumpdest index m_queue path_gas].
  rewrite lookup_empty, !insert_empty. set (p := mkPath start s 0 (gas 0) ∅).
  destruct (Nat.le_gt_cases start len) as [Hle|Hgt].
  - apply handleQueue_ends.
    + intros k q. cbn [m_queue]. rewrite lookup_singleton_Some. intros [<- <-]. split; [done|]. split; [done|].
      intros j Hj. by apply not_elem_of_empty in Hj.
    + etrans; [|exact Hsteps].
      assert (rank p <= len + 1)%nat as Hr by (unfold rank; destruct (m_items !! _); [destruct (bool_decide _)|]; lia).
      assert (total (weight (mkMeter {[start := p]} {[start := gas 0]})) (S len) <= (len + 2) ^ rank p)%nat as Hw.
      { etrans; [apply (total_one _ start)|]; unfold weight; cbn [m_queue]; [|by rewrite lookup_singleton_eq].
        intros j Hj. by rewrite lookup_singleton_ne. }
      etrans; [exact Hw|]. apply Nat.pow_le_mono_r; lia.
  - pose proof (Nat.pow_nonzero (len + 2) (len + 1) ltac:(lia)). destruct steps as [|steps]; [lia|].
    cbn [handleQueue]. destruct (bool_decide _ || _); [done|]. unfold handleQueueItem, last_key. cbn [m_queue].
    rewrite map_to_list_singleton. cbn [fold_right fst mbind option_bind]. rewrite lookup_singleton_eq. cbn [index p].
    unfold PathGasMeter.startsPath. rewrite lookup_ge_None_2 by lia. rewrite delete_singleton_eq.
    destruct steps; cbn [handleQueue m_queue]; by rewrite bool_decide_eq_true_2.
Qed.
End Paths.

(** A loop: [tag_1: jump(tag_1)]. *)
Definition loop_code : list AssemblyItem :=
  [dataItem Tag 1 noLocation; dataItem PushTag 1 noLocation; opItem JUMP noLocation].

Lemma pathEstimate_terminates_witness :
  ((length loop_code + 2) ^ (length loop_code + 1) <= 625)%nat /\
  forall fuel rules cl', pathEstimate fuel 625 rules (fun _ => 0) loop_code Berlin 0 emptyState emptyClasses <> Ret (None, cl').
Proof.
  assert ((length loop_code + 2) ^ (length loop_code + 1) <= 625)%nat as H by (apply Nat.leb_le; vm_compute; reflexivity).
  split; [exact H|]. intros fuel rules. exact (pathEstimate_terminates fuel rules (fun _ => 0) loop_code Berlin 625 0 emptyState emptyClasses H).
Defined.

(** The second visit of the tag makes the estimate infinite. *)
Example loop_infinite :
  match Rules with
  | Some t =>
      match pathEstimate 20 625 t (fun _ => 0) loop_code Berlin 0 emptyState emptyClasses with
      | Ret (Some g, _) => isInfinite g
      | _ => false
      end
  | None => false
  end = true.
Proof. vm_compute. reflexivity. Qed.
