(* ===== verification/ControlFlowGraph.v ===== *)
(** * ControlFlowGraph: blocks and what is known on entry, libevmasm/ControlFlowGraph.{h,cpp}

    The graph splits the items into blocks, links a block to the one that follows it, walks the
    blocks with what is known of the machine, and returns the blocks in the order of the code.
    A block is found by its id in [m_blocks], a map visited in the order of the ids; a pointer to
    a state belongs to one block, so the states are values, and they share their expression
    classes, which are threaded.  The queue of [gatherKnowledge] is the list of its items, the
    last one first. *)

From stdpp Require Import sorting.
From S2P Require Import Prelude U256 Instruction AssemblyItem SemanticInformation Pattern RuleList SimplificationRules ExpressionClasses KnownState.

(** ** [BlockId] *)

Definition initial : Z := unsigned_max - 1.
Definition invalid : Z := unsigned_max.

(** The constructor from a tag, which throws. *)
Definition BlockId (_id : Z) : option Z := if _id <? initial then Some (unsigned _id) else None.

(** [operator bool]. *)
Definition isId (id : Z) : bool := negb (id =? invalid).

(** ** Blocks *)

Inductive EndType : Set := EndJUMP | EndJUMPI | EndSTOP | HANDOVER.

#[export] Instance EndType_eq_dec : EqDecision EndType.
Proof. solve_decision. Defined.

Record BasicBlock := mkBlock {
  begin : Z;
  end_ : Z;
  pushedTags : list Z;
  next : Z;
  prev : Z;
  endType : EndType;
  startState : option KnownState;
  endState : option KnownState }.

Definition newBlock : BasicBlock := mkBlock 0 0 [] invalid invalid HANDOVER None None.

Definition set_begin (n : Z) (b : BasicBlock) : BasicBlock :=
  mkBlock n (end_ b) (pushedTags b) (next b) (prev b) (endType b) (startState b) (endState b).
Definition set_end (n : Z) (b : BasicBlock) : BasicBlock :=
  mkBlock (begin b) n (pushedTags b) (next b) (prev b) (endType b) (startState b) (endState b).
Definition set_pushedTags (l : list Z) (b : BasicBlock) : BasicBlock :=
  mkBlock (begin b) (end_ b) l (next b) (prev b) (endType b) (startState b) (endState b).
Definition set_next (id : Z) (b : BasicBlock) : BasicBlock :=
  mkBlock (begin b) (end_ b) (pushedTags b) id (prev b) (endType b) (startState b) (endState b).
Definition set_prev (id : Z) (b : BasicBlock) : BasicBlock :=
  mkBlock (begin b) (end_ b) (pushedTags b) (next b) id (endType b) (startState b) (endState b).
Definition set_endType (t : EndType) (b : BasicBlock) : BasicBlock :=
  mkBlock (begin b) (end_ b) (pushedTags b) (next b) (prev b) t (startState b) (endState b).
Definition set_startState (s : option KnownState) (b : BasicBlock) : BasicBlock :=
  mkBlock (begin b) (end_ b) (pushedTags b) (next b) (prev b) (endType b) s (endState b).
Definition set_endState (s : option KnownState) (b : BasicBlock) : BasicBlock :=
  mkBlock (begin b) (end_ b) (pushedTags b) (next b) (prev b) (endType b) (startState b) s.

Abbreviation BlockMap := (gmap Z BasicBlock).

(** [m_blocks[id]] adds a block where there is none. *)
Definition update (id : Z) (f : BasicBlock -> BasicBlock) (m_blocks : BlockMap) : BlockMap :=
  <[id := f (default newBlock (m_blocks !! id))]> m_blocks.

(** The ids of a map in their order. *)
Definition ids (m_blocks : BlockMap) : list Z := merge_sort Z.le (map fst (map_to_list m_blocks)).

Section Graph.
Context (m_items : list AssemblyItem).

(** [m_items.at]. *)
Definition itemAt (pc : Z) : option AssemblyItem := m_items !! Z.to_nat pc.

(** ** Splitting *)

Fixpoint findLargestTag (items : list AssemblyItem) (m_lastUsedId : Z) : option Z :=
  match items with
  | [] => Some m_lastUsedId
  | item :: items =>
      match m_type item with
      | Tag | PushTag =>
          BlockId (m_data item) ≫= fun _ =>
          findLargestTag items (Z.max (unsigned (m_data item)) m_lastUsedId)
      | _ => findLargestTag items m_lastUsedId
      end
  end.

(** [generateNewId] with the new [m_lastUsedId]. *)
Definition generateNewId (m_lastUsedId : Z) : option (Z * Z) :=
  let id := unsigned (m_lastUsedId + 1) in
  if id <? initial then Some (id, id) else None.

(** How a block ends with an item that alters the control flow. *)
Definition endsWith (item : AssemblyItem) : EndType :=
  if item_eqb item (opItem JUMP noLocation) then EndJUMP
  else if item_eqb item (opItem JUMPI noLocation) then EndJUMPI
  else EndSTOP.

(** The loop of [splitBlocks] from the item at [index] on, in the block [id]. *)
Fixpoint splitItems (items : list AssemblyItem) (index : Z) (id m_lastUsedId : Z) (m_blocks : BlockMap)
    : option (Z * Z * BlockMap) :=
  match items with
  | [] => Some (id, m_lastUsedId, m_blocks)
  | item :: items =>
      let isTag := bool_decide (m_type item = Tag) in
      let '(id, m_blocks) :=
        if isTag then (invalid, if isId id then update id (set_end (unsigned index)) m_blocks else m_blocks)
        else (id, m_blocks) in
      '(id, m_lastUsedId, m_blocks) ←
        (if isId id then Some (id, m_lastUsedId, m_blocks)
         else
           '(id, m_lastUsedId) ←
             (if isTag then id ← BlockId (m_data item); Some (id, m_lastUsedId)
              else generateNewId m_lastUsedId);
           Some (id, m_lastUsedId, update id (set_begin (unsigned index)) m_blocks));
      m_blocks ←
        (if bool_decide (m_type item = PushTag)
         then tag ← BlockId (m_data item);
              Some (update id (fun b => set_pushedTags (pushedTags b ++ [tag]) b) m_blocks)
         else Some m_blocks);
      if altersControlFlow item
      then splitItems items (index + 1) invalid m_lastUsedId
             (update id (fun b => set_endType (endsWith item) (set_end (unsigned (index + 1)) b)) m_blocks)
      else splitItems items (index + 1) id m_lastUsedId m_blocks
  end.

(** [splitBlocks] with [findLargestTag]; the last id used is not needed after it. *)
Definition splitBlocks : option BlockMap :=
  m_lastUsedId ← findLargestTag m_items 0;
  '(id, _, m_blocks) ← splitItems m_items 0 initial m_lastUsedId (update initial (set_begin 0) ∅);
  Some (if isId id
        then update id (fun b =>
               let b := set_end (unsigned (Z.of_nat (length m_items))) b in
               if bool_decide (endType b = HANDOVER) then set_endType EndSTOP b else b) m_blocks
        else m_blocks).

(** ** Linking *)

(** The block that begins at a position: the last id. *)
Definition blockByBeginPos (m_blocks : BlockMap) : gmap Z Z :=
  fold_left (fun m id =>
    match m_blocks !! id with
    | Some b => if begin b =? end_ b then m else <[begin b := id]> m
    | None => m
    end) (ids m_blocks) ∅.

(** A block that flows into another. *)
Definition flows (t : EndType) : bool := bool_decide (t = EndJUMPI \/ t = HANDOVER).

Definition resolveNextLinks (m_blocks : BlockMap) : option BlockMap :=
  let positions := blockByBeginPos m_blocks in
  foldr (fun id k m =>
    b ← m !! id;
    if flows (endType b)
    then successor ← positions !! end_ b; k (<[id := set_next successor b]> m)
    else k m) Some (ids m_blocks) m_blocks.

(** The loop over the tags a block pushes. *)
Definition needTags (m_blocks : BlockMap) (tags : list Z) (blocksToProcess : list Z) (neededBlocks : gset Z)
    : list Z * gset Z :=
  fold_left (fun '(todo, needed) tag =>
    if bool_decide (tag ∉ needed) && bool_decide (is_Some (m_blocks !! tag))
    then (tag :: todo, {[tag]} ∪ needed) else (todo, needed)) tags (blocksToProcess, neededBlocks).

(** The blocks needed; [blocksToProcess] has its last element first. *)
Fixpoint neededFrom (fuel : nat) (m_blocks : BlockMap) (blocksToProcess : list Z) (neededBlocks : gset Z)
    : Result (gset Z) :=
  match blocksToProcess with
  | [] => Ret neededBlocks
  | id :: todo =>
      match fuel with
      | O => OutOfFuel
      | S fuel =>
          b ← lift (m_blocks !! id);
          let '(todo, needed) := needTags m_blocks (pushedTags b) todo neededBlocks in
          if isId (next b) && bool_decide (next b ∉ needed)
          then neededFrom fuel m_blocks (next b :: todo) ({[next b]} ∪ needed)
          else neededFrom fuel m_blocks todo needed
      end
  end.

Definition removeUnusedBlocks (fuel : nat) (m_blocks : BlockMap) : Result BlockMap :=
  neededBlocks ← neededFrom fuel m_blocks [initial] {[initial]};
  Ret (filter (fun p => fst p ∈ neededBlocks) m_blocks).

(** The first loop of [setPrevLinks]. *)
Definition linkSuccessors (m_blocks : BlockMap) : option BlockMap :=
  foldr (fun id k m =>
    b ← m !! id;
    if flows (endType b)
    then
      successor ← m !! next b;
      assertThrow (negb (isId (prev successor))) ≫= fun _ =>
      k (<[next b := set_prev id successor]> m)
    else k m) Some (ids m_blocks) m_blocks.

(** Whether the blocks that follow [id] lead to [blockId]. *)
Fixpoint hasLoop (fuel : nat) (m_blocks : BlockMap) (blockId id : Z) : Result bool :=
  match fuel with
  | O => OutOfFuel
  | S fuel =>
      if isId id then
        match m_blocks !! id with
        | Some b => if id =? blockId then Ret true else hasLoop fuel m_blocks blockId (next b)
        | None => Ret false
        end
      else Ret false
  end.

(** The second loop of [setPrevLinks] for one block: its jump is dropped where the target can
    follow it. *)
Definition dropJump (fuel : nat) (blockId : Z) (m_blocks : BlockMap) : Result BlockMap :=
  block ← lift (m_blocks !! blockId);
  if negb (bool_decide (endType block = EndJUMP)) || (unsigned (end_ block - begin block) <? 2)
  then Ret m_blocks
  else
    push ← lift (itemAt (unsigned (end_ block - 2)));
    if negb (bool_decide (m_type push = PushTag)) then Ret m_blocks
    else
      nextId ← lift (BlockId (m_data push));
      match m_blocks !! nextId with
      | None => loop ← hasLoop fuel m_blocks blockId nextId; Ret m_blocks
      | Some target =>
          if isId (prev target) then Ret m_blocks
          else
            loop ← hasLoop fuel m_blocks blockId nextId;
            if loop : bool then Ret m_blocks
            else
              let m_blocks := <[nextId := set_prev blockId target]> m_blocks in
              block ← lift (m_blocks !! blockId);
              _ ← lift (assertThrow (bool_decide (last (pushedTags block) = Some nextId)));
              Ret (<[blockId := set_endType HANDOVER (set_pushedTags (removelast (pushedTags block))
                        (set_end (unsigned (end_ block - 2)) (set_next nextId block)))]> m_blocks)
      end.

Definition setPrevLinks (fuel : nat) (m_blocks : BlockMap) : Result BlockMap :=
  m_blocks ← lift (linkSuccessors m_blocks);
  foldr (fun id k m => m ← dropJump fuel id m; k m) Ret (ids m_blocks) m_blocks.

(** ** Gathering knowledge *)

Record WorkQueueItem := mkWork {
  blockId : Z;
  state : KnownState;
  blocksSeen : gset Z }.

Section Knowledge.
Context (fuel : nat) (rules : RuleTable) (keccak256 : list Z -> Z) (m_joinKnowledge : bool).
Local Open Scope known_scope.

(** The state a block is entered with; [None] if it is as known before. *)
Definition enterBlock (item : WorkQueueItem) (block : BasicBlock) : K bool :=
  match startState block with
  | None => kret true
  | Some start =>
      (if m_joinKnowledge then kret tt else kmodify reset) ;;;
      reduceToCommonKnowledge start (bool_decide (blockId item ∉ blocksSeen item)) ;;;
      same <-- kget (fun s => known_eqb s start) ;;
      kret (negb same)
  end.

(** Feeds the items of [block] from [pc] on up to one that alters the control flow; the
    position reached. *)
Fixpoint feedBlock (n : nat) (pc : Z) : K Z :=
  match n with
  | O => kret pc
  | S n =>
      item <-- (fun s cl => match itemAt pc with Some item => Ret (item, (s, cl)) | None => Exception end) ;;
      if altersControlFlow item then kret pc
      else feedItem fuel rules keccak256 item ;;; feedBlock n (pc + 1)
  end.

(** [state->feedItem(m_items.at(pc++))]. *)
Definition feedAt (pc : Z) : K unit :=
  item <-- (fun s cl => match itemAt pc with Some item => Ret (item, (s, cl)) | None => Exception end) ;;
  feedItem fuel rules keccak256 item ;;; kret tt.

(** What a block does to the state: the tags its jump may go to, if it jumps. *)
Definition runBlock (block : BasicBlock) : K (option (gset Z)) :=
  pc <-- feedBlock (Z.to_nat (end_ block - begin block)) (begin block) ;;
  if bool_decide (endType block = EndJUMP \/ endType block = EndJUMPI) then
    kassert ((begin block <=? pc) && (pc =? unsigned (end_ block - 1))) ;;;
    height <-- kget m_stackHeight ;;
    target <-- stackElement fuel rules height noLocation ;;
    tags <-- tagsInExpression target ;;
    feedAt pc ;;;
    kret (Some tags)
  else if (begin block <=? pc) && (pc <? end_ block) then
    feedAt pc ;;;
    kassert ((end_ block <=? begin block) || (pc + 1 =? end_ block)) ;;;
    kret None
  else
    kassert ((end_ block <=? begin block) || (pc =? end_ block)) ;;;
    kret None.

(** The state [gatherKnowledge] threads: the blocks, the queue and whether a jump to an
    unknown place was met. *)
Record Gathering := mkGathering {
  blocks : BlockMap;
  workQueue : list WorkQueueItem;
  unknownJumpEncountered : bool }.

(** Work for every block that begins with a tag, for a jump to an unknown place. *)
Definition allJumpdests (m_blocks : BlockMap) : list WorkQueueItem :=
  flat_map (fun id =>
    match m_blocks !! id with
    | Some b =>
        if (begin b <? end_ b) && match itemAt (begin b) with
                                  | Some item => bool_decide (m_type item = Tag)
                                  | None => false
                                  end
        then [mkWork id emptyState ∅] else []
    | None => []
    end) (ids m_blocks).

(** The work for the targets of a jump, first target first. *)
Definition jumpWork (item : WorkQueueItem) (tags : gset Z) (s : KnownState) : option (list WorkQueueItem) :=
  mapM (fun tag => id ← BlockId tag; Some (mkWork id s ({[blockId item]} ∪ blocksSeen item)))
    (merge_sort Z.le (elements tags)).

(** The body of the loop for the item taken from the queue. *)
Definition gatherItem (item : WorkQueueItem) (g : Gathering) (cl : ExpressionClasses)
    : Result (Gathering * ExpressionClasses) :=
  _ ← lift (assertThrow (isId (blockId item)));
  match blocks g !! blockId item with
  | None => Ret (g, cl)
  | Some block =>
      '(changed, (s, cl)) ← enterBlock item block (state item) cl;
      if negb changed then Ret (g, cl)
      else
        '(tags, (s', cl)) ← runBlock block s cl;
        '(queue, unknown) ← lift
          match tags with
          | None => Some (workQueue g, unknownJumpEncountered g)
          | Some tags =>
              if bool_decide (tags = ∅)
              then Some (if unknownJumpEncountered g then workQueue g
                         else rev (allJumpdests (blocks g)) ++ workQueue g, true)
              else work ← jumpWork item tags s';
                   Some (rev work ++ workQueue g, unknownJumpEncountered g)
          end;
        let m_blocks := <[blockId item := set_endState (Some s') (set_startState (Some s) block)]> (blocks g) in
        let queue := if flows (endType block)
                     then mkWork (next block) s' ({[blockId item]} ∪ blocksSeen item) :: queue else queue in
        Ret (mkGathering m_blocks queue unknown, cl)
  end.

Fixpoint gather (steps : nat) (g : Gathering) (cl : ExpressionClasses) : Result (BlockMap * ExpressionClasses) :=
  match workQueue g with
  | [] => Ret (blocks g, cl)
  | item :: queue =>
      match steps with
      | O => OutOfFuel
      | S steps =>
          '(g, cl) ← gatherItem item (mkGathering (blocks g) queue (unknownJumpEncountered g)) cl;
          gather steps g cl
      end
  end.

(** The blocks visited, each with its states. *)
Definition gatherKnowledge (steps : nat) (m_blocks : BlockMap) (cl : ExpressionClasses)
    : Result (BlockMap * ExpressionClasses) :=
  '(m_blocks, cl) ← gather steps (mkGathering m_blocks [mkWork initial emptyState ∅] false) cl;
  Ret (filter (fun p => is_Some (startState (snd p))) m_blocks, cl).
End Knowledge.

(** ** The order of the code *)

(** How often the tag of a block is pushed in the blocks that are left. *)
Definition pushes (m_blocks : BlockMap) : gmap Z Z :=
  fold_left (fun m id =>
    match m_blocks !! id with
    | Some b =>
        fold_left (fun m ref =>
          if bool_decide (is_Some (m_blocks !! ref)) then <[ref := default 0 (m !! ref) + 1]> m else m)
          (pushedTags b) m
    | None => m
    end) (ids m_blocks) ∅.

(** The first block of the chain [id] is in. *)
Fixpoint firstOfChain (fuel : nat) (m_blocks : BlockMap) (id : Z) : Result Z :=
  match fuel with
  | O => OutOfFuel
  | S fuel =>
      b ← lift (m_blocks !! id);
      if isId (prev b) then firstOfChain fuel m_blocks (prev b) else Ret id
  end.

(** [clearTagUnions] does not touch the classes. *)
Definition clearUnions (s : KnownState) : KnownState :=
  match clearTagUnions s emptyClasses with Ret (_, (s, _)) => s | _ => s end.

(** The blocks of the chain from [id] on that are not empty, and the blocks still to add. *)
Fixpoint addChain (fuel : nat) (m_blocks : BlockMap) (id : Z) (previousHandedOver : bool) (blocksToAdd : gset Z)
    : Result (list BasicBlock * gset Z) :=
  match fuel with
  | O => OutOfFuel
  | S fuel =>
      if isId id then
        block ← lift (m_blocks !! id);
        let blocksToAdd := blocksToAdd ∖ {[id]} in
        if begin block =? end_ block then addChain fuel m_blocks (next block) previousHandedOver blocksToAdd
        else
          let startsWithTag := match itemAt (begin block) with
                               | Some item => bool_decide (m_type item = Tag)
                               | None => false
                               end in
          let unused := previousHandedOver && (default 0 (pushes m_blocks !! id) =? 0) && startsWithTag in
          let block := if unused then set_begin (unsigned (begin block + 1)) block else block in
          '(rest, blocksToAdd) ←
            addChain fuel m_blocks (next block) (bool_decide (endType block = HANDOVER)) blocksToAdd;
          Ret (if begin block <? end_ block
               then set_endState (clearUnions <$> endState block)
                      (set_startState (clearUnions <$> startState block) block) :: rest
               else rest, blocksToAdd)
      else Ret ([], blocksToAdd)
  end.

(** The loop of [rebuildCode]: the chain of [blockId], then the chains of the blocks left. *)
Fixpoint rebuildFrom (fuel n : nat) (m_blocks : BlockMap) (id : Z) (blocksToAdd : gset Z) : Result (list BasicBlock) :=
  match n with
  | O => OutOfFuel
  | S n =>
      first ← firstOfChain fuel m_blocks id;
      '(chain, blocksToAdd) ← addChain fuel m_blocks first (id =? initial) blocksToAdd;
      match merge_sort Z.le (elements blocksToAdd) with
      | [] => Ret chain
      | id :: _ => rest ← rebuildFrom fuel n m_blocks id blocksToAdd; Ret (chain ++ rest)
      end
  end.

(** The fuel is the number of blocks. *)
Definition rebuildCode (m_blocks : BlockMap) : Result (list BasicBlock) :=
  rebuildFrom (S (size m_blocks)) (S (size m_blocks)) m_blocks initial (list_to_set (ids m_blocks)).
End Graph.

(** ** [optimisedBlocks] *)

Definition optimisedBlocks (fuel steps : nat) (rules : RuleTable) (keccak256 : list Z -> Z) (m_joinKnowledge : bool)
    (m_items : list AssemblyItem) : Result (list BasicBlock) :=
  match m_items with
  | [] => Ret []
  | _ =>
      m_blocks ← lift (splitBlocks m_items);
      m_blocks ← lift (resolveNextLinks m_blocks);
      let n := S (size m_blocks) in
      m_blocks ← removeUnusedBlocks n m_blocks;
      m_blocks ← setPrevLinks m_items n m_blocks;
      '(m_blocks, _) ← gatherKnowledge m_items fuel rules keccak256 m_joinKnowledge steps m_blocks emptyClasses;
      rebuildCode m_items m_blocks
  end.

(** ** The blocks are a partition of the items *)

(** The ids of the tags among the items. *)
Definition tagIds (items : list AssemblyItem) : list Z := map m_data (filter (fun it => m_type it = Tag) items).

(** The items of a block. *)
Definition slice (items : list AssemblyItem) (b : BasicBlock) : list AssemblyItem :=
  take (Z.to_nat (end_ b) - Z.to_nat (begin b)) (drop (Z.to_nat (begin b)) items).

(** Position [i] lies in the block [id]. *)
Definition holds (m_blocks : BlockMap) (id : Z) (i : nat) : Prop :=
  exists b, m_blocks !! id = Some b /\ begin b <= Z.of_nat i < end_ b.

(** The last item of a block lets the control flow on. *)
Definition fallsThrough (l : list AssemblyItem) : bool :=
  match last l with Some it => negb (altersControlFlow it) | None => true end.

(** The block [id] is a run of the items with a tag at most at its begin, whose id it has then,
    and a jump or an end at most as its last item; it notes the tags it pushes. *)
Record block_shape (items : list AssemblyItem) (id : Z) (b : BasicBlock) : Prop := {
  shape_range : 0 <= begin b <= end_ b /\ end_ b <= Z.of_nat (length items);
  shape_initial : id = initial -> begin b = 0;
  shape_nonempty : id = initial \/ begin b < end_ b;
  shape_tags : Forall (fun it => m_type it <> Tag) (tail (slice items b));
  shape_jumps : Forall (fun it => altersControlFlow it = false) (removelast (slice items b));
  shape_pushed : pushedTags b = map m_data (filter (fun it => m_type it = PushTag) (slice items b));
  shape_id : forall it, head (slice items b) = Some it -> m_type it = Tag -> id = m_data it;
  shape_unlinked : next b = invalid /\ prev b = invalid }.

(** How a block ends: with its last item, or in front of a tag, or where the items end. *)
Definition block_end (items : list AssemblyItem) (b : BasicBlock) : Prop :=
  match last (slice items b) with
  | Some it => altersControlFlow it = true -> endType b = endsWith it
  | None => True
  end /\
  (fallsThrough (slice items b) = true ->
   match items !! Z.to_nat (end_ b) with
   | Some it => endType b = HANDOVER /\ m_type it = Tag
   | None => endType b = EndSTOP
   end).

Section Split.
Context (m_items : list AssemblyItem).

(** The current block ended at [n]. *)
Definition close (n id : Z) (m_blocks : BlockMap) : BlockMap :=
  if isId id then update id (set_end n) m_blocks else m_blocks.

(** A block that the item at [n] is added to. *)
Definition extend (n : Z) (it : AssemblyItem) (b : BasicBlock) : BasicBlock :=
  mkBlock (begin b) (n + 1) (if bool_decide (m_type it = PushTag) then pushedTags b ++ [m_data it] else pushedTags b)
    (next b) (prev b) (if altersControlFlow it then endsWith it else endType b) (startState b) (endState b).

(** The block the item at [n] goes to. *)
Definition nextId (id lastId : Z) (it : AssemblyItem) : Z * Z :=
  if bool_decide (m_type it = Tag) then (m_data it, lastId)
  else if isId id then (id, lastId) else (lastId + 1, lastId + 1).

Definition continues (id : Z) (it : AssemblyItem) : bool := negb (bool_decide (m_type it = Tag)) && isId id.

Lemma isId_spec id : isId id = true <-> id <> invalid.
Proof. unfold isId. rewrite negb_true_iff, Z.eqb_neq. done. Qed.

Lemma initial_value : initial = 2 ^ 32 - 2.
Proof. reflexivity. Qed.
Lemma invalid_value : invalid = 2 ^ 32 - 1.
Proof. reflexivity. Qed.

Lemma BlockId_small d : 0 <= d < initial -> BlockId d = Some d.
Proof.
  intros Hd. unfold BlockId. rewrite (proj2 (Z.ltb_lt _ _)) by lia.
  by rewrite unsigned_small by (rewrite initial_value in Hd; lia).
Qed.

(** One turn of the loop of [splitBlocks], seen from the blocks with the current one ended. *)
Lemma splitItems_step it items n id lastId M C :
  close n id M = C -> (isId id = true -> is_Some (M !! id)) ->
  0 <= n -> n + 1 < 2 ^ 32 -> 0 <= lastId -> lastId + 1 < initial ->
  (m_type it = Tag \/ m_type it = PushTag -> 0 <= m_data it < initial) ->
  let '(id', lastId') := nextId id lastId it in
  (continues id it = false -> C !! id' = None) ->
  exists M' b, splitItems (it :: items) n id lastId M
               = splitItems items (n + 1) (if altersControlFlow it then invalid else id') lastId' M' /\
    (if continues id it then C !! id = Some b else b = set_begin n newBlock) /\
    close (n + 1) (if altersControlFlow it then invalid else id') M' = <[id' := extend n it b]> C /\
    (altersControlFlow it = false -> is_Some (M' !! id')).
Proof.
  intros <- Hcur Hn Hn1 Hl Hl1 Hd. unfold nextId, continues. cbn [splitItems].
  pose proof initial_value as Hi. pose proof invalid_value as Hv.
  rewrite (unsigned_small n), (unsigned_small (n + 1)) by lia.
  assert (Hinv : isId invalid = false) by reflexivity.
  assert (Hgen : generateNewId lastId = Some (lastId + 1, lastId + 1)).
  { unfold generateNewId. rewrite unsigned_small by lia. by rewrite (proj2 (Z.ltb_lt _ _)) by lia. }
  assert (Hnew : isId (lastId + 1) = true) by (apply isId_spec; lia).
  destruct (decide (m_type it = Tag)) as [HT|HT].
  - rewrite (bool_decide_true (m_type it = Tag)) by done. specialize (Hd (or_introl HT)). rewrite Hinv. cbn [negb andb].
    rewrite (BlockId_small (m_data it)) by done. cbn [mbind option_bind]. intros Hfresh. specialize (Hfresh eq_refl).
    assert (Hit : isId (m_data it) = true) by (apply isId_spec; lia).
    assert (Ha : altersControlFlow it = false) by (unfold altersControlFlow; by rewrite HT). rewrite Ha.
    rewrite bool_decide_false by congruence. cbn [mbind option_bind]. fold (close n id M) in *.
    eexists _, _. split; [reflexivity|]. split; [reflexivity|]. unfold update, close at 1. rewrite Hit. unfold update.
    rewrite lookup_insert_eq, insert_insert_eq, Hfresh. unfold extend. rewrite Ha, bool_decide_false by congruence.
    split; [done|]. by eexists.
  - rewrite (bool_decide_false (m_type it = Tag)) by done. cbn [negb andb]. destruct (isId id) eqn:Hid.
    + intros _. destruct (Hcur eq_refl) as [b Hb]. unfold close. rewrite Hid. cbn [mbind option_bind].
      unfold update. rewrite Hb, lookup_insert_eq. unfold extend.
      destruct (decide (m_type it = PushTag)) as [HP|HP];
        [rewrite (bool_decide_true (m_type it = PushTag)), (BlockId_small (m_data it)) by auto
        |rewrite (bool_decide_false (m_type it = PushTag)) by done]; cbn [mbind option_bind];
        destruct (altersControlFlow it);
        (eexists _, _; split; [reflexivity|]; split; [reflexivity|]; rewrite ?Hinv, ?Hid);
        cbn; rewrite ?lookup_insert_eq, ?Hb; cbn; rewrite ?insert_insert_eq; done.
    + intros Hfresh. specialize (Hfresh eq_refl). unfold close in *. rewrite Hid in *. rewrite Hgen. cbn [mbind option_bind].
      unfold update, extend. rewrite Hfresh, lookup_insert_eq.
      destruct (decide (m_type it = PushTag)) as [HP|HP];
        [rewrite (bool_decide_true (m_type it = PushTag)), (BlockId_small (m_data it)) by auto
        |rewrite (bool_decide_false (m_type it = PushTag)) by done]; cbn [mbind option_bind];
        destruct (altersControlFlow it);
        (eexists _, _; split; [reflexivity|]; split; [reflexivity|]; rewrite ?Hinv, ?Hnew);
        cbn; rewrite ?lookup_insert_eq; cbn; rewrite ?insert_insert_eq; done.
Qed.

(** *** The loop *)

Lemma slice_extend n it b :
  0 <= begin b <= n -> end_ b = n -> m_items !! Z.to_nat n = Some it ->
  slice m_items (extend n it b) = slice m_items b ++ [it].
Proof.
  intros Hb He Hi. unfold slice, extend. cbn [begin end_]. rewrite He.
  replace (Z.to_nat (n + 1) - Z.to_nat (begin b))%nat with (S (Z.to_nat n - Z.to_nat (begin b))) by lia.
  apply take_S_r. rewrite lookup_drop. by replace (Z.to_nat (begin b) + (Z.to_nat n - Z.to_nat (begin b)))%nat with (Z.to_nat n) by lia.
Qed.

Lemma slice_empty b : end_ b <= begin b -> slice m_items b = [].
Proof. intros H. unfold slice. by replace (Z.to_nat (end_ b) - Z.to_nat (begin b))%nat with 0%nat by lia. Qed.

Context (largest : Z) (distinct : NoDup (tagIds m_items)) (nonneg : 0 <= largest)
  (small : largest + Z.of_nat (length m_items) < initial)
  (tags : Forall (fun it => m_type it = Tag \/ m_type it = PushTag -> 0 <= m_data it <= largest) m_items).

Record split_inv (n id lastId : Z) (C : BlockMap) : Prop := {
  si_n : 0 <= n <= Z.of_nat (length m_items);
  si_last : largest <= lastId <= largest + n;
  si_shape : forall k b, C !! k = Some b -> block_shape m_items k b /\ end_ b <= n;
  si_end : forall k b, C !! k = Some b ->
    if decide (k = id) then end_ b = n /\ endType b = HANDOVER /\ fallsThrough (slice m_items b) = true
    else block_end m_items b;
  si_cur : isId id = true -> is_Some (C !! id);
  si_own : exists own, Z.of_nat (length own) = n /\ forall i k, own !! i = Some k <-> holds C k i;
  si_key : forall k, is_Some (C !! k) ->
    k = initial \/ largest < k <= lastId \/ k ∈ tagIds (take (Z.to_nat n) m_items);
  si_initial : is_Some (C !! initial) }.

Lemma tagIds_bound k l : k ∈ tagIds (take l m_items) -> 0 <= k <= largest.
Proof.
  unfold tagIds. intros (it & -> & Hi)%list_elem_of_fmap. apply list_elem_of_filter in Hi as [Ht Hi].
  rewrite Forall_forall in tags. apply tags; [|by left]. by eapply elem_of_take in Hi as (? & ?%list_elem_of_lookup_2 & _).
Qed.

Lemma key_not_invalid n id lastId C k : split_inv n id lastId C -> is_Some (C !! k) -> k <> invalid.
Proof.
  intros I Hk ->. destruct (si_key _ _ _ _ I _ Hk) as [H|[H|H]].
  - discriminate H.
  - pose proof (si_last _ _ _ _ I). pose proof (si_n _ _ _ _ I). rewrite initial_value in small. rewrite invalid_value in H. lia.
  - apply tagIds_bound in H. rewrite initial_value in small. rewrite invalid_value in H. lia.
Qed.

Lemma tagIds_snoc n it : m_items !! Z.to_nat n = Some it -> 0 <= n ->
  tagIds (take (Z.to_nat (n + 1)) m_items) =
  tagIds (take (Z.to_nat n) m_items) ++ (if bool_decide (m_type it = Tag) then [m_data it] else []).
Proof.
  intros Hi Hn. replace (Z.to_nat (n + 1)) with (S (Z.to_nat n)) by lia. rewrite (take_S_r _ _ _ Hi).
  unfold tagIds. rewrite filter_app, map_app. f_equal. case_bool_decide as H.
  - by rewrite filter_cons_True.
  - by rewrite filter_cons_False.
Qed.

(** A block that is begun has a new id. *)
Lemma nextId_fresh n id lastId C it :
  split_inv n id lastId C -> m_items !! Z.to_nat n = Some it -> continues id it = false ->
  C !! fst (nextId id lastId it) = None.
Proof.
  intros I Hi Hc. destruct (C !! _) as [b|] eqn:Hb; [|done]. exfalso.
  pose proof (si_last _ _ _ _ I) as Hl. pose proof (si_n _ _ _ _ I) as Hn.
  assert (Hlt : n < Z.of_nat (length m_items)) by (apply lookup_lt_Some in Hi; lia).
  pose proof (si_key _ _ _ _ I _ (mk_is_Some _ _ Hb)) as Hk. revert Hc Hk. unfold continues, nextId.
  pose proof (tagIds_snoc n it Hi ltac:(lia)) as Hs. case_bool_decide as HT; cbn [negb andb fst].
  - intros _ Hk. pose proof (proj1 (Forall_lookup _ _) tags _ _ Hi (or_introl HT)).
    destruct Hk as [H1|[H1|H1]]; [lia|lia|].
    assert (Hd : NoDup (tagIds (take (Z.to_nat (n + 1)) m_items))).
    { rewrite <- (take_drop (Z.to_nat (n + 1)) m_items) in distinct. unfold tagIds in *.
      rewrite filter_app, map_app in distinct. by apply NoDup_app in distinct as [H2 _]. }
    rewrite Hs in Hd. apply NoDup_app in Hd as (_ & Hd & _). apply (Hd _ H1). by apply list_elem_of_singleton.
  - destruct (isId id); [done|]. intros _ [H1|[H1|H1%tagIds_bound]]; cbn [fst] in *; lia.
Qed.

Lemma split_inv_own n id C k b it :
  (exists own, Z.of_nat (length own) = n /\ forall i k, own !! i = Some k <-> holds C k i) ->
  0 <= n -> begin b <= n -> (if continues id it then C !! k = Some b /\ end_ b = n else C !! k = None /\ begin b = n) ->
  exists own, Z.of_nat (length own) = n + 1 /\
    forall i k', own !! i = Some k' <-> holds (<[k := extend n it b]> C) k' i.
Proof.
  intros (own & Hlen & Hown) Hn Hb Hk. exists (own ++ [k]). rewrite length_app. cbn [length]. split; [lia|].
  intros i k'. unfold holds. destruct (decide (k' = k)) as [->|Hne].
  - rewrite lookup_insert_eq. transitivity (begin b <= Z.of_nat i < n + 1).
    2: { split; [intros; by eexists|]. intros (? & [= <-] & H). exact H. }
    destruct (decide (Z.of_nat i < n)) as [Hi|Hi].
    + rewrite lookup_app_l by lia. rewrite Hown. unfold holds. destruct (continues id it).
      * destruct Hk as [-> He]. split; [intros (? & [= <-] & H); lia|]. intros. eexists. split; [done|]. lia.
      * destruct Hk as [-> He]. split; [by intros (? & ? & _)|]. lia.
    + rewrite lookup_app_r by lia. split.
      * intros ?%lookup_lt_Some. cbn in *. lia.
      * intros. by replace (i - length own)%nat with 0%nat by lia.
  - rewrite lookup_insert_ne by done. destruct (decide (Z.of_nat i < n)) as [Hi|Hi].
    + rewrite lookup_app_l by lia. apply Hown.
    + rewrite lookup_app_r by lia. split.
      * destruct (i - length own)%nat eqn:E; [|done]. intros [= ->]. done.
      * intros H. assert (own !! i = Some k') as H1%lookup_lt_Some by (by apply Hown). lia.
Qed.

Lemma shape_extend n id id' lastId C b it :
  split_inv n id lastId C -> m_items !! Z.to_nat n = Some it -> id' = fst (nextId id lastId it) ->
  (if continues id it then C !! id = Some b else b = set_begin n newBlock) ->
  block_shape m_items id' (extend n it b) /\ begin b <= n.
Proof.
  intros I Hi -> Hb. pose proof (si_n _ _ _ _ I) as Hn.
  assert (Hlt : n < Z.of_nat (length m_items)) by (apply lookup_lt_Some in Hi; lia).
  revert Hb. unfold continues, nextId.
  destruct (negb (bool_decide (m_type it = Tag)) && isId id) eqn:Hc.
  - apply andb_true_iff in Hc as [HT Hid]. apply negb_true_iff in HT. rewrite HT, Hid. cbn [fst]. intros Hb.
    destruct (si_shape _ _ _ _ I _ _ Hb) as [Sh _]. pose proof (si_end _ _ _ _ I _ _ Hb) as He.
    rewrite decide_True in He by done. destruct He as (He & _ & Hf). destruct Sh as [Sr Si Sn St Sj Sp Sid Su].
    assert (Hs := slice_extend n it b ltac:(lia) He Hi). apply bool_decide_eq_false in HT.
    split; [|lia]. constructor; rewrite ?Hs; cbn [begin end_ extend pushedTags].
    + lia.
    + done.
    + right. lia.
    + destruct (slice m_items b) as [|x l]; cbn in *; [constructor|]. by apply Forall_app_2; [|repeat constructor].
    + rewrite removelast_last. unfold fallsThrough in Hf. destruct (slice m_items b) as [|x l] eqn:E using rev_ind; [constructor|].
      rewrite removelast_last in Sj. rewrite last_snoc in Hf. apply negb_true_iff in Hf. by apply Forall_app_2; [|repeat constructor].
    + rewrite filter_app, map_app, Sp. case_bool_decide as HP.
      * by rewrite filter_cons_True.
      * rewrite filter_cons_False by done. by rewrite app_nil_r.
    + intros x. destruct (slice m_items b) as [|y l]; cbn; [by intros [= ->] ?|]. apply Sid.
    + done.
  - intros ->. assert (Hs := slice_extend n it (set_begin n newBlock)). cbn [begin end_ set_begin newBlock] in Hs |- *.
    split; [|lia]. assert (Hs' : slice m_items (extend n it (set_begin n newBlock)) = [it]).
    { unfold slice, extend. cbn [begin end_ set_begin newBlock]. replace (Z.to_nat (n + 1) - Z.to_nat n)%nat with 1%nat by lia.
      by rewrite (drop_S _ _ _ Hi). }
    constructor; rewrite ?Hs'; cbn [begin end_ extend pushedTags set_begin newBlock].
    + lia.
    + intros Heq. exfalso. revert Heq. destruct (bool_decide (m_type it = Tag)) eqn:HT; cbn [fst].
      * apply bool_decide_eq_true in HT. pose proof (proj1 (Forall_lookup _ _) tags _ _ Hi (or_introl HT)). lia.
      * cbn [negb andb] in Hc. rewrite Hc. cbn [fst]. pose proof (si_last _ _ _ _ I). lia.
    + right. lia.
    + constructor.
    + constructor.
    + destruct (decide (m_type it = PushTag)) as [HP|HP].
      * by rewrite bool_decide_true, filter_cons_True.
      * by rewrite bool_decide_false, filter_cons_False.
    + intros x [= <-] HT. by rewrite bool_decide_true.
    + done.
Qed.

(** One more item keeps the invariant. *)
Lemma split_inv_step n id lastId C b it :
  split_inv n id lastId C -> m_items !! Z.to_nat n = Some it ->
  (if continues id it then C !! id = Some b else b = set_begin n newBlock) ->
  split_inv (n + 1) (if altersControlFlow it then invalid else fst (nextId id lastId it)) (snd (nextId id lastId it))
    (<[fst (nextId id lastId it) := extend n it b]> C).
Proof.
  intros I Hi Hb. destruct (shape_extend n id _ lastId C b it I Hi eq_refl Hb) as [Hsh Hbn].
  pose proof (si_n _ _ _ _ I) as Hn. assert (Hlt : n < Z.of_nat (length m_items)) by (apply lookup_lt_Some in Hi; lia).
  pose proof (si_last _ _ _ _ I) as Hl. assert (Hfresh := nextId_fresh n id lastId C it I Hi).
  set (id' := fst (nextId id lastId it)) in *.
  assert (Hend : begin b <= n /\ (continues id it = true -> end_ b = n)).
  { split; [done|]. intros Hc. rewrite Hc in Hb. pose proof (si_end _ _ _ _ I _ _ Hb) as He. rewrite decide_True in He by done. tauto. }
  assert (Hid : continues id it = true -> id' = id).
  { subst id'. unfold continues, nextId. intros [HT Hd]%andb_true_iff. apply negb_true_iff in HT. by rewrite HT, Hd. }
  assert (Hkey : id' = initial \/ largest < id' <= snd (nextId id lastId it) \/ id' ∈ tagIds (take (Z.to_nat (n + 1)) m_items)).
  { rewrite (tagIds_snoc n it Hi) by lia. subst id'. unfold nextId. case_bool_decide; cbn [fst snd].
    - right. right. rewrite elem_of_app. right. by apply list_elem_of_singleton.
    - rewrite app_nil_r. destruct (isId id) eqn:E; cbn [fst snd]; [|right; left; lia]. by apply (si_key _ _ _ _ I), (si_cur _ _ _ _ I). }
  assert (Hl' : lastId <= snd (nextId id lastId it) <= lastId + 1).
  { unfold nextId. case_bool_decide; [cbn; lia|]. destruct (isId id); cbn; lia. }
  constructor.
  - lia.
  - lia.
  - intros k b' [[<- <-]|[Hne Hk]]%lookup_insert_Some; [split; [done|cbn; lia]|].
    destruct (si_shape _ _ _ _ I _ _ Hk). split; [done|lia].
  - intros k b' [[<- <-]|[Hne Hk]]%lookup_insert_Some.
    + assert (Hlast : last (slice m_items (extend n it b)) = Some it).
      { destruct (continues id it) eqn:Hc.
        - pose proof (si_shape _ _ _ _ I _ _ Hb) as [[] _].
          rewrite (slice_extend n it b) by (try done; try lia; by apply Hend). apply last_snoc.
        - subst b. unfold slice, extend. cbn [begin end_ set_begin newBlock].
          replace (Z.to_nat (n + 1) - Z.to_nat n)%nat with 1%nat by lia. by rewrite (drop_S _ _ _ Hi). }
      destruct (altersControlFlow it) eqn:Ha.
      * rewrite decide_False.
        -- unfold block_end, fallsThrough. rewrite Hlast, Ha. split; [intros _; cbn; by rewrite Ha|done].
        -- intros E. rewrite E in Hkey. destruct Hkey as [H|[H|H%tagIds_bound]]; rewrite ?initial_value, ?invalid_value in *; lia.
      * rewrite decide_True by done. unfold fallsThrough. rewrite Hlast, Ha. cbn. rewrite Ha. split; [done|]. split; [|done].
        destruct (continues id it); [|by subst b]. pose proof (si_end _ _ _ _ I _ _ Hb) as He. rewrite decide_True in He by done. tauto.
    + rewrite decide_False.
      2: { destruct (altersControlFlow it); [|done]. by eapply key_not_invalid. }
      pose proof (si_end _ _ _ _ I _ _ Hk) as He. destruct (decide (k = id)) as [->|]; [|done].
      destruct He as (He & Ht & Hf). assert (HT : m_type it = Tag).
      { destruct (decide (m_type it = Tag)); [done|]. exfalso. apply Hne. apply Hid. unfold continues. rewrite bool_decide_false by done.
        apply isId_spec. by eapply key_not_invalid. }
      split; [|intros _; by rewrite He, Hi].
      unfold fallsThrough in Hf. destruct (last (slice m_items b')); [|done]. apply negb_true_iff in Hf. congruence.
  - destruct (altersControlFlow it); [done|]. intros _. rewrite lookup_insert_eq. by eexists.
  - apply (split_inv_own n id C id' b it (si_own _ _ _ _ I)); [lia|done|]. destruct (continues id it) eqn:Hc.
    + split; [|by apply Hend]. by rewrite Hid.
    + split; [by apply Hfresh|by subst b].
  - intros k [b' [[<- <-]|[Hne Hk]]%lookup_insert_Some]; [done|].
    destruct (si_key _ _ _ _ I _ (mk_is_Some _ _ Hk)) as [H|[H|H]]; [by left|right; left; lia|right; right].
    rewrite (tagIds_snoc n it Hi) by lia. rewrite elem_of_app. by left.
  - apply lookup_insert_is_Some'. right. apply (si_initial _ _ _ _ I).
Qed.

Lemma split_inv_start : split_inv 0 initial largest {[initial := newBlock]}.
Proof.
  constructor.
  - lia.
  - lia.
  - intros k b [<- <-]%lookup_singleton_Some. split; [|cbn; lia].
    constructor; rewrite ?slice_empty by (cbn; lia); cbn; try done; try lia; try constructor.
  - intros k b [<- <-]%lookup_singleton_Some. rewrite decide_True by done. by rewrite slice_empty by (cbn; lia).
  - intros _. rewrite lookup_singleton_eq. by eexists.
  - exists []. split; [done|]. intros i k. split; [done|]. intros (b & [<- <-]%lookup_singleton_Some & H). cbn in H. lia.
  - intros k [b [<- _]%lookup_singleton_Some]. by left.
  - rewrite lookup_singleton_eq. by eexists.
Qed.

Lemma splitItems_inv rest n id lastId M C :
  split_inv n id lastId C -> close n id M = C -> (isId id = true -> is_Some (M !! id)) ->
  drop (Z.to_nat n) m_items = rest ->
  exists id' lastId' M' C', splitItems rest n id lastId M = Some (id', lastId', M') /\
    close (Z.of_nat (length m_items)) id' M' = C' /\ split_inv (Z.of_nat (length m_items)) id' lastId' C'.
Proof.
  revert n id lastId M C. induction rest as [|it rest IH]; intros n id lastId M C I HC Hcur Hd;
    pose proof (si_n _ _ _ _ I) as Hn; pose proof (si_last _ _ _ _ I) as Hl.
  - assert (n = Z.of_nat (length m_items)) as <-.
    { assert (length (drop (Z.to_nat n) m_items) = 0%nat) as H by by rewrite Hd. rewrite length_drop in H. lia. }
    by exists id, lastId, M, C.
  - assert (Hi : m_items !! Z.to_nat n = Some it).
    { rewrite <- (Nat.add_0_r (Z.to_nat n)), <- lookup_drop. by rewrite Hd. }
    assert (Hlt : n < Z.of_nat (length m_items)) by (apply lookup_lt_Some in Hi; lia).
    pose proof (splitItems_step it rest n id lastId M C HC Hcur ltac:(lia) ltac:(rewrite initial_value in small; lia)
      ltac:(lia) ltac:(lia)) as St.
    pose proof (nextId_fresh n id lastId C it I Hi) as Hfr. pose proof (split_inv_step n id lastId C) as Hst.
    specialize (St ltac:(intros HT; pose proof (proj1 (Forall_lookup _ _) tags _ _ Hi HT); lia)).
    destruct (nextId id lastId it) as [id' lastId'] eqn:Hnx. cbn [fst] in Hfr.
    destruct (St Hfr) as (M' & b & -> & Hb & HC' & HM'). specialize (Hst b it I Hi Hb). rewrite Hnx in Hst. cbn [fst snd] in Hst.
    eapply IH; [exact Hst|exact HC'| |].
    + destruct (altersControlFlow it); [done|]. intros _. by apply HM'.
    + replace (Z.to_nat (n + 1)) with (S (Z.to_nat n)) by lia. by rewrite <- (skipn_skipn 1 (Z.to_nat n)), Hd.
Qed.
End Split.

Lemma findLargestTag_returns items bound m :
  Forall (fun it => m_type it = Tag \/ m_type it = PushTag -> 0 <= m_data it <= bound) items -> bound < initial -> 0 <= m <= bound ->
  exists L, findLargestTag items m = Some L /\ m <= L <= bound /\
    Forall (fun it => m_type it = Tag \/ m_type it = PushTag -> 0 <= m_data it <= L) items.
Proof.
  intros H Hb. revert m. induction H as [|it items Hi _ IH]; intros m Hm; cbn [findLargestTag].
  { exists m. repeat split; try lia. constructor. }
  destruct (decide (m_type it = Tag \/ m_type it = PushTag)) as [HT|HT].
  - specialize (Hi HT). pose proof initial_value. destruct (IH (Z.max (m_data it) m)) as (L & HL & HL' & Hall); [lia|].
    exists L. split; [|split; [lia|constructor; [lia|done]]].
    destruct HT as [-> | ->]; rewrite (BlockId_small (m_data it)) by lia; cbn [mbind option_bind]; by rewrite unsigned_small by lia.
  - destruct (IH m Hm) as (L & HL & HL' & Hall). exists L. split; [|split; [lia|constructor; [done|done]]].
    destruct (m_type it); try done; exfalso; apply HT; auto.
Qed.

(** The tags can be told from the ids of the blocks without a tag. *)
Definition tags_fit (items : list AssemblyItem) : Prop :=
  Z.of_nat (length items) < initial /\
  Forall (fun it => m_type it = Tag \/ m_type it = PushTag -> 0 <= m_data it < initial - Z.of_nat (length items)) items.

(** What is known of the blocks [splitBlocks] makes. *)
Lemma splitBlocks_spec items :
  tags_fit items -> NoDup (tagIds items) ->
  exists m_blocks, splitBlocks items = Some m_blocks /\
    (exists own, length own = length items /\ forall i id, own !! i = Some id <-> holds m_blocks id i) /\
    (forall id b, m_blocks !! id = Some b -> block_shape items id b /\ block_end items b) /\
    (forall id, is_Some (m_blocks !! id) -> id <> invalid) /\ is_Some (m_blocks !! initial).
Proof.
  intros [Hlen Htags] Hnd. unfold splitBlocks. pose proof initial_value as Hi.
  destruct (findLargestTag_returns items (initial - Z.of_nat (length items) - 1) 0) as (L & -> & HL & Hall); [|lia|lia|].
  { eapply Forall_impl; [exact Htags|]. cbn. intros it H HT. specialize (H HT). lia. }
  cbn [mbind option_bind].
  destruct (splitItems_inv items L Hnd ltac:(lia) ltac:(lia) Hall items 0 initial L (update initial (set_begin 0) ∅)
    {[initial := newBlock]}) as (id & lastId & M & C & -> & HC & I).
  - by apply split_inv_start.
  - reflexivity.
  - intros _. unfold update. rewrite lookup_insert_eq. by eexists.
  - done.
  - cbn [mbind option_bind]. eexists. split; [reflexivity|].
    assert (Hkeys : forall k, is_Some (C !! k) -> k <> invalid).
    { intros k. by apply (key_not_invalid items L ltac:(lia) Hall _ _ _ _ k I). }
    rewrite unsigned_small by lia. unfold close in HC. destruct (isId id) eqn:Hid.
    2: { subst M. split_and!.
      - destruct (si_own _ _ _ _ _ _ I) as (own & Ho & Hown). exists own. split; [lia|done].
      - intros k b Hk. split; [by apply (si_shape _ _ _ _ _ _ I)|]. pose proof (si_end _ _ _ _ _ _ I _ _ Hk) as He.
        rewrite decide_False in He; [done|]. intros ->. apply (Hkeys id); [by eexists|].
        unfold isId in Hid. apply negb_false_iff in Hid. lia.
      - exact Hkeys.
      - apply (si_initial _ _ _ _ _ _ I). }
    unfold update in HC |- *. set (b := set_end (Z.of_nat (length items)) (default newBlock (M !! id))) in *.
    assert (HCb : C !! id = Some b) by (subst C; by rewrite lookup_insert_eq).
    pose proof (si_end _ _ _ _ _ _ I _ _ HCb) as He. rewrite decide_True in He by done. destruct He as (He & Ht & Hf).
    rewrite bool_decide_true by done. rewrite <- (insert_insert_eq M id _ b), HC.
    assert (Hsl : slice items (set_endType EndSTOP b) = slice items b) by reflexivity.
    split_and!.
    + destruct (si_own _ _ _ _ _ _ I) as (own & Ho & Hown). exists own. split; [lia|]. intros i k. rewrite Hown. unfold holds.
      destruct (decide (k = id)) as [->|Hne]; [rewrite lookup_insert_eq, HCb|by rewrite lookup_insert_ne].
      split; intros (? & [= <-] & H); (eexists; split; [done|exact H]).
    + intros k b' [[<- <-]|[Hne Hk]]%lookup_insert_Some.
      * destruct (si_shape _ _ _ _ _ _ I _ _ HCb) as [[] _]. split; [by constructor|]. unfold block_end. rewrite Hsl. split.
        -- unfold fallsThrough in Hf. destruct (last (slice items b)); [|done]. apply negb_true_iff in Hf. congruence.
        -- intros _. cbn [end_ set_endType endType]. rewrite He, lookup_ge_None_2 by lia. done.
      * split; [by apply (si_shape _ _ _ _ _ _ I)|]. pose proof (si_end _ _ _ _ _ _ I _ _ Hk) as He'.
        by rewrite decide_False in He'.
    + intros k [b' [[<- _]|[_ Hk]]%lookup_insert_Some]; [by apply isId_spec|].
      apply Hkeys. by eexists.
    + apply lookup_insert_is_Some'. right. apply (si_initial _ _ _ _ _ _ I).
Qed.

(** ** The links *)

Lemma ids_spec m_blocks id : id ∈ ids m_blocks <-> is_Some (m_blocks !! id).
Proof.
  unfold ids. rewrite merge_sort_Permutation, list_elem_of_fmap. split.
  - intros ((k & b) & -> & H%elem_of_map_to_list). by eexists.
  - intros [b H]. exists (id, b). split; [done|]. by apply elem_of_map_to_list.
Qed.

Lemma ids_NoDup m_blocks : NoDup (ids m_blocks).
Proof. unfold ids. rewrite merge_sort_Permutation. apply NoDup_fst_map_to_list. Qed.

Lemma blockByBeginPos_spec m_blocks :
  (forall p id, blockByBeginPos m_blocks !! p = Some id ->
     exists b, m_blocks !! id = Some b /\ begin b = p /\ begin b <> end_ b) /\
  (forall id b, m_blocks !! id = Some b -> begin b <> end_ b -> is_Some (blockByBeginPos m_blocks !! begin b)).
Proof.
  assert (forall l (f : gmap Z Z), let g := fold_left (fun m id => match m_blocks !! id with
      | Some b => if begin b =? end_ b then m else <[begin b := id]> m | None => m end) l f in
    ((forall p id, f !! p = Some id -> exists b, m_blocks !! id = Some b /\ begin b = p /\ begin b <> end_ b) ->
     forall p id, g !! p = Some id -> exists b, m_blocks !! id = Some b /\ begin b = p /\ begin b <> end_ b) /\
    (forall p, is_Some (f !! p) -> is_Some (g !! p)) /\
    (forall id b, id ∈ l -> m_blocks !! id = Some b -> begin b <> end_ b -> is_Some (g !! begin b))) as H.
  { induction l as [|k l IH]; intros f; cbn [fold_left]; [by split_and!; [..|intros ? ? ?%elem_of_nil]|].
    destruct (IH (match m_blocks !! k with
      | Some b => if begin b =? end_ b then f else <[begin b := k]> f | None => f end)) as (IH1 & IH2 & IH3). clear IH.
    destruct (m_blocks !! k) as [bk|] eqn:Hk.
    2: { split_and!; [done|done|]. intros id b [->|H]%elem_of_cons Hb; [congruence|]. by apply (IH3 id). }
    destruct (begin bk =? end_ bk) eqn:E.
    { split_and!; [done|done|]. intros id b [->|H]%elem_of_cons Hb Hne; [apply Z.eqb_eq in E; congruence|]. by apply (IH3 id). }
    apply Z.eqb_neq in E. split_and!.
    - intros Hf. apply IH1. intros p id [[<- <-]|[_ H]]%lookup_insert_Some; [by exists bk|]. by apply Hf.
    - intros p Hp. apply IH2. destruct (decide (begin bk = p)) as [->|Hd]; [rewrite lookup_insert_eq; by eexists|].
      by rewrite lookup_insert_ne.
    - intros id b [->|H]%elem_of_cons Hb Hne; [|by apply (IH3 id)]. assert (b = bk) as -> by congruence.
      apply IH2. rewrite lookup_insert_eq. by eexists. }
  destruct (H (ids m_blocks) ∅) as (H1 & _ & H3). split; [apply H1; intros ? ? H'; by rewrite lookup_empty in H'|].
  intros id b Hb. apply (H3 id b); [|done]. apply ids_spec. by eexists.
Qed.

(** The block that begins where a block of [splitBlocks] ends. *)
Lemma successor_begins items m_blocks id b :
  (exists own, length own = length items /\ forall i id, own !! i = Some id <-> holds m_blocks id i) ->
  (forall id b, m_blocks !! id = Some b -> block_shape items id b /\ block_end items b) ->
  (forall it, last items = Some it -> item_eqb it (opItem JUMPI noLocation) = false) ->
  items <> [] -> m_blocks !! id = Some b -> flows (endType b) = true ->
  exists id' b', m_blocks !! id' = Some b' /\ begin b' = end_ b /\ end_ b < end_ b' /\
    forall k bk, m_blocks !! k = Some bk -> begin bk = end_ b -> begin bk <> end_ bk -> k = id'.
Proof.
  intros (own & Hlen & Hown) Hsh Hlast Hne Hb Hf. destruct (Hsh _ _ Hb) as [Sh [He1 He2]].
  pose proof (shape_range _ _ _ Sh) as [Hr Hr'].
  (* the block does not end with the items *)
  assert (Hlt : end_ b < Z.of_nat (length items)).
  { destruct (Z.lt_ge_cases (end_ b) (Z.of_nat (length items))) as [|Hge]; [done|exfalso].
    rewrite (lookup_ge_None_2 items) in He2 by lia. destruct (fallsThrough (slice items b)) eqn:Hft.
    - by rewrite He2 in Hf.
    - unfold fallsThrough in Hft. destruct (last (slice items b)) as [it|] eqn:El; [|done]. apply negb_false_iff in Hft.
      specialize (He1 Hft). specialize (Hlast it). rewrite He1 in Hf. unfold endsWith in Hf.
      assert (last items = Some it) as El'.
      { unfold slice in El. rewrite take_ge in El by (rewrite length_drop; lia).
        rewrite <- (take_drop (Z.to_nat (begin b)) items), last_app, El. done. }
      rewrite (Hlast El') in Hf. by destruct (item_eqb it (opItem JUMP noLocation)). }
  destruct (lookup_lt_is_Some_2 own (Z.to_nat (end_ b))) as [id' Hid']; [lia|].
  pose proof Hid' as (b' & Hb' & Hin)%Hown. exists id', b'. split; [done|].
  (* its owner does not hold the position before *)
  assert (Hbeg : begin b' = end_ b).
  { destruct (Z.lt_ge_cases (begin b') (end_ b)) as [Hlt'|]; [exfalso|lia].
    destruct (Z.eq_dec (begin b) (end_ b)) as [E|E].
    - destruct (shape_nonempty _ _ _ Sh) as [->|]; [|lia]. pose proof (shape_initial _ _ _ Sh eq_refl).
      pose proof (shape_range _ _ _ (proj1 (Hsh _ _ Hb'))). lia.
    - assert (own !! Z.to_nat (end_ b - 1) = Some id) as H1 by (apply Hown; exists b; split; [done|lia]).
      assert (own !! Z.to_nat (end_ b - 1) = Some id') as H2 by (apply Hown; exists b'; split; [done|lia]).
      assert (id' = id) as -> by congruence. assert (b' = b) as -> by congruence. lia. }
  split; [done|]. split; [lia|]. intros k bk Hk Hkb Hkn.
  pose proof (shape_range _ _ _ (proj1 (Hsh _ _ Hk))).
  assert (own !! Z.to_nat (end_ b) = Some k) as H1 by (apply Hown; exists bk; split; [done|lia]). congruence.
Qed.

(** The loop of [resolveNextLinks] where every block that flows on has a successor. *)
Lemma resolveNextLinks_spec m_blocks :
  (forall id b, m_blocks !! id = Some b -> flows (endType b) = true -> is_Some (blockByBeginPos m_blocks !! end_ b)) ->
  exists m', resolveNextLinks m_blocks = Some m' /\ forall id,
    m' !! id = (fun b => if flows (endType b) then set_next (default invalid (blockByBeginPos m_blocks !! end_ b)) b else b)
                 <$> m_blocks !! id.
Proof.
  intros Hs. unfold resolveNextLinks. set (positions := blockByBeginPos m_blocks) in *. clearbody positions.
  set (link := fun b => if flows (endType b) then set_next (default invalid (positions !! end_ b)) b else b).
  assert (forall l (m : BlockMap), NoDup l -> (forall id, id ∈ l -> is_Some (m_blocks !! id)) ->
    (forall id, m !! id = if decide (id ∈ l) then m_blocks !! id else link <$> m_blocks !! id) ->
    exists m', foldr (fun id k (m : BlockMap) => b ← m !! id;
        if flows (endType b) then successor ← positions !! end_ b; k (<[id := set_next successor b]> m) else k m) Some l m = Some m' /\
      forall id, m' !! id = link <$> m_blocks !! id) as H.
  { induction l as [|id l IH]; intros m Hnd Hl Hm; cbn [foldr].
    - exists m. split; [done|]. intros id. rewrite Hm. rewrite decide_False; [done|]. by intros ?%elem_of_nil.
    - apply NoDup_cons in Hnd as [Hni Hnd]. destruct (Hl id) as [b Hb]; [by left|]. rewrite Hm, decide_True, Hb by by left.
      cbn [mbind option_bind]. assert (Hnext : forall m' : BlockMap, (forall k, m' !! k = if decide (k = id) then Some (link b) else m !! k) ->
        forall k, m' !! k = if decide (k ∈ l) then m_blocks !! k else link <$> m_blocks !! k).
      { intros m' Hm' k. rewrite Hm'. destruct (decide (k = id)) as [->|Hne]; [by rewrite decide_False, Hb|]. rewrite Hm.
        destruct (decide (k ∈ l)); [by rewrite decide_True by by right|].
        rewrite decide_False; [done|]. by intros [?|?]%elem_of_cons. }
      destruct (flows (endType b)) eqn:Hf.
      + destruct (Hs _ _ Hb Hf) as [q Hq]. rewrite Hq. cbn [mbind option_bind]. apply IH; [done|by intros; apply Hl; right|].
        apply Hnext. intros k. unfold link. rewrite Hf, Hq. case_decide as Hd; [subst; by rewrite lookup_insert_eq|].
        by rewrite lookup_insert_ne.
      + apply IH; [done|by intros; apply Hl; right|]. apply Hnext. intros k. unfold link. rewrite Hf.
        case_decide as Hd; [|done]. subst. by rewrite Hm, decide_True by by left. }
  apply H; [apply ids_NoDup|by intros id ?%ids_spec|]. intros id. case_decide as Hd; [done|].
  rewrite ids_spec in Hd. apply eq_None_not_Some in Hd. by rewrite Hd.
Qed.

(** ** The blocks needed *)

(** A block that may follow another: the next one, or one whose tag is pushed. *)
Definition leadsTo (m_blocks : BlockMap) (b : BasicBlock) (id : Z) : Prop :=
  (next b = id /\ id <> invalid) \/ (id ∈ pushedTags b /\ is_Some (m_blocks !! id)).

Inductive needed (m_blocks : BlockMap) : Z -> Prop :=
| needed_initial : needed m_blocks initial
| needed_step id b id' : needed m_blocks id -> m_blocks !! id = Some b -> leadsTo m_blocks b id' -> needed m_blocks id'.

Lemma needTags_spec m_blocks tags todo seen :
  exists new, needTags m_blocks tags todo seen = (new ++ todo, list_to_set new ∪ seen) /\
    NoDup new /\ (forall id, id ∈ new -> id ∈ tags /\ is_Some (m_blocks !! id) /\ id ∉ seen) /\
    (forall id, id ∈ tags -> is_Some (m_blocks !! id) -> id ∈ new \/ id ∈ seen).
Proof.
  unfold needTags. revert todo seen. induction tags as [|tag tags IH]; intros todo seen; cbn [fold_left].
  { exists []. cbn. split; [f_equal; set_solver|]. split; [constructor|]. split; by intros ? ?%elem_of_nil. }
  destruct (bool_decide (tag ∉ seen) && bool_decide (is_Some (m_blocks !! tag))) eqn:E.
  - apply andb_true_iff in E as [E1%bool_decide_eq_true E2%bool_decide_eq_true].
    destruct (IH (tag :: todo) ({[tag]} ∪ seen)) as (new & -> & Hnd & Hnew & Hall). exists (new ++ [tag]). rewrite <- app_assoc. cbn.
    split; [f_equal; rewrite list_to_set_app_L; cbn; set_solver|]. split; [|split].
    + apply NoDup_app. split; [done|]. split; [|apply NoDup_singleton].
      intros id Hid Heq%list_elem_of_singleton. apply Hnew in Hid. set_solver.
    + intros id [Hid|Hid%list_elem_of_singleton]%elem_of_app; [apply Hnew in Hid; set_solver|]. subst. split; [by left|done].
    + intros id [->|Hid]%elem_of_cons Hs; [set_solver|]. destruct (Hall id Hid Hs); set_solver.
  - destruct (IH todo seen) as (new & -> & Hnd & Hnew & Hall). exists new. split; [done|]. split; [done|]. split.
    + intros id Hid. apply Hnew in Hid. set_solver.
    + intros id [->|Hid]%elem_of_cons Hs; [|by apply Hall]. right. rewrite (bool_decide_true (is_Some _)) in E by done.
      rewrite andb_true_r in E. apply bool_decide_eq_false in E. by destruct (decide (tag ∈ seen)).
Qed.

Lemma neededFrom_spec m_blocks fuel todo seen :
  (forall id b, m_blocks !! id = Some b -> isId (next b) = true -> is_Some (m_blocks !! next b)) ->
  NoDup todo -> (forall id, id ∈ todo -> id ∈ seen) -> seen ⊆ dom m_blocks ->
  (forall id, id ∈ seen -> needed m_blocks id) -> initial ∈ seen ->
  (forall id b id', id ∈ seen -> id ∉ todo -> m_blocks !! id = Some b -> leadsTo m_blocks b id' -> id' ∈ seen) ->
  (length todo + size (dom m_blocks) <= fuel + size seen)%nat ->
  exists result, neededFrom fuel m_blocks todo seen = Ret result /\ forall id, id ∈ result <-> needed m_blocks id.
Proof.
  intros Hnext. revert todo seen. induction fuel as [|fuel IH]; intros todo seen Hnd Hsub Hdom Hneed Hinit Hclosed Hfuel;
    pose proof (subseteq_size _ _ Hdom) as Hsz.
  all: assert (Hdone : todo = [] -> forall id, id ∈ seen <-> needed m_blocks id)
    by (intros -> id; split; [apply Hneed|]; induction 1 as [|id b id' _ IHn Hb Hl]; [done|];
        eapply Hclosed; [exact IHn|apply not_elem_of_nil|exact Hb|exact Hl]).
  all: destruct todo as [|id todo]; cbn [neededFrom]; [exists seen; split; [done|by apply Hdone]|].
  { cbn in Hfuel. lia. }
  clear Hdone. apply NoDup_cons in Hnd as [Hid Hnd]. assert (Hids : id ∈ seen) by (apply Hsub; by left).
  assert (exists b, m_blocks !! id = Some b) as [b Hb] by (by apply elem_of_dom, Hdom). rewrite Hb. cbn [lift mbind Result_bind].
  destruct (needTags_spec m_blocks (pushedTags b) todo seen) as (new & -> & Hndn & Hnew & Hall).
  assert (Hstep : forall extra seen', NoDup (extra ++ new) -> seen' = list_to_set (extra ++ new) ∪ seen ->
    (forall k, k ∈ extra -> leadsTo m_blocks b k /\ k ∉ seen /\ is_Some (m_blocks !! k)) ->
    (forall k, leadsTo m_blocks b k -> k ∈ seen') ->
    exists result, neededFrom fuel m_blocks (extra ++ new ++ todo) seen' = Ret result /\
      forall id, id ∈ result <-> needed m_blocks id).
  { intros extra seen' Hnd' -> Hextra Hleads.
    assert (Hfresh : forall k, k ∈ extra ++ new -> leadsTo m_blocks b k /\ k ∉ seen /\ is_Some (m_blocks !! k)).
    { intros k [Hk|Hk]%elem_of_app; [by apply Hextra|]. apply Hnew in Hk as (H1 & H2 & H3). split; [|done]. by right. }
    assert (Hdisj : list_to_set (extra ++ new) ## seen).
    { intros k Hk%elem_of_list_to_set. apply Hfresh in Hk. tauto. }
    rewrite app_assoc. apply IH.
    - apply NoDup_app. split; [done|]. split; [|done]. intros k Hk Hk'. apply Hfresh in Hk as (_ & Hk & _). apply Hk, Hsub. by right.
    - intros k [Hk|Hk]%elem_of_app; apply elem_of_union; [left; by apply elem_of_list_to_set|right; apply Hsub; by right].
    - intros k [Hk%elem_of_list_to_set|Hk]%elem_of_union; [|by apply Hdom]. apply elem_of_dom. by apply Hfresh.
    - intros k [Hk%elem_of_list_to_set|Hk]%elem_of_union; [|by apply Hneed].
      apply Hfresh in Hk as (Hk & _). by eapply needed_step; [apply Hneed; exact Hids|exact Hb|].
    - apply elem_of_union. by right.
    - intros k bk k' [Hk%elem_of_list_to_set|Hk]%elem_of_union Hnk Hbk Hl.
      + exfalso. apply Hnk. apply elem_of_app. by left.
      + destruct (decide (k = id)) as [->|Hne].
        * assert (bk = b) as -> by congruence. by apply Hleads.
        * apply elem_of_union. right. eapply Hclosed; [exact Hk| |exact Hbk|exact Hl].
          intros [?|Hk']%elem_of_cons; [done|]. apply Hnk, elem_of_app. by right.
    - rewrite size_union by done. rewrite size_list_to_set by done. rewrite !length_app. cbn [length] in Hfuel. lia. }
  destruct (isId (next b)) eqn:Hn; cbn [andb].
  - case_bool_decide as Hin.
    + apply (Hstep [next b]).
      * cbn. constructor; [|done]. intros Hk. apply Hin, elem_of_union. left. by apply elem_of_list_to_set.
      * cbn. set_solver.
      * intros k Hk%list_elem_of_singleton. subst k. split; [left; split; [done|by apply isId_spec]|]. split; [set_solver|by eapply Hnext].
      * intros k [[<- _]|[Hk1 Hk2]]; [set_solver|]. destruct (Hall _ Hk1 Hk2); set_solver.
    + apply (Hstep []); [done|done|by intros ? ?%elem_of_nil|].
      intros k [[<- _]|[Hk1 Hk2]]; [by destruct (decide (next b ∈ (list_to_set new ∪ seen : gset Z)))|].
      destruct (Hall _ Hk1 Hk2); set_solver.
  - apply (Hstep []); [done|done|by intros ? ?%elem_of_nil|].
    intros k [[<- H]|[Hk1 Hk2]]; [apply isId_spec in H; congruence|]. destruct (Hall _ Hk1 Hk2); set_solver.
Qed.

(** ** Properties *)

(** The items do not end with a jump that may go on. *)
Definition no_last_jumpi (items : list AssemblyItem) : Prop :=
  match last items with
  | Some it => item_eqb it (opItem JUMPI noLocation) = false
  | None => False
  end.

(** The blocks and the links between them. *)
Lemma linked_blocks items :
  tags_fit items -> NoDup (tagIds items) -> no_last_jumpi items ->
  exists m_blocks, splitBlocks items ≫= resolveNextLinks = Some m_blocks /\ is_Some (m_blocks !! initial) /\
    (exists own, length own = length items /\ forall i id, own !! i = Some id <-> holds m_blocks id i) /\
    (forall id b, m_blocks !! id = Some b ->
       block_shape items id (set_next invalid b) /\ block_end items b /\
       if flows (endType b)
       then exists b', m_blocks !! next b = Some b' /\ begin b' = end_ b /\ end_ b < end_ b'
       else next b = invalid).
Proof.
  intros Hfit Hnd Hlast. unfold no_last_jumpi in Hlast.
  destruct (splitBlocks_spec items Hfit Hnd) as (m & -> & Hown & Hsh & Hkeys & Hinit). cbn [mbind option_bind].
  assert (Hsucc : forall id b, m !! id = Some b -> flows (endType b) = true ->
    exists id' b', m !! id' = Some b' /\ begin b' = end_ b /\ end_ b < end_ b' /\ blockByBeginPos m !! end_ b = Some id').
  { intros id b Hb Hf. destruct (successor_begins items m id b Hown Hsh) as (id' & b' & Hb' & H1 & H2 & H3); [| |done|done|].
    - intros it Hit. by rewrite Hit in Hlast.
    - intros ->. done.
    - exists id', b'. split; [done|]. split; [done|]. split; [done|]. destruct (blockByBeginPos_spec m) as [P1 P2].
      destruct (P2 _ _ Hb') as [k Hk]; [lia|]. rewrite H1 in Hk. rewrite Hk. f_equal.
      destruct (P1 _ _ Hk) as (bk & Hbk & E1 & E2). by eapply H3. }
  destruct (resolveNextLinks_spec m) as (m' & -> & Hm').
  { intros id b Hb Hf. destruct (Hsucc _ _ Hb Hf) as (id' & _ & _ & _ & _ & ->). by eexists. }
  assert (Hback : forall id b, m' !! id = Some b -> exists b0, m !! id = Some b0 /\
    b = if flows (endType b0) then set_next (default invalid (blockByBeginPos m !! end_ b0)) b0 else b0).
  { intros id b. rewrite Hm'. destruct (m !! id) as [b0|]; [|done]. intros [= <-]. by exists b0. }
  exists m'. split; [done|]. split; [|split].
  - rewrite Hm'. destruct Hinit as [b ->]. by eexists.
  - destruct Hown as (own & Hlen & Hown). exists own. split; [done|]. intros i id. rewrite Hown. unfold holds. split.
    + intros (b & Hb & H). rewrite Hm', Hb. eexists. split; [done|]. by destruct (flows (endType b)).
    + intros (b & Hb & H). destruct (Hback _ _ Hb) as (b0 & Hb0 & ->). exists b0. split; [done|]. by destruct (flows (endType b0)).
  - intros id b Hb. destruct (Hback _ _ Hb) as (b0 & Hb0 & ->). destruct (Hsh _ _ Hb0) as [Sh He].
    assert (Hu : set_next invalid b0 = b0) by (destruct b0; destruct Sh as [_ _ _ _ _ _ _ [H _]]; cbn in *; by subst).
    destruct (flows (endType b0)) eqn:Hf.
    + split; [by rewrite <- Hu in Sh|]. split; [done|]. cbn [endType set_next]. rewrite Hf.
      destruct (Hsucc _ _ Hb0 Hf) as (id' & b' & Hb' & H1 & H2 & H3). rewrite H3. cbn [next end_ set_next].
      change (default invalid (Some id')) with id'. rewrite Hm', Hb'. eexists. split; [done|]. by destruct (flows (endType b')).
    + rewrite Hu. split; [done|]. split; [done|]. rewrite Hf. apply Sh.
Qed.


(** C29 The blocks that are kept are those the first block leads to, by flowing on or by pushing their
    tags: the search for them ends, with fuel for each block once, and does not throw. *)
Theorem removeUnusedBlocks_keeps items :
  tags_fit items -> NoDup (tagIds items) -> no_last_jumpi items ->
  exists m_blocks m', splitBlocks items ≫= resolveNextLinks = Some m_blocks /\
    (forall fuel, (size m_blocks <= fuel)%nat -> removeUnusedBlocks fuel m_blocks = Ret m') /\
    forall id b, m' !! id = Some b <-> m_blocks !! id = Some b /\ needed m_blocks id.
Proof.
  intros Hf Hnd Hl. destruct (linked_blocks items Hf Hnd Hl) as (m & Hm & Hinit & _ & H).
  assert (forall fuel, (size m <= fuel)%nat ->
    exists result, neededFrom fuel m [initial] {[initial]} = Ret result /\ forall id, id ∈ result <-> needed m id) as Hsearch.
  { intros fuel Hfuel. apply neededFrom_spec.
    - intros id b Hb Hn. destruct (H _ _ Hb) as (_ & _ & Hnx). destruct (flows (endType b)).
      + destruct Hnx as (b' & -> & _). by eexists.
      + apply isId_spec in Hn. congruence.
    - apply NoDup_singleton.
    - set_solver.
    - apply elem_of_dom in Hinit. set_solver.
    - intros id Hid%elem_of_singleton. subst id. constructor.
    - set_solver.
    - set_solver.
    - rewrite size_singleton, size_dom. cbn. lia. }
  destruct (Hsearch (size m)) as (result & Hr & Hres); [done|]. exists m, (filter (fun p => fst p ∈ result) m). split; [done|]. split.
  - intros fuel Hfuel. destruct (Hsearch fuel Hfuel) as (result' & Hr' & Hres'). unfold removeUnusedBlocks. rewrite Hr'.
    assert (result' = result) as -> by (apply set_eq; intros id; by rewrite Hres, Hres'). done.
  - intros id b. rewrite map_lookup_filter_Some. cbn [fst]. by rewrite Hres.
Qed.

(** ** An example *)

(** The block of tag 1 is pushed, not jumped to, and flows into the block of tag 2. *)
Definition unvisited_code : list AssemblyItem :=
  [dataItem PushTag 1 noLocation; opItem POP noLocation; dataItem PushTag 2 noLocation; opItem JUMP noLocation;
   dataItem Tag 1 noLocation; dataItem Tag 2 noLocation; opItem STOP noLocation].

Lemma unvisited_code_ok : tags_fit unvisited_code /\ NoDup (tagIds unvisited_code) /\ no_last_jumpi unvisited_code.
Proof.
  split; [split; [by vm_compute|]|split; [|reflexivity]].
  - repeat constructor; cbn; intros; try (by vm_compute); destruct H; discriminate.
  - apply (bool_decide_eq_true_1 (NoDup (tagIds unvisited_code))). vm_compute. reflexivity.
Qed.


Lemma removeUnusedBlocks_keeps_witness :
  exists m_blocks m', splitBlocks unvisited_code ≫= resolveNextLinks = Some m_blocks /\
    (forall fuel, (size m_blocks <= fuel)%nat -> removeUnusedBlocks fuel m_blocks = Ret m') /\
    forall id b, m' !! id = Some b <-> m_blocks !! id = Some b /\ needed m_blocks id.
Proof. destruct unvisited_code_ok as (H1 & H2 & H3). apply (removeUnusedBlocks_keeps unvisited_code H1 H2 H3). Defined.

