(* ===== verification/ConstantOptimiser.v ===== *)
(** * ConstantOptimiser: shorter or cheaper constants, libevmasm/ConstantOptimiser.{h,cpp}

    For every constant of the code the optimiser compares pushing it, copying it from the
    data of the assembly, and computing it; gas amounts are [bigint]s, but the products of
    sizes are [size_t]s.  A routine that throws gives [None] or [Exception]. *)

From S2P Require Import Prelude U256 CommonData Instruction EVMVersion AssemblyItem SemanticInformation GasMeter.

(** [ConstantOptimisationMethod::Params]. *)
Record Params : Set := mkParams {
  isCreation : bool;
  runs : Z;
  multiplicity : Z;
  evmVersion : EVMVersion }.

(** [AssemblyItem(u256)] and [AssemblyItem(Instruction)], without a location. *)
Definition push (_value : Z) : AssemblyItem := dataItem Push _value noLocation.
Definition op (_instruction : Instruction) : AssemblyItem := opItem _instruction noLocation.

(** A [size_t]. *)
Definition size_t (x : Z) : Z := x mod 2 ^ 64.

Definition combineGas (m_params : Params) (_runGas _repeatedDataGas _uniqueDataGas : Z) : Z :=
  runs m_params * _runGas + multiplicity m_params * _repeatedDataGas + _uniqueDataGas.

Fixpoint simpleRunGas (_items : list AssemblyItem) : option Z :=
  match _items with
  | [] => Some 0
  | item :: _items =>
      g ← match m_type item with
          | Push => runGas PUSH1
          | Operation =>
              if bool_decide (m_instruction item = EXP) then Some GasCosts.expGas
              else runGas (m_instruction item)
          | _ => Some 0
          end;
      gas ← simpleRunGas _items;
      Some (g + gas)
  end.

(** [ConstantOptimisationMethod::dataGas]. *)
Definition methodDataGas (m_params : Params) (_data : list Z) : option Z :=
  _ ← assertThrow (0 <? Z.of_nat (length _data));
  dataGas _data (isCreation m_params) (evmVersion m_params).

(** [ConstantOptimisationMethod::bytesRequired]: 3 byte addresses. *)
Definition routineBytes (_items : list AssemblyItem) : option Z :=
  b ← items_bytesRequired _items 3; Some (size_t b).

(** The cost of a byte of code. *)
Definition byteGas (m_params : Params) : Z :=
  if isCreation m_params then GasCosts.txDataNonZeroGas (evmVersion m_params)
  else GasCosts.createDataGas.

(** [LiteralMethod::gasNeeded]. *)
Definition literal_gasNeeded (m_params : Params) (m_value : Z) : option Z :=
  g ← simpleRunGas [op PUSH1];
  dat ← methodDataGas m_params (toCompactBigEndian m_value 1);
  Some (combineGas m_params g (byteGas m_params + dat) 0).

(** [CodeCopyMethod::copyRoutine]. *)
Definition copyRoutine : list AssemblyItem :=
  [push 0; op DUP1; op MLOAD; push 32; dataItem PushData (u256_shl 1 16) noLocation; op DUP4;
   op CODECOPY; op DUP2; op MLOAD; op SWAP2; op MSTORE].

(** [CodeCopyMethod::gasNeeded]. *)
Definition copy_gasNeeded (m_params : Params) (m_value : Z) : option Z :=
  g ← simpleRunGas copyRoutine;
  b ← routineBytes copyRoutine;
  dat ← methodDataGas m_params (toBigEndian 32 m_value);
  Some (combineGas m_params (g + GasCosts.copyGas) (size_t (b * byteGas m_params)) dat).

(** [ComputeMethod::gasNeeded(_routine)]. *)
Definition gasNeeded (m_params : Params) (_routine : list AssemblyItem) : option Z :=
  let numExps := Z.of_nat (length (List.filter (fun item => is_op item EXP) _routine)) in
  g ← simpleRunGas _routine;
  b ← routineBytes _routine;
  Some (combineGas m_params
          (g + size_t (numExps * (GasCosts.expGas + GasCosts.expByteGas (evmVersion m_params))))
          (size_t (b * byteGas m_params)) 0).

(** ** Computing a constant *)

(** The body of the loop of [findRepresentation] up to the last [continue]: the upper part
    and the signed lower part, where [_value = upperPart * 2 ^ bits + lowerPart]. *)
Definition decompose (_value bits : Z) : option (Z * Z) :=
  let gapDetector := Z.land (u256_shr _value (bits - 8)) 0x1ff in
  if negb (gapDetector =? 0xff) && negb (gapDetector =? 0x100) then None
  else
    let powerOfTwo := u256_shl 1 bits in
    let upperPart := u256_shr _value bits in
    let lowerPart := Z.land _value (u256_sub powerOfTwo 1) in
    let negative := powerOfTwo - lowerPart <? lowerPart in
    let upperPart := if negative then u256_add upperPart 1 else upperPart in
    let lowerPart := if negative then lowerPart - powerOfTwo else lowerPart in
    if upperPart =? 0 then None
    else if u256_shr powerOfTwo 8 <=? Z.abs lowerPart then None
    else Some (upperPart, lowerPart).

Section Search.
Context (m_params : Params).
(** The recursive call of [findRepresentation], with the steps left. *)
Context (findRepresentation : Z -> Z -> Result (list AssemblyItem * Z)).

(** [newRoutine]. *)
Definition buildRoutine (bits upperPart lowerPart m_maxSteps : Z) : Result (list AssemblyItem * Z) :=
  '(lower, m_maxSteps) ←
    (if negb (lowerPart =? 0) then findRepresentation (u256 (Z.abs lowerPart)) m_maxSteps
     else Ret ([], m_maxSteps));
  '(upper, m_maxSteps) ←
    (if hasBitwiseShifting (evmVersion m_params) then
       '(r, m_maxSteps) ← findRepresentation upperPart m_maxSteps;
       Ret (r ++ [push bits; op SHL], m_maxSteps)
     else if negb (upperPart =? 1) then
       '(r, m_maxSteps) ← findRepresentation upperPart m_maxSteps;
       Ret ([push bits; push 2; op EXP] ++ r ++ [op MUL], m_maxSteps)
     else Ret ([push bits; push 2; op EXP], m_maxSteps));
  Ret (lower ++ upper ++
       (if 0 <? lowerPart then [op ADD] else if lowerPart <? 0 then [op SUB] else []),
       m_maxSteps).

(** The loop over [bits = n + 8], down to 9. *)
Fixpoint searchBits (n : nat) (_value : Z) (routine : list AssemblyItem) (bestGas m_maxSteps : Z)
  : Result (list AssemblyItem * Z) :=
  match n with
  | O => Ret (routine, m_maxSteps)
  | S n' =>
      let bits := Z.of_nat n + 8 in
      if 0 <? m_maxSteps then
        match decompose _value bits with
        | None => searchBits n' _value routine bestGas m_maxSteps
        | Some (upperPart, lowerPart) =>
            '(newRoutine, m_maxSteps) ← buildRoutine bits upperPart lowerPart m_maxSteps;
            let m_maxSteps := if 0 <? m_maxSteps then m_maxSteps - 1 else m_maxSteps in
            newGas ← lift (gasNeeded m_params newRoutine);
            if newGas <? bestGas
            then searchBits n' _value newRoutine newGas m_maxSteps
            else searchBits n' _value routine bestGas m_maxSteps
        end
      else Ret (routine, m_maxSteps)
  end.
End Search.

(** [ComputeMethod::findRepresentation] with the steps left.  Each recursive call is on a
    value of fewer bytes, so fuel of 33 is enough for a word ([findRepresentation_total]). *)
Fixpoint findRepresentation (fuel : nat) (m_params : Params) (_value m_maxSteps : Z)
  : Result (list AssemblyItem * Z) :=
  match fuel with
  | O => OutOfFuel
  | S fuel =>
      if _value <? 0x10000 then Ret ([push _value], m_maxSteps)
      else if (bytesRequired (u256_not _value) <? bytesRequired _value)%nat then
        '(r, m_maxSteps) ← findRepresentation fuel m_params (u256_not _value) m_maxSteps;
        Ret (r ++ [op NOT], m_maxSteps)
      else
        bestGas ← lift (gasNeeded m_params [push _value]);
        searchBits m_params (findRepresentation fuel m_params) 247 _value [push _value] bestGas m_maxSteps
  end.

(** One operation of the tiny EVM of [checkRepresentation]; the stack's top is its first
    element.  [Exception] is an assertion, [Ret None] is [return false]. *)
Definition checkOperation (m_params : Params) (i : Instruction) (stack : list Z)
  : Result (option (list Z)) :=
  if (length stack <? args (instructionInfo i))%nat then Ret None
  else match i, stack with
       | MUL, a :: b :: stack => Ret (Some (u256_mul a b :: stack))
       | EXP, a :: b :: stack => if 0xff <? b then Ret None else Ret (Some (u256 (a ^ b) :: stack))
       | ADD, a :: b :: stack => Ret (Some (u256_add a b :: stack))
       | SUB, a :: b :: stack => Ret (Some (u256_sub a b :: stack))
       | NOT, a :: stack => Ret (Some (u256_not a :: stack))
       | SHL, a :: b :: stack =>
           _ ← lift (assertThrow (hasBitwiseShifting (evmVersion m_params)));
           _ ← lift (assertThrow (a <=? 255));
           Ret (Some (u256 (Z.shiftl b a) :: stack))
       | SHR, a :: b :: stack =>
           _ ← lift (assertThrow (hasBitwiseShifting (evmVersion m_params)));
           _ ← lift (assertThrow (a <=? 255));
           Ret (Some (u256_shr b a :: stack))
       | _, _ => Ret None
       end.

Fixpoint checkLoop (m_params : Params) (_routine : list AssemblyItem) (stack : list Z)
  : Result (option (list Z)) :=
  match _routine with
  | [] => Ret (Some stack)
  | item :: _routine =>
      match m_type item with
      | Operation =>
          o ← checkOperation m_params (m_instruction item) stack;
          match o with
          | Some stack => checkLoop m_params _routine stack
          | None => Ret None
          end
      | Push => checkLoop m_params _routine (m_data item :: stack)
      | _ => Ret None
      end
  end.

(** [ComputeMethod::checkRepresentation]. *)
Definition checkRepresentation (m_params : Params) (_value : Z) (_routine : list AssemblyItem)
  : Result bool :=
  o ← checkLoop m_params _routine [];
  Ret match o with Some [v] => v =? _value | _ => false end.

(** The constructor of [ComputeMethod]: the routine. *)
Definition ComputeMethod (m_params : Params) (m_value : Z) : Result (list AssemblyItem) :=
  '(m_routine, _) ← findRepresentation 33 m_params m_value 10000;
  b ← checkRepresentation m_params m_value m_routine;
  _ ← lift (assertThrow b);
  Ret m_routine.

(** ** Replacing the constants of an assembly *)

(** The part of [Assembly] the optimiser uses: the items and [m_data]. *)
Record Assembly := mkAssembly {
  m_items : list AssemblyItem;
  m_assemblyData : gmap Z (list Z) }.

Section Assembly.
(** The Keccak-256 hash of a byte string, as a number; nothing is assumed of it. *)
Context (keccak256 : list Z -> Z).

(** [Assembly::newData]. *)
Definition newData (_assembly : Assembly) (_data : list Z) : AssemblyItem * Assembly :=
  let h := keccak256 _data in
  (dataItem PushData h noLocation,
   mkAssembly (m_items _assembly) (<[h := _data]> (m_assemblyData _assembly))).

(** [CodeCopyMethod::execute]: item 4 of the routine is the data. *)
Definition copy_execute (m_value : Z) (_assembly : Assembly) : option (list AssemblyItem * Assembly) :=
  let data := toBigEndian 32 m_value in
  _ ← assertThrow (Nat.eqb (length data) 32);
  let '(it, _assembly) := newData _assembly data in
  Some (<[4%nat := it]> copyRoutine, _assembly).

(** [map<AssemblyItem, size_t> pushes]: the constants in the order of the map, with the
    number of times each is pushed. *)
Fixpoint countPush (v : Z) (pushes : list (Z * Z)) : list (Z * Z) :=
  match pushes with
  | [] => [(v, 1)]
  | (v', n) :: rest =>
      if v <? v' then (v, 1) :: pushes
      else if v =? v' then (v', n + 1) :: rest
      else (v', n) :: countPush v rest
  end.

Definition countPushes (_items : list AssemblyItem) : list (Z * Z) :=
  fold_left (fun pushes item =>
    if bool_decide (m_type item = Push) then countPush (m_data item) pushes else pushes) _items [].

(** [replaceConstants]. *)
Fixpoint replaceConstants (_items : list AssemblyItem) (_replacements : gmap Z (list AssemblyItem))
  : list AssemblyItem :=
  match _items with
  | [] => []
  | item :: _items =>
      (if bool_decide (m_type item = Push) then
         match _replacements !! m_data item with Some r => r | None => [item] end
       else [item]) ++ replaceConstants _items _replacements
  end.

(** One constant in the loop of [optimiseConstants]: the replacement, empty to keep the
    constant, whether it counts as an optimisation, and the assembly. *)
Definition optimiseConstant (_isCreation : bool) (_runs : Z) (_evmVersion : EVMVersion)
    (data mult : Z) (_assembly : Assembly) : Result (list AssemblyItem * Z * Assembly) :=
  let params := mkParams _isCreation _runs mult _evmVersion in
  literalGas ← lift (literal_gasNeeded params data);
  copyGas ← lift (copy_gasNeeded params data);
  routine ← ComputeMethod params data;
  computeGas ← lift (gasNeeded params routine);
  if (copyGas <? literalGas) && (copyGas <? computeGas) then
    '(r, _assembly) ← lift (copy_execute data _assembly); Ret (r, 1, _assembly)
  else if (computeGas <? literalGas) && (computeGas <=? copyGas) then Ret (routine, 1, _assembly)
  else Ret ([], 0, _assembly).

(** The loop of [optimiseConstants] over the constants. *)
Fixpoint optimiseLoop (_isCreation : bool) (_runs : Z) (_evmVersion : EVMVersion)
    (pushes : list (Z * Z)) (optimisations : Z) (pendingReplacements : gmap Z (list AssemblyItem))
    (_assembly : Assembly) : Result (Z * gmap Z (list AssemblyItem) * Assembly) :=
  match pushes with
  | [] => Ret (optimisations, pendingReplacements, _assembly)
  | (data, mult) :: pushes =>
      if data <? 0x100
      then optimiseLoop _isCreation _runs _evmVersion pushes optimisations pendingReplacements _assembly
      else
        '(replacement, n, _assembly) ← optimiseConstant _isCreation _runs _evmVersion data mult _assembly;
        let pendingReplacements :=
          match replacement with
          | [] => pendingReplacements
          | _ => <[data := replacement]> pendingReplacements
          end in
        optimiseLoop _isCreation _runs _evmVersion pushes (optimisations + n) pendingReplacements _assembly
  end.

(** [ConstantOptimisationMethod::optimiseConstants]: the number of optimisations and the
    assembly. *)
Definition optimiseConstants (_isCreation : bool) (_runs : Z) (_evmVersion : EVMVersion)
    (_assembly : Assembly) : Result (Z * Assembly) :=
  '(optimisations, pendingReplacements, _assembly) ←
    optimiseLoop _isCreation _runs _evmVersion (countPushes (m_items _assembly)) 0 ∅ _assembly;
  Ret (optimisations mod 2 ^ 32,
       if bool_decide (pendingReplacements = ∅) then _assembly
       else mkAssembly (replaceConstants (m_items _assembly) pendingReplacements)
              (m_assemblyData _assembly)).
End Assembly.

Example representation_of_shifted :
  ComputeMethod (mkParams false 200 1 Istanbul) (0xff * 2 ^ 240) =
    Ret [push 0xff; push 240; op SHL].
Proof. vm_compute. reflexivity. Qed.

Example representation_of_negated :
  ComputeMethod (mkParams false 1 1 Byzantium) (modulus - 2 ^ 96) =
    Ret [push 1; push 96; push 2; op EXP; op SUB; op NOT].
Proof. vm_compute. reflexivity. Qed.
