(* ===== verification/Peephole.v ===== *)
(** * Peephole: the peephole optimiser, libevmasm/PeepholeOptimiser.cpp

    A method looks at the items from the current index on and either declines or gives
    the items to append to the output and the number of items it consumed. *)

From S2P Require Import Prelude U256 Instruction AssemblyItem SemanticInformation.

(** [OptimiserState]; [out] is what has been appended so far. *)
Record OptimiserState := mkOptimiser {
  items : list AssemblyItem;
  i : nat;
  out : list AssemblyItem }.

(** The [applySimple] of a method: [None] is [false], a list is what the method appends
    before it returns [true].  A method of window size [n] is given the next [n] items. *)
Inductive applySimple : Type :=
| Window1 (f : AssemblyItem -> option (list AssemblyItem))
| Window2 (f : AssemblyItem -> AssemblyItem -> option (list AssemblyItem))
| Window3 (f : AssemblyItem -> AssemblyItem -> AssemblyItem -> option (list AssemblyItem))
| Window4 (f : AssemblyItem -> AssemblyItem -> AssemblyItem -> AssemblyItem -> option (list AssemblyItem)).

(** [ApplyRule]: gives the method its items, when there are enough of them; the result
    has the window size. *)
Definition applyRule (m : applySimple) (_in : list AssemblyItem) : option (list AssemblyItem * nat) :=
  match m, _in with
  | Window1 f, a :: _ => o ← f a; Some (o, 1%nat)
  | Window2 f, a :: b :: _ => o ← f a b; Some (o, 2%nat)
  | Window3 f, a :: b :: c :: _ => o ← f a b c; Some (o, 3%nat)
  | Window4 f, a :: b :: c :: d :: _ => o ← f a b c d; Some (o, 4%nat)
  | _, _ => None
  end.

Definition output_if (b : bool) (o : list AssemblyItem) : option (list AssemblyItem) :=
  if b then Some o else None.

Definition Identity : applySimple := Window1 (fun _item => Some [_item]).

Definition PushPop : applySimple := Window2 (fun _push _pop =>
  output_if (is_op _pop POP &&
    (item_isDup _push ||
     match m_type _push with
     | Push | PushString | PushTag | PushSub | PushSubSize | PushProgramSize | PushData
     | PushLibraryAddress => true
     | _ => false
     end)) []).

Definition OpPop : applySimple := Window2 (fun _op _pop =>
  if is_op _pop POP && bool_decide (m_type _op = Operation) then
    let instr := m_instruction _op in
    if Nat.eqb (ret (instructionInfo instr)) 1 && negb (sideEffects (instructionInfo instr))
    then Some (replicate (args (instructionInfo instr)) (opItem POP (m_location _op)))
    else None
  else None).

Definition DoubleSwap : applySimple := Window2 (fun _s1 _s2 =>
  output_if (item_eqb _s1 _s2 && item_isSwap _s1) []).

Definition DoublePush : applySimple := Window2 (fun _push1 _push2 =>
  output_if (bool_decide (m_type _push1 = Push) && bool_decide (m_type _push2 = Push) &&
             (m_data _push1 =? m_data _push2))
    [_push1; opItem DUP1 (m_location _push2)]).

Definition CommutativeSwap : applySimple := Window2 (fun _swap _op =>
  output_if (is_op _swap SWAP1 && isCommutativeOperation _op) [_op]).

(** The map [swappableOps]. *)
Definition swappableOps : list (Instruction * Instruction) :=
  [(LT, GT); (GT, LT); (SLT, SGT); (SGT, SLT)].

(** The new item has no location. *)
Definition SwapComparison : applySimple := Window2 (fun _swap _op =>
  if is_op _swap SWAP1 && bool_decide (m_type _op = Operation) then
    swapped ← assoc (m_instruction _op) swappableOps;
    Some [opItem swapped noLocation]
  else None).

Definition DupSwap : applySimple := Window2 (fun _dupN _swapN =>
  output_if (item_isDup _dupN && item_isSwap _swapN &&
             (getDupNumber (m_instruction _dupN) =? getSwapNumber (m_instruction _swapN))) [_dupN]).

Definition IsZeroIsZeroJumpI : applySimple := Window4 (fun _iszero1 _iszero2 _pushTag _jumpi =>
  output_if (is_op _iszero1 ISZERO && is_op _iszero2 ISZERO &&
             bool_decide (m_type _pushTag = PushTag) && is_op _jumpi JUMPI) [_pushTag; _jumpi]).

Definition JumpToNext : applySimple := Window3 (fun _pushTag _jump _tag =>
  output_if (bool_decide (m_type _pushTag = PushTag) && (is_op _jump JUMP || is_op _jump JUMPI) &&
             bool_decide (m_type _tag = Tag) && (m_data _pushTag =? m_data _tag))
    ((if is_op _jump JUMPI then [opItem POP (m_location _jump)] else []) ++ [_tag])).

Definition hasTagMask (_item : AssemblyItem) : bool := Z.land (m_data _item) 0xFFFFFFFF =? 0xFFFFFFFF.

Definition TagConjunctions : applySimple := Window3 (fun _pushTag _pushConstant _and =>
  if negb (is_op _and AND) then None
  else if bool_decide (m_type _pushTag = PushTag) && bool_decide (m_type _pushConstant = Push) &&
          hasTagMask _pushConstant
  then Some [_pushTag]
  else if bool_decide (m_type _pushConstant = PushTag) && bool_decide (m_type _pushTag = Push) &&
          hasTagMask _pushTag
  then Some [_pushConstant]
  else None).

Definition TruthyAnd : applySimple := Window3 (fun _push _not _and =>
  output_if (bool_decide (m_type _push = Push) && (m_data _push =? 0) && is_op _not NOT && is_op _and AND) []).

(** The items [UnreachableCode] looks for. *)
Definition endsBlock (_item : AssemblyItem) : bool :=
  is_op _item JUMP || is_op _item RETURN || is_op _item STOP || is_op _item INVALID ||
  is_op _item SELFDESTRUCT || is_op _item REVERT.

(** The number of items before the next tag. *)
Fixpoint untilTag (it : list AssemblyItem) : nat :=
  match it with
  | [] => 0
  | a :: it => if bool_decide (m_type a = Tag) then 0 else S (untilTag it)
  end.

(** [UnreachableCode::apply], on the items from the current index on. *)
Definition unreachableCode (it : list AssemblyItem) : option (list AssemblyItem * nat) :=
  match it with
  | [] => None
  | a :: rest =>
      if negb (endsBlock a) then None
      else
        let n := S (untilTag rest) in
        if (1 <? n)%nat then Some ([a], n) else None
  end.

(** A method: a simple one or [UnreachableCode]. *)
Inductive Method : Type :=
| Simple (m : applySimple)
| UnreachableCode.

(** [apply] of a method on the remaining items: what it appends to the output and the
    number of items it consumes ([_state.i] increases by). *)
Definition applyMethod (m : Method) (it : list AssemblyItem) : option (list AssemblyItem * nat) :=
  match m with
  | Simple m => applyRule m it
  | UnreachableCode => unreachableCode it
  end.

(** The methods in the order [optimise] tries them. *)
Definition methods : list Method :=
  [Simple PushPop; Simple OpPop; Simple DoublePush; Simple DoubleSwap; Simple CommutativeSwap;
   Simple SwapComparison; Simple DupSwap; Simple IsZeroIsZeroJumpI; Simple JumpToNext;
   UnreachableCode; Simple TagConjunctions; Simple TruthyAnd; Simple Identity].

(** [applyMethods]: the first method that applies; throws when none does. *)
Fixpoint firstMethod (ms : list Method) (it : list AssemblyItem) : option (list AssemblyItem * nat) :=
  match ms with
  | [] => None
  | m :: ms => match applyMethod m it with Some r => Some r | None => firstMethod ms it end
  end.

Definition applyMethods (_state : OptimiserState) : option OptimiserState :=
  '(o, n) ← firstMethod methods (drop (i _state) (items _state));
  Some (mkOptimiser (items _state) (i _state + n) (out _state ++ o)).

(** The loop of [optimise]. *)
Fixpoint optimiseLoop (fuel : nat) (_state : OptimiserState) : Result OptimiserState :=
  if (i _state <? length (items _state))%nat then
    match fuel with
    | O => OutOfFuel
    | S fuel => _state ← lift (applyMethods _state); optimiseLoop fuel _state
    end
  else Ret _state.

Definition numberOfPops (_items : list AssemblyItem) : Z :=
  Z.of_nat (length (List.filter (fun it => is_op it POP) _items)).

(** [PeepholeOptimiser::optimise]: whether it changed the items, and the items.  Every
    call of a method consumes an item, so the number of items bounds the loop.
    [m_optimisedItems] is empty at every call: it is new or has been moved from. *)
Definition optimise (m_items : list AssemblyItem) : Result (bool * list AssemblyItem) :=
  state ← optimiseLoop (length m_items) (mkOptimiser m_items 0 []);
  let m_optimisedItems := out state in
  if (length m_optimisedItems <? length m_items)%nat then Ret (true, m_optimisedItems)
  else if (length m_optimisedItems =? length m_items)%nat then
    b ← lift (items_bytesRequired m_optimisedItems 3);
    b' ← lift (items_bytesRequired m_items 3);
    if (b <? b') || (numberOfPops m_items <? numberOfPops m_optimisedItems)
    then Ret (true, m_optimisedItems)
    else Ret (false, m_items)
  else Ret (false, m_items).

(** The peephole step of [Assembly::optimiseInternal]: repeats [optimise] until it
    changes nothing; throws when the number of changes reaches 64000.  [count] is the
    number of changes of the steps before it. *)
Fixpoint peepholeLoop (fuel : nat) (count : Z) (m_items : list AssemblyItem)
  : Result (Z * list AssemblyItem) :=
  match fuel with
  | O => OutOfFuel
  | S fuel =>
      '(changed, m_items) ← optimise m_items;
      if changed : bool then
        let count := count + 1 in
        _ ← lift (assertThrow (count <? 64000));
        peepholeLoop fuel count m_items
      else Ret (count, m_items)
  end.

(** The counter is not negative, so it reaches 64000, and the step throws, before the
    fuel runs out. *)
Definition peephole (count : Z) (m_items : list AssemblyItem) : Result (Z * list AssemblyItem) :=
  peepholeLoop (Z.to_nat 64001) count m_items.
