(* ===== verification/JumpdestRemover.v ===== *)
(** * JumpdestRemover: removal of the tags no push refers to, libevmasm/JumpdestRemover.{h,cpp}

    The operations, and which items they keep. *)

From S2P Require Import Prelude U256 Instruction AssemblyItem.

(** [std::remove_if] with [erase]: the predicate is called on the elements in order, and may
    throw. *)
Fixpoint remove_if {A} (pred : A -> option bool) (l : list A) : option (list A) :=
  match l with
  | [] => Some []
  | x :: l =>
      b ← pred x;
      l ← remove_if pred l;
      Some (if b : bool then l else x :: l)
  end.

Fixpoint referencedTags (_items : list AssemblyItem) (_subId : Z) : gset Z :=
  match _items with
  | [] => ∅
  | item :: _items =>
      let ret := referencedTags _items _subId in
      match m_type item with
      | PushTag =>
          match splitForeignPushTag item with
          | Some (subId, tag) => if subId =? _subId then {[ tag ]} ∪ ret else ret
          | None => ret
          end
      | _ => ret
      end
  end.

(** The predicate of [optimise]: the item is a tag without references. *)
Definition unreferenced (references : gset Z) (_item : AssemblyItem) : option bool :=
  match m_type _item with
  | Tag =>
      '(subId, tag) ← splitForeignPushTag _item;
      _ ← assertThrow (subId =? size_t_max);
      Some (negb (bool_decide (tag ∈ references)))
  | _ => Some false
  end.

(** [JumpdestRemover::optimise]: whether it removed an item, and the items. *)
Definition optimise (_tagsReferencedFromOutside : gset Z) (m_items : list AssemblyItem)
  : option (bool * list AssemblyItem) :=
  let references := referencedTags m_items size_t_max ∪ _tagsReferencedFromOutside in
  let initialSize := length m_items in
  m_items ← remove_if (unreferenced references) m_items;
  Some (negb (Nat.eqb (length m_items) initialSize), m_items).

(** ** The items that are kept *)

(** A tag of the assembly itself: its id fits a [size_t]. *)
Definition local_tag (it : AssemblyItem) : Prop := m_type it = Tag -> 0 <= m_data it <= size_t_max.

Lemma unreferenced_local references it :
  local_tag it ->
  unreferenced references it =
  Some (bool_decide (m_type it = Tag) && negb (bool_decide (m_data it ∈ references))).
Proof.
  unfold unreferenced, local_tag. intros Hl. destruct (m_type it) eqn:Ht; try reflexivity.
  rewrite split_local by (unfold isTagItem; rewrite ?Ht; auto). reflexivity.
Qed.

Definition is_unreferenced (references : gset Z) (it : AssemblyItem) : bool :=
  match unreferenced references it with Some b => b | None => false end.

(** What [remove_if] returns, if the predicate does not throw. *)
Lemma remove_if_filter {A} (pred : A -> option bool) (l l' : list A) :
  remove_if pred l = Some l' ->
  l' = List.filter (fun x => match pred x with Some b => negb b | None => true end) l /\
  forall x, In x l -> is_Some (pred x).
Proof.
  revert l'. induction l as [|x l IH]; intros l'; cbn [remove_if]; [by intros [= <-]|].
  destruct (pred x) as [b|] eqn:Hx; [|done]. cbn [mbind option_bind].
  destruct (remove_if pred l) as [l1|]; [|done]. intros [= <-]. destruct (IH l1 eq_refl) as [-> Hin].
  split; [cbn [List.filter]; rewrite Hx; by destruct b|]. intros y [<-|Hy]; [by rewrite Hx|by apply Hin].
Qed.

Lemma remove_if_returns {A} (pred : A -> option bool) (l : list A) :
  (forall x, In x l -> is_Some (pred x)) -> is_Some (remove_if pred l).
Proof.
  induction l as [|x l IH]; intros Hin; [by eexists|]. cbn [remove_if].
  destruct (Hin x (or_introl eq_refl)) as [b ->]. cbn [mbind option_bind].
  destruct IH as [l' ->]; [intros y Hy; apply Hin; by right|]. by eexists.
Qed.

(** The references do not change when tags are removed. *)
Lemma referencedTags_filter f l subId :
  (forall it, m_type it = PushTag -> f it = true) ->
  referencedTags (List.filter f l) subId = referencedTags l subId.
Proof.
  intros Hf. induction l as [|it l IH]; [done|]. cbn [List.filter referencedTags].
  destruct (f it) eqn:E; cbn [referencedTags]; rewrite IH; [done|].
  destruct (m_type it) eqn:Ht; try done. by rewrite Hf in E.
Qed.

Definition is_kept (references : gset Z) (it : AssemblyItem) : bool := negb (is_unreferenced references it).

Lemma is_kept_tags references it : m_type it <> Tag -> is_kept references it = true.
Proof. unfold is_kept, is_unreferenced, unreferenced. by destruct (m_type it). Qed.

(** The items [optimise] returns. *)
Lemma optimise_kept outside p changed p' :
  optimise outside p = Some (changed, p') ->
  p' = List.filter (is_kept (referencedTags p size_t_max ∪ outside)) p /\
  changed = negb (Nat.eqb (length p') (length p)).
Proof.
  unfold optimise. destruct (remove_if _ p) as [l|] eqn:E; [|done]. intros [= <- <-]. split; [|done].
  apply remove_if_filter in E as [-> _]. apply List.filter_ext. intros it. unfold is_kept, is_unreferenced.
  by destruct (unreferenced _ it) as [[]|].
Qed.

(** On tags of the assembly itself, [optimise] keeps the items but the tags without references. *)
Definition kept_tag (references : gset Z) (it : AssemblyItem) : bool :=
  negb (bool_decide (m_type it = Tag)) || bool_decide (m_data it ∈ references).

Lemma optimise_local outside p :
  Forall local_tag p ->
  let p' := List.filter (kept_tag (referencedTags p size_t_max ∪ outside)) p in
  optimise outside p = Some (negb (Nat.eqb (length p') (length p)), p').
Proof.
  intros Hl. unfold optimise. assert (forall R, remove_if (unreferenced R) p = Some (List.filter (kept_tag R) p)) as ->; [|done].
  intros R. induction Hl as [|it p Hit _ IH]; [done|]. cbn [remove_if List.filter].
  rewrite unreferenced_local, IH by done. cbn [mbind option_bind].
  assert (bool_decide (m_type it = Tag) && negb (bool_decide (m_data it ∈ R)) = negb (kept_tag R it)) as ->;
    [|by destruct (kept_tag R it)].
  unfold kept_tag. by rewrite negb_orb, negb_involutive.
Qed.

Lemma filter_twice {A} (f : A -> bool) (l : list A) : List.filter f (List.filter f l) = List.filter f l.
Proof.
  induction l as [|x l IH]; [done|]. cbn. destruct (f x) eqn:E; [|done]. cbn. by rewrite E, IH.
Qed.

Lemma filter_length_all {A} (f : A -> bool) (l : list A) :
  length (List.filter f l) = length l <-> forall x, In x l -> f x = true.
Proof.
  induction l as [|x l IH]; cbn; [by split|]. pose proof (List.filter_length_le f l) as Hle. destruct (f x) eqn:E; cbn.
  - rewrite Nat.succ_inj_wd, IH. split; [by intros Hall y [<-|Hy]; auto|intros Hall y Hy; apply Hall; by right].
  - split; [lia|]. intros Hall. rewrite Hall in E by (by left). done.
Qed.

Lemma filter_length_id {A} (f : A -> bool) (l : list A) :
  length (List.filter f l) = length l -> List.filter f l = l.
Proof.
  rewrite filter_length_all. induction l as [|x l IH]; intros Hall; [done|]. cbn.
  rewrite (Hall x (or_introl eq_refl)). f_equal. apply IH. intros y Hy. apply Hall. by right.
Qed.

Lemma filter_Forall {A} (P : A -> Prop) (f : A -> bool) (l : list A) : Forall P l -> Forall P (List.filter f l).
Proof. rewrite !List.Forall_forall. intros HP x [Hx _]%List.filter_In. by apply HP. Qed.
