(* ===== verification/BlockDeduplicator.v ===== *)
(** * BlockDeduplicator: unification of equal blocks, libevmasm/BlockDeduplicator.{h,cpp}

    Two tags are unified when the items control runs through from them are equal, pushes of the
    own tag taken to be equal: every push of the later tag becomes a push of the earlier one, until
    nothing changes.  An iterator into the items is the list of the items from there on, an index
    a [nat].  The loops of [deduplicate] and of [applyTagReplacement], which follows chains of
    replacements, have fuel.

    The set [blocksSeen], ordered by [comparator], is the list of its elements: [find] returns an
    element that is neither less nor greater ([comparator_order] in BlockOrder: there is at most
    one). *)

From S2P Require Import Prelude U256 Instruction AssemblyItem SemanticInformation ExpressionClasses.

(** [AssemblyItem::operator<]. *)
Definition item_ltb (_a _b : AssemblyItem) : bool :=
  if negb (bool_decide (m_type _a = m_type _b)) then type_index (m_type _a) <? type_index (m_type _b)
  else match m_type _a with
       | Operation => opcode (m_instruction _a) <? opcode (m_instruction _b)
       | _ => m_data _a <? m_data _b
       end.

Definition is_tag (_item : AssemblyItem) : bool := bool_decide (m_type _item = Tag).

(** ** BlockIterator *)

Record BlockIterator : Set := mkIterator {
  bi_it : list AssemblyItem;
  replaceItem : option AssemblyItem;
  replaceWith : option AssemblyItem }.

Fixpoint skipTags (it : list AssemblyItem) : list AssemblyItem :=
  match it with
  | item :: it' => if is_tag item then skipTags it' else it
  | [] => []
  end.

(** [operator++]. *)
Definition increment (b : BlockIterator) : BlockIterator :=
  let it :=
    match bi_it b with
    | [] => []
    | item :: it =>
        if altersControlFlow item && negb (item_eqb item (opItem JUMPI noLocation)) then []
        else skipTags it
    end in
  mkIterator it (replaceItem b) (replaceWith b).

(** [operator*]; the iterator is not at the end. *)
Definition dereference (replaceItem replaceWith : option AssemblyItem) (item : AssemblyItem) : AssemblyItem :=
  match replaceItem, replaceWith with
  | Some from, Some to => if item_eqb item from then to else item
  | _, _ => item
  end.

(** [std::lexicographical_compare] up to the end of both. *)
Fixpoint lexicographical_compare (fuel : nat) (first second : BlockIterator) : bool :=
  match bi_it first, bi_it second, fuel with
  | x :: _, y :: _, S fuel =>
      let x := dereference (replaceItem first) (replaceWith first) x in
      let y := dereference (replaceItem second) (replaceWith second) y in
      if item_ltb x y then true
      else if item_ltb y x then false
      else lexicographical_compare fuel (increment first) (increment second)
  | [], _ :: _, _ => true
  | _, _, _ => false
  end.

(** ** deduplicate *)

Definition pushSelf : AssemblyItem := dataItem PushTag (u256 (-4)) noLocation.

Section Compare.
Context (m_items : list AssemblyItem).

(** The push of the tag at an index, or [pushSelf]. *)
Definition pushTagAt (_i : nat) : AssemblyItem :=
  match m_items !! _i with
  | Some item => if is_tag item then default pushSelf (pushTag item) else pushSelf
  | None => pushSelf
  end.

(** The iterator [comparator] starts with. *)
Definition blockAt (_i : nat) : BlockIterator :=
  let first := mkIterator (drop _i m_items) (Some (pushTagAt _i)) (Some pushSelf) in
  match bi_it first with
  | item :: _ =>
      if is_tag (dereference (replaceItem first) (replaceWith first) item) then increment first else first
  | [] => first
  end.

Definition comparator (_i _j : nat) : bool :=
  if Nat.eqb _i _j then false
  else lexicographical_compare (length m_items) (blockAt _i) (blockAt _j).

(** [blocksSeen.find]. *)
Definition findSeen (i : nat) (blocksSeen : list nat) : option nat :=
  List.find (fun j => negb (comparator i j) && negb (comparator j i)) blocksSeen.

(** The loop over the items: index [i] on. *)
Fixpoint findBlocks (items : list AssemblyItem) (i : nat) (blocksSeen : list nat) (m_replacedTags : gmap Z Z)
  : gmap Z Z :=
  match items with
  | [] => m_replacedTags
  | item :: items =>
      if negb (is_tag item) then findBlocks items (S i) blocksSeen m_replacedTags
      else
        match findSeen i blocksSeen with
        | None => findBlocks items (S i) (blocksSeen ++ [i]) m_replacedTags
        | Some j =>
            let data := match m_items !! j with Some seen => m_data seen | None => 0 end in
            findBlocks items (S i) blocksSeen (<[m_data item := data]> m_replacedTags)
        end
  end.
End Compare.

(** The inner loop of [applyTagReplacement]: from an iterator with value [second]. *)
Fixpoint lastReplacement (fuel : nat) (_replacements : gmap Z Z) (second : Z) : Result Z :=
  match fuel with
  | O => OutOfFuel
  | S fuel =>
      match _replacements !! second with
      | Some second => lastReplacement fuel _replacements second
      | None => Ret second
      end
  end.

(** The body of the loop of [applyTagReplacement]: whether the item has changed, and the item. *)
Definition replaceTag (fuel : nat) (_replacements : gmap Z Z) (_subId : Z) (item : AssemblyItem)
  : Result (bool * AssemblyItem) :=
  match m_type item with
  | PushTag =>
      '(subId, tagId) ← lift (splitForeignPushTag item);
      if negb (subId =? _subId) then Ret (false, item)
      else
        match _replacements !! tagId with
        | None => Ret (false, item)
        | Some second =>
            second ← lastReplacement fuel _replacements second;
            item ← lift (setPushTagSubIdAndTag item subId (second mod 2 ^ 64));
            Ret (true, item)
        end
  | _ => Ret (false, item)
  end.

Fixpoint applyTagReplacement (fuel : nat) (_items : list AssemblyItem) (_replacements : gmap Z Z) (_subId : Z)
  : Result (bool * list AssemblyItem) :=
  match _items with
  | [] => Ret (false, [])
  | item :: _items =>
      '(changed, item) ← replaceTag fuel _replacements _subId item;
      '(changed', _items) ← applyTagReplacement fuel _items _replacements _subId;
      Ret (changed || changed', item :: _items)
  end.

(** The loop of [deduplicate]: the number of iterations that changed something, the items, and
    the replaced tags. *)
Fixpoint deduplicateLoop (fuel : nat) (iterations : Z) (m_items : list AssemblyItem) (m_replacedTags : gmap Z Z)
  : Result (Z * list AssemblyItem * gmap Z Z) :=
  match fuel with
  | O => OutOfFuel
  | S fuel' =>
      let m_replacedTags := findBlocks m_items m_items 0 [] m_replacedTags in
      '(changed, m_items) ← applyTagReplacement fuel m_items m_replacedTags size_t_max;
      if changed : bool then deduplicateLoop fuel' (iterations + 1) m_items m_replacedTags
      else Ret (iterations, m_items, m_replacedTags)
  end.

(** [deduplicate], with [m_replacedTags] empty before: whether something was changed, the items,
    and the replaced tags. *)
Definition deduplicate (fuel : nat) (m_items : list AssemblyItem) : Result (bool * list AssemblyItem * gmap Z Z) :=
  if existsb (fun item => item_eqb item (dataItem Tag (m_data pushSelf) noLocation)) m_items ||
     existsb (fun item => item_eqb item (dataItem PushTag (m_data pushSelf) noLocation)) m_items
  then Ret (false, m_items, ∅)
  else
    '(iterations, m_items, m_replacedTags) ← deduplicateLoop fuel 0 m_items ∅;
    Ret (0 <? iterations, m_items, m_replacedTags).
