(* ===== verification/Assembly.v ===== *)
(** * Assembly: the optimiser of assemblies, libevmasm/Assembly.cpp:374-525

    [optimiseInternal] optimises the sub-assemblies, then runs the steps over the items until none
    of them changes anything, and the constant optimiser at last.  An assembly is a tree: the
    pointers [m_subs] are not shared.  [count], an [unsigned] that is only compared with 0 and 64000,
    is not wrapped: it is at most the number of changes.

    The eliminator's fuel and depth are those of CommonSubexpressionEliminator, [fuel] is also that
    of the deduplicator and of the loop over the steps.  Keccak-256 is an argument. *)

From S2P Require Import Prelude U256 CommonData Instruction EVMVersion AssemblyItem SemanticInformation SimplificationRules ExpressionClasses KnownState CommonSubexpressionEliminator GasMeter ConstantOptimiser Peephole JumpdestRemover BlockDeduplicator.

(** [Assembly::OptimiserSettings]. *)
Record OptimiserSettings : Set := mkSettings {
  s_isCreation : bool;
  runJumpdestRemover : bool;
  runPeephole : bool;
  runDeduplicate : bool;
  runCSE : bool;
  runConstantOptimiser : bool;
  s_evmVersion : EVMVersion;
  expectedExecutionsPerDeployment : Z }.

(** An assembly with its sub-assemblies. *)
Inductive AssemblyTree : Type :=
| mkTree (assembly : Assembly) (m_subs : list AssemblyTree).

Definition t_assembly (a : AssemblyTree) : Assembly := match a with mkTree assembly _ => assembly end.

Definition set_items (_items : list AssemblyItem) (a : Assembly) : Assembly := mkAssembly _items (m_assemblyData a).

Section Optimise.
Context (fuel depth : nat) (rules : RuleTable) (keccak256 : list Z -> Z).

(** ** The steps *)

(** The state of the loop: the changes so far, the items, the tags referred to from outside, and
    the replaced tags. *)
Record Progress := mkProgress {
  count : Z;
  p_items : list AssemblyItem;
  tagsReferencedFromOutside : gset Z;
  tagReplacements : gmap Z Z }.

Definition jumpdestStep (p : Progress) : Result Progress :=
  '(changed, items) ← lift (JumpdestRemover.optimise (tagsReferencedFromOutside p) (p_items p));
  Ret (mkProgress (if changed : bool then count p + 1 else count p) items
         (tagsReferencedFromOutside p) (tagReplacements p)).

Definition peepholeStep (p : Progress) : Result Progress :=
  '(count, items) ← peephole (count p) (p_items p);
  Ret (mkProgress count items (tagsReferencedFromOutside p) (tagReplacements p)).

(** The loop over the replaced tags, in the order of the map. *)
Fixpoint recordReplacements (replacements : list (Z * Z)) (outside : gset Z) (tagReplacements : gmap Z Z)
  : Result (gset Z * gmap Z Z) :=
  match replacements with
  | [] => Ret (outside, tagReplacements)
  | (first, second) :: replacements =>
      _ ← lift (assertThrow ((first <=? size_t_max) && (second <=? size_t_max)));
      _ ← lift (assertThrow (negb (bool_decide (is_Some (tagReplacements !! first)))));
      recordReplacements replacements
        (if bool_decide (first ∈ outside) then {[ second ]} ∪ outside ∖ {[ first ]} else outside)
        (<[first := second]> tagReplacements)
  end.

Definition deduplicateStep (p : Progress) : Result Progress :=
  '(changed, items, replacedTags) ← deduplicate fuel (p_items p);
  if changed : bool then
    '(outside, replacements) ← recordReplacements (entries replacedTags) (tagsReferencedFromOutside p) (tagReplacements p);
    Ret (mkProgress (count p + 1) items outside replacements)
  else Ret (mkProgress (count p) items (tagsReferencedFromOutside p) (tagReplacements p)).

(** The items of a chunk and what the eliminator makes of them, if it may be used. *)
Definition optimisedChunk (usesMSize : bool) (items : list AssemblyItem)
  : Result (list AssemblyItem * option (list AssemblyItem)) :=
  '(rest, (eliminator, cl)) ←
    feedItems fuel rules keccak256 (eliminator emptyState) items usesMSize emptyClasses;
  match getOptimizedItems fuel rules keccak256 depth eliminator cl with
  | Done (chunk, _) => Ret (rest, Some chunk)
  | Throws StackTooDeepException | Throws ItemNotAvailableException => Ret (rest, None)
  | Throws OptimizerException => Exception
  | NoFuel => OutOfFuel
  end.

(** The loop over the chunks: the number of replacements and the new items.  Every chunk has an
    item, so [n], the number of items, bounds the loop. *)
Fixpoint optimiseChunks (n : nat) (usesMSize : bool) (items : list AssemblyItem) : Result (Z * list AssemblyItem) :=
  match items, n with
  | [], _ => Ret (0, [])
  | _ :: _, O => OutOfFuel
  | _ :: _, S n =>
      '(rest, chunk) ← optimisedChunk usesMSize items;
      let orig := take (length items - length rest) items in
      '(replaced, optimisedItems) ← optimiseChunks n usesMSize rest;
      match chunk with
      | Some chunk =>
          if (length chunk <? length orig)%nat then Ret (replaced + 1, chunk ++ optimisedItems)
          else Ret (replaced, orig ++ optimisedItems)
      | None => Ret (replaced, orig ++ optimisedItems)
      end
  end.

Definition cseStep (p : Progress) : Result Progress :=
  let items := p_items p in
  let usesMSize := existsb (fun item => item_eqb item (opItem MSIZE noLocation)) items in
  '(replaced, optimisedItems) ← optimiseChunks (length items) usesMSize items;
  if (length optimisedItems <? length items)%nat
  then Ret (mkProgress (count p + replaced + 1) optimisedItems (tagsReferencedFromOutside p) (tagReplacements p))
  else Ret (mkProgress (count p + replaced) items (tagsReferencedFromOutside p) (tagReplacements p)).

Definition runIf (b : bool) (step : Progress -> Result Progress) (p : Progress) : Result Progress :=
  if b then step p else Ret p.

(** One iteration of the loop. *)
Definition optimiseOnce (_settings : OptimiserSettings) (p : Progress) : Result Progress :=
  p ← runIf (runJumpdestRemover _settings) jumpdestStep
        (mkProgress 0 (p_items p) (tagsReferencedFromOutside p) (tagReplacements p));
  p ← runIf (runPeephole _settings) peepholeStep p;
  p ← runIf (runDeduplicate _settings) deduplicateStep p;
  runIf (runCSE _settings) cseStep p.

(** The loop until nothing changes. *)
Fixpoint optimiseItems (n : nat) (_settings : OptimiserSettings) (p : Progress) : Result Progress :=
  match n with
  | O => OutOfFuel
  | S n =>
      p ← optimiseOnce _settings p;
      if 0 <? count p then optimiseItems n _settings p else Ret p
  end.

(** ** optimiseInternal *)

Definition withoutCreation (_settings : OptimiserSettings) : OptimiserSettings :=
  mkSettings false (runJumpdestRemover _settings) (runPeephole _settings) (runDeduplicate _settings)
    (runCSE _settings) (runConstantOptimiser _settings) (s_evmVersion _settings)
    (expectedExecutionsPerDeployment _settings).

Section Subs.
Context (optimiseSub : gset Z -> AssemblyTree -> Result (AssemblyTree * gmap Z Z)).

(** The loop over the sub-assemblies, from [subId] on: the items, and the sub-assemblies. *)
Fixpoint optimiseSubs (subId : Z) (m_items : list AssemblyItem) (m_subs : list AssemblyTree) : Result (list AssemblyItem * list AssemblyTree) :=
  match m_subs with
  | [] => Ret (m_items, [])
  | sub :: m_subs =>
      '(sub, subTagReplacements) ← optimiseSub (referencedTags m_items subId) sub;
      '(_, m_items) ← applyTagReplacement fuel m_items subTagReplacements subId;
      '(m_items, m_subs) ← optimiseSubs (subId + 1) m_items m_subs;
      Ret (m_items, sub :: m_subs)
  end.
End Subs.

Fixpoint optimiseInternal (_settings : OptimiserSettings) (_tagsReferencedFromOutside : gset Z)
    (a : AssemblyTree) : Result (AssemblyTree * gmap Z Z) :=
  match a with
  | mkTree assembly m_subs =>
      '(items, m_subs) ←
        optimiseSubs (optimiseInternal (withoutCreation _settings)) 0 (m_items assembly) m_subs;
      p ← optimiseItems fuel _settings (mkProgress 0 items _tagsReferencedFromOutside ∅);
      let assembly := set_items (p_items p) assembly in
      assembly ←
        (if runConstantOptimiser _settings then
           '(_, assembly) ← optimiseConstants keccak256 (s_isCreation _settings)
              (if s_isCreation _settings then 1 else expectedExecutionsPerDeployment _settings)
              (s_evmVersion _settings) assembly;
           Ret assembly
         else Ret assembly);
      Ret (mkTree assembly m_subs, tagReplacements p)
  end.

(** [optimise(OptimiserSettings)] and [optimise(bool, EVMVersion, bool, size_t)]. *)
Definition optimiseWith (_settings : OptimiserSettings) (a : AssemblyTree) : Result AssemblyTree :=
  '(a, _) ← optimiseInternal _settings ∅ a; Ret a.

Definition optimise (_enable : bool) (_evmVersion : EVMVersion) (_isCreation : bool) (_runs : Z) (a : AssemblyTree)
  : Result AssemblyTree :=
  optimiseWith (mkSettings _isCreation true true _enable _enable _enable _evmVersion _runs) a.
End Optimise.
