(* ===== verification/LinkerObject.v ===== *)
(** * LinkerObject: byte code that may refer to libraries, libevmasm/LinkerObject.{h,cpp}

    A string is the list of its characters.  [bytecode] is written at offsets that are in range; a
    write beyond the end, undefined in the source, is cut off.  Keccak-256, as the hexadecimal digits
    of the hash of a string, is an argument of the placeholder. *)

From Stdlib Require Import Ascii.
From stdpp Require Import sorting.
From S2P Require Import Prelude U256 CommonData.

Record LinkerObject := mkLinkerObject {
  bytecode : list Z;
  linkReferences : gmap Z (list Z);
  immutableReferences : gmap Z (list Z * list Z) }.

Definition emptyObject : LinkerObject := mkLinkerObject [] ∅ ∅.

(** The entries of a [std::map] with integer keys, in order. *)
Definition ordered {A} (m : gmap Z A) : list (Z * A) :=
  omap (fun k => v ← m !! k; Some (k, v)) (merge_sort Z.le (elements (dom m))).

(** [std::copy] of bytes into a vector, from an offset on. *)
Definition write (offset : Z) (bs l : list Z) : list Z :=
  let n := Z.to_nat offset in take n l ++ take (length l - n) bs ++ drop (n + length bs) l.

Definition append (this _other : LinkerObject) : LinkerObject :=
  mkLinkerObject (bytecode this ++ bytecode _other)
    (fold_left (fun m ref => <[fst ref + Z.of_nat (length (bytecode this)) := snd ref]> m)
       (ordered (linkReferences _other)) (linkReferences this))
    (immutableReferences this).

(** The part of a string after its first colon. *)
Fixpoint afterColon (s : list Z) : option (list Z) :=
  match s with
  | [] => None
  | c :: s => if c =? chr ":" then Some s else afterColon s
  end.

Definition matchLibrary (_linkRefName : list Z) (_libraryAddresses : gmap (list Z) (list Z)) : option (list Z) :=
  match _libraryAddresses !! _linkRefName with
  | Some address => Some address
  | None => name ← afterColon _linkRefName; _libraryAddresses !! name
  end.

(** The loop of [link] over the references. *)
Fixpoint linkAll (_libraryAddresses : gmap (list Z) (list Z)) (refs : list (Z * list Z)) (code : list Z)
    (remainingRefs : gmap Z (list Z)) : list Z * gmap Z (list Z) :=
  match refs with
  | [] => (code, remainingRefs)
  | (offset, library) :: refs =>
      match matchLibrary library _libraryAddresses with
      | Some address => linkAll _libraryAddresses refs (write offset (take 20 address) code) remainingRefs
      | None => linkAll _libraryAddresses refs code (<[offset := library]> remainingRefs)
      end
  end.

Definition link (_libraryAddresses : gmap (list Z) (list Z)) (this : LinkerObject) : LinkerObject :=
  let '(code, remainingRefs) := linkAll _libraryAddresses (ordered (linkReferences this)) (bytecode this) ∅ in
  mkLinkerObject code remainingRefs (immutableReferences this).

Section Hex.
(** The 64 lower case hexadecimal digits of the Keccak-256 hash of a string. *)
Context (keccak256_hex : list Z -> list Z).

Definition libraryPlaceholder (_libraryName : list Z) : list Z :=
  str "$" ++ take 34 (keccak256_hex _libraryName) ++ str "$".

Definition toHex (this : LinkerObject) : list Z :=
  fold_left (fun hex ref =>
      write (fst ref * 2) (str "__" ++ take 36 (libraryPlaceholder (snd ref)) ++ str "__") hex)
    (ordered (linkReferences this)) (CommonData.toHex (bytecode this) DontAdd Lower).
End Hex.

(** ** Lemmas *)

Lemma elem_of_ordered {A} (m : gmap Z A) k v : In (k, v) (ordered m) <-> m !! k = Some v.
Proof.
  unfold ordered. rewrite <- list_elem_of_In, list_elem_of_omap. split.
  - intros (k' & _ & Hk). destruct (m !! k') as [v'|] eqn:E; [|done]. cbn in Hk. by injection Hk as <- <-.
  - intros Hk. exists k. rewrite Hk. split; [|done]. rewrite merge_sort_Permutation, elem_of_elements, elem_of_dom.
    by eexists.
Qed.

Lemma ordered_nodup {A} (m : gmap Z A) : List.NoDup (map fst (ordered m)).
Proof.
  unfold ordered. assert (NoDup (merge_sort Z.le (elements (dom m)))) as Hn.
  { rewrite merge_sort_Permutation. apply NoDup_elements. }
  revert Hn. generalize (merge_sort Z.le (elements (dom m))). intros l.
  induction 1 as [|k l Hk Hn IH]; [constructor|]. cbn [omap list_omap].
  destruct (m !! k) as [v|]; [|done]. cbn [mbind option_bind map fst]. constructor; [|done].
  intros ([k' v'] & Hk' & Hin)%in_map_iff. cbn in Hk'. subst k'.
  apply list_elem_of_In, list_elem_of_omap in Hin as (k' & Hk' & Hv). apply Hk.
  destruct (m !! k'); [|done]. by injection Hv as -> _.
Qed.

Lemma assoc_ordered {A} (m : gmap Z A) k : assoc k (ordered m) = m !! k.
Proof.
  destruct (assoc k (ordered m)) as [v|] eqn:Ha.
  - symmetry. by apply elem_of_ordered, assoc_In.
  - destruct (m !! k) as [v|] eqn:Hm; [|done]. apply elem_of_ordered in Hm.
    induction (ordered m) as [|[k' v'] l IH]; [done|]. cbn [assoc] in Ha. destruct (decide (k = k')) as [->|Hne]; [done|].
    destruct Hm as [[= -> ->]|Hm]; [done|]. by apply IH.
Qed.

Lemma write_length offset bs l : length (write offset bs l) = length l.
Proof. unfold write. rewrite !length_app, !length_take, length_drop. lia. Qed.

(** The bytes at an offset. *)
Definition sub_list (offset : Z) (n : nat) (l : list Z) : list Z := take n (drop (Z.to_nat offset) l).

(** What is written is there. *)
Lemma sub_list_write offset bs l :
  0 <= offset -> offset + Z.of_nat (length bs) <= Z.of_nat (length l) ->
  sub_list offset (length bs) (write offset bs l) = bs.
Proof.
  intros H0 Hl. unfold sub_list, write. rewrite drop_app_length' by (rewrite length_take; lia).
  rewrite (take_ge bs) by lia. by rewrite take_app_length.
Qed.

(** Elsewhere nothing changes. *)
Lemma write_lookup offset bs l i :
  0 <= offset -> offset + Z.of_nat (length bs) <= Z.of_nat (length l) ->
  Z.of_nat i < offset \/ offset + Z.of_nat (length bs) <= Z.of_nat i -> write offset bs l !! i = l !! i.
Proof.
  intros H0 Hl Hi. unfold write. rewrite (take_ge bs) by lia. destruct Hi as [Hi|Hi].
  - rewrite lookup_app_l by (rewrite length_take; lia). rewrite lookup_take_lt by lia. done.
  - rewrite lookup_app_r by (rewrite length_take; lia). rewrite length_take.
    rewrite lookup_app_r by lia. rewrite lookup_drop. f_equal. lia.
Qed.

Lemma sub_list_lookup offset n l i : (i < n)%nat -> sub_list offset n l !! i = l !! (Z.to_nat offset + i)%nat.
Proof. intros Hi. unfold sub_list. rewrite lookup_take_lt by done. by rewrite lookup_drop. Qed.

Lemma sub_list_write_other offset bs l a n :
  0 <= offset -> offset + Z.of_nat (length bs) <= Z.of_nat (length l) -> 0 <= a ->
  a + Z.of_nat n <= offset \/ offset + Z.of_nat (length bs) <= a ->
  sub_list a n (write offset bs l) = sub_list a n l.
Proof.
  intros H0 Hl Ha Hd. apply list_eq. intros i. destruct (decide (i < n)%nat) as [Hi|Hi].
  - rewrite !sub_list_lookup by done. apply write_lookup; [done|done|lia].
  - unfold sub_list. by rewrite !lookup_take_ge by lia.
Qed.

(** ** Linking *)

(** The references have 20 bytes of room each. *)
Definition roomy (refs : list (Z * list Z)) (c : list Z) : Prop :=
  Forall (fun ref => 0 <= fst ref /\ fst ref + 20 <= Z.of_nat (length c)) refs /\
  forall ref ref', In ref refs -> In ref' refs -> ref = ref' \/ fst ref + 20 <= fst ref' \/ fst ref' + 20 <= fst ref.

Section Link.
Context (addresses : gmap (list Z) (list Z)).
Hypothesis Haddresses : forall name address, addresses !! name = Some address -> length address = 20%nat.

Lemma matchLibrary_length name address : matchLibrary name addresses = Some address -> length address = 20%nat.
Proof using Haddresses.
  unfold matchLibrary. destruct (addresses !! name) as [a|] eqn:E; [intros [= <-]; by eapply Haddresses|].
  destruct (afterColon name); [|done]. apply Haddresses.
Qed.

Lemma linkAll_length refs code remaining : length (fst (linkAll addresses refs code remaining)) = length code.
Proof using.
  revert code remaining. induction refs as [|[offset library] refs IH]; intros code remaining; [done|]. cbn [linkAll].
  destruct (matchLibrary _ _); rewrite IH; [apply write_length|done].
Qed.

(** Bytes outside the references stay. *)
Lemma linkAll_other refs code remaining a n :
  roomy refs code -> 0 <= a ->
  (forall offset library, In (offset, library) refs -> is_Some (matchLibrary library addresses) ->
     a + Z.of_nat n <= offset \/ offset + 20 <= a) ->
  sub_list a n (fst (linkAll addresses refs code remaining)) = sub_list a n code.
Proof using Haddresses.
  revert code remaining. induction refs as [|[offset library] refs IH]; intros code remaining [Hr Ha] H0 Hd; [done|].
  apply Forall_cons in Hr as [Hr Hrs]. cbn [linkAll fst] in *.
  assert (forall c', length c' = length code -> roomy refs c') as Hroom.
  { intros c' Hc'. split; [by rewrite Hc'|]. intros ? ? ? ?. apply Ha; by right. }
  destruct (matchLibrary library addresses) as [address|] eqn:Hm.
  - pose proof (matchLibrary_length _ _ Hm) as Hl. rewrite (take_ge address) by lia.
    rewrite IH; [|apply Hroom, write_length|done|intros; eapply Hd; [by right|done]].
    destruct (Hd offset library); [by left|by rewrite Hm; eexists|..];
      apply sub_list_write_other; rewrite ?Hl; lia.
  - apply IH; [by apply Hroom|done|intros; eapply Hd; [by right|done]].
Qed.

Lemma linkAll_address refs code remaining offset library address :
  roomy refs code -> In (offset, library) refs -> matchLibrary library addresses = Some address ->
  sub_list offset 20 (fst (linkAll addresses refs code remaining)) = address.
Proof using Haddresses.
  revert code remaining. induction refs as [|[offset' library'] refs IH]; intros code remaining [Hr Ha] Hin Hm; [done|].
  apply Forall_cons in Hr as [Hr Hrs]. cbn [linkAll fst] in *.
  assert (forall c', length c' = length code -> roomy refs c') as Hroom.
  { intros c' Hc'. split; [by rewrite Hc'|]. intros ? ? ? ?. apply Ha; by right. }
  destruct (In_dec (prod_eq_dec (A:=Z) (B:=list Z)) (offset, library) refs) as [Hin'|Hin'].
  { destruct (matchLibrary library' addresses); apply IH; try done; apply Hroom; by rewrite ?write_length. }
  destruct Hin as [[= -> ->]|Hin]; [|done]. rewrite Hm. pose proof (matchLibrary_length _ _ Hm) as Hl.
  rewrite (take_ge address) by lia. rewrite linkAll_other; [|apply Hroom, write_length|lia|].
  - rewrite <- Hl. apply sub_list_write; [lia|]. rewrite Hl. lia.
  - intros offset' library' Hin2 _. destruct (Ha (offset, library) (offset', library')) as [[= -> ->]|Hd];
      [by left|by right|done|]. cbn [fst] in Hd. lia.
Qed.

Lemma linkAll_remaining refs code remaining k :
  List.NoDup (map fst refs) ->
  snd (linkAll addresses refs code remaining) !! k =
    match assoc k refs with
    | Some library => if decide (matchLibrary library addresses = None) then Some library else remaining !! k
    | None => remaining !! k
    end.
Proof using.
  revert code remaining. induction refs as [|[offset library] refs IH]; intros code remaining Hd; [done|].
  cbn [map fst linkAll assoc] in *. inversion Hd as [|? ? Hnot Hd']; subst.
  destruct (matchLibrary library addresses) as [address|] eqn:Hm; rewrite IH by done.
  - destruct (decide (k = offset)) as [->|Hne]; [|done]. rewrite decide_False by congruence.
    destruct (assoc offset refs) as [l|] eqn:Hk; [|done]. exfalso. apply Hnot, in_map_iff. exists (offset, l).
    split; [done|]. by apply assoc_In.
  - destruct (decide (k = offset)) as [->|Hne].
    + rewrite decide_True by done. destruct (assoc offset refs) as [l|] eqn:Hk; [|by rewrite lookup_insert_eq].
      exfalso. apply Hnot, in_map_iff. exists (offset, l). split; [done|]. by apply assoc_In.
    + rewrite lookup_insert_ne by done. done.
Qed.
End Link.

(** C31 [link] writes the address of every library it is given over the library's references, leaves the other
    bytes, and keeps exactly the references whose libraries have no address, neither under their full
    name nor under the part after the first colon. *)
Theorem link_correct addresses this :
  (forall name address, addresses !! name = Some address -> length address = 20%nat) ->
  roomy (ordered (linkReferences this)) (bytecode this) ->
  let linked := link addresses this in
  length (bytecode linked) = length (bytecode this) /\ immutableReferences linked = immutableReferences this /\
  (forall offset library, linkReferences this !! offset = Some library ->
     match matchLibrary library addresses with
     | Some address => sub_list offset 20 (bytecode linked) = address /\ linkReferences linked !! offset = None
     | None => linkReferences linked !! offset = Some library
     end) /\
  (forall offset, linkReferences this !! offset = None -> linkReferences linked !! offset = None) /\
  (forall a n, 0 <= a ->
     (forall offset library, linkReferences this !! offset = Some library -> is_Some (matchLibrary library addresses) ->
        a + Z.of_nat n <= offset \/ offset + 20 <= a) ->
     sub_list a n (bytecode linked) = sub_list a n (bytecode this)).
Proof.
  intros Ha Hr linked. unfold linked, link.
  pose proof (linkAll_length addresses (ordered (linkReferences this)) (bytecode this) ∅) as Hlen.
  pose proof (linkAll_address addresses Ha (ordered (linkReferences this)) (bytecode this) ∅) as Haddr.
  pose proof (linkAll_remaining addresses (ordered (linkReferences this)) (bytecode this) ∅) as Hrem.
  pose proof (linkAll_other addresses Ha (ordered (linkReferences this)) (bytecode this) ∅) as Hother.
  destruct (linkAll _ _ _ _) as [code remaining]. cbn [fst snd bytecode linkReferences immutableReferences] in *.
  split; [done|]. split; [done|]. split; [|split].
  - intros offset library Hl. rewrite Hrem, assoc_ordered, Hl by apply ordered_nodup.
    destruct (matchLibrary library addresses) as [address|] eqn:Hm.
    + split; [|by rewrite decide_False by done]. eapply Haddr; [done| |exact Hm]. by apply elem_of_ordered.
    + by rewrite decide_True.
  - intros offset Hl. rewrite Hrem, assoc_ordered, Hl by apply ordered_nodup. apply lookup_empty.
  - intros a n H0 Hd. apply Hother; [done|done|]. intros offset library Hin%elem_of_ordered. by apply Hd.
Qed.

Definition exampleLinked : LinkerObject :=
  mkLinkerObject (0x73 :: repeat 0 20 ++ 0x73 :: repeat 0 20) {[ 1 := str "lib.sol:L"; 22 := str "M" ]} ∅.

Lemma link_correct_witness :
  let addresses : gmap (list Z) (list Z) := {[ str "L" := repeat 7 20 ]} in
  bytecode (link addresses exampleLinked) = 0x73 :: repeat 7 20 ++ 0x73 :: repeat 0 20 /\
  linkReferences (link addresses exampleLinked) !! 22 = Some (str "M").
Proof.
  set (addresses := {[ str "L" := repeat 7 20 ]} : gmap (list Z) (list Z)). split; [vm_compute; reflexivity|].
  refine (proj1 (proj2 (proj2 (link_correct addresses exampleLinked _ _))) 22 (str "M") _).
  - intros name address Hn. apply lookup_singleton_Some in Hn as [_ <-]. reflexivity.
  - split; [repeat constructor; vm_compute; discriminate|].
    assert (ordered (linkReferences exampleLinked) = [(1, str "lib.sol:L"); (22, str "M")]) as -> by (vm_compute; reflexivity).
    intros ref ref' [<-|[<-|[]]] [<-|[<-|[]]]; [by left|right; by left|right; by right|by left].
  - reflexivity.
Defined.
