(* ===== verification/Assemble.v ===== *)
(** * Assemble: from items to byte code, Assembly::assemble of libevmasm/Assembly.cpp:528-806

    The items are emitted with room for the values that are not known yet, and the room is filled
    when the sub-assemblies and the data have been placed.  [assemble] is a function of the
    assembly: the object that is kept for a second call, and the sizes that are noted in the items
    ([m_pushedValue]), are not.  An [unsigned] is cut to 32 bits; [numeric_limits<size_t>::max()] is
    [size_t_max].  The position of a tag that is not below [m_usedTags], which the source writes out
    of bounds, is an exception here.  A [multimap] is the list of its pairs. *)

From S2P Require Import Prelude U256 CommonData Instruction AssemblyItem KnownState RuleList ConstantOptimiser LinkerObject.

(** The members of [Assembly] the optimiser does not use. *)
Record LinkData := mkLinkData {
  m_invalid : bool;
  m_usedTags : Z;
  m_auxiliaryData : list Z;
  m_strings : gmap Z (list Z);
  m_libraries : gmap Z (list Z);
  m_immutables : gmap Z (list Z);
  m_subPaths : list (list Z * Z) }.

(** An assembly with its sub-assemblies. *)
Inductive ObjectTree : Type :=
| mkObject (assembly : Assembly) (linkData : LinkData) (m_subs : list ObjectTree).

(** What [assemble] makes of it: [m_assembledObject] and [m_tagPositionsInBytecode]. *)
Inductive AssembledTree : Type :=
| mkAssembled (m_assembledObject : LinkerObject) (m_tagPositionsInBytecode : list Z) (m_subs : list AssembledTree).

Definition a_object (a : AssembledTree) : LinkerObject := match a with mkAssembled o _ _ => o end.
Definition a_positions (a : AssembledTree) : list Z := match a with mkAssembled _ p _ => p end.
Definition a_subs (a : AssembledTree) : list AssembledTree := match a with mkAssembled _ _ s => s end.

Definition codeSize (a : AssembledTree) : Z := Z.of_nat (length (bytecode (a_object a))).

(** ** Sizes *)

Definition sizeOf {A} (l : list A) : Z := Z.of_nat (length l).

(** [Assembly::bytesRequired]: the first size for tags from [tagSize] on that can address as many
    bytes as the code and the data have with it. *)
Fixpoint assemblyBytesRequired (fuel : nat) (m_items : list AssemblyItem) (m_data : gmap Z (list Z)) (tagSize : Z)
  : Result Z :=
  match fuel with
  | O => OutOfFuel
  | S fuel =>
      items ← lift (items_bytesRequired m_items tagSize);
      let ret := unsigned (fold_left (fun ret d => ret + sizeOf (snd d)) (ordered m_data) 1 + items) in
      if Z.of_nat (bytesRequired ret) <=? tagSize then Ret ret
      else assemblyBytesRequired fuel m_items m_data (unsigned (tagSize + 1))
  end.

(** ** Sub-assemblies *)

Definition decodeSubPath {A} (m_subs : list A) (m_subPaths : list (list Z * Z)) (_subObjectId : Z) : option (list Z) :=
  if _subObjectId <? sizeOf m_subs then Some [_subObjectId]
  else match find (fun subId => snd subId =? _subObjectId) m_subPaths with
       | Some (path, _) => Some path
       | None => None
       end.

(** The id and the table of paths after the call; a table of paths is in no particular order. *)
Definition encodeSubPath {A} (m_subs : list A) (m_subPaths : list (list Z * Z)) (_subPath : list Z)
  : option (Z * list (list Z * Z)) :=
  match _subPath with
  | [] => None
  | [id] => _ ← assertThrow (id <? sizeOf m_subs); Some (id, m_subPaths)
  | _ =>
      match assoc _subPath m_subPaths with
      | Some objectId => Some (objectId, m_subPaths)
      | None =>
          let objectId := (size_t_max - sizeOf m_subPaths) mod 2 ^ 64 in
          _ ← assertThrow (sizeOf m_subs <=? objectId);
          Some (objectId, (_subPath, objectId) :: m_subPaths)
      end
  end.

(** The sub-assembly at the end of a path. *)
Fixpoint followPath (subIds : list Z) (current : AssembledTree) : option AssembledTree :=
  match subIds with
  | [] => Some current
  | id :: subIds => sub ← a_subs current !! Z.to_nat id; followPath subIds sub
  end.

Definition subAssemblyById (m_subs : list AssembledTree) (m_subPaths : list (list Z * Z)) (_subId : Z)
  : option AssembledTree :=
  match decodeSubPath m_subs m_subPaths _subId with
  | Some (id :: subIds) => sub ← m_subs !! Z.to_nat id; followPath subIds sub
  | _ => None
  end.

(** ** Emission *)

(** The byte code so far, the positions of the tags, what is to be filled in and where, the link and
    immutable references, and the immutables that have not been assigned yet. *)
Record Emission := mkEmission {
  code : list Z;
  tagPositions : list Z;
  tagRef : list (Z * (Z * Z));
  dataRef : list (Z * Z);
  subRef : list (Z * Z);
  sizeRef : list Z;
  e_linkReferences : gmap Z (list Z);
  e_immutableReferences : gmap Z (list Z * list Z);
  immutableReferencesBySub : gmap Z (list Z * list Z) }.

(** [push_back], and [resize] with zeros. *)
Definition put (bs : list Z) (e : Emission) : Emission :=
  mkEmission (code e ++ bs) (tagPositions e) (tagRef e) (dataRef e) (subRef e) (sizeRef e)
    (e_linkReferences e) (e_immutableReferences e) (immutableReferencesBySub e).
Definition set_tagPosition (tagId : Z) (pos : Z) (e : Emission) : Emission :=
  mkEmission (code e) (<[Z.to_nat tagId := pos]> (tagPositions e)) (tagRef e) (dataRef e) (subRef e) (sizeRef e)
    (e_linkReferences e) (e_immutableReferences e) (immutableReferencesBySub e).
Definition add_tagRef (ref : Z * (Z * Z)) (e : Emission) : Emission :=
  mkEmission (code e) (tagPositions e) (tagRef e ++ [ref]) (dataRef e) (subRef e) (sizeRef e)
    (e_linkReferences e) (e_immutableReferences e) (immutableReferencesBySub e).
Definition add_dataRef (ref : Z * Z) (e : Emission) : Emission :=
  mkEmission (code e) (tagPositions e) (tagRef e) (dataRef e ++ [ref]) (subRef e) (sizeRef e)
    (e_linkReferences e) (e_immutableReferences e) (immutableReferencesBySub e).
(** A [multimap] keeps its keys in order and equal keys in the order of their insertion. *)
Fixpoint insertMulti (ref : Z * Z) (l : list (Z * Z)) : list (Z * Z) :=
  match l with
  | [] => [ref]
  | ref' :: l' => if fst ref <? fst ref' then ref :: l else ref' :: insertMulti ref l'
  end.
Definition add_subRef (ref : Z * Z) (e : Emission) : Emission :=
  mkEmission (code e) (tagPositions e) (tagRef e) (dataRef e) (insertMulti ref (subRef e)) (sizeRef e)
    (e_linkReferences e) (e_immutableReferences e) (immutableReferencesBySub e).
Definition add_sizeRef (pos : Z) (e : Emission) : Emission :=
  mkEmission (code e) (tagPositions e) (tagRef e) (dataRef e) (subRef e) (sizeRef e ++ [pos])
    (e_linkReferences e) (e_immutableReferences e) (immutableReferencesBySub e).
Definition add_linkReference (pos : Z) (name : list Z) (e : Emission) : Emission :=
  mkEmission (code e) (tagPositions e) (tagRef e) (dataRef e) (subRef e) (sizeRef e)
    (<[pos := name]> (e_linkReferences e)) (e_immutableReferences e) (immutableReferencesBySub e).
Definition add_immutableReference (id : Z) (name : list Z) (pos : Z) (e : Emission) : Emission :=
  mkEmission (code e) (tagPositions e) (tagRef e) (dataRef e) (subRef e) (sizeRef e) (e_linkReferences e)
    (<[id := (name, match e_immutableReferences e !! id with Some (_, l) => l | None => [] end ++ [pos])]>
       (e_immutableReferences e))
    (immutableReferencesBySub e).
Definition erase_immutable (id : Z) (e : Emission) : Emission :=
  mkEmission (code e) (tagPositions e) (tagRef e) (dataRef e) (subRef e) (sizeRef e)
    (e_linkReferences e) (e_immutableReferences e) (delete id (immutableReferencesBySub e)).

Definition position (e : Emission) : Z := sizeOf (code e).

(** [(uint8_t)Instruction::PUSH1 - 1 + n]. *)
Definition pushByte (n : nat) : Z := (opcode PUSH1 - 1 + Z.of_nat n) mod 256.
(** The push of a value in [n] bytes. *)
Definition pushBytes (n : nat) (v : Z) : list Z := pushByte n :: toBigEndian n v.

(** The offsets of an immutable in the sub-assembly's code. *)
Definition occurrences (immutables : gmap Z (list Z * list Z)) (id : Z) : list Z :=
  match immutables !! id with Some (_, offsets) => offsets | None => [] end.

(** The code that assigns an immutable: the value is copied to every offset. *)
Definition assignCode (offsets : list Z) : list Z :=
  concat (map (fun offset => opcode DUP1 :: pushBytes (bytesRequired offset) offset ++ [opcode MSTORE]) offsets)
    ++ [opcode POP].

(** The first 32 bytes of a string, filled up with zeros. *)
Definition padded (s : list Z) : list Z := take 32 (s ++ repeat 0 32).

Section Emit.
Context (linkData : LinkData) (m_subs : list AssembledTree) (bytesPerTag bytesPerDataRef : nat).

(** The position of the invalid jump destination. *)
Definition noteInvalid (i : AssemblyItem) (e : Emission) : option Emission :=
  match m_type i with
  | Tag => Some e
  | _ => pos ← tagPositions e !! 0%nat;
         Some (if pos =? size_t_max then set_tagPosition 0 (position e) e else e)
  end.

Definition hole (n : nat) : list Z := repeat 0 n.

(** The loop's body after the note of the position. *)
Definition emitItem (i : AssemblyItem) (e : Emission) : option Emission :=
  match m_type i with
  | Operation => Some (put [opcode (m_instruction i)] e)
  | PushString =>
      s ← m_strings linkData !! m_data i;
      Some (put (opcode PUSH32 :: padded s) e)
  | Push => Some (put (pushBytes (Nat.max 1 (bytesRequired (m_data i))) (m_data i)) e)
  | PushTag =>
      let e := put [pushByte bytesPerTag] e in
      ref ← splitForeignPushTag i;
      Some (put (hole bytesPerTag) (add_tagRef (position e, ref) e))
  | PushData =>
      let e := put [pushByte bytesPerDataRef] e in
      Some (put (hole bytesPerDataRef) (add_dataRef (m_data i, unsigned (position e)) e))
  | PushSub =>
      _ ← assertThrow (m_data i <=? size_t_max);
      let e := put [pushByte bytesPerDataRef] e in
      Some (put (hole bytesPerDataRef) (add_subRef (m_data i, position e) e))
  | PushSubSize =>
      _ ← assertThrow (m_data i <=? size_t_max);
      sub ← subAssemblyById m_subs (m_subPaths linkData) (m_data i);
      let s := codeSize sub in
      Some (put (pushBytes (Nat.max 1 (bytesRequired s)) s) e)
  | PushProgramSize =>
      let e := put [pushByte bytesPerDataRef] e in
      Some (put (hole bytesPerDataRef) (add_sizeRef (unsigned (position e)) e))
  | PushLibraryAddress =>
      let e := put [opcode PUSH20] e in
      name ← m_libraries linkData !! m_data i;
      Some (put (hole 20) (add_linkReference (position e) name e))
  | PushImmutable =>
      let e := put [opcode PUSH32] e in
      name ← m_immutables linkData !! m_data i;
      Some (put (hole 32) (add_immutableReference (m_data i) name (position e) e))
  | AssignImmutable =>
      Some (erase_immutable (m_data i)
              (put (assignCode (occurrences (immutableReferencesBySub e) (m_data i))) e))
  | PushDeployTimeAddress => Some (put (opcode PUSH20 :: hole 20) e)
  | Tag =>
      _ ← assertThrow (negb (m_data i =? 0));
      '(subId, _) ← splitForeignPushTag i;
      _ ← assertThrow (subId =? size_t_max);
      _ ← assertThrow (position e <? 0xffffffff);
      let id := m_data i mod 2 ^ 64 in
      pos ← tagPositions e !! Z.to_nat id;
      _ ← assertThrow (pos =? size_t_max);
      Some (put [opcode JUMPDEST] (set_tagPosition id (position e) e))
  | UndefinedItem => None
  end.

Fixpoint emitItems (m_items : list AssemblyItem) (e : Emission) : option Emission :=
  match m_items with
  | [] => Some e
  | i :: m_items => e ← noteInvalid i e; e ← emitItem i e; emitItems m_items e
  end.

(** ** Filling in *)

Definition onCode (f : list Z -> list Z) (o : LinkerObject) : LinkerObject :=
  mkLinkerObject (f (bytecode o)) (linkReferences o) (immutableReferences o).

(** The loop over [subRef]: every reference gets a copy of the sub-assembly's code. *)
Fixpoint placeSubs (refs : list (Z * Z)) (ret : LinkerObject) : option LinkerObject :=
  match refs with
  | [] => Some ret
  | (subIdPath, bytecodeOffset) :: refs =>
      let ret := onCode (write bytecodeOffset (toBigEndian bytesPerDataRef (sizeOf (bytecode ret)))) ret in
      sub ← subAssemblyById m_subs (m_subPaths linkData) subIdPath;
      placeSubs refs (append ret (a_object sub))
  end.

(** The position of a tag of the assembly or of a sub-assembly. *)
Definition lookupTag (tagPositions : list Z) (subId tagId : Z) : option Z :=
  positions ←
    (if subId =? size_t_max then Some tagPositions
     else sub ← m_subs !! Z.to_nat subId; Some (a_positions sub));
  pos ← positions !! Z.to_nat tagId;
  _ ← assertThrow (negb (pos =? size_t_max));
  _ ← assertThrow (bytesRequired pos <=? bytesPerTag)%nat;
  Some pos.

(** The loop over [tagRef]. *)
Fixpoint fillTags (tagPositions : list Z) (refs : list (Z * (Z * Z))) (ret : LinkerObject) : option LinkerObject :=
  match refs with
  | [] => Some ret
  | (offset, (subId, tagId)) :: refs =>
      pos ← lookupTag tagPositions subId tagId;
      fillTags tagPositions refs (onCode (write offset (toBigEndian bytesPerTag pos)) ret)
  end.

(** The loop over [m_data]: data that is referred to is placed, once. *)
Fixpoint placeData (dataRef : list (Z * Z)) (m_data : list (Z * list Z)) (ret : LinkerObject) : LinkerObject :=
  match m_data with
  | [] => ret
  | (hash, data) :: m_data =>
      match List.filter (fun ref => fst ref =? hash) dataRef with
      | [] => placeData dataRef m_data ret
      | references =>
          let filled := fold_left (fun c ref => write (snd ref) (toBigEndian bytesPerDataRef (sizeOf c)) c)
                          references (bytecode ret) in
          placeData dataRef m_data (onCode (fun _ => filled ++ data) ret)
      end
  end.

(** The loop over [sizeRef]. *)
Definition fillSizes (sizeRef : list Z) (ret : LinkerObject) : LinkerObject :=
  onCode (fun c => fold_left (fun c pos => write pos (toBigEndian bytesPerDataRef (sizeOf c)) c) sizeRef c) ret.
End Emit.

(** ** assemble *)

(** The immutables of the sub-assemblies; only one of them may have any. *)
Fixpoint collectImmutables (m_subs : list AssembledTree) (immutables : gmap Z (list Z * list Z))
  : option (gmap Z (list Z * list Z)) :=
  match m_subs with
  | [] => Some immutables
  | sub :: m_subs =>
      let references := immutableReferences (a_object sub) in
      if bool_decide (references = ∅) then collectImmutables m_subs immutables
      else _ ← assertThrow (bool_decide (immutables = ∅)); collectImmutables m_subs references
  end.

(** The largest position of a tag of a sub-assembly, and at least 1. *)
Definition subTagSize (m_subs : list AssembledTree) : Z :=
  fold_left (fun size tagPos => if negb (tagPos =? size_t_max) && (size <? tagPos) then tagPos else size)
    (concat (map a_positions m_subs)) 1.

(** [setImmutableOccurrences]. *)
Definition set_occurrences (n : Z) (i : AssemblyItem) : AssemblyItem :=
  mkItem (m_type i) (m_instruction i) (m_data i) (m_location i) (m_jumpType i) (m_modifierDepth i)
    (m_pushedValue i) (Some n).

(** The loop that notes the numbers of occurrences in the items. *)
Fixpoint noteOccurrences (immutables : gmap Z (list Z * list Z)) (m_items : list AssemblyItem)
  : list AssemblyItem * gmap Z (list Z * list Z) :=
  match m_items with
  | [] => ([], immutables)
  | i :: m_items =>
      match m_type i with
      | AssignImmutable =>
          let reference := match immutables !! m_data i with Some r => r | None => ([], []) end in
          let '(items, immutables) := noteOccurrences (<[m_data i := reference]> immutables) m_items in
          (set_occurrences (sizeOf (snd reference)) i :: items, immutables)
      | _ => let '(items, immutables) := noteOccurrences immutables m_items in (i :: items, immutables)
      end
  end.

Definition hasType (t : AssemblyItemType) (m_items : list AssemblyItem) : bool :=
  existsb (fun i => bool_decide (m_type i = t)) m_items.

(** The sizes of references to tags, and to data, sub-assemblies and the end of the program. *)
Definition referenceSizes (bytesRequiredForCode : Z) (linkData : LinkData) (m_subs : list AssembledTree) : nat * nat :=
  (bytesRequired bytesRequiredForCode,
   bytesRequired (unsigned (bytesRequiredForCode + 1 + sizeOf (m_auxiliaryData linkData)
                              + fold_left (fun n sub => n + codeSize sub) m_subs 0))).

Definition nonEmpty {A} (l : list A) : bool := match l with [] => false | _ => true end.

(** The phases after the sizes are known. *)
Definition emitAll (m_items : list AssemblyItem) (m_data : gmap Z (list Z)) (linkData : LinkData)
    (m_subs : list AssembledTree) (immutables : gmap Z (list Z * list Z)) (sizes : nat * nat) : option AssembledTree :=
  let '(bytesPerTag, bytesPerDataRef) := sizes in
  e ← emitItems linkData m_subs bytesPerTag bytesPerDataRef m_items
        (mkEmission [] (repeat size_t_max (Z.to_nat (m_usedTags linkData))) [] [] [] [] ∅ ∅ immutables);
  _ ← assertThrow (bool_decide (immutableReferencesBySub e = ∅));
  let separator :=
    if nonEmpty m_subs || negb (bool_decide (m_data = ∅)) || nonEmpty (m_auxiliaryData linkData)
    then [opcode INVALID] else [] in
  let ret := mkLinkerObject (code e ++ separator) (e_linkReferences e) (e_immutableReferences e) in
  ret ← placeSubs linkData m_subs bytesPerDataRef (subRef e) ret;
  ret ← fillTags m_subs bytesPerTag (tagPositions e) (tagRef e) ret;
  let ret := placeData bytesPerDataRef (dataRef e) (ordered m_data) ret in
  let ret := onCode (fun c => c ++ m_auxiliaryData linkData) ret in
  Some (mkAssembled (fillSizes bytesPerDataRef (sizeRef e) ret) (tagPositions e) m_subs).

(** An assembly whose sub-assemblies are assembled. *)
Definition assembleFlat (assembly : Assembly) (linkData : LinkData) (m_subs : list AssembledTree) : Result AssembledTree :=
  immutables ← lift (collectImmutables m_subs ∅);
  let '(items, immutables) := noteOccurrences immutables (m_items assembly) in
  _ ← lift (assertThrow (negb (hasType AssignImmutable items && hasType PushImmutable items)));
  bytesRequiredForCode ← assemblyBytesRequired 5 items (m_assemblyData assembly) (unsigned (subTagSize m_subs));
  lift (emitAll items (m_assemblyData assembly) linkData m_subs immutables
          (referenceSizes bytesRequiredForCode linkData m_subs)).

Section Subs.
Context (assemble : ObjectTree -> Result AssembledTree).

Fixpoint assembleSubs (m_subs : list ObjectTree) : Result (list AssembledTree) :=
  match m_subs with
  | [] => Ret []
  | sub :: m_subs => sub ← assemble sub; m_subs ← assembleSubs m_subs; Ret (sub :: m_subs)
  end.
End Subs.

Fixpoint assemble (a : ObjectTree) : Result AssembledTree :=
  match a with
  | mkObject assembly linkData m_subs =>
      _ ← lift (assertThrow (negb (m_invalid linkData)));
      m_subs ← assembleSubs assemble m_subs;
      assembleFlat assembly linkData m_subs
  end.
