(* ===== verification/Machine.v ===== *)
(** * Machine: what a list of assembly items does

    The specification the optimisers of assembly items are proved against: a stack
    machine that runs a list of items with symbolic tags.  The world (memory, storage,
    logs, ...) and what an instruction does to it are those of an interface; the stack,
    the control flow and the arithmetic are fixed here.  A tag's address and the other
    values only known after assembling (sizes, hashes, library addresses) are fixed
    words, so the model does not see the length of the code, the program counter or the
    gas. *)

From S2P Require Import Prelude U256 Instruction AssemblyItem Interpreter SemanticInformation.

(** What an instruction does on its arguments: new stack values and world, or the end
    of the execution with an outcome. *)
Class World (W H : Type) := {
  perform : Instruction -> list Z -> W -> (list Z * W) + H;
  assign : Z -> Z -> W -> W;
  addr : Z -> Z;
  pushed : AssemblyItemType -> Z -> Z }.

(** The instructions the machine itself interprets. *)
Definition isStackInstruction (i : Instruction) : bool :=
  isDupInstruction i || isSwapInstruction i ||
  match i with POP | JUMP | JUMPI => true | _ => false end.

(** The laws of the interface: values are words, tag addresses have 32 bits,
    arithmetic is what the reference interpreter computes, and an instruction declared
    free of side effects, other than the signal instructions, leaves the world as it
    is. *)
Class WorldLaws (W H : Type) `{World W H} : Prop := {
  perform_result i l w r w' :
    perform i l w = inl (r, w') -> Forall is_u256 l ->
    length r = ret (instructionInfo i) /\ Forall is_u256 r;
  perform_arith i l v w :
    Forall is_u256 l -> eval_arith i l = Some v -> perform i l w = inl ([v], w);
  perform_pure i l w :
    sideEffects (instructionInfo i) = false -> isSignalInstruction i = false ->
    isStackInstruction i = false -> length l = args (instructionInfo i) -> Forall is_u256 l ->
    exists r, perform i l w = inl (r, w);
  perform_halts i l w :
    instr_terminatesControlFlow i = true -> exists h, perform i l w = inr h;
  addr_range d : 0 <= addr d < 2 ^ 32;
  pushed_range t d : is_u256 (pushed t d) }.

Section Machine.
Context {W H : Type} `{!World W H}.

(** How a run ends: past the last item, with an outcome of the world, on a stack that is
    too small, at a jump to something that is not a tag, or at an item that cannot be
    executed. *)
Inductive Outcome : Type :=
| Finished (st : list Z) (w : W)
| Halted (h : H)
| Underflow
| BadJump
| BadItem.

(** The effect of one item: go on, jump to an address, or end. *)
Inductive Effect : Type :=
| Next (st : list Z) (w : W)
| Goto (a : Z) (st : list Z) (w : W)
| End (o : Outcome).

(** Instructions on the stack only. *)
Definition dup (n : nat) (st : list Z) : option (list Z) :=
  x ← st !! (n - 1)%nat; Some (x :: st).
Definition swap (n : nat) (st : list Z) : option (list Z) :=
  a ← st !! 0%nat; b ← st !! n; Some (<[0%nat := b]> (<[n := a]> st)).

Definition or_underflow (o : option (list Z)) (w : W) : Effect :=
  match o with Some st => Next st w | None => End Underflow end.

Definition exec_instruction (i : Instruction) (st : list Z) (w : W) : Effect :=
  if isDupInstruction i then or_underflow (dup (Z.to_nat (getDupNumber i)) st) w
  else if isSwapInstruction i then or_underflow (swap (Z.to_nat (getSwapNumber i)) st) w
  else match i with
       | POP => match st with _ :: st => Next st w | [] => End Underflow end
       | JUMP => match st with a :: st => Goto a st w | [] => End Underflow end
       | JUMPI =>
           match st with
           | a :: c :: st => if c =? 0 then Next st w else Goto a st w
           | _ => End Underflow
           end
       | _ =>
           let n := args (instructionInfo i) in
           if (length st <? n)%nat then End Underflow
           else match perform i (take n st) w with
                | inl (r, w) => Next (r ++ drop n st) w
                | inr h => End (Halted h)
                end
       end.

(** The word a push item pushes. *)
Definition push_value (it : AssemblyItem) : Z :=
  match m_type it with
  | Push => m_data it
  | PushTag => addr (m_data it)
  | t => pushed t (m_data it)
  end.

Definition exec_item (it : AssemblyItem) (st : list Z) (w : W) : Effect :=
  match m_type it with
  | Operation => exec_instruction (m_instruction it) st w
  | Tag => Next st w
  | AssignImmutable =>
      match st with x :: st => Next st (assign (m_data it) x w) | [] => End Underflow end
  | UndefinedItem => End BadItem
  | _ => Next (push_value it :: st) w
  end.

(** The part of the code from the tag at an address on. *)
Fixpoint destination (p : list AssemblyItem) (a : Z) : option (list AssemblyItem) :=
  match p with
  | [] => None
  | it :: p' =>
      if bool_decide (m_type it = Tag) && (addr (m_data it) =? a) then Some p else destination p' a
  end.

(** Runs the code [code] of the program [p]. *)
Fixpoint run (fuel : nat) (p code : list AssemblyItem) (st : list Z) (w : W) : option Outcome :=
  match fuel with
  | O => None
  | S fuel =>
      match code with
      | [] => Some (Finished st w)
      | it :: code =>
          match exec_item it st w with
          | Next st w => run fuel p code st w
          | Goto a st w =>
              match destination p a with
              | Some code => run fuel p code st w
              | None => Some BadJump
              end
          | End o => Some o
          end
      end
  end.

(** The program ends with an outcome. *)
Definition evaluates (p code : list AssemblyItem) (st : list Z) (w : W) (o : Outcome) : Prop :=
  exists fuel, run fuel p code st w = Some o.

(** The effect of a segment of code up to its first jump. *)
Fixpoint exec (seg : list AssemblyItem) (st : list Z) (w : W) : Effect :=
  match seg with
  | [] => Next st w
  | it :: seg =>
      match exec_item it st w with
      | Next st w => exec seg st w
      | e => e
      end
  end.

(** ** Lemmas *)

Lemma addr_word `{!WorldLaws W H} d : is_u256 (addr d).
Proof. pose proof (addr_range d) as [H0 H1]. split; [done|]. by eapply Z.lt_trans; [apply H1|]. Qed.

(** An instruction that the world performs. *)
Lemma exec_perform i st w :
  isStackInstruction i = false ->
  exec_instruction i st w =
  if (length st <? args (instructionInfo i))%nat then End Underflow
  else match perform i (take (args (instructionInfo i)) st) w with
       | inl (r, w) => Next (r ++ drop (args (instructionInfo i)) st) w
       | inr h => End (Halted h)
       end.
Proof. unfold isStackInstruction, exec_instruction. by destruct i. Qed.

Lemma exec_app a b st w :
  exec (a ++ b) st w = match exec a st w with Next st w => exec b st w | e => e end.
Proof.
  revert st w. induction a as [|it a IH]; intros st w; [done|]. simpl.
  destruct (exec_item it st w); [apply IH|done..].
Qed.

(** The numbered stack instructions. *)
Lemma item_isDup_exec it st w :
  item_isDup it = true ->
  exec_item it st w = or_underflow (dup (Z.to_nat (getDupNumber (m_instruction it))) st) w.
Proof.
  intros [Ht Hd]%item_isDup_spec. unfold exec_item, exec_instruction. by rewrite Ht, Hd.
Qed.

Lemma item_isSwap_exec it st w :
  item_isSwap it = true ->
  exec_item it st w = or_underflow (swap (Z.to_nat (getSwapNumber (m_instruction it))) st) w.
Proof.
  intros [Ht Hd]%item_isSwap_spec. unfold exec_item, exec_instruction. rewrite Ht, Hd.
  by destruct (m_instruction it).
Qed.

Lemma run_mono n m p code st w o :
  run n p code st w = Some o -> (n <= m)%nat -> run m p code st w = Some o.
Proof.
  revert m code st w. induction n as [|n IH]; intros [|m] code st w H1 Hm; try done; [lia|].
  simpl in *. destruct code as [|it code]; [done|].
  destruct (exec_item it st w); [|destruct (destination p a); [|done]|done];
    by (apply IH; [|lia]).
Qed.

Lemma evaluates_det p code st w o o' :
  evaluates p code st w o -> evaluates p code st w o' -> o = o'.
Proof.
  intros [n Hn] [m Hm]. apply (run_mono _ (n + m)) in Hn; [|lia].
  apply (run_mono _ (n + m)) in Hm; [|lia]. congruence.
Qed.

(** Running a segment, then the rest. *)
Lemma run_exec seg rest n p st w o :
  run n p (seg ++ rest) st w = Some o ->
  match exec seg st w with
  | Next st' w' => (length seg <= n)%nat /\ run (n - length seg) p rest st' w' = Some o
  | Goto a st' w' =>
      match destination p a with
      | Some code => exists n', (n' < n)%nat /\ run n' p code st' w' = Some o
      | None => o = BadJump
      end
  | End o' => o = o'
  end.
Proof.
  revert n st w. induction seg as [|it seg IH]; intros n st w Hr.
  - simpl. rewrite Nat.sub_0_r. split; [lia|done].
  - destruct n as [|n]; [done|]. simpl in Hr |- *. destruct (exec_item it st w) as [st' w'|a st' w'|o'].
    + apply IH in Hr. destruct (exec seg st' w') as [| |].
      * split; [lia|apply Hr].
      * destruct (destination p a); [|done]. destruct Hr as (n' & ? & ?). exists n'. split; [lia|done].
      * done.
    + destruct (destination p a); [|congruence]. exists n. split; [lia|done].
    + congruence.
Qed.

Lemma exec_run seg rest p st w o :
  match exec seg st w with
  | Next st' w' => evaluates p rest st' w' o
  | Goto a st' w' =>
      match destination p a with
      | Some code => evaluates p code st' w' o
      | None => o = BadJump
      end
  | End o' => o = o'
  end -> evaluates p (seg ++ rest) st w o.
Proof.
  revert st w. induction seg as [|it seg IH]; intros st w Hr; [done|].
  simpl in Hr. destruct (exec_item it st w) as [st' w'|a st' w'|o'] eqn:He.
  - destruct (IH st' w' Hr) as [n Hn]. exists (S n). simpl. by rewrite He.
  - destruct (destination p a) as [code|] eqn:Hd.
    + destruct Hr as [n Hn]. exists (S n). simpl. by rewrite He, Hd.
    + exists 1%nat. simpl. rewrite He, Hd. by subst.
  - exists 1%nat. simpl. rewrite He. by subst.
Qed.
End Machine.

(** Swapping twice. *)
Lemma swap_swap n st st' : swap n st = Some st' -> swap n st' = Some st.
Proof.
  unfold swap. intros Hs. destruct (st !! 0%nat) as [a|] eqn:Ha; simplify_eq/=.
  destruct (st !! n) as [b|] eqn:Hb; simplify_eq/=.
  assert (n < length st)%nat by (by eapply lookup_lt_Some).
  rewrite list_lookup_insert_eq by (rewrite length_insert; lia). simpl.
  destruct (decide (n = 0%nat)) as [->|Hn].
  - rewrite list_lookup_insert_eq by (rewrite length_insert; lia). simpl. f_equal.
    simplify_eq. by rewrite !list_insert_insert_eq, list_insert_id.
  - rewrite list_lookup_insert_ne by done. rewrite list_lookup_insert_eq by lia. simpl. f_equal.
    rewrite (list_insert_insert_ne _ n 0) by done. rewrite !list_insert_insert_eq.
    rewrite (list_insert_id st n b) by done. by apply list_insert_id.
Qed.
