(* ===== verification/RuleSound.v ===== *)
(** * RuleSound: every simplification rule preserves the value of the expression

    The value of a pattern under an assignment of words to its match groups, the laws
    of the instructions the rules rely on (class [WordSemantics]), and the soundness of
    each rule of [simplificationRuleList] against them.  The reference interpreter is an instance
    of the class: the arithmetic of [EVMInstructionInterpreter::eval] stays within words and
    satisfies the laws in every state whose addresses have 160 bits.

    The closures of the rules never throw: an action and its feasibility test read the data of
    match groups the pattern has bound to constants, and the pattern an action builds is well
    formed, with the arguments its operations need, constants that are words and groups of the
    rule's pattern. *)

From S2P Require Import Prelude U256 CommonData Instruction EVMVersion AssemblyItem SemanticInformation Interpreter Pattern RuleList SimplificationRules Machine.

(** What the rules rely on: the arithmetic instructions mean what the interpreter
    computes, every value is a word, addresses have 160 bits, and the balance of the
    current address is what SELFBALANCE returns. *)
Class WordSemantics (op : Instruction -> list Z -> Z) : Prop := {
  op_arith i l v : Forall is_u256 l -> eval_arith i l = Some v -> op i l = v;
  op_range i l : Forall is_u256 l -> is_u256 (op i l);
  op_address i l :
    In i [ADDRESS; CALLER; ORIGIN; COINBASE; CREATE; CREATE2] -> Forall is_u256 l ->
    op i l < 2 ^ 160;
  op_selfbalance : op BALANCE [op ADDRESS []] = op SELFBALANCE [] }.

(** The value of a pattern: a match group has the value of the expression bound to
    it, a constant its value, an operation the value of its instruction. *)
Fixpoint peval (op : Instruction -> list Z -> Z) (ρ : nat -> Z) (p : Pattern) : Z :=
  let 'mkPattern t _ i dt args g := p in
  if Nat.eqb g 0 then
    match t with
    | Operation => op i (map (peval op ρ) args)
    | _ => default 0 dt
    end
  else ρ g.

(** The values a match assigns: words, and the constant itself for a group bound to a
    constant. *)
Record good_match (m : MatchGroups) (ρ : nat -> Z) : Prop := {
  gm_range g : is_u256 (ρ g);
  gm_const g e it : m !! g = Some e -> item e = Some it -> m_type it = Push -> ρ g = m_data it }.

(** A constant group is only bound to a constant. *)
Definition binds_const (m : MatchGroups) (g : nat) : Prop :=
  forall e it, m !! g = Some e -> item e = Some it -> m_type it = Push.

Definition rule_sound (op : Instruction -> list Z -> Z) (consts : list nat) (r : SimplificationRule)
  : Prop :=
  forall m ρ p', good_match m ρ -> Forall (binds_const m) consts ->
    match feasible r with Some f => f m = Some true | None => True end ->
    action r m = Some p' -> peval op ρ p' = peval op ρ (pattern r).

(** ** Reading a constant *)

Lemma d_const m ρ p a :
  good_match m ρ -> binds_const m (p_matchGroup p) -> d m p = Some a ->
  ρ (p_matchGroup p) = a.
Proof.
  intros Hm Hb. unfold d, matchGroupValue. intros H.
  destruct (assertThrow (0 <? _)); simplify_eq/=.
  destruct (m !! p_matchGroup p) as [e|] eqn:He; simplify_eq/=.
  destruct (item e) as [it|] eqn:Hit; simplify_eq/=.
  destruct (assertThrow _); simplify_eq/=.
  eapply gm_const; [done..|]. by eapply Hb.
Qed.

(** The ranges of a list of words. *)
Ltac words_list := repeat (apply Forall_cons_2; [assumption|]); apply Forall_nil_2.

Section Values.
Context (op : Instruction -> list Z -> Z) `{!WordSemantics op}.

(** The values of the instructions the rules mention. *)
Ltac by_arith := intros; apply op_arith; [words_list|reflexivity].

Lemma op_ADD a b : is_u256 a -> is_u256 b -> op ADD [a; b] = u256_add a b.
Proof. by_arith. Qed.
Lemma op_MUL a b : is_u256 a -> is_u256 b -> op MUL [a; b] = u256_mul a b.
Proof. by_arith. Qed.
Lemma op_SUB a b : is_u256 a -> is_u256 b -> op SUB [a; b] = u256_sub a b.
Proof. by_arith. Qed.
Lemma op_DIV a b : is_u256 a -> is_u256 b -> op DIV [a; b] = if b =? 0 then 0 else a / b.
Proof. by_arith. Qed.
Lemma op_SDIV a b : is_u256 a -> is_u256 b ->
  op SDIV [a; b] = if b =? 0 then 0 else s2u (Z.quot (u2s a) (u2s b)).
Proof. by_arith. Qed.
Lemma op_MOD a b : is_u256 a -> is_u256 b -> op MOD [a; b] = if b =? 0 then 0 else a mod b.
Proof. by_arith. Qed.
Lemma op_SMOD a b : is_u256 a -> is_u256 b ->
  op SMOD [a; b] = if b =? 0 then 0 else s2u (Z.rem (u2s a) (u2s b)).
Proof. by_arith. Qed.
Lemma op_EXP a b : is_u256 a -> is_u256 b -> op EXP [a; b] = u256 (a ^ b).
Proof.
  intros. apply op_arith; [words_list|]. by apply exp256_pow.
Qed.
Lemma op_NOT a : is_u256 a -> op NOT [a] = u256_not a.
Proof. by_arith. Qed.
Lemma op_LT a b : is_u256 a -> is_u256 b -> op LT [a; b] = bool_word (a <? b).
Proof. by_arith. Qed.
Lemma op_GT a b : is_u256 a -> is_u256 b -> op GT [a; b] = bool_word (b <? a).
Proof. by_arith. Qed.
Lemma op_SLT a b : is_u256 a -> is_u256 b -> op SLT [a; b] = bool_word (u2s a <? u2s b).
Proof. by_arith. Qed.
Lemma op_SGT a b : is_u256 a -> is_u256 b -> op SGT [a; b] = bool_word (u2s b <? u2s a).
Proof. by_arith. Qed.
Lemma op_EQ a b : is_u256 a -> is_u256 b -> op EQ [a; b] = bool_word (a =? b).
Proof. by_arith. Qed.
Lemma op_ISZERO a : is_u256 a -> op ISZERO [a] = bool_word (a =? 0).
Proof. by_arith. Qed.
Lemma op_AND a b : is_u256 a -> is_u256 b -> op AND [a; b] = Z.land a b.
Proof. by_arith. Qed.
Lemma op_OR a b : is_u256 a -> is_u256 b -> op OR [a; b] = Z.lor a b.
Proof. by_arith. Qed.
Lemma op_XOR a b : is_u256 a -> is_u256 b -> op XOR [a; b] = Z.lxor a b.
Proof. by_arith. Qed.
Lemma op_BYTE a b : is_u256 a -> is_u256 b ->
  op BYTE [a; b] = if 32 <=? a then 0 else Z.land (u256_shr b (8 * (31 - a))) 0xff.
Proof. by_arith. Qed.
Lemma op_SHL a b : is_u256 a -> is_u256 b ->
  op SHL [a; b] = if 255 <? a then 0 else u256_shl b a.
Proof. by_arith. Qed.
Lemma op_SHR a b : is_u256 a -> is_u256 b ->
  op SHR [a; b] = if 255 <? a then 0 else u256_shr b a.
Proof. by_arith. Qed.
Lemma op_ADDMOD a b c : is_u256 a -> is_u256 b -> is_u256 c ->
  op ADDMOD [a; b; c] = if c =? 0 then 0 else (a + b) mod c.
Proof. by_arith. Qed.
Lemma op_MULMOD a b c : is_u256 a -> is_u256 b -> is_u256 c ->
  op MULMOD [a; b; c] = if c =? 0 then 0 else (a * b) mod c.
Proof. by_arith. Qed.
Lemma op_SIGNEXTEND a b : is_u256 a -> is_u256 b ->
  op SIGNEXTEND [a; b] =
    if 31 <=? a then b
    else let mask := u256_sub (u256_shl 1 (a * 8 + 7)) 1 in
         if Z.testbit b (a * 8 + 7) then Z.lor b (u256_not mask) else Z.land b mask.
Proof. by_arith. Qed.

Lemma op_range0 i : is_u256 (op i []).
Proof. apply op_range; words_list. Qed.
Lemma op_range1 i a : is_u256 a -> is_u256 (op i [a]).
Proof. intros. apply op_range; words_list. Qed.
Lemma op_range2 i a b : is_u256 a -> is_u256 b -> is_u256 (op i [a; b]).
Proof. intros. apply op_range; words_list. Qed.
Lemma op_range3 i a b c : is_u256 a -> is_u256 b -> is_u256 c -> is_u256 (op i [a; b; c]).
Proof. intros. apply op_range; words_list. Qed.
Lemma op_range4 i a b c e :
  is_u256 a -> is_u256 b -> is_u256 c -> is_u256 e -> is_u256 (op i [a; b; c; e]).
Proof. intros. apply op_range; words_list. Qed.
End Values.

Lemma bool_word_range b : is_u256 (bool_word b).
Proof. destruct b; done. Qed.

#[export] Hint Resolve op_range0 op_range1 op_range2 op_range3 op_range4 bool_word_range : word.

(** Unfolds the constants of a rule and the words its action builds. *)
Ltac is_word :=
  solve [ assumption | apply u256_range | split; [discriminate|reflexivity] | auto 8 with word ].

(** [rule_start]: opens the soundness statement of one rule: the constants the action
    read become the values of their groups, and both sides are evaluated. *)
Ltac read_const Hm :=
  match goal with
  | H : context [d ?m ?p] |- _ =>
      let a := fresh "c" in let E := fresh "E" in
      destruct (d m p) as [a|] eqn:E; [cbn in H|discriminate H];
      apply (d_const _ _ _ _ Hm) in E; [|assumption]; cbn in E; subst a
  end.

Ltac op_values :=
  repeat first
    [ rewrite op_ADD by is_word | rewrite op_MUL by is_word | rewrite op_SUB by is_word
    | rewrite op_DIV by is_word | rewrite op_SDIV by is_word | rewrite op_MOD by is_word
    | rewrite op_SMOD by is_word | rewrite op_EXP by is_word | rewrite op_NOT by is_word
    | rewrite op_LT by is_word | rewrite op_GT by is_word | rewrite op_SLT by is_word
    | rewrite op_SGT by is_word | rewrite op_EQ by is_word | rewrite op_ISZERO by is_word
    | rewrite op_AND by is_word | rewrite op_OR by is_word | rewrite op_XOR by is_word
    | rewrite op_BYTE by is_word | rewrite op_SHL by is_word | rewrite op_SHR by is_word
    | rewrite op_ADDMOD by is_word | rewrite op_MULMOD by is_word
    | rewrite op_SIGNEXTEND by is_word ].

Ltac rule_start :=
  let m := fresh "m" in let ρ := fresh "ρ" in let p' := fresh "p'" in
  let Hm := fresh "Hm" in let Hf := fresh "Hf" in let Ha := fresh "Ha" in
  let HA := fresh "HA" in let HB := fresh "HB" in let HC := fresh "HC" in
  let Hc := fresh "Hc" in let Hc' := fresh "Hc'" in let Hc'' := fresh "Hc''" in
  intros m ρ p' Hm Hc Hf Ha;
  inversion Hc as [|? ? HA Hc']; subst; inversion Hc' as [|? ? HB Hc'']; subst;
  inversion Hc'' as [|? ? HC _]; subst; clear Hc Hc' Hc'';
  pose proof (gm_range _ _ Hm 1) as Ra; pose proof (gm_range _ _ Hm 2) as Rb;
  pose proof (gm_range _ _ Hm 3) as Rc; pose proof (gm_range _ _ Hm 4) as Rw;
  pose proof (gm_range _ _ Hm 5) as Rx; pose proof (gm_range _ _ Hm 6) as Ry;
  pose proof (gm_range _ _ Hm 7) as Rz;
  unfold rule, ruleIf, to, feasibilityFunction, with1, with2, with3 in Ha, Hf;
  cbn [action feasible] in Ha, Hf; cbn [pattern];
  repeat read_const Hm; injection Ha as <-; try (injection Hf as Hf); clear Hm HA HB HC.

(** Names the words of the groups. *)
Ltac name_value g v :=
  match goal with
  | H : is_u256 (?ρ g) |- _ => let v := fresh v in generalize dependent (ρ g); intros v
  end.
Ltac name_values :=
  name_value 7%nat ident:(z); name_value 6%nat ident:(y); name_value 5%nat ident:(x);
  name_value 4%nat ident:(w); name_value 3%nat ident:(c); name_value 2%nat ident:(b);
  name_value 1%nat ident:(a); intros.

(** Evaluates the patterns of a goal. *)
Ltac rule_values :=
  cbn -[u256 modulus u256_add u256_sub u256_mul u256_shl u256_shr u256_not u256_max
        Z.mul Z.shiftl Z.shiftr Z.div Z.modulo Z.pow Z.quot Z.rem Z.add Z.sub Z.land Z.lor Z.lxor
        WordSize Z.leb Z.ltb Z.eqb unsigned
        divWorkaround modWorkaround s2u u2s bool_word shlWorkaround];
  op_values.

(** [rule_case]: [rule_start], then both sides in terms of the words the groups have. *)
Ltac rule_case :=
  rule_start;
  rule_values; name_values.

(** The rules of a list one by one. *)
Ltac each_rule := repeat apply Forall_cons_2; [..|apply Forall_nil_2].

(** Evaluates the words that are constants. *)
Ltac const_words :=
  change (u256 0) with 0; change (u256 1) with 1; change (u256 255) with 255;
  change (u256 u256_max) with u256_max; change (u256 (WordSize / 8 - 1)) with 31;
  change (WordSize / 8 - 1) with 31; change (WordSize / 8) with 32; change WordSize with 256.

Ltac const_words_in H :=
  change (WordSize / 8) with 32 in H; change WordSize with 256 in H.

(** Splits the tests of a goal. *)
Ltac split_ifs :=
  repeat match goal with
  | |- context [if ?b then _ else _] => destruct b eqn:?
  end; bool_to_prop; unfold is_u256 in *.

(** An equation between sums, differences and products of words. *)
Ltac mod_ring :=
  unfold u256_add, u256_sub, u256_mul, u256;
  repeat first
    [ rewrite Zplus_mod_idemp_l | rewrite Zplus_mod_idemp_r
    | rewrite Zminus_mod_idemp_l | rewrite Zminus_mod_idemp_r
    | rewrite Zmult_mod_idemp_l | rewrite Zmult_mod_idemp_r ];
  f_equal; ring.

Lemma bool_word_eqb (b b' : bool) : b = b' -> bool_word b = bool_word b'.
Proof. by intros ->. Qed.

Lemma u256_mul_max x : u256_mul x u256_max = u256_sub 0 x.
Proof.
  unfold u256_mul, u256_sub, u256_max, u256.
  replace (x * (modulus - 1)) with (0 - x + x * modulus) by ring.
  by rewrite Z.mod_add.
Qed.

Lemma u2s_1 : u2s 1 = 1.
Proof. done. Qed.

Lemma s2u_u2s u : is_u256 u -> s2u (u2s u) = u.
Proof.
  intros Hu. rewrite u2s_cases by done. unfold s2u.
  change (Z.shiftl 1 256) with modulus.
  pose proof Hu as [H0 H1].
  destruct (Z.ltb_spec u (2 ^ 255)).
  - destruct (Z.leb_spec 0 u); [|lia]. by apply u256_id.
  - destruct (Z.leb_spec 0 (u - modulus)); [unfold modulus in *; lia|].
    rewrite u256_id; unfold is_u256; lia.
Qed.

Lemma s2u_range x : is_u256 (s2u x).
Proof. unfold s2u. destruct (0 <=? x); apply u256_range. Qed.

Lemma div_range a b : is_u256 a -> is_u256 b -> is_u256 (a / b).
Proof.
  intros [Ha Ha'] [Hb Hb']. destruct (Z.eq_dec b 0) as [->|]; [by rewrite Zdiv_0_r|].
  split; [apply Z.div_pos; lia|].
  eapply Z.le_lt_trans; [|exact Ha']. apply Z.div_le_upper_bound; nia.
Qed.

Lemma mod_range a b : 0 < b -> is_u256 b -> is_u256 (a mod b).
Proof. intros Hb [_ Hb']. pose proof (Z.mod_pos_bound a b Hb). unfold is_u256; lia. Qed.

Lemma shlWorkaround_eq x n : shlWorkaround x n = u256_shl x n.
Proof.
  unfold shlWorkaround, u256_shl. change (u256 (-1)) with u256_max.
  by rewrite u256_land_ones, u256_idem.
Qed.

Lemma quot_div a b : is_u256 a -> is_u256 b -> b <> 0 -> Z.quot a b = a / b.
Proof. intros [] [] ?. apply Z.quot_div_nonneg; lia. Qed.

Lemma rem_mod a b : 0 <= a -> 0 < b -> Z.rem a b = a mod b.
Proof. intros. by rewrite Z.rem_mod_nonneg by lia. Qed.

(** Compares the words of the tests that remain. *)
Ltac compare_words :=
  unfold bool_word, b2w;
  repeat match goal with
  | |- context [?a <? ?b] => destruct (Z.ltb_spec a b)
  | |- context [?a <=? ?b] => destruct (Z.leb_spec a b)
  | |- context [?a =? ?b] => destruct (Z.eqb_spec a b)
  end; unfold is_u256, u256_max, modulus in *; try reflexivity; try lia.

(** Splits the tests and keeps them as facts. *)
Ltac split_tests :=
  repeat match goal with
  | |- context [if ?b then _ else _] => destruct b eqn:?
  end; bool_to_prop.

(** Evaluates conversions of numbers that are in range. *)
Ltac in_range := unfold is_u256, modulus in *; lia.
Ltac small_words :=
  unfold u256_add, u256_sub;
  repeat match goal with
  | |- context [unsigned ?e] => rewrite (unsigned_small e) by in_range
  | |- context [u256 (?x + ?y)] => rewrite (u256_id (x + y)) by in_range
  | |- context [u256 (?x - ?y)] => rewrite (u256_id (x - y)) by in_range
  | |- context [u256 ?x] => is_var x; rewrite (u256_id x) by assumption
  | |- context [u256 (u256 ?e)] => rewrite (u256_idem e)
  end.

(** Closes an equation between shifts and masks. *)
Ltac shift_bits :=
  repeat match goal with
  | H : is_u256 ?v |- _ => lazymatch goal with _ : 0 <= v |- _ => fail | _ => pose proof (proj1 H) end
  end;
  rewrite ?shlWorkaround_eq; small_words; split_tests; try (exfalso; lia); try reflexivity;
  small_words; unfold u256_shl, u256_shr; word_bits.

(** Closes the equation of one rule. *)
Ltac rule_auto :=
  const_words; try reflexivity;
  solve
  [ mod_ring
  | compare_words
  | rewrite u256_id by is_word; reflexivity
  | match goal with |- ?x = _ => rewrite <- (u256_id x) at 1 by is_word; mod_ring end
  | unfold u256_not; word_bits
  | compare_words; unfold u256_shr, u256_shl; word_bits ].

Section Rules.
Context (op : Instruction -> list Z -> Z) `{!WordSemantics op}.

Lemma part1_sound :
  Forall (rule_sound op [1;2;3]%nat) (simplificationRuleListPart1 groupA groupB groupC groupW groupX).
Proof using All.
  unfold simplificationRuleListPart1. each_rule.
  all: rule_case. all: try rule_auto.
  - destruct (Z.eqb_spec b 0); [done|]. unfold divWorkaround.
    rewrite u256_idem, quot_div by done. by apply u256_id, div_range.
  - destruct (b =? 0); [done|]. by apply u256_id, s2u_range.
  - destruct (Z.eqb_spec b 0); [done|]. unfold modWorkaround.
    destruct Ra, Rb. rewrite u256_idem, rem_mod by lia. apply u256_id, mod_range; [lia|done].
  - destruct (b =? 0); [done|]. by apply u256_id, s2u_range.
  - const_words. destruct (Z.leb_spec 32 a); [done|].
    rewrite unsigned_small by (destruct Ra; lia). destruct Ra.
    apply u256_id, land_range; [apply shr_range; [done|lia]|done].
  - destruct (Z.eqb_spec c 0); [done|]. destruct Ra, Rb, Rc.
    rewrite rem_mod by lia. apply u256_id, mod_range; [lia|done].
  - destruct (Z.eqb_spec c 0); [done|]. destruct Ra, Rb, Rc.
    rewrite rem_mod by nia. apply u256_id, mod_range; [lia|done].
  - const_words. destruct (Z.leb_spec 31 a); [by apply u256_id|].
    rewrite unsigned_small by (destruct Ra; lia).
    cbn -[u256 Z.mul Z.add u256_shl u256_sub u256_not]. apply u256_id.
    destruct (Z.testbit b (a * 8 + 7)); [apply lor_range|apply land_range]; is_word.
  - const_words. destruct (Z.leb_spec 256 a), (Z.ltb_spec 255 a); try lia; [done|].
    rewrite unsigned_small, shlWorkaround_eq by (destruct Ra; lia). by apply u256_idem.
  - const_words. destruct (Z.leb_spec 256 a), (Z.ltb_spec 255 a); try lia; [done|].
    rewrite unsigned_small by (destruct Ra; lia).
    destruct Ra. by apply u256_id, shr_range.
Qed.

Lemma part2_sound :
  Forall (rule_sound op [1;2;3]%nat) (simplificationRuleListPart2 groupA groupB groupC groupW groupX).
Proof using All.
  unfold simplificationRuleListPart2. each_rule.
  all: rule_case. all: try rule_auto.
  all: const_words.
  - by rewrite u256_not_eq, <- (u256_id (u256_max - w)) by (try done; unfold is_u256, u256_max in *; lia).
  - by rewrite u256_mul_max.
  - unfold u256_mul. by rewrite Z.mul_comm, <- u256_mul_max.
  - by rewrite Z.div_1_r.
  - change (u2s 1) with 1. by rewrite Z.quot_1_r, s2u_u2s.
  - destruct (Z.eqb_spec w 0) as [->|]; [done|]. compare_words.
  - destruct (Z.eqb_spec w 0) as [->|]; [done|]. compare_words.
Qed.

Lemma part3_sound :
  Forall (rule_sound op [1;2;3]%nat) (simplificationRuleListPart3 groupA groupB groupC groupW groupX).
Proof using All.
  unfold simplificationRuleListPart3. each_rule.
  all: rule_case. all: try rule_auto.
  destruct (Z.eqb_spec w 0); [done|]. by rewrite Z_mod_same_full.
Qed.

Lemma part4_sound :
  Forall (rule_sound op [1;2;3]%nat) (simplificationRuleListPart4 groupA groupB groupC groupW groupX).
Proof using All. unfold simplificationRuleListPart4. each_rule. all: rule_case. all: rule_auto. Qed.

Lemma part4_5_sound :
  Forall (rule_sound op [1;2;3]%nat) (simplificationRuleListPart4_5 groupA groupB groupC groupW groupX).
Proof using All. unfold simplificationRuleListPart4_5. each_rule. all: rule_case. all: rule_auto. Qed.

Lemma mask160 i l :
  In i [ADDRESS; CALLER; ORIGIN; COINBASE; CREATE; CREATE2] -> Forall is_u256 l ->
  op i l = Z.land (op i l) (u256 (u256_sub (u256_shl 1 160) 1)).
Proof using All.
  intros Hi Hl. change (u256 (u256_sub (u256_shl 1 160) 1)) with (Z.ones 160).
  pose proof (op_address i l Hi Hl). destruct (op_range i l Hl).
  by rewrite Z.land_ones, Z.mod_small.
Qed.

Lemma mod_pow2_mask w i :
  is_u256 w -> 0 <= i < 256 ->
  Z.land w (u256 (u256_sub (u256_shl 1 i) 1)) =
  if u256 (u256_shl 1 i) =? 0 then 0 else w mod u256 (u256_shl 1 i).
Proof.
  intros Hw Hi. unfold u256_shl, u256_sub. rewrite Z.shiftl_1_l, !u256_idem.
  assert (0 < 2 ^ i < modulus) as Hp.
  { split; [apply Z.pow_pos_nonneg; lia|]. apply Z.pow_lt_mono_r; lia. }
  rewrite (u256_id (2 ^ i)) by (unfold is_u256; lia).
  rewrite u256_id by (unfold is_u256; lia).
  destruct (Z.eqb_spec (2 ^ i) 0); [lia|].
  rewrite Z.sub_1_r, <- Z.ones_equiv. apply Z.land_ones; lia.
Qed.

Lemma part5_sound :
  Forall (rule_sound op [1;2;3]%nat) (simplificationRuleListPart5 groupA groupB groupC groupW groupX).
Proof using All.
  unfold simplificationRuleListPart5. apply Forall_app; split; [|apply Forall_app; split].
  - apply Forall_map, Forall_forall. intros i Hi. cbn beta zeta.
    rule_case. apply mod_pow2_mask; [done|].
    apply elem_of_seq in Hi. change (Z.to_nat WordSize) with 256%nat in Hi. lia.
  - each_rule. all: rule_case. all: const_words_in Hf; bool_to_prop; const_words; compare_words.
  - cbn [concat map app]. each_rule. all: rule_case.
    all: rewrite 1?(Z.land_comm (u256 _)); apply mask160; [simpl; tauto|words_list].
Qed.

Lemma part6_sound :
  Forall (rule_sound op [1;2;3]%nat) (simplificationRuleListPart6 groupA groupB groupC groupW groupX).
Proof using All.
  unfold simplificationRuleListPart6. cbn [map app]. each_rule. all: rule_case. all: try rule_auto.
  apply bool_word_eqb. destruct (Z.eqb_spec w x) as [->|Hne]; [by rewrite Z.lxor_nilpotent|].
  symmetry. apply Z.eqb_neq. by rewrite Z.lxor_eq_0_iff.
Qed.

Lemma part8_sound :
  Forall (rule_sound op [1;2;3]%nat) (simplificationRuleListPart8 groupA groupB groupC groupW groupX).
Proof using All. unfold simplificationRuleListPart8. each_rule. all: rule_case. all: rule_auto. Qed.

Lemma part9_sound :
  Forall (rule_sound op [1;2;3]%nat) (simplificationRuleListPart9 groupA groupB groupC groupW groupX groupY groupZ).
Proof using All.
  unfold simplificationRuleListPart9. each_rule. all: rule_case.
  all: rewrite 1?(Z.land_comm (u256 _)); apply mask160; [simpl; tauto|words_list].
Qed.

Lemma associativeRules_sound :
  Forall (rule_sound op [1;2;3]%nat)
    (concat (map (fun '(instr, fn) => associativeRules groupA groupB groupW groupX instr fn)
      [(Instruction.ADD, u256_add); (Instruction.MUL, u256_mul); (Instruction.AND, Z.land);
       (Instruction.OR, Z.lor); (Instruction.XOR, Z.lxor)])).
Proof using All. cbn [concat map app associativeRules]. each_rule. all: rule_case. all: rule_auto. Qed.

Lemma shiftRules_sound : Forall (rule_sound op [1;2;3]%nat) (shiftRules groupA groupB groupW).
Proof using All.
  unfold shiftRules. each_rule.
  all: rule_start; const_words; try const_words_in Hf; cbn zeta; split_tests;
    rule_values; name_values; const_words; bool_to_prop.


all: shift_bits.
Qed.
Lemma shiftAndRules_sound :
  Forall (rule_sound op [1;2;3]%nat)
    (concat (map (fun '(instr, isSHL) => shiftAndRules groupA groupB groupW instr isSHL)
       [(Instruction.SHL, true); (Instruction.SHR, false)])).
Proof using All.
  cbn [concat map app shiftAndRules]. each_rule.
  all: rule_case. all: const_words_in Hf; bool_to_prop. all: shift_bits.
Qed.

Lemma shl_mul w x : 0 <= x -> u256_shl w x = u256_mul w (u256_shl 1 x).
Proof.
  intros. unfold u256_shl. rewrite u256_mul_idem_r. unfold u256_mul.
  by rewrite Z.shiftl_1_l, Z.shiftl_mul_pow2.
Qed.

Lemma shl_1 x : 0 <= x <= 255 -> u256_shl 1 x = 2 ^ x /\ 0 < 2 ^ x.
Proof.
  intros. unfold u256_shl. rewrite Z.shiftl_1_l.
  assert (0 < 2 ^ x < modulus) by (split; [apply Z.pow_pos_nonneg|apply Z.pow_lt_mono_r]; lia).
  split; [|lia]. apply u256_id. unfold is_u256. lia.
Qed.

(** A mask that keeps every bit a right shift can leave set. *)
Lemma shr_mask a w b :
  is_u256 w -> 0 <= b -> Z.land a (u256_shr u256_max b) = u256_shr u256_max b ->
  Z.land a (u256_shr w b) = u256_shr w b.
Proof.
  intros Hw Hb Ha.
  assert (u256_shr w b = Z.land (u256_shr u256_max b) (u256_shr w b)) as Hs
    by (unfold u256_shr; word_bits).
  by rewrite Hs, Z.land_assoc, Ha.
Qed.

Lemma mulDivRules_sound : Forall (rule_sound op [1;2;3]%nat) (mulDivRules groupA groupB groupW groupX).
Proof using All.
  unfold mulDivRules. each_rule. all: rule_case. all: const_words.
  4-5: const_words_in Hf; destruct (256 <? b) eqn:?; [done|]; bool_to_prop;
    rewrite unsigned_small in Hf by (destruct Rb; lia);
    rewrite 1?(Z.land_comm _ a); destruct (Z.ltb_spec 255 b);
    [by rewrite Z.land_0_r|by rewrite shr_mask by (try done; apply Rb)].
  - destruct (Z.ltb_spec 255 x); [by unfold u256_mul; rewrite Z.mul_0_r|].
    apply shl_mul, Rx.
  - destruct (Z.ltb_spec 255 w); [done|].
    unfold u256_mul. rewrite Z.mul_comm. apply shl_mul, Rw.
  - destruct (Z.ltb_spec 255 x); [done|].
    destruct (shl_1 x) as [-> ?]; [destruct Rx; lia|].
    destruct (Z.eqb_spec (2 ^ x) 0); [lia|].
    apply Z.shiftr_div_pow2, Rx.
Qed.

Lemma byteRules_sound : Forall (rule_sound op [1;2;3]%nat) (byteRules groupA groupB groupW).
Proof using All.
  unfold byteRules. each_rule. all: rule_case.
  all: const_words; const_words_in Hf; bool_to_prop.
  all: pose proof (Z.div_mod b 8 ltac:(done)); pose proof (Z.mod_pos_bound b 8 ltac:(done));
    set (q := b / 8) in *; assert (0 <= q <= b) by (unfold q; destruct Rb; split; [apply Z.div_pos|apply Z.div_le_upper_bound]; lia).
  all: shift_bits.
Qed.

Lemma part7_sound :
  Forall (rule_sound op [1;2;3]%nat) (simplificationRuleListPart7 groupA groupB groupC groupW groupX).
Proof using All.
  unfold simplificationRuleListPart7.
  apply Forall_app_2; [apply associativeRules_sound|].
  apply Forall_app_2; [apply shiftRules_sound|].
  apply Forall_app_2; [apply shiftAndRules_sound|].
  apply Forall_app_2; [apply mulDivRules_sound|apply byteRules_sound].
Qed.

Lemma evmRuleList_sound v :
  Forall (rule_sound op [1;2;3]%nat)
    (evmRuleList v groupA groupB groupC groupW groupX groupY groupZ).
Proof using All.
  unfold evmRuleList. destruct (hasSelfBalance v); each_rule.
  rule_case. symmetry. apply op_selfbalance.
Qed.

Lemma ruleSet_sound v : Forall (rule_sound op [1;2;3]%nat) (ruleSet v).
Proof using All.
  unfold ruleSet, simplificationRuleList.
  rewrite !Forall_app.
  repeat split; auto using part1_sound, part2_sound, part3_sound, part4_sound,
    part4_5_sound, part5_sound, part6_sound, part7_sound, part8_sound, part9_sound.
  destruct v; [apply evmRuleList_sound|apply Forall_nil_2].
Qed.

End Rules.

(** The arithmetic cases take the number of arguments the instruction table says. *)
Lemma eval_arith_args i l v : eval_arith i l = Some v -> args (instructionInfo i) = length l.
Proof.
  intros H. destruct i; try discriminate H; destruct l as [|a [|b [|c [|]]]];
    first [discriminate H|reflexivity].
Qed.

Ltac list_args H :=
  repeat match type of H with
  | Forall _ (_ :: _) => let H' := fresh "R" in apply Forall_cons in H as [H' H]
  end.

Lemma eval_arith_EXP a b :
  is_u256 a -> is_u256 b -> eval_arith EXP [a; b] = Some (u256 (a ^ b)).
Proof. apply exp256_pow. Qed.

(** Words in, a word out. *)
Lemma eval_arith_range i l v : Forall is_u256 l -> eval_arith i l = Some v -> is_u256 v.
Proof.
  intros Hl H. destruct i; try discriminate;
    destruct l as [|a [|b [|c [|]]]]; try discriminate; list_args Hl;
    try (rewrite eval_arith_EXP in H by done); cbn [eval_arith] in H; try (injection H as <-);
    try (apply u256_range || apply bool_word_range); auto with word.
  - destruct (b =? 0); [done|by apply div_range].
  - destruct (b =? 0); [done|apply s2u_range].
  - destruct (Z.eqb_spec b 0); [done|]. apply mod_range; [destruct R0; lia|done].
  - destruct (b =? 0); [done|apply s2u_range].
  - destruct (Z.eqb_spec c 0); [done|]. apply mod_range; [destruct R1; lia|done].
  - destruct (Z.eqb_spec c 0); [done|]. apply mod_range; [destruct R1; lia|done].
  - destruct (31 <=? a); [done|]. cbn zeta.
    apply if_range; [apply lor_range|apply land_range]; try done; apply u256_range.
  - destruct (Z.leb_spec 32 a); [done|]. destruct R.
    apply land_range; [apply shr_range; [done|lia]|done].
Qed.

Section Semantics.
Context (keccak256 : list Z -> Z) (s : InterpreterState).

(** The value of an instruction in a state; 0 where the interpreter stops. *)
Definition interp_value (i : Instruction) (l : list Z) : Z :=
  match fst (eval keccak256 i l s) with
  | inl v => u256 v
  | inr _ => 0
  end.

Definition is_address (a : Z) : Prop := 0 <= a < 2 ^ 160.

Record addresses_ok : Prop := {
  ok_address : is_address (address s);
  ok_caller : is_address (caller s);
  ok_origin : is_address (origin s);
  ok_coinbase : is_address (coinbase s) }.

Lemma address_word a : is_address a -> u256 a = a.
Proof. intros Ha. apply u256_id. unfold is_address, is_u256, modulus in *. lia. Qed.

Lemma address_small a : is_address a -> u256 a < 2 ^ 160.
Proof. intros Ha. rewrite address_word by done. apply Ha. Qed.

Lemma mod_address x : is_address (x mod 2 ^ 160).
Proof. by apply Z.mod_pos_bound. Qed.

Lemma interp_arith i l v : Forall is_u256 l -> eval_arith i l = Some v -> interp_value i l = v.
Proof.
  intros Hl H. unfold interp_value, eval.
  rewrite (eval_arith_args _ _ _ H), Nat.eqb_refl. cbn [negb]. rewrite H.
  apply u256_id. by eapply eval_arith_range.
Qed.

(** Every value a computation returns satisfies a predicate. *)
Definition returns (P : Z -> Prop) (m : M Z) : Prop :=
  match fst (m s) with inl v => P v | inr _ => True end.

Lemma mseq_returns {A} (P : Z -> Prop) (m : M A) (k : A -> M Z) :
  (forall a s', match fst (k a s') with inl v => P v | inr _ => True end) -> returns P (mseq m k).
Proof.
  intros H. unfold returns, mseq. destruct (m s) as [[a|e] s'] eqn:Hm; simpl; [apply H|done].
Qed.

(** The instructions that return an address. *)
Lemma eval_address i l :
  addresses_ok -> In i [ADDRESS; CALLER; ORIGIN; COINBASE; CREATE; CREATE2] ->
  returns is_address (eval keccak256 i l).
Proof.
  intros Hs Hi. unfold eval.
  destruct (negb _) eqn:Hn; [done|]. apply negb_false_iff, Nat.eqb_eq in Hn.
  simpl in Hi. destruct Hi as [<-|[<-|[<-|[<-|[<-|[<-|[]]]]]]];
    try (by destruct l; [|done]; unfold returns; simpl; apply Hs).
  - destruct l as [|a [|b [|c [|]]]]; try done. cbn [eval_arith].
    apply mseq_returns. intros _ s'. unfold mseq at 1. destruct (logTrace _ _ _ s') as [[|] s'']; [|done].
    apply mod_address.
  - destruct l as [|a [|b [|c [|e [|]]]]]; try done. cbn [eval_arith].
    apply mseq_returns. intros _ s'. unfold mseq at 1. destruct (logTrace _ _ _ s') as [[|] s'']; [|done].
    apply mod_address.
Qed.

Lemma interp_address i l :
  addresses_ok -> In i [ADDRESS; CALLER; ORIGIN; COINBASE; CREATE; CREATE2] ->
  interp_value i l < 2 ^ 160.
Proof.
  intros Hs Hi. pose proof (eval_address i l Hs Hi) as H. unfold returns in H. unfold interp_value.
  destruct (fst _); [by apply address_small|done].
Qed.

Lemma interp_range i l : is_u256 (interp_value i l).
Proof. unfold interp_value. destruct (fst _); [apply u256_range|done]. Qed.

(** The values of the interpreter satisfy the laws the rules rely on. *)
Lemma interp_semantics : addresses_ok -> WordSemantics interp_value.
Proof.
  intros Hs. split.
  - intros i l v. apply interp_arith.
  - intros i l _. apply interp_range.
  - intros i l Hi _. by apply interp_address.
  - unfold interp_value at 2. simpl. rewrite address_word by apply Hs.
    unfold interp_value. simpl. by rewrite Z.eqb_refl.
Qed.
End Semantics.

(** The groups of A, B and C. *)
Definition constGroups : list nat := [1; 2; 3]%nat.

(** The instructions whose value depends on the storage or memory they read. *)
Definition readsState (i : Instruction) : bool :=
  match i with SLOAD | MLOAD | KECCAK256 => true | _ => false end.

(** The instructions that return a value of the environment or of their arguments: what is
    neither storage nor memory, nor the position in the run. *)
Definition environment (i : Instruction) : bool :=
  negb (sideEffects (instructionInfo i)) && Nat.eqb (ret (instructionInfo i)) 1 &&
  negb (readsState i) && negb (isStackInstruction i) && negb (isSignalInstruction i) &&
  match i with GAS | PC | MSIZE => false | _ => true end.

(** The instructions the expressions of the rules are made of: besides those, CREATE and
    CREATE2, which take more than two arguments. *)
Definition plain (i : Instruction) : bool := environment i || (2 <? args (instructionInfo i))%nat.

Lemma plain_reads i : plain i = true -> readsState i = false.
Proof. by destruct i. Qed.

(** A well-formed pattern over some groups. *)
Inductive template_ok (groups : list nat) : Pattern -> Prop :=
| tok_group t i g :
    In g groups -> g <> 0%nat -> (if decide (In g constGroups) then t = Push else t = UndefinedItem) ->
    template_ok groups (mkPattern t false i None [] g)
| tok_const x : is_u256 x -> template_ok groups (mkPattern Push true STOP (Some x) [] 0)
| tok_op i l :
    length l = args (instructionInfo i) -> plain i = true -> Forall (template_ok groups) l ->
    template_ok groups (mkPattern Operation false i None l 0).

(** Every group of the pattern is bound, a constant's to a constant. *)
Definition binds (m : MatchGroups) (p : Pattern) : Prop :=
  forall g, In g (groups_of p) ->
    exists e, m !! g = Some e /\
      (In g constGroups -> exists it, item e = Some it /\ m_type it = Push).

Definition rule_total (r : SimplificationRule) : Prop :=
  (exists i l, pattern r = POp i l) /\ template_ok (groups_of (pattern r)) (pattern r) /\
  forall m, binds m (pattern r) ->
    match feasible r with Some f => f m <> None | None => True end /\
    exists p', action r m = Some p' /\ template_ok (groups_of (pattern r)) p'.

Lemma binds_d m p g t :
  binds m p -> In g (groups_of p) -> In g constGroups -> g <> 0%nat ->
  exists a, d m (setMatchGroup g (PType t)) = Some a.
Proof.
  intros Hb Hp Hc Hg. destruct (Hb g Hp) as (e & He & Hit).
  destruct (Hit Hc) as (it & Hi & Ht).
  unfold d, matchGroupValue. cbn [p_matchGroup setMatchGroup PType].
  destruct g as [|g]; [done|]. cbn [assertThrow]. simpl. rewrite He. simpl. rewrite Hi. simpl.
  rewrite bool_decide_eq_false_2 by (by rewrite Ht). simpl. by eexists.
Qed.

(** Proves that a pattern is well formed. *)
Ltac template :=
  repeat first
    [ apply tok_group; [simpl; tauto|discriminate|reflexivity]
    | apply tok_const; apply u256_range
    | apply tok_op; [reflexivity|reflexivity|]
    | apply Forall_cons_2 | apply Forall_nil_2 ].

Ltac total_const Hb g C :=
  try (let a := fresh "a" in let E := fresh "E" in
       destruct (binds_d _ _ g Push Hb ltac:(simpl; tauto) ltac:(simpl; tauto) ltac:(discriminate))
         as [a E];
       change (setMatchGroup g (PType Push)) with C in E; rewrite ?E).

Ltac rule_total :=
  split; [do 2 eexists; reflexivity|]; split; [unfold rule, ruleIf; cbn [pattern]; template|];
  let m := fresh "m" in let Hb := fresh "Hb" in
  intros m Hb; unfold rule, ruleIf in *; cbn [pattern action feasible] in *;
  unfold to, feasibilityFunction, with1, with2, with3;
  total_const Hb 1%nat groupA; total_const Hb 2%nat groupB; total_const Hb 3%nat groupC;
  cbn [mbind option_bind]; split; [first [exact I|discriminate]|];
  eexists; split; [reflexivity|];
  cbn zeta; repeat match goal with
  | |- template_ok _ (if ?b then _ else _) => destruct b
  end; template.

Ltac each_rule_total := repeat apply Forall_cons_2; [..|apply Forall_nil_2]; rule_total.

Lemma ruleSet_total v : Forall (rule_total) (ruleSet v).
Proof.
  unfold ruleSet, simplificationRuleList. rewrite !Forall_app. repeat split.
  - each_rule_total.
  - unfold simplificationRuleListPart2. each_rule_total.
  - each_rule_total.
  - each_rule_total.
  - each_rule_total.
  - unfold simplificationRuleListPart5. rewrite !Forall_app. repeat split.
    + apply Forall_map, Forall_forall. intros i Hi. cbn beta zeta. rule_total.
    + each_rule_total.
    + cbn [concat map app]. each_rule_total.
  - unfold simplificationRuleListPart6. cbn [map app]. each_rule_total.
  - unfold simplificationRuleListPart7. rewrite !Forall_app. repeat split.
    + cbn [concat map app associativeRules]. each_rule_total.
    + each_rule_total.
    + cbn [concat map app shiftAndRules]. each_rule_total.
    + each_rule_total.
    + each_rule_total.
  - each_rule_total.
  - each_rule_total.
  - destruct v as [v|]; [|apply Forall_nil_2]. unfold evmRuleList.
    destruct (hasSelfBalance v); each_rule_total.
Qed.
