(* ===== verification/MatchSound.v ===== *)
(** * MatchSound: findFirstMatch finds a rule whose result has the same value

    A semantics gives expressions values in a domain of integers and says when a value may stand
    for another one: the words of the machine with equality are one instance (WordClasses.v), the
    weights that bound the recursion of the simplifier with "not heavier" are another
    (RuleWeight.v).  Classes of equivalent expressions are given values; a rule that matches an
    expression of known value builds an expression of the same value, and neither the search nor
    the construction throws. *)

From S2P Require Import Prelude U256 CommonData Instruction EVMVersion AssemblyItem SemanticInformation Pattern RuleList SimplificationRules RuleSound.

(** The values allowed, the value of a constant, of an instruction, of an instruction at
    a sequence number, of the other pushes and unknown items, and the values ([y]) that
    may replace a value ([x]). *)
Record Semantics := mkSemantics {
  sem_dom : Z -> Prop;
  sem_cst : Z -> Z;
  sem_op : Instruction -> list Z -> Z;
  sem_seqop : Z -> Instruction -> list Z -> Z;
  sem_pushed : AssemblyItemType -> Z -> Z;
  sem_rel : Z -> Z -> Prop }.

(** The value of a pattern whose groups have the values [ρ]. *)
Fixpoint pvalue (S : Semantics) (ρ : nat -> Z) (p : Pattern) : Z :=
  let 'mkPattern t _ i dt args g := p in
  if Nat.eqb g 0 then
    match t with
    | Operation => sem_op S i (map (pvalue S ρ) args)
    | _ => sem_cst S (default 0 dt)
    end
  else ρ g.

(** The values a match assigns to the groups. *)
Record good_groups (S : Semantics) (m : MatchGroups) (ρ : nat -> Z) : Prop := {
  gg_dom g : sem_dom S (ρ g);
  gg_const g e it :
    m !! g = Some e -> item e = Some it -> m_type it = Push -> ρ g = sem_cst S (m_data it) }.

(** The result of a rule may replace what it matched. *)
Definition rule_improves (S : Semantics) (r : SimplificationRule) : Prop :=
  forall m ρ p', good_groups S m ρ -> Forall (binds_const m) constGroups -> binds m (pattern r) ->
    match feasible r with Some f => f m = Some true | None => True end ->
    action r m = Some p' -> sem_rel S (pvalue S ρ (pattern r)) (pvalue S ρ p').

Class SemanticsLaws (S : Semantics) : Prop := {
  sem_pure s i l : readsState i = false -> sem_seqop S s i l = sem_op S i l;
  sem_seqop_dom s i l : Forall (sem_dom S) l -> sem_dom S (sem_seqop S s i l);
  sem_pushed_dom t x : sem_dom S (sem_pushed S t x);
  sem_cst_dom c : is_u256 c -> sem_dom S (sem_cst S c);
  sem_default : sem_dom S (sem_cst S 0);
  sem_refl x : sem_rel S x x;
  sem_trans x y z : sem_rel S x y -> sem_rel S y z -> sem_rel S x z;
  sem_mono s i l l' :
    Forall (sem_dom S) l -> Forall (sem_dom S) l' -> Forall2 (sem_rel S) l l' ->
    sem_rel S (sem_seqop S s i l) (sem_seqop S s i l');
  sem_comm s i a b :
    isCommutativeInstruction i = true -> sem_dom S a -> sem_dom S b ->
    sem_seqop S s i [a; b] = sem_seqop S s i [b; a];
  sem_rules : Forall (rule_improves S) (ruleSet None) }.

Lemma rel_refl_list S `{!SemanticsLaws S} l : Forall2 (sem_rel S) l l.
Proof. induction l; constructor; [apply sem_refl|done]. Qed.

(** The loop of [matches] over the arguments. *)
Section MatchesAll.
Context (_classes : list Expression).
Fixpoint matchesAll (ps : list Pattern) (ids : list Z) (m : MatchGroups)
  : option (bool * MatchGroups) :=
  match ps, ids with
  | [], _ => Some (true, m)
  | p :: ps, i :: ids =>
      e ← representative _classes i;
      '(ok, m) ← matches _classes p e m;
      if negb ok then Some (false, m) else matchesAll ps ids m
  | _ :: _, [] => None
  end.
End MatchesAll.

Section Classes.
Context (S : Semantics) `{!SemanticsLaws S}.

(** The value of an item applied to arguments, at the sequence number of its expression. *)
Definition item_value (it : AssemblyItem) (seq : Z) (l : list Z) : Z :=
  match m_type it with
  | Operation => sem_seqop S seq (m_instruction it) l
  | Push => sem_cst S (m_data it)
  | t => sem_pushed S t (m_data it)
  end.

(** [x] is the value of the expression when the classes have the values [v]; an
    operation has the arguments of its instruction. *)
Definition expr_value (v : Z -> Z) (e : Expression) (x : Z) : Prop :=
  forall it, item e = Some it ->
    (m_type it = Operation -> length (e_arguments e) = args (instructionInfo (m_instruction it))) /\
    x = item_value it (sequenceNumber e) (map v (e_arguments e)).

(** The values [v] of the classes are in the domain and each representative has the value of
    its class. *)
Record classes_value (reps : list Expression) (v : Z -> Z) : Prop := {
  cv_range i : sem_dom S (v i);
  cv_rep i e : reps !! i = Some e -> id e = Z.of_nat i /\ expr_value v e (v (Z.of_nat i)) }.

(** The value the groups have. *)
Definition group_value (v : Z -> Z) (m : MatchGroups) (g : nat) : Z :=
  match m !! g with Some e => v (id e) | None => sem_cst S 0 end.

(** What a match has established about the groups. *)
Record groups_ok (reps : list Expression) (v : Z -> Z) (m : MatchGroups) : Prop := {
  go_in g e : m !! g = Some e -> In e reps;
  go_value g e : m !! g = Some e -> expr_value v e (v (id e));
  go_const g e it : m !! g = Some e -> item e = Some it -> In g constGroups -> m_type it = Push;
  go_bound g e : m !! g = Some e -> In g constGroups -> exists it, item e = Some it }.

Lemma groups_ok_empty reps v : groups_ok reps v ∅.
Proof. split; intros *; rewrite lookup_empty; done. Qed.

Lemma groups_ok_good reps v m :
  classes_value reps v -> groups_ok reps v m -> good_groups S m (group_value v m).
Proof.
  intros Hv Hm. split.
  - intros g. unfold group_value. destruct (m !! g); [apply Hv|apply sem_default].
  - intros g e it Hg Hi Ht. unfold group_value. rewrite Hg.
    destruct (go_value _ _ _ Hm g e Hg it Hi) as [_ ->]. unfold item_value. by rewrite Ht.
Qed.

Lemma groups_ok_consts reps v m : groups_ok reps v m -> Forall (binds_const m) constGroups.
Proof.
  intros Hm. apply List.Forall_forall. intros g Hg e it He Hi. by eapply go_const.
Qed.

Lemma groups_ok_binds reps v m p :
  groups_ok reps v m -> (forall g, In g (groups_of p) -> exists e, m !! g = Some e) -> binds m p.
Proof.
  intros Hm Hb g Hg. destruct (Hb g Hg) as [e He]. exists e. split; [done|]. intros Hc.
  destruct (go_bound _ _ _ Hm g e He Hc) as [it Hi]. exists it. split; [done|]. by eapply go_const.
Qed.

(** The value of a pattern does not depend on groups it does not mention. *)
Lemma pvalue_groups ρ ρ' groups p :
  template_ok groups p -> (forall g, In g (groups_of p) -> ρ g = ρ' g) ->
  pvalue S ρ p = pvalue S ρ' p.
Proof.
  induction p as [t r i dt l g IH] using Pattern_ind_args. intros Hp H.
  cbn [pvalue groups_of] in *.
  destruct (Nat.eqb g 0) eqn:Hg.
  - destruct t; try done. f_equal.
    inversion Hp as [|c Hc|? ? Hl Hrs Hargs]; subst; [done|].
    apply map_ext_in. intros a Ha.
    rewrite List.Forall_forall in IH. rewrite Forall_forall in Hargs.
    apply IH; [done|by apply Hargs, list_elem_of_In|].
    intros g Hg'. apply H. simpl. apply in_concat. exists (groups_of a).
    split; [by apply in_map|done].
  - apply H. simpl. by left.
Qed.

Lemma matches_eq _classes t r i dt l g e m :
  matches _classes (mkPattern t r i dt l g) e m =
  (base ← matchesBaseItem (mkPattern t r i dt l g) (item e);
   if negb base then Some (false, m)
   else let '(ok, m) := matchGroup g e m in
        if negb ok then Some (false, m)
        else _ ← assertThrow (Nat.eqb (length l) 0 || Nat.eqb (length (e_arguments e)) (length l));
             matchesAll _classes l (e_arguments e) m).
Proof. reflexivity. Qed.

(** What a successful match gives: the groups are still consistent, the pattern's are
    bound, and the pattern has the value of the expression. *)
Definition match_ok (reps : list Expression) (v : Z -> Z) (m m' : MatchGroups) (gs : list nat) : Prop :=
  groups_ok reps v m' /\ m ⊆ m' /\ forall g, In g gs -> exists e, m' !! g = Some e.

Definition matches_spec (reps : list Expression) (v : Z -> Z) (p : Pattern) : Prop :=
  forall e m m' x, expr_value v e x -> (p_matchGroup p <> 0%nat -> In e reps /\ x = v (id e)) ->
    groups_ok reps v m -> matches reps p e m = Some (true, m') ->
    match_ok reps v m m' (groups_of p) /\
    forall m'', m' ⊆ m'' -> pvalue S (group_value v m'') p = x.

Lemma match_ok_refl reps v m : groups_ok reps v m -> match_ok reps v m m [].
Proof. by intros Hm; split; [|split; [|intros g []]]. Qed.

Lemma match_ok_trans reps v m1 m2 m3 gs gs' :
  match_ok reps v m1 m2 gs -> match_ok reps v m2 m3 gs' -> match_ok reps v m1 m3 (gs ++ gs').
Proof.
  intros (? & Hs & Hg) (? & Hs' & Hg'). split; [done|]. split; [by etrans|].
  intros g Hi. apply in_app_or in Hi as [Hi|Hi]; [|by apply Hg'].
  destruct (Hg g Hi) as [e He]. exists e. by eapply lookup_weaken.
Qed.

Lemma representative_rep reps v i e :
  classes_value reps v -> representative reps i = Some e ->
  In e reps /\ id e = i /\ expr_value v e (v i).
Proof.
  intros Hv. unfold representative. destruct (Z.leb_spec 0 i); [|done]. intros He.
  destruct (cv_rep _ _ Hv _ _ He) as [Hid Hev]. rewrite Z2Nat.id in Hid, Hev by done.
  split; [|done]. by eapply list_elem_of_In, list_elem_of_lookup_2.
Qed.

Lemma matchesAll_sound reps v ps :
  classes_value reps v -> Forall (matches_spec reps v) ps ->
  forall ids m m', length ids = length ps -> groups_ok reps v m ->
    matchesAll reps ps ids m = Some (true, m') ->
    match_ok reps v m m' (concat (map groups_of ps)) /\
    forall m'', m' ⊆ m'' -> map (pvalue S (group_value v m'')) ps = map v ids.
Proof.
  intros Hv. induction 1 as [|p ps Hp Hps IH]; intros [|i ids] m m' Hl Hm H;
    cbn [matchesAll] in H; simplify_eq/=; [by split; [apply match_ok_refl|]|].
  destruct (representative reps i) as [e|] eqn:He; simplify_eq/=.
  destruct (representative_rep _ _ _ _ Hv He) as (Hin & <- & Hev).
  destruct (matches reps p e m) as [[[] m1]|] eqn:Hm1; simplify_eq/=.
  destruct (Hp e m m1 _ Hev (fun _ => conj Hin eq_refl) Hm Hm1) as [Hok Hval].
  destruct (IH ids m1 m' Hl (proj1 Hok) H) as [Hok' Hval'].
  split; [by eapply match_ok_trans|].
  intros m'' Hs. rewrite Hval' by done. f_equal. apply Hval. etrans; [apply Hok'|done].
Qed.

Lemma matchGroup_sound reps v g e m m' x :
  g <> 0%nat -> In e reps -> expr_value v e x -> x = v (id e) -> groups_ok reps v m ->
  (In g constGroups -> exists it, item e = Some it /\ m_type it = Push) ->
  matchGroup g e m = (true, m') ->
  match_ok reps v m m' [g] /\ forall m'', m' ⊆ m'' -> group_value v m'' g = x.
Proof.
  intros Hg Hin He -> Hm Hc H. unfold matchGroup in H.
  destruct (Nat.eqb_spec g 0); [done|]. destruct (m !! g) as [e0|] eqn:H0.
  - destruct (Z.eqb_spec (id e0) (id e)) as [Hid|]; simplify_eq. split.
    + split; [done|]. split; [done|]. intros g' [<-|[]]. by exists e0.
    + intros m'' Hs. unfold group_value. rewrite (lookup_weaken _ _ _ _ H0 Hs). by rewrite Hid.
  - simplify_eq. split.
    + split; [|split; [by apply insert_subseteq|intros g' [<-|[]]; exists e; by simplify_map_eq]].
      split; intros g' e'; destruct (decide (g' = g)) as [->|]; simplify_map_eq; try apply Hm; try done.
      all: naive_solver.
    + intros m'' Hs. unfold group_value.
      erewrite lookup_weaken; [done| |exact Hs]. by simplify_map_eq.
Qed.

Lemma matches_sound reps v groups p :
  classes_value reps v -> template_ok groups p -> matches_spec reps v p.
Proof.
  intros Hv. induction p as [t r i dt l g IH] using Pattern_ind_args.
  intros Hp e m m' x He Hx Hm H. rewrite matches_eq in H. cbn [p_matchGroup] in Hx.
  destruct (matchesBaseItem _ _) as [[]|] eqn:Hbase; simplify_eq/=.
  inversion Hp as [? ? ? Hin Hg Ht|c Hc|? ? Hl Hrs Hargs]; subst.
  - destruct (matchGroup g e m) as [[] m1] eqn:Hmg; simplify_eq/=.
    destruct (Hx Hg) as [Hin' Hxv].
    destruct (matchGroup_sound reps v g e m m' x) as [Hok Hval]; try done.
    { intros Hcg. rewrite decide_True in Ht by done. subst t.
      unfold matchesBaseItem in Hbase. simpl in Hbase.
      destruct (item e) as [it|]; [|done]. exists it. split; [done|].
      destruct (bool_decide (Push = m_type it)) eqn:Hb; [|done].
      by apply bool_decide_eq_true in Hb. }
    destruct (Nat.eqb_spec g 0); [done|]. split; [by rewrite app_nil_r|done].
  - simplify_eq/=. split; [by apply match_ok_refl|]. intros m'' _.
    unfold matchesBaseItem in Hbase. simpl in Hbase.
    destruct (item e) as [it|] eqn:Hi; [|done].
    destruct (bool_decide (Push = m_type it)) eqn:Hb; simplify_eq/=.
    apply bool_decide_eq_true in Hb. apply Z.eqb_eq in Hbase. subst c.
    destruct (He it Hi) as [_ ->]. unfold item_value. by rewrite <- Hb.
  - unfold matchesBaseItem in Hbase. simpl in Hbase.
    destruct (item e) as [it|] eqn:Hi; [|done].
    destruct (bool_decide (Operation = m_type it)) eqn:Hb; simplify_eq/=.
    apply bool_decide_eq_true in Hb. apply bool_decide_eq_true in Hbase. subst i.
    destruct (He it Hi) as [Hlen ->]. specialize (Hlen (eq_sym Hb)).
    unfold item_value. rewrite <- Hb.
    destruct (assertThrow _); simplify_eq/=.
    destruct (matchesAll_sound reps v l Hv) with (ids := e_arguments e) (m := m) (m' := m')
      as [Hok Hval]; try done; [|congruence|].
    { apply Forall_forall. intros a Ha. rewrite Forall_forall in IH, Hargs.
      apply IH; [done|by apply Hargs]. }
    split; [done|]. intros m'' Hs. by rewrite (Hval m'' Hs), sem_pure by (by apply plain_reads).
Qed.

(** The classes an expression refers to exist. *)
Definition args_in (reps : list Expression) (e : Expression) : Prop :=
  Forall (fun i => 0 <= i < Z.of_nat (length reps)) (e_arguments e).
Definition closed (reps : list Expression) : Prop := Forall (args_in reps) reps.

Lemma representative_None reps i :
  representative reps i = None -> ~ 0 <= i < Z.of_nat (length reps).
Proof.
  unfold representative. destruct (Z.leb_spec 0 i); [|lia]. intros Hl%lookup_ge_None. lia.
Qed.

Lemma matchesAll_total reps v ps :
  closed reps -> classes_value reps v ->
  Forall (fun p => forall e m x, expr_value v e x -> args_in reps e -> matches reps p e m <> None) ps ->
  forall ids m, length ids = length ps -> Forall (fun i => 0 <= i < Z.of_nat (length reps)) ids ->
    matchesAll reps ps ids m <> None.
Proof.
  intros Hc Hv. induction 1 as [|p ps Hp Hps IH]; intros [|i ids] m Hl Hids; simplify_eq/=; [done|].
  inversion Hids as [|? ? Hi Hids']; subst.
  destruct (representative reps i) as [e|] eqn:He; [|by apply representative_None in He].
  cbn [mbind option_bind].
  destruct (representative_rep _ _ _ _ Hv He) as (Hin & _ & Hev).
  assert (args_in reps e) as Hae by (unfold closed in Hc; rewrite List.Forall_forall in Hc; by apply Hc).
  destruct (matches reps p e m) as [[[] m1]|] eqn:Hm1; simpl; [by apply IH|done|].
  by destruct (Hp e m _ Hev Hae).
Qed.

Lemma matchesBaseItem_total groups p o : template_ok groups p -> matchesBaseItem p o <> None.
Proof.
  intros Hp. unfold matchesBaseItem. destruct Hp; simpl; repeat case_step; done.
Qed.

Lemma matches_total reps v groups p :
  closed reps -> classes_value reps v -> template_ok groups p ->
  forall e m x, expr_value v e x -> args_in reps e -> matches reps p e m <> None.
Proof.
  intros Hc Hv. induction p as [t r i dt l g IH] using Pattern_ind_args.
  intros Hp e m x He Hae. rewrite matches_eq.
  pose proof (matchesBaseItem_total groups _ (item e) Hp) as Hbt.
  destruct (matchesBaseItem _ _) as [[]|] eqn:Hbase; [|done..]. cbn [mbind option_bind negb].
  destruct (matchGroup g e m) as [[] m1]; [|done]. cbn [negb].
  inversion Hp as [? ? ? Hin Hg Ht|c ?|? ? Hl Hrs Hargs]; subst; try done.
  unfold matchesBaseItem in Hbase. simpl in Hbase.
  destruct (item e) as [it|] eqn:Hi; [|done].
  destruct (bool_decide (Operation = m_type it)) eqn:Hb; simplify_eq/=.
  apply bool_decide_eq_true in Hb. apply bool_decide_eq_true in Hbase. subst i.
  destruct (He it Hi) as [Hlen _]. specialize (Hlen (eq_sym Hb)).
  rewrite (proj2 (Nat.eqb_eq (length (e_arguments e)) (length l))) by congruence.
  rewrite orb_true_r. cbn [assertThrow mbind option_bind].
  eapply matchesAll_total; try done; [|congruence].
  apply Forall_forall. intros a Ha. rewrite Forall_forall in IH, Hargs.
  apply IH; [done|by apply Hargs].
Qed.

(** ** Templates *)

Fixpoint template_value (v : Z -> Z) (t : ExpressionTemplate) : Z :=
  let 'mkTemplate hasId i it l := t in
  if hasId then v i
  else match m_type it with
       | Operation => sem_op S (m_instruction it) (map (template_value v) l)
       | _ => sem_cst S (m_data it)
       end.

(** A template over existing classes: operations have the arguments of their
    instruction and constants are words. *)
Inductive template_wf (n : Z) : ExpressionTemplate -> Prop :=
| twf_id i it : 0 <= i < n -> template_wf n (mkTemplate true i it [])
| twf_const c loc : is_u256 c -> template_wf n (mkTemplate false noId (dataItem Push c loc) [])
| twf_op i loc l :
    length l = args (instructionInfo i) -> plain i = true -> Forall (template_wf n) l ->
    template_wf n (mkTemplate false noId (opItem i loc) l).

Section Templates.
Context (m : MatchGroups) (_location : SourceLocation).
Fixpoint expressionTemplates (l : list Pattern) : option (list ExpressionTemplate) :=
  match l with
  | [] => Some []
  | a :: l => t ← expressionTemplate m a _location; ts ← expressionTemplates l; Some (t :: ts)
  end.
End Templates.

Lemma expressionTemplate_eq m t r i dt l g loc :
  expressionTemplate m (mkPattern t r i dt l g) loc =
  match expressionTemplates m loc l with
  | None => None
  | Some ts =>
      if Nat.eqb g 0
      then it ← toAssemblyItem (mkPattern t r i dt l g) loc; Some (mkTemplate false noId it ts)
      else i ← p_id m (mkPattern t r i dt l g); Some (mkTemplate true i undefinedItem ts)
  end.
Proof. reflexivity. Qed.

(** A template that only mentions bound groups can be built and has the value of its
    pattern. *)
Lemma expressionTemplate_value reps v m groups p loc :
  classes_value reps v -> template_ok groups p ->
  (forall g, In g groups -> exists e, m !! g = Some e /\ In e reps) ->
  exists t, expressionTemplate m p loc = Some t /\ template_wf (Z.of_nat (length reps)) t /\
    template_value v t = pvalue S (group_value v m) p.
Proof.
  intros Hv Hp Hb. induction p as [t r i dt l g IH] using Pattern_ind_args.
  rewrite expressionTemplate_eq.
  inversion Hp as [? ? ? Hin Hg Ht|c Hc|? ? Hl Hrs Hargs]; subst.
  - cbn [expressionTemplates]. destruct (Hb g Hin) as (e & He & Hr).
    unfold p_id, matchGroupValue, group_value. destruct g as [|g]; [done|]. simpl.
    rewrite He. simpl. eexists. split; [done|]. split; [|done]. constructor.
    apply list_elem_of_In, list_elem_of_lookup_1 in Hr as [k Hk].
    rewrite (proj1 (cv_rep _ _ Hv k e Hk)). apply lookup_lt_Some in Hk. lia.
  - eexists. split; [reflexivity|]. split; [by constructor|done].
  - assert (exists ts, expressionTemplates m loc l = Some ts /\ length ts = length l /\
      Forall (template_wf (Z.of_nat (length reps))) ts /\
      map (template_value v) ts = map (pvalue S (group_value v m)) l) as (ts & -> & Hlt & Hwf & Hts).
    { clear Hp Hl. induction IH as [|a l Ha _ IHl]; [by exists []|].
      inversion Hargs; subst. destruct Ha as (ta & Hta & Hwa & Hva); [done|].
      destruct IHl as (ts & Hts & Hlt & Hws & Hvs); [done|].
      exists (ta :: ts). cbn [expressionTemplates map length]. rewrite Hta, Hts. simpl.
      rewrite Hva, Hvs, Hlt. repeat split; by constructor. }
    eexists. split; [reflexivity|]. split; [by apply twf_op; [rewrite Hlt|..]|].
    simpl. by rewrite Hts.
Qed.
End Classes.

Lemma Forall_filter_incl {A} (P Q : A -> Prop) `{!forall x, Decision (Q x)} l :
  Forall P l -> Forall P (filter Q l).
Proof.
  induction 1; [done|]. rewrite filter_cons. case_decide; [by constructor|done].
Qed.

(** ** The rule table *)

Lemma addRules_spec rs : forall t t',
  addRules t rs = Some t' ->
  forall k l, t !! k = Some l ->
    t' !! k = Some (l ++ filter (fun r => Z.to_nat (opcode (p_instruction (pattern r))) = k) rs).
Proof.
  induction rs as [|r rs IH]; intros t t' H k l Hk; cbn [addRules] in H.
  - simplify_eq. by rewrite filter_nil, app_nil_r.
  - unfold addRule, patternInstruction in H.
    destruct (assertThrow _) eqn:Ha; [|done]. cbn [mbind option_bind] in H.
    set (j := Z.to_nat (opcode (p_instruction (pattern r)))) in *.
    specialize (IH _ _ H k). destruct (decide (j = k)) as [<-|Hjk].
    + rewrite list_lookup_alter_eq, Hk in IH. specialize (IH _ eq_refl).
      rewrite IH, filter_cons_True by done. by rewrite <- app_assoc.
    + rewrite list_lookup_alter_ne, Hk in IH by done.
      rewrite filter_cons_False by done. by apply IH.
Qed.

Lemma addRules_total rs : forall t,
  Forall rule_total rs -> exists t', addRules t rs = Some t' /\ length t' = length t.
Proof.
  induction rs as [|r rs IH]; intros t Hr; [by exists t|].
  inversion Hr as [|? ? (Ho & _) Hrs]; subst. destruct Ho as (i & l & Hp).
  cbn [addRules]. unfold addRule, patternInstruction. rewrite Hp. simpl.
  destruct (IH (alter (fun l => l ++ [r]) (Z.to_nat (opcode i)) t) Hrs) as (t' & Ht' & Hl).
  exists t'. split; [done|]. by rewrite Hl, length_alter.
Qed.

Lemma opcode_range i : 0 <= opcode i < 256.
Proof. destruct i; done. Qed.

(** The bucket of an instruction holds the rules whose pattern starts with it, in the
    order of the list. *)
Lemma Rules_bucket : exists t, Rules = Some t /\ forall i,
  t !! Z.to_nat (opcode i) = Some (filter (fun r => p_instruction (pattern r) = i) (ruleSet None)).
Proof.
  destruct (addRules_total (ruleSet None) (replicate 256 []) (ruleSet_total None)) as (t & Ht & _).
  assert (forall i, t !! Z.to_nat (opcode i) =
    Some (filter (fun r => p_instruction (pattern r) = i) (ruleSet None))) as Hb.
  { intros i. rewrite (addRules_spec _ _ _ Ht _ []) 
      by (apply lookup_replicate_2; pose proof (opcode_range i); lia).
    rewrite app_nil_l. f_equal. apply list_filter_iff. intros r. split; [|by intros ->].
    intros H. apply opcode_inj.
    pose proof (opcode_range i). pose proof (opcode_range (p_instruction (pattern r))). lia. }
  exists t. split; [|done]. unfold Rules. rewrite Ht. cbn [mbind option_bind].
  unfold isInitialized. by rewrite Hb.
Qed.

Lemma Rules_isInitialized t : Rules = Some t -> isInitialized t = true.
Proof.
  unfold Rules. destruct (addRules _ _) as [t'|]; [|done]. cbn [mbind option_bind].
  destruct (isInitialized t') eqn:Hi; [|done]. cbn [assertThrow mbind option_bind].
  by intros [= <-].
Qed.

(** ** Finding a rule *)

Section Find.
Context (S : Semantics) `{!SemanticsLaws S}.
Local Abbreviation classes_value := (classes_value S).
Local Abbreviation expr_value := (expr_value S).

(** What the result of a search promises: its action builds a pattern whose value may
    replace that of the expression, over groups that are bound. *)
Definition found_ok (reps : list Expression) (v : Z -> Z) (x : Z) (found : SimplificationRule * MatchGroups) : Prop :=
  let '(r, m) := found in
  exists p', action r m = Some p' /\ template_ok (groups_of (pattern r)) p' /\
    (forall g, In g (groups_of (pattern r)) -> exists e, m !! g = Some e /\ In e reps) /\
    sem_rel S x (pvalue S (group_value S v m) p').

Definition search_ok (reps : list Expression) (v : Z -> Z) (x : Z) (rules : list SimplificationRule)
    (res : option (SimplificationRule * MatchGroups)) : Prop :=
  match res with Some found => In (fst found) rules /\ found_ok reps v x found | None => True end.

Lemma search_ok_skip reps v x r rules res : search_ok reps v x rules res -> search_ok reps v x (r :: rules) res.
Proof using All. destruct res; simpl; tauto. Qed.

Lemma firstMatch_ok reps v e x rules :
  closed reps -> classes_value reps v -> expr_value v e x -> args_in reps e ->
  Forall rule_total rules -> Forall (rule_improves S) rules ->
  exists res, firstMatch reps rules e = Some res /\ search_ok reps v x rules res.
Proof using All.
  intros Hc Hv He Ha. induction rules as [|r rules IH]; intros Ht Hs; [by exists None|].
  inversion Ht as [|? ? (Hop & Hpat & Htot) Ht']; subst.
  inversion Hs as [|? ? Hsound Hs']; subst.
  destruct (IH Ht' Hs') as (res & Hres & Hok). clear IH.
  cbn [firstMatch].
  pose proof (matches_total S reps v _ _ Hc Hv Hpat e ∅ x He Ha) as Hm.
  destruct (matches reps (pattern r) e ∅) as [[[] m]|] eqn:Hmr; [| |done]; cbn [mbind option_bind negb].
  2: { exists res. split; [done|by apply search_ok_skip]. }
  assert (p_matchGroup (pattern r) = 0%nat) as Hg by (destruct Hop as (i & l & ->); done).
  destruct (matches_sound S reps v _ _ Hv Hpat e ∅ m x He (fun H => False_ind _ (H Hg))
    (groups_ok_empty S reps v) Hmr) as [(Hgo & _ & Hbound) Hval].
  destruct (Htot m (groups_ok_binds S reps v m _ Hgo Hbound)) as (Hf & p' & Hact & Htp).
  assert (match feasible r with Some f => f m = Some true | None => True end ->
    found_ok reps v x (r, m)) as Hfound.
  { intros Hfeas. exists p'. split; [done|]. split; [done|]. split.
    { intros g Hg'. destruct (Hbound g Hg') as [e' He']. exists e'. split; [done|].
      by eapply go_in. }
    rewrite <- (Hval m) by done.
    apply (Hsound m (group_value S v m) p'); [by eapply groups_ok_good|by eapply groups_ok_consts|
      by eapply groups_ok_binds|done|done]. }
  destruct (feasible r) as [f|].
  - destruct (f m) as [[]|] eqn:Hfm; [| |done]; cbn [mbind option_bind].
    + exists (Some (r, m)). split; [done|]. split; [by left|by apply Hfound].
    + exists res. split; [done|by apply search_ok_skip].
  - exists (Some (r, m)). split; [done|]. split; [by left|by apply Hfound].
Qed.

#[local] Opaque ruleSet Rules.

(** [findFirstMatch] on a well-formed expression. *)
Lemma findFirstMatch_spec t reps v e it x :
  Rules = Some t -> closed reps -> classes_value reps v ->
  item e = Some it -> m_type it = Operation -> expr_value v e x -> args_in reps e ->
  exists res, findFirstMatch t reps e = Some res /\
    match res with None => True | Some found => found_ok reps v x found end.
Proof using All.
  intros Ht Hc Hv Hi Hop He Ha. destruct Rules_bucket as (t' & Ht' & Hb).
  rewrite Ht in Ht'. injection Ht' as <-. unfold findFirstMatch. rewrite Hi. cbn [mbind option_bind].
  rewrite bool_decide_eq_true_2 by done. cbn [assertThrow mbind option_bind]. rewrite Hb. cbn [mbind option_bind].
  destruct (firstMatch_ok reps v e x
    (filter (fun r => p_instruction (pattern r) = m_instruction it) (ruleSet None)))
    as (res & Hres & Hok); [assumption..| | |].
  - apply Forall_filter_incl, ruleSet_total.
  - apply Forall_filter_incl, sem_rules.
  - exists res. split; [done|]. destruct res; [apply Hok|done].
Qed.
End Find.
