(* ===== verification/ClassSound.v ===== *)
(** * ClassSound: the classes of ExpressionClasses preserve values

    An assignment of values to the classes is consistent when the value of the class of
    every stored expression may replace that of the expression.  [find] extends a
    consistent assignment, returns a class whose value may replace that of the
    expression, and never throws.  The values are those of any semantics. *)

From stdpp Require Import sorting.
From S2P Require Import Prelude U256 CommonData Instruction AssemblyItem SemanticInformation Pattern RuleList SimplificationRules ExpressionClasses RuleSound MatchSound.

(** ** The order of expressions *)

Lemma ids_ltb_trichotomy a b : ids_ltb a b = false -> ids_ltb b a = false -> a = b.
Proof.
  revert b. induction a as [|x a IH]; intros [|y b]; simpl; try done. intros H H'.
  apply orb_false_iff in H as [H1 H2]. apply orb_false_iff in H' as [H1' H2'].
  assert (x = y) as -> by (apply Z.ltb_ge in H1, H1'; lia).
  rewrite Z.eqb_refl in H2, H2'. simpl in H2, H2'. f_equal. by apply IH.
Qed.

Lemma tie_ltb_trichotomy k k' e e' :
  tie_ltb k k' e e' = false -> tie_ltb k' k e' e = false ->
  k = k' /\ e_arguments e = e_arguments e' /\ sequenceNumber e = sequenceNumber e'.
Proof.
  unfold tie_ltb. intros H H'.
  apply orb_false_iff in H as [H1 H2]. apply orb_false_iff in H' as [H1' H2'].
  assert (k = k') as -> by (apply Z.ltb_ge in H1, H1'; lia).
  rewrite Z.eqb_refl in H2, H2'. simpl in H2, H2'.
  apply orb_false_iff in H2 as [H2 H3]. apply orb_false_iff in H2' as [H2' H3'].
  pose proof (ids_ltb_trichotomy _ _ H2 H2') as Ha.
  rewrite bool_decide_eq_true_2 in H3 by done. rewrite bool_decide_eq_true_2 in H3' by done.
  simpl in H3, H3'. apply Z.ltb_ge in H3, H3'. repeat split; [done|lia].
Qed.

Lemma type_index_inj t t' : type_index t = type_index t' -> t = t'.
Proof. by destruct t, t'. Qed.

(** Two expressions neither of which is less than the other have the same key. *)
Lemma expr_ltb_trichotomy e e' it it' :
  item e = Some it -> item e' = Some it' ->
  expr_ltb e e' = Some false -> expr_ltb e' e = Some false ->
  item_eqb it it' = true /\ e_arguments e = e_arguments e' /\ sequenceNumber e = sequenceNumber e'.
Proof.
  unfold expr_ltb. intros -> ->. simpl.
  destruct (decide (m_type it = m_type it')) as [Ht|Ht].
  - rewrite item_eqb_spec, <- Ht.
    rewrite (bool_decide_eq_true_2 (m_type it = m_type it)) by done. simpl.
    destruct (decide (m_type it = Operation)) as [Ho|Ho].
    + rewrite !bool_decide_eq_true_2 by done. intros [= H] [= H'].
      destruct (tie_ltb_trichotomy _ _ _ _ H H') as (Hk & Ha & Hs).
      by apply opcode_inj in Hk.
    + rewrite !bool_decide_eq_false_2 by done. intros [= H] [= H'].
      by destruct (tie_ltb_trichotomy _ _ _ _ H H') as (Hk & Ha & Hs).
  - rewrite (bool_decide_eq_false_2 (m_type it = m_type it')),
      (bool_decide_eq_false_2 (m_type it' = m_type it)) by congruence.
    simpl. intros [= H%Z.ltb_ge] [= H'%Z.ltb_ge].
    destruct Ht. apply type_index_inj. lia.
Qed.

Lemma expr_ltb_total e e' : is_Some (item e) -> is_Some (item e') -> is_Some (expr_ltb e e').
Proof.
  intros [it Hi] [it' Hi']. unfold expr_ltb. rewrite Hi, Hi'. simpl. repeat case_match; by eexists.
Qed.

Lemma set_find_spec s e :
  is_Some (item e) -> Forall (fun x => is_Some (item x)) s ->
  exists r, set_find s e = Some r /\
    match r with
    | Some x => In x s /\ expr_ltb x e = Some false /\ expr_ltb e x = Some false
    | None => True
    end.
Proof.
  intros He. induction 1 as [|x s Hx Hs IH]; [by exists None|]. cbn [set_find].
  destruct (expr_ltb_total x e) as [l Hl]; [done..|].
  destruct (expr_ltb_total e x) as [g Hg]; [done..|].
  rewrite Hl, Hg. simpl. destruct l, g; simpl;
    try (destruct IH as (r & Hr & Hok); exists r; split; [done|destruct r; [|done]; split; [right|]; apply Hok]).
  exists (Some x). repeat split; [by left|done|done].
Qed.

#[local] Opaque ruleSet Rules.

Section Sound.
Context (S : Semantics) `{!SemanticsLaws S}.
Local Abbreviation classes_value := (classes_value S).
Local Abbreviation expr_value := (expr_value S).
Local Abbreviation item_value := (item_value S).
Local Abbreviation template_value := (template_value S).

(** An item with this number of arguments. *)
Definition item_ok (it : AssemblyItem) (n : nat) : Prop :=
  (m_type it = Operation -> n = args (instructionInfo (m_instruction it))) /\
  (m_type it = Push -> is_u256 (m_data it)).

(** The class of every expression stored may replace it under the values [v]. *)
Record consistent (cl : ExpressionClasses) (v : Z -> Z) : Prop := {
  con_value : classes_value (m_representatives cl) v;
  con_closed : closed (m_representatives cl);
  con_items : Forall (fun e => is_Some (item e)) (m_representatives cl);
  con_exprs e : In e (m_expressions cl) ->
    is_Some (item e) /\ 0 <= id e < classes_size cl /\ args_in (m_representatives cl) e /\
    exists x, expr_value v e x /\ sem_rel S x (v (id e)) }.

(** The later classes and values extend the earlier ones. *)
Record extends (cl cl' : ExpressionClasses) (v v' : Z -> Z) : Prop := {
  ext_size : classes_size cl <= classes_size cl';
  ext_value i : 0 <= i < classes_size cl -> v' i = v i;
  ext_reps i e : m_representatives cl !! i = Some e -> m_representatives cl' !! i = Some e }.

Lemma extends_refl cl v : extends cl cl v v.
Proof. by split. Qed.

Lemma extends_trans cl1 cl2 cl3 v1 v2 v3 :
  extends cl1 cl2 v1 v2 -> extends cl2 cl3 v2 v3 -> extends cl1 cl3 v1 v3.
Proof.
  intros [H1 H2 H3] [H4 H5 H6]. split; [lia| |auto]. intros i Hi. rewrite H5 by lia. by apply H2.
Qed.

Lemma map_extends cl cl' v v' l :
  extends cl cl' v v' -> Forall (fun i => 0 <= i < classes_size cl) l -> map v' l = map v l.
Proof.
  intros [_ He] Hl. apply map_ext_in. intros i Hi. apply He.
  rewrite List.Forall_forall in Hl. by apply Hl.
Qed.

Lemma item_value_range it seq l :
  item_ok it (length l) -> Forall (sem_dom S) l -> sem_dom S (item_value it seq l).
Proof using All.
  intros [_ Hp] Hl. unfold MatchSound.item_value.
  destruct (m_type it); auto using sem_seqop_dom, sem_cst_dom, sem_pushed_dom.
Qed.

(** Items that compare equal have the same value. *)
Lemma item_value_eqb it it' seq l : item_eqb it it' = true -> item_value it seq l = item_value it' seq l.
Proof using.
  rewrite item_eqb_spec. unfold MatchSound.item_value. intros [Ht H].
  destruct (decide (m_type it = Operation)) as [Ho|Ho].
  - by rewrite <- Ht, Ho, H.
  - rewrite <- Ht, H. by destruct (m_type it).
Qed.

Lemma sort_arguments_perm it l : sort_arguments it l ≡ₚ l.
Proof. unfold sort_arguments. destruct (isCommutativeOperation it); [apply merge_sort_Permutation|done]. Qed.

Lemma sort_arguments_value it seq v l :
  item_ok it (length l) -> (forall i, sem_dom S (v i)) ->
  item_value it seq (map v (sort_arguments it l)) = item_value it seq (map v l).
Proof using All.
  intros [Ho _] Hv. pose proof (sort_arguments_perm it l) as Hp.
  unfold sort_arguments in *. destruct (isCommutativeOperation it) eqn:Hc; [|done].
  unfold isCommutativeOperation in Hc. destruct (m_type it) eqn:Ht; try done.
  specialize (Ho eq_refl). unfold MatchSound.item_value. rewrite Ht.
  assert (args (instructionInfo (m_instruction it)) = 2%nat) as Ha
    by (destruct (m_instruction it); done).
  rewrite Ha in Ho. destruct l as [|a [|b [|]]]; try done.
  pose proof (Permutation_length Hp) as Hlen.
  destruct (merge_sort Z.le [a; b]) as [|a' [|b' [|]]]; try done.
  apply Permutation_length_2 in Hp as [[-> ->]|[-> ->]]; [done|].
  by apply sem_comm.
Qed.

(** What a call on consistent classes promises about the class and the classes it
    returns. *)
Definition result_ok (cl : ExpressionClasses) (v : Z -> Z) (x : (Z -> Z) -> Z)
    (r : Result (Z * ExpressionClasses)) : Prop :=
  match r with
  | Ret (i, cl') => exists v', consistent cl' v' /\ extends cl cl' v v' /\
      0 <= i < classes_size cl' /\ sem_rel S (x v) (v' i)
  | Exception => False
  | OutOfFuel => True
  end.

Definition find_ok (f : ExpressionClasses -> AssemblyItem -> list Z -> Result (Z * ExpressionClasses))
    (seq : Z) : Prop :=
  forall cl it l v, consistent cl v -> item_ok it (length l) ->
    Forall (fun i => 0 <= i < classes_size cl) l ->
    result_ok cl v (fun v => item_value it seq (map v l)) (f cl it l).

(** A template has the same value under values that agree on the classes it uses. *)
Lemma template_value_extends cl cl' v v' t :
  extends cl cl' v v' -> template_wf (classes_size cl) t ->
  template_wf (classes_size cl') t /\ template_value v' t = template_value v t.
Proof using.
  intros He. induction t as [hasId i it l IH] using template_ind_args. intros Hw.
  inversion Hw as [? ? Hi|c loc Hc|j loc ? Hl Hr Hws]; subst.
  - split; [constructor; destruct He; lia|]. simpl. by apply He.
  - split; [by constructor|done].
  - assert (Forall (fun t => template_wf (classes_size cl') t /\
      template_value v' t = template_value v t) l) as Hboth.
    { rewrite Forall_forall in *. intros t Ht. apply IH; [done|by apply Hws]. }
    split.
    + apply twf_op; [done|done|]. eapply Forall_impl; [exact Hboth|]. by intros t [].
    + cbn [template_value m_type opItem]. f_equal. apply map_ext_in. intros t Ht.
      rewrite Forall_forall in Hboth. by apply Hboth, list_elem_of_In.
Qed.

Lemma values_dom (v : Z -> Z) (l : list Z) : (forall i, sem_dom S (v i)) -> Forall (sem_dom S) (map v l).
Proof using. intros Hv. apply Forall_map, Forall_forall. intros i _. apply Hv. Qed.

Lemma template_dom (v : Z -> Z) n l :
  (forall i, sem_dom S (v i)) -> Forall (template_wf n) l -> Forall (sem_dom S) (map (template_value v) l).
Proof using All.
  intros Hv Hl. apply Forall_map. eapply Forall_impl; [exact Hl|]. intros t.
  induction t as [h i it l' IH] using template_ind_args. intros Hw.
  inversion Hw as [? ? Hi|c loc Hc|j loc ? Hlen Hr Hws]; subst; simpl; [apply Hv|by apply sem_cst_dom|].
  rewrite <- (sem_pure 0) by (by apply plain_reads). apply sem_seqop_dom, Forall_map.
  rewrite Forall_forall in *. intros a Ha. by apply IH, Hws.
Qed.

Section RebuildOk.
Context (f : ExpressionClasses -> AssemblyItem -> list Z -> Result (Z * ExpressionClasses))
  (f_ok : find_ok f 0).

Fixpoint rebuildAll (l : list ExpressionTemplate) (cl : ExpressionClasses)
  : Result (list Z * ExpressionClasses) :=
  match l with
  | [] => Ret ([], cl)
  | t :: l =>
      '(a, cl) ← rebuildExpression f cl t;
      '(arguments, cl) ← rebuildAll l cl;
      Ret (a :: arguments, cl)
  end.

Lemma rebuildExpression_eq cl hasId i it l :
  rebuildExpression f cl (mkTemplate hasId i it l) =
  if hasId then Ret (i, cl) else '(arguments, cl) ← rebuildAll l cl; f cl it arguments.
Proof using. by destruct l. Qed.

(** The arguments of a template, rebuilt in order. *)
Lemma rebuildAll_ok l : forall cl v,
  Forall (fun t => forall cl v, consistent cl v -> template_wf (classes_size cl) t ->
    result_ok cl v (fun v => template_value v t) (rebuildExpression f cl t)) l ->
  consistent cl v -> Forall (template_wf (classes_size cl)) l ->
  match rebuildAll l cl with
  | Ret (ids, cl') => exists v', consistent cl' v' /\ extends cl cl' v v' /\
      length ids = length l /\ Forall (fun i => 0 <= i < classes_size cl') ids /\
      Forall2 (sem_rel S) (map (template_value v) l) (map v' ids)
  | Exception => False
  | OutOfFuel => True
  end.
Proof using All.
  intros cl v Hall. revert cl v.
  induction Hall as [|t l Ht _ IHl]; intros cl v Hc Hws; cbn [rebuildAll].
  { exists v. split; [done|]. split; [apply extends_refl|]. by repeat constructor. }
  inversion Hws as [|? ? Hwt Hwl]; subst.
  specialize (Ht cl v Hc Hwt).
  destruct (rebuildExpression f cl t) as [[a cl1]| |]; cbn [mbind Result_bind]; try done.
  destruct Ht as (v1 & Hc1 & He1 & Ha & Hva).
  assert (Forall (template_wf (classes_size cl1)) l /\
    map (template_value v1) l = map (template_value v) l) as [Hwl1 Hvl1].
  { split.
    - eapply Forall_impl; [exact Hwl|]. intros t' Ht'.
      by apply (template_value_extends cl cl1 v v1).
    - apply map_ext_in. intros t' Ht'. rewrite Forall_forall in Hwl.
      apply (template_value_extends cl cl1 v v1); [done|]. by apply Hwl, list_elem_of_In. }
  specialize (IHl cl1 v1 Hc1 Hwl1).
  destruct (rebuildAll l cl1) as [[ids cl2]| |]; cbn [mbind Result_bind]; try done.
  destruct IHl as (v2 & Hc2 & He2 & Hlen & Hids & Hvals).
  exists v2. split; [done|]. split; [by eapply extends_trans|].
  split; [simpl; congruence|]. split; [constructor; [destruct He2; lia|done]|].
  simpl. rewrite <- Hvl1. constructor; [|done]. by rewrite (ext_value _ _ _ _ He2) by done.
Qed.

(** The operation applied to the rebuilt arguments. *)
Lemma rebuilt_value (v v1 : Z -> Z) j (l : list ExpressionTemplate) (ids : list Z) n :
  (forall i, sem_dom S (v i)) -> (forall i, sem_dom S (v1 i)) -> Forall (template_wf n) l ->
  readsState j = false -> Forall2 (sem_rel S) (map (template_value v) l) (map v1 ids) ->
  sem_rel S (sem_op S j (map (template_value v) l)) (sem_seqop S 0 j (map v1 ids)).
Proof using SemanticsLaws0.
  intros Hv Hv1 Hws Hr Hvals. rewrite <- (sem_pure 0 j (map (template_value v) l)) by done.
  apply sem_mono; [by eapply template_dom, Hws|by apply values_dom|done].
Qed.

Lemma rebuildExpression_ok t : forall cl v,
  consistent cl v -> template_wf (classes_size cl) t ->
  result_ok cl v (fun v => template_value v t) (rebuildExpression f cl t).
Proof using All.
  induction t as [hasId i it l IH] using template_ind_args. intros cl v Hc Hw.
  rewrite rebuildExpression_eq.
  inversion Hw as [? ? Hi|c loc Hcr|j loc ? Hl Hr Hws]; subst.
  - exists v. split; [done|]. split; [apply extends_refl|]. split; [done|apply sem_refl].
  - apply (f_ok cl (dataItem Push c loc) [] v Hc); [by split|constructor].
  - pose proof (rebuildAll_ok l cl v IH Hc Hws) as Hall.
    destruct (rebuildAll l cl) as [[ids cl1]| |]; cbn [mbind Result_bind]; try done.
    destruct Hall as (v1 & Hc1 & He1 & Hlen & Hids & Hvals).
    pose proof (f_ok cl1 (opItem j loc) ids v1 Hc1) as Hf.
    unfold result_ok in *. destruct (f cl1 (opItem j loc) ids) as [[i' cl2]| |]; [|apply Hf|done].
    + destruct Hf as (v2 & Hc2 & He2 & Hi & Hv2).
      { split; [intros _; simpl; congruence|done]. }
      { done. }
      exists v2. split; [done|]. split; [by eapply extends_trans|]. split; [done|].
      eapply sem_trans; [|exact Hv2].
      by apply (rebuilt_value v v1 j l ids _ (cv_range _ _ _ (con_value _ _ Hc))
                  (cv_range _ _ _ (con_value _ _ Hc1)) Hws (plain_reads _ Hr)).
    + split; [intros _; simpl; congruence|done].
    + done.
Qed.
End RebuildOk.

(** ** Adding an expression *)

Lemma exprs_items cl v : consistent cl v -> Forall (fun x => is_Some (item x)) (m_expressions cl).
Proof. intros Hc. apply List.Forall_forall. intros e He. by apply (con_exprs _ _ Hc). Qed.

(** Storing an expression whose class may replace it. *)
Lemma consistent_insert cl v e :
  consistent cl v -> is_Some (item e) -> 0 <= id e < classes_size cl ->
  args_in (m_representatives cl) e -> (exists x, expr_value v e x /\ sem_rel S x (v (id e))) ->
  exists exprs, set_insert (m_expressions cl) e = Some exprs /\
    consistent (mkClasses (m_representatives cl) exprs) v.
Proof using.
  intros Hc Hi Hid Ha He. unfold set_insert.
  destruct (set_find_spec (m_expressions cl) e Hi (exprs_items cl v Hc)) as (r & -> & _).
  destruct Hc as [Hv Hcl Hit Hex]. simpl. destruct r as [x|]; eexists; (split; [reflexivity|]); [done|].
  split; [done|done|done|]. intros e' He'. simpl in He'.
  apply in_app_or in He' as [He'|[<-|[]]]; [by apply Hex|done].
Qed.

Lemma expr_value_extends cl cl' v v' e x :
  extends cl cl' v v' -> args_in (m_representatives cl) e -> expr_value v e x -> expr_value v' e x.
Proof using.
  intros He Ha Hx it Hi. destruct (Hx it Hi) as [Hl ->]. split; [done|].
  f_equal. symmetry. by eapply map_extends.
Qed.

Lemma args_in_app reps new e : args_in reps e -> args_in (reps ++ new) e.
Proof.
  unfold args_in. intros H. eapply Forall_impl; [exact H|]. simpl. intros i. rewrite length_app. lia.
Qed.

(** A new class for an item applied to existing classes. *)
Lemma consistent_fresh cl v it l seq :
  consistent cl v -> item_ok it (length l) -> Forall (fun i => 0 <= i < classes_size cl) l ->
  let e := mkExpression (classes_size cl) (Some it) l seq in
  let cl' := mkClasses (m_representatives cl ++ [e]) (m_expressions cl) in
  exists v', consistent cl' v' /\ extends cl cl' v v' /\
    v' (classes_size cl) = item_value it seq (map v l).
Proof using All.
  intros Hc Hit Hl e cl'. set (x := item_value it seq (map v l)).
  pose (v' := fun i => if i =? classes_size cl then x else v i).
  assert (extends cl cl' v v') as Hext.
  { split; [unfold classes_size; simpl; rewrite length_app; lia| |intros i e' Hi; by apply lookup_app_l_Some].
    intros i Hi. unfold v'. destruct (Z.eqb_spec i (classes_size cl)); [lia|done]. }
  assert (sem_dom S x) as Hx.
  { apply item_value_range; [by rewrite length_map|]. apply Forall_map, Forall_forall. intros i _. apply Hc. }
  assert (v' (classes_size cl) = x) as Hvx by (unfold v'; by rewrite Z.eqb_refl).
  exists v'. split; [|done]. destruct Hc as [Hv Hcl Hits Hex].
  assert (expr_value v' e x) as Hev.
  { intros it' [= <-]. split; [apply Hit|]. cbn [sequenceNumber e_arguments e].
    rewrite (map_extends cl cl' v v' l Hext Hl). done. }
  split.
  - split.
    + intros i. unfold v'. destruct (i =? _); [done|apply Hv].
    + intros i e' Hi. simpl in Hi. apply lookup_app_Some in Hi as [Hi|[Hge Hi]].
      * destruct (cv_rep _ _ _ Hv i e' Hi) as [Hid He']. split; [done|].
        rewrite (ext_value _ _ _ _ Hext) by (apply lookup_lt_Some in Hi; unfold classes_size; lia).
        eapply expr_value_extends; [done| |done].
        unfold closed in Hcl. rewrite List.Forall_forall in Hcl. apply Hcl.
        by eapply list_elem_of_In, list_elem_of_lookup_2.
      * apply list_lookup_singleton_Some in Hi as [H0 <-].
        assert (Z.of_nat i = classes_size cl) as -> by (unfold classes_size; lia).
        split; [done|]. by rewrite Hvx.
  - unfold closed. apply List.Forall_app. split.
    + unfold closed in Hcl. eapply List.Forall_impl; [|exact Hcl]. intros. by apply args_in_app.
    + repeat constructor. apply args_in_app. done.
  - apply Forall_app_2; [done|]. apply Forall_singleton. by eexists.
  - intros e' He'. destruct (Hex e' He') as (Hi & Hid & Ha & He). split; [done|].
    split; [destruct Hext; lia|]. split; [by apply args_in_app|].
    destruct He as (y & Hy & Hrel). exists y. split; [by eapply expr_value_extends|].
    by rewrite (ext_value _ _ _ _ Hext).
Qed.

(** What [tryToSimplify] promises about an expression of value [x]. *)
Definition simplified_ok (cl : ExpressionClasses) (v : Z -> Z) (x : Z)
    (r : Result (option Z * ExpressionClasses)) : Prop :=
  match r with
  | Ret (Some i, cl') => result_ok cl v (fun _ => x) (Ret (i, cl'))
  | Ret (None, cl') => cl' = cl
  | Exception => False
  | OutOfFuel => True
  end.

Lemma tryToSimplify_ok t f cl v e it x :
  Rules = Some t -> find_ok f 0 -> consistent cl v -> item e = Some it ->
  args_in (m_representatives cl) e -> expr_value v e x ->
  simplified_ok cl v x (tryToSimplify f t cl e).
Proof using All.
  intros Ht Hf Hc Hi Ha Hx. unfold tryToSimplify.
  pose proof (fun it => findFirstMatch_spec S t (m_representatives cl) v e it x Ht) as Hfind.
  rewrite (Rules_isInitialized t Ht). clear Ht. cbn [assertThrow lift mbind Result_bind]. rewrite Hi.
  destruct (bool_decide (m_type it = Operation)) eqn:Hop; [|done].
  destruct (isDeterministic it); [|done]. cbn [negb orb].
  apply bool_decide_eq_true in Hop. destruct Hc as [Hv Hcl Hits Hex] eqn:Hceq. clear Hceq.
  destruct (Hfind it Hcl Hv Hi Hop Hx Ha)
    as (res & -> & Hres).
  cbn [lift mbind Result_bind]. destruct res as [[r m]|]; [|done].
  destruct Hres as (p' & -> & Hp & Hb & Hval). cbn [lift mbind Result_bind].
  destruct (expressionTemplate_value S _ v m _ p' (m_location it) Hv Hp Hb)
    as (tm & -> & Hw & Htv). cbn [lift mbind Result_bind].
  pose proof (rebuildExpression_ok f Hf tm cl v (Build_consistent _ _ Hv Hcl Hits Hex) Hw) as Hr.
  destruct (rebuildExpression f cl tm) as [[i cl1]| |]; cbn [mbind Result_bind]; [|done|done].
  destruct Hr as (v1 & Hc1 & He1 & Hi1 & Hv1). exists v1. split; [done|]. split; [done|].
  split; [done|]. eapply sem_trans; [exact Hval|]. by rewrite <- Htv.
Qed.

Lemma find_sound t fuel : Rules = Some t -> forall seq, find_ok (find fuel t seq) seq.
Proof using All.
  intros Ht. pose proof (fun f cl v e it x => tryToSimplify_ok t f cl v e it x Ht) as Htry. clear Ht.
  induction fuel as [|fuel IH]; intros seq cl it l v Hc Hit Hl; [done|].
  cbn [find]. set (sl := sort_arguments it l). set (exp := mkExpression noId (Some it) sl seq).
  pose proof (sort_arguments_perm it l) as Hperm.
  assert (Forall (fun i => 0 <= i < classes_size cl) sl) as Hsl by (unfold sl; by rewrite Hperm).
  assert (item_ok it (length sl)) as Hitsl by (unfold sl; by rewrite Hperm).
  assert (item_value it seq (map v sl) = item_value it seq (map v l)) as Hval
    by (apply sort_arguments_value; [done|apply Hc]).
  assert (expr_value v exp (item_value it seq (map v sl))) as Hexp.
  { intros it' [= <-]. split; [apply Hitsl|done]. }
  assert (exists r, (if isDeterministic it then lift (set_find (m_expressions cl) exp) else Ret None) = Ret r /\
    match r with Some x => In x (m_expressions cl) /\ sem_rel S (item_value it seq (map v l)) (v (id x)) | None => True end)
    as (r & -> & Hr).
  { destruct (isDeterministic it); [|by exists None].
    destruct (set_find_spec (m_expressions cl) exp) as (r & -> & Hr); [done|by eapply exprs_items|].
    exists r. split; [done|]. destruct r as [x|]; [|done]. destruct Hr as (Hin & H1 & H2).
    split; [done|]. destruct (con_exprs _ _ Hc x Hin) as ([it' Hit'] & _ & _ & y & Hx & Hrel).
    destruct (expr_ltb_trichotomy x exp it' it Hit' eq_refl H1 H2) as (Heqb & Ha & Hs).
    destruct (Hx it' Hit') as [_ ->]. rewrite Ha, Hs in Hrel. simpl in Hrel.
    by rewrite (item_value_eqb _ _ _ _ Heqb), Hval in Hrel. }
  cbn [mbind Result_bind]. destruct r as [x|].
  { destruct Hr as [Hin Hx]. exists v. split; [done|]. split; [apply extends_refl|].
    split; [by apply (con_exprs _ _ Hc)|done]. }
  clear Hr.
  specialize (Htry (find fuel t 0) cl v exp it _ (IH 0) Hc eq_refl Hsl Hexp).
  destruct (tryToSimplify (find fuel t 0) t cl exp) as [[oi cl1]| |]; cbn [mbind Result_bind]; [|done|done].
  assert (exists v1, consistent cl1 v1 /\ extends cl cl1 v v1 /\
    match oi with Some i => 0 <= i < classes_size cl1 /\ sem_rel S (item_value it seq (map v sl)) (v1 i)
    | None => True end) as (v1 & Hc1 & He1 & Hoi).
  { destruct oi; [|cbn in Htry; subst cl1; exists v; split; [done|split; [apply extends_refl|done]]].
    destruct Htry as (v1 & ? & ? & ? & ?). by exists v1. }
  assert (Forall (fun i => 0 <= i < classes_size cl1) sl) as Hsl1.
  { eapply Forall_impl; [exact Hsl|]. destruct He1. simpl. lia. }
  assert (map v1 sl = map v sl) as Hmap by (by eapply map_extends).
  assert (exists v2 i2 reps2, consistent (mkClasses reps2 (m_expressions cl1)) v2 /\
    extends cl1 (mkClasses reps2 (m_expressions cl1)) v1 v2 /\
    0 <= i2 < Z.of_nat (length reps2) /\ sem_rel S (item_value it seq (map v sl)) (v2 i2) /\
    match oi with
    | Some i => if i <? classes_size cl1 then (i, m_representatives cl1)
                else (classes_size cl1, m_representatives cl1 ++
                        [mkExpression (classes_size cl1) (item exp) (e_arguments exp) (sequenceNumber exp)])
    | None => (classes_size cl1, m_representatives cl1 ++
                 [mkExpression (classes_size cl1) (item exp) (e_arguments exp) (sequenceNumber exp)])
    end = (i2, reps2)) as (v2 & i2 & reps2 & Hc2 & He2 & Hi2 & Hv2 & ->).
  { destruct oi as [i|].
    - destruct Hoi as [Hi Hvi]. destruct (Z.ltb_spec i (classes_size cl1)); [|lia].
      exists v1, i, (m_representatives cl1). by destruct cl1.
    - destruct (consistent_fresh cl1 v1 it sl seq Hc1 Hitsl Hsl1) as (v2 & Hc2 & He2 & Hv2).
      exists v2, (classes_size cl1). eexists. split; [exact Hc2|]. split; [exact He2|].
      split; [rewrite length_app; unfold classes_size; simpl; lia|]. split; [rewrite Hv2, Hmap; apply sem_refl|done]. }
  assert (extends cl (mkClasses reps2 (m_expressions cl1)) v v2) as He by (by eapply extends_trans).
  destruct (consistent_insert _ v2 (mkExpression i2 (item exp) (e_arguments exp) (sequenceNumber exp)) Hc2)
    as (exprs & Hins & Hc3).
  { done. }
  { done. }
  { unfold args_in. simpl. eapply Forall_impl; [exact Hsl|]. destruct He as [He _].
    unfold classes_size in He at 2. simpl in *. lia. }
  { eexists. split; [|exact Hv2]. intros it' [= <-]. split; [apply Hitsl|].
    cbn [id e_arguments exp sequenceNumber]. f_equal. symmetry. by eapply map_extends. }
  cbn [m_expressions] in Hins. rewrite Hins. cbn [lift mbind Result_bind].
  exists v2. split; [exact Hc3|]. split; [split; apply He|].
  split; [exact Hi2|]. by rewrite <- Hval.
Qed.


(** ** The other operations *)

(** [newClass]: a class of its own for something unknown. *)
Lemma newClass_ok cl v loc :
  consistent cl v ->
  exists i cl' v', newClass cl loc = Some (i, cl') /\ consistent cl' v' /\ extends cl cl' v v' /\
    i = classes_size cl /\ i < classes_size cl'.
Proof using All.
  intros Hc. set (it := dataItem UndefinedItem (u256_add (u256_shl 1 255) (classes_size cl)) loc).
  destruct (consistent_fresh cl v it [] 0 Hc) as (v' & Hc' & He & Hv'); [by split|constructor|].
  destruct (consistent_insert _ v' (mkExpression (classes_size cl) (Some it) [] 0) Hc')
    as (exprs & Hins & Hc2).
  - done.
  - cbn [id]. unfold classes_size. simpl. rewrite length_app. simpl. lia.
  - constructor.
  - exists (v' (classes_size cl)). split; [|apply sem_refl]. intros it' [= <-]. by split.
  - cbn [m_expressions] in Hins. unfold newClass. fold it. rewrite Hins.
    exists (classes_size cl). eexists _, v'. split; [reflexivity|]. split; [exact Hc2|].
    split; [split; apply He|]. split; [done|]. unfold classes_size. simpl. rewrite length_app. simpl. lia.
Qed.

(** [forceEqual]: the caller's knowledge that a class may replace an expression. *)
Lemma forceEqual_ok cl v i it l :
  consistent cl v -> item_ok it (length l) -> 0 <= i < classes_size cl ->
  Forall (fun i => 0 <= i < classes_size cl) l ->
  sem_rel S (item_value it 0 (map v l)) (v i) ->
  exists cl', forceEqual cl i it l = Some cl' /\ consistent cl' v /\
    m_representatives cl' = m_representatives cl.
Proof using All.
  intros Hc Hit Hi Hl Hrel. set (sl := sort_arguments it l).
  pose proof (sort_arguments_perm it l) as Hperm.
  destruct (consistent_insert cl v (mkExpression i (Some it) sl 0) Hc) as (exprs & Hins & Hc').
  - done.
  - done.
  - unfold args_in. simpl. unfold sl. by rewrite Hperm.
  - exists (item_value it 0 (map v sl)). split.
    + intros it' [= <-]. split; [|done]. cbn [e_arguments]. unfold sl. rewrite Hperm. apply Hit.
    + cbn [id]. unfold sl. rewrite sort_arguments_value; [done|done|apply Hc].
  - unfold forceEqual. fold sl. rewrite Hins. by eexists.
Qed.

(** The empty classes. *)
Lemma empty_consistent : consistent (mkClasses [] []) (fun _ => sem_cst S 0).
Proof using All. split; [split; [intros _; apply sem_default|done]|constructor|constructor|done]. Qed.
End Sound.
