(* ===== verification/WordClasses.v ===== *)
(** * WordClasses: the classes of ExpressionClasses only equate equal words

    The semantics of words: an instruction has its value on the machine, and a value is
    only replaced by itself.  What is known of a class is true of its value. *)

From S2P Require Import Prelude U256 CommonData Instruction AssemblyItem SemanticInformation Interpreter Pattern RuleList SimplificationRules ExpressionClasses RuleSound MatchSound ClassSound.

#[local] Opaque ruleSet Rules.

Section Words.
Context (op : Instruction -> list Z -> Z) `{!WordSemantics op}
  (seqop : Z -> Instruction -> list Z -> Z) (pushed : AssemblyItemType -> Z -> Z)
  (seqop_pure : forall s i l, readsState i = false -> seqop s i l = op i l)
  (seqop_range : forall s i l, Forall is_u256 l -> is_u256 (seqop s i l))
  (pushed_range : forall t x, is_u256 (pushed t x)).

(** The value of [seqop] is that of an instruction at a sequence number, [pushed] what
    the other pushes and the unknown items stand for. *)
Definition wordSemantics : Semantics := {|
  sem_dom := is_u256;
  sem_cst c := c;
  sem_op := op;
  sem_seqop := seqop;
  sem_pushed := pushed;
  sem_rel := eq |}.
Local Abbreviation S := wordSemantics.
Local Abbreviation consistent := (consistent S).

Lemma pvalue_peval ρ p : pvalue S ρ p = peval op ρ p.
Proof using.
  induction p as [t r i dt l g IH] using Pattern_ind_args. cbn [pvalue peval].
  destruct (Nat.eqb g 0); [|done]. destruct t; try done. cbn [sem_op wordSemantics]. f_equal.
  apply map_ext_in. intros a Ha. rewrite List.Forall_forall in IH. by apply IH.
Qed.

(** Sorting the arguments of a commutative operation does not change its value. *)
Lemma op_comm i a b :
  isCommutativeInstruction i = true -> is_u256 a -> is_u256 b -> op i [a; b] = op i [b; a].
Proof using All.
  intros Hi Ha Hb.
  destruct i; try discriminate; op_values; unfold u256_add, u256_mul.
  - f_equal. lia.
  - f_equal. lia.
  - by rewrite Z.eqb_sym.
  - apply Z.land_comm.
  - apply Z.lor_comm.
  - apply Z.lxor_comm.
Qed.

Lemma wordSemantics_rules : Forall (rule_improves S) (ruleSet None).
Proof using WordSemantics0.
  eapply Forall_impl; [apply (ruleSet_sound op None)|]. intros r Hr m ρ p' [Hd Hc] Hb _ Hf Ha.
  rewrite !pvalue_peval. symmetry. by apply (Hr m ρ p').
Qed.

#[local] Instance wordSemantics_laws : SemanticsLaws S.
Proof using All.
  split; try done.
  - by intros x y z -> ->.
  - intros s i l l' _ _ H. cbn [sem_rel sem_seqop wordSemantics] in *. f_equal.
    induction H as [|x y l l' -> _ ->]; done.
  - intros s i a b Hi Ha Hb. cbn [sem_seqop wordSemantics].
    rewrite !seqop_pure by (by destruct i). by apply op_comm.
  - apply wordSemantics_rules.
Qed.

(** ** What is known about a class *)

Lemma matchesClass_ok cl v p _c b :
  consistent cl v -> template_ok [] p -> p_matchGroup p = 0%nat ->
  matchesClass cl p _c = Some b -> b = true -> peval op (fun _ => 0) p = v _c.
Proof using All.
  intros Hc Hp Hg. unfold matchesClass.
  destruct (representative (m_representatives cl) _c) as [e|] eqn:He; [|done]. cbn [mbind option_bind].
  destruct (matches _ p e ∅) as [[ok m]|] eqn:Hm; [|done]. cbn [mbind option_bind].
  intros [= <-] ->. destruct (representative_rep _ _ _ _ _ (con_value _ _ _ Hc) He) as (_ & _ & Hev).
  destruct (matches_sound S _ v [] p (con_value _ _ _ Hc) Hp e ∅ m _ Hev
    (fun H => False_ind _ (H Hg)) (groups_ok_empty S _ v) Hm) as [_ Hval].
  rewrite <- (Hval m) by done. rewrite <- pvalue_peval. apply (pvalue_groups S _ _ []); [done|].
  intros g Hin. exfalso. clear -Hp Hin. revert g Hin.
  induction p as [t r i dt l g IH] using Pattern_ind_args. intros g' Hin.
  inversion Hp as [? ? ? []|c|? ? Hl Hr Hargs]; subst; [done|].
  simpl in Hin. apply in_concat in Hin as (gs & Hgs & Hin).
  apply in_map_iff in Hgs as (a & <- & Ha). rewrite List.Forall_forall in IH.
  rewrite Forall_forall in Hargs.
  apply (IH a Ha (Hargs a (proj2 (list_elem_of_In l a) Ha)) g' Hin).
Qed.

Lemma Word_ok x : template_ok [] (Word x).
Proof using. constructor. apply u256_range. Qed.

Lemma knownZero_value cl v _c : consistent cl v -> knownZero cl _c = Some true -> v _c = 0.
Proof using All.
  intros Hc H. by rewrite <- (matchesClass_ok cl v (Word 0) _c true Hc (Word_ok 0) eq_refl H eq_refl).
Qed.

Lemma opItem_ok i loc n : n = args (instructionInfo i) -> item_ok (opItem i loc) n.
Proof. by split. Qed.

Lemma find_value t fuel cl v i l r cl' :
  Rules = Some t -> consistent cl v -> readsState i = false ->
  length l = args (instructionInfo i) -> Forall (fun i => 0 <= i < classes_size cl) l ->
  find fuel t 0 cl (opItem i noLocation) l = Ret (r, cl') ->
  exists v', consistent cl' v' /\ extends cl cl' v v' /\ 0 <= r < classes_size cl' /\
    v' r = op i (map v l).
Proof using All.
  intros Ht Hc Hr Hl Hin H.
  pose proof (find_sound S t fuel Ht 0 cl (opItem i noLocation) l v Hc (opItem_ok i noLocation _ Hl) Hin) as Hf.
  clear Ht. rewrite H in Hf. destruct Hf as (v' & Hc' & He & Hi & Hv). exists v'.
  split; [done|]. split; [done|]. split; [done|]. cbn [sem_rel wordSemantics] in Hv. rewrite <- Hv. by apply seqop_pure.
Qed.

(** A class known to be non-zero has a non-zero value. *)
Lemma knownNonZero_value t fuel cl v _c cl' :
  Rules = Some t -> consistent cl v -> 0 <= _c < classes_size cl ->
  knownNonZero fuel t cl _c = Ret (true, cl') -> v _c <> 0.
Proof using All.
  intros Ht Hc Hin. unfold knownNonZero.
  destruct (find fuel t 0 cl (opItem ISZERO noLocation) [_c]) as [[i cl1]| |] eqn:Hf; [|discriminate..].
  cbn [mbind Result_bind].
  destruct (find_value t fuel cl v ISZERO [_c] i cl1 Ht Hc eq_refl eq_refl
    (Forall_cons_2 _ _ _ Hin (Forall_nil_2 _)) Hf) as (v' & Hc' & _ & _ & Hv). clear Ht Hf.
  destruct (matchesClass cl1 (Word 0) i) as [b|] eqn:Hm; [|discriminate]. cbn [lift mbind Result_bind].
  intros [= -> <-] H0.
  pose proof (matchesClass_ok cl1 v' (Word 0) i true Hc' (Word_ok 0) eq_refl Hm eq_refl) as Hz.
  rewrite Hv in Hz. simpl in Hz. rewrite H0 in Hz. by rewrite op_ISZERO in Hz by done.
Qed.

(** A constant known for a class is its value. *)
Lemma knownConstant_value cl v _c c :
  consistent cl v -> knownConstant cl _c = Some (Some c) -> v _c = c.
Proof using All.
  intros Hc. unfold knownConstant.
  destruct (representative (m_representatives cl) _c) as [e|] eqn:He; [|done]. cbn [mbind option_bind].
  destruct (matches _ _ e ∅) as [[[] m]|] eqn:Hm; [|done|done]. cbn [mbind option_bind].
  destruct (d m _) as [c'|] eqn:Hd; [|done]. cbn [mbind option_bind]. intros [= <-].
  destruct (representative_rep _ _ _ _ _ (con_value _ _ _ Hc) He) as (_ & Hid & Hev).
  change (setMatchGroup 1 (PType Push)) with (mkPattern Push false STOP None [] 1) in *.
  rewrite matches_eq in Hm. destruct (matchesBaseItem _ _) as [[]|] eqn:Hb; [|done|done].
  cbn [mbind option_bind negb matchGroup Nat.eqb] in Hm. rewrite lookup_empty in Hm.
  cbn [negb length Nat.eqb orb assertThrow mbind option_bind matchesAll] in Hm.
  assert (m = <[1%nat := e]> ∅) as -> by congruence.
  unfold d, matchGroupValue in Hd. cbn [p_matchGroup Z.of_nat Z.ltb assertThrow mbind option_bind] in Hd.
  simpl in Hd. rewrite lookup_insert_eq in Hd. simpl in Hd. destruct (item e) as [it|] eqn:Hi; [|done].
  simpl in Hd. destruct (assertThrow _); [|done]. simpl in Hd. injection Hd as <-.
  destruct (Hev it Hi) as [_ ->]. unfold matchesBaseItem in Hb. simpl in Hb.
  destruct (bool_decide (Push = m_type it)) eqn:Ht; [|done].
  apply bool_decide_eq_true in Ht. unfold item_value. by rewrite <- Ht.
Qed.

(** Classes known to be different have different values. *)
Lemma knownToBeDifferent_value t fuel cl v _a _b cl' :
  Rules = Some t -> consistent cl v -> 0 <= _a < classes_size cl -> 0 <= _b < classes_size cl ->
  knownToBeDifferent fuel t cl _a _b = Ret (true, cl') -> v _a <> v _b.
Proof using All.
  intros Ht Hc Ha Hb. unfold knownToBeDifferent.
  destruct (find fuel t 0 cl (opItem SUB noLocation) [_a; _b]) as [[i cl1]| |] eqn:Hf; [|discriminate..].
  cbn [mbind Result_bind].
  destruct (find_value t fuel cl v SUB [_a; _b] i cl1 Ht Hc eq_refl eq_refl
    (Forall_cons_2 _ _ _ Ha (Forall_cons_2 _ _ _ Hb (Forall_nil_2 _))) Hf) as (v' & Hc' & _ & Hi & Hv).
  intros Hk Heq. apply (knownNonZero_value t fuel cl1 v' i cl' Ht Hc' Hi Hk). clear Ht Hf Hk.
  rewrite Hv. simpl. rewrite Heq, op_SUB by (assumption || apply Hc). unfold u256_sub. by rewrite Z.sub_diag.
Qed.

(** Classes known to differ by 32 have values at least 32 apart, counted modulo 2^256. *)
Lemma knownToBeDifferentBy32_distance t fuel cl v _a _b cl' :
  Rules = Some t -> consistent cl v -> 0 <= _a < classes_size cl -> 0 <= _b < classes_size cl ->
  knownToBeDifferentBy32 fuel t cl _a _b = Ret (true, cl') ->
  32 <= u256_sub (v _a) (v _b) <= modulus - 32.
Proof using All.
  intros Ht Hc Ha Hb. unfold knownToBeDifferentBy32.
  destruct (find fuel t 0 cl (opItem SUB noLocation) [_a; _b]) as [[i cl1]| |] eqn:Hf; [|discriminate..].
  cbn [mbind Result_bind].
  destruct (find_value t fuel cl v SUB [_a; _b] i cl1 Ht Hc eq_refl eq_refl
    (Forall_cons_2 _ _ _ Ha (Forall_cons_2 _ _ _ Hb (Forall_nil_2 _))) Hf) as (v' & Hc' & _ & Hi & Hv).
  clear Ht Hf. destruct (knownConstant cl1 i) as [[c|]|] eqn:Hk; [|discriminate|discriminate].
  cbn [lift mbind Result_bind]. intros [= H62 _].
  rewrite (knownConstant_value cl1 v' i c Hc' Hk) in Hv. simpl in Hv.
  rewrite op_SUB in Hv by (assumption || apply Hc). subst c. apply Z.ltb_lt in H62.
  pose proof (u256_range (v _a - v _b)) as Hr. unfold u256_sub, u256_add in *.
  remember (u256 (v _a - v _b)) as x eqn:Hex. clear Hex. rename H62 into Hx. unfold is_u256, u256 in *.
  destruct (Z.lt_ge_cases (x + 31) modulus) as [Hlt|Hge].
  - rewrite Z.mod_small in Hx by lia. split; [lia|]. unfold modulus in *. lia.
  - rewrite <- (Z.mod_add _ (-1)), Z.mod_small in Hx by (unfold modulus in *; lia). lia.
Qed.

Lemma knownToBeDifferentBy32_value t fuel cl v _a _b cl' :
  Rules = Some t -> consistent cl v -> 0 <= _a < classes_size cl -> 0 <= _b < classes_size cl ->
  knownToBeDifferentBy32 fuel t cl _a _b = Ret (true, cl') -> 32 <= Z.abs (v _a - v _b).
Proof using All.
  intros Ht Hc Ha Hb Hk. pose proof (knownToBeDifferentBy32_distance t fuel cl v _a _b cl' Ht Hc Ha Hb Hk) as Hd.
  clear Ht Hk. pose proof (cv_range _ _ _ (con_value _ _ _ Hc) _a) as Hva.
  pose proof (cv_range _ _ _ (con_value _ _ _ Hc) _b) as Hvb. cbn in Hva, Hvb.
  unfold u256_sub, u256, is_u256 in *. destruct (Z.lt_ge_cases (v _a - v _b) 0) as [Hn|Hn].
  - rewrite <- (Z.mod_add _ 1), Z.mod_small in Hd by (unfold modulus in *; lia). lia.
  - rewrite Z.mod_small in Hd by lia. lia.
Qed.
End Words.
