(* ===== verification/RuleWeight.v ===== *)
(** * RuleWeight: the simplification rules make expressions lighter

    Every expression has a weight: 1 for a constant, 2 for what is unknown, and a
    multiple of the product of the arguments' weights plus one for an operation.  A rule
    replaces an expression by one of a smaller weight, except that the rules moving a
    constant out of an associative operation need the operand they move it past not to be
    a constant; for a constant another rule comes first.  The weight bounds the recursion
    of [ExpressionClasses::find]. *)

From S2P Require Import Prelude U256 Instruction EVMVersion AssemblyItem SemanticInformation Pattern RuleList SimplificationRules RuleSound MatchSound.

(** The factor of an instruction. *)
Definition factor (i : Instruction) : Z :=
  match i with
  | MUL => 4
  | SUB | SHL | SHR | BYTE | MOD => 3
  | GT | LT => 2
  | _ => 1
  end.

Definition weights_product (l : list Z) : Z := fold_right (fun x p => (x + 1) * p) 1 l.

Definition op_weight (i : Instruction) (l : list Z) : Z := factor i * weights_product l + 1.

(** Weights as a semantics: a value may be replaced by one that is no heavier. *)
Definition weightSemantics : Semantics := {|
  sem_dom x := 1 <= x;
  sem_cst _ := 1;
  sem_op := op_weight;
  sem_seqop _ := op_weight;
  sem_pushed _ _ := 2;
  sem_rel x y := y <= x |}.

Local Abbreviation weight := (pvalue weightSemantics).

(** ** Weights of operations *)

Lemma factor_pos i : 1 <= factor i.
Proof. destruct i; simpl; lia. Qed.

Lemma weights_product_pos l : Forall (fun x => 1 <= x) l -> 1 <= weights_product l.
Proof. induction 1; simpl; [lia|nia]. Qed.

Lemma weights_product_mono l l' :
  Forall (fun x => 1 <= x) l' -> Forall2 (fun x y => y <= x) l l' -> weights_product l' <= weights_product l.
Proof.
  intros Hl' H. induction H as [|x y l l' Hxy _ IH]; [done|].
  apply Forall_cons in Hl' as [Hy Hl']. specialize (IH Hl').
  pose proof (weights_product_pos _ Hl'). simpl. nia.
Qed.

Lemma weights_product_arg l x : Forall (fun x => 1 <= x) l -> In x l -> x < weights_product l.
Proof.
  induction 1 as [|y l Hy Hl IH]; [done|]. pose proof (weights_product_pos _ Hl).
  intros [->|Hx]; simpl; [nia|]. specialize (IH Hx). nia.
Qed.

Lemma op_weight_pos i l : Forall (fun x => 1 <= x) l -> 2 <= op_weight i l.
Proof.
  intros Hl. unfold op_weight. pose proof (factor_pos i). pose proof (weights_product_pos _ Hl). nia.
Qed.

Lemma op_weight_mono i l l' :
  Forall (fun x => 1 <= x) l' -> Forall2 (fun x y => y <= x) l l' -> op_weight i l' <= op_weight i l.
Proof.
  intros Hl' H. unfold op_weight. pose proof (factor_pos i). pose proof (weights_product_mono _ _ Hl' H).
  nia.
Qed.

(** An argument is lighter than the operation. *)
Lemma op_weight_arg i l x : Forall (fun x => 1 <= x) l -> In x l -> x < op_weight i l.
Proof.
  intros Hl Hx. unfold op_weight. pose proof (factor_pos i). pose proof (weights_product_arg _ _ Hl Hx).
  pose proof (weights_product_pos _ Hl). nia.
Qed.

(** ** The rules *)

Definition rule_lighter (r : SimplificationRule) : Prop :=
  forall m ρ p', good_groups weightSemantics m ρ -> binds m (pattern r) ->
    action r m = Some p' -> weight ρ p' < weight ρ (pattern r).

(** The rules that move a constant past Y, and the rules for a constant B in Y's place.
    The lists are instantiated with W and X for the source's X and Y. *)
Inductive movesConstant : SimplificationRule -> SimplificationRule -> Prop :=
| mc_left i opXA f :
    In opXA [POp i [groupW; groupA]; POp i [groupA; groupW]] ->
    movesConstant (rule (POp i [opXA; groupB]) f false)
      (rule (POp i [opXA; groupX]) (to (POp i [POp i [groupW; groupX]; groupA])) false)
| mc_right i opXA f :
    In opXA [POp i [groupW; groupA]; POp i [groupA; groupW]] ->
    movesConstant (rule (POp i [groupB; opXA]) f false)
      (rule (POp i [groupX; opXA]) (to (POp i [POp i [groupX; groupW]; groupA])) false).

Lemma binds_weight m ρ p g :
  good_groups weightSemantics m ρ -> binds m p -> In g (groups_of p) -> In g constGroups -> ρ g = 1.
Proof.
  intros Hg Hb Hp Hc. destruct (Hb g Hp) as (e & He & Hit). destruct (Hit Hc) as (it & Hi & Ht).
  by apply (gg_const _ _ _ Hg g e it).
Qed.

(** The weights of the constants and of the groups of a rule. *)
Ltac const_weight Hg Hb g :=
  try (let E := fresh "E" in
       pose proof (binds_weight _ _ _ g Hg Hb ltac:(simpl; tauto) ltac:(simpl; tauto)) as E).
Ltac group_weights Hg ρ :=
  pose proof (gg_dom _ _ _ Hg 4%nat : 1 <= ρ 4%nat);
  pose proof (gg_dom _ _ _ Hg 5%nat : 1 <= ρ 5%nat);
  pose proof (gg_dom _ _ _ Hg 6%nat : 1 <= ρ 6%nat);
  pose proof (gg_dom _ _ _ Hg 7%nat : 1 <= ρ 7%nat).

Ltac rule_action Ha :=
  unfold rule, ruleIf in Ha; cbn [action] in Ha; unfold to, with1, with2, with3 in Ha;
  repeat match type of Ha with context [d ?m ?p] => destruct (d m p) as [?|]; [|discriminate Ha] end;
  cbn [mbind option_bind] in Ha; cbn zeta in Ha;
  repeat match type of Ha with context [if ?b then ?x else ?y] =>
    match type of x with Pattern => destruct b end end;
  injection Ha as <-.

(** Brings a goal on the weights of a rule to arithmetic. *)
Ltac weigh_rule :=
  let m := fresh "m" in let ρ := fresh "ρ" in let p' := fresh "p" in
  let Hg := fresh "Hg" in let Hb := fresh "Hb" in let Ha := fresh "Ha" in
  intros m ρ p' Hg Hb Ha;
  const_weight Hg Hb 1%nat; const_weight Hg Hb 2%nat; const_weight Hg Hb 3%nat;
  group_weights Hg ρ; rule_action Ha;
  cbn [rule ruleIf pattern pvalue POp Word map setMatchGroup PType groupA groupB groupC groupW groupX groupY
       groupZ Nat.eqb sem_op sem_cst weightSemantics op_weight factor weights_product fold_right
       Builtins.ADD Builtins.SUB Builtins.MUL Builtins.DIV Builtins.SDIV Builtins.MOD Builtins.SMOD
       Builtins.EXP Builtins.NOT Builtins.LT Builtins.GT Builtins.SLT Builtins.SGT Builtins.EQ
       Builtins.ISZERO Builtins.AND Builtins.OR Builtins.XOR Builtins.BYTE Builtins.SHL Builtins.SHR
       Builtins.ADDMOD Builtins.MULMOD Builtins.SIGNEXTEND Builtins.BALANCE Builtins.CREATE Builtins.CREATE2];
  unfold op_weight; cbn [factor weights_product fold_right]; clear Hg Hb.

Ltac rule_lighter := weigh_rule; nia.

Ltac each_lighter := repeat apply Forall_cons_2; [..|apply Forall_nil_2]; rule_lighter.

(** The rule is no heavier, and lighter when Y is not a constant. *)
Definition rule_moves (r : SimplificationRule) : Prop :=
  exists twin, movesConstant twin r /\
  forall m ρ p', good_groups weightSemantics m ρ -> binds m (pattern r) ->
    action r m = Some p' ->
    weight ρ p' <= weight ρ (pattern r) /\ (2 <= ρ 5%nat -> weight ρ p' < weight ρ (pattern r)).

Lemma part1_lighter : Forall rule_lighter (simplificationRuleListPart1 groupA groupB groupC groupW groupX).
Proof. unfold simplificationRuleListPart1. each_lighter. Qed.

Lemma part2_lighter : Forall rule_lighter (simplificationRuleListPart2 groupA groupB groupC groupW groupX).
Proof. unfold simplificationRuleListPart2. each_lighter. Qed.

Lemma part3_lighter : Forall rule_lighter (simplificationRuleListPart3 groupA groupB groupC groupW groupX).
Proof. unfold simplificationRuleListPart3. each_lighter. Qed.

Lemma part4_lighter : Forall rule_lighter (simplificationRuleListPart4 groupA groupB groupC groupW groupX).
Proof. unfold simplificationRuleListPart4. each_lighter. Qed.

Lemma part4_5_lighter : Forall rule_lighter (simplificationRuleListPart4_5 groupA groupB groupC groupW groupX).
Proof. unfold simplificationRuleListPart4_5. each_lighter. Qed.

Lemma part5_lighter : Forall rule_lighter (simplificationRuleListPart5 groupA groupB groupC groupW groupX).
Proof.
  unfold simplificationRuleListPart5. rewrite !Forall_app. repeat split.
  - apply Forall_map, Forall_forall. intros i _. cbn beta zeta. rule_lighter.
  - each_lighter.
  - cbn [concat map app]. each_lighter.
Qed.

Lemma part6_lighter : Forall rule_lighter (simplificationRuleListPart6 groupA groupB groupC groupW groupX).
Proof. unfold simplificationRuleListPart6. cbn [map app]. each_lighter. Qed.

Ltac rule_moves :=
  right; eexists; split;
  [first [apply (mc_left _ _ (to groupA)); simpl; tauto|apply (mc_right _ _ (to groupA)); simpl; tauto]|];
  weigh_rule; split; [nia|intros; nia].

(** The rules of an associative operation: those that take two constants, and those that
    move one. *)
Lemma associative_ok i fn :
  In i [ADD; MUL; AND; OR; XOR] ->
  Forall (fun r => rule_lighter r \/ rule_moves r) (associativeRules groupA groupB groupW groupX i fn).
Proof.
  intros Hi. unfold associativeRules. cbn [map concat app].
  repeat destruct Hi as [<-|Hi]; [..|destruct Hi];
    (repeat apply Forall_cons_2; [..|apply Forall_nil_2]);
    first [left; rule_lighter|rule_moves].
Qed.

Lemma shift_lighter : Forall rule_lighter (shiftRules groupA groupB groupW).
Proof. unfold shiftRules. each_lighter. Qed.

Lemma shiftAnd_lighter : Forall rule_lighter
  (shiftAndRules groupA groupB groupW SHL true ++ shiftAndRules groupA groupB groupW SHR false).
Proof. unfold shiftAndRules. cbn [app]. each_lighter. Qed.

Lemma mulDiv_lighter : Forall rule_lighter (mulDivRules groupA groupB groupW groupX).
Proof. unfold mulDivRules. each_lighter. Qed.

Lemma byte_lighter : Forall rule_lighter (byteRules groupA groupB groupW).
Proof. unfold byteRules. each_lighter. Qed.

Lemma part8_lighter : Forall rule_lighter (simplificationRuleListPart8 groupA groupB groupC groupW groupX).
Proof. unfold simplificationRuleListPart8. each_lighter. Qed.

Lemma part9_lighter : Forall rule_lighter (simplificationRuleListPart9 groupA groupB groupC groupW groupX groupY groupZ).
Proof. unfold simplificationRuleListPart9. each_lighter. Qed.

Lemma lighter_ok l : Forall rule_lighter l -> Forall (fun r => rule_lighter r \/ rule_moves r) l.
Proof. intros Hl. eapply Forall_impl; [exact Hl|]. tauto. Qed.

Lemma rules_weight : Forall (fun r => rule_lighter r \/ rule_moves r) (ruleSet None).
Proof.
  unfold ruleSet, simplificationRuleList. rewrite app_nil_r, !Forall_app. repeat split;
    auto using lighter_ok, part1_lighter, part2_lighter, part3_lighter, part4_lighter,
      part4_5_lighter, part5_lighter, part6_lighter, part8_lighter, part9_lighter.
  unfold simplificationRuleListPart7. cbn [map concat]. rewrite !app_nil_r, !Forall_app.
  repeat split; auto using lighter_ok, shift_lighter, mulDiv_lighter, byte_lighter;
    try (apply associative_ok; simpl; tauto);
    (pose proof shiftAnd_lighter as [? ?]%Forall_app; by apply lighter_ok).
Qed.

#[export] Instance weightSemantics_laws : SemanticsLaws weightSemantics.
Proof.
  split; cbn [sem_dom sem_cst sem_op sem_seqop sem_pushed sem_rel weightSemantics]; try done; try lia.
  - intros _ i l Hl. pose proof (op_weight_pos i l Hl). lia.
  - intros _ i l l' _ Hl' H. by apply op_weight_mono.
  - intros _ i a b _ _ _. unfold op_weight. cbn [weights_product fold_right]. lia.
  - eapply Forall_impl; [apply rules_weight|]. intros r [Hr|(_ & _ & Hr)] m ρ p' Hg _ Hb _ Ha.
    + specialize (Hr m ρ p' Hg Hb Ha). cbn [sem_rel weightSemantics]. lia.
    + by apply (Hr m ρ p').
Qed.

(** ** A constant's twin comes first *)

(** The assignment of a constant to every group. *)
Definition constants_match : MatchGroups :=
  let e := mkExpression 0 (Some (dataItem Push 0 noLocation)) [] 0 in
  list_to_map (map (fun g => (g, e)) [1; 2; 3; 4; 5; 6; 7]%nat).

Lemma movesConstant_equal t r ρ :
  (forall g, ρ g = 1) -> movesConstant t r ->
  exists p', (forall m, action r m = Some p') /\ weight ρ p' = weight ρ (pattern r).
Proof.
  intros Hρ [i opXA f H|i opXA f H]; eexists; (split; [done|]);
    destruct H as [<-|[<-|[]]]; cbn; rewrite !Hρ; unfold op_weight, weights_product; simpl; lia.
Qed.

Lemma lighter_not_moves t r : rule_lighter r -> movesConstant t r -> False.
Proof.
  intros Hl Hm. destruct (movesConstant_equal t r (fun _ => 1) (fun _ => eq_refl) Hm) as (p' & Ha & He).
  specialize (Hl constants_match (fun _ => 1) p'). cut (weight (fun _ => 1) p' < weight (fun _ => 1) (pattern r)); [lia|].
  apply Hl; [done| |done]. clear Hl Ha He. intros g Hg.
  assert (In g [1; 4; 5]%nat) as Hin.
  { destruct Hm as [i opXA f H|i opXA f H]; destruct H as [<-|[<-|[]]]; simpl in Hg; simpl; tauto. }
  simpl in Hin. destruct Hin as [<-|[<-|[<-|[]]]]; eexists; (split; [reflexivity|]); intros _;
    eexists; split; reflexivity.
Qed.

(** The twin of every rule that moves a constant is before it. *)
Definition twins_before (rules : list SimplificationRule) : Prop :=
  forall pre r post t, rules = pre ++ r :: post -> movesConstant t r ->
    exists t', In t' pre /\ movesConstant t' r.

Lemma twins_lighter l : Forall rule_lighter l -> twins_before l.
Proof.
  intros Hl pre r post t -> Hm. apply Forall_app in Hl as [_ Hl]. apply Forall_cons in Hl as [Hl _].
  by destruct (lighter_not_moves t r).
Qed.

Lemma twins_app l l' : twins_before l -> twins_before l' -> twins_before (l ++ l').
Proof.
  intros Hl Hl' pre r post t He Hm. apply app_eq_app in He as (k & [[-> Hk]|[-> Hk]]).
  - destruct k as [|x k].
    + simpl in Hk. rewrite <- Hk in Hl'.
      destruct (Hl' [] r post t eq_refl Hm) as (? & [] & _).
    + injection Hk as <- ->. by apply (Hl pre r k t).
  - destruct (Hl' k r post t Hk Hm) as (t' & Ht & Hm'). exists t'. split; [|done].
    apply in_or_app. by right.
Qed.

(** Y is an argument of a rule that moves a constant. *)
Definition has_Y (r : SimplificationRule) : bool :=
  existsb (fun a => Nat.eqb (p_matchGroup a) 5) (p_arguments (pattern r)).

Lemma movesConstant_Y t r : movesConstant t r -> has_Y r = true.
Proof. intros [i opXA f H|i opXA f H]; destruct H as [<-|[<-|[]]]; reflexivity. Qed.

Ltac find_twin :=
  eexists; split;
  [|first [apply mc_left; simpl; tauto|apply mc_right; simpl; tauto]];
  repeat first [left; reflexivity|right].

Lemma associative_twins i fn : twins_before (associativeRules groupA groupB groupW groupX i fn).
Proof.
  intros pre r post t He Hm. apply movesConstant_Y in Hm.
  unfold associativeRules in He. cbn [map concat app] in He.
  repeat (destruct pre as [|? pre]; [injection He as <- _|injection He as <- He]);
    first [discriminate Hm|find_twin|by destruct pre].
Qed.

Lemma twins_rules : twins_before (ruleSet None).
Proof.
  unfold ruleSet, simplificationRuleList.
  repeat match goal with |- twins_before (_ ++ _) => apply twins_app end;
    auto using twins_lighter, part1_lighter, part2_lighter, part3_lighter, part4_lighter,
      part4_5_lighter, part5_lighter, part6_lighter, part8_lighter, part9_lighter.
  unfold simplificationRuleListPart7. cbn [map concat].
  repeat match goal with |- twins_before (_ ++ _) => apply twins_app end;
      auto using twins_lighter, shift_lighter, mulDiv_lighter, byte_lighter, associative_twins, Forall_nil_2;
      pose proof shiftAnd_lighter as [? ?]%Forall_app; by apply twins_lighter.
Qed.

(** The twins stay in front in the bucket of an instruction. *)
Lemma twins_bucket i l :
  twins_before l -> twins_before (filter (fun r => p_instruction (pattern r) = i) l).
Proof.
  intros Hl pre r post t He Hm.
  assert (exists pre' post', l = pre' ++ r :: post' /\
    pre = filter (fun r => p_instruction (pattern r) = i) pre' /\ p_instruction (pattern r) = i)
    as (pre' & post' & -> & -> & Hi).
  { clear Hl. revert pre He. induction l as [|x l IH]; intros pre He.
    - rewrite filter_nil in He. by destruct pre.
    - rewrite filter_cons in He. destruct (decide (p_instruction (pattern x) = i)) as [Hx|Hx].
      + destruct pre as [|y pre]; injection He as <- He.
        * exists [], l. by rewrite filter_nil.
        * destruct (IH pre He) as (pre' & post' & -> & -> & Hr). exists (x :: pre'), post'.
          by rewrite filter_cons_True.
      + destruct (IH pre He) as (pre' & post' & -> & -> & Hr). exists (x :: pre'), post'.
        by rewrite filter_cons_False. }
  destruct (Hl pre' r post' t eq_refl Hm) as (t' & Ht & Hm'). exists t'. split; [|done].
  apply list_elem_of_In, list_elem_of_filter. split; [|by apply list_elem_of_In].
  destruct Hm'; exact Hi.
Qed.
