(* ===== verification/ClassTotal.v ===== *)
(** * ClassTotal: the recursion of ExpressionClasses::find ends

    [find], [tryToSimplify] and [rebuildExpression] call each other on lighter and lighter
    expressions: the weight of an expression bounds the depth of the recursion, and fuel
    of that weight is enough. *)

From S2P Require Import Prelude U256 Instruction EVMVersion AssemblyItem SemanticInformation Pattern RuleList SimplificationRules ExpressionClasses RuleSound MatchSound ClassSound RuleWeight.

Local Abbreviation W := weightSemantics.
Local Abbreviation weight := (pvalue W).

#[local] Opaque ruleSet Rules.

(** ** The first rule that fires *)

Lemma firstMatch_first reps rules e r m :
  firstMatch reps rules e = Some (Some (r, m)) ->
  exists pre post, rules = pre ++ r :: post /\ matches reps (pattern r) e ∅ = Some (true, m) /\
    forall r' m', In r' pre -> feasible r' = None -> matches reps (pattern r') e ∅ <> Some (true, m').
Proof.
  induction rules as [|r0 rules IH]; [done|]. cbn [firstMatch].
  destruct (matches reps (pattern r0) e ∅) as [[ok m0]|] eqn:Hm; [|done]. cbn [mbind option_bind].
  destruct (if negb ok then _ else _) as [b|] eqn:Hb; [|done]. cbn [mbind option_bind].
  destruct b.
  - intros [= <- <-]. destruct ok; [|done]. exists [], rules. split; [done|]. split; [done|]. by intros ? ? [].
  - intros Hf. destruct (IH Hf) as (pre & post & -> & Hr & Hpre).
    exists (r0 :: pre), post. split; [done|]. split; [done|]. intros r' m' [<-|Hin]; [|by apply Hpre].
    intros Hn Hm'. rewrite Hm in Hm'. injection Hm' as -> ->. by rewrite Hn in Hb.
Qed.

(** ** A constant in Y's place matches the twin *)

Lemma constant_base it g : m_type it = Push -> matchesBaseItem (setMatchGroup g (PType Push)) (Some it) = Some true.
Proof. intros Ht. unfold matchesBaseItem. simpl. by rewrite Ht, !bool_decide_eq_true_2. Qed.

Lemma matches_group reps g t e m m' :
  g <> 0%nat -> matches reps (mkPattern t false STOP None [] g) e m = Some (true, m') <->
  matchesBaseItem (mkPattern t false STOP None [] g) (item e) = Some true /\ matchGroup g e m = (true, m').
Proof.
  intros Hg. rewrite matches_eq. destruct (matchesBaseItem _ _) as [[]|]; cbn [mbind option_bind negb].
  - destruct (matchGroup g e m) as [[] m1]; cbn; split; [by intros [= ->]|by intros [_ [= ->]]|done|by intros [_ [=]]].
  - split; [done|by intros [[=] _]].
  - split; [done|by intros [[=] _]].
Qed.

(** A match of an operation of two arguments. *)
Lemma matches_op2 reps i p q e m m' :
  matches reps (POp i [p; q]) e m = Some (true, m') <->
  matchesBaseItem (POp i []) (item e) = Some true /\
  exists a b ea eb m1, e_arguments e = [a; b] /\ representative reps a = Some ea /\
    representative reps b = Some eb /\ matches reps p ea m = Some (true, m1) /\
    matches reps q eb m1 = Some (true, m').
Proof.
  unfold POp at 1. rewrite matches_eq. change (mkPattern Operation false i None [p; q] 0) with (POp i [p; q]).
  change (matchesBaseItem (POp i [p; q]) (item e)) with (matchesBaseItem (POp i []) (item e)).
  destruct (matchesBaseItem (POp i []) (item e)) as [[]|];
    [|split; [done|by intros [[=] _]]..].
  cbn [mbind option_bind negb matchGroup Nat.eqb]. cbn [length Nat.eqb orb].
  split.
  - intros H. split; [done|]. destruct (e_arguments e) as [|a [|b [|? l]]]; try discriminate H.
    cbn [length Nat.eqb assertThrow mbind option_bind matchesAll] in H.
    destruct (representative reps a) as [ea|] eqn:Ha; [|done]. cbn [mbind option_bind] in H.
    destruct (matches reps p ea m) as [[[] m1]|] eqn:Hp; try done. cbn [mbind option_bind negb] in H.
    destruct (representative reps b) as [eb|] eqn:Hb; [|done]. cbn [mbind option_bind] in H.
    destruct (matches reps q eb m1) as [[[] m2]|] eqn:Hq; try done. cbn [mbind option_bind negb] in H.
    injection H as <-. by exists a, b, ea, eb, m1.
  - intros (_ & a & b & ea & eb & m1 & -> & Ha & Hb & Hp & Hq).
    cbn [length Nat.eqb assertThrow mbind option_bind matchesAll].
    rewrite Ha. cbn [mbind option_bind]. rewrite Hp. cbn [mbind option_bind negb].
    rewrite Hb. cbn [mbind option_bind]. by rewrite Hq.
Qed.

Lemma matchGroup_fresh g e m : g <> 0%nat -> m !! g = None -> matchGroup g e m = (true, <[g := e]> m).
Proof. intros Hg Hm. unfold matchGroup. destruct (Nat.eqb_spec g 0); [done|]. by rewrite Hm. Qed.

(** X and A match whatever the other groups are. *)
Lemma matches_XA reps i opXA e m m1 :
  In opXA [POp i [groupW; groupA]; POp i [groupA; groupW]] ->
  m !! 1%nat = None -> m !! 4%nat = None -> matches reps opXA e m = Some (true, m1) ->
  (forall g, g <> 1%nat -> g <> 4%nat -> m1 !! g = m !! g) /\
  forall m', m' !! 1%nat = None -> m' !! 4%nat = None -> exists m1',
    matches reps opXA e m' = Some (true, m1') /\ forall g, g <> 1%nat -> g <> 4%nat -> m1' !! g = m' !! g.
Proof.
  intros Hin H1 H4 Hm.
  destruct Hin as [<-|[<-|[]]]; apply matches_op2 in Hm
    as (Hb & a & b & ea & eb & m2 & He & Ha & Heb & Hp & Hq);
    unfold groupW, groupA, setMatchGroup, PType in Hp, Hq;
    apply matches_group in Hp as [Hpb Hpg]; try done; apply matches_group in Hq as [Hqb Hqg]; try done.
  - rewrite matchGroup_fresh in Hpg by done. injection Hpg as <-.
    rewrite matchGroup_fresh in Hqg by (done || by rewrite lookup_insert_ne). injection Hqg as <-.
    split; [intros g Hg1 Hg4; by rewrite !lookup_insert_ne|].
    intros m' H1' H4'. exists (<[1%nat := eb]> (<[4%nat := ea]> m')).
    split; [|intros g Hg1 Hg4; by rewrite !lookup_insert_ne].
    apply matches_op2. split; [done|]. exists a, b, ea, eb, (<[4%nat := ea]> m').
    do 3 (split; [done|]). split; (apply matches_group; [done|]); (split; [done|]);
      apply matchGroup_fresh; by rewrite ?lookup_insert_ne.
  - rewrite matchGroup_fresh in Hpg by done. injection Hpg as <-.
    rewrite matchGroup_fresh in Hqg by (done || by rewrite lookup_insert_ne). injection Hqg as <-.
    split; [intros g Hg1 Hg4; by rewrite !lookup_insert_ne|].
    intros m' H1' H4'. exists (<[4%nat := eb]> (<[1%nat := ea]> m')).
    split; [|intros g Hg1 Hg4; by rewrite !lookup_insert_ne].
    apply matches_op2. split; [done|]. exists a, b, ea, eb, (<[1%nat := ea]> m').
    do 3 (split; [done|]). split; (apply matches_group; [done|]); (split; [done|]);
      apply matchGroup_fresh; by rewrite ?lookup_insert_ne.
Qed.

(** When Y is a constant, the twin matches. *)
Lemma twin_matches reps t r e m eY it :
  movesConstant t r -> matches reps (pattern r) e ∅ = Some (true, m) ->
  m !! 5%nat = Some eY -> item eY = Some it -> m_type it = Push ->
  exists m', matches reps (pattern t) e ∅ = Some (true, m').
Proof.
  intros [i opXA f Hin|i opXA f Hin] Hm HY Hit Ht; cbn [pattern rule] in *;
    apply matches_op2 in Hm as (Hb & a & b & ea & eb & m1 & He & Ha & Heb & Hp & Hq).
  - destruct (matches_XA _ _ _ _ _ _ Hin (lookup_empty _) (lookup_empty _) Hp) as [Hfr _].
    unfold groupX, setMatchGroup, PType in Hq. apply matches_group in Hq as [_ Hq]; [|done].
    rewrite matchGroup_fresh in Hq by (done || by rewrite Hfr, lookup_empty). injection Hq as <-.
    rewrite lookup_insert_eq in HY. injection HY as ->.
    exists (<[2%nat := eY]> m1). apply matches_op2. split; [done|]. exists a, b, ea, eY, m1.
    do 4 (split; [done|]). apply matches_group; [done|]. rewrite Hit.
    split; [by apply (constant_base it 2)|]. apply matchGroup_fresh; [done|]. by rewrite Hfr, lookup_empty.
  - unfold groupX, setMatchGroup, PType in Hp. apply matches_group in Hp as [_ Hp]; [|done].
    rewrite matchGroup_fresh in Hp by done. injection Hp as <-.
    destruct (matches_XA reps i opXA eb (<[5%nat := ea]> ∅) m Hin) as [Hfr Hany]; [done..|].
    rewrite Hfr, lookup_insert_eq in HY by done. injection HY as ->.
    destruct (Hany (<[2%nat := eY]> ∅)) as (m' & Hm' & _); [done..|].
    exists m'. apply matches_op2. split; [done|]. exists a, b, eY, eb, (<[2%nat := eY]> ∅).
    do 3 (split; [done|]). split; [|done]. apply matches_group; [done|]. rewrite Hit.
    split; [by apply (constant_base it 2)|]. by apply matchGroup_fresh.
Qed.

(** ** The rule that fires builds something lighter *)

Lemma movesConstant_groups t r : movesConstant t r -> In 5%nat (groups_of (pattern r)) /\ feasible t = None.
Proof. intros [i opXA f H|i opXA f H]; destruct H as [<-|[<-|[]]]; simpl; tauto. Qed.

(** What is not a constant weighs at least 2. *)
Lemma heavy_item it seq l :
  Forall (fun x => 1 <= x) l -> m_type it <> Push -> 2 <= item_value W it seq l.
Proof.
  intros Hl Ht. unfold item_value. destruct (m_type it) eqn:E; cbn; try lia; [|done].
  by apply op_weight_pos.
Qed.

Lemma firstMatch_lighter reps μ e x i r m p' :
  classes_value W reps μ -> Forall (fun e => is_Some (item e)) reps -> expr_value W μ e x ->
  firstMatch reps (filter (fun r => p_instruction (pattern r) = i) (ruleSet None)) e = Some (Some (r, m)) ->
  action r m = Some p' -> weight (group_value W μ m) p' < x.
Proof.
  intros Hv Hits Hx Hf Ha. apply firstMatch_first in Hf as (pre & post & Hl & Hm & Hpre).
  assert (In r (ruleSet None)) as Hr.
  { apply list_elem_of_In. apply (list_elem_of_filter (fun r => p_instruction (pattern r) = i)).
    rewrite Hl. apply elem_of_app. right. by left. }
  pose proof (ruleSet_total None) as Htot. rewrite List.Forall_forall in Htot.
  destruct (Htot r Hr) as ((j & l & Hpj) & Hpat & _).
  assert (p_matchGroup (pattern r) = 0%nat) as Hg by (by rewrite Hpj).
  destruct (matches_sound W reps μ _ _ Hv Hpat e ∅ m x Hx (fun H => False_ind _ (H Hg))
    (groups_ok_empty W reps μ) Hm) as [(Hgo & _ & Hbound) Hval].
  pose proof (groups_ok_binds W reps μ m _ Hgo Hbound) as Hb.
  pose proof (groups_ok_good W reps μ m Hv Hgo) as Hgood.
  rewrite <- (Hval m) by done.
  pose proof rules_weight as Hw. rewrite List.Forall_forall in Hw.
  destruct (Hw r Hr) as [Hlight|(t & Hmv & Hmoves)]; [by apply (Hlight m)|].
  apply (Hmoves m _ p' Hgood Hb Ha).
  destruct (movesConstant_groups t r Hmv) as [H5 _]. destruct (Hbound 5%nat H5) as [eY HeY].
  unfold group_value. rewrite HeY.
  assert (is_Some (item eY)) as [it Hit].
  { rewrite List.Forall_forall in Hits. apply Hits. by eapply go_in. }
  destruct (go_value _ _ _ _ Hgo 5%nat eY HeY it Hit) as [_ ->].
  apply heavy_item.
  { apply Forall_map, Forall_forall. intros a _. apply (cv_range _ _ _ Hv). }
  intros Hpush. pose proof (twins_bucket i _ twins_rules pre r post t Hl Hmv) as (t' & Hin & Hmv').
  destruct (twin_matches reps t' r e m eY it Hmv' Hm HeY Hit Hpush) as [m' Hm'].
  by apply (Hpre t' m' Hin (proj2 (movesConstant_groups _ _ Hmv'))).
Qed.

(** ** The recursion *)

(** A call on items of weight at most [n] returns. *)
Definition returns_upto (n : Z)
    (f : ExpressionClasses -> AssemblyItem -> list Z -> Result (Z * ExpressionClasses)) : Prop :=
  forall cl it l μ, consistent W cl μ -> item_ok it (length l) ->
    Forall (fun i => 0 <= i < classes_size cl) l ->
    item_value W it 0 (map μ l) <= n -> f cl it l <> OutOfFuel.

Section Rebuild.
Context (f : ExpressionClasses -> AssemblyItem -> list Z -> Result (Z * ExpressionClasses))
  (f_ok : find_ok W f 0) (n : Z) (f_returns : returns_upto n f).

Lemma rebuildAll_returns l : forall cl μ,
  Forall (fun t => forall cl μ, consistent W cl μ -> template_wf (classes_size cl) t ->
    template_value W μ t <= n -> rebuildExpression f cl t <> OutOfFuel) l ->
  consistent W cl μ -> Forall (template_wf (classes_size cl)) l ->
  Forall (fun t => template_value W μ t <= n) l -> rebuildAll f l cl <> OutOfFuel.
Proof using f_ok.
  intros cl μ Hall. revert cl μ. induction Hall as [|t l Ht _ IHl]; intros cl μ Hc Hws Hn; [done|].
  cbn [rebuildAll]. apply Forall_cons in Hws as [Hwt Hwl]. apply Forall_cons in Hn as [Hnt Hnl].
  specialize (Ht cl μ Hc Hwt Hnt).
  pose proof (rebuildExpression_ok W f f_ok t cl μ Hc Hwt) as Hok.
  destruct (rebuildExpression f cl t) as [[a cl1]| |]; cbn [mbind Result_bind]; try done.
  destruct Hok as (μ1 & Hc1 & He1 & _).
  assert (Forall (fun t => template_wf (classes_size cl1) t /\ template_value W μ1 t <= n) l) as Hl1.
  { rewrite Forall_forall in *. intros t' Ht'.
    destruct (template_value_extends W cl cl1 μ μ1 t' He1 (Hwl t' Ht')) as [Hw1 Hv1].
    split; [done|]. rewrite Hv1. by apply Hnl. }
  apply Forall_and in Hl1 as [Hwl1 Hnl1]. specialize (IHl cl1 μ1 Hc1 Hwl1 Hnl1).
  by destruct (rebuildAll f l cl1) as [[ids cl2]| |].
Qed.

Lemma rebuildExpression_returns t : forall cl μ,
  consistent W cl μ -> template_wf (classes_size cl) t -> template_value W μ t <= n ->
  rebuildExpression f cl t <> OutOfFuel.
Proof using f_ok f_returns.
  induction t as [hasId i it l IH] using template_ind_args. intros cl μ Hc Hw Hn.
  rewrite rebuildExpression_eq.
  inversion Hw as [? ? Hi|c loc Hcr|j loc ? Hl Hr Hws]; subst; [done| |].
  - apply (f_returns cl (dataItem Push c loc) [] μ Hc); [by split|constructor|done].
  - cbn [template_value opItem m_type m_instruction sem_op weightSemantics] in Hn.
    pose proof (template_dom W μ _ l (cv_range _ _ _ (con_value _ _ _ Hc)) Hws) as Hdom.
    assert (Forall (fun t => template_value W μ t <= n) l) as Hnl.
    { apply Forall_forall. intros t Ht.
      pose proof (op_weight_arg j _ (template_value W μ t) Hdom (in_map _ _ _ (proj1 (list_elem_of_In _ _) Ht))).
      lia. }
    pose proof (rebuildAll_returns l cl μ IH Hc Hws Hnl) as Hret.
    assert (Forall (fun t => forall cl v, consistent W cl v -> template_wf (classes_size cl) t ->
      result_ok W cl v (fun v => template_value W v t) (rebuildExpression f cl t)) l) as Hoks
      by (apply Forall_forall; intros t _ cl' v' Hc' Hw'; apply (rebuildExpression_ok W f f_ok t cl' v' Hc' Hw')).
    pose proof (rebuildAll_ok W f f_ok l cl μ Hoks Hc Hws) as Hall.
    destruct (rebuildAll f l cl) as [[ids cl1]| |]; cbn [mbind Result_bind]; try done.
    destruct Hall as (μ1 & Hc1 & He1 & Hlen & Hids & Hvals).
    apply (f_returns cl1 (opItem j loc) ids μ1 Hc1); [split; [intros _; simpl; congruence|done]|done|].
    pose proof (rebuilt_value W μ μ1 j l ids _ (cv_range _ _ _ (con_value _ _ _ Hc))
      (cv_range _ _ _ (con_value _ _ _ Hc1)) Hws (plain_reads _ Hr) Hvals) as Hle.
    cbn [sem_rel sem_op sem_seqop weightSemantics] in Hle.
    unfold item_value. cbn [opItem m_type m_instruction sem_seqop weightSemantics]. lia.
Qed.
End Rebuild.

(** [tryToSimplify] of an expression of weight at most [n + 1] returns. *)
Lemma tryToSimplify_returns t f cl μ e it x n :
  Rules = Some t -> find_ok W f 0 -> returns_upto n f -> consistent W cl μ ->
  item e = Some it -> args_in (m_representatives cl) e -> expr_value W μ e x -> x <= n + 1 ->
  tryToSimplify f t cl e <> OutOfFuel.
Proof.
  intros Ht Hf Hret Hc Hi Ha Hx Hn. unfold tryToSimplify.
  pose proof (fun it => findFirstMatch_spec W t (m_representatives cl) μ e it x Ht) as Hfind.
  destruct Rules_bucket as (t' & Ht' & Hb). rewrite Ht in Ht'. injection Ht' as <-.
  rewrite (Rules_isInitialized t Ht). clear Ht. cbn [assertThrow lift mbind Result_bind]. rewrite Hi.
  destruct (bool_decide (m_type it = Operation)) eqn:Hop; [|done].
  destruct (isDeterministic it); [|done]. cbn [negb orb]. apply bool_decide_eq_true in Hop.
  destruct (Hfind it (con_closed _ _ _ Hc) (con_value _ _ _ Hc) Hi Hop Hx Ha) as (res & Hres & Hok).
  rewrite Hres. cbn [lift mbind Result_bind]. destruct res as [[r m]|]; [|done].
  destruct Hok as (p' & Hact & Hp & Hbd & _). rewrite Hact. cbn [lift mbind Result_bind].
  destruct (expressionTemplate_value W _ μ m _ p' (m_location it) (con_value _ _ _ Hc) Hp Hbd)
    as (tm & -> & Hw & Htv). cbn [lift mbind Result_bind].
  assert (template_value W μ tm < x) as Hlt.
  { rewrite Htv. unfold findFirstMatch in Hres. rewrite Hi in Hres. cbn [mbind option_bind] in Hres.
    rewrite bool_decide_eq_true_2 in Hres by done. cbn [assertThrow mbind option_bind] in Hres.
    rewrite Hb in Hres. cbn [mbind option_bind] in Hres.
    by apply (firstMatch_lighter _ _ _ _ _ _ _ _ (con_value _ _ _ Hc) (con_items _ _ _ Hc) Hx Hres). }
  pose proof (rebuildExpression_returns f Hf n Hret tm cl μ Hc Hw ltac:(lia)) as Hre.
  by destruct (rebuildExpression f cl tm) as [[i cl1]| |].
Qed.

(** Fuel of the weight of the expression is enough. *)
Lemma find_not_out_of_fuel t fuel :
  Rules = Some t -> forall seq cl it l μ, consistent W cl μ -> item_ok it (length l) ->
  Forall (fun i => 0 <= i < classes_size cl) l ->
  item_value W it seq (map μ l) <= Z.of_nat fuel -> find fuel t seq cl it l <> OutOfFuel.
Proof.
  intros Ht. pose proof (fun fuel => find_sound W t fuel Ht) as Hsound.
  pose proof (fun f cl μ e it x n => tryToSimplify_returns t f cl μ e it x n Ht) as Htry. clear Ht.
  induction fuel as [|fuel IH]; intros seq cl it l μ Hc Hit Hl Hw.
  { assert (1 <= item_value W it seq (map μ l)); [|lia].
    apply (item_value_range W); [by rewrite length_map|]. apply (values_dom W), Hc. }
  cbn [find]. set (sl := sort_arguments it l). set (exp := mkExpression noId (Some it) sl seq).
  pose proof (sort_arguments_perm it l) as Hperm.
  assert (Forall (fun i => 0 <= i < classes_size cl) sl) as Hsl by (unfold sl; by rewrite Hperm).
  assert (item_ok it (length sl)) as Hitsl by (unfold sl; by rewrite Hperm).
  assert (item_value W it seq (map μ sl) = item_value W it seq (map μ l)) as Hval
    by (apply sort_arguments_value; [apply _|done|apply Hc]).
  assert (expr_value W μ exp (item_value W it seq (map μ sl))) as Hexp.
  { intros it' [= <-]. split; [apply Hitsl|done]. }
  assert (exists r, (if isDeterministic it then lift (set_find (m_expressions cl) exp) else Ret None) = Ret r)
    as [r ->].
  { destruct (isDeterministic it); [|by eexists].
    destruct (set_find_spec (m_expressions cl) exp) as (r & -> & _); [done|by eapply exprs_items|].
    by eexists. }
  cbn [mbind Result_bind]. destruct r as [x|]; [done|].
  assert (tryToSimplify (find fuel t 0) t cl exp <> OutOfFuel) as Hne.
  { apply (Htry _ cl μ exp it (item_value W it seq (map μ sl)) (Z.of_nat fuel) (Hsound fuel 0));
      [|done|done|done|done|rewrite Hval; lia].
    intros cl' it' l' μ' Hc' Hit' Hl' Hw'. by apply (IH 0 cl' it' l' μ'). }
  destruct (tryToSimplify (find fuel t 0) t cl exp) as [[oi cl1]| |]; cbn [mbind Result_bind]; [|done|done].
  destruct oi as [i|]; [destruct (i <? classes_size cl1)|];
    by destruct (set_insert _ _); cbn [lift mbind Result_bind].
Qed.

(** [find] returns, and the class is no heavier than the expression. *)
Lemma find_returns t fuel seq cl it l μ :
  Rules = Some t -> consistent W cl μ -> item_ok it (length l) ->
  Forall (fun i => 0 <= i < classes_size cl) l ->
  item_value W it seq (map μ l) <= Z.of_nat fuel ->
  exists i cl' μ', find fuel t seq cl it l = Ret (i, cl') /\ consistent W cl' μ' /\
    extends cl cl' μ μ' /\ 0 <= i < classes_size cl' /\ μ' i <= item_value W it seq (map μ l).
Proof.
  intros Ht Hc Hit Hl Hw.
  pose proof (find_not_out_of_fuel t fuel Ht seq cl it l μ Hc Hit Hl Hw) as Hne.
  pose proof (find_sound W t fuel Ht seq cl it l μ Hc Hit Hl) as Hok. clear Ht.
  destruct (find fuel t seq cl it l) as [[i cl']| |]; [|done|done].
  destruct Hok as (μ' & Hc' & He & Hi & Hr). eauto 10.
Qed.
