(* ===== verification/ClassShape.v ===== *)
(** * ClassShape: what the representatives of classes look like

    Code is generated from the representatives: a representative is an expression over
    earlier classes, the loads, hashes and stores are exactly those with a sequence number,
    and the class of such an operation is represented by the operation itself.  [find] keeps
    this, and adds at most one class with a sequence number, the one it was asked for. *)

From S2P Require Import Prelude U256 CommonData Instruction AssemblyItem SemanticInformation Interpreter Pattern RuleList SimplificationRules ExpressionClasses Machine RuleSound MatchSound ClassSound RuleWeight.

#[local] Opaque ruleSet Rules.

(** The instructions that are given a sequence number. *)
Definition isStore (i : Instruction) : bool := match i with SSTORE | MSTORE => true | _ => false end.

Definition sequenced (i : Instruction) : bool := readsState i || isStore i.

Definition is_sequenced (it : AssemblyItem) : bool :=
  bool_decide (m_type it = Operation) && sequenced (m_instruction it).

(** The items whose classes are represented by the item itself: these operations, and the
    elements of the stack a block starts with. *)
Definition is_kept (it : AssemblyItem) : bool := is_sequenced it || bool_decide (m_type it = UndefinedItem).

Lemma sequenced_kept it : is_sequenced it = true -> is_kept it = true.
Proof. unfold is_kept. by intros ->. Qed.

Lemma plain_sequenced i : plain i = true -> sequenced i = false.
Proof. by destruct i. Qed.

(** An item is asked for with a sequence number when it needs one, odd for a load and even for a
    store, and without arguments when it is a push. *)
Definition asked (it : AssemblyItem) (seq : Z) (l : list Z) : Prop :=
  match m_type it with
  | Operation =>
      if sequenced (m_instruction it) then 0 < seq /\ Z.odd seq = readsState (m_instruction it)
      else seq = 0 /\ plain (m_instruction it) = true
  | Tag | AssignImmutable => False
  | _ => seq = 0 /\ l = []
  end.

(** An expression that is the item applied to the arguments. *)
Definition represents (e : Expression) (it : AssemblyItem) (seq : Z) (l : list Z) : Prop :=
  exists r, item e = Some r /\ item_eqb r it = true /\ e_arguments e = l /\ sequenceNumber e = seq.

Record shape (cl : ExpressionClasses) : Prop := {
  sh_rep i e : m_representatives cl !! i = Some e ->
    exists it, item e = Some it /\ asked it (sequenceNumber e) (e_arguments e) /\
      Forall (fun a => 0 <= a < Z.of_nat i) (e_arguments e);
  sh_expr e it : In e (m_expressions cl) -> item e = Some it -> is_kept it = true ->
    exists r, representative (m_representatives cl) (id e) = Some r /\
      represents r it (sequenceNumber e) (e_arguments e) }.

Lemma shape_empty : shape (mkClasses [] []).
Proof. split; [intros i e Hl; discriminate Hl|intros e it []]. Qed.

(** Classes are added, without a sequence number. *)
Definition grows (cl cl' : ExpressionClasses) : Prop :=
  exists new, m_representatives cl' = m_representatives cl ++ new /\
    Forall (fun e => sequenceNumber e = 0) new.

Lemma grows_refl cl : grows cl cl.
Proof. exists []. by rewrite app_nil_r. Qed.

Lemma grows_trans cl1 cl2 cl3 : grows cl1 cl2 -> grows cl2 cl3 -> grows cl1 cl3.
Proof.
  intros (n1 & E1 & F1) (n2 & E2 & F2). exists (n1 ++ n2). rewrite E2, E1, app_assoc. split; [done|].
  by apply Forall_app_2.
Qed.

Lemma asked_unsequenced it l : asked it 0 l -> is_sequenced it = false.
Proof.
  unfold asked, is_sequenced. destruct (m_type it); try done. destruct (sequenced _); [|done]. lia.
Qed.

Lemma asked_sequenced it seq l : asked it seq l -> is_sequenced it = true -> m_type it = Operation /\ 0 < seq.
Proof.
  unfold asked, is_sequenced. intros Ha Hs. apply andb_true_iff in Hs as [Ht Hs].
  apply bool_decide_eq_true in Ht. rewrite Ht, Hs in Ha. by destruct Ha.
Qed.

Lemma asked_plain it seq l : asked it seq l -> is_sequenced it = false -> seq = 0.
Proof.
  unfold asked, is_sequenced. destruct (m_type it); try (by intros [? _]); try (by intros []).
  cbn. destruct (sequenced _); [done|by intros [? _]].
Qed.

Lemma sort_arguments_nil it : sort_arguments it [] = [].
Proof. unfold sort_arguments. by destruct (isCommutativeOperation it). Qed.

Lemma asked_sort it seq l : asked it seq l -> asked it seq (sort_arguments it l).
Proof.
  unfold asked. destruct (m_type it); try (intros [-> ->]; split; [done|apply sort_arguments_nil]); done.
Qed.

Lemma kept_sort it l : is_kept it = true -> sort_arguments it l = l.
Proof.
  unfold is_kept, is_sequenced, sort_arguments, isCommutativeOperation. intros Hs.
  apply orb_true_iff in Hs as [Hs|Hs].
  - apply andb_true_iff in Hs as [Ht Hs]. apply bool_decide_eq_true in Ht. rewrite Ht. by destruct (m_instruction it).
  - apply bool_decide_eq_true in Hs. by rewrite Hs.
Qed.

Lemma item_eqb_refl it : item_eqb it it = true.
Proof. apply item_eqb_spec. split; [done|]. by destruct (decide _). Qed.

Lemma item_eqb_trans a b c : item_eqb a b = true -> item_eqb b c = true -> item_eqb a c = true.
Proof.
  rewrite !item_eqb_spec. intros [H1 H2] [H3 H4]. split; [congruence|]. rewrite <- H1 in H4.
  destruct (decide _); congruence.
Qed.

Lemma item_eqb_kept a b : item_eqb a b = true -> is_kept a = is_kept b.
Proof.
  rewrite item_eqb_spec. intros [H1 H2]. unfold is_kept, is_sequenced. rewrite <- H1.
  destruct (bool_decide_reflect (m_type a = Operation)) as [Ht|]; [|done]. rewrite decide_True in H2 by done. by rewrite H2.
Qed.

(** ** No rule starts with a sequenced operation *)

Lemma rules_plain : Forall (fun r => sequenced (p_instruction (pattern r)) = false) (ruleSet None).
Proof.
  eapply Forall_impl; [apply ruleSet_total|]. intros r ((i & l & Hp) & Hok & _). rewrite Hp in *.
  inversion Hok as [? ? ? _ Hg|?|j l' Hl Hpl Hall]; [done|by apply plain_sequenced].
Qed.

Lemma findFirstMatch_sequenced t reps e it res :
  Rules = Some t -> item e = Some it -> is_sequenced it = true ->
  findFirstMatch t reps e = Some res -> res = None.
Proof.
  intros Ht Hi Hs. destruct Rules_bucket as (t' & Ht' & Hb). rewrite Ht in Ht'. injection Ht' as <-. clear Ht.
  apply andb_true_iff in Hs as [Hop Hs]. apply bool_decide_eq_true in Hop.
  unfold findFirstMatch. rewrite Hi. cbn [mbind option_bind].
  rewrite bool_decide_eq_true_2 by done. cbn [assertThrow mbind option_bind]. rewrite Hb. cbn [mbind option_bind].
  assert (filter (fun r => p_instruction (pattern r) = m_instruction it) (ruleSet None) = []) as ->.
  { clear Hb. pose proof rules_plain as Hr. induction Hr as [|r l Hr _ IH]; [done|].
    rewrite filter_cons_False; [exact IH|]. intros E. rewrite E in Hr. congruence. }
  cbn. by intros [= <-].
Qed.

(** ** Adding classes and expressions *)

Section Shape.
Context (S : Semantics) `{!SemanticsLaws S}.
Local Abbreviation consistent := (consistent S).

Lemma shape_fresh cl it l seq :
  shape cl -> asked it seq l -> Forall (fun i => 0 <= i < classes_size cl) l ->
  shape (mkClasses (m_representatives cl ++ [mkExpression (classes_size cl) (Some it) l seq]) (m_expressions cl)).
Proof using.
  intros [Hr He] Ha Hl. split; cbn [m_representatives m_expressions].
  - intros i e Hi. apply lookup_app_Some in Hi as [Hi|[Hge Hi]]; [by apply Hr|].
    apply list_lookup_singleton_Some in Hi as [Hi <-]. exists it. split; [done|]. split; [exact Ha|].
    cbn [e_arguments]. replace (Z.of_nat i) with (classes_size cl) by (unfold classes_size; lia). exact Hl.
  - intros e it' Hin Hit Hs. destruct (He e it' Hin Hit Hs) as (r & Hrep & Hok). exists r. split; [|exact Hok].
    unfold representative in *. destruct (0 <=? id e); [|done]. by apply lookup_app_l_Some.
Qed.

Lemma shape_insert cl i it l seq exprs :
  shape cl ->
  (is_kept it = true ->
    exists r, representative (m_representatives cl) i = Some r /\ represents r it seq l) ->
  set_insert (m_expressions cl) (mkExpression i (Some it) l seq) = Some exprs ->
  shape (mkClasses (m_representatives cl) exprs).
Proof using.
  intros [Hr He] Hi Hins. split; [exact Hr|]. cbn [m_representatives m_expressions].
  unfold set_insert in Hins. destruct (set_find _ _) as [[x|]|]; cbn in Hins; [|..|discriminate Hins];
    injection Hins as <-; [exact He|].
  intros e it' Hin Hit Hs. apply in_app_or in Hin as [Hin|[<-|[]]]; [by apply (He e it')|].
  cbn in Hit. injection Hit as <-. by apply Hi.
Qed.

(** What [find] does at sequence number 0. *)
Definition find_shape_ok (f : ExpressionClasses -> AssemblyItem -> list Z -> Result (Z * ExpressionClasses)) : Prop :=
  forall cl it l v i cl', consistent cl v -> shape cl -> item_ok it (length l) -> asked it 0 l ->
    Forall (fun i => 0 <= i < classes_size cl) l -> f cl it l = Ret (i, cl') -> shape cl' /\ grows cl cl'.

Section Rebuild.
Context (f : ExpressionClasses -> AssemblyItem -> list Z -> Result (Z * ExpressionClasses))
  (f_ok : find_ok S f 0) (f_shape : find_shape_ok f).

Lemma rebuildAll_shape l :
  Forall (fun t => forall cl v i cl', consistent cl v -> shape cl -> template_wf (classes_size cl) t ->
    rebuildExpression f cl t = Ret (i, cl') -> shape cl' /\ grows cl cl') l ->
  forall cl v ids cl', consistent cl v -> shape cl -> Forall (template_wf (classes_size cl)) l ->
    rebuildAll f l cl = Ret (ids, cl') -> shape cl' /\ grows cl cl'.
Proof using All.
  induction 1 as [|t l Ht _ IH]; intros cl v ids cl' Hc Hs Hw; cbn [rebuildAll].
  { intros [= <- <-]. split; [exact Hs|apply grows_refl]. }
  apply Forall_cons in Hw as [Hwt Hwl].
  pose proof (rebuildExpression_ok S f f_ok t cl v Hc Hwt) as Hok.
  destruct (rebuildExpression f cl t) as [[a cl1]| |] eqn:E; cbn [mbind Result_bind]; try discriminate.
  destruct (Ht cl v a cl1 Hc Hs Hwt E) as [Hs1 Hg1]. destruct Hok as (v1 & Hc1 & He1 & _).
  destruct (rebuildAll f l cl1) as [[ids1 cl2]| |] eqn:E2; cbn [mbind Result_bind]; try discriminate.
  intros [= <- <-]. destruct (IH cl1 v1 ids1 cl2 Hc1 Hs1) as [Hs2 Hg2]; [|exact E2|].
  - eapply Forall_impl; [exact Hwl|]. intros t' Ht'. by apply (template_value_extends S cl cl1 v v1).
  - split; [exact Hs2|by eapply grows_trans].
Qed.

Lemma rebuildExpression_shape t : forall cl v i cl',
  consistent cl v -> shape cl -> template_wf (classes_size cl) t ->
  rebuildExpression f cl t = Ret (i, cl') -> shape cl' /\ grows cl cl'.
Proof using All.
  induction t as [hasId j it l IH] using template_ind_args. intros cl v i cl' Hc Hs Hw.
  rewrite rebuildExpression_eq. inversion Hw as [? ? Hi|c loc Hcr|k loc ? Hl Hp Hws]; subst.
  - intros [= <- <-]. split; [exact Hs|apply grows_refl].
  - intros E. apply (f_shape cl (dataItem Push c loc) [] v i cl' Hc Hs); [by split|by split|constructor|exact E].
  - pose proof (fun Hall => rebuildAll_ok S f f_ok l cl v Hall Hc Hws) as Hok.
    destruct (rebuildAll f l cl) as [[ids cl1]| |] eqn:E; cbn [mbind Result_bind]; try discriminate.
    destruct (rebuildAll_shape l IH cl v ids cl1 Hc Hs Hws E) as [Hs1 Hg1].
    destruct Hok as (v1 & Hc1 & He1 & Hlen & Hids & _).
    { apply Forall_forall. intros t' _ cl2 v2 Hc2 Hw2. by apply (rebuildExpression_ok S f f_ok t' cl2 v2). }
    intros E2. destruct (f_shape cl1 (opItem k loc) ids v1 i cl' Hc1 Hs1) as [Hs2 Hg2]; [..|exact E2|].
    + split; [intros _; simpl; congruence|done].
    + unfold asked. cbn [m_type opItem m_instruction]. by rewrite (plain_sequenced k Hp).
    + exact Hids.
    + split; [exact Hs2|by eapply grows_trans].
Qed.
End Rebuild.

Lemma tryToSimplify_shape t f cl v e it x oi cl1 :
  Rules = Some t -> find_ok S f 0 -> find_shape_ok f -> consistent cl v -> shape cl -> item e = Some it ->
  args_in (m_representatives cl) e -> expr_value S v e x -> tryToSimplify f t cl e = Ret (oi, cl1) ->
  shape cl1 /\ grows cl cl1 /\ (is_kept it = true -> oi = None).
Proof using All.
  intros Ht Hf Hfs Hc Hs Hi Ha Hx. unfold tryToSimplify.
  pose proof (fun it => findFirstMatch_spec S t (m_representatives cl) v e it x Ht) as Hfind.
  pose proof (fun res => findFirstMatch_sequenced t (m_representatives cl) e it res Ht Hi) as Hseq.
  rewrite (Rules_isInitialized t Ht). clear Ht. cbn [assertThrow lift mbind Result_bind]. rewrite Hi.
  destruct (bool_decide (m_type it = Operation)) eqn:Hop; cbn [negb orb];
    [|intros [= <- <-]; split; [exact Hs|split; [apply grows_refl|done]]].
  destruct (isDeterministic it); cbn [negb orb];
    [|intros [= <- <-]; split; [exact Hs|split; [apply grows_refl|done]]].
  apply bool_decide_eq_true in Hop.
  destruct (Hfind it (con_closed _ _ _ Hc) (con_value _ _ _ Hc) Hi Hop Hx Ha) as (res & Hres & Hfound).
  rewrite Hres. cbn [lift mbind Result_bind]. destruct res as [[r m]|].
  2: { intros [= <- <-]. split; [exact Hs|split; [apply grows_refl|done]]. }
  destruct Hfound as (p' & -> & Hp & Hb & _). cbn [lift mbind Result_bind].
  destruct (expressionTemplate_value S _ v m _ p' (m_location it) (con_value _ _ _ Hc) Hp Hb)
    as (tm & -> & Hw & _). cbn [lift mbind Result_bind].
  destruct (rebuildExpression f cl tm) as [[i cl2]| |] eqn:E; cbn [mbind Result_bind]; try discriminate.
  intros [= <- <-]. destruct (rebuildExpression_shape f Hf Hfs tm cl v i cl2 Hc Hs Hw E) as [Hs2 Hg2].
  split; [exact Hs2|]. split; [exact Hg2|]. intros Hq. unfold is_kept in Hq.
  rewrite (bool_decide_eq_false_2 (m_type it = UndefinedItem)), orb_false_r in Hq by congruence.
  discriminate (Hseq _ Hq Hres).
Qed.

(** The class is represented by the item. *)
Definition represented (cl : ExpressionClasses) (i : Z) (it : AssemblyItem) (seq : Z) (l : list Z) : Prop :=
  exists r, representative (m_representatives cl) i = Some r /\ represents r it seq l.

(** The class may be new, but no other. *)
Definition at_most_added (cl cl' : ExpressionClasses) (i : Z) : Prop :=
  m_representatives cl' = m_representatives cl \/
  i = classes_size cl /\ exists r, m_representatives cl' = m_representatives cl ++ [r].

Lemma represents_refl i it l seq : represents (mkExpression i (Some it) l seq) it seq l.
Proof using. exists it. split; [done|]. by split; [apply item_eqb_refl|]. Qed.

Lemma representative_fresh cl e : representative (m_representatives cl ++ [e]) (classes_size cl) = Some e.
Proof using.
  unfold representative, classes_size. destruct (Z.leb_spec 0 (Z.of_nat (length (m_representatives cl)))); [|lia].
  rewrite Nat2Z.id. by apply list_lookup_middle.
Qed.

Lemma find_shape t fuel : Rules = Some t -> forall seq cl it l v i cl',
  consistent cl v -> shape cl -> item_ok it (length l) -> asked it seq l ->
  Forall (fun i => 0 <= i < classes_size cl) l -> find fuel t seq cl it l = Ret (i, cl') ->
  shape cl' /\ (is_kept it = true -> represented cl' i it seq l) /\
  if is_sequenced it then at_most_added cl cl' i else grows cl cl'.
Proof using All.
  intros Ht. pose proof (fun f cl v e it x oi cl1 => tryToSimplify_shape t f cl v e it x oi cl1 Ht) as Htry.
  pose proof (fun fuel => find_sound S t fuel Ht) as Hsound.
  pose proof (fun f cl v e it x => tryToSimplify_ok S t f cl v e it x Ht) as Hsimp. clear Ht.
  induction fuel as [|fuel IH]; intros seq cl it l v i cl' Hc Hs Hit Hask Hl; [discriminate|].
  cbn [find]. set (sl := sort_arguments it l). set (exp := mkExpression noId (Some it) sl seq).
  pose proof (sort_arguments_perm it l) as Hperm.
  assert (Forall (fun i => 0 <= i < classes_size cl) sl) as Hsl by (unfold sl; by rewrite Hperm).
  assert (item_ok it (length sl)) as Hitsl by (unfold sl; by rewrite Hperm).
  assert (is_kept it = true -> sl = l) as Hslq by apply kept_sort.
  assert (find_shape_ok (find fuel t 0)) as Hfs.
  { intros cl1 it1 l1 v1 i1 cl2 H1 H2 H3 H4 H5 H6. destruct (IH 0 cl1 it1 l1 v1 i1 cl2 H1 H2 H3 H4 H5 H6) as [Hs2 Hg].
    rewrite (asked_unsequenced it1 l1 H4) in Hg. by destruct Hg. }
  assert (expr_value S v exp (item_value S it seq (map v sl))) as Hexp.
  { intros it' [= <-]. split; [apply Hitsl|done]. }
  destruct (if isDeterministic it then _ else _) as [[x|]| |] eqn:Ef; cbn [mbind Result_bind]; try discriminate.
  { intros [= <- <-]. split; [exact Hs|]. split; [|destruct (is_sequenced it); [by left|apply grows_refl]].
    intros Hq. destruct (isDeterministic it); [|discriminate Ef].
    destruct (set_find_spec (m_expressions cl) exp) as (r & Hr & Hx); [done|by eapply exprs_items|].
    rewrite Hr in Ef. cbn in Ef. injection Ef as ->. destruct Hx as (Hin & H1 & H2).
    destruct (con_exprs _ _ _ Hc x Hin) as ([it' Hit'] & _).
    destruct (expr_ltb_trichotomy x exp it' it Hit' eq_refl H1 H2) as (Heqb & Ha & Hseq).
    destruct (sh_expr cl Hs x it' Hin Hit') as (r & Hrep & (ri & H3 & H4 & H5 & H6)); [by rewrite (item_eqb_kept _ _ Heqb)|].
    exists r. split; [exact Hrep|]. exists ri. rewrite H5, H6, Ha, Hseq. cbn. rewrite (Hslq Hq).
    split; [done|]. split; [by eapply item_eqb_trans|done]. }
  pose proof (Htry (find fuel t 0) cl v exp it (item_value S it seq (map v sl))) as Htry'.
  pose proof (Hsimp (find fuel t 0) cl v exp it _ (Hsound fuel 0) Hc eq_refl Hsl Hexp) as Hok.
  destruct (tryToSimplify (find fuel t 0) t cl exp) as [[oi cl1]| |] eqn:E; cbn [mbind Result_bind]; try discriminate.
  destruct (Htry' oi cl1 (Hsound fuel 0) Hfs Hc Hs eq_refl Hsl Hexp eq_refl) as (Hs1 & Hg1 & Hnone). clear Htry' Htry Hsimp.
  assert (classes_size cl <= classes_size cl1) as Hsize.
  { destruct Hg1 as (new & Hg1 & _). unfold classes_size. rewrite Hg1, length_app. lia. }
  set (e0 := mkExpression (classes_size cl1) (Some it) sl seq).
  set (pr := match oi with Some i => _ | None => _ end).
  assert (pr = (classes_size cl1, m_representatives cl1 ++ [e0]) \/
    (exists i0, oi = Some i0 /\ pr = (i0, m_representatives cl1))) as Hpr.
  { unfold pr. destruct oi as [i0|]; [|by left]. destruct (i0 <? classes_size cl1); [right; by exists i0|by left]. }
  clearbody pr. destruct pr as [i2 reps2]. destruct (set_insert _ _) as [exprs|] eqn:Ei; cbn [lift mbind Result_bind]; [|discriminate].
  intros [= <- <-]. destruct Hpr as [[= -> ->]|(i0 & -> & [= -> ->])].
  - assert (shape (mkClasses (m_representatives cl1 ++ [e0]) (m_expressions cl1))) as Hs2.
    { apply shape_fresh; [exact Hs1|by apply asked_sort|]. eapply Forall_impl; [exact Hsl|]. cbn. lia. }
    assert (represents e0 it seq sl) as He0 by apply represents_refl.
    split.
    { apply (shape_insert (mkClasses (m_representatives cl1 ++ [e0]) (m_expressions cl1)) (classes_size cl1) it sl seq);
        [exact Hs2| |exact Ei].
      intros _. exists e0. split; [apply representative_fresh|exact He0]. }
    split; [intros Hq; exists e0; cbn [m_representatives]; split; [apply representative_fresh|by rewrite <- (Hslq Hq)]|].
    destruct (is_sequenced it) eqn:Hq.
    + specialize (Hnone (sequenced_kept _ Hq)) as ->. cbn in Hok. subst cl1. right. split; [done|]. by exists e0.
    + destruct Hg1 as (new & Hnew & Hz). exists (new ++ [e0]). cbn [m_representatives]. rewrite Hnew, app_assoc.
      split; [done|]. apply Forall_app_2; [exact Hz|]. constructor; [|constructor]. by apply (asked_plain it seq l).
  - assert (is_kept it = false) as Hq.
    { destruct (is_kept it); [|done]. discriminate (Hnone eq_refl). }
    assert (is_sequenced it = false) as Hsq.
    { destruct (is_sequenced it) eqn:E2; [|done]. by rewrite (sequenced_kept _ E2) in Hq. }
    rewrite Hq, Hsq. split; [|split; [done|exact Hg1]].
    apply (shape_insert cl1 i0 it sl seq); [exact Hs1|by rewrite Hq|exact Ei].
Qed.
End Shape.

Lemma newClass_shape cl loc i cl' : shape cl -> newClass cl loc = Some (i, cl') -> shape cl' /\ grows cl cl'.
Proof.
  intros Hs Hn. unfold newClass in Hn.
  set (it := dataItem UndefinedItem (u256_add (u256_shl 1 255) (classes_size cl)) loc) in Hn.
  destruct (set_insert _ _) as [exprs|] eqn:E; [|discriminate Hn]. cbn [mbind option_bind] in Hn. injection Hn as <- <-.
  split; [|eexists; split; [reflexivity|by repeat constructor]].
  pose proof (shape_fresh cl it [] 0 Hs (conj eq_refl eq_refl) (Forall_nil_2 _)) as Hs2.
  apply (shape_insert _ (classes_size cl) it [] 0 exprs Hs2); [|exact E].
  intros _. eexists. split; [apply representative_fresh|apply represents_refl].
Qed.

Lemma grows_lookup cl cl' i e :
  grows cl cl' -> m_representatives cl' !! i = Some e -> m_representatives cl !! i = Some e \/ sequenceNumber e = 0.
Proof.
  intros (new & -> & Hz) Hl. apply lookup_app_Some in Hl as [Hl|[_ Hl]]; [by left|right].
  by apply (Forall_lookup_1 _ _ _ _ Hz Hl).
Qed.
