(* ===== verification/ClassQueries.v ===== *)
(** * ClassQueries: the operations of ExpressionClasses, with enough fuel

    The result of [find] does not depend on the fuel once it returns, so the operations
    that call it several times return with any fuel that is large enough.  [answers] says
    so, and what is true of the answer and of the classes after it; operations are
    composed with [answers_bind]. *)

From S2P Require Import Prelude U256 CommonData Instruction AssemblyItem SemanticInformation Interpreter Pattern RuleList SimplificationRules ExpressionClasses RuleSound MatchSound ClassSound WordClasses RuleWeight ClassTotal ClassShape.

#[local] Opaque ruleSet Rules.

(** ** Fuel *)

Section Mono.
Context (f f' : ExpressionClasses -> AssemblyItem -> list Z -> Result (Z * ExpressionClasses))
  (f_le : forall cl it l r, f cl it l = Ret r -> f' cl it l = Ret r).

Lemma rebuildAll_mono l :
  Forall (fun t => forall cl r, rebuildExpression f cl t = Ret r -> rebuildExpression f' cl t = Ret r) l ->
  forall cl r, rebuildAll f l cl = Ret r -> rebuildAll f' l cl = Ret r.
Proof using.
  induction 1 as [|t l Ht _ IH]; intros cl r; [done|]. cbn [rebuildAll].
  destruct (rebuildExpression f cl t) as [[a cl1]| |] eqn:E; [|done..]. rewrite (Ht _ _ E).
  cbn [mbind Result_bind]. destruct (rebuildAll f l cl1) as [[ids cl2]| |] eqn:E2; [|done..].
  by rewrite (IH _ _ E2).
Qed.

Lemma rebuildExpression_mono t : forall cl r,
  rebuildExpression f cl t = Ret r -> rebuildExpression f' cl t = Ret r.
Proof using f_le.
  induction t as [h i it l IH] using template_ind_args. intros cl r. rewrite !rebuildExpression_eq.
  destruct h; [done|]. destruct (rebuildAll f l cl) as [[ids cl1]| |] eqn:E; [|done..].
  rewrite (rebuildAll_mono l IH _ _ E). apply f_le.
Qed.

Lemma tryToSimplify_mono t cl e r : tryToSimplify f t cl e = Ret r -> tryToSimplify f' t cl e = Ret r.
Proof using f_le.
  unfold tryToSimplify. destruct (lift (assertThrow (isInitialized t))); cbn [mbind Result_bind]; [|done..].
  destruct (item e) as [it|]; [|done]. destruct (_ || _); [done|].
  destruct (lift (findFirstMatch t (m_representatives cl) e)) as [[[ru m]|]| |]; cbn [mbind Result_bind]; [|done..].
  destruct (lift (action ru m)) as [p| |]; cbn [mbind Result_bind]; [|done..].
  destruct (lift (expressionTemplate m p (m_location it))) as [tm| |]; cbn [mbind Result_bind]; [|done..].
  destruct (rebuildExpression f cl tm) as [[i cl1]| |] eqn:E; [|done..].
  by rewrite (rebuildExpression_mono _ _ _ E).
Qed.
End Mono.

Lemma find_mono t n : forall m seq cl it l r,
  find n t seq cl it l = Ret r -> (n <= m)%nat -> find m t seq cl it l = Ret r.
Proof.
  induction n as [|n IH]; intros [|m] seq cl it l r; [done|done|lia|]. intros Hf Hm. cbn [find] in *.
  destruct (if isDeterministic it then _ else _) as [[e|]| |]; cbn [mbind Result_bind] in *; [done| |done..].
  destruct (tryToSimplify (find n t 0) t cl _) as [[i cl1]| |] eqn:E; [|done..].
  rewrite (tryToSimplify_mono _ (find m t 0) (fun cl it l r H => IH m 0 cl it l r H ltac:(lia)) _ _ _ _ E).
  exact Hf.
Qed.

(** The result with any fuel that is large enough. *)
Definition eventually {A} (m : nat -> Result A) (a : A) : Prop :=
  exists n, forall fuel, (n <= fuel)%nat -> m fuel = Ret a.

Lemma eventually_ret {A} (a : A) : eventually (fun _ => Ret a) a.
Proof. by exists 0%nat. Qed.

Lemma eventually_find t seq cl it l n r :
  find n t seq cl it l = Ret r -> eventually (fun fuel => find fuel t seq cl it l) r.
Proof. intros H. exists n. intros fuel Hf. by eapply find_mono. Qed.

(** ** Queries that do not call [find] *)

Lemma matchesClass_total cl μ p _c :
  consistent weightSemantics cl μ -> template_ok [] p -> 0 <= _c < classes_size cl ->
  exists b, matchesClass cl p _c = Some b.
Proof.
  intros Hc Hp Hin. unfold matchesClass.
  destruct (representative (m_representatives cl) _c) as [e|] eqn:He; [|by apply representative_None in He].
  cbn [mbind option_bind].
  destruct (representative_rep _ _ _ _ _ (con_value _ _ _ Hc) He) as (Hr & _ & Hev).
  pose proof (con_closed _ _ _ Hc) as Hcl. unfold closed in Hcl. rewrite List.Forall_forall in Hcl.
  pose proof (matches_total weightSemantics _ _ [] p (con_closed _ _ _ Hc) (con_value _ _ _ Hc) Hp e ∅ _ Hev
    (Hcl e Hr)) as Hm.
  destruct (matches _ p e ∅) as [[ok m]|]; [by exists ok|done].
Qed.

(** A constant is read without throwing. *)
Lemma knownConstant_total cl μ _c :
  consistent weightSemantics cl μ -> 0 <= _c < classes_size cl -> exists o, knownConstant cl _c = Some o.
Proof.
  intros Hc Hin. unfold knownConstant.
  destruct (representative (m_representatives cl) _c) as [e|] eqn:He; [|by apply representative_None in He].
  cbn [mbind option_bind].
  destruct (representative_rep _ _ _ _ _ (con_value _ _ _ Hc) He) as (Hr & _ & _).
  pose proof (con_items _ _ _ Hc) as Hits. rewrite List.Forall_forall in Hits.
  destruct (Hits e Hr) as [it Hit].
  change (setMatchGroup 1 (PType Push)) with (mkPattern Push false STOP None [] 1).
  rewrite matches_eq, Hit. unfold matchesBaseItem. cbn [p_type p_requireDataMatch].
  rewrite bool_decide_eq_false_2 by done.
  destruct (bool_decide_reflect (Push = m_type it)) as [Ht|]; cbn [negb mbind option_bind]; [|by eexists].
  rewrite bool_decide_eq_false_2 by done. cbn [mbind option_bind negb matchGroup Nat.eqb].
  rewrite lookup_empty. cbn [negb length Nat.eqb orb assertThrow mbind option_bind matchesAll].
  unfold d, matchGroupValue. cbn [p_matchGroup]. simpl. rewrite lookup_insert_eq. simpl. rewrite Hit. simpl.
  rewrite <- Ht. by eexists.
Qed.

(** The rules of the repository; the equation is hidden from proof search, which would
    compute them. *)
Record valid_rules (t : RuleTable) : Prop := { rules_eq : Rules = Some t }.

Section Words.
Context (op : Instruction -> list Z -> Z) `{!WordSemantics op}
  (seqop : Z -> Instruction -> list Z -> Z) (pushed : AssemblyItemType -> Z -> Z)
  (seqop_pure : forall s i l, readsState i = false -> seqop s i l = op i l)
  (seqop_range : forall s i l, Forall is_u256 l -> is_u256 (seqop s i l))
  (pushed_range : forall t x, is_u256 (pushed t x)).
Context (t : RuleTable) (rules : valid_rules t).
Local Abbreviation S := (wordSemantics op seqop pushed).
Local Abbreviation laws := (wordSemantics_laws op seqop pushed seqop_pure seqop_range pushed_range).

(** The values [v] are those of the classes, the recursion of the simplifier on them ends, and
    they can be generated from. *)
Definition known (cl : ExpressionClasses) (v : Z -> Z) : Prop :=
  consistent S cl v /\ (exists μ, consistent weightSemantics cl μ) /\ shape cl.

Definition in_range (cl : ExpressionClasses) (i : Z) : Prop := 0 <= i < classes_size cl.

Lemma known_word cl v i : known cl v -> is_u256 (v i).
Proof using. intros [Hc _]. apply (cv_range _ _ _ (con_value _ _ _ Hc)). Qed.

Lemma empty_known : known (mkClasses [] []) (fun _ => 0).
Proof using WordSemantics0 seqop_pure seqop_range pushed_range.
  pose proof laws. split; [by apply (empty_consistent S)|]. split; [eexists; apply empty_consistent, _|apply shape_empty].
Qed.

Lemma extends_in_range cl cl' v v' i : extends cl cl' v v' -> in_range cl i -> in_range cl' i.
Proof using. intros [H _]. unfold in_range. lia. Qed.

(** With enough fuel the operation returns, and what it returns satisfies [Q]. *)
Definition answers {A} (m : nat -> ExpressionClasses -> Result (A * ExpressionClasses))
    (cl : ExpressionClasses) (v : Z -> Z) (Q : A -> ExpressionClasses -> (Z -> Z) -> Prop) : Prop :=
  exists a cl' v', eventually (fun n => m n cl) (a, cl') /\ known cl' v' /\ extends cl cl' v v' /\
    grows cl cl' /\ Q a cl' v'.

Lemma answers_ret {A} (a : A) cl v Q : known cl v -> Q a cl v -> answers (fun _ cl => Ret (a, cl)) cl v Q.
Proof using.
  intros Hk HQ. exists a, cl, v. split; [apply eventually_ret|]. split; [done|]. split; [apply extends_refl|].
  split; [apply grows_refl|done].
Qed.

Lemma answers_bind {A B} m (k : nat -> A -> ExpressionClasses -> Result (B * ExpressionClasses)) cl v Q R :
  answers m cl v Q ->
  (forall a cl' v', known cl' v' -> extends cl cl' v v' -> Q a cl' v' -> answers (fun n => k n a) cl' v' R) ->
  answers (fun n cl => '(a, cl) ← m n cl; k n a cl) cl v R.
Proof using.
  intros (a & cl1 & v1 & [n Hn] & Hk & He & Hg & HQ) H.
  destruct (H a cl1 v1 Hk He HQ) as (b & cl2 & v2 & [n' Hn'] & Hk' & He' & Hg' & HR).
  exists b, cl2, v2. split; [|split; [done|split; [by eapply extends_trans|split; [by eapply grows_trans|done]]]].
  exists (n + n')%nat. intros fuel Hf. rewrite Hn by lia. cbn [mbind Result_bind]. apply Hn'. lia.
Qed.

Lemma answers_mono {A} (m : nat -> ExpressionClasses -> Result (A * ExpressionClasses)) cl v (Q R : A -> ExpressionClasses -> (Z -> Z) -> Prop) :
  answers m cl v Q ->
  (forall a cl' v', known cl' v' -> extends cl cl' v v' -> Q a cl' v' -> R a cl' v') -> answers m cl v R.
Proof using. intros (a & cl' & v' & Hm & Hk & He & Hg & HQ) H. exists a, cl', v'. auto 10. Qed.

Lemma find_known cl v seq it l :
  known cl v -> item_ok it (length l) -> asked it seq l -> Forall (in_range cl) l ->
  exists i cl' v', eventually (fun n => find n t seq cl it l) (i, cl') /\ known cl' v' /\ extends cl cl' v v' /\
    in_range cl' i /\ v' i = item_value S it seq (map v l) /\
    (is_kept it = true -> represented cl' i it seq l) /\
    if is_sequenced it then at_most_added cl cl' i else grows cl cl'.
Proof using All.
  intros (Hc & [μ Hμ] & Hs) Hit Ha Hl. destruct rules as [Ht].
  set (fuel := Z.to_nat (item_value weightSemantics it seq (map μ l))).
  destruct (find_returns t fuel seq cl it l μ Ht Hμ Hit Hl) as (i & cl' & μ' & Hf & Hμ' & _); [unfold fuel; lia|].
  destruct (find_shape weightSemantics t fuel Ht seq cl it l μ i cl' Hμ Hs Hit Ha Hl Hf) as [Hs' Hadd].
  pose proof (@find_sound S laws t fuel Ht seq cl it l v Hc Hit Hl) as Hok. clear Ht. rewrite Hf in Hok.
  destruct Hok as (v' & Hc' & He & Hi & Hv). exists i, cl', v'.
  split; [by eapply eventually_find|]. split; [split; [exact Hc'|split; [by exists μ'|exact Hs']]|].
  split; [done|]. split; [exact Hi|]. by split.
Qed.

Lemma find_answers cl v it l :
  known cl v -> item_ok it (length l) -> asked it 0 l -> Forall (in_range cl) l ->
  answers (fun n cl => find n t 0 cl it l) cl v
    (fun i cl' v' => in_range cl' i /\ v' i = item_value S it 0 (map v l)).
Proof using All.
  intros Hk Hit Ha Hl. destruct (find_known cl v 0 it l Hk Hit Ha Hl) as (i & cl' & v' & Hf & Hk' & He & Hi & Hv & _ & Hg).
  rewrite (asked_unsequenced it l Ha) in Hg. exists i, cl', v'. auto 10.
Qed.

(** An instruction on classes, at sequence number 0. *)
Lemma op_answers cl v i loc l :
  known cl v -> plain i = true -> length l = args (instructionInfo i) -> Forall (in_range cl) l ->
  answers (fun n cl => find n t 0 cl (opItem i loc) l) cl v
    (fun r cl' v' => in_range cl' r /\ v' r = op i (map v l)).
Proof using All.
  intros Hk Hp Hn Hl. eapply answers_mono; [apply find_answers; [done|done| |done]|].
  - unfold asked. cbn [m_type opItem m_instruction]. by rewrite (plain_sequenced i Hp).
  - intros r cl' v' _ _ [Hi ->]. split; [done|]. by apply seqop_pure, plain_reads.
Qed.

Lemma constant_answers cl v x loc :
  known cl v -> is_u256 x ->
  answers (fun n cl => find n t 0 cl (dataItem Push x loc) []) cl v
    (fun r cl' v' => in_range cl' r /\ v' r = x).
Proof using All. intros Hk Hx. by apply find_answers; [|split|split|constructor]. Qed.

Lemma matchesClass_answers cl v x c :
  known cl v -> is_u256 x -> in_range cl c ->
  exists b, matchesClass cl (Word x) c = Some b /\ (b = true -> v c = x).
Proof using All.
  intros (Hc & [μ Hμ] & Hs) Hx Hi. destruct (matchesClass_total cl μ (Word x) c Hμ (Word_ok x) Hi) as [b Hb].
  exists b. split; [done|]. intros Hb'.
  rewrite <- (matchesClass_ok op seqop pushed seqop_pure seqop_range pushed_range cl v (Word x) c b Hc
    (Word_ok x) eq_refl Hb Hb'). by apply u256_id.
Qed.

Lemma knownConstant_answers cl v c :
  known cl v -> in_range cl c ->
  exists o, knownConstant cl c = Some o /\ (forall x, o = Some x -> v c = x).
Proof using All.
  intros (Hc & [μ Hμ] & Hs) Hi. destruct (knownConstant_total cl μ c Hμ Hi) as [o Ho]. exists o. split; [done|].
  intros x ->. by apply (knownConstant_value op seqop pushed seqop_pure seqop_range pushed_range cl).
Qed.

Lemma newClass_answers cl v loc :
  known cl v -> exists i cl' v', newClass cl loc = Some (i, cl') /\ known cl' v' /\ extends cl cl' v v' /\
    i = classes_size cl /\ in_range cl' i.
Proof using All.
  intros (Hc & [μ Hμ] & Hs). destruct (@newClass_ok S laws cl v loc Hc) as (i & cl' & v' & Hn & Hc' & He & Hi & Hlt).
  destruct (newClass_ok weightSemantics cl μ loc Hμ) as (j & cl2 & μ' & Hn' & Hμ' & _).
  assert (cl2 = cl') as -> by congruence. exists i, cl', v'. split; [done|].
  destruct (newClass_shape cl loc i cl' Hs Hn) as [Hs' _].
  split; [split; [exact Hc'|split; [by exists μ'|exact Hs']]|]. split; [done|]. split; [done|]. unfold in_range. rewrite Hi in *.
  unfold classes_size in *. lia.
Qed.

Lemma knownNonZero_answers cl v c :
  known cl v -> in_range cl c ->
  answers (fun n cl => knownNonZero n t cl c) cl v (fun b _ _ => b = true -> v c <> 0).
Proof using All.
  intros Hk Hi. unfold knownNonZero. eapply answers_bind; [by apply op_answers; [..|apply Forall_singleton]|].
  intros i cl' v' Hk' _ [Hi' Hv]. destruct (matchesClass_answers cl' v' 0 i Hk' is_u256_0 Hi') as (b & Hb & Hb').
  exists b, cl', v'. split; [|split; [done|split; [apply extends_refl|split; [apply grows_refl|]]]].
  - exists 0%nat. intros fuel _. by rewrite Hb.
  - intros ->. specialize (Hb' eq_refl). rewrite Hv in Hb'. intros H0. simpl in Hb'.
    rewrite H0 in Hb'. rewrite op_ISZERO in Hb' by (assumption || apply is_u256_0). done.
Qed.

Lemma knownToBeDifferent_answers cl v a b :
  known cl v -> in_range cl a -> in_range cl b ->
  answers (fun n cl => knownToBeDifferent n t cl a b) cl v (fun d _ _ => d = true -> v a <> v b).
Proof using All.
  intros Hk Ha Hb. unfold knownToBeDifferent.
  eapply answers_bind; [apply op_answers; [done..|by repeat constructor; apply Ha || apply Hb]|].
  intros i cl' v' Hk' _ [Hi' Hv]. eapply answers_mono; [by apply knownNonZero_answers|].
  intros d cl2 v2 _ _ Hd Ht Heq. apply (Hd Ht). rewrite Hv. simpl. rewrite Heq.
  rewrite op_SUB by (assumption || by eapply known_word). unfold u256_sub. by rewrite Z.sub_diag.
Qed.

Lemma knownToBeDifferentBy32_answers cl v a b :
  known cl v -> in_range cl a -> in_range cl b ->
  answers (fun n cl => knownToBeDifferentBy32 n t cl a b) cl v
    (fun d _ _ => d = true -> 32 <= u256_sub (v a) (v b) <= modulus - 32).
Proof using All.
  intros Hk Ha Hb. pose proof Hk as [Hc _]. pose proof rules as [Ht].
  assert (answers (fun n cl => knownToBeDifferentBy32 n t cl a b) cl v (fun _ _ _ => True))
    as (d & cl' & v' & [n Hn] & Hk' & He & Hg & _).
  { clear Ht. unfold knownToBeDifferentBy32.
    eapply answers_bind; [apply op_answers; [done..|by repeat constructor; apply Ha || apply Hb]|].
    intros i cl' v' Hk' _ [Hi' _]. destruct (knownConstant_answers cl' v' i Hk' Hi') as (o & Ho & _).
    eexists _, cl', v'. split; [exists 0%nat; intros fuel _; by rewrite Ho|].
    split; [done|]. split; [apply extends_refl|]. split; [apply grows_refl|done]. }
  exists d, cl', v'. split; [by exists n|]. split; [done|]. split; [done|]. split; [done|]. intros ->.
  specialize (Hn n (le_n n)). cbn beta in Hn.
  exact (knownToBeDifferentBy32_distance op seqop pushed seqop_pure seqop_range pushed_range t n cl v a b cl'
    Ht Hc Ha Hb Hn).
Qed.
End Words.
