(* ===== verification/StateWorld.v ===== *)
(** * StateWorld: storage and memory of the machine

    The interface a world offers to the analyses that follow storage and memory: the
    words of the storage, the bytes of the memory, and what SLOAD, SSTORE, MLOAD, MSTORE
    and KECCAK256 do with them.  Two worlds are the [same] when these agree and the other
    instructions without side effects return the same values; the size of the memory,
    which reading also changes, is not compared. *)

From S2P Require Import Prelude U256 CommonData Instruction AssemblyItem SemanticInformation Interpreter RuleSound Machine.

(** ** Bytes and words of a memory *)

(** [n] bytes from an address on; addresses wrap. *)
Definition readBytes (m : Z -> Z) (a : Z) (n : nat) : list Z :=
  map (fun i => m (u256_add a (Z.of_nat i))) (seq 0 n).

Definition readWord (m : Z -> Z) (a : Z) : Z := fromBigEndian (readBytes m a 32).

(** The memory after a word is written at an address. *)
Definition writeWord (m : Z -> Z) (a x : Z) : Z -> Z := fun p =>
  if u256_sub p a <? 32 then nth_def (toBigEndian 32 x) (Z.to_nat (u256_sub p a)) 0 else m p.

(** Memories with the same bytes at every address. *)
Definition mem_eq (m m' : Z -> Z) : Prop := forall p, is_u256 p -> m p = m' p.

#[export] Instance mem_eq_equivalence : Equivalence mem_eq.
Proof.
  split.
  - by intros m p.
  - intros m m' H p Hp. symmetry. by apply H.
  - intros m m' m'' H H' p Hp. by rewrite H, H'.
Qed.

#[export] Instance readBytes_proper : Proper (mem_eq ==> eq ==> eq ==> eq) readBytes.
Proof.
  intros m m' H a _ <- n _ <-. unfold readBytes. apply map_ext. intros i. apply H, u256_range.
Qed.

#[export] Instance readWord_proper : Proper (mem_eq ==> eq ==> eq) readWord.
Proof. intros m m' H a _ <-. unfold readWord. by rewrite H. Qed.

Definition bytes_ok (m : Z -> Z) : Prop := forall p, is_byte (m p).

Lemma readBytes_length m a n : length (readBytes m a n) = n.
Proof. unfold readBytes. by rewrite length_map, length_seq. Qed.

Lemma readBytes_bytes m a n : bytes_ok m -> is_bytes (readBytes m a n).
Proof. intros H. apply Forall_map, List.Forall_forall. intros i _. apply H. Qed.

Lemma readWord_word m a : bytes_ok m -> is_u256 (readWord m a).
Proof.
  intros H. unfold readWord. pose proof (readBytes_bytes m a 32 H) as Hb.
  rewrite fromBigEndian_value by (done || by rewrite readBytes_length).
  pose proof (be_value_bound _ Hb) as Hv. rewrite readBytes_length in Hv. exact Hv.
Qed.

(** The bytes of the word read. *)
Lemma readWord_bytes m a : bytes_ok m -> toBigEndian 32 (readWord m a) = readBytes m a 32.
Proof.
  intros H. unfold readWord. pose proof (toBigEndian_fromBigEndian (readBytes m a 32)) as Hr.
  rewrite readBytes_length in Hr. apply Hr; [by apply readBytes_bytes|done].
Qed.

Lemma u256_sub_add a i : u256_sub (u256_add a i) a = u256 i.
Proof. unfold u256_sub, u256_add, u256. rewrite Zminus_mod_idemp_l. f_equal. lia. Qed.

Lemma map_nth_seq (l : list Z) : map (fun i => nth_def l i 0) (seq 0 (length l)) = l.
Proof.
  apply list_eq. intros i. rewrite list_lookup_fmap. destruct (decide (i < length l)%nat) as [Hi|Hi].
  - rewrite lookup_seq_lt by done. simpl. symmetry. unfold nth_def. rewrite nth_lookup.
    destruct (lookup_lt_is_Some_2 l i Hi) as [x ->]. done.
  - rewrite lookup_seq_ge by lia. simpl. symmetry. apply lookup_ge_None. lia.
Qed.

Lemma readBytes_write m a x : readBytes (writeWord m a x) a 32 = toBigEndian 32 x.
Proof.
  rewrite <- (map_nth_seq (toBigEndian 32 x)), toBigEndian_length. unfold readBytes.
  apply map_ext_in. intros i Hi. apply in_seq in Hi. unfold writeWord.
  rewrite u256_sub_add, u256_id by (apply u256_small; lia). destruct (Z.ltb_spec (Z.of_nat i) 32); [|lia].
  by rewrite Nat2Z.id.
Qed.

(** Reading where a word was written gives the word. *)
Lemma readWord_write m a x : is_u256 x -> readWord (writeWord m a x) a = x.
Proof.
  intros Hx. unfold readWord. rewrite readBytes_write. apply fromBigEndian_toBigEndian; [lia|apply Hx].
Qed.

(** A word 32 bytes away or further, in both directions, is not changed. *)
Lemma readWord_write_far m a b x :
  32 <= u256_sub b a <= modulus - 32 -> readWord (writeWord m a x) b = readWord m b.
Proof.
  intros Hd. unfold readWord. f_equal. unfold readBytes. apply map_ext_in. intros i Hi.
  apply in_seq in Hi. unfold writeWord. destruct (Z.ltb_spec (u256_sub (u256_add b (Z.of_nat i)) a) 32); [|done].
  exfalso. assert (u256_sub (u256_add b (Z.of_nat i)) a = u256_sub b a + Z.of_nat i) as He.
  { unfold u256_sub, u256_add, u256 in *. rewrite Zminus_mod_idemp_l.
    replace (b + Z.of_nat i - a) with ((b - a) + Z.of_nat i) by lia.
    rewrite <- Zplus_mod_idemp_l. apply Z.mod_small. lia. }
  lia.
Qed.

(** Writing the word that is there changes nothing. *)
Lemma writeWord_known m a x : bytes_ok m -> is_u256 a -> readWord m a = x -> mem_eq (writeWord m a x) m.
Proof.
  intros Hm Ha <- p Hp. unfold writeWord. destruct (Z.ltb_spec (u256_sub p a) 32); [|done].
  pose proof (u256_range (p - a)) as Hr. unfold u256_sub, is_u256 in *.
  rewrite readWord_bytes by done. unfold nth_def, readBytes. rewrite nth_lookup, list_lookup_fmap.
  rewrite lookup_seq_lt by lia. simpl. f_equal. rewrite Z2Nat.id by lia.
  unfold u256_add, u256. rewrite Zplus_mod_idemp_r. rewrite Z.mod_small; lia.
Qed.

Lemma writeWord_bytes m a x : bytes_ok m -> bytes_ok (writeWord m a x).
Proof.
  intros Hm p. unfold writeWord. destruct (_ <? 32); [|apply Hm].
  unfold nth_def. pose proof (toBigEndian_bytes 32 x) as Hb. unfold is_bytes in Hb.
  rewrite List.Forall_forall in Hb.
  destruct (nth_in_or_default (Z.to_nat (u256_sub p a)) (toBigEndian 32 x) 0) as [Hin| ->]; [by apply Hb|done].
Qed.

(** A whole number of words, read word by word. *)
Lemma readBytes_words m a n :
  bytes_ok m ->
  readBytes m a (32 * n) =
  concat (map (fun i => toBigEndian 32 (readWord m (u256_add a (32 * Z.of_nat i)))) (seq 0 n)).
Proof.
  intros Hm. induction n as [|n IH]; [done|].
  rewrite seq_S, map_app, concat_app, <- IH. cbn [map concat]. rewrite app_nil_r, readWord_bytes by done.
  unfold readBytes. replace (32 * S n)%nat with (32 * n + 32)%nat by lia.
  rewrite seq_app, map_app. f_equal. rewrite Nat.add_0_l.
  pose proof (fmap_add_seq (32 * n) 0 32) as Hs. rewrite Nat.add_0_r in Hs. rewrite <- Hs. clear Hs.
  unfold fmap. rewrite map_map. apply map_ext. intros i. f_equal.
  unfold u256_add, u256. rewrite Zplus_mod_idemp_l. f_equal. lia.
Qed.

(** ** The interface *)

(** The worlds a run goes through, their memory and storage. *)
Class StateWorld (W : Type) := {
  good : W -> Prop;
  mem : W -> Z -> Z;
  sto : W -> Z -> Z }.

Section Same.
Context {W H : Type} `{!World W H} `{!StateWorld W}.

(** The value an instruction returns. *)
Definition value (i : Instruction) (l : list Z) (w : W) : Z :=
  match perform i l w with inl ([v], _) => v | _ => 0 end.

Definition sto_eq (f g : Z -> Z) : Prop := forall k, is_u256 k -> f k = g k.

Definition same_environment (w w' : W) : Prop :=
  forall i l, environment i = true -> length l = args (instructionInfo i) -> Forall is_u256 l ->
    value i l w = value i l w'.

Record same (w w' : W) : Prop := {
  same_mem : mem_eq (mem w) (mem w');
  same_sto : sto_eq (sto w) (sto w');
  same_env : same_environment w w' }.

#[export] Instance sto_eq_equivalence : Equivalence sto_eq.
Proof using.
  split.
  - by intros f k.
  - intros f g E k Hk. symmetry. by apply E.
  - intros f g h E E' k Hk. by rewrite E, E'.
Qed.

#[export] Instance same_environment_equivalence : Equivalence same_environment.
Proof using.
  split.
  - by intros w i l.
  - intros w w' E i l Hi Hn Hl. symmetry. by apply E.
  - intros w w' w'' E E' i l Hi Hn Hl. by rewrite E, E'.
Qed.

#[export] Instance same_equivalence : Equivalence same.
Proof using.
  split.
  - intros w. split; reflexivity.
  - intros w w' [? ? ?]. split; by symmetry.
  - intros w w' w'' [? ? ?] [? ? ?]. split; by etrans.
Qed.
End Same.

(** What the instructions on storage and memory do.  The hash is that of the bytes up to 128
    of them, and it only depends on the bytes; that of more than 2^255 bytes, for which there
    is no gas, does not depend on memory.  None of them ends the execution, as gas is not
    modelled. *)
Class StateLaws (W H : Type) `{World W H} `{StateWorld W} (keccak256 : list Z -> Z) : Prop := {
  good_mem w : good w -> bytes_ok (mem w);
  good_sto w k : good w -> is_u256 (sto w k);
  law_sload k w : good w -> is_u256 k -> perform SLOAD [k] w = inl ([sto w k], w);
  law_mload a w r w' : good w -> is_u256 a -> perform MLOAD [a] w = inl (r, w') ->
    r = [readWord (mem w) a] /\ good w' /\ same w w';
  law_keccak a n w r w' :
    good w -> is_u256 a -> is_u256 n -> perform KECCAK256 [a; n] w = inl (r, w') ->
    good w' /\ same w w' /\
    (n <= 128 -> r = [u256 (keccak256 (readBytes (mem w) a (Z.to_nat n)))]);
  law_hash a n w w' : is_u256 a -> is_u256 n ->
    (n <= 2 ^ 255 -> readBytes (mem w) a (Z.to_nat n) = readBytes (mem w') a (Z.to_nat n)) ->
    value KECCAK256 [a; n] w = value KECCAK256 [a; n] w';
  law_goes_on i l w : good w -> In i [MLOAD; KECCAK256; SSTORE; MSTORE] ->
    length l = args (instructionInfo i) -> Forall is_u256 l -> exists r w', perform i l w = inl (r, w');
  law_sstore k x w r w' :
    good w -> is_u256 k -> is_u256 x -> perform SSTORE [k; x] w = inl (r, w') ->
    good w' /\ mem_eq (mem w') (mem w) /\ same_environment w w' /\
    sto_eq (sto w') (fun k' => if k' =? k then x else sto w k');
  law_mstore a x w r w' :
    good w -> is_u256 a -> is_u256 x -> perform MSTORE [a; x] w = inl (r, w') ->
    good w' /\ mem_eq (mem w') (writeWord (mem w) a x) /\ same_environment w w' /\
    sto_eq (sto w') (sto w);
  law_address i w :
    good w -> In i [ADDRESS; CALLER; ORIGIN; COINBASE] -> value i [] w < 2 ^ 160;
  law_selfbalance w : good w -> value BALANCE [value ADDRESS [] w] w = value SELFBALANCE [] w }.

(** ** The interpreter's values of a block *)

Section Block.
Context {W H : Type} `{!World W H} `{!WorldLaws W H} `{!StateWorld W} {keccak256 : list Z -> Z}
  `{!StateLaws W H keccak256}.

(** The value of an instruction in the world a block starts with; the instructions that do not
    only read the environment are given the value 0. *)
Definition blockOp (w0 : W) (i : Instruction) (l : list Z) : Z :=
  match eval_arith i l with
  | Some v => v
  | None => if environment i && Nat.eqb (length l) (args (instructionInfo i)) then value i l w0 else 0
  end.

(** The value at a sequence number, where [ω] are the worlds at sequence numbers. *)
Definition blockSeqop (w0 : W) (ω : Z -> W) (s : Z) (i : Instruction) (l : list Z) : Z :=
  match i, l with
  | SLOAD, [k] => sto (ω s) k
  | MLOAD, [a] => readWord (mem (ω s)) a
  | KECCAK256, [_; _] => value KECCAK256 l (ω s)
  | _, _ => blockOp w0 i l
  end.

(** The value of the pushes and of the elements of the stack the block starts with: the item
    [UndefinedItem] with the height [- n] as data is the element [n] from the top. *)
Definition blockPushed (st0 : list Z) (t : AssemblyItemType) (d : Z) : Z :=
  match t with
  | UndefinedItem => default 0 (st0 !! Z.to_nat (u256 (- d)))
  | PushTag => addr d
  | _ => Machine.pushed t d
  end.

Lemma value_word i l w : Forall is_u256 l -> is_u256 (value i l w).
Proof using WorldLaws0.
  intros Hl. unfold value. destruct (perform i l w) as [[[|v [|]] w']|] eqn:E; try apply is_u256_0.
  destruct (perform_result i l w _ w' E Hl) as [_ Hr]. by apply Forall_cons in Hr as [Hr _].
Qed.


Context (w0 : W) (st0 : list Z) (ω : Z -> W).
Context (good0 : good w0) (goodω : forall s, good (ω s)) (words0 : Forall is_u256 st0).

Lemma blockOp_range i l : Forall is_u256 l -> is_u256 (blockOp w0 i l).
Proof using WorldLaws0.
  intros Hl. unfold blockOp. destruct (eval_arith i l) as [v|] eqn:E; [by eapply eval_arith_range|].
  destruct (_ && _); [by apply value_word|apply is_u256_0].
Qed.

#[local] Instance blockOp_words : WordSemantics (blockOp w0).
Proof using WorldLaws0 StateLaws0 good0.
  split.
  - intros i l v _ E. unfold blockOp. by rewrite E.
  - intros i l. apply blockOp_range.
  - intros i l Hi Hl. unfold blockOp. destruct (eval_arith i l) as [v|] eqn:E.
    { by repeat destruct Hi as [<-|Hi]. }
    destruct (environment i && Nat.eqb (length l) (args (instructionInfo i))) eqn:Ha; [|done].
    apply andb_true_iff in Ha as [Hen Hn]. apply Nat.eqb_eq in Hn. simpl in Hi.
    destruct Hi as [<-|[<-|[<-|[<-|[<-|[<-|[]]]]]]]; try discriminate Hen;
      (destruct l; [|discriminate Hn]; apply law_address; simpl; tauto).
  - exact (law_selfbalance w0 good0).
Qed.

Lemma blockSeqop_pure s i l : readsState i = false -> blockSeqop w0 ω s i l = blockOp w0 i l.
Proof using. intros Hi. by destruct i. Qed.

Lemma blockSeqop_range s i l : Forall is_u256 l -> is_u256 (blockSeqop w0 ω s i l).
Proof using WorldLaws0 StateLaws0 goodω.
  intros Hl. pose proof (blockOp_range i l Hl) as Hr. unfold blockSeqop.
  destruct i; try exact Hr; destruct l as [|a [|b [|]]]; try exact Hr.
  - by apply value_word.
  - apply readWord_word, good_mem, goodω.
  - apply good_sto, goodω.
Qed.

Lemma blockPushed_range t d : is_u256 (blockPushed st0 t d).
Proof using WorldLaws0 words0.
  unfold blockPushed. destruct t; try apply pushed_range; [|apply addr_word].
  destruct (st0 !! _) as [x|] eqn:E; [|apply is_u256_0]. by eapply Forall_lookup_1 in E.
Qed.
End Block.
