(* ===== verification/InterpreterWorld.v ===== *)
(** * InterpreterWorld: the reference interpreter as a world of the machine

    The interpreter's state is a world: an instruction is evaluated by [eval]; what ends
    the execution is its outcome, and an instruction it does not implement has no
    effect.  The laws of the interface hold. It also is a world with storage and memory. *)

From S2P Require Import Prelude U256 CommonData Instruction AssemblyItem SemanticInformation Interpreter RuleSound Machine StateWorld.

Section Interpreter.
Context (keccak256 : list Z -> Z).

(** The values an instruction leaves: the value of [eval], repeated when the table
    lists several. *)
Definition results (i : Instruction) (v : Z) : list Z := replicate (ret (instructionInfo i)) (u256 v).

Definition interp_perform (i : Instruction) (l : list Z) (s : InterpreterState)
  : (list Z * InterpreterState) + (Stop * InterpreterState) :=
  match eval keccak256 i l s with
  | (inl v, s') =>
      if instr_terminatesControlFlow i then inr (ExplicitlyTerminated, s') else inl (results i v, s')
  | (inr AssertionFailed, s') =>
      if instr_terminatesControlFlow i then inr (AssertionFailed, s') else inl (results i 0, s)
  | (inr e, s') => inr (e, s')
  end.

#[local] Instance interpWorld : World InterpreterState (Stop * InterpreterState) := {
  perform := interp_perform;
  assign _ _ s := s;
  addr d := d mod 2 ^ 32;
  pushed _ d := u256 d }.

Lemma results_ok i v : length (results i v) = ret (instructionInfo i) /\ Forall is_u256 (results i v).
Proof. unfold results. split; [apply length_replicate|]. apply Forall_replicate, u256_range. Qed.

Lemma eval_arith_instruction i l v :
  eval_arith i l = Some v -> ret (instructionInfo i) = 1%nat /\ instr_terminatesControlFlow i = false.
Proof. intros H. destruct i; try discriminate H; done. Qed.

(** An instruction without side effects leaves the state alone. *)
Lemma eval_pure i l s :
  sideEffects (instructionInfo i) = false -> isStackInstruction i = false ->
  isSignalInstruction i = false -> length l = args (instructionInfo i) ->
  match eval keccak256 i l s with
  | (inl _, s') => s' = s
  | (inr e, _) => e = AssertionFailed
  end /\ instr_terminatesControlFlow i = false.
Proof.
  intros Hs Hst Hsig Hl. destruct (eval_arith i l) as [v|] eqn:Ha.
  - split; [|by eapply eval_arith_instruction]. unfold eval. rewrite Hl, Nat.eqb_refl, Ha. done.
  - unfold eval. rewrite Hl, Nat.eqb_refl, Ha. cbn [negb].
    destruct i; try discriminate Hs; try discriminate Hst; try discriminate Hsig;
      try (split; reflexivity);
      destruct l as [|a [|b [|c [|]]]]; try discriminate Hl; try discriminate Ha; split; reflexivity.
Qed.

Lemma interpWorld_laws : WorldLaws InterpreterState (Stop * InterpreterState).
Proof.
  split.
  - intros i l w r w' Hp Hl. cbn [perform interpWorld] in Hp. unfold interp_perform in Hp.
    destruct (eval keccak256 i l w) as [[v|[]] s']; try discriminate Hp;
      destruct (instr_terminatesControlFlow i); try discriminate Hp;
      injection Hp as <- <-; apply results_ok.
  - intros i l v w Hl Ha. cbn [perform interpWorld]. unfold interp_perform, eval.
    rewrite (eval_arith_args _ _ _ Ha), Nat.eqb_refl. cbn [negb]. rewrite Ha. cbn [mreturn].
    destruct (eval_arith_instruction _ _ _ Ha) as [Hr ->]. unfold results. rewrite Hr. simpl.
    by rewrite u256_id by (by eapply eval_arith_range).
  - intros i l w Hs Hsig Hst Hl Hw. cbn [perform interpWorld]. unfold interp_perform.
    destruct (eval_pure i l w Hs Hst Hsig Hl) as [He Ht]. rewrite Ht.
    destruct (eval keccak256 i l w) as [[v|e] s']; subst; by eexists.
  - intros i l w Ht. cbn [perform interpWorld]. unfold interp_perform. rewrite Ht.
    destruct (eval keccak256 i l w) as [[v|[]] s']; by eexists.
  - intros d. by apply Z.mod_pos_bound.
  - intros t d. apply u256_range.
Qed.
End Interpreter.

(** A world with other addresses of tags. *)
Definition relabelled {W H} (world : World W H) (f : Z -> Z) : World W H :=
  {| perform := @perform _ _ world; assign := @assign _ _ world; addr := f; pushed := @pushed _ _ world |}.

Lemma relabelled_laws {W H} (world : World W H) (laws : WorldLaws W H) f :
  (forall d, 0 <= f d < 2 ^ 32) -> @WorldLaws W H (relabelled world f).
Proof. intros Hf. destruct laws. by split. Qed.

(** ** Storage and memory

    The interpreter reads the bytes to hash at the low 64 bits of the address and size, which
    real code, for lack of gas, never exceeds; here the address is not cut off
    ([perform_keccak] shows the two agree below 2^64), so that the hash is that of the memory at
    the address. *)

Section Memory.
Context (keccak256 : list Z -> Z).

(** The hash of [n] bytes: the interpreter makes up a value for more than 0xffff of them. *)
Definition interp_hash (m : Z -> Z) (a n : Z) : Z :=
  if n <=? 0xffff then u256 (u256 (keccak256 (readBytes m a (Z.to_nat n))))
  else u256 (u256_add 0x1234cafe1234cafe1234cafe a).

Definition memory_perform (i : Instruction) (l : list Z) (s : InterpreterState)
  : (list Z * InterpreterState) + (Stop * InterpreterState) :=
  match i, l with
  | KECCAK256, [a; n] => inl ([interp_hash (memory_at (memory s)) a n], snd (accessMemory a n s))
  | _, _ => interp_perform keccak256 i l s
  end.

#[local] Instance memoryWorld : World InterpreterState (Stop * InterpreterState) := {
  perform := memory_perform;
  assign _ _ s := s;
  addr d := d mod 2 ^ 32;
  pushed _ d := u256 d }.

Record good_state (s : InterpreterState) : Prop := {
  gs_memory p : is_byte (memory_at (memory s) p);
  gs_storage k : is_u256 (default 0 (storage s !! k));
  gs_addresses : addresses_ok s }.

#[local] Instance memoryStateWorld : StateWorld InterpreterState := {
  good := good_state;
  mem s := memory_at (memory s);
  sto s k := default 0 (storage s !! k) }.

Lemma memory_perform_other i l s :
  i <> KECCAK256 -> memory_perform i l s = interp_perform keccak256 i l s.
Proof. by destruct i. Qed.

Lemma memory_perform_result i l s r s' :
  memory_perform i l s = inl (r, s') -> length r = ret (instructionInfo i) /\ Forall is_u256 r.
Proof.
  intros Hp. destruct (decide (i = KECCAK256)) as [->|Hi].
  - destruct l as [|a [|n [|x l]]].
    1,2,4: unfold memory_perform, interp_perform in Hp; cbn in Hp; injection Hp as <- _; by repeat constructor.
    injection Hp as <- _. split; [done|]. constructor; [|constructor].
    unfold interp_hash. destruct (_ <=? _); apply u256_range.
  - rewrite memory_perform_other in Hp by done. unfold interp_perform in Hp.
    destruct (eval keccak256 i l s) as [[v|[]] s1]; try discriminate Hp;
      destruct (instr_terminatesControlFlow i); try discriminate Hp;
      injection Hp as <- <-; apply results_ok.
Qed.

Lemma memoryWorld_laws : WorldLaws InterpreterState (Stop * InterpreterState).
Proof.
  pose proof (interpWorld_laws keccak256) as L. split.
  - intros i l w r w' Hp _. by eapply memory_perform_result.
  - intros i l v w Hl Ha. cbn [perform memoryWorld]. rewrite memory_perform_other by by intros ->.
    by apply (@perform_arith _ _ (interpWorld keccak256) L i l v w).
  - intros i l w Hs. cbn [perform memoryWorld]. rewrite memory_perform_other by by intros ->.
    by apply (@perform_pure _ _ (interpWorld keccak256) L i l w).
  - intros i l w Ht. cbn [perform memoryWorld]. rewrite memory_perform_other by by intros ->.
    by apply (@perform_halts _ _ (interpWorld keccak256) L i l w).
  - intros d. by apply Z.mod_pos_bound.
  - intros t d. apply u256_range.
Qed.

(** ** What the environment returns *)

(** The fields of the state other than memory, its size and storage. *)
Definition frame (s : InterpreterState) := set_memory ∅ (set_msize 0 (set_storage ∅ s)).

Lemma frame_environment s s' : frame s = frame s' -> same_environment s s'.
Proof.
  intros Hf i l Hi Hn Hl. unfold value. destruct (eval_arith i l) as [v|] eqn:Ea.
  { pose proof memoryWorld_laws. by rewrite !(perform_arith i l v) by done. }
  cbn [perform memoryWorld]. revert Hf Hl Ea.
  destruct i; vm_compute in Hi; try discriminate Hi; clear Hi; vm_compute in Hn.
  all: destruct l as [|a [|b [|c [|e [|]]]]]; try discriminate Hn; clear Hn; intros Hf Hl Ea.
  all: try discriminate Ea.
  all: try (destruct s, s'; injection Hf as -> -> -> -> -> -> -> -> -> -> -> -> -> -> -> -> -> ->; reflexivity).
  apply Forall_cons in Hl as [Ha Hl]. apply Forall_cons in Hl as [Hb _]. by rewrite eval_arith_EXP in Ea.
Qed.

Lemma frame_good s s' :
  frame s = frame s' -> memory s = memory s' -> storage s = storage s' -> good_state s -> good_state s'.
Proof.
  intros Hf Hm Hs [Gm Gs Ga]. rewrite Hm in Gm. rewrite Hs in Gs. split; [done..|].
  destruct s, s'. injection Hf as -> -> -> -> -> -> -> -> -> -> -> -> -> -> -> -> -> ->.
  destruct Ga. by split.
Qed.

Lemma frame_same s s' :
  frame s = frame s' -> memory s = memory s' -> storage s = storage s' -> good_state s ->
  good_state s' /\ same s s'.
Proof.
  intros Hf Hm Hs Hg. split; [by eapply frame_good|]. split.
  - cbn [mem memoryStateWorld]. by rewrite Hm.
  - cbn [sto memoryStateWorld]. by rewrite Hs.
  - by apply frame_environment.
Qed.

(** ** Memory *)

Lemma accessMemory_frame a n s :
  exists b z, accessMemory a n s = (inl b, set_msize z s).
Proof. unfold accessMemory. destruct (_ && _); cbn; eauto. Qed.

Lemma set_msize_frame z s : frame s = frame (set_msize z s).
Proof. reflexivity. Qed.

(** The bytes of a word, as the interpreter writes them. *)
Lemma toBigEndian_nth n v i :
  (i < n)%nat -> nth_def (toBigEndian n v) i 0 = Z.land (Z.shiftr v (8 * (Z.of_nat n - 1 - Z.of_nat i))) 0xff.
Proof.
  revert v i. induction n as [|n IH]; intros v i Hi; [lia|]. unfold nth_def in *. cbn [toBigEndian].
  destruct (decide (i = n)) as [->|Hne].
  - rewrite app_nth2, toBigEndian_length, Nat.sub_diag by (rewrite toBigEndian_length; lia). cbn [nth].
    replace (8 * (Z.of_nat (S n) - 1 - Z.of_nat n)) with 0 by lia. by rewrite Z.shiftr_0_r.
  - rewrite app_nth1 by (rewrite toBigEndian_length; lia). rewrite IH by lia.
    rewrite Z.shiftr_shiftr by lia. do 2 f_equal. lia.
Qed.

Lemma word_byte x i : (i < 32)%nat ->
  Z.land (u256_shr x (8 * (31 - Z.of_nat i))) 0xff = nth_def (toBigEndian 32 x) i 0.
Proof. intros Hi. rewrite toBigEndian_nth by done. unfold u256_shr. do 2 f_equal. Qed.

(** Writing a word is [writeWord]. *)
Lemma fold_insert_at m a x p n :
  (n <= 32)%nat -> is_u256 p ->
  memory_at (fold_left (fun m i => <[u256_add a (Z.of_nat i) := Z.land (u256_shr x (8 * (31 - Z.of_nat i))) 0xff]> m)
    (seq 0 n) m) p =
  if u256_sub p a <? Z.of_nat n then nth_def (toBigEndian 32 x) (Z.to_nat (u256_sub p a)) 0 else memory_at m p.
Proof.
  intros Hn Hp. induction n as [|n IH].
  - pose proof (u256_range (p - a)). unfold is_u256 in *. cbn [seq fold_left].
    destruct (Z.ltb_spec (u256_sub p a) (Z.of_nat 0)); [unfold u256_sub in *; lia|done].
  - rewrite seq_S, fold_left_app. cbn [fold_left]. rewrite Nat.add_0_l, word_byte by lia.
    unfold memory_at at 1. destruct (decide (u256_add a (Z.of_nat n) = p)) as [<-|Hne].
    + rewrite lookup_insert_eq, u256_sub_add, u256_id by (apply u256_small; lia).
      destruct (Z.ltb_spec (Z.of_nat n) (Z.of_nat (S n))); [|lia]. by rewrite Nat2Z.id.
    + rewrite lookup_insert_ne by done. fold (memory_at (fold_left (fun m i =>
        <[u256_add a (Z.of_nat i) := Z.land (u256_shr x (8 * (31 - Z.of_nat i))) 0xff]> m) (seq 0 n) m) p).
      rewrite IH by lia. assert (u256_sub p a <> Z.of_nat n) as Hd.
      { intros He. apply Hne. rewrite <- He. unfold u256_add, u256_sub, u256 in *.
        rewrite Zplus_mod_idemp_r. replace (a + (p - a)) with p by lia. by apply u256_id. }
      destruct (Z.ltb_spec (u256_sub p a) (Z.of_nat (S n))), (Z.ltb_spec (u256_sub p a) (Z.of_nat n)); lia || done.
Qed.

(** What [writeMemoryWord] makes of the memory. *)
Definition written (m : gmap Z Z) (a x : Z) : gmap Z Z :=
  fold_left (fun m i => <[u256_add a (Z.of_nat i) := Z.land (u256_shr x (8 * (31 - Z.of_nat i))) 0xff]> m)
    (seq 0 32) m.

Lemma writeMemoryWord_written a x s :
  writeMemoryWord a x s = (inl tt, set_memory (written (memory s) a x) s).
Proof. reflexivity. Qed.

Lemma written_at m a x : mem_eq (memory_at (written m a x)) (writeWord (memory_at m) a x).
Proof. intros p Hp. unfold writeWord, written. by rewrite fold_insert_at by done. Qed.

Lemma written_bytes m a x : (forall p, is_byte (memory_at m p)) -> forall p, is_byte (memory_at (written m a x) p).
Proof.
  unfold written. generalize (seq 0 32). intros l. revert m.
  induction l as [|i l IH]; intros m Hm p; [apply Hm|]. cbn [fold_left]. apply IH. intros q.
  unfold memory_at. destruct (decide (u256_add a (Z.of_nat i) = q)) as [->|Hq].
  - rewrite lookup_insert_eq. cbn [default]. apply land_byte.
  - rewrite lookup_insert_ne by done. apply Hm.
Qed.

(** ** The laws *)

#[local] Opaque fromBigEndian u256 written.

Lemma perform_eval i l s v s' :
  eval keccak256 i l s = (inl v, s') -> instr_terminatesControlFlow i = false ->
  interp_perform keccak256 i l s = inl (results i v, s').
Proof. intros He Ht. unfold interp_perform. by rewrite He, Ht. Qed.

Lemma perform_sload k s :
  is_u256 (default 0 (storage s !! k)) ->
  memory_perform SLOAD [k] s = inl ([default 0 (storage s !! k)], s).
Proof.
  intros Hk. unfold memory_perform. rewrite (perform_eval _ _ _ (default 0 (storage s !! k)) s) by reflexivity.
  unfold results. cbn [ret instructionInfo replicate]. by rewrite u256_id.
Qed.

Lemma readMemoryWord_value a s : readMemoryWord a s = (inl (readWord (memory_at (memory s)) a), s).
Proof. reflexivity. Qed.

Lemma perform_mload a s :
  exists z, memory_perform MLOAD [a] s = inl ([u256 (readWord (memory_at (memory s)) a)], set_msize z s).
Proof.
  destruct (accessMemory_frame a 32 s) as (b & z & Ha). exists z. unfold memory_perform.
  rewrite (perform_eval _ _ _ (readWord (memory_at (memory s)) a) (set_msize z s)); [reflexivity| |reflexivity].
  change (mseq (accessMemory a 32) (fun _ => readMemoryWord a) s =
    (inl (readWord (memory_at (memory s)) a), set_msize z s)).
  unfold mseq. rewrite Ha. exact (readMemoryWord_value a (set_msize z s)).
Qed.

Lemma perform_sstore k x s :
  memory_perform SSTORE [k; x] s = inl ([], set_storage (<[k := x]> (storage s)) s).
Proof. reflexivity. Qed.

Lemma perform_mstore a x s :
  exists z, memory_perform MSTORE [a; x] s = inl ([], set_memory (written (memory s) a x) (set_msize z s)).
Proof.
  destruct (accessMemory_frame a 32 s) as (b & z & Ha). exists z. unfold memory_perform.
  erewrite (perform_eval MSTORE [a; x] s 0); [reflexivity| |reflexivity].
  change (mseq (accessMemory a 32) (fun _ => mseq (writeMemoryWord a x) (fun _ => mreturn 0)) s = (inl 0,
    set_memory (written (memory s) a x) (set_msize z s))).
  unfold mseq. rewrite Ha. by rewrite writeMemoryWord_written.
Qed.

(** Below 2^64 the hash is the interpreter's. *)
Lemma perform_keccak a n s :
  0 <= a -> 0 <= n -> a + n < 2 ^ 64 ->
  interp_perform keccak256 KECCAK256 [a; n] s = memory_perform KECCAK256 [a; n] s.
Proof.
  intros H0 H1 H2. unfold memory_perform.
  assert (exists z, accessMemory a n s = (inl (n <=? 0xffff), set_msize z s)) as [z Ha].
  { unfold accessMemory, u256_add. rewrite (u256_id (a + n)), (u256_id (a + n + 0x1f))
      by (unfold is_u256, modulus; lia).
    destruct (Z.leb_spec a (a + n)); [|lia]. destruct (Z.leb_spec (a + n) (a + n + 0x1f)); [|lia]. cbn. eauto. }
  rewrite Ha. erewrite (perform_eval KECCAK256 [a; n] s (if n <=? 0xffff then u256 (keccak256 (readBytes
    (memory_at (memory s)) a (Z.to_nat n))) else u256_add 0x1234cafe1234cafe1234cafe a)); [| |reflexivity].
  - unfold interp_hash, results. cbn [ret instructionInfo replicate]. by destruct (n <=? 0xffff).
  - change (mseq (accessMemory a n) (fun ok : bool => if ok then
        mseq (readMemory (u64 a) (u64 n)) (fun data => mreturn (u256 (keccak256 data)))
      else mreturn (u256_add 0x1234cafe1234cafe1234cafe a)) s = (inl (if n <=? 0xffff then u256 (keccak256 (readBytes
    (memory_at (memory s)) a (Z.to_nat n))) else u256_add 0x1234cafe1234cafe1234cafe a), set_msize z s)).
    unfold mseq at 1. rewrite Ha. unfold u64. rewrite !Z.mod_small by lia. unfold readMemory, mseq.
    destruct (n <=? 0xffff); reflexivity.
Qed.

Lemma perform_hash a n s :
  exists z, memory_perform KECCAK256 [a; n] s = inl ([interp_hash (memory_at (memory s)) a n], set_msize z s).
Proof. destruct (accessMemory_frame a n s) as (b & z & Ha). exists z. unfold memory_perform. by rewrite Ha. Qed.

Lemma value_address i s :
  addresses_ok s -> In i [ADDRESS; CALLER; ORIGIN; COINBASE] -> value i [] s < 2 ^ 160.
Proof.
  intros Hs Hi. simpl in Hi. destruct Hi as [<-|[<-|[<-|[<-|[]]]]]; unfold value; cbn [perform memoryWorld];
    apply address_small, Hs.
Qed.

Lemma value_selfbalance s : addresses_ok s -> value BALANCE [value ADDRESS [] s] s = value SELFBALANCE [] s.
Proof.
  intros Hs. change (value ADDRESS [] s) with (u256 (address s)). rewrite address_word by apply Hs.
  change (u256 (if address s =? address s then selfbalance s else balance s) = u256 (selfbalance s)).
  by rewrite Z.eqb_refl.
Qed.

Lemma memoryStateLaws :
  @StateLaws InterpreterState (Stop * InterpreterState) memoryWorld memoryStateWorld keccak256.
Proof.
  split; cbn [good mem sto memoryStateWorld perform memoryWorld].
  - intros w Hg p. apply Hg.
  - intros w k Hg. apply Hg.
  - intros k w Hg Hk. apply perform_sload, Hg.
  - intros a w r w' Hg Ha Hp. destruct (perform_mload a w) as [z Hz]. rewrite Hz in Hp. injection Hp as <- <-.
    split; [|by apply frame_same]. rewrite u256_id; [done|]. apply readWord_word. intros p. apply Hg.
  - intros a n w r w' Hg Ha Hn Hp. destruct (perform_hash a n w) as [z Hz]. rewrite Hz in Hp. injection Hp as <- <-.
    destruct (frame_same w (set_msize z w)) as [H1 H2]; [done..|]. split; [done|]. split; [done|].
    intros Hle. unfold interp_hash. destruct (Z.leb_spec n 0xffff); [|lia]. by rewrite (u256_id _ (u256_range _)).
  - intros a n w w' Ha Hn Hb. unfold value. cbn [perform memoryWorld].
    destruct (perform_hash a n w) as [z ->], (perform_hash a n w') as [z' ->]. unfold interp_hash.
    destruct (Z.leb_spec n 0xffff); [|done]. rewrite Hb; [done|]. lia.
  - intros i l w Hg Hi Hl _. destruct Hi as [<-|[<-|[<-|[<-|[]]]]]; cbv in Hl;
      destruct l as [|a [|n [|]]]; try discriminate Hl.
    + destruct (perform_mload a w) as [z ->]. by do 2 eexists.
    + destruct (perform_hash a n w) as [z ->]. by do 2 eexists.
    + rewrite perform_sstore. by do 2 eexists.
    + destruct (perform_mstore a n w) as [z ->]. by do 2 eexists.
  - intros k x w r w' Hg Hk Hx Hp. rewrite perform_sstore in Hp. injection Hp as <- <-. split.
    { destruct Hg as [Gm Gs Ga]. split; [done| |by destruct Ga]. intros k'. cbn [storage set_storage].
      destruct (decide (k = k')) as [<-|Hne]; [by rewrite lookup_insert_eq|]. by rewrite lookup_insert_ne. }
    split; [reflexivity|]. split; [by apply frame_environment|]. intros k' Hk'. cbn [storage set_storage].
    destruct (Z.eqb_spec k' k) as [->|Hne]; [by rewrite lookup_insert_eq|]. by rewrite lookup_insert_ne.
  - intros a x w r w' Hg Ha Hx Hp. destruct (perform_mstore a x w) as [z Hz]. rewrite Hz in Hp.
    injection Hp as <- <-. split.
    { destruct Hg as [Gm Gs Ga]. split; [|exact Gs|by destruct Ga]. intros p. by apply written_bytes. }
    split; [apply written_at|]. split; [by apply frame_environment|reflexivity].
  - intros i w Hg. apply value_address, Hg.
  - intros w Hg. apply value_selfbalance, Hg.
Qed.

Lemma good_initial : good_state initialState.
Proof.
  split; [intros p; done|intros k; done|]. split; vm_compute; by split.
Qed.
End Memory.
