(* ===== verification/StoreOrder.v ===== *)
(** * StoreOrder: stores in the order they are executed

    Storage and memory are one family of cells, a slot or a byte each.  What a cell holds
    after a list of stores was written by the last of them that covers it, so stores may be
    left out as long as that one is kept. *)

From S2P Require Import Prelude U256 CommonData Instruction AssemblyItem SemanticInformation Interpreter Pattern RuleList SimplificationRules ExpressionClasses KnownState Machine RuleSound StateWorld.

#[local] Opaque readWord readBytes writeWord toBigEndian fromBigEndian.

(** The last element with a property, where another is required as well. *)
Lemma last_filter_filter {A} (P Q : A -> Prop) `{!forall x, Decision (P x)} `{!forall x, Decision (Q x)} l :
  (forall x, last (filter Q l) = Some x -> P x) -> last (filter Q (filter P l)) = last (filter Q l).
Proof.
  induction l as [|x l IH] using rev_ind; [done|]. intros Hl. rewrite !filter_app in *.
  destruct (decide (Q x)) as [HQ|HQ].
  - assert (filter Q [x] = [x]) as E by by rewrite filter_cons_True, filter_nil.
    rewrite E in *. assert (P x) as HP by (apply Hl; apply last_snoc).
    rewrite (filter_cons_True P), filter_nil by done. by rewrite E, !last_snoc.
  - assert (filter Q [x] = []) as E by by rewrite filter_cons_False.
    rewrite E in *. rewrite app_nil_r in *.
    assert (filter Q (filter P [x]) = []) as ->; [|rewrite app_nil_r; by apply IH].
    destruct (decide (P x)); [by rewrite (filter_cons_True P), filter_nil by done|].
    by rewrite (filter_cons_False P), filter_nil by done.
Qed.

(** Properties that agree on the elements of a list. *)
Lemma filter_ext_In {A} (P Q : A -> Prop) `{!forall x, Decision (P x)} `{!forall x, Decision (Q x)} l :
  (forall x, In x l -> P x <-> Q x) -> filter P l = filter Q l.
Proof.
  induction l as [|x l IH]; intros Hl; [done|]. rewrite !filter_cons, IH by (intros y Hy; apply Hl; by right).
  pose proof (Hl x (or_introl eq_refl)). destruct (decide (P x)), (decide (Q x)); tauto.
Qed.

(** A store and the class of the value stored. *)
Notation Store := (StoreOperation * Z)%type.

(** The contents of the cells. *)
Definition Cells : Type := Target -> Z -> Z.

Definition cells_eq (f g : Cells) : Prop := forall t a, is_u256 a -> f t a = g t a.

#[export] Instance cells_eq_equivalence : Equivalence cells_eq.
Proof.
  split.
  - by intros f t a.
  - intros f g E t a Ha. symmetry. by apply E.
  - intros f g h E E' t a Ha. by rewrite E, E'.
Qed.

Section Stores.
Context (v : Z -> Z).

(** The cells a store writes. *)
Definition covers (o : StoreOperation) (t : Target) (a : Z) : bool :=
  bool_decide (t = target o) &&
  match t with
  | Storage => a =? v (slot o)
  | Memory => u256_sub a (v (slot o)) <? 32
  | Invalid => false
  end.

Definition stored_value (o : Store) (t : Target) (a : Z) : Z :=
  match t with
  | Memory => nth_def (toBigEndian 32 (v (snd o))) (Z.to_nat (u256_sub a (v (slot (fst o))))) 0
  | _ => v (snd o)
  end.

Definition apply_store (o : Store) (f : Cells) : Cells := fun t a =>
  if covers (fst o) t a then stored_value o t a else f t a.

Definition apply_stores (l : list Store) (f : Cells) : Cells := fold_left (fun f o => apply_store o f) l f.

(** The last store that writes a cell. *)
Definition lastWriter (l : list Store) (t : Target) (a : Z) : option Store :=
  last (filter (fun o => covers (fst o) t a = true) l).

Lemma apply_stores_snoc l o f : apply_stores (l ++ [o]) f = apply_store o (apply_stores l f).
Proof. unfold apply_stores. by rewrite fold_left_app. Qed.

Lemma apply_stores_at l f t a :
  apply_stores l f t a = match lastWriter l t a with Some o => stored_value o t a | None => f t a end.
Proof.
  induction l as [|o l IH] using rev_ind; [done|]. rewrite apply_stores_snoc. unfold lastWriter in *.
  rewrite filter_app. unfold apply_store. destruct (covers (fst o) t a) eqn:E.
  - rewrite (filter_cons_True _ o), filter_nil by done. by rewrite last_snoc.
  - rewrite (filter_cons_False _ o), filter_nil, app_nil_r by by rewrite E. exact IH.
Qed.

Lemma apply_store_proper o f g : cells_eq f g -> cells_eq (apply_store o f) (apply_store o g).
Proof. intros E t a Ha. unfold apply_store. destruct (covers _ _ _); [done|by apply E]. Qed.

Lemma apply_stores_proper l f g : cells_eq f g -> cells_eq (apply_stores l f) (apply_stores l g).
Proof. intros E t a Ha. rewrite !apply_stores_at. destruct (lastWriter _ _ _); [done|by apply E]. Qed.

(** Leaving out stores that are not the last to write a cell. *)
Lemma apply_stores_filter (P : Store -> Prop) `{!forall o, Decision (P o)} l f t a :
  (forall o, lastWriter l t a = Some o -> P o) -> apply_stores (filter P l) f t a = apply_stores l f t a.
Proof. intros Hl. rewrite !apply_stores_at. unfold lastWriter in *. by rewrite last_filter_filter. Qed.

Lemma lastWriter_spec l t a o :
  lastWriter l t a = Some o ->
  exists n, l !! n = Some o /\ covers (fst o) t a = true /\
    forall m o', l !! m = Some o' -> covers (fst o') t a = true -> (m <= n)%nat.
Proof.
  unfold lastWriter. induction l as [|x l IH] using rev_ind; [done|]. rewrite filter_app.
  destruct (covers (fst x) t a) eqn:E.
  - rewrite (filter_cons_True _ x), filter_nil, last_snoc by done. intros [= <-].
    exists (length l). split; [by apply list_lookup_middle|]. split; [done|].
    intros m o' Hm _. apply lookup_lt_Some in Hm. rewrite length_app in Hm. simpl in Hm. lia.
  - rewrite (filter_cons_False _ x), filter_nil, app_nil_r by by rewrite E. intros Ho.
    destruct (IH Ho) as (n & Hn & Hc & Hmax). exists n. split; [by apply lookup_app_l_Some|]. split; [done|].
    intros m o' Hm Hc'. apply lookup_app_Some in Hm as [Hm|[Hge Hm]]; [by apply (Hmax m o')|].
    apply list_lookup_singleton_Some in Hm as [_ <-]. congruence.
Qed.
End Stores.

(** Values that agree on the classes of a store. *)
Lemma covers_values v v' o t a : v' (slot o) = v (slot o) -> covers v' o t a = covers v o t a.
Proof. unfold covers. by intros ->. Qed.

Lemma apply_stores_values v v' l f :
  Forall (fun o => v' (slot (fst o)) = v (slot (fst o)) /\ v' (snd o) = v (snd o)) l ->
  forall t a, apply_stores v' l f t a = apply_stores v l f t a.
Proof.
  induction l as [|o l IH] using rev_ind; intros Hl t a; [done|]. apply Forall_app in Hl as [Hl Ho].
  apply Forall_cons in Ho as [[H1 H2] _]. rewrite !apply_stores_snoc. unfold apply_store, stored_value.
  rewrite (covers_values v v') by done. by rewrite H1, H2, IH.
Qed.

Section World.
Context {W H : Type} `{!World W H} `{!StateWorld W}.

(** The cells of a world. *)
Definition cells (w : W) : Cells := fun t a =>
  match t with Memory => mem w a | Storage => sto w a | Invalid => 0 end.

Lemma same_cells w w' : same w w' -> cells_eq (cells w) (cells w').
Proof using. intros [Hm Hs _] [] a Ha; [done|by apply Hm|by apply Hs]. Qed.

Lemma cells_same w w' : cells_eq (cells w) (cells w') -> same_environment w w' -> same w w'.
Proof using.
  intros Hc He. split; [|intros k Hk; by apply (Hc Storage)|done]. intros p Hp. by apply (Hc Memory).
Qed.

#[local] Transparent writeWord.

Lemma writeWord_cells v x o w w' :
  target o = Memory -> mem_eq (mem w') (writeWord (mem w) (v (slot o)) (v x)) -> sto_eq (sto w') (sto w) ->
  cells_eq (cells w') (apply_store v (o, x) (cells w)).
Proof using.
  intros Ht Hm Hs [] a Ha; unfold apply_store, covers; cbn [fst].
  - by rewrite andb_false_r.
  - rewrite bool_decide_eq_true_2 by done. cbn [andb cells]. rewrite Hm by done. reflexivity.
  - rewrite bool_decide_eq_false_2 by by rewrite Ht. by apply Hs.
Qed.

Lemma writeSlot_cells v x o w w' :
  target o = Storage -> mem_eq (mem w') (mem w) ->
  sto_eq (sto w') (fun k => if k =? v (slot o) then v x else sto w k) ->
  cells_eq (cells w') (apply_store v (o, x) (cells w)).
Proof using.
  intros Ht Hm Hs [] a Ha; unfold apply_store, covers; cbn [fst].
  - by rewrite andb_false_r.
  - rewrite bool_decide_eq_false_2 by by rewrite Ht. by apply Hm.
  - rewrite bool_decide_eq_true_2 by done. cbn [andb cells]. rewrite Hs by done. reflexivity.
Qed.
End World.
