(* ===== verification/KnownSound.v ===== *)
(** * KnownSound: what KnownState knows is true of the machine

    The items of a block are run on the machine while they are fed to a [KnownState].
    [stack_ok] and [state_ok] say that the classes on the symbolic stack, in storage and in
    memory have the values the machine holds there; each operation keeps them, and
    returns with enough fuel.  The worlds the run goes through are given by sequence number
    ([ω]): a load or a hash is the value in the world at the sequence number of its class. *)

From stdpp Require Import sorting.
From S2P Require Import Prelude U256 CommonData Instruction AssemblyItem SemanticInformation Interpreter Pattern RuleList SimplificationRules ExpressionClasses KnownState Machine RuleSound StateWorld MatchSound ClassSound WordClasses ClassShape ClassQueries.

#[local] Opaque ruleSet Rules readWord readBytes writeWord toBigEndian fromBigEndian.

(** The classes added while the state changes have sequence number 0 or one between those of
    the states. *)
Definition added (s : KnownState) (cl : ExpressionClasses) (s' : KnownState) (cl' : ExpressionClasses) : Prop :=
  m_sequenceNumber s <= m_sequenceNumber s' /\
  forall i e, m_representatives cl' !! i = Some e ->
    m_representatives cl !! i = Some e \/ sequenceNumber e = 0 \/
    m_sequenceNumber s <= sequenceNumber e <= m_sequenceNumber s'.

Lemma added_refl s cl : added s cl s cl.
Proof. split; [done|]. intros i e Hi. by left. Qed.

Lemma added_trans s1 cl1 s2 cl2 s3 cl3 : added s1 cl1 s2 cl2 -> added s2 cl2 s3 cl3 -> added s1 cl1 s3 cl3.
Proof.
  intros [L1 H1] [L2 H2]. split; [lia|]. intros i e Hi.
  destruct (H2 i e Hi) as [Hi2|[Hz|Hb]]; [|by right; left|right; right; lia].
  destruct (H1 i e Hi2) as [Hi1|[Hz|Hb]]; [by left|by right; left|right; right; lia].
Qed.

Lemma added_grows s cl cl' : grows cl cl' -> added s cl s cl'.
Proof.
  intros Hg. split; [done|]. intros i e Hi. destruct (grows_lookup _ _ _ _ Hg Hi); [by left|by right; left].
Qed.

(** No class has a later sequence number than the state. *)
Definition bounded (s : KnownState) (cl : ExpressionClasses) : Prop :=
  forall i e, m_representatives cl !! i = Some e -> sequenceNumber e <= m_sequenceNumber s.

Lemma bounded_added s cl s' cl' : 0 <= m_sequenceNumber s -> added s cl s' cl' -> bounded s cl -> bounded s' cl'.
Proof.
  intros Hs [Hle Ha] Hb i e Hi. destruct (Ha i e Hi) as [Hi'|[->|]]; [specialize (Hb i e Hi')|..]; lia.
Qed.

(** The instruction of a store. *)
Definition store_instruction (t : Target) : Instruction :=
  match t with Storage => SSTORE | _ => MSTORE end.

Section Sound.
Context {W H : Type} `{!World W H} `{!WorldLaws W H} `{!StateWorld W} {keccak256 : list Z -> Z}
  `{!StateLaws W H keccak256}.
Context (t : RuleTable) (rules : valid_rules t).
(** The start of the block and the worlds at sequence numbers. *)
Context (w0 : W) (st0 : list Z) (ω : Z -> W).
Context (good0 : good w0) (goodω : forall s, good (ω s)) (words0 : Forall is_u256 st0)
  (short0 : Z.of_nat (length st0) < modulus).

Local Abbreviation bop := (blockOp w0).
Local Abbreviation bseq := (blockSeqop w0 ω).
Local Abbreviation bpush := (blockPushed st0).
Local Abbreviation Sem := (wordSemantics bop bseq bpush).
Local Abbreviation known := (known bop bseq bpush).
Local Abbreviation answers := (answers bop bseq bpush).

#[local] Instance bop_words : WordSemantics bop.
Proof using WorldLaws0 StateLaws0 good0. exact (blockOp_words w0 good0). Qed.

(** ** Operations with enough fuel *)

Definition runs {A} (m : nat -> K A) (s : KnownState) (cl : ExpressionClasses) (v : Z -> Z)
    (Q : A -> KnownState -> ExpressionClasses -> (Z -> Z) -> Prop) : Prop :=
  exists a s' cl' v', eventually (fun n => m n s cl) (a, (s', cl')) /\ known cl' v' /\
    extends cl cl' v v' /\ added s cl s' cl' /\ Q a s' cl' v'.

Lemma runs_ret {A} (a : A) s cl v (Q : A -> KnownState -> ExpressionClasses -> (Z -> Z) -> Prop) :
  known cl v -> Q a s cl v -> runs (fun _ => kret a) s cl v Q.
Proof using.
  intros Hk HQ. exists a, s, cl, v. split; [apply eventually_ret|]. split; [done|].
  split; [apply extends_refl|]. split; [apply added_refl|done].
Qed.

Lemma runs_bind {A B} (m : nat -> K A) (k : nat -> A -> K B) s cl v Q R :
  runs m s cl v Q ->
  (forall a s' cl' v', known cl' v' -> extends cl cl' v v' -> Q a s' cl' v' ->
     runs (fun n => k n a) s' cl' v' R) ->
  runs (fun n => kbind (m n) (k n)) s cl v R.
Proof using.
  intros (a & s1 & cl1 & v1 & [n Hn] & Hk & He & Hb & HQ) Hr.
  destruct (Hr a s1 cl1 v1 Hk He HQ) as (b & s2 & cl2 & v2 & [n' Hn'] & Hk' & He' & Hb' & HR).
  exists b, s2, cl2, v2. split; [|split; [done|split; [by eapply extends_trans|by split; [by eapply added_trans|]]]].
  exists (n + n')%nat. intros fuel Hf. unfold kbind. rewrite Hn by lia. apply Hn'. lia.
Qed.

Lemma runs_get {A B} (f : KnownState -> A) (k : nat -> A -> K B) s cl v R :
  runs (fun n => k n (f s)) s cl v R -> runs (fun n => kbind (kget f) (k n)) s cl v R.
Proof using. done. Qed.

Lemma runs_modify {B} (f : KnownState -> KnownState) (k : nat -> unit -> K B) s cl v R :
  m_sequenceNumber s <= m_sequenceNumber (f s) ->
  runs (fun n => k n tt) (f s) cl v R -> runs (fun n => kbind (kmodify f) (k n)) s cl v R.
Proof using.
  intros Hf (a & s' & cl' & v' & Hm & Hk & He & Hb & HQ). exists a, s', cl', v'.
  split; [exact Hm|]. split; [done|]. split; [done|]. split; [|done].
  eapply added_trans; [|exact Hb]. split; [exact Hf|]. intros i e Hi. by left.
Qed.

Lemma runs_last {A} (m : nat -> K A) s cl v (Q R : A -> KnownState -> ExpressionClasses -> (Z -> Z) -> Prop) :
  runs m s cl v Q ->
  (forall a s' cl' v', known cl' v' -> extends cl cl' v v' -> Q a s' cl' v' -> R a s' cl' v') ->
  runs m s cl v R.
Proof using. intros (a & s' & cl' & v' & Hm & Hk & He & Hb & HQ) HR. exists a, s', cl', v'. auto 10. Qed.

(** An operation of the classes. *)
Lemma runs_classes {A} (f : nat -> ExpressionClasses -> Result (A * ExpressionClasses)) s cl v Q :
  answers f cl v Q ->
  runs (fun n => kclasses (f n)) s cl v (fun a s' cl' v' => s' = s /\ grows cl cl' /\ Q a cl' v').
Proof using.
  intros (a & cl' & v' & [n Hn] & Hk & He & Hg & HQ). exists a, s, cl', v'.
  split; [exists n; intros fuel Hf; unfold kclasses; by rewrite Hn|]. split; [done|]. split; [done|].
  split; [by apply added_grows|by split].
Qed.

(** A query of the classes. *)
Lemma runs_query {A B} (f : ExpressionClasses -> option A) a (k : nat -> A -> K B) s cl v R :
  f cl = Some a -> runs (fun n => k n a) s cl v R -> runs (fun n => kbind (kquery f) (k n)) s cl v R.
Proof using.
  intros Hf (b & s' & cl' & v' & [n Hn] & Hr). exists b, s', cl', v'. split; [|done]. exists n.
  intros fuel Hle. unfold kbind, kquery, kclasses. rewrite Hf. by apply Hn.
Qed.

Lemma find_runs_added s cl v seq it l :
  known cl v -> item_ok it (length l) -> asked it seq l -> seq = 0 \/ seq = m_sequenceNumber s ->
  Forall (in_range cl) l ->
  runs (fun n => findClass n t seq it l) s cl v
    (fun i s' cl' v' => s' = s /\ in_range cl' i /\ v' i = item_value Sem it seq (map v l) /\
      (is_kept it = true -> represented cl' i it seq l) /\
      if is_sequenced it then at_most_added cl cl' i else grows cl cl').
Proof using All.
  intros Hk Hit Ha Hs Hl. destruct (find_known bop bseq bpush (blockSeqop_pure w0 ω) (blockSeqop_range w0 ω goodω)
    (blockPushed_range st0 words0) t rules cl v seq it l Hk Hit Ha Hl)
    as (i & cl' & v' & [n Hn] & Hk' & He & Hi & Hv & Hkept & Hadd).
  exists i, s, cl', v'. split; [exists n; intros fuel Hf; unfold findClass, kclasses; by rewrite Hn|].
  split; [done|]. split; [done|]. split; [|by repeat (split; [done|])].
  destruct (is_sequenced it) eqn:Hq; [|by apply added_grows]. split; [done|]. intros j e Hj.
  destruct (Hkept (sequenced_kept _ Hq)) as (r & Hr & (_ & _ & _ & _ & Hseq)). destruct Hadd as [Hreps|(-> & r' & Hreps)].
  - rewrite Hreps in Hj. by left.
  - rewrite Hreps in Hr, Hj. rewrite representative_fresh in Hr. injection Hr as ->.
    apply lookup_app_Some in Hj as [Hj|[_ Hj]]; [by left|].
    apply list_lookup_singleton_Some in Hj as [_ <-]. right. rewrite Hseq. lia.
Qed.

Lemma find_runs s cl v seq it l :
  known cl v -> item_ok it (length l) -> asked it seq l -> seq = 0 \/ seq = m_sequenceNumber s ->
  Forall (in_range cl) l ->
  runs (fun n => findClass n t seq it l) s cl v
    (fun i s' cl' v' => s' = s /\ in_range cl' i /\ v' i = item_value Sem it seq (map v l)).
Proof using All.
  intros Hk Hit Ha Hs Hl. eapply runs_last; [by apply find_runs_added|].
  by intros i s' cl' v' _ _ (-> & Hi & Hv & _).
Qed.

(** ** The stack *)

(** The element of the machine's stack at a height of the symbolic stack. *)
Definition at_height (s : KnownState) (st : list Z) (h : Z) : option Z :=
  st !! Z.to_nat (m_stackHeight s - h).

(** A known element has the value of its class; an element that is not known is still that of
    the stack the block started with. *)
Record stack_ok (s : KnownState) (cl : ExpressionClasses) (v : Z -> Z) (st : list Z) : Prop := {
  so_known h c : m_stackElements s !! h = Some c ->
    h <= m_stackHeight s /\ in_range cl c /\ at_height s st h = Some (v c);
  so_rest h : h <= m_stackHeight s -> m_stackElements s !! h = None ->
    h <= 0 /\ at_height s st h = st0 !! Z.to_nat (- h);
  so_length : Z.of_nat (length st) = Z.of_nat (length st0) + m_stackHeight s }.

Lemma stack_ok_extends s cl cl' v v' st :
  extends cl cl' v v' -> stack_ok s cl v st -> stack_ok s cl' v' st.
Proof using st0.
  intros He [Hk Hr Hlen]. split; [|done|done]. intros h c Hc. destruct (Hk h c Hc) as (Hh & Hi & Hv).
  split; [done|]. split; [by eapply extends_in_range|]. rewrite Hv. f_equal. symmetry. by apply He.
Qed.

(** An operation that only adds known elements of the stack. *)
Definition same_but_elements (s s' : KnownState) : Prop :=
  s' = set_stack (m_stackHeight s) (m_stackElements s') s.

Lemma same_but_elements_refl s : same_but_elements s s.
Proof using. by destruct s. Qed.

Lemma same_but_elements_trans s1 s2 s3 :
  same_but_elements s1 s2 -> same_but_elements s2 s3 -> same_but_elements s1 s3.
Proof using. unfold same_but_elements. intros -> H3. rewrite H3. done. Qed.

Lemma stack_index (h : Z) (st : list Z) x :
  h <= 0 -> st !! Z.to_nat (- h) = Some x -> Z.of_nat (length st) < modulus -> u256 (- u256 h) = - h.
Proof using.
  clear short0. intros Hh Hx Hl. apply lookup_lt_Some in Hx.
  unfold u256. rewrite <- (Z.sub_0_l (h mod modulus)), Zminus_mod_idemp_r, Z.sub_0_l. apply Z.mod_small. lia.
Qed.

Lemma stackElement_runs s cl v st h loc x :
  known cl v -> stack_ok s cl v st -> h <= m_stackHeight s -> at_height s st h = Some x ->
  runs (fun n => stackElement n t h loc) s cl v (fun c s' cl' v' =>
    same_but_elements s s' /\ stack_ok s' cl' v' st /\ in_range cl' c /\ v' c = x /\
    m_stackElements s' = <[h := c]> (m_stackElements s) /\ grows cl cl' /\
    (m_stackElements s !! h = Some c \/
     m_stackElements s !! h = None /\ represented cl' c (dataItem UndefinedItem (u256 h) loc) 0 [])).
Proof using All.
  intros Hk Hs Hh Hx. unfold stackElement. apply runs_get.
  destruct (m_stackElements s !! h) as [c|] eqn:Hc.
  - apply runs_ret; [done|]. destruct (so_known _ _ _ _ Hs h c Hc) as (_ & Hi & Hv).
    split; [apply same_but_elements_refl|]. split; [done|]. split; [done|]. split; [congruence|].
    split; [by rewrite insert_id|]. split; [apply grows_refl|by left].
  - eapply runs_bind; [by apply find_runs_added; [|split|split|left|constructor]|].
    intros c s' cl' v' Hk' He (-> & Hi & Hv & Hkept & Hadd). apply runs_modify; [done|]. apply runs_ret; [done|].
    destruct (so_rest _ _ _ _ Hs h Hh Hc) as [H0 Hst]. rewrite Hx in Hst. symmetry in Hst.
    assert (v' c = x) as Hvx.
    { rewrite Hv. unfold item_value. cbn [m_type m_data dataItem sem_pushed wordSemantics blockPushed].
      by rewrite (stack_index h st0 x), Hst. }
    split; [done|]. specialize (Hkept eq_refl). split; [|split; [done|split; [done|split; [done|split; [done|by right]]]]].
    pose proof (stack_ok_extends _ _ _ _ _ _ He Hs) as [Hkn Hr Hlen]. split; [| |exact Hlen].
    + intros h' c' Hc'. cbn [m_stackElements m_stackHeight set_stack] in *.
      destruct (decide (h = h')) as [<-|Hne].
      * rewrite lookup_insert_eq in Hc'. injection Hc' as <-. split; [done|]. split; [done|].
        unfold at_height in *. cbn [m_stackHeight set_stack]. by rewrite Hx, Hvx.
      * rewrite lookup_insert_ne in Hc' by done. by apply Hkn.
    + intros h' Hh' Hc'. cbn [m_stackElements m_stackHeight set_stack] in *.
      destruct (decide (h = h')) as [<-|Hne]; [by rewrite lookup_insert_eq in Hc'|].
      rewrite lookup_insert_ne in Hc' by done. by apply Hr.
Qed.

Lemma stackArguments_runs n : forall s cl v st i loc,
  known cl v -> stack_ok s cl v st -> 0 <= i -> (Z.to_nat i + n <= length st)%nat ->
  runs (fun f => stackArguments f t n i loc) s cl v (fun l s' cl' v' =>
    same_but_elements s s' /\ stack_ok s' cl' v' st /\ Forall (in_range cl') l /\ length l = n /\
    map v' l = take n (drop (Z.to_nat i) st)).
Proof using All.
  induction n as [|n IH]; intros s cl v st i loc Hk Hs Hi Hn; cbn [stackArguments].
  - apply runs_ret; [done|]. split; [apply same_but_elements_refl|]. split; [done|]. by split; [constructor|].
  - unfold relativeStackElement. destruct (lookup_lt_is_Some_2 st (Z.to_nat i)) as [x Hx]; [lia|].
    eapply runs_bind.
    { apply runs_get. apply (stackElement_runs _ _ _ st _ _ x Hk Hs); [lia|].
      unfold at_height. by replace (m_stackHeight s - (m_stackHeight s + - i)) with i by lia. }
    intros a s1 cl1 v1 Hk1 He1 (Hb1 & Hs1 & Ha & Hv & _).
    eapply runs_bind; [apply (IH s1 cl1 v1 st (i + 1) loc Hk1 Hs1); lia|].
    intros l s2 cl2 v2 Hk2 He2 (Hb2 & Hs2 & Hl & Hlen & Hvs). apply runs_ret; [done|].
    split; [by eapply same_but_elements_trans|]. split; [done|].
    split; [constructor; [by eapply extends_in_range|done]|]. split; [simpl; by rewrite Hlen|].
    simpl. rewrite Hvs. destruct He2 as [_ He2]. rewrite He2, Hv by done.
    replace (Z.to_nat (i + 1)) with (S (Z.to_nat i)) by lia.
    by rewrite (drop_S st x (Z.to_nat i) Hx).
Qed.

(** The stack after an instruction that takes [n] elements and may leave one, of class
    [res]: what is above the new height is forgotten. *)
Lemma stack_ok_result s s' cl v st n (res : option Z) :
  stack_ok s cl v st -> (n <= length st)%nat -> m_stackHeight s' = m_stackHeight s ->
  (forall c, res = Some c -> in_range cl c) ->
  m_stackElements s' =
    match res with
    | Some c => <[m_stackHeight s - Z.of_nat n + 1 := c]> (m_stackElements s)
    | None => m_stackElements s
    end ->
  let r := match res with Some c => [v c] | None => [] end in
  let height := m_stackHeight s + (Z.of_nat (length r) - Z.of_nat n) in
  stack_ok (set_stack height (filter (fun p => fst p <= height) (m_stackElements s')) s') cl v (r ++ drop n st).
Proof using st0.
  intros [Hkn Hre Hlen] Hn Hh Hc He r height.
  assert (forall h, h <= m_stackHeight s - Z.of_nat n ->
    (r ++ drop n st) !! Z.to_nat (height - h) = at_height s st h) as Hat.
  { intros h Hle. unfold at_height. rewrite lookup_app_r by (unfold height; lia).
    rewrite lookup_drop. f_equal. unfold height. lia. }
  split; cbn [m_stackElements m_stackHeight set_stack]; unfold at_height; cbn [m_stackHeight set_stack];
    [| |rewrite length_app, length_drop; unfold height; lia].
  - intros h c. rewrite map_lookup_filter_Some. cbn [fst]. intros [Hl Hle]. rewrite He in Hl.
    split; [done|]. destruct res as [c'|]; cbn [length] in *.
    + destruct (decide (m_stackHeight s - Z.of_nat n + 1 = h)) as [<-|Hne].
      * rewrite lookup_insert_eq in Hl. injection Hl as <-. split; [by apply Hc|].
        replace (height - _) with 0 by (unfold height, r; cbn [length]; lia). done.
      * rewrite lookup_insert_ne in Hl by done. destruct (Hkn h c Hl) as (_ & Hi & Hv). split; [done|].
        rewrite Hat; [done|]. unfold height, r in Hle. cbn [length] in Hle. lia.
    + destruct (Hkn h c Hl) as (_ & Hi & Hv). split; [done|]. rewrite Hat; [done|].
      unfold height, r in Hle. cbn [length] in Hle. lia.
  - intros h Hle Hl. apply map_lookup_filter_None in Hl.
    assert (m_stackElements s' !! h = None) as Hl'.
    { destruct Hl as [Hl|Hl]; [done|]. destruct (m_stackElements s' !! h) as [c|] eqn:E; [|done].
      by apply (Hl c) in Hle. }
    rewrite He in Hl'.
    assert (h <= m_stackHeight s - Z.of_nat n /\ m_stackElements s !! h = None) as [Hle2 Hl2].
    { unfold height, r in Hle. destruct res as [c'|]; cbn [length] in Hle; [|split; [lia|done]].
      apply lookup_insert_None in Hl' as [Hl' Hne]. split; [lia|done]. }
    destruct (Hre h ltac:(lia) Hl2) as [H0 Hx]. split; [done|]. by rewrite Hat.
Qed.

(** A class put on the stack, and the top taken off. *)
Lemma stack_ok_push s cl v st c :
  stack_ok s cl v st -> in_range cl c ->
  stack_ok (set_stack (m_stackHeight s + 1) (<[m_stackHeight s + 1 := c]> (m_stackElements s)) s) cl v (v c :: st).
Proof using st0.
  intros Hst Hc. pose proof (stack_ok_result s
    (set_stack (m_stackHeight s) (<[m_stackHeight s + 1 := c]> (m_stackElements s)) s) cl v st 0 (Some c) Hst) as Hres.
  cbn [length] in Hres. cbv zeta in Hres. cbn [m_stackElements set_stack] in Hres.
  replace (m_stackHeight s - Z.of_nat 0 + 1) with (m_stackHeight s + 1) in Hres by lia.
  replace (m_stackHeight s + (Z.of_nat 1 - Z.of_nat 0)) with (m_stackHeight s + 1) in Hres by lia.
  rewrite map_filter_id in Hres; [apply Hres; [lia|done|by intros ? [= <-]|done]|].
  intros h c' Hc'. cbn. destruct (decide (m_stackHeight s + 1 = h)) as [<-|Hne]; [lia|].
  rewrite lookup_insert_ne in Hc' by done. destruct (so_known _ _ _ _ Hst h c' Hc') as [Hle _]. lia.
Qed.

Lemma stack_ok_pop s cl v x st :
  stack_ok s cl v (x :: st) ->
  stack_ok (set_stack (m_stackHeight s - 1) (delete (m_stackHeight s) (m_stackElements s)) s) cl v st.
Proof using st0.
  intros [Hk Hr Hlen]. assert (forall h, h <= m_stackHeight s - 1 ->
    st !! Z.to_nat (m_stackHeight s - 1 - h) = at_height s (x :: st) h) as Hat.
  { intros h Hh. unfold at_height. by replace (Z.to_nat (m_stackHeight s - h)) with (S (Z.to_nat (m_stackHeight s - 1 - h))) by lia. }
  split; unfold at_height; cbn [m_stackElements m_stackHeight set_stack]; [| |cbn [length] in Hlen; lia].
  - intros h c Hc. apply lookup_delete_Some in Hc as [Hne Hc]. destruct (Hk h c Hc) as (Hle & Hi & Hv).
    split; [lia|]. split; [done|]. rewrite Hat by lia. exact Hv.
  - intros h Hh Hc. rewrite Hat by lia. apply Hr; [lia|]. rewrite lookup_delete_ne in Hc by lia. done.
Qed.

(** ** Storage, memory and hashes *)

(** The entries of storage and memory and the hashes are true of the world [w], which is the
    world of the current sequence number. *)
Record state_ok (s : KnownState) (cl : ExpressionClasses) (v : Z -> Z) (w : W) : Prop := {
  st_good : good w;
  st_world : same w (ω (m_sequenceNumber s));
  st_env : same_environment w0 w;
  st_seq : 0 < m_sequenceNumber s /\ Z.odd (m_sequenceNumber s) = true;
  st_storage k c : m_storageContent s !! k = Some c ->
    in_range cl k /\ in_range cl c /\ sto w (v k) = v c;
  st_memory k c : m_memoryContent s !! k = Some c ->
    in_range cl k /\ in_range cl c /\ readWord (mem w) (v k) = v c;
  st_hash l c : m_knownKeccak256Hashes s !! l = Some c ->
    Forall (in_range cl) l /\ in_range cl c /\
    v c = u256 (keccak256 (concat (map (fun a => toBigEndian 32 (v a)) l))) }.

Lemma state_ok_extends s cl cl' v v' w :
  extends cl cl' v v' -> state_ok s cl v w -> state_ok s cl' v' w.
Proof using.
  intros He [Hg Hw Hen Hsq Hs Hm Hh]. pose proof He as [_ Hv]. split; [done|done|done|done| | |].
  - intros k c Hc. destruct (Hs k c Hc) as (Hk & Hi & Hx).
    split; [by eapply extends_in_range|]. split; [by eapply extends_in_range|]. by rewrite !Hv.
  - intros k c Hc. destruct (Hm k c Hc) as (Hk & Hi & Hx).
    split; [by eapply extends_in_range|]. split; [by eapply extends_in_range|]. by rewrite !Hv.
  - intros l c Hc. destruct (Hh l c Hc) as (Hk & Hi & Hx).
    split; [eapply Forall_impl; [exact Hk|]; intros i; by apply (extends_in_range _ _ _ _ _ He)|].
    split; [by eapply extends_in_range|]. rewrite Hv by done. rewrite Hx. do 3 f_equal.
    apply map_ext_in. intros a Ha. rewrite Hv; [done|]. rewrite List.Forall_forall in Hk. by apply Hk.
Qed.

Lemma state_ok_elements s h e cl v w : state_ok s cl v w -> state_ok (set_stack h e s) cl v w.
Proof using. intros [? ? ? ? ? ? ?]. by split. Qed.

Lemma state_ok_same_but_elements s s' cl v w : same_but_elements s s' -> state_ok s cl v w -> state_ok s' cl v w.
Proof using. intros ->. apply state_ok_elements. Qed.

Lemma state_ok_same s cl v w w' : same w w' -> good w' -> known cl v -> state_ok s cl v w -> state_ok s cl v w'.
Proof using.
  intros Hsame Hg' Hkn [Hg Hw Hen Hsq Hs Hm Hh]. pose proof Hsame as [Hmem Hsto Henv].
  split; [done| | |done| | |exact Hh].
  - by rewrite <- Hsame.
  - by rewrite Hen.
  - intros k c Hc. rewrite <- Hsto by (by eapply known_word). by apply Hs.
  - intros k c Hc. rewrite <- (readWord_proper _ _ Hmem _ _ eq_refl). by apply Hm.
Qed.

(** The stack is the same. *)
Definition same_stack (s s' : KnownState) : Prop :=
  m_stackElements s' = m_stackElements s /\ m_stackHeight s' = m_stackHeight s.

Lemma same_stack_ok s s' cl v st : same_stack s s' -> stack_ok s cl v st -> stack_ok s' cl v st.
Proof using.
  intros [He Hh] [Hk Hr Hlen]. split; unfold at_height; rewrite ?He, ?Hh; [apply Hk|apply Hr|exact Hlen].
Qed.

Lemma class_item (i : Instruction) loc seq l :
  item_value Sem (opItem i loc) seq l = bseq seq i l.
Proof using. done. Qed.

Lemma loadFromStorage_runs s cl v w k loc :
  known cl v -> state_ok s cl v w -> in_range cl k ->
  runs (fun n => loadFromStorage n t k loc) s cl v (fun c s' cl' v' =>
    same_stack s s' /\ m_sequenceNumber s' = m_sequenceNumber s /\ state_ok s' cl' v' w /\ in_range cl' c /\
    v' c = sto w (v k)).
Proof using All.
  intros Hkn Hs Hk. unfold loadFromStorage. apply runs_get.
  destruct (m_storageContent s !! k) as [c|] eqn:Hc.
  - apply runs_ret; [done|]. destruct (st_storage _ _ _ _ Hs k c Hc) as (_ & Hi & Hv). by repeat (split; [done|]).
  - apply runs_get. eapply runs_bind; [apply find_runs; [done|by split|exact (st_seq _ _ _ _ Hs)|by right|by apply Forall_singleton]|].
    intros c s' cl' v' Hkn' He (-> & Hi & Hv). apply runs_modify; [done|]. apply runs_ret; [done|].
    assert (v' c = sto w (v k)) as Hvk.
    { rewrite Hv, class_item. cbn [map blockSeqop].
      symmetry. apply (same_sto _ _ (st_world _ _ _ _ Hs)). by eapply known_word. }
    split; [done|]. split; [done|]. split; [|done].
    destruct (state_ok_extends _ _ _ _ _ _ He Hs) as [? ? ? ? Hst ? ?]. split; [done..| |done|done].
    intros k' c' Hc'. cbn in Hc'. destruct (decide (k = k')) as [<-|Hne].
    + rewrite lookup_insert_eq in Hc'. injection Hc' as <-.
      split; [by eapply extends_in_range|]. split; [done|]. rewrite Hvk, (ext_value _ _ _ _ He k Hk). reflexivity.
    + rewrite lookup_insert_ne in Hc' by done. by apply Hst.
Qed.

Lemma loadFromMemory_runs s cl v w k loc :
  known cl v -> state_ok s cl v w -> in_range cl k ->
  runs (fun n => loadFromMemory n t k loc) s cl v (fun c s' cl' v' =>
    same_stack s s' /\ m_sequenceNumber s' = m_sequenceNumber s /\ state_ok s' cl' v' w /\ in_range cl' c /\
    v' c = readWord (mem w) (v k)).
Proof using All.
  intros Hkn Hs Hk. unfold loadFromMemory. apply runs_get.
  destruct (m_memoryContent s !! k) as [c|] eqn:Hc.
  - apply runs_ret; [done|]. destruct (st_memory _ _ _ _ Hs k c Hc) as (_ & Hi & Hv). by repeat (split; [done|]).
  - apply runs_get. eapply runs_bind; [apply find_runs; [done|by split|exact (st_seq _ _ _ _ Hs)|by right|by apply Forall_singleton]|].
    intros c s' cl' v' Hkn' He (-> & Hi & Hv). apply runs_modify; [done|]. apply runs_ret; [done|].
    assert (v' c = readWord (mem w) (v k)) as Hvk.
    { rewrite Hv, class_item. cbn [map blockSeqop].
      symmetry. exact (readWord_proper _ _ (same_mem _ _ (st_world _ _ _ _ Hs)) _ _ eq_refl). }
    split; [done|]. split; [done|]. split; [|done].
    destruct (state_ok_extends _ _ _ _ _ _ He Hs) as [? ? ? ? ? Hmm ?]. split; [done..| |done].
    intros k' c' Hc'. cbn in Hc'. destruct (decide (k = k')) as [<-|Hne].
    + rewrite lookup_insert_eq in Hc'. injection Hc' as <-.
      split; [by eapply extends_in_range|]. split; [done|]. rewrite Hvk, (ext_value _ _ _ _ He k Hk). reflexivity.
    + rewrite lookup_insert_ne in Hc' by done. by apply Hmm.
Qed.

Lemma keepEntries_runs (keep : nat -> Z * Z -> K bool) (P : Z * Z -> Prop) items : forall kept s cl v,
  known cl v ->
  (forall it s cl' v', In it items -> known cl' v' -> extends cl cl' v v' ->
     runs (fun n => keep n it) s cl' v' (fun b s' cl2 _ => s' = s /\ grows cl' cl2 /\ (b = true -> P it))) ->
  runs (fun n => keepEntries (keep n) items kept) s cl v (fun m s' cl' v' =>
    s' = s /\ grows cl cl' /\ forall k c, m !! k = Some c -> kept !! k = Some c \/ (In (k, c) items /\ P (k, c))).
Proof using.
  induction items as [|it items IH]; intros kept s cl v Hkn Hkeep; cbn [keepEntries].
  - apply runs_ret; [done|]. split; [done|]. by split; [apply grows_refl|left].
  - eapply runs_bind; [apply Hkeep; [by left|done|apply extends_refl]|].
    intros b s1 cl1 v1 Hkn1 He1 (-> & Hg1 & Hb).
    eapply runs_last; [apply IH; [done|]|].
    { intros it' s' cl' v' Hin Hkn' He'. apply Hkeep; [by right|done|by eapply extends_trans]. }
    intros m s' cl' v' _ _ (-> & Hg2 & Hm). split; [done|]. split; [by eapply grows_trans|]. intros k c Hc.
    destruct (Hm k c Hc) as [Hl|[Hin HP]]; [|right; by split; [right|]].
    destruct b; [|by left]. destruct it as [k' c']. cbn [fst snd] in Hl.
    destruct (decide (k' = k)) as [->|Hne].
    + rewrite lookup_insert_eq in Hl. injection Hl as ->. right. split; [by left|by apply Hb].
    + rewrite lookup_insert_ne in Hl by done. by left.
Qed.

Lemma entries_In m k c : In (k, c) (entries m) <-> m !! k = Some c.
Proof using.
  unfold entries. rewrite <- list_elem_of_In, merge_sort_Permutation. apply elem_of_map_to_list.
Qed.

(** What a store does to the world; [x] is the class of the value. *)
Definition store_effect (op : StoreOperation) (x : Z) (v : Z -> Z) (w w' : W) : Prop :=
  match target op with
  | Storage => mem_eq (mem w') (mem w) /\ sto_eq (sto w') (fun k => if k =? v (slot op) then v x else sto w k)
  | Memory => mem_eq (mem w') (writeWord (mem w) (v (slot op)) (v x)) /\ sto_eq (sto w') (sto w)
  | Invalid => False
  end.

(** A store that is executed takes two sequence numbers; its class, the only one with the
    first of them, is represented by the store instruction. *)
Record store_made (s : KnownState) (cl : ExpressionClasses) (s' : KnownState) (cl' : ExpressionClasses)
    (v' : Z -> Z) (w w' : W) (op : StoreOperation) : Prop := {
  sm_seq : m_sequenceNumber s' = m_sequenceNumber s + 2;
  sm_op : store_sequenceNumber op = m_sequenceNumber s + 1;
  sm_rep : exists x r, in_range cl' (slot op) /\ in_range cl' x /\
    representative (m_representatives cl') (expression op) = Some r /\
    represents r (opItem (store_instruction (target op)) noLocation) (m_sequenceNumber s + 1) [slot op; x] /\
    store_effect op x v' w w';
  sm_only : bounded s cl -> classes_size cl' = expression op + 1 /\
    forall i e, m_representatives cl' !! i = Some e -> sequenceNumber e <= m_sequenceNumber s + 1 /\
      (sequenceNumber e = m_sequenceNumber s + 1 -> Z.of_nat i = expression op) }.

(** A store changes neither the stack nor the hashes; or it is not executed and the world it
    would lead to is the same. *)
Definition store_taken (s : KnownState) (cl : ExpressionClasses) (s' : KnownState) (cl' : ExpressionClasses)
    (v' : Z -> Z) (w w' : W) (op : StoreOperation) : Prop :=
  if isValid op then store_made s cl s' cl' v' w w' op
  else m_sequenceNumber s' = m_sequenceNumber s /\ same w w'.

Definition store_runs (m : nat -> K StoreOperation) (s : KnownState) cl v (w w' : W) : Prop :=
  runs m s cl v (fun op s' cl' v' =>
    same_stack s s' /\ store_taken s cl s' cl' v' w w' op /\
    (same w' (ω (m_sequenceNumber s')) -> state_ok s' cl' v' w')).

Lemma store_asked i n loc l :
  isStore i = true -> 0 < n -> Z.odd n = true -> asked (opItem i loc) (n + 1) l.
Proof using.
  clear short0. intros Hi Hn Ho. unfold asked. cbn [m_type opItem m_instruction].
  assert (sequenced i = true /\ readsState i = false) as [-> ->] by (destruct i; try discriminate Hi; done).
  rewrite Z.odd_add, Ho. split; [lia|done].
Qed.

Lemma representative_lookup reps i e : representative reps i = Some e -> reps !! Z.to_nat i = Some e /\ 0 <= i.
Proof using. clear short0. unfold representative. destruct (Z.leb_spec 0 i); [done|discriminate]. Qed.

Lemma store_made_intro s cl cl1 s' cl2 v v2 tgt k x id w w' loc :
  0 <= m_sequenceNumber s -> grows cl cl1 ->
  represented cl2 id (opItem (store_instruction tgt) loc) (m_sequenceNumber s + 1) [k; x] ->
  at_most_added cl1 cl2 id ->
  extends cl cl2 v v2 -> in_range cl k -> in_range cl x -> m_sequenceNumber s' = m_sequenceNumber s + 2 ->
  store_effect (mkStore tgt k (m_sequenceNumber s + 1) id) x v w w' ->
  store_made s cl s' cl2 v2 w w' (mkStore tgt k (m_sequenceNumber s + 1) id).
Proof using.
  clear short0. intros H0 Hg (r & Hr & Hrep) Hadd He Hk Hx Hs Heff. split; [exact Hs|done| |].
  - exists x, r. split; [by eapply extends_in_range|]. split; [by eapply extends_in_range|].
    split; [exact Hr|]. split; [exact Hrep|]. unfold store_effect in *. cbn [target slot] in *.
    by rewrite (ext_value _ _ _ _ He k Hk), (ext_value _ _ _ _ He x Hx).
  - intros Hb. cbn [expression].
    assert (forall i e, m_representatives cl1 !! i = Some e -> sequenceNumber e <= m_sequenceNumber s) as Hold.
    { intros i e Hi1. destruct (grows_lookup _ _ _ _ Hg Hi1) as [Hi0|Hz]; [by apply (Hb i e)|lia]. }
    destruct Hrep as (_ & _ & _ & _ & Hq).
    destruct Hadd as [Hadd|(-> & r' & Hadd)]; rewrite Hadd in *.
    { apply representative_lookup in Hr as [Hr _]. specialize (Hold _ _ Hr). lia. }
    rewrite representative_fresh in Hr. injection Hr as ->.
    split; [unfold classes_size; rewrite Hadd, length_app; cbn; lia|].
    intros i e Hi. apply lookup_app_Some in Hi as [Hi|[Hge Hi]]; [specialize (Hold _ _ Hi); lia|].
    apply list_lookup_singleton_Some in Hi as [Hi <-]. split; [lia|]. intros _. unfold classes_size. lia.
Qed.

Lemma storeInStorage_runs s cl v w w' k x loc :
  known cl v -> state_ok s cl v w -> in_range cl k -> in_range cl x ->
  m_sequenceNumber s + 2 < 2 ^ 32 ->
  good w' -> mem_eq (mem w') (mem w) -> same_environment w w' ->
  sto_eq (sto w') (fun k' => if k' =? v k then v x else sto w k') ->
  store_runs (fun n => storeInStorage n t k x loc) s cl v w w'.
Proof using All.
  intros Hkn Hs Hk Hx Hsq Hg' Hmem Henv Hsto. unfold store_runs, storeInStorage. apply runs_get.
  pose proof (st_seq _ _ _ _ Hs) as [Hs0 Hodd].
  destruct (bool_decide_reflect (m_storageContent s !! k = Some x)) as [Hc|Hc].
  - apply runs_ret; [done|]. destruct (st_storage _ _ _ _ Hs k x Hc) as (_ & _ & Hv).
    assert (same w w') as Hsame.
    { split; [by symmetry| |done]. intros k' Hk'. rewrite Hsto by done.
      destruct (Z.eqb_spec k' (v k)) as [->|]; done. }
    split; [done|]. split; [by split|]. intros _. by eapply state_ok_same.
  - apply runs_modify; [cbn; rewrite unsigned_small; lia|]. eapply runs_bind.
    { apply (keepEntries_runs _ (fun p => v (fst p) <> v k \/ snd p = x)); [done|].
      intros [k' c'] s' cl' v' Hin Hkn' He'. apply entries_In in Hin.
      destruct (st_storage _ _ _ _ Hs k' c' Hin) as (Hk' & _ & _). cbn [fst snd].
      eapply runs_bind.
      { apply runs_classes. apply (knownToBeDifferent_answers bop bseq bpush (blockSeqop_pure w0 ω)
          (blockSeqop_range w0 ω goodω) (blockPushed_range st0 words0) t rules cl' v' k' k Hkn');
          by eapply extends_in_range. }
      intros b s'' cl2 v2 Hkn2 He2 (-> & Hg & Hb). apply runs_ret; [done|]. split; [done|]. split; [exact Hg|].
      intros Hor. apply orb_true_iff in Hor as [->|Hor]; [left|right; by apply Z.eqb_eq].
      rewrite <- (ext_value _ _ _ _ He' k' Hk'), <- (ext_value _ _ _ _ He' k Hk). by apply Hb. }
    intros m s1 cl1 v1 Hkn1 He1 (-> & Hg1 & Hm). apply runs_modify; [done|]. apply runs_get.
    cbn [m_sequenceNumber set_sequenceNumber set_storageContent set_memoryContent].
    rewrite (unsigned_small (m_sequenceNumber s + 1)) by lia.
    eapply runs_bind; [apply find_runs_added; [done|by split|by apply store_asked|by right|]|].
    { by repeat constructor; eapply extends_in_range. }
    intros id s2 cl2 v2 Hkn2 He2 (-> & _ & _ & Hrep & Hadd). apply runs_modify; [done|].
    apply runs_modify; [cbn; rewrite unsigned_small; lia|]. apply runs_ret; [done|].
    cbn [m_sequenceNumber set_sequenceNumber set_storageContent m_storageContent]. rewrite (unsigned_small (m_sequenceNumber s + 1 + 1)) by lia.
    pose proof (extends_trans _ _ _ _ _ _ He1 He2) as He.
    split; [done|]. split.
    { apply (store_made_intro s cl cl1 _ cl2 v v2 Storage k x id w w' loc); try done; [lia|by apply Hrep|cbn; lia]. }
    intros Hw'.
    destruct (state_ok_extends _ _ _ _ _ _ He Hs) as [? ? Hen ? _ Hmm Hh].
    split; [done|done|by rewrite Hen|cbn; split; [lia|by rewrite <- Z.add_assoc, Z.odd_add, Hodd]| | |exact Hh].
    + intros k' c' Hc'. cbn in Hc'. destruct (decide (k = k')) as [<-|Hne].
      * rewrite lookup_insert_eq in Hc'. injection Hc' as <-.
        split; [by eapply extends_in_range|]. split; [by eapply extends_in_range|].
        rewrite Hsto by (by eapply known_word).
        rewrite (ext_value _ _ _ _ He k Hk), (ext_value _ _ _ _ He x Hx), Z.eqb_refl. done.
      * rewrite lookup_insert_ne in Hc' by done.
        destruct (Hm k' c' Hc') as [Hemp|[Hin HP]]; [by rewrite lookup_empty in Hemp|].
        apply entries_In in Hin. destruct (st_storage _ _ _ _ Hs k' c' Hin) as (Hk' & Hi' & Hv').
        split; [by eapply extends_in_range|]. split; [by eapply extends_in_range|].
        rewrite Hsto by (by eapply known_word).
        rewrite (ext_value _ _ _ _ He k' Hk'), (ext_value _ _ _ _ He c' Hi').
        destruct (Z.eqb_spec (v k') (v k)) as [Heq|]; [|done].
        destruct HP as [Hd|Hd]; [done|]. by rewrite <- Hd.
    + intros k' c' Hc'. destruct (Hmm k' c' Hc') as (H1 & H2 & H3). split; [done|]. split; [done|].
      rewrite <- H3. exact (readWord_proper _ _ Hmem _ _ eq_refl).
Qed.

Lemma storeInMemory_runs s cl v w w' k x loc :
  known cl v -> state_ok s cl v w -> in_range cl k -> in_range cl x ->
  m_sequenceNumber s + 2 < 2 ^ 32 ->
  good w' -> mem_eq (mem w') (writeWord (mem w) (v k) (v x)) -> same_environment w w' ->
  sto_eq (sto w') (sto w) ->
  store_runs (fun n => storeInMemory n t k x loc) s cl v w w'.
Proof using All.
  intros Hkn Hs Hk Hx Hsq Hg' Hmem Henv Hsto. unfold store_runs, storeInMemory. apply runs_get.
  pose proof (st_seq _ _ _ _ Hs) as [Hs0 Hodd]. pose proof (good_mem _ (st_good _ _ _ _ Hs)) as Hbytes.
  assert (forall a, readWord (mem w') a = readWord (writeWord (mem w) (v k) (v x)) a) as Hread
    by (intros a; exact (readWord_proper _ _ Hmem _ _ eq_refl)).
  destruct (bool_decide_reflect (m_memoryContent s !! k = Some x)) as [Hc|Hc].
  - apply runs_ret; [done|]. destruct (st_memory _ _ _ _ Hs k x Hc) as (_ & _ & Hv).
    assert (same w w') as Hsame.
    { split; [|by symmetry|done]. symmetry. etrans; [exact Hmem|].
      apply writeWord_known; [done|by eapply known_word|exact Hv]. }
    split; [done|]. split; [by split|]. intros _.
    by apply (state_ok_same s cl v w w').
  - apply runs_modify; [cbn; rewrite unsigned_small; lia|]. eapply runs_bind.
    { apply (keepEntries_runs _ (fun p => 32 <= u256_sub (v (fst p)) (v k) <= modulus - 32)); [done|].
      intros [k' c'] s' cl' v' Hin Hkn' He'. apply entries_In in Hin.
      destruct (st_memory _ _ _ _ Hs k' c' Hin) as (Hk' & _ & _). cbn [fst snd].
      eapply runs_last.
      { apply runs_classes. apply (knownToBeDifferentBy32_answers bop bseq bpush (blockSeqop_pure w0 ω)
          (blockSeqop_range w0 ω goodω) (blockPushed_range st0 words0) t rules cl' v' k' k Hkn');
          by eapply extends_in_range. }
      intros b s'' cl2 v2 Hkn2 He2 (-> & Hg & Hb). split; [done|]. split; [exact Hg|].
      rewrite <- (ext_value _ _ _ _ He' k' Hk'), <- (ext_value _ _ _ _ He' k Hk). exact Hb. }
    intros m s1 cl1 v1 Hkn1 He1 (-> & Hg1 & Hm). apply runs_modify; [done|]. apply runs_get.
    cbn [m_sequenceNumber set_sequenceNumber set_storageContent set_memoryContent].
    rewrite (unsigned_small (m_sequenceNumber s + 1)) by lia.
    eapply runs_bind; [apply find_runs_added; [done|by split|by apply store_asked|by right|]|].
    { by repeat constructor; eapply extends_in_range. }
    intros id s2 cl2 v2 Hkn2 He2 (-> & _ & _ & Hrep & Hadd). apply runs_modify; [done|].
    apply runs_modify; [cbn; rewrite unsigned_small; lia|]. apply runs_ret; [done|].
    cbn [m_sequenceNumber set_sequenceNumber set_memoryContent m_memoryContent]. rewrite (unsigned_small (m_sequenceNumber s + 1 + 1)) by lia.
    pose proof (extends_trans _ _ _ _ _ _ He1 He2) as He.
    split; [done|]. split.
    { apply (store_made_intro s cl cl1 _ cl2 v v2 Memory k x id w w' loc); try done; [lia|by apply Hrep|cbn; lia]. }
    intros Hw'.
    destruct (state_ok_extends _ _ _ _ _ _ He Hs) as [? ? Hen ? Hst _ Hh].
    split; [done|exact Hw'|by rewrite Hen|cbn; split; [lia|by rewrite <- Z.add_assoc, Z.odd_add, Hodd]| | |exact Hh].
    + intros k' c' Hc'. destruct (Hst k' c' Hc') as (H1 & H2 & H3). split; [done|]. split; [done|].
      rewrite <- H3. apply Hsto. by eapply known_word.
    + intros k' c' Hc'. cbn in Hc'. rewrite Hread. destruct (decide (k = k')) as [<-|Hne].
      * rewrite lookup_insert_eq in Hc'. injection Hc' as <-.
        split; [by eapply extends_in_range|]. split; [by eapply extends_in_range|].
        rewrite (ext_value _ _ _ _ He k Hk), (ext_value _ _ _ _ He x Hx).
        apply readWord_write. by eapply known_word.
      * rewrite lookup_insert_ne in Hc' by done.
        destruct (Hm k' c' Hc') as [Hemp|[Hin HP]]; [by rewrite lookup_empty in Hemp|].
        apply entries_In in Hin. destruct (st_memory _ _ _ _ Hs k' c' Hin) as (Hk' & Hi' & Hv').
        split; [by eapply extends_in_range|]. split; [by eapply extends_in_range|].
        rewrite (ext_value _ _ _ _ He k' Hk'), (ext_value _ _ _ _ He c' Hi'), <- Hv'.
        by apply readWord_write_far.
Qed.

(** ** Hashes *)

Lemma memoryWords_runs n : forall s cl v w i start loc,
  known cl v -> state_ok s cl v w -> in_range cl start -> 0 <= i -> i + 32 * Z.of_nat n < modulus ->
  runs (fun f => memoryWords f t n i start loc) s cl v (fun l s' cl' v' =>
    same_stack s s' /\ m_sequenceNumber s' = m_sequenceNumber s /\ state_ok s' cl' v' w /\
    Forall (in_range cl') l /\
    map v' l = map (fun j => readWord (mem w) (u256_add (v start) (i + 32 * Z.of_nat j))) (seq 0 n)).
Proof using All.
  induction n as [|n IH]; intros s cl v w i start loc Hkn Hs Hst Hi Hn; cbn [memoryWords].
  - apply runs_ret; [done|]. split; [done|]. split; [done|]. split; [exact Hs|]. by split; [constructor|].
  - assert (is_u256 i) as Hiw by (unfold is_u256; lia).
    eapply runs_bind; [apply find_runs; [done|by split|by split|by left|constructor]|].
    intros o s1 cl1 v1 Hkn1 He1 (-> & Ho & Hvo). cbn in Hvo.
    eapply runs_bind; [apply find_runs; [done|by split|by split|by left|]|].
    { apply Forall_cons_2; [by eapply extends_in_range|by apply Forall_singleton]. }
    intros a s2 cl2 v2 Hkn2 He2 (-> & Ha & Hva). rewrite class_item in Hva.
    cbn [map blockSeqop] in Hva. rewrite (op_ADD bop), Hvo, (ext_value _ _ _ _ He1 start Hst) in Hva
      by (try exact bop_words; by eapply known_word).
    pose proof (extends_trans _ _ _ _ _ _ He1 He2) as He12.
    pose proof (state_ok_extends _ _ _ _ _ _ He12 Hs) as Hs2.
    eapply runs_bind; [exact (loadFromMemory_runs s cl2 v2 w a loc Hkn2 Hs2 Ha)|].
    intros c s3 cl3 v3 Hkn3 He3 (Hst3 & Hq3 & Hs3 & Hc & Hvc).
    pose proof (extends_trans _ _ _ _ _ _ He12 He3) as He13.
    eapply runs_bind; [apply (IH s3 cl3 v3 w (i + 32) start loc Hkn3 Hs3); [by eapply extends_in_range|lia|lia]|].
    intros l s4 cl4 v4 Hkn4 He4 (Hst4 & Hq4 & Hs4 & Hl & Hvl). apply runs_ret; [done|].
    split; [unfold same_stack in *; destruct Hst3, Hst4; split; congruence|]. split; [congruence|].
    split; [exact Hs4|]. split; [constructor; [by eapply extends_in_range|exact Hl]|].
    cbn [map seq]. rewrite Hvl, (ext_value _ _ _ _ He4 c Hc), Hvc, Hva. apply (f_equal2 cons).
    + rewrite Z.add_0_r. reflexivity.
    + rewrite <- seq_shift, map_map. apply map_ext. intros j.
      rewrite (ext_value _ _ _ _ He13 start Hst).
      replace (i + 32 + 32 * Z.of_nat j) with (i + 32 * Z.of_nat (Datatypes.S j)) by lia. reflexivity.
Qed.

(** The constant known for a class. *)
Lemma knownConstant_known cl v a :
  known cl v -> in_range cl a ->
  exists o, knownConstant cl a = Some o /\ (forall x, o = Some x -> v a = x).
Proof using WorldLaws0 StateLaws0 rules good0 goodω words0.
  exact (knownConstant_answers bop bseq bpush (blockSeqop_pure w0 ω) (blockSeqop_range w0 ω goodω)
    (blockPushed_range st0 words0) t rules cl v a).
Qed.

Lemma knownConstants_runs l : forall s cl v,
  known cl v -> Forall (in_range cl) l ->
  runs (fun _ => knownConstants l) s cl v (fun o s' cl' v' =>
    s' = s /\ forall cs, o = Some cs -> map v' l = cs).
Proof using All.
  induction l as [|a l IH]; intros s cl v Hkn Hl; cbn [knownConstants].
  - apply runs_ret; [done|]. split; [done|]. by intros cs [= <-].
  - apply Forall_cons in Hl as [Ha Hl]. destruct (knownConstant_known cl v a Hkn Ha) as (o & Ho & Hv).
    eapply runs_query; [exact Ho|]. destruct o as [c|]; [|apply runs_ret; [done|by split]].
    eapply runs_bind; [by apply IH|].
    intros o1 s1 cl1 v1 Hkn1 He1 (-> & Hcs). apply runs_ret; [done|]. split; [done|].
    intros cs. destruct o1 as [cs1|]; [|done]. cbn. intros [= <-].
    by rewrite (Hcs cs1 eq_refl), (ext_value _ _ _ _ He1 a Ha), (Hv c eq_refl).
Qed.

Lemma value_perform i l w x w' : perform i l w = inl ([x], w') -> value i l w = x.
Proof using. unfold value. by intros ->. Qed.

(** Words make up all of the bytes hashed. *)
Lemma resize_words n l : n = (32 * length l)%nat ->
  resize n (concat (map (toBigEndian 32) l)) = concat (map (toBigEndian 32) l).
Proof using.
  clear short0. intros ->. assert (length (concat (map (toBigEndian 32) l)) = (32 * length l)%nat) as Hl.
  { induction l as [|x l IH]; [done|]. cbn [map concat length]. rewrite length_app, IH, toBigEndian_length. lia. }
  unfold resize. rewrite Hl, Nat.sub_diag, <- Hl, firstn_all. apply app_nil_r.
Qed.

(** The class of a KECCAK256 instruction at the current sequence number. *)
Lemma keccakItem_runs s cl v w a n x w' loc :
  known cl v -> state_ok s cl v w -> in_range cl a -> in_range cl n ->
  perform KECCAK256 [v a; v n] w = inl ([x], w') ->
  runs (fun f => kbind (kget m_sequenceNumber) (fun seq => findClass f t seq (opItem KECCAK256 loc) [a; n]))
    s cl v (fun c s' cl' v' => s' = s /\ in_range cl' c /\ v' c = x).
Proof using All.
  intros Hkn Hs Ha Hn Hp. apply runs_get. eapply runs_last.
  { apply find_runs; [done|by split|exact (st_seq _ _ _ _ Hs)|by right|].
    by repeat constructor; apply Ha || apply Hn. }
  intros c s' cl' v' _ _ (-> & Hc & Hv). split; [done|]. split; [done|]. rewrite Hv, class_item.
  cbn [map blockSeqop].
  rewrite <- (law_hash (v a) (v n) w); [|by eapply known_word..|].
  2: { intros _. exact (readBytes_proper _ _ (same_mem _ _ (st_world _ _ _ _ Hs)) _ _ eq_refl _ _ eq_refl). }
  by apply (value_perform _ _ _ _ w').
Qed.

Lemma hash_insert s cl v w l c :
  state_ok s cl v w -> Forall (in_range cl) l -> in_range cl c ->
  v c = u256 (keccak256 (concat (map (fun a => toBigEndian 32 (v a)) l))) ->
  state_ok (set_hashes (<[l := c]> (m_knownKeccak256Hashes s)) s) cl v w.
Proof using.
  intros [? ? ? ? ? ? Hh] Hl Hc Hv. split; [done|done|done|done|done|done|].
  intros l' c' Hc'. cbn in Hc'. destruct (decide (l = l')) as [<-|Hne].
  - rewrite lookup_insert_eq in Hc'. injection Hc' as <-. split; [exact Hl|]. split; [exact Hc|exact Hv].
  - rewrite lookup_insert_ne in Hc' by done. by apply Hh.
Qed.

(** Hashing a whole number of words. *)
Lemma applyKeccak256_runs s cl v w a n x w' loc :
  known cl v -> state_ok s cl v w -> in_range cl a -> in_range cl n ->
  v n mod 32 = 0 \/ 128 < v n ->
  perform KECCAK256 [v a; v n] w = inl ([x], w') ->
  runs (fun f => applyKeccak256 f t keccak256 a n loc) s cl v (fun c s' cl' v' =>
    same_stack s s' /\ m_sequenceNumber s' = m_sequenceNumber s /\ state_ok s' cl' v' w /\ in_range cl' c /\
    v' c = x).
Proof using All.
  intros Hkn Hs Ha Hn Hlen Hp. unfold applyKeccak256.
  assert (runs (fun f => kbind (kget m_sequenceNumber) (fun seq => findClass f t seq (opItem KECCAK256 loc) [a; n]))
    s cl v (fun c s' cl' v' => same_stack s s' /\ m_sequenceNumber s' = m_sequenceNumber s /\
      state_ok s' cl' v' w /\ in_range cl' c /\ v' c = x)) as Hclass.
  { eapply runs_last; [by apply (keccakItem_runs s cl v w a n x w')|].
    intros c s' cl' v' _ He (-> & Hc & Hv). split; [done|]. split; [done|].
    split; [by eapply state_ok_extends|by split]. }
  destruct (knownConstant_known cl v n Hkn Hn) as (o & Ho & Hvn).
  eapply runs_query; [exact Ho|]. destruct o as [len|]; [|exact Hclass].
  rewrite (Hvn len eq_refl) in *. destruct (Z.ltb_spec 128 len) as [Hlong|Hshort]; [exact Hclass|].
  destruct Hlen as [Hlen|]; [|lia]. pose proof (known_word _ _ _ cl v n Hkn) as Hw.
  rewrite (Hvn len eq_refl) in Hw. unfold is_u256 in Hw.
  set (k := Z.to_nat (len / 32)). assert (len = 32 * Z.of_nat k) as Hk.
  { unfold k. rewrite Z2Nat.id by (apply Z.div_pos; lia). pose proof (Z.div_mod len 32). lia. }
  assert (Z.to_nat ((len + 31) / 32) = k) as ->.
  { unfold k. f_equal. rewrite Hk, Z.mul_comm, Z.div_add_l, Z.div_mul by lia. by rewrite Z.add_0_r. }
  eapply runs_bind; [apply (memoryWords_runs k s cl v w 0 a loc Hkn Hs Ha); unfold modulus in *; lia|].
  intros l s1 cl1 v1 Hkn1 He1 (Hst1 & Hq1 & Hs1 & Hl & Hvl).
  assert (x = u256 (keccak256 (concat (map (toBigEndian 32) (map v1 l))))) as Hx.
  { destruct (law_keccak (v a) len w [x] w' (st_good _ _ _ _ Hs)) as (_ & _ & Hh);
      [by eapply known_word|exact Hw|exact Hp|]. specialize (Hh Hshort). injection Hh as ->.
    rewrite Hvl, Hk. replace (Z.to_nat (32 * Z.of_nat k)) with (32 * k)%nat by lia.
    rewrite readBytes_words by (by apply good_mem, (st_good _ _ _ _ Hs)). rewrite map_map. reflexivity. }
  rewrite map_map in Hx. apply runs_get.
  destruct (m_knownKeccak256Hashes s1 !! l) as [c|] eqn:Hc.
  { apply runs_ret; [done|]. destruct (st_hash _ _ _ _ Hs1 l c Hc) as (_ & Hi & Hv).
    split; [done|]. split; [done|]. split; [exact Hs1|]. split; [done|]. rewrite Hv, Hx. reflexivity. }
  eapply runs_bind; [by apply (knownConstants_runs l s1 cl1 v1)|].
  intros cs s2 cl2 v2 Hkn2 He2 (-> & Hcs).
  pose proof (extends_trans _ _ _ _ _ _ He1 He2) as He12.
  pose proof (state_ok_extends _ _ _ _ _ _ He2 Hs1) as Hs2.
  assert (map v2 l = map v1 l) as Hmap by (by eapply map_extends).
  eapply (runs_bind _ _ _ _ _ (fun c s' cl' v' => s' = s1 /\ in_range cl' c /\ v' c = x)).
  { destruct cs as [cs|].
    - eapply runs_last; [apply find_runs; [done|split; [done|intros _; apply u256_range]|by split|by left|constructor]|].
      intros c s3 cl3 v3 _ _ (-> & Hc3 & Hv3). split; [done|]. split; [done|]. cbn in Hv3.
      rewrite Hv3, Hx, <- (map_map v1 (toBigEndian 32)), <- Hmap, (Hcs cs eq_refl).
      rewrite resize_words; [reflexivity|].
      rewrite <- (Hcs cs eq_refl), length_map. rewrite Hk.
      assert (length l = k) as Hlen' by (apply (f_equal length) in Hvl; by rewrite !length_map, length_seq in Hvl).
      rewrite Hlen'. lia.
    - apply (keccakItem_runs s1 cl2 v2 w a n x w'); [done|exact Hs2|by eapply extends_in_range|by eapply extends_in_range|].
      by rewrite (ext_value _ _ _ _ He12 a Ha), (ext_value _ _ _ _ He12 n Hn), (Hvn len eq_refl). }
  intros c s3 cl3 v3 Hkn3 He3 (-> & Hc3 & Hv3). apply runs_modify; [done|]. apply runs_ret; [done|].
  split; [done|]. split; [done|]. split; [|by split].
  apply (hash_insert _ _ _ w); [by eapply state_ok_extends| |exact Hc3|].
  - eapply Forall_impl; [exact Hl|]. intros i Hi.
    eapply extends_in_range; [exact He3|]. eapply extends_in_range; [exact He2|exact Hi].
  - rewrite Hv3, Hx. do 3 f_equal. apply map_ext_in. intros i Hi. rewrite List.Forall_forall in Hl.
    rewrite (ext_value _ _ _ _ (extends_trans _ _ _ _ _ _ He2 He3) i (Hl i Hi)). reflexivity.
Qed.
End Sound.
