(* ===== verification/KnownFeed.v ===== *)
(** * KnownFeed: feeding the items of a block

    Feeding an item of a block, one that does not break the analysis of
    CommonSubexpressionEliminator, keeps what is known true of the machine that executes
    the item.  KECCAK256 is fed on a whole number of words, and the signal instructions,
    which the instruction table declares free of side effects, are left out. *)

From S2P Require Import Prelude U256 CommonData Instruction AssemblyItem SemanticInformation Interpreter Pattern RuleList SimplificationRules ExpressionClasses KnownState Machine RuleSound StateWorld MatchSound ClassSound WordClasses ClassShape ClassQueries KnownSound.

#[local] Opaque ruleSet Rules readWord readBytes writeWord toBigEndian fromBigEndian.

(** An item of a block, before the assembly assigns values to tags and sizes. *)
Definition block_item (it : AssemblyItem) : Prop :=
  breaksCSEAnalysisBlock it false = false /\ m_pushedValue it = None /\
  match m_type it with
  | Operation => isSignalInstruction (m_instruction it) = false
  | Push => is_u256 (m_data it)
  | _ => True
  end.

(** A hash on the stack is of a whole number of words, or of more than 128 bytes. *)
Definition whole_words (it : AssemblyItem) (st : list Z) : Prop :=
  is_op it KECCAK256 = true -> match st with _ :: n :: _ => n mod 32 = 0 \/ 128 < n | _ => True end.

(** ** Instructions of a block *)

Lemma dup_table i : isDupInstruction i = true ->
  getDupNumber i = opcode i - opcode DUP1 + 1 /\ 1 <= getDupNumber i /\
  Z.of_nat (ret (instructionInfo i)) - Z.of_nat (args (instructionInfo i)) = 1.
Proof. destruct i; try discriminate; intros _; vm_compute; repeat split; discriminate. Qed.

Lemma swap_table i : isSwapInstruction i = true ->
  getSwapNumber i = opcode i - opcode SWAP1 + 1 /\ 1 <= getSwapNumber i /\
  Z.of_nat (ret (instructionInfo i)) - Z.of_nat (args (instructionInfo i)) = 0.
Proof. destruct i; try discriminate; intros _; vm_compute; repeat split; discriminate. Qed.

Lemma deposit_operation it : m_type it = Operation ->
  to_int (deposit it) =
  Z.of_nat (ret (instructionInfo (m_instruction it))) - Z.of_nat (args (instructionInfo (m_instruction it))).
Proof.
  intros Ht. unfold deposit, returnValues, arguments. rewrite Ht. destruct (m_instruction it); reflexivity.
Qed.

(** The instructions of a block that are not treated apart by [feedItem]. *)
Definition special (i : Instruction) : bool :=
  isDupInstruction i || isSwapInstruction i ||
  match i with POP | SSTORE | SLOAD | MSTORE | MLOAD | KECCAK256 => true | _ => false end.

Lemma block_instruction it :
  block_item it -> m_type it = Operation -> special (m_instruction it) = false ->
  let i := m_instruction it in
  invalidatesMemory i = false /\ invalidatesStorage i = false /\ sideEffects (instructionInfo i) = false /\
  isStackInstruction i = false /\ readsState i = false /\
  (ret (instructionInfo i) = 0%nat \/ ret (instructionInfo i) = 1%nat /\ environment i = true).
Proof.
  intros (Hb & _ & Hs) Ht. unfold breaksCSEAnalysisBlock, item_isSwap, item_isDup in Hb. rewrite Ht in *.
  destruct (m_instruction it); try discriminate Hb; try discriminate Hs; intros Hsp; try discriminate Hsp;
    vm_compute; repeat split; auto.
Qed.

Section Feed.
Context {W H : Type} `{!World W H} `{!WorldLaws W H} `{!StateWorld W} {keccak256 : list Z -> Z}
  `{!StateLaws W H keccak256}.
Context (t : RuleTable) (rules : valid_rules t).
Context (w0 : W) (st0 : list Z) (ω : Z -> W).
Context (good0 : good w0) (goodω : forall s, good (ω s)) (words0 : Forall is_u256 st0)
  (short0 : Z.of_nat (length st0) < modulus).

Local Abbreviation bop := (blockOp w0).
Local Abbreviation Sem := (wordSemantics bop (blockSeqop w0 ω) (blockPushed st0)).
Local Abbreviation known := (known bop (blockSeqop w0 ω) (blockPushed st0)).
Local Abbreviation runs := (runs w0 st0 ω).
Local Abbreviation stack_ok := (stack_ok st0).
Local Abbreviation state_ok := (state_ok (keccak256 := keccak256) w0 ω).

(** The value of an instruction that reads the environment only. *)
Lemma environment_value i l w :
  environment i = true -> good w -> same_environment w0 w -> length l = args (instructionInfo i) ->
  Forall is_u256 l -> perform i l w = inl ([bop i l], w).
Proof using WorldLaws0.
  intros Hi Hg Hen Hn Hl.
  assert (sideEffects (instructionInfo i) = false /\ ret (instructionInfo i) = 1%nat /\
    isStackInstruction i = false /\ isSignalInstruction i = false) as (Hse & Hret & Hst & Hsig).
  { unfold environment in Hi. repeat (apply andb_true_iff in Hi as [Hi ?]). bool_to_prop.
    repeat split; try done. by apply Nat.eqb_eq. }
  destruct (eval_arith i l) as [x|] eqn:Ha.
  - unfold blockOp. rewrite Ha. by apply perform_arith.
  - destruct (perform_pure i l w Hse Hsig Hst Hn Hl) as [r Hr].
    destruct (perform_result _ _ _ _ _ Hr Hl) as [Hlen _]. rewrite Hret in Hlen.
    destruct r as [|x [|]]; try discriminate Hlen.
    rewrite Hr. unfold blockOp. rewrite Ha, Hi, Hn, Nat.eqb_refl. cbn [andb].
    rewrite (Hen i l Hi Hn Hl). unfold value. by rewrite Hr.
Qed.

(** What feeding an item leaves, when the machine goes from [w] to the stack [st'] and the
    world [w']. *)
Definition fed (s : KnownState) (cl : ExpressionClasses) (w : W) (st' : list Z) (w' : W)
    (op : StoreOperation) (s' : KnownState) (cl' : ExpressionClasses) (v' : Z -> Z) : Prop :=
  store_taken s cl s' cl' v' w w' op /\
  stack_ok s' cl' v' st' /\
  (same w' (ω (m_sequenceNumber s')) -> state_ok s' cl' v' w').

(** What an instruction leaves: the height is not changed yet, and one class [res] is put on
    the stack when the machine leaves a value. *)
Definition instruction_fed (s : KnownState) (cl : ExpressionClasses) (n : nat) (r : list Z) (w w' : W)
    (op : StoreOperation) (s' : KnownState) (cl' : ExpressionClasses) (v' : Z -> Z) : Prop :=
  store_taken s cl s' cl' v' w w' op /\
  m_stackHeight s' = m_stackHeight s /\
  (exists res : option Z, (forall c, res = Some c -> in_range cl' c) /\
    m_stackElements s' =
      match res with
      | Some c => <[m_stackHeight s - Z.of_nat n + 1 := c]> (m_stackElements s)
      | None => m_stackElements s
      end /\
    r = match res with Some c => [v' c] | None => [] end) /\
  (same w' (ω (m_sequenceNumber s')) -> state_ok s' cl' v' w').

(** A loaded class becomes the result. *)
Lemma result_fed (m : nat -> K Z) (it : AssemblyItem) s cl v w w' x n :
  m_type it = Operation -> ret (instructionInfo (m_instruction it)) = 1%nat ->
  args (instructionInfo (m_instruction it)) = n -> same w w' -> good w' ->
  runs m s cl v (fun c s' cl' v' => same_stack s s' /\ m_sequenceNumber s' = m_sequenceNumber s /\
    state_ok s' cl' v' w /\ in_range cl' c /\ v' c = x) ->
  runs (fun f => kbind (m f) (fun c => kbind (kget m_stackHeight) (fun height =>
      kbind (setStackElement (height + to_int (deposit it)) c) (fun _ => kret noStore))))
    s cl v (instruction_fed s cl n [x] w w').
Proof using All.
  intros Ht Hr Hn Hsame Hg Hm. eapply runs_bind; [exact Hm|].
  intros c s1 cl1 v1 Hkn1 He1 ([Hel Hh] & Hq & Hs1 & Hc & Hv). apply runs_get.
  unfold setStackElement. apply runs_modify; [done|]. apply runs_ret; [done|].
  rewrite deposit_operation, Hr, Hn by done. split; [by split|]. split; [done|].
  split.
  - exists (Some c). split; [by intros ? [= <-]|]. split; [|by rewrite Hv]. cbn. rewrite Hel, Hh.
    f_equal. lia.
  - intros _. apply state_ok_elements. by apply (state_ok_same w0 st0 ω _ _ _ w).
Qed.

(** The [default] case of the [switch]. *)
Lemma feedInstruction_default f it l :
  block_item it -> m_type it = Operation -> special (m_instruction it) = false ->
  feedInstruction f t keccak256 it l =
  kbind (kret tt) (fun _ => kbind (kret tt) (fun _ => kbind (kret tt) (fun _ =>
    kbind (kassert (Nat.leb (ret (instructionInfo (m_instruction it))) 1)) (fun _ =>
    if Nat.eqb (ret (instructionInfo (m_instruction it))) 1
    then kbind (findClass f t 0 it l) (fun c => kbind (kget m_stackHeight) (fun height =>
           kbind (setStackElement (height + to_int (deposit it)) c) (fun _ => kret noStore)))
    else kret noStore)))).
Proof using.
  intros Hb Ht Hs. destruct (block_instruction it Hb Ht Hs) as (Hm & Hst & _).
  unfold feedInstruction. cbn zeta. rewrite Hm, Hst.
  destruct (m_instruction it); try discriminate Hs; reflexivity.
Qed.

Lemma default_runs s cl v w it l r w' :
  known cl v -> state_ok s cl v w -> block_item it -> m_type it = Operation ->
  special (m_instruction it) = false -> Forall (in_range cl) l ->
  length l = args (instructionInfo (m_instruction it)) ->
  perform (m_instruction it) (map v l) w = inl (r, w') ->
  good w' /\ runs (fun f => feedInstruction f t keccak256 it l) s cl v
    (instruction_fed s cl (length l) r w w').
Proof using All.
  intros Hkn Hs Hb Ht Hsp Hl Hn Hp.
  destruct (block_instruction it Hb Ht Hsp) as (_ & _ & Hse & Hst & Hrd & Hret).
  assert (isSignalInstruction (m_instruction it) = false) as Hsig
    by (destruct Hb as (_ & _ & Hb); by rewrite Ht in Hb).
  assert (Forall is_u256 (map v l)) as Hw by (apply Forall_map, List.Forall_forall; intros i _; by eapply known_word).
  assert (length (map v l) = args (instructionInfo (m_instruction it))) as Hn' by (by rewrite length_map).
  destruct (perform_pure _ _ w Hse Hsig Hst Hn' Hw) as [r' Hp']. rewrite Hp in Hp'. injection Hp' as <- ->.
  destruct (perform_result _ _ _ _ _ Hp Hw) as [Hlen _].
  split; [apply (st_good _ _ _ _ _ _ Hs)|].
  assert (forall f, feedInstruction f t keccak256 it l = _) as Heq
    by (intros f; exact (feedInstruction_default f it l Hb Ht Hsp)).
  destruct Hret as [Hret|[Hret Henv]]; rewrite Hret in *.
  - exists noStore, s, cl, v. split; [exists 0%nat; intros fuel _; rewrite Heq; done|].
    split; [done|]. split; [apply extends_refl|]. split; [apply added_refl|]. split; [by split|]. split; [done|].
    split; [|done]. exists None. destruct r; [|discriminate Hlen]. done.
  - eapply runs_last; [|intros a s' cl' v' _ _ HQ; exact HQ].
    assert (runs (fun f => kbind (findClass f t 0 it l) (fun c => kbind (kget m_stackHeight) (fun height =>
           kbind (setStackElement (height + to_int (deposit it)) c) (fun _ => kret noStore)))) s cl v
      (instruction_fed s cl (length l) r w w)) as (a & s' & cl' & v' & [n Hev] & Hrest).
    { rewrite (environment_value _ _ _ Henv (st_good _ _ _ _ _ _ Hs) (st_env _ _ _ _ _ _ Hs) Hn' Hw) in Hp.
      injection Hp as <-. apply result_fed; try done; [apply (st_good _ _ _ _ _ _ Hs)|].
      eapply runs_last; [apply (find_runs t rules w0 st0 ω good0 goodω words0 short0); [done| | |by left|done]|].
      { split; [done|]. intros Hpush. by rewrite Ht in Hpush. }
      { unfold asked, plain. rewrite Ht, Henv. by rewrite (plain_sequenced (m_instruction it)) by (unfold plain; by rewrite Henv). }
      intros c s1 cl1 v1 _ He1 (-> & Hc & Hv). split; [done|]. split; [done|].
      split; [by eapply state_ok_extends|]. split; [done|]. rewrite Hv. unfold item_value. rewrite Ht.
      cbn [sem_seqop wordSemantics]. by rewrite blockSeqop_pure. }
    exists a, s', cl', v'. split; [|exact Hrest]. exists n. intros fuel Hf. rewrite Heq. by apply Hev.
Qed.

(** A store is an instruction that leaves no value. *)
Lemma store_fed (m : nat -> K StoreOperation) s cl v w w' n :
  store_runs (keccak256 := keccak256) w0 st0 ω m s cl v w w' ->
  runs m s cl v (instruction_fed s cl n [] w w').
Proof using All.
  intros Hm. eapply runs_last; [exact Hm|].
  intros op s' cl' v' _ _ ([Hel Hh] & Hq & Hok). split; [done|]. split; [done|].
  split; [by exists None|done].
Qed.

Lemma feedInstruction_runs s cl v w it l r w' :
  known cl v -> state_ok s cl v w -> m_sequenceNumber s + 2 < 2 ^ 32 -> block_item it ->
  m_type it = Operation -> item_isDup it = false -> item_isSwap it = false -> m_instruction it <> POP ->
  Forall (in_range cl) l -> length l = args (instructionInfo (m_instruction it)) ->
  perform (m_instruction it) (map v l) w = inl (r, w') -> whole_words it (map v l) ->
  good w' /\ runs (fun f => feedInstruction f t keccak256 it l) s cl v
    (instruction_fed s cl (length l) r w w').
Proof using All.
  intros Hkn Hs Hq Hb Ht Hnd Hns Hnp Hl Hn Hp Hww.
  destruct (special (m_instruction it)) eqn:Hsp; [|by apply default_runs].
  unfold item_isDup, item_isSwap in *. rewrite Ht in *.
  assert (forall i, is_op it i = bool_decide (m_instruction it = i)) as Hop by (intros i; unfold is_op; by rewrite Ht).
  assert (m_instruction it = SSTORE \/ m_instruction it = SLOAD \/ m_instruction it = MSTORE \/
    m_instruction it = MLOAD \/ m_instruction it = KECCAK256) as Hi.
  { unfold special in Hsp. rewrite Hnd, Hns in Hsp. cbn [orb] in Hsp.
    destruct (m_instruction it); try discriminate Hsp; tauto. }
  pose proof (st_good _ _ _ _ _ _ Hs) as Hg.
  destruct Hi as [Hi|[Hi|[Hi|[Hi|Hi]]]]; unfold feedInstruction, whole_words in *;
    rewrite ?Hop, Hi in *; cbn zeta; cbv in Hn;
    destruct l as [|a [|n [|]]]; try discriminate Hn; cbn [map length] in *;
    apply Forall_cons in Hl as [Ha Hl]; try (apply Forall_cons in Hl as [Hn' _]).
  - destruct (law_sstore (v a) (v n) w r w') as (Hg' & H1 & H2 & H3); [done|by eapply known_word..|done|].
    destruct (perform_result _ _ _ _ _ Hp) as [Hr _]; [by repeat constructor; eapply known_word|].
    destruct r; [|discriminate Hr]. split; [done|]. apply store_fed.
    by apply (storeInStorage_runs t rules w0 st0 ω good0 goodω words0 short0).
  - rewrite law_sload in Hp by (done || by eapply known_word). injection Hp as <- <-. split; [done|].
    apply result_fed; rewrite ?Hi; try done.
    by apply (loadFromStorage_runs t rules w0 st0 ω good0 goodω words0 short0).
  - destruct (law_mstore (v a) (v n) w r w') as (Hg' & H1 & H2 & H3); [done|by eapply known_word..|done|].
    destruct (perform_result _ _ _ _ _ Hp) as [Hr _]; [by repeat constructor; eapply known_word|].
    destruct r; [|discriminate Hr]. split; [done|]. apply store_fed.
    by apply (storeInMemory_runs t rules w0 st0 ω good0 goodω words0 short0).
  - destruct (law_mload (v a) w r w') as (-> & Hg' & Hsame); [done|by eapply known_word|done|]. split; [done|].
    apply result_fed; rewrite ?Hi; try done.
    by apply (loadFromMemory_runs t rules w0 st0 ω good0 goodω words0 short0).
  - destruct (law_keccak (v a) (v n) w r w') as (Hg' & Hsame & _); [done|by eapply known_word..|done|].
    destruct (perform_result _ _ _ _ _ Hp) as [Hr _]; [by repeat constructor; eapply known_word|].
    destruct r as [|x [|]]; try discriminate Hr. split; [done|].
    apply result_fed; rewrite ?Hi; try done.
    apply (applyKeccak256_runs t rules w0 st0 ω good0 goodω words0 short0 s cl v w a n x w'); try done.
    apply Hww. by apply bool_decide_eq_true.
Qed.

(** ** Items *)

(** The elements of a stack are at most at its height, so there is nothing to forget. *)
Lemma stack_ok_filter s cl v st :
  stack_ok s cl v st ->
  filter (fun p => fst p <= m_stackHeight s) (m_stackElements s) = m_stackElements s.
Proof using.
  intros [Hk _ _]. apply map_filter_id. intros h c Hc. by destruct (Hk h c Hc).
Qed.

Lemma store_taken_height s cl s' cl' v' w w' op h e :
  store_taken s cl s' cl' v' w w' op -> store_taken s cl (set_stack h e s') cl' v' w w' op.
Proof using. unfold store_taken. destruct (isValid op); [|done]. intros [? ? ? ?]. by split. Qed.

(** A store seen from a state before it. *)
Lemma store_taken_from s cl s1 cl1 s' cl' v' w w' op :
  0 <= m_sequenceNumber s -> m_sequenceNumber s1 = m_sequenceNumber s -> added s cl s1 cl1 ->
  store_taken s1 cl1 s' cl' v' w w' op -> store_taken s cl s' cl' v' w w' op.
Proof using.
  intros H0 Hq Ha. unfold store_taken. rewrite Hq. destruct (isValid op); [|done].
  intros [H1 H2 H3 H4]. rewrite Hq in *. split; [done|done|done|].
  intros Hb. apply H4. by apply (bounded_added s cl).
Qed.

(** Feeding ends by setting the new height. *)
Lemma height_fed (m : nat -> K StoreOperation) it s cl v st st' w w' n r :
  m_type it = Operation -> known cl v -> stack_ok s cl v st -> (n <= length st)%nat ->
  st' = r ++ drop n st ->
  to_int (deposit it) = Z.of_nat (length r) - Z.of_nat n ->
  0 <= m_sequenceNumber s ->
  (exists s1 cl1 v1, extends cl cl1 v v1 /\ added s cl s1 cl1 /\ stack_ok s1 cl1 v1 st /\ m_stackHeight s1 = m_stackHeight s /\
     m_sequenceNumber s1 = m_sequenceNumber s /\
     runs m s cl v (fun op s' cl' v' => extends cl1 cl' v1 v' /\ instruction_fed s1 cl1 n r w w' op s' cl' v')) ->
  runs (fun f => kbind (m f) (fun op =>
      kbind (kmodify (fun s' => set_stack (m_stackHeight s + to_int (deposit it))
        (filter (fun p => fst p <= m_stackHeight s + to_int (deposit it)) (m_stackElements s')) s'))
      (fun _ => kret op))) s cl v (fed s cl w st' w').
Proof using st0.
  intros Ht Hkn Hst Hn -> Hd H0 (s1 & cl1 & v1 & He1 & Ha1 & Hst1 & Hh1 & Hq1 & Hm).
  eapply runs_bind; [exact Hm|]. intros op s' cl' v' Hkn' He (He1' & Hq & Hh & (res & Hres & Hel & Hr) & Hok).
  apply runs_modify; [done|]. apply runs_ret; [done|].
  split; [by apply store_taken_height, (store_taken_from s cl s1 cl1)|].
  split; [|intros Hw; by apply state_ok_elements, Hok].
  rewrite Hd, <- Hh1, Hr.
  apply (stack_ok_result st0 s1 s' cl' v' st n res); try done.
  by eapply stack_ok_extends.
Qed.

(** The state a first operation leads to, from which the rest runs. *)
Lemma runs_split {A} (m : nat -> K A) s cl v Q :
  runs m s cl v Q ->
  exists a s1 cl1 v1, known cl1 v1 /\ extends cl cl1 v v1 /\ added s cl s1 cl1 /\ Q a s1 cl1 v1 /\
    forall B (k : nat -> A -> K B) R,
      runs (fun n => k n a) s1 cl1 v1 R ->
      runs (fun n => kbind (m n) (k n)) s cl v (fun b s' cl' v' => extends cl1 cl' v1 v' /\ R b s' cl' v').
Proof using.
  intros (a & s1 & cl1 & v1 & [n Hn] & Hk & He & Ha & HQ). exists a, s1, cl1, v1.
  split; [done|]. split; [done|]. split; [done|]. split; [done|].
  intros B k R (b & s2 & cl2 & v2 & [n' Hn'] & Hk' & He' & Ha' & HR).
  exists b, s2, cl2, v2. split; [|split; [done|split; [by eapply extends_trans|split; [by eapply added_trans|by split]]]].
  exists (n + n')%nat. intros fuel Hf. unfold kbind. rewrite Hn by lia. apply Hn'. lia.
Qed.

Lemma pop_runs s cl v w it x st :
  known cl v -> stack_ok s cl v (x :: st) -> state_ok s cl v w -> m_type it = Operation ->
  m_instruction it = POP -> runs (fun f => feedOperation f t keccak256 it) s cl v (fed s cl w st w).
Proof using All.
  intros Hkn Hst Hs Ht Hi. unfold feedOperation. apply runs_get.
  assert (item_isDup it = false) as -> by (unfold item_isDup; by rewrite Ht, Hi).
  assert (item_isSwap it = false) as -> by (unfold item_isSwap; by rewrite Ht, Hi).
  rewrite (bool_decide_eq_true_2 _ Hi). cbn [negb].
  destruct (st_seq _ _ _ _ _ _ Hs) as [Hq _].
  apply (height_fed (fun _ => kret noStore) it s cl v (x :: st) st w w 1 []); try done; [simpl; lia| |lia|].
  - by rewrite deposit_operation, Hi by done.
  - exists s, cl, v. split; [apply extends_refl|]. split; [apply added_refl|]. split; [done|]. split; [done|]. split; [done|].
    apply runs_ret; [done|]. split; [apply extends_refl|]. split; [by split|]. split; [done|].
    split; [by exists None|done].
Qed.

Lemma dup_runs s cl v w it st st' w' :
  known cl v -> stack_ok s cl v st -> state_ok s cl v w -> m_type it = Operation ->
  item_isDup it = true -> exec_item it st w = Next st' w' ->
  w' = w /\ runs (fun f => feedOperation f t keccak256 it) s cl v (fed s cl w st' w).
Proof using All.
  intros Hkn Hst Hs Ht Hd Hx. unfold feedOperation.
  assert (isDupInstruction (m_instruction it) = true) as Hi by (unfold item_isDup in Hd; by rewrite Ht in Hd).
  destruct (dup_table _ Hi) as (Hnum & Hpos & Hdep).
  unfold exec_item, exec_instruction in Hx. rewrite Ht, Hi in Hx. unfold dup in Hx.
  destruct (st !! (Z.to_nat (getDupNumber (m_instruction it)) - 1)%nat) as [x|] eqn:Hl; [|discriminate Hx].
  cbn in Hx. injection Hx as <- <-. split; [done|]. apply runs_get. rewrite Hd.
  set (h := m_stackHeight s - opcode (m_instruction it) + opcode DUP1).
  assert (h <= m_stackHeight s) as Hh by (unfold h; lia).
  assert (at_height s st h = Some x) as Hat by (unfold at_height, h; rewrite <- Hl; f_equal; lia).
  destruct (runs_split _ _ _ _ _ (stackElement_runs t rules w0 st0 ω good0 goodω words0 short0 s cl v st h
    (m_location it) x Hkn Hst Hh Hat)) as (c & s1 & cl1 & v1 & Hkn1 & He1 & Ha1 & (Hb1 & Hst1 & Hc & Hv & _) & Hk).
  destruct (st_seq _ _ _ _ _ _ Hs) as [Hq _].
  assert (m_stackHeight s1 = m_stackHeight s) as Hh1 by (by rewrite Hb1).
  assert (m_sequenceNumber s1 = m_sequenceNumber s) as Hq1 by (by rewrite Hb1).
  eapply (height_fed _ it s cl v st (x :: st) w w 0 [x]); try done; [lia|by rewrite deposit_operation, Hdep by done|lia|].
  exists s1, cl1, v1. split; [done|]. split; [done|]. split; [done|]. split; [done|]. split; [done|]. apply Hk.
  unfold setStackElement. apply runs_modify; [done|]. apply runs_ret; [done|]. split; [by split|]. split; [done|].
  split.
  - exists (Some c). split; [by intros ? [= <-]|]. split; [|by rewrite Hv]. cbn. rewrite Hh1. f_equal. lia.
  - intros _. apply state_ok_elements. eapply state_ok_extends; [done|]. by eapply state_ok_same_but_elements.
Qed.

(** Two elements exchanged. *)
Lemma stack_ok_swap s cl v st n a b x y :
  stack_ok s cl v st -> in_range cl a -> in_range cl b -> v a = x -> v b = y -> (0 < n)%nat ->
  st !! 0%nat = Some x -> st !! n = Some y ->
  let A := m_stackHeight s in
  let B := m_stackHeight s - Z.of_nat n in
  stack_ok (set_stack (m_stackHeight s) (<[B := a]> (<[A := b]> (m_stackElements s))) s) cl v
    (<[0%nat := y]> (<[n := x]> st)).
Proof using.
  intros [Hk Hr Hlen] Ha Hb Hva Hvb Hn Hx Hy A B.
  pose proof (lookup_lt_Some _ _ _ Hx) as H0. pose proof (lookup_lt_Some _ _ _ Hy) as H1.
  assert (forall h, h <= m_stackHeight s -> h <> A -> h <> B ->
    (<[0%nat := y]> (<[n := x]> st)) !! Z.to_nat (m_stackHeight s - h) = at_height s st h) as Hat.
  { intros h Hle HA HB. rewrite !list_lookup_insert_ne by (unfold A, B in *; lia). done. }
  split; unfold at_height; cbn [m_stackElements m_stackHeight set_stack]; [| |by rewrite !length_insert].
  - intros h c Hc. destruct (decide (B = h)) as [<-|HB].
    + rewrite lookup_insert_eq in Hc. injection Hc as <-. split; [unfold B; lia|]. split; [done|].
      replace (Z.to_nat (m_stackHeight s - B)) with n by (unfold B; lia).
      rewrite list_lookup_insert_ne by lia. rewrite list_lookup_insert_eq by done. by rewrite Hva.
    + rewrite lookup_insert_ne in Hc by done. destruct (decide (A = h)) as [<-|HA].
      * rewrite lookup_insert_eq in Hc. injection Hc as <-. split; [unfold A; lia|]. split; [done|].
        replace (Z.to_nat (m_stackHeight s - A)) with 0%nat by (unfold A; lia).
        rewrite list_lookup_insert_eq by (by rewrite length_insert). by rewrite Hvb.
      * rewrite lookup_insert_ne in Hc by done. destruct (Hk h c Hc) as (Hle & Hi & Hv).
        split; [done|]. split; [done|]. by rewrite Hat.
  - intros h Hle Hc. apply lookup_insert_None in Hc as [Hc HB]. apply lookup_insert_None in Hc as [Hc HA].
    destruct (Hr h Hle Hc) as [Hh Hst]. split; [done|]. by rewrite Hat.
Qed.

Lemma swap_runs s cl v w it st st' w' :
  known cl v -> stack_ok s cl v st -> state_ok s cl v w -> m_type it = Operation ->
  item_isDup it = false -> item_isSwap it = true -> exec_item it st w = Next st' w' ->
  w' = w /\ runs (fun f => feedOperation f t keccak256 it) s cl v (fed s cl w st' w).
Proof using All.
  intros Hkn Hst Hs Ht Hnd Hd Hx. unfold feedOperation.
  assert (isSwapInstruction (m_instruction it) = true) as Hi by (unfold item_isSwap in Hd; by rewrite Ht in Hd).
  assert (isDupInstruction (m_instruction it) = false) as Hni by (unfold item_isDup in Hnd; by rewrite Ht in Hnd).
  destruct (swap_table _ Hi) as (Hnum & Hpos & Hdep).
  unfold exec_item, exec_instruction in Hx. rewrite Ht, Hni, Hi in Hx. unfold swap in Hx.
  set (n := Z.to_nat (getSwapNumber (m_instruction it))) in Hx.
  destruct (st !! 0%nat) as [x|] eqn:Hlx; [|discriminate Hx]. cbn in Hx.
  destruct (st !! n) as [y|] eqn:Hly; [|discriminate Hx]. cbn in Hx.
  injection Hx as <- <-. split; [done|]. apply runs_get. rewrite Hnd, Hd.
  replace (m_stackHeight s - 1 - opcode (m_instruction it) + opcode SWAP1)
    with (m_stackHeight s - Z.of_nat n) by (unfold n; lia).
  unfold swapStackElements. eapply runs_bind; [|].
  { instantiate (1 := fun op s' cl' v' => op = noStore /\ m_stackHeight s' = m_stackHeight s /\
      m_sequenceNumber s' = m_sequenceNumber s /\ state_ok s' cl' v' w /\
      stack_ok s' cl' v' (<[0%nat := y]> (<[n := x]> st))).
    eapply runs_bind; [|intros u s' cl' v' Hkn' He HQ; apply runs_ret; [done|split; [done|exact HQ]]].
    destruct (Z.eqb_spec (m_stackHeight s) (m_stackHeight s - Z.of_nat n)) as [|_]; [lia|].
    eapply runs_bind; [exact (runs_ret w0 st0 ω tt s cl v (fun _ s' cl' _ => s' = s /\ cl' = cl) Hkn (conj eq_refl eq_refl))|].
    intros _ s' cl' v' Hkn' He' (-> & ->).
    pose proof (stack_ok_extends st0 _ _ _ _ _ _ He' Hst) as Hst'.
    eapply runs_bind; [apply (stackElement_runs t rules w0 st0 ω good0 goodω words0 short0 s cl v' st _ _ x Hkn' Hst'); [lia|]|].
    { unfold at_height. by replace (Z.to_nat (m_stackHeight s - m_stackHeight s)) with 0%nat by lia. }
    intros a s1 cl1 v1 Hkn1 He1 (Hb1 & Hst1 & Ha & Hva & _).
    assert (m_stackHeight s1 = m_stackHeight s) as Hh1 by (by rewrite Hb1).
    eapply runs_bind; [apply (stackElement_runs t rules w0 st0 ω good0 goodω words0 short0 s1 cl1 v1 st _ _ y Hkn1 Hst1); [lia|]|].
    { unfold at_height. rewrite Hh1. by replace (Z.to_nat (m_stackHeight s - (m_stackHeight s - Z.of_nat n))) with n by lia. }
    intros b s2 cl2 v2 Hkn2 He2 (Hb2 & Hst2 & Hb & Hvb & _).
    assert (m_stackHeight s2 = m_stackHeight s) as Hh2 by (rewrite <- Hh1; by rewrite Hb2).
    unfold setStackElement. apply runs_modify; [done|]. eexists tt, _, cl2, v2. split; [apply eventually_ret|].
    split; [done|]. split; [apply extends_refl|]. split; [by split; [|intros ? ? ?; left]|]. split; [done|].
    split; [cbn; by rewrite Hb2, Hb1|]. split.
    - do 2 apply state_ok_elements. eapply state_ok_same_but_elements; [exact Hb2|].
      eapply state_ok_extends; [exact He2|]. eapply state_ok_same_but_elements; [exact Hb1|].
      eapply state_ok_extends; [exact He1|]. by eapply state_ok_extends.
    - rewrite <- Hh2. apply (stack_ok_swap s2 cl2 v2 st n a b x y); try done; [by eapply extends_in_range| |unfold n; lia].
      by rewrite (ext_value _ _ _ _ He2 a Ha). }
  intros op s' cl' v' Hkn' He (-> & Hh & Hq & Hok & Hst'). apply runs_modify; [done|]. apply runs_ret; [done|].
  rewrite deposit_operation, Hdep, Z.add_0_r, <- Hh, (stack_ok_filter _ _ _ _ Hst') by done.
  assert (set_stack (m_stackHeight s') (m_stackElements s') s' = s') as -> by (by destruct s').
  split; [by split|]. by split.
Qed.

Lemma instruction_runs s cl v w it st st' w' :
  known cl v -> stack_ok s cl v st -> state_ok s cl v w -> m_sequenceNumber s + 2 < 2 ^ 32 ->
  block_item it -> m_type it = Operation -> item_isDup it = false -> item_isSwap it = false ->
  m_instruction it <> POP -> whole_words it st -> exec_item it st w = Next st' w' ->
  good w' /\ runs (fun f => feedOperation f t keccak256 it) s cl v (fed s cl w st' w').
Proof using All.
  intros Hkn Hst Hs Hq Hb Ht Hnd Hns Hnp Hww Hx.
  set (i := m_instruction it) in *. set (n := args (instructionInfo i)).
  assert (exists r, (n <= length st)%nat /\ perform i (take n st) w = inl (r, w') /\ st' = r ++ drop n st)
    as (r & Hn & Hp & ->).
  { unfold exec_item in Hx. rewrite Ht in Hx. fold i in Hx. unfold item_isDup, item_isSwap in *.
    rewrite Ht in *. fold i in Hnd, Hns. unfold exec_instruction in Hx. rewrite Hnd, Hns in Hx. fold n in Hx.
    assert (i <> JUMP /\ i <> JUMPI) as [Hj Hj'].
    { destruct Hb as [Hb _]. unfold breaksCSEAnalysisBlock in Hb. rewrite Ht in Hb. fold i in Hb.
      split; intros E; rewrite E in Hb; unfold item_isSwap, item_isDup in Hb; rewrite Ht in Hb; fold i in Hb;
        rewrite E in Hb; discriminate Hb. }
    assert ((if (length st <? n)%nat then End Underflow
      else match perform i (take n st) w with
           | inl (r, w) => Next (r ++ drop n st) w | inr h => End (Halted h) end) = Next st' w') as Hx'.
    { rewrite <- Hx. clear Hx. unfold n. by destruct i. }
    destruct (Nat.ltb_spec (length st) n); [discriminate Hx'|].
    destruct (perform i (take n st) w) as [[r w1]|]; [|discriminate Hx'].
    injection Hx' as <- <-. by exists r. }
  destruct (runs_split _ _ _ _ _ (stackArguments_runs t rules w0 st0 ω good0 goodω words0 short0 n s cl v st 0
    (m_location it) Hkn Hst ltac:(lia) ltac:(simpl; lia)))
    as (l & s1 & cl1 & v1 & Hkn1 & He1 & Ha1 & (Hb1 & Hst1 & Hl & Hlen & Hvl) & Hk).
  destruct (st_seq _ _ _ _ _ _ Hs) as [Hq0 _].
  rewrite drop_0 in Hvl. rewrite <- Hvl in Hp.
  assert (m_stackHeight s1 = m_stackHeight s) as Hh1 by (by rewrite Hb1).
  assert (m_sequenceNumber s1 = m_sequenceNumber s) as Hq1 by (by rewrite Hb1).
  assert (state_ok s1 cl1 v1 w) as Hs1
    by (eapply state_ok_same_but_elements; [exact Hb1|]; by eapply state_ok_extends).
  destruct (feedInstruction_runs s1 cl1 v1 w it l r w' Hkn1 Hs1) as [Hg Hrun]; try done; [lia| |].
  { rewrite Hvl. intros Hop. apply Hww in Hop as Hw.
    assert (n = 2)%nat as -> by (apply is_op_spec in Hop as [_ Hop]; unfold n, i; by rewrite Hop).
    destruct st as [|? [|? ?]]; done. }
  split; [done|]. rewrite Hlen in Hrun.
  assert (Forall is_u256 (map v1 l)) as Hw by (apply Forall_map, List.Forall_forall; intros j _; by eapply known_word).
  destruct (perform_result _ _ _ _ _ Hp Hw) as [Hr _].
  unfold feedOperation. apply runs_get. rewrite Hnd, Hns, (bool_decide_eq_false_2 _ Hnp). cbn [negb].
  apply (height_fed _ it s cl v st (r ++ drop n st) w w' n r); try done.
  - rewrite deposit_operation by done. by rewrite Hr.
  - lia.
  - exists s1, cl1, v1. repeat (split; [done|]). by apply Hk.
Qed.

Lemma push_runs s cl v w it st st' w' :
  known cl v -> stack_ok s cl v st -> state_ok s cl v w -> block_item it -> m_type it <> Operation ->
  exec_item it st w = Next st' w' ->
  w' = w /\ runs (fun f => feedItem f t keccak256 it) s cl v (fed s cl w st' w).
Proof using All.
  intros Hkn Hst Hs (Hb & Hpv & Hd) Ht Hx.
  assert (st' = push_value it :: st /\ w' = w /\ deposit it = 1 /\
    push_value it = item_value Sem it 0 [] /\
    forall f, feedItem f t keccak256 it = kbind (kassert (deposit it =? 1)) (fun _ =>
      kbind (findClass f t 0 it []) (fun c =>
      kbind (kmodify (fun s => set_stack (m_stackHeight s + 1) (<[m_stackHeight s + 1 := c]> (m_stackElements s)) s))
      (fun _ => kret noStore)))) as (-> & -> & Hdep & Hv & Hfeed).
  { unfold exec_item, breaksCSEAnalysisBlock, feedItem, push_value, deposit, returnValues, arguments, item_value in *. rewrite Hpv.
    destruct (m_type it); try done; injection Hx as <- <-; by repeat split. }
  split; [done|].
  assert (runs (fun f => kbind (kassert (deposit it =? 1)) (fun _ =>
      kbind (findClass f t 0 it []) (fun c =>
      kbind (kmodify (fun s => set_stack (m_stackHeight s + 1) (<[m_stackHeight s + 1 := c]> (m_stackElements s)) s))
      (fun _ => kret noStore)))) s cl v (fed s cl w (push_value it :: st) w)) as (a & s' & cl' & v' & [n Hev] & Hrest).
  { rewrite Hdep. eapply runs_bind;
      [exact (runs_ret w0 st0 ω tt s cl v (fun _ s' cl' _ => s' = s /\ cl' = cl) Hkn (conj eq_refl eq_refl))|].
    intros _ s0 cl0 v0 Hkn0 He0 (-> & ->).
    eapply runs_bind; [apply (find_runs t rules w0 st0 ω good0 goodω words0 short0); [done| | |by left|constructor]|].
    { split; [done|]. intros Hp. by rewrite Hp in Hd. }
    { unfold asked, breaksCSEAnalysisBlock in *. by destruct (m_type it). }
    intros c s1 cl1 v1 Hkn1 He1 (-> & Hc & Hvc). cbn [map] in Hvc. apply runs_modify; [done|]. apply runs_ret; [done|].
    pose proof (extends_trans _ _ _ _ _ _ He0 He1) as He.
    pose proof (stack_ok_extends st0 _ _ _ _ _ _ He Hst) as Hst1.
    split; [by split|]. split.
    - rewrite Hv, <- Hvc. by apply stack_ok_push.
    - intros _. apply state_ok_elements. by eapply state_ok_extends. }
  exists a, s', cl', v'. split; [|exact Hrest]. exists n. intros fuel Hf. rewrite Hfeed. by apply Hev.
Qed.

(** Feeding an item of a block that the machine executes. *)
Lemma feedItem_runs s cl v w it st st' w' :
  known cl v -> stack_ok s cl v st -> state_ok s cl v w -> m_sequenceNumber s + 2 < 2 ^ 32 ->
  block_item it -> whole_words it st -> exec_item it st w = Next st' w' ->
  good w' /\ runs (fun f => feedItem f t keccak256 it) s cl v (fed s cl w st' w').
Proof using All.
  intros Hkn Hst Hs Hq Hb Hww Hx. pose proof (st_good _ _ _ _ _ _ Hs) as Hg.
  destruct (decide (m_type it = Operation)) as [Ht|Ht].
  2: { by destruct (push_runs s cl v w it st st' w' Hkn Hst Hs Hb Ht Hx) as [-> Hr]. }
  assert (good w' /\ runs (fun f => feedOperation f t keccak256 it) s cl v (fed s cl w st' w'))
    as [Hg' (a & s' & cl' & v' & [n Hev] & Hrest)].
  { destruct (item_isDup it) eqn:Hd.
    { by destruct (dup_runs s cl v w it st st' w' Hkn Hst Hs Ht Hd Hx) as [-> Hr]. }
    destruct (item_isSwap it) eqn:Hsw.
    { by destruct (swap_runs s cl v w it st st' w' Hkn Hst Hs Ht Hd Hsw Hx) as [-> Hr]. }
    destruct (decide (m_instruction it = POP)) as [Hp|Hp]; [|by apply (instruction_runs s cl v w it st)].
    unfold exec_item in Hx. rewrite Ht, Hp in Hx. cbn in Hx. destruct st as [|x st]; [discriminate Hx|].
    injection Hx as <- <-. split; [done|]. by apply (pop_runs s cl v w it x st). }
  split; [done|]. exists a, s', cl', v'. split; [|exact Hrest]. exists n. intros fuel Hf.
  unfold feedItem. rewrite Ht. by apply Hev.
Qed.
End Feed.
