(* ===== verification/KnownBlock.v ===== *)
(** * KnownBlock: a block fed from the empty state

    A block is fed item by item while the machine executes it.  The worlds at sequence
    numbers, which the meaning of the classes depends on, are those the machine went
    through: they are collected along the run ([feeds]) and given back as the function the
    soundness of each step is stated with.  The stores of the block are a [history]: each is
    represented by its instruction, and the world at a sequence number is that of the
    start with the stores before it. *)

From S2P Require Import Prelude U256 CommonData Instruction AssemblyItem SemanticInformation Interpreter Pattern RuleList SimplificationRules ExpressionClasses KnownState CommonSubexpressionEliminator Machine RuleSound StateWorld StoreOrder MatchSound ClassSound WordClasses RuleWeight ClassShape ClassQueries KnownSound KnownFeed.

#[local] Opaque ruleSet Rules readWord readBytes writeWord toBigEndian fromBigEndian.

Lemma feedStores_snoc fuel rules k items it ops s cl :
  feedStores fuel rules k (items ++ [it]) ops s cl =
  kbind (feedStores fuel rules k items ops) (feedStore fuel rules k it) s cl.
Proof.
  revert ops s cl. induction items as [|it' items IH]; intros ops s cl; cbn [app feedStores]; unfold kbind.
  - cbn. by destruct (feedStore fuel rules k it ops s cl) as [[? [? ?]]| |].
  - destruct (feedStore fuel rules k it' ops s cl) as [[ops1 [s1 cl1]]| |]; [|done..]. by rewrite IH.
Qed.

(** ** The stores of a block *)

Section History.
Context {W H : Type} `{!World W H} `{!StateWorld W}.
Context (w0 : W) (ω : Z -> W).

(** A store with the class [x] of its value and the number [n] of stores before it. *)
Record stored (cl : ExpressionClasses) (n : nat) (o : StoreOperation) (x : Z) : Prop := {
  so_slot : in_range cl (slot o);
  so_value : in_range cl x;
  so_target : target o <> Invalid;
  so_seq : store_sequenceNumber o = 2 * Z.of_nat n + 2;
  so_class : represented cl (expression o) (opItem (store_instruction (target o)) noLocation)
    (2 * Z.of_nat n + 2) [slot o; x] }.

(** The sequence numbers of the loads and stores follow the order of their classes. *)
Definition in_order (cl : ExpressionClasses) : Prop := forall i j e e',
  m_representatives cl !! i = Some e -> m_representatives cl !! j = Some e' ->
  sequenceNumber e <> 0 -> sequenceNumber e' <> 0 -> sequenceNumber e < sequenceNumber e' -> (i < j)%nat.

Definition is_store (it : AssemblyItem) : bool :=
  bool_decide (m_type it = Operation) && isStore (m_instruction it).

Record history (s : KnownState) (cl : ExpressionClasses) (v : Z -> Z) (ops : list Store) : Prop := {
  hs_bounded : bounded s cl;
  hs_seq : m_sequenceNumber s = 2 * Z.of_nat (length ops) + 1;
  hs_stored n o x : ops !! n = Some (o, x) -> stored cl n o x;
  hs_world n : (n <= length ops)%nat ->
    cells_eq (cells (ω (2 * Z.of_nat n + 1))) (apply_stores v (take n ops) (cells w0));
  hs_all i e it : m_representatives cl !! i = Some e -> item e = Some it -> is_store it = true ->
    exists o, In o ops /\ expression (fst o) = Z.of_nat i;
  hs_order : in_order cl }.

Lemma representative_extends cl cl' v v' i e :
  extends cl cl' v v' -> representative (m_representatives cl) i = Some e ->
  representative (m_representatives cl') i = Some e.
Proof using.
  intros He Hr. apply representative_lookup in Hr as [Hr H0]. unfold representative.
  destruct (Z.leb_spec 0 i); [|lia]. by apply (ext_reps _ _ _ _ He).
Qed.

Lemma stored_extends cl cl' v v' n o x : extends cl cl' v v' -> stored cl n o x -> stored cl' n o x.
Proof using.
  intros He [? ? ? ? (r & Hr & Hrep)]. split; [by eapply extends_in_range|by eapply extends_in_range|done|done|].
  exists r. split; [by eapply representative_extends|done].
Qed.

Lemma store_item_asked it seq l : is_store it = true -> asked it seq l -> seq <> 0 /\ Z.odd seq = false.
Proof using.
  unfold is_store, asked. intros Hs Ha. apply andb_true_iff in Hs as [Ht Hs]. apply bool_decide_eq_true in Ht.
  rewrite Ht in Ha. destruct (m_instruction it); try discriminate Hs; cbn in Ha; split; (lia || apply Ha).
Qed.

(** The classes of a later state. *)
Lemma in_order_added s cl s' cl' v v' :
  in_order cl -> bounded s cl -> extends cl cl' v v' -> added s cl s' cl' ->
  (forall i j e e', m_representatives cl' !! i = Some e -> m_representatives cl' !! j = Some e' ->
     m_representatives cl !! i <> Some e -> m_representatives cl !! j <> Some e' ->
     sequenceNumber e <> 0 -> sequenceNumber e' <> 0 -> sequenceNumber e < sequenceNumber e' -> (i < j)%nat) ->
  in_order cl'.
Proof using.
  intros Ho Hb He [_ Ha] Hnew i j e e' Hi Hj H0 H0' Hlt.
  assert (forall i e, m_representatives cl' !! i = Some e -> sequenceNumber e <> 0 ->
    m_representatives cl !! i = Some e \/
    m_representatives cl !! i <> Some e /\ (length (m_representatives cl) <= i)%nat /\ m_sequenceNumber s <= sequenceNumber e) as Hcase.
  { clear i j e e' Hi Hj H0 H0' Hlt. intros i e Hi H0. destruct (Ha i e Hi) as [Hold|[Hz|Hr]]; [by left|done|].
    destruct (m_representatives cl !! i) as [x|] eqn:E.
    - left. f_equal. pose proof (ext_reps _ _ _ _ He i x E) as E'. congruence.
    - right. split; [done|]. split; [by apply lookup_ge_None|lia]. }
  destruct (Hcase i e Hi H0) as [Hi1|(Hi1 & Hi2 & Hi3)], (Hcase j e' Hj H0') as [Hj1|(Hj1 & Hj2 & Hj3)].
  - by apply (Ho i j e e').
  - apply lookup_lt_Some in Hi1. lia.
  - specialize (Hb j e' Hj1). lia.
  - by apply (Hnew i j e e').
Qed.

Lemma history_item s cl v ops s' cl' v' w w' op :
  history s cl v ops -> shape cl' -> extends cl cl' v v' -> added s cl s' cl' ->
  store_taken s cl s' cl' v' w w' op -> same w (ω (m_sequenceNumber s)) -> same w' (ω (m_sequenceNumber s')) ->
  exists ops', map fst ops' = (if isValid op then map fst ops ++ [op] else map fst ops) /\ history s' cl' v' ops'.
Proof using.
  intros [Hb Hq Hst Hwd Hall Hord] Hsh He Ha Ht Hw Hw'.
  assert (forall n, (n <= length ops)%nat ->
    cells_eq (cells (ω (2 * Z.of_nat n + 1))) (apply_stores v' (take n ops) (cells w0))) as Hwd'.
  { intros n Hn t a Hu. rewrite (apply_stores_values v v'); [by apply Hwd|]. apply Forall_forall. intros [o x] Hin.
    apply list_elem_of_lookup in Hin as [m Hm]. apply lookup_take_Some in Hm as [Hm _].
    destruct (Hst m o x Hm). split; by apply (ext_value _ _ _ _ He). }
  assert (bounded s' cl') as Hb' by (eapply bounded_added; [|exact Ha|exact Hb]; lia).
  unfold store_taken in Ht. destruct (isValid op).
  - destruct Ht as [Hq' Hop (x & r & Hk & Hx & Hr & Hrep & Heff) Honly]. destruct (Honly Hb) as [Hsize Hseqs]. clear Honly.
    set (ops' := ops ++ [(op, x)]). exists ops'. split; [unfold ops'; by rewrite map_app|].
    assert (2 * Z.of_nat (length ops) + 2 = m_sequenceNumber s + 1) as Hn by lia.
    assert (target op <> Invalid) as Htgt by (intros E; unfold store_effect in Heff; by rewrite E in Heff).
    split; [exact Hb'|unfold ops'; rewrite length_app; cbn; lia| | | |].
    + intros n o y Hl. apply lookup_app_Some in Hl as [Hl|[Hge Hl]]; [by eapply stored_extends, Hst|].
      apply list_lookup_singleton_Some in Hl as [Hl [= <- <-]]. assert (n = length ops) as -> by lia.
      split; [done|done|done|lia|]. exists r. by rewrite Hn.
    + intros n Hle. unfold ops' in *. rewrite length_app in Hle. cbn in Hle.
      destruct (decide (n = length ops + 1)%nat) as [->|Hne].
      2: { rewrite take_app_le by lia. apply Hwd'. lia. }
      rewrite firstn_all2 by (rewrite length_app; cbn; lia). rewrite apply_stores_snoc.
      replace (2 * Z.of_nat (length ops + 1) + 1) with (m_sequenceNumber s') by lia.
      etrans; [symmetry; by apply same_cells|].
      assert (cells_eq (cells w') (apply_store v' (op, x) (cells w))) as ->.
      { unfold store_effect in Heff. destruct (target op) eqn:Et; [done| |]; destruct Heff as [H1 H2].
        - by apply writeWord_cells.
        - by apply writeSlot_cells. }
      apply apply_store_proper. specialize (Hwd' (length ops) (le_n _)). rewrite firstn_all in Hwd'.
      etrans; [|exact Hwd']. rewrite <- Hq. by apply same_cells.
    + intros i e it Hi Hit Hs. destruct (proj2 Ha i e Hi) as [Hi'|Hnew].
      { destruct (Hall i e it Hi' Hit Hs) as (o & Hin & Ho). exists o. split; [apply in_or_app; by left|done]. }
      destruct (sh_rep cl' Hsh i e Hi) as (it' & Hit' & Hask & _). assert (it' = it) as -> by congruence.
      destruct (store_item_asked it _ _ Hs Hask) as [H0 Hodd].
      destruct (Hseqs i e Hi) as [Hle Heq]. exists (op, x). split; [apply in_or_app; right; by left|].
      symmetry. apply Heq. destruct (Z.eq_dec (sequenceNumber e) (m_sequenceNumber s)) as [E|]; [|lia].
      rewrite E, Hq, Z.odd_add, Z.odd_mul in Hodd. discriminate Hodd.
    + apply (in_order_added s cl s' cl' v v' Hord Hb He Ha). intros i j e e' Hi Hj Hi1 Hj1 H0 H0' Hlt.
      destruct (Hseqs i e Hi) as [Hle Heq], (Hseqs j e' Hj) as [Hle' Heq'].
      destruct (proj2 Ha i e Hi) as [|[|Hi2]]; [done|done|]. specialize (Heq' ltac:(lia)).
      assert (i <> j) by (intros ->; assert (e = e') as -> by congruence; lia).
      apply lookup_lt_Some in Hi. unfold classes_size in Hsize. lia.
  - destruct Ht as [Hq' Hsame]. exists ops. split; [done|].
    split; [exact Hb'|lia| |exact Hwd'| |].
    + intros n o x Hl. by eapply stored_extends, Hst.
    + intros i e it Hi Hit Hs. destruct (proj2 Ha i e Hi) as [Hi'|Hnew]; [by apply (Hall i e it)|].
      destruct (sh_rep cl' Hsh i e Hi) as (it' & Hit' & Hask & _). assert (it' = it) as -> by congruence.
      destruct (store_item_asked it _ _ Hs Hask) as [H0 Hodd].
      assert (sequenceNumber e = m_sequenceNumber s) as E by lia.
      rewrite E, Hq, Z.odd_add, Z.odd_mul in Hodd. discriminate Hodd.
    + apply (in_order_added s cl s' cl' v v' Hord Hb He Ha). intros i j e e' Hi Hj Hi1 Hj1 H0 H0' Hlt.
      destruct (proj2 Ha i e Hi) as [|[|Hi2]], (proj2 Ha j e' Hj) as [|[|Hj2]]; (done || lia).
Qed.
End History.

Section Block.
Context {W H : Type} `{!World W H} `{!WorldLaws W H} `{!StateWorld W} {keccak256 : list Z -> Z}
  `{!StateLaws W H keccak256}.

(** The items of a block, each one run on the stack the ones before leave. *)
Fixpoint block_ok (p : list AssemblyItem) (st : list Z) (w : W) : Prop :=
  match p with
  | [] => True
  | it :: p =>
      block_item it /\ whole_words it st /\
      match exec_item it st w with Next st w => block_ok p st w | _ => True end
  end.

Lemma block_snoc p it st w st' w' :
  block_ok (p ++ [it]) st w -> exec (p ++ [it]) st w = Next st' w' ->
  exists st1 w1, block_ok p st w /\ exec p st w = Next st1 w1 /\ block_item it /\ whole_words it st1 /\
    exec_item it st1 w1 = Next st' w'.
Proof using.
  revert st w. induction p as [|a p IH]; intros st w; cbn [app block_ok exec].
  - intros (Hb & Hw & _) Hx. exists st, w. repeat (split; [done|]).
    destruct (exec_item it st w); [by injection Hx as <- <-|discriminate Hx..].
  - intros (Hb & Hw & Hok) Hx. destruct (exec_item a st w) as [st1 w1| |]; [|discriminate Hx..].
    destruct (IH st1 w1 Hok Hx) as (st2 & w2 & H1 & H2 & H3). exists st2, w2. by repeat (split; [done|]).
Qed.

Context (t : RuleTable) (rules : valid_rules t).
Context (w0 : W) (st0 : list Z).
Context (good0 : good w0) (words0 : Forall is_u256 st0) (short0 : Z.of_nat (length st0) < modulus).

Local Abbreviation known ω := (known (blockOp w0) (blockSeqop w0 ω) (blockPushed st0)).

(** The worlds after each item with their sequence numbers: the number grows by two, or nothing
    that is observed changes. *)
Inductive trace_ok : list (Z * W) -> Z -> W -> nat -> Prop :=
| trace_start : trace_ok [(1, w0)] 1 w0 0
| trace_step tr q w n q' w' :
    trace_ok tr q w n -> q' = q + 2 \/ q' = q /\ same w w' -> good w' -> trace_ok (tr ++ [(q', w')]) q' w' (S n).

(** Every sequence number has one world, up to what is observed. *)
Lemma trace_worlds tr q w n :
  trace_ok tr q w n ->
  1 <= q <= 1 + 2 * Z.of_nat n /\ good w /\
  Forall (fun p => fst p <= q /\ (fst p = q -> same (snd p) w)) tr.
Proof using good0.
  clear words0 short0 st0. induction 1 as [|tr q w n q' w' _ (Hq & Hg & IH) Hq' Hg'].
  - split; [done|]. split; [done|]. by apply Forall_singleton.
  - assert (q <= q' <= q + 2 /\ (q' = q -> same w w')) as [Hle Hsame] by (destruct Hq' as [->|[-> Hs]]; split; lia || done).
    split; [lia|]. split; [done|]. apply Forall_app. split; [|by apply Forall_singleton].
    eapply Forall_impl; [exact IH|]. intros [p w1] [Hp Heq]. cbn [fst snd] in *. split; [lia|].
    intros ->. assert (q' = q) as He by lia. etrans; [by apply Heq|by apply Hsame].
Qed.

(** The world of a sequence number: the last one recorded for it. *)
Fixpoint world_at (tr : list (Z * W)) (q : Z) : W :=
  match tr with
  | [] => w0
  | (q', w) :: tr => if existsb (fun p => fst p =? q) tr then world_at tr q else if q' =? q then w else w0
  end.

Lemma world_at_snoc tr q w x :
  world_at (tr ++ [(q, w)]) x = if q =? x then w else world_at tr x.
Proof using.
  induction tr as [|[q' w'] tr IH]; [done|]. cbn [app world_at]. rewrite existsb_app, IH. cbn [existsb fst].
  rewrite orb_false_r. destruct (Z.eqb_spec q x); [by rewrite orb_true_r|]. by rewrite orb_false_r.
Qed.

Lemma trace_world_at tr q w n :
  trace_ok tr q w n -> (forall x, good (world_at tr x)) /\ Forall (fun p => same (snd p) (world_at tr (fst p))) tr.
Proof using good0.
  clear words0 short0 st0. intros Htr. assert (trace_ok tr q w n) as Hall by exact Htr. revert Hall.
  induction Htr as [|tr q w n q' w' Htr IH Hq' Hg]; intros Hall.
  - split; [intros x; cbn [world_at existsb]; destruct (1 =? x); exact good0|]. constructor; [reflexivity|constructor].
  - destruct (IH Htr) as [Hgood Hsame]. split.
    + intros x. rewrite world_at_snoc. by destruct (_ =? _).
    + apply Forall_app. split.
      * destruct (trace_worlds _ _ _ _ Hall) as (_ & _ & Hseq). apply Forall_app in Hseq as [Hseq _].
        rewrite List.Forall_forall in *. intros [p w1] Hin. rewrite world_at_snoc. cbn [fst snd].
        destruct (Z.eqb_spec q' p) as [Heq|_]; [|by apply (Hsame (p, w1))].
        by apply (Hseq (p, w1)).
      * constructor; [|constructor]. rewrite world_at_snoc. cbn [fst snd]. by rewrite Z.eqb_refl.
Qed.

(** The items fed so far with their stores, and the worlds after each item with their
    sequence numbers. *)
Inductive feeds : list AssemblyItem -> StoreOperations -> list (Z * W) -> KnownState -> ExpressionClasses ->
    list Z -> W -> Prop :=
| feeds_start : feeds [] [] [(1, w0)] emptyState emptyClasses st0 w0
| feeds_item p ops tr s cl st w it op s' cl' st' w' :
    feeds p ops tr s cl st w -> block_item it -> whole_words it st -> exec_item it st w = Next st' w' ->
    eventually (fun n => feedItem n t keccak256 it s cl) (op, (s', cl')) ->
    (if isValid op then m_sequenceNumber s' = m_sequenceNumber s + 2
     else m_sequenceNumber s' = m_sequenceNumber s /\ same w w') ->
    good w' -> Forall is_u256 st' ->
    feeds (p ++ [it]) (if isValid op then ops ++ [op] else ops) (tr ++ [(m_sequenceNumber s', w')]) s' cl' st' w'.

Lemma feeds_eventually p ops tr s cl st w :
  feeds p ops tr s cl st w ->
  eventually (fun n => feedStores n t keccak256 p [] emptyState emptyClasses) (ops, (s, cl)).
Proof using.
  induction 1 as [|p ops tr s cl st w it op s' cl' st' w' _ [n IH] _ _ _ [n' Hn'] _ _ _].
  - apply eventually_ret.
  - exists (n + n')%nat. intros fuel Hf. rewrite feedStores_snoc. unfold kbind, feedStore.
    rewrite IH by lia. unfold kbind. by rewrite Hn' by lia.
Qed.

Lemma feeds_trace p ops tr s cl st w : feeds p ops tr s cl st w -> trace_ok tr (m_sequenceNumber s) w (length p).
Proof using.
  clear words0 short0. induction 1 as [|p ops tr s cl st w it op s' cl' st' w' _ IH _ _ _ _ Ht Hg _]; [apply trace_start|].
  rewrite length_app, Nat.add_1_r. apply trace_step with (q := m_sequenceNumber s) (w := w); [done| |done].
  destruct (isValid op); [by left|by right].
Qed.

Lemma history_empty ω : same w0 (ω 1) -> history w0 ω emptyState emptyClasses (fun _ => 0) [].
Proof using.
  clear words0 short0. intros Hs. split; try (intros; done).
  - intros n Hn. destruct n; [|cbn in Hn; lia]. symmetry. by apply same_cells.
Qed.

(** What is known at the end is true, when [ω] are the worlds of the run. *)
Lemma feeds_sound ω p ops tr s cl st w :
  feeds p ops tr s cl st w -> (forall x, good (ω x)) -> Forall (fun q => same (snd q) (ω (fst q))) tr ->
  2 * Z.of_nat (length p) + 1 < 2 ^ 32 ->
  exists v h, known ω cl v /\ stack_ok st0 s cl v st /\ state_ok (keccak256 := keccak256) w0 ω s cl v w /\
    history w0 ω s cl v h /\ map fst h = ops.
Proof using All.
  intros Hf Hgood. induction Hf as [|p ops tr s cl st w it op s' cl' st' w' Hf IH Hb Hww Hx [n Hev] Ht Hg Hw]; intros Htr Hlen.
  - apply Forall_cons in Htr as [Htr _]. cbn in Htr. exists (fun _ => 0), []. split; [|split; [|split; [|by split; [apply history_empty|]]]].
    + pose proof (blockOp_words w0 good0). by apply (empty_known _ _ _ (blockSeqop_pure w0 ω) (blockSeqop_range w0 ω Hgood) (blockPushed_range st0 words0)).
    + split; [intros h c Hc; discriminate Hc| |cbn; lia]. intros h Hh _. split; [done|]. unfold at_height. cbn. apply (f_equal (fun n => st0 !! n)). lia.
    + split; try done; intros k c Hc; discriminate Hc.
  - rewrite length_app in Hlen. cbn [length] in Hlen. apply Forall_app in Htr as [Htr Hlast].
    apply Forall_cons in Hlast as [Hlast _]. cbn in Hlast.
    destruct (IH Htr ltac:(lia)) as (v & h & Hkn & Hst & Hs & Hh & <-).
    destruct (trace_worlds _ _ _ _ (feeds_trace _ _ _ _ _ _ _ Hf)) as (Hq & _ & _).
    destruct (feedItem_runs t rules w0 st0 ω good0 Hgood words0 short0 s cl v w it st st' w' Hkn Hst Hs
      ltac:(lia) Hb Hww Hx) as (_ & op1 & s1 & cl1 & v1 & [n1 Hev1] & Hkn1 & He1 & Ha1 & Ht1 & Hst1 & Hs1).
    specialize (Hev (n + n1)%nat ltac:(lia)). specialize (Hev1 (n + n1)%nat ltac:(lia)). cbn beta in *.
    rewrite Hev in Hev1. injection Hev1 as -> -> ->.
    destruct (history_item w0 ω s cl v h s1 cl1 v1 w w' op1 Hh) as (h' & Hfst & Hh'); try done;
      [by destruct Hkn1 as (_ & _ & ?)|by apply (st_world _ _ _ _ _ _ Hs)|].
    exists v1, h'. split; [done|]. split; [done|]. split; [by apply Hs1|]. split; [done|]. by destruct (isValid op1).
Qed.

Lemma stack_ok_words ω s cl v st :
  known ω cl v -> stack_ok st0 s cl v st -> Forall is_u256 st.
Proof using good0 words0.
  intros Hkn [Hk Hr _]. apply Forall_lookup_2. intros i x Hx.
  assert (at_height s st (m_stackHeight s - Z.of_nat i) = Some x) as Hh.
  { unfold at_height. rewrite <- Hx. apply (f_equal (fun n => st !! n)). lia. }
  destruct (m_stackElements s !! (m_stackHeight s - Z.of_nat i)) as [c|] eqn:E.
  - destruct (Hk _ _ E) as (_ & _ & Hv). rewrite Hh in Hv. injection Hv as ->. by eapply known_word.
  - destruct (Hr (m_stackHeight s - Z.of_nat i) ltac:(lia) E) as [_ Hv]. rewrite Hh in Hv. symmetry in Hv.
    by apply (Forall_lookup_1 _ _ _ _ words0 Hv).
Qed.

(** A block that the machine runs to its end is fed without an exception. *)
Lemma feeds_complete p st w :
  block_ok p st0 w0 -> exec p st0 w0 = Next st w -> 2 * Z.of_nat (length p) + 3 < 2 ^ 32 ->
  exists ops tr s cl, feeds p ops tr s cl st w.
Proof using All.
  revert st w. induction p as [|it p IH] using rev_ind; intros st w Hok Hx Hlen.
  - injection Hx as <- <-. do 4 eexists. apply feeds_start.
  - rewrite length_app in Hlen. cbn [length] in Hlen.
    destruct (block_snoc _ _ _ _ _ _ Hok Hx) as (st1 & w1 & Hok1 & Hx1 & Hb & Hww & Hit).
    destruct (IH st1 w1 Hok1 Hx1 ltac:(lia)) as (ops & tr & s & cl & Hf).
    destruct (trace_world_at _ _ _ _ (feeds_trace _ _ _ _ _ _ _ Hf)) as [Hgood Hsame].
    destruct (feeds_sound (world_at tr) _ _ _ _ _ _ _ Hf Hgood Hsame ltac:(lia)) as (v & h & Hkn & Hst & Hs & _).
    destruct (trace_worlds _ _ _ _ (feeds_trace _ _ _ _ _ _ _ Hf)) as (Hq & _ & _).
    destruct (feedItem_runs t rules w0 st0 (world_at tr) good0 Hgood words0 short0 s cl v w1 it st1 st w Hkn Hst Hs
      ltac:(lia) Hb Hww Hit) as (Hg & op & s' & cl' & v' & Hev & Hkn' & _ & _ & Ht & Hst' & _).
    exists (if isValid op then ops ++ [op] else ops), (tr ++ [(m_sequenceNumber s', w)]), s', cl'.
    eapply feeds_item; try eassumption; [|by eapply stack_ok_words].
    unfold store_taken in Ht. destruct (isValid op); [by destruct Ht|done].
Qed.
End Block.
