(* ===== verification/CSEDependencies.v ===== *)
(** * CSEDependencies: the dependencies of the classes to generate

    [CSECodeGenerator::addDependencies] follows the arguments of a class and, for a load or a
    hash, the last stores before it that may write what it reads.  It returns or throws with
    enough depth and fuel, and afterwards every class needed is [covered]: it is on the stack
    or what it depends on is needed too. *)

From stdpp Require Import sorting.
From S2P Require Import Prelude U256 CommonData Instruction AssemblyItem SemanticInformation Interpreter Pattern RuleList SimplificationRules ExpressionClasses KnownState CommonSubexpressionEliminator Machine RuleSound StateWorld StoreOrder MatchSound ClassSound WordClasses RuleWeight ClassShape ClassQueries KnownSound KnownFeed KnownBlock.

#[local] Opaque ruleSet Rules readWord readBytes writeWord toBigEndian fromBigEndian.

(** ** The stores by target and slot *)

Definition key (o : StoreOperation) : Target * Z := (target o, slot o).

Lemma key_ltb_trichotomy k k' : key_ltb k k' = false -> key_ltb k' k = false -> k = k'.
Proof.
  destruct k as [t s], k' as [t' s']. unfold key_ltb. cbn [fst snd].
  destruct t, t'; cbn; rewrite ?orb_false_r, ?orb_false_iff; try (intros; lia || done);
    intros H H'; (by f_equal; apply Z.ltb_ge in H, H'; lia).
Qed.

Lemma key_ltb_irreflexive k : key_ltb k k = false.
Proof. destruct k as [t s]. unfold key_ltb. cbn [fst snd]. by rewrite !Z.ltb_irrefl, andb_false_r. Qed.

Lemma key_ltb_trans k1 k2 k3 : key_ltb k1 k2 = true -> key_ltb k2 k3 = true -> key_ltb k1 k3 = true.
Proof.
  unfold key_ltb. rewrite !orb_true_iff, !andb_true_iff, !Z.ltb_lt, !Z.eqb_eq. lia.
Qed.

Notation Groups := (list ((Target * Z) * list StoreOperation)).

(** The keys ascend, and each has the stores with that key. *)
Fixpoint ascending (l : Groups) : Prop :=
  match l with
  | [] => True
  | g :: l => Forall (fun g' => key_ltb (fst g) (fst g') = true) l /\ ascending l
  end.

Definition grouped (ops : list StoreOperation) (l : Groups) : Prop :=
  ascending l /\
  (forall k s, In (k, s) l -> s = filter (fun o => key o = k) ops /\ s <> []) /\
  (forall o, In o ops -> exists s, In (key o, s) l).

Lemma addStore_below op l k :
  Forall (fun g => key_ltb k (fst g) = true) l -> key_ltb k (key op) = true ->
  Forall (fun g => key_ltb k (fst g) = true) (addStore op l).
Proof.
  intros Hl Hk. induction Hl as [|[k' s] l Hg Hl IH]; cbn [addStore]; [by repeat constructor|].
  fold (key op). destruct (key_ltb (key op) k'); [by repeat constructor|].
  destruct (key_ltb k' (key op)); by repeat constructor.
Qed.

Lemma addStore_ascending op l : ascending l -> ascending (addStore op l).
Proof.
  induction l as [|[k' s] l IH]; cbn [addStore ascending]; [by repeat constructor|]. intros [Hall Hl].
  fold (key op). cbn [fst] in *. destruct (key_ltb (key op) k') eqn:E1.
  - cbn [ascending fst]. split; [|done]. constructor; [done|]. eapply Forall_impl; [exact Hall|].
    intros g. by apply key_ltb_trans.
  - destruct (key_ltb k' (key op)) eqn:E2; cbn [ascending fst]; split; try done; [by apply addStore_below|by apply IH].
Qed.

Lemma addStore_In op l k s : ascending l ->
  In (k, s) (addStore op l) <->
  (k <> key op /\ In (k, s) l) \/
  (k = key op /\ ((exists s0, In (k, s0) l /\ s = s0 ++ [op]) \/ ((forall s0, ~ In (k, s0) l) /\ s = [op]))).
Proof.
  induction l as [|[k' s'] l IH]; cbn [addStore ascending].
  { intros _. cbn. split.
    - intros [[= <- <-]|[]]. right. split; [done|]. right. split; [by intros s0 []|done].
    - intros [[_ []]|(-> & [(s0 & [] & _)|(_ & ->)])]. by left. }
  intros [Hall Hl]. fold (key op). cbn [fst] in Hall. rewrite List.Forall_forall in Hall.
  destruct (key_ltb (key op) k') eqn:E1.
  - assert (forall s0, ~ In (key op, s0) ((k', s') :: l)) as Hno.
    { intros s0 [[= -> ->]|Hin]; [by rewrite key_ltb_irreflexive in E1|].
      specialize (Hall _ Hin). cbn in Hall. pose proof (key_ltb_trans _ _ _ E1 Hall) as Hc.
      by rewrite key_ltb_irreflexive in Hc. }
    split.
    + intros [[= <- <-]|Hin]; [right; split; [done|right; by split]|]. left. split; [|exact Hin].
      intros ->. by apply (Hno s).
    + intros [[_ Hin]|(-> & [(s0 & Hin & _)|(_ & ->)])]; [by right|by destruct (Hno s0)|by left].
  - destruct (key_ltb k' (key op)) eqn:E2.
    + cbn [In]. rewrite (IH Hl). assert (k' <> key op) as Hne by (intros ->; by rewrite key_ltb_irreflexive in E2).
      split.
      * intros [[= <- <-]|[[Hk Hin]|(-> & [(s0 & Hin & ->)|(Hno & ->)])]].
        -- left. split; [done|by left].
        -- left. split; [done|by right].
        -- right. split; [done|]. left. exists s0. split; [by right|done].
        -- right. split; [done|]. right. split; [|done]. intros s0 [[= ? ?]|Hin]; [done|by apply (Hno s0)].
      * intros [[Hk [[= <- <-]|Hin]]|(-> & [(s0 & [[= ? ?]|Hin] & ->)|(Hno & ->)])].
        -- by left.
        -- right. by left.
        -- done.
        -- right. right. split; [done|]. left. by exists s0.
        -- right. right. split; [done|]. right. split; [|done]. intros s0 Hin. apply (Hno s0). by right.
    + pose proof (key_ltb_trichotomy _ _ E1 E2) as <-.
      assert (forall s0, ~ In (key op, s0) l) as Hno.
      { intros s0 Hin. specialize (Hall _ Hin). cbn in Hall. by rewrite key_ltb_irreflexive in Hall. }
      cbn [In]. split.
      * intros [[= <- <-]|Hin].
        -- right. split; [done|]. left. exists s'. split; [by left|done].
        -- left. split; [|by right]. intros ->. by apply (Hno s).
      * intros [[Hk [[= <- <-]|Hin]]|(-> & [(s0 & [[= ->]|Hin] & ->)|(Hn & ->)])].
        -- done.
        -- by right.
        -- by left.
        -- by destruct (Hno s0).
        -- destruct (Hn s'). by left.
Qed.

Lemma groupStores_snoc ops op : groupStores (ops ++ [op]) = addStore op (groupStores ops).
Proof. unfold groupStores. by rewrite fold_left_app. Qed.

Lemma key_In_dec (l : Groups) k : (exists s, In (k, s) l) \/ (forall s, ~ In (k, s) l).
Proof.
  induction l as [|[k' s'] l [[s Hs]|IH]]; [right; by intros s []|left; exists s; by right|].
  destruct (decide (k' = k)) as [->|Hne]; [left; exists s'; by left|].
  right. intros s [[= ? ?]|Hin]; [done|by apply (IH s)].
Qed.

(** The constructor groups the stores by target and slot, in order. *)
Lemma groupStores_grouped ops : grouped ops (groupStores ops).
Proof.
  induction ops as [|op ops (Ha & Hs & Ho) ] using rev_ind; [by repeat split|].
  rewrite groupStores_snoc. split; [by apply addStore_ascending|]. split.
  - intros k s Hin. apply (addStore_In op _ k s Ha) in Hin as [[Hk Hin]|(-> & [(s0 & Hin & ->)|(Hno & ->)])];
      rewrite filter_app.
    + rewrite (filter_cons_False (fun o => key o = k) op), filter_nil, app_nil_r by congruence. by apply Hs.
    + rewrite (filter_cons_True (fun o => key o = key op) op), filter_nil by done.
      split; [by rewrite (proj1 (Hs _ _ Hin))|by destruct s0].
    + rewrite (filter_cons_True (fun o => key o = key op) op), filter_nil by done. split; [|done].
      destruct (filter (fun o => key o = key op) ops) as [|o l] eqn:E; [done|].
      assert (In o ops /\ key o = key op) as [Hin Hk].
      { assert (o ∈ filter (fun o => key o = key op) ops) as Hin by (rewrite E; by left).
        apply list_elem_of_filter in Hin as [Hk Hin]. split; [by apply list_elem_of_In|done]. }
      destruct (Ho o Hin) as [s0 Hs0]. rewrite Hk in Hs0. by destruct (Hno s0).
  - intros o Hin. apply in_app_or in Hin as [Hin|[<-|[]]].
    + destruct (Ho o Hin) as [s Hs']. destruct (decide (key o = key op)) as [E|E].
      * exists (s ++ [op]). apply addStore_In; [done|]. right. split; [done|]. left. by exists s.
      * exists s. apply addStore_In; [done|]. by left.
    + destruct (key_In_dec (groupStores ops) (key op)) as [[s Hin]|Hno].
      * exists (s ++ [op]). apply addStore_In; [done|]. right. split; [done|]. left. by exists s.
      * exists [op]. apply addStore_In; [done|]. right. split; [done|]. by right.
Qed.

(** ** The latest store before a load *)

Definition earlier (o o' : StoreOperation) : Prop := store_sequenceNumber o < store_sequenceNumber o'.

Lemma StronglySorted_filter {A} (R : A -> A -> Prop) (P : A -> Prop) `{!forall x, Decision (P x)} l :
  StronglySorted R l -> StronglySorted R (filter P l).
Proof.
  induction 1 as [|x l Hl IH Hx]; [constructor|]. rewrite filter_cons. destruct (decide (P x)); [|exact IH].
  constructor; [exact IH|]. apply Forall_forall. intros y Hy. apply list_elem_of_filter in Hy as [_ Hy].
  rewrite Forall_forall in Hx. by apply Hx.
Qed.

Lemma latestStore_spec front others seq :
  StronglySorted earlier (front :: others) -> store_sequenceNumber front < seq ->
  exists o, In o (front :: others) /\ latestStore front others seq = expression o /\
    store_sequenceNumber o < seq /\
    forall o', In o' (front :: others) -> store_sequenceNumber o' < seq ->
      store_sequenceNumber o' <= store_sequenceNumber o.
Proof.
  intros Hs Hf. induction others as [|x others IH] using rev_ind.
  - exists front. split; [by left|]. split; [done|]. split; [done|]. intros o' [<-|[]] _. lia.
  - rewrite app_comm_cons in Hs. apply StronglySorted_app in Hs as (Hsx & Hs & _).
    destruct (IH Hs) as (o & Hin & Heq & Ho & Hmax). unfold latestStore in *. rewrite fold_left_app. cbn [fold_left].
    destruct (Z.ltb_spec (store_sequenceNumber x) seq) as [Hx|Hx].
    + exists x. split; [right; apply in_or_app; right; by left|]. split; [done|]. split; [done|].
      intros o' Hin' Ho'. rewrite app_comm_cons in Hin'. apply in_app_or in Hin' as [Hin'|[<-|[]]]; [|lia].
      specialize (Hsx o' x). unfold earlier in Hsx. apply Z.lt_le_incl, Hsx; [by apply list_elem_of_In|by left].
    + exists o. split; [rewrite app_comm_cons; apply in_or_app; by left|]. split; [done|]. split; [done|].
      intros o' Hin' Ho'. rewrite app_comm_cons in Hin'. apply in_app_or in Hin' as [Hin'|[<-|[]]]; [by apply Hmax|lia].
Qed.

(** What a load or a hash reads does not overlap what is stored at a slot. *)
Definition independent (v : Z -> Z) (i : Instruction) (arguments : list Z) (slot : Z) : Prop :=
  match i, arguments with
  | SLOAD, [a] => v slot <> v a
  | MLOAD, [a] => 32 <= u256_sub (v slot) (v a) <= modulus - 32
  | KECCAK256, [a; n] =>
      v n = 0 \/ u2s (u256_sub (v slot) (v a)) <= -32 \/
      (0 <= u2s (u256_sub (v slot) (v a)) /\ v n <= u256_sub (v slot) (v a))
  | _, _ => False
  end.

Lemma independent_values v v' i l slot :
  v' slot = v slot -> map v' l = map v l -> independent v i l slot -> independent v' i l slot.
Proof.
  intros Hs Hl. unfold independent. destruct i; try done; destruct l as [|a [|n [|]]]; try done;
    cbn in Hl; injection Hl; intros; repeat match goal with E : v' _ = v _ |- _ => rewrite E; clear E end; done.
Qed.

(** ** Operations of the generator with enough fuel *)

Section Dependencies.
Context {W H : Type} `{!World W H} `{!WorldLaws W H} `{!StateWorld W} {keccak256 : list Z -> Z}
  `{!StateLaws W H keccak256}.
Context (t : RuleTable) (rules : valid_rules t).
Context (w0 : W) (st0 : list Z) (ω : Z -> W).
Context (good0 : good w0) (goodω : forall s, good (ω s)) (words0 : Forall is_u256 st0).

Local Abbreviation bop := (blockOp w0).
Local Abbreviation bseq := (blockSeqop w0 ω).
Local Abbreviation bpush := (blockPushed st0).
Local Abbreviation known := (known bop bseq bpush).
Local Abbreviation answers := (answers bop bseq bpush).

#[local] Instance bop_words : WordSemantics bop.
Proof using WorldLaws0 StateLaws0 good0. exact (blockOp_words w0 good0). Qed.

(** The operation throws, or returns with classes that extend those before. *)
Definition generates {A} (m : nat -> G A) g cl v
    (Q : A -> CSECodeGenerator -> ExpressionClasses -> (Z -> Z) -> Prop) : Prop :=
  exists n, (exists e, forall k, (n <= k)%nat -> m k g cl = Throws e) \/
    (exists a g' cl' v', (forall k, (n <= k)%nat -> m k g cl = Done (a, (g', cl'))) /\
       known cl' v' /\ extends cl cl' v v' /\ grows cl cl' /\ Q a g' cl' v').

Lemma generates_ret {A} (a : A) g cl v (Q : A -> CSECodeGenerator -> ExpressionClasses -> (Z -> Z) -> Prop) :
  known cl v -> Q a g cl v -> generates (fun _ => gret a) g cl v Q.
Proof using.
  intros Hk HQ. exists 0%nat. right. exists a, g, cl, v. split; [done|]. split; [done|].
  split; [apply extends_refl|]. split; [apply grows_refl|done].
Qed.

Lemma generates_throw {A} e g cl v (Q : A -> CSECodeGenerator -> ExpressionClasses -> (Z -> Z) -> Prop) :
  generates (fun _ => gthrow e) g cl v Q.
Proof using. exists 0%nat. left. by exists e. Qed.

Lemma generates_bind {A B} (m : nat -> G A) (k : nat -> A -> G B) g cl v Q R :
  generates m g cl v Q ->
  (forall a g' cl' v', known cl' v' -> extends cl cl' v v' -> grows cl cl' -> Q a g' cl' v' ->
     generates (fun n => k n a) g' cl' v' R) ->
  generates (fun n => gbind (m n) (k n)) g cl v R.
Proof using.
  intros (n & [(e & He)|(a & g1 & cl1 & v1 & Hm & Hk & He & Hg & HQ)]) Hr.
  - exists n. left. exists e. intros i Hi. unfold gbind. by rewrite He.
  - destruct (Hr a g1 cl1 v1 Hk He Hg HQ) as (n' & [(e & He')|(b & g2 & cl2 & v2 & Hm' & Hk' & He' & Hg' & HR)]).
    + exists (n + n')%nat. left. exists e. intros i Hi. unfold gbind. rewrite Hm by lia. apply He'. lia.
    + exists (n + n')%nat. right. exists b, g2, cl2, v2. split.
      { intros i Hi. unfold gbind. rewrite Hm by lia. apply Hm'. lia. }
      split; [done|]. split; [by eapply extends_trans|]. split; [by eapply grows_trans|done].
Qed.

Lemma generates_get {A B} (f : CSECodeGenerator -> A) (k : nat -> A -> G B) g cl v R :
  generates (fun n => k n (f g)) g cl v R -> generates (fun n => gbind (gget f) (k n)) g cl v R.
Proof using. done. Qed.

Lemma generates_modify {B} (f : CSECodeGenerator -> CSECodeGenerator) (k : nat -> unit -> G B) g cl v R :
  generates (fun n => k n tt) (f g) cl v R -> generates (fun n => gbind (gmodify f) (k n)) g cl v R.
Proof using. done. Qed.

Lemma generates_assert {B} (b : bool) e (k : nat -> unit -> G B) g cl v R :
  (b = true -> generates (fun n => k n tt) g cl v R) -> generates (fun n => gbind (gassert b e) (k n)) g cl v R.
Proof using.
  intros Hb. destruct b; [by apply Hb|]. exists 0%nat. left. by exists e.
Qed.

Lemma generates_last {A} (m : nat -> G A) g cl v (Q R : A -> CSECodeGenerator -> ExpressionClasses -> (Z -> Z) -> Prop) :
  generates m g cl v Q ->
  (forall a g' cl' v', known cl' v' -> extends cl cl' v v' -> Q a g' cl' v' -> R a g' cl' v') ->
  generates m g cl v R.
Proof using.
  intros (n & [Ht|(a & g' & cl' & v' & Hm & Hk & He & Hg & HQ)]) HR; exists n; [by left|right].
  exists a, g', cl', v'. auto 10.
Qed.

Lemma generates_classes {A} (f : nat -> ExpressionClasses -> Result (A * ExpressionClasses)) g cl v Q :
  answers f cl v Q ->
  generates (fun n => gclasses (f n)) g cl v (fun a g' cl' v' => g' = g /\ Q a cl' v').
Proof using.
  intros (a & cl' & v' & [n Hn] & Hk & He & Hg & HQ). exists n. right. exists a, g, cl', v'.
  split; [intros i Hi; unfold gclasses; by rewrite Hn|]. by repeat (split; [done|]).
Qed.

Lemma generates_query {A B} (f : ExpressionClasses -> option A) a (k : nat -> A -> G B) g cl v R :
  f cl = Some a -> generates (fun n => k n a) g cl v R -> generates (fun n => gbind (gquery f) (k n)) g cl v R.
Proof using.
  intros Hf (n & Hn). exists n. unfold gbind, gquery, gclasses. rewrite Hf. exact Hn.
Qed.

(** ** Dependencies *)

Definition target_of (i : Instruction) : Target := match i with SLOAD => Storage | _ => Memory end.

Definition is_load (it : AssemblyItem) : bool := is_op it SLOAD || is_op it MLOAD || is_op it KECCAK256.

(** The groups of stores, each in order and with their classes. *)
Definition grouped_ok (cl : ExpressionClasses) (groups : Groups) : Prop := forall k l, In (k, l) groups ->
  l <> [] /\ StronglySorted earlier l /\
  forall o, In o l -> key o = k /\ in_range cl (slot o) /\ 0 < store_sequenceNumber o /\
    Z.odd (store_sequenceNumber o) = false /\
    exists r, representative (m_representatives cl) (expression o) = Some r /\
      sequenceNumber r = store_sequenceNumber o.

(** The classes a class needs, when it is not on the stack. *)
Definition depends (g : CSECodeGenerator) (v : Z -> Z) (c : Z) (expr : Expression) (it : AssemblyItem) : Prop :=
  m_type it <> UndefinedItem /\
  (forall a, In a (e_arguments expr) -> In (a, c) (m_neededBy g)) /\
  (is_load it = true -> forall slot front others,
     In ((target_of (m_instruction it), slot), front :: others) (g_storeOperations g) ->
     store_sequenceNumber front <= sequenceNumber expr ->
     independent v (m_instruction it) (e_arguments expr) slot \/
     In (latestStore front others (sequenceNumber expr), c) (m_neededBy g)).

Definition covered (g : CSECodeGenerator) (cl : ExpressionClasses) (v : Z -> Z) (c : Z) : Prop :=
  is_Some (m_classPositions g !! c) \/
  exists expr it, representative (m_representatives cl) c = Some expr /\ item expr = Some it /\
    depends g v c expr it.

(** The number of classes when the code generator starts. *)
Context (bound0 : Z).

(** A class that was there when the code generator started. *)
Definition asked_class (cl : ExpressionClasses) (a : Z) : Prop := in_range cl a /\ a < bound0.

(** The classes needed are covered, and so are those that need them unless they are being
    followed. *)
Definition needed_ok (following : Z -> Prop) (g : CSECodeGenerator) (cl : ExpressionClasses) (v : Z -> Z) : Prop :=
  forall a b, In (a, b) (m_neededBy g) ->
    asked_class cl a /\ asked_class cl b /\ covered g cl v a /\ (covered g cl v b \/ following b).

Lemma asked_class_extends cl cl' v v' a : extends cl cl' v v' -> asked_class cl a -> asked_class cl' a.
Proof using. intros He [Ha Hs]. split; [by eapply extends_in_range|done]. Qed.

Definition more_needed (g g' : CSECodeGenerator) : Prop :=
  exists l, g' = set_neededBy l g /\ incl (m_neededBy g) l.

Lemma more_needed_refl g : more_needed g g.
Proof using. exists (m_neededBy g). split; [by destruct g|apply incl_refl]. Qed.

Lemma more_needed_trans g1 g2 g3 : more_needed g1 g2 -> more_needed g2 g3 -> more_needed g1 g3.
Proof using. intros (l1 & -> & H1) (l2 & -> & H2). exists l2. split; [done|]. cbn in H2. by eapply incl_tran. Qed.

Lemma more_needed_add g p : more_needed g (set_neededBy (m_neededBy g ++ [p]) g).
Proof using. eexists. split; [done|]. intros x Hx. apply in_or_app. by left. Qed.

Lemma grouped_ok_extends cl cl' v v' groups : extends cl cl' v v' -> grouped_ok cl groups -> grouped_ok cl' groups.
Proof using.
  intros He Hg k l Hin. destruct (Hg k l Hin) as (H1 & H2 & H3). split; [done|]. split; [done|].
  intros o Ho. destruct (H3 o Ho) as (H4 & H5 & H6 & H7 & r & Hr & H8). split; [done|].
  split; [by eapply extends_in_range|]. split; [done|]. split; [done|]. exists r.
  split; [by eapply representative_extends|done].
Qed.

Lemma in_order_grows cl cl' v v' : extends cl cl' v v' -> grows cl cl' -> in_order cl -> in_order cl'.
Proof using.
  intros He Hg Ho i j e e' Hi Hj H0 H0'. destruct (grows_lookup _ _ _ _ Hg Hi); [|done].
  destruct (grows_lookup _ _ _ _ Hg Hj); [|done]. by apply Ho.
Qed.

Lemma representative_arguments cl c e :
  shape cl -> representative (m_representatives cl) c = Some e ->
  exists it, item e = Some it /\ asked it (sequenceNumber e) (e_arguments e) /\
    Forall (fun a => 0 <= a < c) (e_arguments e).
Proof using.
  intros Hs Hr. apply representative_lookup in Hr as [Hr H0]. destruct (sh_rep cl Hs _ _ Hr) as (it & Hit & Ha & Hl).
  exists it. split; [done|]. split; [done|]. by rewrite Z2Nat.id in Hl.
Qed.

Lemma representative_range (cl : ExpressionClasses) c e : representative (m_representatives cl) c = Some e -> in_range cl c.
Proof using.
  intros Hr. apply representative_lookup in Hr as [Hr H0]. apply lookup_lt_Some in Hr. unfold in_range, classes_size. lia.
Qed.

Lemma covered_mono g cl v g' cl' v' c :
  shape cl -> grouped_ok cl (g_storeOperations g) -> extends cl cl' v v' -> more_needed g g' ->
  covered g cl v c -> covered g' cl' v' c.
Proof using.
  intros Hs Hg He (l & -> & Hl) [Hc|(expr & it & Hr & Hit & Hu & Ha & Hd)]; [by left|right].
  exists expr, it. split; [by eapply representative_extends|]. split; [done|]. split; [done|].
  split; [intros a Hin; apply Hl, Ha, Hin|].
  intros Hload slot front others Hin Hseq. cbn in Hin.
  destruct (Hd Hload slot front others Hin Hseq) as [Hind|Hn]; [left|right; by apply Hl].
  destruct (Hg _ _ Hin) as (_ & _ & Ho). destruct (Ho front ltac:(by left)) as (Hk & Hsl & _).
  injection Hk as _ Hk. rewrite Hk in Hsl.
  eapply independent_values; [by apply (ext_value _ _ _ _ He)| |exact Hind].
  eapply map_extends; [exact He|]. destruct (representative_arguments cl c expr Hs Hr) as (_ & _ & _ & Hargs).
  eapply Forall_impl; [exact Hargs|]. intros a Hra. pose proof (representative_range _ _ _ Hr). unfold in_range in *. cbn in *. lia.
Qed.

Lemma needed_ok_mono X X' g cl v cl' v' :
  shape cl -> grouped_ok cl (g_storeOperations g) -> extends cl cl' v v' -> (forall b, X b -> X' b) ->
  needed_ok X g cl v -> needed_ok X' g cl' v'.
Proof using.
  intros Hs Hg He HX Hn a b Hin. destruct (Hn a b Hin) as (Ha & Hb & Hca & Hcb).
  pose proof (more_needed_refl g) as Hr.
  split; [by eapply asked_class_extends|]. split; [by eapply asked_class_extends|].
  split; [by eapply covered_mono|]. destruct Hcb as [Hcb|Hcb]; [left; by eapply covered_mono|right; by apply HX].
Qed.

(** A pair is added for a class that is being followed. *)
Lemma needed_ok_add (X : Z -> Prop) g cl v a c :
  shape cl -> grouped_ok cl (g_storeOperations g) -> needed_ok X g cl v -> asked_class cl a -> asked_class cl c ->
  covered g cl v a -> X c -> needed_ok X (set_neededBy (m_neededBy g ++ [(a, c)]) g) cl v.
Proof using.
  intros Hs Hg Hn Ha Hc Hcov HX x y Hin. pose proof (more_needed_add g (a, c)) as Hm.
  pose proof (extends_refl cl v) as He. cbn in Hin.
  apply in_app_or in Hin as [Hin|[[= <- <-]|[]]].
  - destruct (Hn x y Hin) as (H1 & H2 & H3 & H4). split; [done|]. split; [done|].
    split; [by eapply covered_mono|]. destruct H4; [left; by eapply covered_mono|by right].
  - split; [done|]. split; [done|]. split; [by eapply covered_mono|by right].
Qed.

(** ** [knownToBeIndependent] and [addDependencies] *)

Lemma knownToBeIndependent_generates g cl v it loc l slot a l' :
  known cl v -> is_load it = true -> l = a :: l' -> length l = args (instructionInfo (m_instruction it)) ->
  in_range cl slot -> Forall (in_range cl) l ->
  generates (fun n => knownToBeIndependent n t (m_instruction it) loc l slot a) g cl v
    (fun b g' cl' v' => g' = g /\ (b = true -> independent v' (m_instruction it) l slot)).
Proof using All.
  intros Hk Hload -> Hn Hslot Hl. apply Forall_cons in Hl as [Ha Hl].
  assert (m_instruction it = SLOAD \/ m_instruction it = MLOAD \/ m_instruction it = KECCAK256) as Hi.
  { unfold is_load in Hload. rewrite !orb_true_iff, !is_op_spec in Hload. tauto. }
  destruct Hi as [Hi|[Hi|Hi]]; rewrite Hi in *; cbn in Hn; unfold knownToBeIndependent.
  - destruct l'; [|discriminate Hn].
    eapply generates_last; [apply generates_classes; by apply (knownToBeDifferent_answers bop bseq bpush
      (blockSeqop_pure w0 ω) (blockSeqop_range w0 ω goodω) (blockPushed_range st0 words0) t rules cl v slot a)|].
    intros b g' cl' v' _ He [-> Hb]. split; [done|]. intros Ht. cbn.
    rewrite (ext_value _ _ _ _ He slot Hslot), (ext_value _ _ _ _ He a Ha). by apply Hb.
  - destruct l'; [|discriminate Hn].
    eapply generates_last; [apply generates_classes; by apply (knownToBeDifferentBy32_answers bop bseq bpush
      (blockSeqop_pure w0 ω) (blockSeqop_range w0 ω goodω) (blockPushed_range st0 words0) t rules cl v slot a)|].
    intros b g' cl' v' _ He [-> Hb]. split; [done|]. intros Ht. cbn.
    rewrite (ext_value _ _ _ _ He slot Hslot), (ext_value _ _ _ _ He a Ha). by apply Hb.
  - destruct l' as [|n [|]]; try discriminate Hn. apply Forall_cons in Hl as [Hnr _].
    cbn [lookup list_lookup].
    eapply generates_bind; [apply generates_classes; apply (op_answers bop bseq bpush (blockSeqop_pure w0 ω)
      (blockSeqop_range w0 ω goodω) (blockPushed_range st0 words0) t rules cl v SUB loc [slot; a]); try done;
      by repeat constructor; apply Hslot || apply Ha|].
    intros r g1 cl1 v1 Hk1 He1 _ (-> & Hr & Hv). cbn [map] in Hv.
    rewrite (op_SUB bop) in Hv by (try exact bop_words; by eapply known_word).
    destruct (knownConstant_known (keccak256 := keccak256) t rules w0 st0 ω good0 goodω words0 cl1 v1 r Hk1 Hr) as (o & Ho & Hov).
    destruct (knownConstant_known (keccak256 := keccak256) t rules w0 st0 ω good0 goodω words0 cl1 v1 n Hk1 ltac:(by eapply extends_in_range)) as (len & Hlen & Hlv).
    eapply generates_query; [exact Ho|]. eapply generates_query; [exact Hlen|]. apply generates_ret; [done|].
    split; [done|]. cbn [independent].
    rewrite (ext_value _ _ _ _ He1 slot Hslot), (ext_value _ _ _ _ He1 a Ha), <- Hv.
    case_bool_decide as H0; [intros _; left; by apply Hlv|]. destruct o as [x|]; [|done].
    rewrite (Hov x eq_refl) in *. destruct (Z.leb_spec (u2s x) (-32)); [intros _; right; by left|].
    destruct len as [y|]; [|done]. intros Hb. apply andb_true_iff in Hb as [E1 E2]. apply Z.leb_le in E1, E2.
    right. right. split; [done|]. by rewrite (Hlv y eq_refl).
Qed.

(** What following a class needs and keeps. *)
Record ready (X : Z -> Prop) (g : CSECodeGenerator) (cl : ExpressionClasses) (v : Z -> Z) : Prop := {
  rd_order : in_order cl;
  rd_groups : grouped_ok cl (g_storeOperations g);
  rd_needed : needed_ok X g cl v }.

Lemma ready_extends X g cl v cl' v' :
  shape cl -> extends cl cl' v v' -> grows cl cl' -> ready X g cl v -> ready X g cl' v'.
Proof using.
  intros Hs He Hg [H1 H2 H3]. split; [by eapply in_order_grows|by eapply grouped_ok_extends|].
  by eapply needed_ok_mono.
Qed.

Definition follows (add : nat -> Z -> G unit) (bound : Z) : Prop := forall a X g cl v,
  a < bound -> known cl v -> asked_class cl a -> ready X g cl v ->
  generates (fun n => add n a) g cl v (fun _ g' cl' v' =>
    more_needed g g' /\ ready X g' cl' v' /\ covered g' cl' v' a).

Lemma ready_add (X : Z -> Prop) g cl v a c :
  known cl v -> ready X g cl v -> asked_class cl a -> asked_class cl c -> covered g cl v a -> X c ->
  ready X (set_neededBy (m_neededBy g ++ [(a, c)]) g) cl v.
Proof using.
  intros (_ & _ & Hs) [H1 H2 H3] Ha Hc Hcov HX. split; [done|done|]. by apply needed_ok_add.
Qed.

Lemma addArguments_generates (add : nat -> Z -> G unit) bound (X : Z -> Prop) c l : follows add bound -> X c ->
  forall g cl v, known cl v -> ready X g cl v -> asked_class cl c -> Forall (asked_class cl) l -> Forall (fun a => a < bound) l ->
  generates (fun n => addArguments (add n) c l) g cl v (fun _ g' cl' v' =>
    more_needed g g' /\ ready X g' cl' v' /\ forall a, In a l -> In (a, c) (m_neededBy g')).
Proof using.
  intros Hadd HX. induction l as [|a l IH]; intros g cl v Hk Hr Hc Hl Hb; cbn [addArguments].
  { apply generates_ret; [done|]. split; [apply more_needed_refl|]. by split. }
  apply Forall_cons in Hl as [Ha Hl]. apply Forall_cons in Hb as [Hab Hb].
  eapply generates_bind; [by apply (Hadd a X)|].
  intros _ g1 cl1 v1 Hk1 He1 Hg1 (Hm1 & Hr1 & Hcov). apply generates_modify.
  eapply generates_last; [apply IH; [done|apply ready_add; try done; by eapply asked_class_extends|by eapply asked_class_extends| |done]|].
  { eapply Forall_impl; [exact Hl|]. intros x. by apply (asked_class_extends _ _ _ _ _ He1). }
  intros _ g2 cl2 v2 _ _ (Hm2 & Hr2 & Hall). pose proof (more_needed_add g1 (a, c)) as Hm.
  split; [eapply more_needed_trans; [exact Hm1|]; by eapply more_needed_trans|]. split; [done|].
  intros x [<-|Hx]; [|by apply Hall]. destruct Hm2 as (l2 & -> & Hincl). apply Hincl. cbn. apply in_or_app. right. by left.
Qed.

(** A class and the expression that represents it. *)
Lemma class_value cl v c e :
  known cl v -> representative (m_representatives cl) c = Some e ->
  exists it, item e = Some it /\ asked it (sequenceNumber e) (e_arguments e) /\
    Forall (fun a => 0 <= a < c) (e_arguments e) /\ Forall (in_range cl) (e_arguments e) /\
    (m_type it = Operation -> length (e_arguments e) = args (instructionInfo (m_instruction it))) /\
    v c = item_value (wordSemantics bop bseq bpush) it (sequenceNumber e) (map v (e_arguments e)).
Proof using.
  intros (Hc & _ & Hs) Hr. destruct (representative_arguments cl c e Hs Hr) as (it & Hit & Ha & Hl).
  destruct (representative_rep _ _ _ _ _ (con_value _ _ _ Hc) Hr) as (_ & _ & Hev).
  destruct (Hev it Hit) as [Hlen Hv]. exists it. split; [done|]. split; [done|]. split; [done|].
  pose proof (representative_range _ _ _ Hr) as Hrange. split; [|by split].
  eapply Forall_impl; [exact Hl|]. intros a Hra. unfold in_range in *. cbn in *. lia.
Qed.

Lemma load_sequence it seq l : is_load it = true -> asked it seq l ->
  m_type it = Operation /\ 0 < seq /\ Z.odd seq = true.
Proof using.
  unfold is_load. rewrite !orb_true_iff, !is_op_spec. unfold asked.
  intros [[[-> ->]|[-> ->]]|[-> ->]]; cbn; by intros [? ?].
Qed.

(** The last store before a load has an earlier class. *)
Lemma latestStore_class cl c expr it t' front others :
  in_order cl -> representative (m_representatives cl) c = Some expr ->
  0 < sequenceNumber expr -> Z.odd (sequenceNumber expr) = true -> is_load it = true ->
  grouped_ok cl [(t', front :: others)] -> store_sequenceNumber front <= sequenceNumber expr ->
  in_range cl (latestStore front others (sequenceNumber expr)) /\
  latestStore front others (sequenceNumber expr) < c.
Proof using.
  intros Ho Hr H0 Hodd Hload Hg Hle. destruct (Hg _ _ ltac:(by left)) as (_ & Hs & Hall).
  destruct (Hall front ltac:(by left)) as (_ & _ & _ & Hf & _).
  assert (store_sequenceNumber front <> sequenceNumber expr) as Hne by (intros E; by rewrite E, Hodd in Hf).
  destruct (latestStore_spec front others (sequenceNumber expr) Hs ltac:(lia)) as (o & Hin & -> & Hlt & _).
  destruct (Hall o Hin) as (_ & _ & Hpos & _ & r & Hro & Hseq).
  split; [by eapply representative_range|].
  apply representative_lookup in Hro as [Hro Ho0]. apply representative_lookup in Hr as [Hr Hc0].
  assert (Z.to_nat (expression o) < Z.to_nat c)%nat; [|lia]. apply (Ho _ _ r expr Hro Hr); lia.
Qed.

Lemma addStores_generates (add : nat -> Z -> G unit) (X : Z -> Prop) c it expr slot0 loc l' :
  follows add c -> X c -> c < bound0 -> is_load it = true -> e_arguments expr = slot0 :: l' -> forall stores g cl v,
  known cl v -> ready X g cl v -> representative (m_representatives cl) c = Some expr -> item expr = Some it ->
  incl stores (g_storeOperations g) ->
  generates (fun n => addStores n t (add n) c (m_instruction it) loc expr slot0 stores) g cl v (fun _ g' cl' v' =>
    more_needed g g' /\ ready X g' cl' v' /\
    forall slot front others, In ((target_of (m_instruction it), slot), front :: others) stores ->
      store_sequenceNumber front <= sequenceNumber expr ->
      independent v' (m_instruction it) (e_arguments expr) slot \/
      In (latestStore front others (sequenceNumber expr), c) (m_neededBy g')).
Proof using All.
  intros Hadd HX Hcs Hload Hargs. induction stores as [|[[t' slot] storeOps] stores IH]; intros g cl v Hk Hr Hrep Hit Hincl;
    cbn [addStores].
  { apply generates_ret; [done|]. split; [apply more_needed_refl|]. by split. }
  destruct (class_value cl v c expr Hk Hrep) as (it' & Hit' & Hask & Hlt & Hl & Hlen & _).
  assert (it' = it) as -> by congruence. destruct (load_sequence _ _ _ Hload Hask) as (Hop & Hs0 & Hodd).
  pose proof (Hincl _ (or_introl eq_refl)) as Hin. destruct (rd_groups _ _ _ _ Hr _ _ Hin) as (Hne & _ & Hstores).
  eapply (generates_bind _ _ _ _ _ (fun _ g' cl' v' => more_needed g g' /\ ready X g' cl' v' /\
    forall front others, t' = target_of (m_instruction it) -> storeOps = front :: others ->
      store_sequenceNumber front <= sequenceNumber expr ->
      independent v' (m_instruction it) (e_arguments expr) slot \/
      In (latestStore front others (sequenceNumber expr), c) (m_neededBy g'))).
  - change (match m_instruction it with SLOAD => Storage | _ => Memory end) with (target_of (m_instruction it)).
    case_bool_decide as Ht; cbn [negb].
    2: { apply generates_ret; [done|]. split; [apply more_needed_refl|]. split; [done|]. by intros. }
    destruct storeOps as [|front others]; [done|].
    destruct (Z.ltb_spec (sequenceNumber expr) (store_sequenceNumber front)) as [Hlater|Hle].
    { apply generates_ret; [done|]. split; [apply more_needed_refl|]. split; [done|]. intros ? ? _ [= <- <-]. lia. }
    destruct (Hstores front ltac:(by left)) as (Hkey & Hslot & _). injection Hkey as _ Hkey. rewrite Hkey in Hslot.
    eapply generates_bind; [apply (knownToBeIndependent_generates g cl v it loc (e_arguments expr) slot slot0 l');
      try done; by apply Hlen|].
    intros b g1 cl1 v1 Hk1 He1 Hg1 (-> & Hb). destruct Hk as (_ & _ & Hsh).
    pose proof (ready_extends _ _ _ _ _ _ Hsh He1 Hg1 Hr) as Hr1.
    destruct b.
    { apply generates_ret; [done|]. split; [apply more_needed_refl|]. split; [done|]. intros ? ? _ [= <- <-] _.
      left. by apply Hb. }
    pose proof (representative_extends _ _ _ _ _ _ He1 Hrep) as Hrep1.
    destruct (latestStore_class cl1 c expr it (t', slot) front others (rd_order _ _ _ _ Hr1) Hrep1 Hs0 Hodd Hload)
      as [Hlr Hlc]; [|done|].
    { intros k l [[= <- <-]|[]]. by apply (rd_groups _ _ _ _ Hr1). }
    eapply generates_bind; [by apply (Hadd _ X); try done; split; [done|lia]|].
    intros _ g2 cl2 v2 Hk2 He2 _ (Hm2 & Hr2 & Hcov). exists 0%nat. right. eexists tt, _, cl2, v2.
    split; [done|]. split; [done|]. split; [apply extends_refl|]. split; [apply grows_refl|].
    split; [eapply more_needed_trans; [exact Hm2|apply more_needed_add]|]. split.
    { apply ready_add; try done; (split; [|lia]); [by eapply extends_in_range|].
      eapply extends_in_range; [exact He2|]. by eapply representative_range. }
    intros ? ? _ [= <- <-] _. right. cbn. apply in_or_app. right. by left.
  - intros _ g1 cl1 v1 Hk1 He1 Hg1 (Hm1 & Hr1 & Hd1).
    eapply generates_last; [apply IH; try done; [by eapply representative_extends|]|].
    { intros x Hx. destruct Hm1 as (N & -> & _). apply Hincl. by right. }
    intros _ g2 cl2 v2 Hk2 He2 (Hm2 & Hr2 & Hd2). split; [by eapply more_needed_trans|]. split; [done|].
    intros slot1 front others [[= -> -> ->]|Hin'] Hle; [|by apply Hd2].
    destruct (Hd1 front others eq_refl eq_refl Hle) as [Hi|Hi].
    + left. destruct (Hstores front ltac:(by left)) as (Hkey & Hslot & _). injection Hkey as _ Hkey. rewrite Hkey in Hslot.
      pose proof (extends_trans _ _ _ _ _ _ He1 He2) as He.
      eapply independent_values; [|eapply map_extends; [exact He2|]|exact Hi].
      * apply (ext_value _ _ _ _ He2). by eapply extends_in_range.
      * eapply Forall_impl; [exact Hl|]. intros a. by apply (extends_in_range _ _ _ _ _ He1).
    + right. destruct Hm2 as (N & -> & HN). by apply HN.
Qed.

Lemma needed_key g c : existsb (fun p => fst p =? c) (m_neededBy g) = true -> exists b, In (c, b) (m_neededBy g).
Proof using.
  intros Hx. apply existsb_exists in Hx as ([a b] & Hin & He). apply Z.eqb_eq in He. cbn in He. subst. by exists b.
Qed.

(** Following a class: everything it depends on is needed. *)
Lemma addDependencies_follows d : follows (fun n c => addDependencies d n t c) (Z.of_nat d).
Proof using All.
  induction d as [|d IH]; intros c X g cl v Hc Hk [Hrange Hsize] Hr; [unfold in_range in Hrange; lia|].
  cbn [addDependencies]. apply generates_get, generates_get.
  case_bool_decide as Hpos; cbn [orb].
  { apply generates_ret; [done|]. split; [apply more_needed_refl|]. split; [done|]. by left. }
  destruct (existsb _ _) eqn:Hn.
  { apply generates_ret; [done|]. split; [apply more_needed_refl|]. split; [done|].
    apply needed_key in Hn as [b Hb]. by destruct (rd_needed _ _ _ _ Hr c b Hb) as (_ & _ & ? & _). }
  destruct (representative (m_representatives cl) c) as [expr|] eqn:Hrep;
    [|exfalso; unfold representative in Hrep; destruct (Z.leb_spec 0 c); [|unfold in_range in Hrange; lia];
      apply lookup_ge_None in Hrep; unfold in_range, classes_size in Hrange; lia].
  destruct (class_value cl v c expr Hk Hrep) as (it & Hit & Hask & Hlt & Hl & Hlen & _).
  unfold representativeOf. eapply generates_query; [exact Hrep|]. rewrite Hit. apply generates_assert. intros Hund.
  apply negb_true_iff, bool_decide_eq_false in Hund.
  set (X' := fun b => X b \/ b = c). pose proof Hk as (_ & _ & Hsh).
  assert (ready X' g cl v) as Hr'.
  { destruct Hr as [H1 H2 H3]. split; [done|done|]. eapply needed_ok_mono; [done|done|apply extends_refl| |done]. by left. }
  assert (follows (fun n a => addDependencies d n t a) c) as Hf.
  { intros a Y g1 cl1 v1 Ha. apply IH. lia. }
  eapply generates_bind; [apply (addArguments_generates _ c X' c (e_arguments expr) Hf); try done; [by right|..]|].
  { apply Forall_and. split; [done|]. eapply Forall_impl; [exact Hlt|]. cbn. lia. }
  { eapply Forall_impl; [exact Hlt|]. cbn. lia. }
  intros _ g1 cl1 v1 Hk1 He1 Hg1 (Hm1 & Hr1 & Hargs).
  assert (forall g2 cl2 v2, known cl2 v2 -> extends cl1 cl2 v1 v2 -> more_needed g1 g2 -> ready X' g2 cl2 v2 ->
    depends g2 v2 c expr it -> more_needed g g2 /\ ready X g2 cl2 v2 /\ covered g2 cl2 v2 c) as Hdone.
  { intros g2 cl2 v2 Hk2 He2 Hm2 Hr2 Hd. assert (covered g2 cl2 v2 c) as Hcov.
    { right. exists expr, it. split; [eapply representative_extends; [exact He2|]; by eapply representative_extends|].
      by split. }
    split; [by eapply more_needed_trans|]. split; [|done]. destruct Hr2 as [H1 H2 H3]. split; [done|done|].
    intros a b Hin. destruct (H3 a b Hin) as (Ha & Hb & Hca & [Hcb|[Hcb| ->]]); by auto. }
  fold (is_load it). destruct (is_load it) eqn:Hload.
  2: { apply generates_ret; [done|]. apply Hdone; [done|apply extends_refl|apply more_needed_refl|done|].
       split; [done|]. split; [done|]. congruence. }
  destruct (load_sequence _ _ _ Hload Hask) as (Hop & _). specialize (Hlen Hop).
  destruct (e_arguments expr) as [|slot0 l'] eqn:Hargs'.
  { exfalso. unfold is_load in Hload. rewrite !orb_true_iff, !is_op_spec in Hload.
    destruct Hload as [[[_ Hi]|[_ Hi]]|[_ Hi]]; rewrite Hi in Hlen; discriminate Hlen. }
  apply generates_get.
  eapply generates_last; [apply (addStores_generates _ X' c it expr slot0 (m_location it) l' Hf);
    [by right|done|done|done|done|done|by eapply representative_extends|done|apply incl_refl]|].
  intros _ g2 cl2 v2 Hk2 He2 (Hm2 & Hr2 & Hd). apply Hdone; try done. split; [done|].
  split; [intros a Ha; rewrite Hargs' in Ha; destruct Hm2 as (N & -> & HN); by apply HN, Hargs|].
  intros _ slot front others Hin. destruct Hm2 as (N & -> & HN). by apply Hd.
Qed.
End Dependencies.
