(* ===== verification/CSEStack.v ===== *)
(** * CSEStack: the stack of the code generator

    The code generator keeps the classes on the stack it has generated code for.  Running the
    items generated so far from the start of the block leaves the values of those classes
    ([placed]); the operations on the stack keep this, and they only move or remove what is
    not yet at its target position below a given level. *)

From S2P Require Import Prelude U256 CommonData Instruction AssemblyItem SemanticInformation Interpreter Pattern RuleList SimplificationRules ExpressionClasses KnownState CommonSubexpressionEliminator Machine RuleSound StateWorld StoreOrder MatchSound ClassSound WordClasses RuleWeight ClassShape ClassQueries KnownSound KnownFeed KnownBlock.

#[local] Opaque ruleSet Rules readWord readBytes writeWord toBigEndian fromBigEndian.

(** ** Positions *)

Lemma fold_max l : forall x, In (fold_left Z.max l x) (x :: l) /\ Forall (fun y => y <= fold_left Z.max l x) (x :: l).
Proof.
  induction l as [|y l IH]; intros x; cbn [fold_left]; [split; [by left|by repeat constructor]|].
  destruct (IH (Z.max x y)) as [Hin Hall]. apply Forall_cons in Hall as [Hx Hl]. split.
  - destruct Hin as [Hin|Hin]; [|right; by right]. rewrite <- Hin. destruct (Z.max_spec x y) as [[_ ->]|[_ ->]];
      [right; by left|by left].
  - repeat constructor; [lia..|done].
Qed.

Lemma max_position_spec s p : max_position s = Some p -> p ∈ s /\ forall q, q ∈ s -> q <= p.
Proof.
  unfold max_position. destruct (elements s) as [|x l] eqn:E; [done|]. intros [= <-].
  destruct (fold_max l x) as [Hin Hall]. rewrite <- E in *. split.
  - apply elem_of_elements. by apply list_elem_of_In.
  - intros q Hq. rewrite Forall_forall in Hall. apply Hall. by apply elem_of_elements.
Qed.

Lemma max_position_is_Some s p : p ∈ s -> is_Some (max_position s).
Proof.
  intros Hp. unfold max_position. destruct (elements s) as [|x l] eqn:E; [|by eexists].
  apply elem_of_elements in Hp. rewrite E in Hp. by apply not_elem_of_nil in Hp.
Qed.

(** The positions of a class. *)
Definition pos_set (P : gmap Z (gset Z)) (c : Z) : gset Z := default ∅ (P !! c).

Definition position_of (g : CSECodeGenerator) (c : Z) : option Z := m_classPositions g !! c ≫= max_position.

Lemma position_of_spec g c p :
  position_of g c = Some p -> p ∈ pos_set (m_classPositions g) c /\ forall q, q ∈ pos_set (m_classPositions g) c -> q <= p.
Proof.
  unfold position_of, pos_set. destruct (m_classPositions g !! c) as [s|]; [|done]. apply max_position_spec.
Qed.

Lemma pos_set_insert P c s c' : pos_set (<[c := s]> P) c' = if decide (c = c') then s else pos_set P c'.
Proof.
  unfold pos_set. destruct (decide (c = c')) as [->|Hne]; [by rewrite lookup_insert_eq|by rewrite lookup_insert_ne].
Qed.

(** The positions are those of the stack. *)
Definition tracks (P : gmap Z (gset Z)) (m : gmap Z Z) : Prop := forall c p, p ∈ pos_set P c <-> m !! p = Some c.

Lemma tracks_key P m p c : tracks P m -> m !! p = Some c -> is_Some (P !! c).
Proof.
  intros Ht Hp. apply Ht in Hp. unfold pos_set in Hp. destruct (P !! c); [by eexists|by apply not_elem_of_empty in Hp].
Qed.

Definition same_keys (P P' : gmap Z (gset Z)) : Prop := forall k, is_Some (P !! k) <-> is_Some (P' !! k).

Lemma same_keys_insert P c s : is_Some (P !! c) -> same_keys P (<[c := s]> P).
Proof.
  intros Hc k. destruct (decide (c = k)) as [->|Hne]; [|by rewrite lookup_insert_ne].
  rewrite lookup_insert_eq. split; [by eexists|done].
Qed.

Lemma same_keys_refl P : same_keys P P.
Proof. done. Qed.

Lemma same_keys_trans P1 P2 P3 : same_keys P1 P2 -> same_keys P2 P3 -> same_keys P1 P3.
Proof. intros E1 E2 k. destruct (E1 k), (E2 k). split; auto. Qed.

(** A class put at a position that is free. *)
Lemma tracks_push P m c h :
  tracks P m -> m !! h = None -> tracks (<[c := {[ h ]} ∪ pos_set P c]> P) (<[h := c]> m).
Proof.
  intros Ht Hh c' p. rewrite pos_set_insert. destruct (decide (h = p)) as [<-|Hne].
  - rewrite lookup_insert_eq. destruct (decide (c = c')) as [->|Hc]; [set_solver|].
    rewrite (Ht c' h), Hh. split; [done|congruence].
  - rewrite lookup_insert_ne by done. destruct (decide (c = c')) as [->|Hc]; [|by apply Ht].
    rewrite elem_of_union, elem_of_singleton, (Ht c' p). split; [intros [->|]; done|by right].
Qed.

(** A class taken off a position. *)
Lemma tracks_pop P m c h :
  tracks P m -> m !! h = Some c -> tracks (<[c := pos_set P c ∖ {[ h ]}]> P) (delete h m).
Proof.
  intros Ht Hh c' p. rewrite pos_set_insert, lookup_delete_Some. destruct (decide (c = c')) as [->|Hc].
  - rewrite elem_of_difference, elem_of_singleton, (Ht c' p). split; intros [H1 H2]; split; try done; congruence.
  - rewrite (Ht c' p). split; [|by intros [_ ?]]. intros Hp. split; [|done]. intros ->. congruence.
Qed.

(** Two different classes exchanged. *)
Lemma tracks_swap P m top from h p :
  tracks P m -> h <> p -> top <> from -> m !! h = Some top -> m !! p = Some from ->
  let P1 := <[top := pos_set P top ∖ {[ h ]}]> P in
  let P2 := <[top := {[ p ]} ∪ pos_set P1 top]> P1 in
  let P3 := <[from := pos_set P2 from ∖ {[ p ]}]> P2 in
  let P4 := <[from := {[ h ]} ∪ pos_set P3 from]> P3 in
  tracks P4 (<[p := top]> (<[h := from]> m)) /\ same_keys P P4.
Proof.
  intros Ht Hhp Hne Hh Hp P1 P2 P3 P4. split.
  - intros c q. unfold P4, P3, P2, P1. rewrite !pos_set_insert.
    rewrite ?(decide_True (P := top = top)), ?(decide_True (P := from = from)) by done.
    rewrite !(decide_False (P := top = from)) by done.
    destruct (decide (from = c)) as [<-|Hfc].
    + rewrite elem_of_union, elem_of_difference, !elem_of_singleton, (Ht from q).
      destruct (decide (p = q)) as [<-|Hpq]; [rewrite lookup_insert_eq; split; [intros [?|[_ ?]]; congruence|congruence]|].
      rewrite lookup_insert_ne by done.
      destruct (decide (h = q)) as [<-|Hhq]; [rewrite lookup_insert_eq; split; [done|by left]|].
      rewrite lookup_insert_ne by done. split; [intros [?|[? _]]; congruence|]. intros Hq. right. split; [done|congruence].
    + destruct (decide (top = c)) as [<-|Htc].
      * rewrite elem_of_union, elem_of_difference, !elem_of_singleton, (Ht top q).
        destruct (decide (p = q)) as [<-|Hpq]; [rewrite lookup_insert_eq; split; [done|by left]|].
        rewrite lookup_insert_ne by done.
        destruct (decide (h = q)) as [<-|Hhq]; [rewrite lookup_insert_eq; split; [intros [?|[_ ?]]; congruence|congruence]|].
        rewrite lookup_insert_ne by done. split; [intros [?|[? _]]; congruence|]. intros Hq. right. split; [done|congruence].
      * rewrite (Ht c q). destruct (decide (p = q)) as [<-|Hpq]; [rewrite lookup_insert_eq; split; congruence|].
        rewrite lookup_insert_ne by done.
        destruct (decide (h = q)) as [<-|Hhq]; [rewrite lookup_insert_eq; split; congruence|].
        by rewrite lookup_insert_ne.
  - assert (is_Some (P !! top)) as Kt by by eapply tracks_key.
    assert (is_Some (P !! from)) as Kf by by eapply tracks_key.
    assert (same_keys P P1) as S1 by by apply same_keys_insert.
    assert (same_keys P1 P2) as S2 by by apply same_keys_insert, S1.
    assert (same_keys P2 P3) as S3 by by apply same_keys_insert, S2, S1.
    assert (same_keys P3 P4) as S4 by by apply same_keys_insert, S3, S2, S1.
    eapply same_keys_trans; [exact S1|]. eapply same_keys_trans; [exact S2|]. by eapply same_keys_trans.
Qed.

Section Stack.
Context {W H : Type} `{!World W H} `{!StateWorld W}.
Context (w0 : W) (st0 : list Z) (cl : ExpressionClasses) (v : Z -> Z).
(** The lowest position and the target of every position. *)
Context (lo : Z) (tgt : gmap Z Z).
Context (lo_start : lo <= 1).

(** ** Operations that leave the classes *)

(** The operation throws, or returns with the classes as they are. *)
Definition yields {A} (m : G A) (g : CSECodeGenerator) (Q : A -> CSECodeGenerator -> Prop) : Prop :=
  match m g cl with
  | Done (a, (g', cl')) => cl' = cl /\ Q a g'
  | Throws _ => True
  | NoFuel => False
  end.

Lemma yields_ret {A} (a : A) g (Q : A -> CSECodeGenerator -> Prop) : Q a g -> yields (gret a) g Q.
Proof using. by split. Qed.

Lemma yields_bind {A B} (m : G A) (k : A -> G B) g Q R :
  yields m g Q -> (forall a g', Q a g' -> yields (k a) g' R) -> yields (gbind m k) g R.
Proof using.
  unfold yields at 1 3, gbind. destruct (m g cl) as [[a [g' cl']]|e|]; [|done|done]. intros [-> HQ] Hk.
  exact (Hk a g' HQ).
Qed.

Lemma yields_get {A B} (f : CSECodeGenerator -> A) (k : A -> G B) g R :
  yields (k (f g)) g R -> yields (gbind (gget f) k) g R.
Proof using. done. Qed.

Lemma yields_modify {B} (f : CSECodeGenerator -> CSECodeGenerator) (k : unit -> G B) g R :
  yields (k tt) (f g) R -> yields (gbind (gmodify f) k) g R.
Proof using. done. Qed.

Lemma yields_assert {B} (b : bool) e (k : unit -> G B) g R :
  (b = true -> yields (k tt) g R) -> yields (gbind (gassert b e) k) g R.
Proof using. intros Hb. destruct b; [by apply Hb|done]. Qed.

Lemma yields_last {A} (m : G A) g (Q R : A -> CSECodeGenerator -> Prop) :
  yields m g Q -> (forall a g', Q a g' -> R a g') -> yields m g R.
Proof using. unfold yields. destruct (m g cl) as [[a [g' cl']]|e|]; [|done|done]. intros [-> HQ] HR. auto. Qed.

(** ** What the items generated so far leave *)

(** The stack of the generator as that of a state. *)
Definition as_state (g : CSECodeGenerator) : KnownState := set_stack (g_stackHeight g) (m_stack g) emptyState.

(** The items lead to the stack [st] and the world [w]; the positions from [lo] on have
    classes, and those below [level] their targets. *)
Record placed (level : Z) (g : CSECodeGenerator) (st : list Z) (w : W) : Prop := {
  pl_exec : exec (m_generatedItems g) st0 w0 = Next st w;
  pl_stack : stack_ok st0 (as_state g) cl v st;
  pl_from h : lo <= h <= g_stackHeight g <-> is_Some (m_stack g !! h);
  pl_tracks : tracks (m_classPositions g) (m_stack g);
  pl_target : m_targetStack g = tgt;
  pl_final p c : tgt !! p = Some c -> c ∈ m_finalClasses g;
  pl_level : lo <= level <= g_stackHeight g + 1;
  pl_done p : lo <= p < level -> m_stack g !! p = tgt !! p }.

Lemma placed_value level g st w p c :
  placed level g st w -> m_stack g !! p = Some c ->
  lo <= p <= g_stackHeight g /\ in_range cl c /\ st !! Z.to_nat (g_stackHeight g - p) = Some (v c).
Proof using.
  intros Hp Hc. destruct (so_known _ _ _ _ _ (pl_stack _ _ _ _ Hp) p c Hc) as (_ & Hi & Hv).
  split; [apply (pl_from _ _ _ _ Hp); by eexists|]. by split.
Qed.

Lemma placed_lookup level g st w p :
  placed level g st w -> lo <= p <= g_stackHeight g -> exists c, m_stack g !! p = Some c.
Proof using. intros Hp Hr. by apply (pl_from _ _ _ _ Hp). Qed.

(** A position whose class may be taken away is not below the level. *)
Lemma placed_above level g st w p c :
  placed level g st w -> m_stack g !! p = Some c -> tgt !! p <> Some c -> level <= p <= g_stackHeight g.
Proof using.
  intros Hp Hc Ht. destruct (placed_value _ _ _ _ _ _ Hp Hc) as (Hr & _).
  split; [|lia]. destruct (Z.le_gt_cases level p) as [|Hlt]; [done|].
  rewrite (pl_done _ _ _ _ Hp p ltac:(lia)) in Hc. done.
Qed.

(** ** Positions and elements *)

Lemma stack_at_yields g p c (Q : Z -> CSECodeGenerator -> Prop) :
  m_stack g !! p = Some c -> Q c g -> yields (stack_at p) g Q.
Proof using. intros Hc HQ. unfold stack_at. apply yields_get. rewrite Hc. by apply yields_ret. Qed.

Lemma classElementPosition_yields g c (Q : Z -> CSECodeGenerator -> Prop) :
  (forall p, position_of g c = Some p -> Q p g) -> yields (classElementPosition c) g Q.
Proof using.
  intros HQ. unfold classElementPosition. apply yields_get. fold (position_of g c).
  destruct (position_of g c) as [p|]; [by apply yields_ret, HQ|done].
Qed.

Lemma position_of_placed level g st w c p :
  placed level g st w -> position_of g c = Some p -> m_stack g !! p = Some c.
Proof using. intros Hp Hc. apply (pl_tracks _ _ _ _ Hp). by apply position_of_spec. Qed.

(** What may be removed is not at its target. *)
Lemma canBeRemoved_yields level g st w c res from (Q : bool -> CSECodeGenerator -> Prop) :
  placed level g st w ->
  (forall p b, match from with Some q => p = q | None => position_of g c = Some p end ->
     (b = true -> tgt !! p <> Some c) -> Q b g) ->
  yields (canBeRemoved c res from) g Q.
Proof using.
  intros Hp HQ. unfold canBeRemoved.
  apply (yields_bind _ _ _ (fun p g' => g' = g /\ match from with Some q => p = q | None => position_of g c = Some p end)).
  { destruct from as [q|]; [by apply yields_ret|]. apply classElementPosition_yields. by intros p Hpos. }
  intros p g' [-> Hfrom]. apply yields_get. destruct (m_classPositions g !! c) as [positions|]; [|done].
  unfold yields, gget. split; [done|]. apply (HQ p); [done|]. rewrite (pl_target _ _ _ _ Hp).
  case_bool_decide as Hfin.
  - intros Hb. apply andb_true_iff in Hb as [_ Hb]. by apply negb_true_iff, bool_decide_eq_false in Hb.
  - intros _ Ht. by apply (pl_final _ _ _ _ Hp) in Ht.
Qed.

(** ** Items *)

Lemma numbered_yields f n g (Q : Instruction -> CSECodeGenerator -> Prop) :
  (forall i, f n = Some i -> 1 <= n <= 16 -> Q i g) -> yields (numbered f n) g Q.
Proof using.
  intros HQ. unfold numbered. apply yields_assert. intros H1. apply yields_assert. intros H2.
  apply Z.leb_le in H1, H2. destruct (f n) as [i|]; [by apply yields_ret, HQ|done].
Qed.

Lemma placed_dup level g st w p c i loc :
  placed level g st w -> m_stack g !! p = Some c -> dupInstruction (1 + g_stackHeight g - p) = Some i ->
  exec_item (opItem i loc) st w = Next (v c :: st) w /\ to_int (deposit (opItem i loc)) = 1.
Proof using.
  intros Hp Hc Hi. destruct (placed_value _ _ _ _ _ _ Hp Hc) as (Hr & _ & Hv).
  destruct (dup_numbered (1 + g_stackHeight g - p) i) as [Hd _]; [lia|]. destruct (proj1 Hd Hi) as [Hdup Hnum].
  split; [|destruct (dup_table _ Hdup) as (_ & _ & Hdep); by rewrite deposit_operation by done].
  rewrite item_isDup_exec by by rewrite item_isDup_spec. cbn [m_instruction opItem]. rewrite Hnum. unfold dup.
  replace (Z.to_nat (1 + g_stackHeight g - p) - 1)%nat with (Z.to_nat (g_stackHeight g - p)) by lia. by rewrite Hv.
Qed.

(** A position copied to the top. *)
Lemma appendDup_yields level g st w p c loc :
  placed level g st w -> m_stack g !! p = Some c ->
  yields (appendDup p loc) g (fun _ g' => placed level g' (v c :: st) w /\
    g_stackHeight g' = g_stackHeight g + 1 /\ same_keys (m_classPositions g) (m_classPositions g') /\
    m_stack g' = <[g_stackHeight g + 1 := c]> (m_stack g)).
Proof using lo_start.
  intros Hp Hc. unfold appendDup. apply yields_get.
  apply (yields_bind _ _ _ (fun i g' => g' = g /\ dupInstruction (1 + g_stackHeight g - p) = Some i));
    [by apply numbered_yields|].
  intros i g' [-> Hi]. unfold appendItem. apply yields_modify, yields_get.
  destruct (placed_dup _ _ _ _ _ _ i loc Hp Hc Hi) as [Hexec ->].
  cbn [g_stackHeight set_generated].
  eapply yields_bind; [apply (stack_at_yields _ p c (fun a g' => a = c /\ g' = set_generated
    (m_generatedItems g ++ [opItem i loc]) (g_stackHeight g + 1) g)); [exact Hc|done]|].
  intros a g' [-> ->]. apply yields_modify. cbn [m_stack set_generated]. unfold insertPosition, gmodify. split; [done|].
  cbn. destruct (placed_value _ _ _ _ _ _ Hp Hc) as (Hr & Hrange & Hv).
  assert (m_stack g !! (g_stackHeight g + 1) = None) as Hfree.
  { destruct (m_stack g !! (g_stackHeight g + 1)) eqn:E; [|done].
    assert (lo <= g_stackHeight g + 1 <= g_stackHeight g); [apply (pl_from _ _ _ _ Hp); by eexists|lia]. }
  pose proof (tracks_key _ _ _ _ (pl_tracks _ _ _ _ Hp) Hc) as Hkey.
  split; [|split; [done|split; [by apply same_keys_insert|done]]].
  destruct Hp as [Hx Hs Hf Ht Htg Hfin Hlv Hd]. split; cbn; try done.
  - rewrite exec_app, Hx. cbn [exec]. by rewrite Hexec.
  - by apply (stack_ok_push st0 (as_state g)).
  - intros h. destruct (decide (g_stackHeight g + 1 = h)) as [<-|Hne].
    + rewrite lookup_insert_eq. split; [by eexists|lia].
    + rewrite lookup_insert_ne by done. rewrite <- Hf. lia.
  - by apply tracks_push.
  - lia.
  - intros q Hq. rewrite lookup_insert_ne by lia. by apply Hd.
Qed.

Lemma removeSwaps_exec items st1 w1 st w :
  exec items st1 w1 = Next st w -> exec (removeSwaps items) st1 w1 = Next st w.
Proof using.
  unfold removeSwaps. destruct (reverse items) as [|b [|a items']] eqn:E; [done|done|].
  destruct (item_isSwap b && item_eqb a b) eqn:Hs; [|done]. apply andb_true_iff in Hs as [Hb He].
  apply (f_equal reverse) in E. rewrite reverse_involutive, !reverse_cons in E. subst items.
  rewrite <- app_assoc, exec_app. destruct (exec (reverse items') st1 w1) as [st2 w2| |]; [|done..].
  pose proof Hb as [Ht Hi]%item_isSwap_spec. apply item_eqb_spec in He as [Ht' Hi'].
  rewrite Ht in Ht'. rewrite decide_True in Hi' by done.
  cbn [app exec]. rewrite (item_isSwap_exec a) by by rewrite item_isSwap_spec, Ht', Hi'.
  rewrite Hi'. destruct (swap _ st2) as [st3|] eqn:E; [|done]. cbn [or_underflow].
  rewrite (item_isSwap_exec b) by done. by rewrite (swap_swap _ _ _ E).
Qed.

Lemma placed_swap level g st w p top from i loc :
  placed level g st w -> p < g_stackHeight g -> m_stack g !! g_stackHeight g = Some top -> m_stack g !! p = Some from ->
  swapInstruction (g_stackHeight g - p) = Some i ->
  exec_item (opItem i loc) st w =
    Next (<[0%nat := v from]> (<[Z.to_nat (g_stackHeight g - p) := v top]> st)) w /\
  to_int (deposit (opItem i loc)) = 0 /\ item_isSwap (opItem i loc) = true.
Proof using.
  intros Hp Hlt Ht Hf Hi. destruct (placed_value _ _ _ _ _ _ Hp Ht) as (_ & _ & Hvt).
  destruct (placed_value _ _ _ _ _ _ Hp Hf) as (_ & _ & Hvf). rewrite Z.sub_diag in Hvt.
  destruct (swap_numbered (g_stackHeight g - p) i) as [Hd _]; [lia|]. destruct (proj1 Hd Hi) as [Hsw Hnum].
  assert (item_isSwap (opItem i loc) = true) as His by by rewrite item_isSwap_spec.
  split; [|split; [destruct (swap_table _ Hsw) as (_ & _ & Hdep); by rewrite deposit_operation by done|done]].
  rewrite item_isSwap_exec by done. cbn [m_instruction opItem]. rewrite Hnum. unfold swap.
  change (Z.to_nat 0) with 0%nat in Hvt. rewrite Hvt. cbn [mbind option_bind]. by rewrite Hvf.
Qed.

(** The top and another position, not below the level, exchanged. *)
Lemma appendOrRemoveSwap_yields level g st w p loc :
  placed level g st w -> level <= p <= g_stackHeight g ->
  yields (appendOrRemoveSwap p loc) g (fun _ g' => exists st' top from, placed level g' st' w /\
    g_stackHeight g' = g_stackHeight g /\ same_keys (m_classPositions g) (m_classPositions g') /\
    m_stack g !! g_stackHeight g = Some top /\ m_stack g !! p = Some from /\
    m_stack g' = <[p := top]> (<[g_stackHeight g := from]> (m_stack g)) /\
    (p < g_stackHeight g -> exists i, swapInstruction (g_stackHeight g - p) = Some i /\
       m_generatedItems g' = removeSwaps (m_generatedItems g ++ [opItem i loc]))).
Proof using lo_start.
  intros Hp Hr. pose proof (pl_level _ _ _ _ Hp) as Hlv.
  destruct (placed_lookup _ _ _ _ (g_stackHeight g) Hp) as [top Htop]; [lia|].
  destruct (placed_lookup _ _ _ _ p Hp) as [from Hfrom]; [lia|].
  unfold appendOrRemoveSwap. apply yields_get. destruct (Z.eqb_spec p (g_stackHeight g)) as [->|Hne].
  { apply yields_ret. exists st, top, from. split; [done|]. split; [done|]. split; [done|]. split; [done|]. split; [done|].
    split; [|lia]. assert (top = from) as -> by congruence. rewrite insert_insert_eq, insert_id; done. }
  apply (yields_bind _ _ _ (fun i g' => g' = g /\ swapInstruction (g_stackHeight g - p) = Some i));
    [by apply numbered_yields|].
  intros i g' [-> Hi]. unfold appendItem. apply yields_modify, yields_get.
  destruct (placed_swap level g st w p top from i loc Hp ltac:(lia) Htop Hfrom Hi) as (Hexec & -> & Hsw).
  rewrite Z.add_0_r. set (g1 := set_generated (m_generatedItems g ++ [opItem i loc]) (g_stackHeight g) g).
  eapply yields_bind; [by apply (stack_at_yields g1 (g_stackHeight g1) top (fun a g' => a = top /\ g' = g1))|].
  intros a g' [-> ->].
  eapply yields_bind; [by apply (stack_at_yields g1 p from (fun a g' => a = from /\ g' = g1))|].
  intros a g' [-> ->].
  set (st' := <[0%nat := v from]> (<[Z.to_nat (g_stackHeight g - p) := v top]> st)).
  assert (exec (m_generatedItems g ++ [opItem i loc]) st0 w0 = Next st' w) as Hx.
  { rewrite exec_app, (pl_exec _ _ _ _ Hp). cbn [exec]. by rewrite Hexec. }
  set (m' := <[p := top]> (<[g_stackHeight g := from]> (m_stack g))).
  assert (stack_ok st0 (set_stack (g_stackHeight g) m' emptyState) cl v st') as Hs'.
  { destruct (placed_value _ _ _ _ _ _ Hp Htop) as (_ & Hit & Hvt).
    destruct (placed_value _ _ _ _ _ _ Hp Hfrom) as (_ & Hif & Hvf).
    replace (Z.to_nat (g_stackHeight g - g_stackHeight g)) with 0%nat in Hvt by lia.
    pose proof (stack_ok_swap st0 (as_state g) cl v st (Z.to_nat (g_stackHeight g - p)) top from (v top) (v from)
      (pl_stack _ _ _ _ Hp) Hit Hif eq_refl eq_refl ltac:(lia) Hvt Hvf) as Hs. cbn zeta in Hs.
    cbn [m_stackHeight as_state set_stack m_stackElements] in Hs.
    replace (g_stackHeight g - Z.of_nat (Z.to_nat (g_stackHeight g - p))) with p in Hs by lia. exact Hs. }
  assert (forall h, is_Some (m_stack g !! h) <-> is_Some (m' !! h)) as Hdom.
  { intros h. unfold m'. destruct (decide (p = h)) as [<-|Hph].
    { rewrite lookup_insert_eq, Hfrom. by split; eexists. }
    rewrite lookup_insert_ne by done. destruct (decide (g_stackHeight g = h)) as [<-|Hhh].
    { rewrite lookup_insert_eq, Htop. by split; eexists. }
    by rewrite lookup_insert_ne. }
  assert (forall P, tracks P m' -> same_keys (m_classPositions g) P ->
    placed level (set_generated (removeSwaps (m_generatedItems g1)) (g_stackHeight g1) (set_gstack m' (set_positions P g1))) st' w)
    as Hplaced.
  { intros P HP Hk. destruct Hp as [_ _ Hf Ht Htg Hfin Hlv' Hd]. split; cbn; try done.
    - by apply removeSwaps_exec.
    - intros h. rewrite <- Hdom. apply Hf.
    - intros q Hq. unfold m'. rewrite !lookup_insert_ne by lia. by apply Hd. }
  assert (forall P, tracks P m' -> same_keys (m_classPositions g) P ->
    yields (gmodify (fun g => set_generated (removeSwaps (m_generatedItems g)) (g_stackHeight g) g))
      (set_gstack m' (set_positions P g1)) (fun _ g' => exists st' top0 from0, placed level g' st' w /\
    g_stackHeight g' = g_stackHeight g /\ same_keys (m_classPositions g) (m_classPositions g') /\
    m_stack g !! g_stackHeight g = Some top0 /\ m_stack g !! p = Some from0 /\
    m_stack g' = <[p := top0]> (<[g_stackHeight g := from0]> (m_stack g)) /\
    (p < g_stackHeight g -> exists i, swapInstruction (g_stackHeight g - p) = Some i /\
       m_generatedItems g' = removeSwaps (m_generatedItems g ++ [opItem i loc])))) as Hend.
  { intros P HP Hk. split; [done|]. exists st', top, from. split; [by apply Hplaced|]. split; [done|]. split; [done|].
    split; [done|]. split; [done|]. split; [done|]. intros _. by exists i. }
  destruct (Z.eqb_spec top from) as [->|Hdiff].
  - apply (yields_bind _ _ _ (fun _ g' => g' = g1)); [by apply yields_ret|]. intros _ g' ->.
    assert (m' = m_stack g) as Hm' by (unfold m'; rewrite (insert_id (m_stack g)), insert_id; done).
    specialize (Hend (m_classPositions g)). rewrite Hm' in Hend at 2.
    assert (set_gstack (m_stack g) (set_positions (m_classPositions g) g1) = g1) as Heq by done.
    rewrite Heq in Hend. apply Hend; [rewrite Hm'; apply Hp|apply same_keys_refl].
  - destruct (tracks_swap _ _ top from (g_stackHeight g) p (pl_tracks _ _ _ _ Hp) ltac:(lia) Hdiff Htop Hfrom) as [HP Hk].
    match type of HP with tracks ?P _ => apply (yields_bind _ _ _ (fun _ g' => g' = set_gstack m' (set_positions P g1))) end.
    + unfold erasePosition, insertPosition. do 4 apply yields_modify. by split.
    + intros _ g' ->. exact (Hend _ HP Hk).
Qed.

(** The top removed, where possible. *)
Lemma removeStackTopIfPossible_yields level g st w :
  placed level g st w ->
  yields removeStackTopIfPossible g (fun b g' => exists st', placed level g' st' w /\
    same_keys (m_classPositions g) (m_classPositions g') /\
    (b = true -> (size (m_stack g') < size (m_stack g))%nat)).
Proof using lo_start.
  intros Hp. unfold removeStackTopIfPossible. apply yields_get. case_bool_decide as Hemp.
  { apply yields_ret. exists st. by split. }
  apply yields_get, yields_get. destruct (m_stack g !! g_stackHeight g) as [top|] eqn:Htop; [|done].
  apply (yields_bind _ _ _ (fun b g' => g' = g /\ (b = true -> tgt !! g_stackHeight g <> Some top))).
  { eapply canBeRemoved_yields; [exact Hp|]. intros p b -> Hb. by split. }
  intros b g' [-> Hb]. destruct b; [|apply yields_ret; exists st; by split]. specialize (Hb eq_refl).
  pose proof (placed_above _ _ _ _ _ _ Hp Htop Hb) as Hlv.
  unfold erasePosition. do 2 apply yields_modify. unfold appendItem. apply yields_modify, yields_ret.
  destruct (placed_value _ _ _ _ _ _ Hp Htop) as (_ & _ & Hv). rewrite Z.sub_diag in Hv. destruct st as [|x st]; [discriminate Hv|].
  exists st. pose proof (tracks_key _ _ _ _ (pl_tracks _ _ _ _ Hp) Htop) as Hkey.
  split; [|split; [by apply same_keys_insert|intros _; cbn]].
  2: { rewrite map_size_delete, Htop. destruct (size (m_stack g)) eqn:E; [|lia].
    apply map_size_empty_inv in E. rewrite E in Htop. discriminate Htop. }
  destruct Hp as [Hx Hs Hf Ht Htg Hfin Hlv' Hd].
  assert (to_int (deposit (opItem POP noLocation)) = -1) as Hdep by reflexivity.
  split; cbn; rewrite ?Hdep; [| | | |exact Htg|exact Hfin| |].
  - rewrite exec_app, Hx. reflexivity.
  - by apply (stack_ok_pop st0 (as_state g) cl v x).
  - intros h. destruct (decide (g_stackHeight g = h)) as [<-|Hne].
    + rewrite lookup_delete_eq. split; [lia|by intros [? ?]].
    + rewrite lookup_delete_ne by done. rewrite <- Hf. lia.
  - by apply tracks_pop.
  - lia.
  - intros q Hq. rewrite lookup_delete_ne by lia. by apply Hd.
Qed.
End Stack.
