(* ===== verification/CSEGenerate.v ===== *)
(** * CSEGenerate: the code generated for a class

    The item of a class, run on its arguments, leaves the value of the class: a pure
    instruction always, a load or a hash in a world in which what it reads is what the class
    stands for.  [CSECodeGenerator::generateClassElement] returns or throws, and the code it
    appends leaves the class on the stack. *)

From S2P Require Import Prelude U256 CommonData Instruction AssemblyItem SemanticInformation Interpreter Pattern RuleList SimplificationRules ExpressionClasses KnownState CommonSubexpressionEliminator Machine RuleSound StateWorld StoreOrder MatchSound ClassSound WordClasses RuleWeight ClassShape ClassQueries KnownSound KnownFeed KnownBlock CSEDependencies CSEStack.

#[local] Opaque ruleSet Rules readWord readBytes writeWord toBigEndian fromBigEndian.

Lemma environment_spec i : environment i = true ->
  isStackInstruction i = false /\ readsState i = false /\ ret (instructionInfo i) = 1%nat.
Proof.
  unfold environment. intros Hi. repeat (apply andb_true_iff in Hi as [Hi ?]). bool_to_prop.
  repeat split; try done. by apply Nat.eqb_eq.
Qed.

(** Running an instruction that goes on. *)
Lemma exec_goes_on {W H} `{!World W H} it l st w r w' :
  m_type it = Operation -> isStackInstruction (m_instruction it) = false ->
  length l = args (instructionInfo (m_instruction it)) -> take (length l) st = l ->
  perform (m_instruction it) l w = inl (r, w') -> exec_item it st w = Next (r ++ drop (length l) st) w'.
Proof.
  intros Ht Hi Hn Hl Hp. unfold exec_item. rewrite Ht, exec_perform by done. rewrite <- Hn.
  destruct (Nat.ltb_spec (length st) (length l)) as [Hlt|_].
  - apply (f_equal length) in Hl. rewrite length_take in Hl. lia.
  - by rewrite Hl, Hp.
Qed.

Section Generate.
Context {W H : Type} `{!World W H} `{!WorldLaws W H} `{!StateWorld W} {keccak256 : list Z -> Z}
  `{!StateLaws W H keccak256}.
Context (w0 : W) (st0 : list Z) (ω : Z -> W).

Local Abbreviation bop := (blockOp w0).
Local Abbreviation bseq := (blockSeqop w0 ω).
Local Abbreviation bpush := (blockPushed st0).
Local Abbreviation Sem := (wordSemantics bop bseq bpush).
Local Abbreviation known := (known bop bseq bpush).

(** What a load or a hash reads. *)
Definition reads (w : W) (i : Instruction) (l : list Z) : Z :=
  match i, l with
  | SLOAD, [k] => sto w k
  | MLOAD, [a] => readWord (mem w) a
  | _, _ => value i l w
  end.

Lemma is_load_cases it : is_load it = true ->
  m_type it = Operation /\ (m_instruction it = SLOAD \/ m_instruction it = MLOAD \/ m_instruction it = KECCAK256).
Proof using. unfold is_load. rewrite !orb_true_iff, !is_op_spec. tauto. Qed.

(** The value of a class that is a load is what the world at its sequence number holds. *)
Lemma load_value it s l : is_load it = true -> length l = args (instructionInfo (m_instruction it)) ->
  item_value Sem it s l = reads (ω s) (m_instruction it) l.
Proof using.
  intros Hl Hn. apply is_load_cases in Hl as [Ht Hi]. unfold item_value. rewrite Ht. cbn [sem_seqop wordSemantics].
  destruct Hi as [Hi|[Hi|Hi]]; rewrite Hi in *; cbv in Hn; by destruct l as [|a [|n [|]]].
Qed.

Lemma exec_load it l st w x :
  is_load it = true -> length l = args (instructionInfo (m_instruction it)) -> Forall is_u256 l ->
  take (length l) st = l -> good w -> reads w (m_instruction it) l = x ->
  exists w', exec_item it st w = Next (x :: drop (length l) st) w' /\ good w' /\ same w w'.
Proof using WorldLaws0 StateLaws0.
  clear ω. intros Hl Hn Hw Hst Hg <-. apply is_load_cases in Hl as [Ht Hi].
  assert (exists x w', perform (m_instruction it) l w = inl ([x], w') /\ good w' /\ same w w' /\
    reads w (m_instruction it) l = x) as (x & w' & Hp & Hg' & Hs & ->).
  { destruct Hi as [Hi|[Hi|Hi]]; rewrite Hi in *; cbv in Hn; destruct l as [|a [|n [|]]]; try discriminate Hn;
      apply Forall_cons in Hw as [Ha Hw]; try (apply Forall_cons in Hw as [Hn' _]).
    - exists (sto w a), w. by rewrite law_sload.
    - destruct (law_goes_on MLOAD [a] w Hg) as (r & w' & Hp); [simpl; tauto|done|by apply Forall_cons_2|].
      destruct (law_mload a w r w' Hg Ha Hp) as (-> & H1 & H2). by exists (readWord (mem w) a), w'.
    - destruct (law_goes_on KECCAK256 [a; n] w Hg) as (r & w' & Hp); [simpl; tauto|done|by repeat (apply Forall_cons_2; [done|])|].
      destruct (law_keccak a n w r w' Hg Ha Hn' Hp) as (H1 & H2 & _).
      destruct (perform_result _ _ _ _ _ Hp) as [Hr _]; [by repeat (apply Forall_cons_2; [done|])|]. destruct r as [|x [|]]; try discriminate Hr.
      exists x, w'. repeat (split; [done|]). cbn [reads]. unfold value. by rewrite Hp. }
  exists w'. split; [|done]. apply (exec_goes_on it l st w [x] w'); try done.
  destruct Hi as [Hi|[Hi|Hi]]; by rewrite Hi.
Qed.

(** Pushes and pure instructions. *)
Lemma exec_pure it s l l' st w :
  asked it s l -> m_type it <> UndefinedItem -> is_sequenced it = false -> (length l <= 2)%nat ->
  (m_type it = Operation -> length l' = args (instructionInfo (m_instruction it))) -> length l' = length l ->
  Forall is_u256 l' -> take (length l') st = l' -> good w -> same_environment w0 w ->
  exec_item it st w = Next (item_value Sem it s l' :: drop (length l') st) w.
Proof using WorldLaws0.
  intros Ha Hu Hsq Hle Hn Hlen Hw Hst Hg Hen. destruct (decide (m_type it = Operation)) as [Ht|Ht].
  - unfold is_sequenced in Hsq. rewrite bool_decide_eq_true_2 in Hsq by done. cbn [andb] in Hsq.
    unfold asked in Ha. rewrite Ht, Hsq in Ha. destruct Ha as [-> Hp].
    assert (environment (m_instruction it) = true) as Henv.
    { unfold plain in Hp. apply orb_true_iff in Hp as [Hp|Hp]; [done|]. apply Nat.ltb_lt in Hp.
      specialize (Hn Ht). lia. }
    destruct (environment_spec _ Henv) as (Hstk & Hrd & _).
    apply (exec_goes_on it l' st w [_] w); try done; [by apply Hn|].
    unfold item_value. rewrite Ht. cbn [sem_seqop wordSemantics]. rewrite blockSeqop_pure by done.
    by apply environment_value; [done|done|done|apply Hn|done].
  - assert (l = []) as -> by (unfold asked in Ha; destruct (m_type it); done || apply Ha).
    destruct l'; [|discriminate Hlen]. unfold exec_item, item_value, push_value. cbn [drop length].
    unfold asked in Ha. by destruct (m_type it).
Qed.

(** ** Arguments *)

Context (cl : ExpressionClasses) (v : Z -> Z) (lo : Z) (tgt : gmap Z Z) (lo_start : lo <= 1).

Local Abbreviation placed := (placed w0 st0 cl v lo tgt).
Local Abbreviation yields := (yields cl).

(** The stack has changed, but no class was generated. *)
Definition rearranged (level : Z) (w : W) (g g' : CSECodeGenerator) : Prop :=
  exists st', placed level g' st' w /\ same_keys (m_classPositions g) (m_classPositions g').

Lemma rearranged_trans level w g1 g2 g3 :
  rearranged level w g1 g2 -> rearranged level w g2 g3 -> rearranged level w g1 g3.
Proof using.
  intros (st1 & _ & K1) (st2 & P2 & K2). exists st2. split; [done|]. by eapply same_keys_trans.
Qed.

Lemma dupOf_yields level g st w c loc :
  placed level g st w ->
  yields (gbind (classElementPosition c) (fun p => appendDup p loc)) g (fun _ g' =>
    rearranged level w g g' /\ g_stackHeight g' = g_stackHeight g + 1).
Proof using lo_start.
  intros Hp. eapply yields_bind; [by apply (classElementPosition_yields _ g c (fun p g' => g' = g /\ position_of g c = Some p))|].
  intros p g' [-> Hpos]. pose proof (position_of_placed _ _ _ _ _ _ _ _ _ _ _ _ Hp Hpos) as Hc.
  eapply yields_last; [by eapply (appendDup_yields w0 st0 cl v lo tgt lo_start)|].
  intros _ g' (Hp' & Hh & Hk & _). split; [|done]. eexists. by split.
Qed.

Lemma dupTop_yields level g st w loc :
  placed level g st w -> lo <= g_stackHeight g ->
  yields (gbind (gget g_stackHeight) (fun height => appendDup height loc)) g (fun _ g' =>
    rearranged level w g g' /\ g_stackHeight g' = g_stackHeight g + 1).
Proof using lo_start.
  intros Hp Hlo. apply yields_get. destruct (placed_lookup _ _ _ _ _ _ _ _ _ _ (g_stackHeight g) Hp) as [c Hc]; [lia|].
  eapply yields_last; [by eapply (appendDup_yields w0 st0 cl v lo tgt lo_start)|].
  intros _ g' (Hp' & Hh & Hk & _). split; [|done]. eexists. by split.
Qed.

Lemma swapTo_yields level g st w c p loc :
  placed level g st w -> position_of g c = Some p -> level <= p ->
  yields (gbind (classElementPosition c) (fun p => appendOrRemoveSwap p loc)) g (fun _ g' =>
    rearranged level w g g' /\ g_stackHeight g' = g_stackHeight g /\ level <= g_stackHeight g /\
    m_stack g' !! g_stackHeight g = Some c).
Proof using lo_start.
  intros Hp Hpos Hlv. eapply yields_bind; [by apply (classElementPosition_yields _ g c (fun p g' => g' = g /\ position_of g c = Some p))|].
  intros p' g' [-> Hpos']. assert (p' = p) as -> by congruence.
  pose proof (position_of_placed _ _ _ _ _ _ _ _ _ _ _ _ Hp Hpos) as Hc.
  destruct (placed_value _ _ _ _ _ _ _ _ _ _ _ _ Hp Hc) as (Hr & _).
  eapply yields_last; [apply (appendOrRemoveSwap_yields w0 st0 cl v lo tgt lo_start level g st w p loc Hp); lia|].
  intros _ g' (st' & top & from & Hp' & Hh & Hk & Ht & Hf & Hm & _).
  split; [exists st'; by split|]. split; [done|]. split; [lia|]. rewrite Hm.
  destruct (decide (p = g_stackHeight g)) as [->|Hne].
  - rewrite lookup_insert_eq. congruence.
  - rewrite lookup_insert_ne, lookup_insert_eq by done. congruence.
Qed.

(** The two top elements exchanged. *)
Lemma swapBelow_yields level g st w loc :
  placed level g st w -> level <= g_stackHeight g - 1 ->
  yields (gbind (gget g_stackHeight) (fun height => appendOrRemoveSwap (height - 1) loc)) g (fun _ g' =>
    rearranged level w g g' /\ g_stackHeight g' = g_stackHeight g /\
    m_stack g' !! g_stackHeight g = m_stack g !! (g_stackHeight g - 1) /\
    m_stack g' !! (g_stackHeight g - 1) = m_stack g !! g_stackHeight g /\
    (forall p, p <> g_stackHeight g -> p <> g_stackHeight g - 1 -> m_stack g' !! p = m_stack g !! p) /\
    m_generatedItems g' = removeSwaps (m_generatedItems g ++ [opItem SWAP1 loc])).
Proof using lo_start.
  intros Hp Hlv. apply yields_get.
  eapply yields_last; [apply (appendOrRemoveSwap_yields w0 st0 cl v lo tgt lo_start level g st w _ loc Hp); lia|].
  intros _ g' (st' & top & from & Hp' & Hh & Hk & Ht & Hf & Hm & Hitems).
  split; [exists st'; by split|]. split; [done|]. rewrite Hm.
  split; [rewrite lookup_insert_ne, lookup_insert_eq by lia; congruence|].
  split; [rewrite lookup_insert_eq; congruence|]. split; [intros p H1 H2; by rewrite !lookup_insert_ne by done|].
  destruct Hitems as (i & Hi & ->); [lia|]. replace (g_stackHeight g - (g_stackHeight g - 1)) with 1 in Hi by lia.
  by vm_compute in Hi; injection Hi as <-.
Qed.

Lemma canBeRemoved_above level g st w c res :
  placed level g st w ->
  yields (canBeRemoved c res None) g (fun b g' => g' = g /\ exists p, position_of g c = Some p /\
    m_stack g !! p = Some c /\ (b = true -> level <= p <= g_stackHeight g)).
Proof using.
  intros Hp. eapply canBeRemoved_yields; [exact Hp|]. intros p b Hpos Hb. split; [done|]. exists p. split; [done|].
  pose proof (position_of_placed _ _ _ _ _ _ _ _ _ _ _ _ Hp Hpos) as Hc. split; [done|]. intros ->.
  by apply (placed_above _ _ _ _ _ _ _ _ _ _ _ _ Hp Hc), Hb.
Qed.

(** A class at a position that may be used is not below the level. *)
Lemma position_above level g st w c q :
  placed level g st w -> m_stack g !! q = Some c -> level <= q ->
  exists p, position_of g c = Some p /\ level <= p.
Proof using.
  intros Hp Hc Hq. apply (pl_tracks _ _ _ _ _ _ _ _ _ _ Hp) in Hc. unfold position_of, pos_set in *.
  destruct (m_classPositions g !! c) as [s|]; [|by apply not_elem_of_empty in Hc]. cbn in Hc |- *.
  destruct (max_position_is_Some s q Hc) as [p Hmax]. exists p. split; [done|].
  destruct (max_position_spec s p Hmax) as [_ Hall]. specialize (Hall q Hc). lia.
Qed.

(** The arguments are brought to the top, where they may be taken. *)
Lemma arrangeArguments_yields level g st w c l loc :
  placed level g st w ->
  yields (arrangeArguments c l loc) g (fun _ g' => rearranged level w g g' /\ (length l <= 2)%nat /\
    level + Z.of_nat (length l) <= g_stackHeight g' + 1).
Proof using lo_start.
  intros Hp. pose proof (pl_level _ _ _ _ _ _ _ _ _ _ Hp) as Hlv.
  destruct l as [|a [|b [|]]]; unfold arrangeArguments; [| | |done].
  - apply yields_ret. split; [exists st; by split|]. cbn. lia.
  - eapply yields_bind; [by eapply canBeRemoved_above|]. intros can g' [-> (p & Hpos & Hc & Hcan)]. destruct can.
    + specialize (Hcan eq_refl). eapply yields_last; [apply (swapTo_yields level g st w a p); [done|done|lia]|].
      intros _ g' (Hr & Hh & Hlh & _). split; [done|]. cbn. lia.
    + eapply yields_last; [by eapply dupOf_yields|]. intros _ g' (Hr & Hh). split; [done|]. cbn. lia.
  - eapply yields_bind; [by eapply canBeRemoved_above|]. intros canB g' [-> (pb & Hposb & Hcb & HcanB)]. destruct canB.
    + specialize (HcanB eq_refl). eapply yields_bind; [apply (swapTo_yields level g st w b pb); [done|done|lia]|].
      intros _ g1 (Hr1 & Hh1 & Hl1 & Ht1). pose proof Hr1 as (st1 & Hp1 & Hk1).
      destruct (Z.eqb_spec a b) as [->|Hab].
      * eapply yields_last; [eapply dupTop_yields; [exact Hp1|lia]|]. intros _ g2 (Hr2 & Hh2).
        split; [by eapply rearranged_trans|]. cbn. lia.
      * eapply yields_bind; [by eapply canBeRemoved_above|]. intros canA g' [-> (pa & Hposa & Hca & HcanA)]. destruct canA.
        -- specialize (HcanA eq_refl). assert (pa <> g_stackHeight g1) as Hne by (intros ->; rewrite Hh1 in Hca; congruence).
           eapply yields_bind; [eapply swapBelow_yields; [exact Hp1|lia]|].
           intros _ g2 (Hr2 & Hh2 & Htop & Hbelow & Hrest & _). pose proof Hr2 as (st2 & Hp2 & Hk2).
           assert (exists q, m_stack g2 !! q = Some a /\ level <= q) as (q & Hq & Hlq).
           { destruct (decide (pa = g_stackHeight g1 - 1)) as [->|Hne2].
             - exists (g_stackHeight g1). split; [by rewrite Htop|lia].
             - exists pa. split; [by rewrite Hrest|lia]. }
           destruct (position_above level g2 st2 w a q Hp2 Hq Hlq) as (p2 & Hpos2 & Hlp2).
           eapply yields_last; [by apply (swapTo_yields level g2 st2 w a p2)|]. intros _ g3 (Hr3 & Hh3 & _).
           split; [eapply rearranged_trans; [exact Hr1|]; by eapply rearranged_trans|]. cbn. lia.
        -- eapply yields_last; [by eapply dupOf_yields|]. intros _ g2 (Hr2 & Hh2).
           split; [by eapply rearranged_trans|]. cbn. lia.
    + destruct (Z.eqb_spec a b) as [->|Hab].
      * eapply yields_bind; [by eapply dupOf_yields|]. intros _ g1 (Hr1 & Hh1). pose proof Hr1 as (st1 & Hp1 & Hk1).
        eapply yields_last; [eapply dupTop_yields; [exact Hp1|lia]|]. intros _ g2 (Hr2 & Hh2).
        split; [by eapply rearranged_trans|]. cbn. lia.
      * eapply yields_bind; [by eapply canBeRemoved_above|]. intros canA g' [-> (pa & Hposa & Hca & HcanA)]. destruct canA.
        -- specialize (HcanA eq_refl). eapply yields_bind; [apply (swapTo_yields level g st w a pa); [done|done|lia]|].
           intros _ g1 (Hr1 & Hh1 & Hl1 & _). pose proof Hr1 as (st1 & Hp1 & Hk1).
           eapply yields_bind; [by eapply dupOf_yields|]. intros _ g2 (Hr2 & Hh2). pose proof Hr2 as (st2 & Hp2 & Hk2).
           eapply yields_last; [eapply swapBelow_yields; [exact Hp2|lia]|]. intros _ g3 (Hr3 & Hh3 & _).
           split; [eapply rearranged_trans; [exact Hr1|]; by eapply rearranged_trans|]. cbn. lia.
        -- eapply yields_bind; [by eapply dupOf_yields|]. intros _ g1 (Hr1 & Hh1). pose proof Hr1 as (st1 & Hp1 & Hk1).
           eapply yields_last; [by eapply dupOf_yields|]. intros _ g2 (Hr2 & Hh2).
           split; [by eapply rearranged_trans|]. cbn. lia.
Qed.

Lemma checkArguments_yields level g st w l : forall i,
  placed level g st w -> 0 <= i -> lo + i + Z.of_nat (length l) <= g_stackHeight g + 1 ->
  yields (checkArguments i l) g (fun _ g' => g' = g /\
    forall j a, l !! j = Some a -> m_stack g !! (g_stackHeight g - i - Z.of_nat j) = Some a).
Proof using.
  induction l as [|a l IH]; intros i Hp Hi Hlen; cbn [checkArguments length] in *.
  { apply yields_ret. by split. }
  apply yields_get. destruct (placed_lookup _ _ _ _ _ _ _ _ _ _ (g_stackHeight g - i) Hp) as [c Hc]; [lia|].
  eapply yields_bind; [by apply (stack_at_yields cl g (g_stackHeight g - i) c (fun x g' => x = c /\ g' = g))|].
  intros x g' [-> ->]. apply yields_assert. intros He. apply Z.eqb_eq in He as ->.
  eapply yields_last; [apply (IH (i + 1) Hp); lia|]. intros _ g' (-> & Hall). split; [done|].
  intros [|j] b Hb; [injection Hb as <-; by rewrite Z.sub_0_r|]. rewrite <- (Hall j b Hb). f_equal. lia.
Qed.

(** The values on top of the stack are those of the classes there. *)
Lemma take_top level g st w l :
  placed level g st w -> (forall j a, l !! j = Some a -> m_stack g !! (g_stackHeight g - Z.of_nat j) = Some a) ->
  take (length l) st = map v l.
Proof using.
  intros Hp Hl. apply list_eq. intros j. rewrite list_lookup_fmap. destruct (decide (j < length l)%nat) as [Hj|Hj].
  - destruct (lookup_lt_is_Some_2 l j Hj) as [a Ha]. rewrite lookup_take_lt, Ha by done. cbn.
    destruct (placed_value _ _ _ _ _ _ _ _ _ _ _ _ Hp (Hl j a Ha)) as (_ & _ & <-). f_equal. lia.
  - rewrite lookup_take_ge by lia. symmetry. apply fmap_None, lookup_ge_None. lia.
Qed.

Lemma removeSwaps_swap items b s :
  item_eqb b (opItem SWAP1 noLocation) = true -> removeSwaps ((items ++ [b]) ++ [opItem SWAP1 s]) = items.
Proof using.
  intros Hb. unfold removeSwaps. rewrite !reverse_snoc.
  assert (item_isSwap (opItem SWAP1 s) && item_eqb b (opItem SWAP1 s) = true) as ->; [|by rewrite reverse_involutive].
  apply andb_true_iff. split; [done|]. rewrite item_eqb_spec in *. done.
Qed.

(** The swaps removed before a commutative operation exchange its arguments. *)
Lemma removeArgumentSwaps_yields n it a b : forall level g st w,
  placed level g st w -> (length (m_generatedItems g) < n)%nat ->
  (isCommutativeOperation it = true -> level + 2 <= g_stackHeight g + 1 /\
    m_stack g !! g_stackHeight g = Some a /\ m_stack g !! (g_stackHeight g - 1) = Some b) ->
  yields (removeArgumentSwaps n it) g (fun _ g' => exists st', placed level g' st' w /\
    same_keys (m_classPositions g) (m_classPositions g') /\ g_stackHeight g' = g_stackHeight g /\
    (if isCommutativeOperation it then
       (m_stack g' !! g_stackHeight g = Some a /\ m_stack g' !! (g_stackHeight g - 1) = Some b) \/
       (m_stack g' !! g_stackHeight g = Some b /\ m_stack g' !! (g_stackHeight g - 1) = Some a)
     else g' = g)).
Proof using lo_start.
  revert a b. induction n as [|n IH]; intros a b level g st w Hp Hn Hc; [lia|]. cbn [removeArgumentSwaps].
  apply yields_get. destruct (isCommutativeOperation it) eqn:Hcom; cbn [andb].
  2: { apply yields_ret. exists st. by split. }
  destruct (Hc eq_refl) as (Hlv & Ha & Hb).
  destruct (last (m_generatedItems g)) as [sw|] eqn:Hlast.
  2: { apply yields_ret. exists st. split; [done|]. split; [done|]. split; [done|]. by left. }
  destruct (item_eqb sw (opItem SWAP1 noLocation)) eqn:Hsw.
  2: { apply yields_ret. exists st. split; [done|]. split; [done|]. split; [done|]. by left. }
  apply yields_get. eapply yields_bind; [exact (swapBelow_yields level g st w (m_location it) Hp ltac:(lia))|].
  intros _ g1 ((st1 & Hp1 & Hk1) & Hh1 & Htop & Hbelow & _ & Hitems).
  apply last_Some in Hlast as [items Hl]. rewrite Hl, removeSwaps_swap in Hitems by done.
  eapply yields_last; [apply (IH b a level g1 st1 w Hp1)|].
  - rewrite Hitems. rewrite Hl, length_app in Hn. cbn in Hn. lia.
  - intros _. rewrite Hh1, Htop, Hbelow. split; [lia|]. by split.
  - rewrite Hh1. intros _ g2 (st2 & Hp2 & Hk2 & Hh2 & Htops). exists st2. split; [done|].
    split; [by eapply same_keys_trans|]. split; [done|]. destruct Htops; [by right|by left].
Qed.

(** The arguments are taken off. *)
Lemma eraseArguments_yields l : forall i g st,
  tracks (m_classPositions g) (m_stack g) ->
  (forall j, (j < length l)%nat -> is_Some (m_stack g !! (g_stackHeight g - i - Z.of_nat j))) ->
  stack_ok st0 (set_stack (g_stackHeight g - i) (m_stack g) emptyState) cl v st -> (length l <= length st)%nat ->
  yields (eraseArguments i l) g (fun _ g' =>
    m_generatedItems g' = m_generatedItems g /\ g_stackHeight g' = g_stackHeight g /\
    m_targetStack g' = m_targetStack g /\ m_finalClasses g' = m_finalClasses g /\
    same_keys (m_classPositions g) (m_classPositions g') /\ tracks (m_classPositions g') (m_stack g') /\
    stack_ok st0 (set_stack (g_stackHeight g - i - Z.of_nat (length l)) (m_stack g') emptyState) cl v (drop (length l) st) /\
    forall p, m_stack g' !! p =
      if decide (g_stackHeight g - i - Z.of_nat (length l) < p <= g_stackHeight g - i) then None else m_stack g !! p).
Proof using.
  induction l as [|a l IH]; intros i g st Ht Hdom Hs Hlen; cbn [eraseArguments length] in *.
  { apply yields_ret. repeat (split; [done|]). rewrite Z.sub_0_r. split; [done|].
    intros p. rewrite decide_False by lia. done. }
  apply yields_get. destruct (Hdom 0%nat ltac:(lia)) as [c Hc]. rewrite Z.sub_0_r in Hc.
  eapply yields_bind; [by apply (stack_at_yields cl g (g_stackHeight g - i) c (fun x g' => x = c /\ g' = g))|].
  intros x g' [-> ->]. unfold erasePosition. do 2 apply yields_modify. destruct st as [|y st]; [cbn in Hlen; lia|].
  set (g1 := set_gstack _ _).
  assert (g_stackHeight g1 - (i + 1) = g_stackHeight g - i - 1) as Hh by (cbn; lia).
  eapply yields_last; [apply (IH (i + 1) g1 st)|].
  - cbn. by apply tracks_pop.
  - intros j Hj. cbn. rewrite lookup_delete_ne by lia.
    replace (g_stackHeight g - (i + 1) - Z.of_nat j) with (g_stackHeight g - i - Z.of_nat (S j)) by lia. apply Hdom. lia.
  - rewrite Hh. exact (stack_ok_pop st0 _ cl v y st Hs).
  - cbn in Hlen. lia.
  - rewrite Hh. intros _ g2 (H1 & H2 & H3 & H4 & H5 & H6 & H7 & H8). repeat (split; [done|]).
    split. { eapply same_keys_trans; [|exact H5]. cbn. apply same_keys_insert. by eapply tracks_key. }
    split; [done|]. split; [by replace (g_stackHeight g - i - Z.of_nat (S (length l))) with (g_stackHeight g - i - 1 - Z.of_nat (length l)) by lia|].
    intros p. rewrite H8. cbn [m_stack g1 set_gstack]. destruct (decide (p = g_stackHeight g - i)) as [->|Hne].
    + rewrite decide_False by lia. rewrite decide_True by lia. apply lookup_delete_eq.
    + destruct (decide (g_stackHeight g - i - 1 - Z.of_nat (length l) < p <= g_stackHeight g - i - 1)).
      * by rewrite decide_True by lia.
      * rewrite decide_False by lia. by rewrite lookup_delete_ne.
Qed.

(** ** The world generated so far *)

Context (good0 : good w0) (goodω : forall s, good (ω s)) (words0 : Forall is_u256 st0).
Context (ops : list Store).

(** The stores generated are those whose classes have an entry among the positions. *)
Definition is_generated (P : gmap Z (gset Z)) (o : Store) : Prop := is_Some (P !! expression (fst o)).
#[local] Instance is_generated_dec P o : Decision (is_generated P o).
Proof. unfold is_generated. apply _. Defined.

Record generated_world (P : gmap Z (gset Z)) (w : W) : Prop := {
  gw_good : good w;
  gw_env : same_environment w0 w;
  gw_cells : cells_eq (cells w) (apply_stores v (filter (is_generated P) ops) (cells w0)) }.

Lemma generated_world_iff P P' w :
  (forall o, In o ops -> is_generated P o <-> is_generated P' o) -> generated_world P w -> generated_world P' w.
Proof using.
  intros Hk [Hg He Hc]. split; [done|done|]. rewrite Hc.
  assert (filter (is_generated P) ops = filter (is_generated P') ops) as ->; [|done].
  by apply filter_ext_In.
Qed.

Lemma generated_world_keys P P' w : same_keys P P' -> generated_world P w -> generated_world P' w.
Proof using. intros Hk. apply generated_world_iff. intros o _. apply Hk. Qed.

Lemma generated_world_same P w w' : same w w' -> good w' -> generated_world P w -> generated_world P w'.
Proof using.
  intros Hs Hg' [Hg He Hc]. split; [done|by rewrite He; apply Hs|]. rewrite <- Hc. symmetry. by apply same_cells.
Qed.

(** What has to hold when a class is generated: a load or a hash reads what it stands for, and
    a store comes after the stores generated before. *)
Definition may_generate (P : gmap Z (gset Z)) (c : Z) (e : Expression) (it : AssemblyItem) : Prop :=
  (is_load it = true -> forall w, generated_world P w -> reads w (m_instruction it) (map v (e_arguments e)) = v c) /\
  (if is_store it then
     exists o x, In (o, x) ops /\ expression o = c /\ e_arguments e = [slot o; x] /\ target o <> Invalid /\
       m_instruction it = store_instruction (target o) /\
       filter (fun o' => is_generated P o' \/ expression (fst o') = c) ops = filter (is_generated P) ops ++ [(o, x)]
   else forall o, In o ops -> expression (fst o) <> c).

Lemma generated_world_add P P' c e it w :
  (forall k, is_Some (P' !! k) <-> is_Some (P !! k) \/ k = c) -> is_store it = false -> may_generate P c e it ->
  generated_world P w -> generated_world P' w.
Proof using.
  intros Hk Hs [_ Hm]. rewrite Hs in Hm. apply generated_world_iff. intros o Ho. unfold is_generated. rewrite Hk.
  split; [by left|]. intros [?|E]; [done|]. by destruct (Hm o Ho).
Qed.

Lemma exec_store it l st P P' c e w :
  m_type it = Operation -> is_store it = true -> may_generate P c e it -> generated_world P w ->
  (forall k, is_Some (P' !! k) <-> is_Some (P !! k) \/ k = c) ->
  l = map v (e_arguments e) -> Forall is_u256 l -> take (length l) st = l ->
  exists w', exec_item it st w = Next (drop (length l) st) w' /\ generated_world P' w'.
Proof using WorldLaws0 StateLaws0.
  clear words0 goodω good0 lo_start tgt lo ω. intros Ht Hs [_ Hm] [Hg He Hc] Hk Hl Hw Hst. rewrite Hs in Hm.
  destruct Hm as (o & x & Hin & Ho & Hargs & Htgt & Hi & Hfilter). rewrite Hargs in Hl. cbn in Hl.
  assert (exists w', perform (m_instruction it) l w = inl ([], w') /\ good w' /\ same_environment w w' /\
    cells_eq (cells w') (apply_store v (o, x) (cells w))) as (w' & Hp & Hg' & He' & Hc').
  { subst l. apply Forall_cons in Hw as [Hw1 Hw]. apply Forall_cons in Hw as [Hw2 _]. rewrite Hi.
    assert (Forall is_u256 [v (slot o); v x]) as Hws by by repeat (apply Forall_cons_2; [done|]).
    destruct (target o) eqn:E; [done| |]; cbn [store_instruction].
    - destruct (law_goes_on MSTORE [v (slot o); v x] w Hg) as (r & w' & Hp); [simpl; tauto|done|done|].
      destruct (law_mstore _ _ w r w' Hg Hw1 Hw2 Hp) as (H1 & H2 & H3 & H4).
      destruct (perform_result _ _ _ _ _ Hp Hws) as [Hr _]. destruct r; [|discriminate Hr]. exists w'.
      split; [done|]. split; [done|]. split; [done|]. by apply writeWord_cells.
    - destruct (law_goes_on SSTORE [v (slot o); v x] w Hg) as (r & w' & Hp); [simpl; tauto|done|done|].
      destruct (law_sstore _ _ w r w' Hg Hw1 Hw2 Hp) as (H1 & H2 & H3 & H4).
      destruct (perform_result _ _ _ _ _ Hp Hws) as [Hr _]. destruct r; [|discriminate Hr]. exists w'.
      split; [done|]. split; [done|]. split; [done|]. by apply writeSlot_cells. }
  exists w'. split.
  - apply (exec_goes_on it l st w [] w'); try done; [|rewrite Hi, Hl; by destruct (target o)].
    rewrite Hi. by destruct (target o).
  - split; [done|by rewrite He|]. rewrite Hc'.
    assert (filter (is_generated P') ops = filter (is_generated P) ops ++ [(o, x)]) as ->.
    { rewrite <- Hfilter. apply list_filter_iff. intros o'. unfold is_generated. by rewrite Hk. }
    rewrite apply_stores_snoc. by apply apply_store_proper.
Qed.

(** ** Generating an item *)

Lemma commutative_value it s a b : isCommutativeOperation it = true -> is_u256 a -> is_u256 b ->
  item_value Sem it s [a; b] = item_value Sem it s [b; a].
Proof using WorldLaws0 StateLaws0 goodω good0 words0.
  unfold isCommutativeOperation, item_value. intros Hc Ha Hb. destruct (m_type it); try discriminate Hc.
  pose proof (blockOp_words w0 good0).
  apply (@sem_comm _ (wordSemantics_laws bop bseq bpush (blockSeqop_pure w0 ω) (blockSeqop_range w0 ω goodω)
    (blockPushed_range st0 words0))); done.
Qed.

(** The classes on top when the item is appended: its arguments, or exchanged. *)
Lemma arguments_arranged level g st w c e it :
  known cl v -> placed level g st w -> representative (m_representatives cl) c = Some e -> item e = Some it ->
  yields (arrangeArguments c (e_arguments e) (m_location it) ;;; checkArguments 0 (e_arguments e) ;;;
          n <-- gget (fun g => length (m_generatedItems g)) ;; removeArgumentSwaps (S n) it)%generator g (fun _ g' =>
    exists st' l, placed level g' st' w /\ same_keys (m_classPositions g) (m_classPositions g') /\
      length l = length (e_arguments e) /\ (length l <= 2)%nat /\ level + Z.of_nat (length l) <= g_stackHeight g' + 1 /\
      (forall j a, l !! j = Some a -> m_stack g' !! (g_stackHeight g' - Z.of_nat j) = Some a) /\
      item_value Sem it (sequenceNumber e) (map v l) = item_value Sem it (sequenceNumber e) (map v (e_arguments e)) /\
      (isCommutativeOperation it = false -> l = e_arguments e)).
Proof using All.
  intros Hkn Hp Hr Hit. destruct (class_value _ _ _ _ _ _ _ Hkn Hr) as (it' & Hit' & Hask & _ & _ & Hlen & _).
  assert (it' = it) as -> by congruence.
  eapply yields_bind; [by eapply arrangeArguments_yields|]. intros _ g1 ((st1 & Hp1 & Hk1) & Hle & Hlv1).
  pose proof (pl_level _ _ _ _ _ _ _ _ _ _ Hp1) as Hlv.
  eapply yields_bind; [apply (checkArguments_yields level g1 st1 w (e_arguments e) 0 Hp1); lia|].
  intros _ g' (-> & Htops). apply yields_get.
  assert (isCommutativeOperation it = true -> exists a b, e_arguments e = [a; b]) as Hcom.
  { intros Hc. unfold isCommutativeOperation in Hc. destruct (m_type it) eqn:Ht; try discriminate Hc.
    specialize (Hlen eq_refl). assert (args (instructionInfo (m_instruction it)) = 2%nat) as E
      by (by destruct (m_instruction it)). rewrite E in Hlen. destruct (e_arguments e) as [|a [|b [|]]]; try discriminate Hlen.
    by exists a, b. }
  assert (exists a b, isCommutativeOperation it = true -> e_arguments e = [a; b]) as (a & b & Hab).
  { destruct (isCommutativeOperation it); [destruct Hcom as (a & b & E); [done|by exists a, b]|by exists 0, 0]. }
  eapply yields_last; [eapply (removeArgumentSwaps_yields _ it a b level g1 st1 w Hp1); [lia|]|].
  - intros Hc. specialize (Hab Hc). rewrite Hab in *. cbn in Hlv1. split; [lia|].
    pose proof (Htops 0%nat a eq_refl) as H1. pose proof (Htops 1%nat b eq_refl) as H2. rewrite Z.sub_0_r in H1, H2.
    rewrite Z.sub_0_r in H1. by split.
  - intros _ g2 (st2 & Hp2 & Hk2 & Hh2 & Hcase). exists st2.
    assert (same_keys (m_classPositions g) (m_classPositions g2)) as Hk by by eapply same_keys_trans.
    assert (forall l, l = e_arguments e -> (forall j a, l !! j = Some a -> m_stack g2 !! (g_stackHeight g2 - Z.of_nat j) = Some a) ->
      exists l, placed level g2 st2 w /\ same_keys (m_classPositions g) (m_classPositions g2) /\
      length l = length (e_arguments e) /\ (length l <= 2)%nat /\ level + Z.of_nat (length l) <= g_stackHeight g2 + 1 /\
      (forall j a, l !! j = Some a -> m_stack g2 !! (g_stackHeight g2 - Z.of_nat j) = Some a) /\
      item_value Sem it (sequenceNumber e) (map v l) = item_value Sem it (sequenceNumber e) (map v (e_arguments e)) /\
      (isCommutativeOperation it = false -> l = e_arguments e)) as Hsame.
    { intros l -> Hl. exists (e_arguments e). split; [done|]. split; [done|]. split; [done|]. split; [done|].
      split; [by rewrite Hh2|]. split; [exact Hl|by split]. }
    destruct (isCommutativeOperation it) eqn:Hc.
    + specialize (Hab eq_refl). rewrite Hab in *. cbn in Hlv1. destruct Hcase as [[Ha Hb]|[Hb Ha]].
      * apply (Hsame [a; b]); [done|]. rewrite Hh2.
        intros [|[|j]] x Hx; try discriminate Hx; injection Hx as <-; [by rewrite Z.sub_0_r|exact Hb].
      * exists [b; a]. split; [done|]. split; [done|]. split; [done|]. split; [done|]. split; [cbn; lia|].
        split; [rewrite Hh2; intros [|[|j]] x Hx; try discriminate Hx; injection Hx as <-; [by rewrite Z.sub_0_r|exact Ha]|].
        split; [|done]. apply commutative_value; [done|by eapply known_word..].
    + subst g2. apply (Hsame (e_arguments e)); [done|]. intros j x Hx. rewrite <- (Htops j x Hx). f_equal. lia.
Qed.

(** The item appended once its arguments are on top. *)
Definition finishItem (c : Z) (e : Expression) (it : AssemblyItem) : G unit :=
  (eraseArguments 0 (e_arguments e) ;;;
   appendItem it ;;;
   if negb (bool_decide (m_type it = Operation)) || Nat.eqb (ret (instructionInfo (m_instruction it))) 1 then
     height <-- gget g_stackHeight ;;
     gmodify (fun g => set_gstack (<[height := c]> (m_stack g)) g) ;;;
     insertPosition c height
   else
     gassert (Nat.eqb (ret (instructionInfo (m_instruction it))) 0) OptimizerException ;;;
     gmodify (fun g => set_positions (<[c := default ∅ (m_classPositions g !! c)]> (m_classPositions g)) g))%generator.

Lemma gbind_assoc {A B C} (m : G A) (k : A -> G B) (j : B -> G C) g cl' :
  gbind (gbind m k) j g cl' = gbind m (fun a => gbind (k a) j) g cl'.
Proof using. unfold gbind. by destruct (m g cl') as [[a [g1 cl1]]| |]. Qed.

Lemma gbind_ext {A B} (m : G A) (k k' : A -> G B) g cl' :
  (forall a g cl, k a g cl = k' a g cl) -> gbind m k g cl' = gbind m k' g cl'.
Proof using. intros E. unfold gbind. by destruct (m g cl') as [[a [g1 cl1]]| |]. Qed.

Lemma generateItem_eq c e it g :
  generateItem c e it g cl =
  gbind (arrangeArguments c (e_arguments e) (m_location it) ;;; checkArguments 0 (e_arguments e) ;;;
         n <-- gget (fun g => length (m_generatedItems g)) ;; removeArgumentSwaps (S n) it)%generator
    (fun _ => finishItem c e it) g cl.
Proof using.
  unfold generateItem. rewrite gbind_assoc. apply gbind_ext. intros _ g1 cl1. rewrite gbind_assoc.
  apply gbind_ext. intros _ g2 cl2. reflexivity.
Qed.

(** Whether the item leaves a value, and what it needs. *)
Lemma item_results it s l : asked it s l -> m_type it <> UndefinedItem -> (length l <= 2)%nat ->
  (m_type it = Operation -> length l = args (instructionInfo (m_instruction it))) ->
  if is_store it then m_type it = Operation /\ ret (instructionInfo (m_instruction it)) = 0%nat
  else negb (bool_decide (m_type it = Operation)) || Nat.eqb (ret (instructionInfo (m_instruction it))) 1 = true /\
    to_int (deposit it) = 1 - Z.of_nat (length l).
Proof using.
  clear lo_start goodω good0 words0. intros Ha Hu Hle Hn. unfold is_store. case_bool_decide as Ht; cbn [andb negb orb].
  - specialize (Hn Ht). destruct (isStore (m_instruction it)) eqn:Hs.
    { split; [done|]. by destruct (m_instruction it). }
    assert (ret (instructionInfo (m_instruction it)) = 1%nat) as Hr.
    { unfold asked in Ha. rewrite Ht in Ha. destruct (sequenced (m_instruction it)) eqn:Hq.
      - unfold sequenced in Hq. rewrite Hs, orb_false_r in Hq. by destruct (m_instruction it).
      - destruct Ha as [_ Hp]. unfold plain in Hp. apply orb_true_iff in Hp as [Hp|Hp]; [by apply environment_spec|].
        apply Nat.ltb_lt in Hp. lia. }
    rewrite Hr. split; [done|]. rewrite deposit_operation, Hr by done. lia.
  - split; [done|]. unfold asked in Ha. unfold deposit, returnValues, arguments.
    destruct (m_type it); try done; destruct Ha as [_ ->]; reflexivity.
Qed.

Lemma is_store_sequenced it : is_store it = true -> is_sequenced it = true.
Proof using. unfold is_store, is_sequenced, sequenced. intros Hs. apply andb_true_iff in Hs as [-> ->]. by rewrite orb_true_r. Qed.

Lemma sequenced_cases it : is_sequenced it = true -> is_store it = false -> is_load it = true.
Proof using.
  unfold is_sequenced, is_store, sequenced, is_load. intros Hs Hn. apply andb_true_iff in Hs as [Ht Hs].
  rewrite Ht in Hn. cbn in Hn. rewrite Hn, orb_false_r in Hs. apply bool_decide_eq_true in Ht.
  unfold is_op. rewrite Ht. by destruct (m_instruction it).
Qed.

Lemma commutative_store it : is_sequenced it = true -> isCommutativeOperation it = false.
Proof using.
  unfold is_sequenced, isCommutativeOperation. intros Hs. apply andb_true_iff in Hs as [Ht Hs].
  apply bool_decide_eq_true in Ht. rewrite Ht. by destruct (m_instruction it).
Qed.

(** A class is generated. *)
Definition generated (level : Z) (g : CSECodeGenerator) (c : Z) (g' : CSECodeGenerator) : Prop :=
  exists st' w', placed level g' st' w' /\ generated_world (m_classPositions g') w' /\
    forall k, is_Some (m_classPositions g' !! k) <-> is_Some (m_classPositions g !! k) \/ k = c.

Lemma generateItem_yields level g st w c e it :
  known cl v -> placed level g st w -> generated_world (m_classPositions g) w ->
  representative (m_representatives cl) c = Some e -> item e = Some it -> m_type it <> UndefinedItem ->
  m_classPositions g !! c = None -> may_generate (m_classPositions g) c e it ->
  yields (generateItem c e it) g (fun _ g' => generated level g c g').
Proof using All.
  intros Hkn Hp Hw Hr Hit Hu Hnone Hmay.
  destruct (class_value _ _ _ _ _ _ _ Hkn Hr) as (it' & Hit' & Hask & _ & Hargs & Hlen & Hvc).
  assert (it' = it) as -> by congruence. unfold yields, CSEStack.yields. rewrite generateItem_eq.
  eapply yields_bind; [by apply (arguments_arranged level g st w c e it)|].
  intros _ g1 (st1 & l & Hp1 & Hk1 & Hll & Hle & Hlv & Htops & Hval & Hsame).
  pose proof (take_top level g1 st1 w l Hp1 Htops) as Htake.
  assert (length (map v l) = length l) as Hml by apply length_map.
  assert (length l <= length st1)%nat as Hst1.
  { apply (f_equal length) in Htake. rewrite length_take, Hml in Htake. lia. }
  pose proof (pl_level _ _ _ _ _ _ _ _ _ _ Hp1) as Hlv1.
  unfold finishItem. eapply yields_bind; [apply (eraseArguments_yields (e_arguments e) 0 g1 st1)|].
  { apply Hp1. }
  { intros j Hj. rewrite Z.sub_0_r. apply (pl_from _ _ _ _ _ _ _ _ _ _ Hp1). lia. }
  { rewrite Z.sub_0_r. apply Hp1. }
  { lia. }
  intros _ g2 (Hi2 & Hh2 & Ht2 & Hf2 & Hk2 & Htr2 & Hs2 & Hm2). rewrite <- Hll, Z.sub_0_r in Hs2.
  assert (forall p, m_stack g2 !! p = if decide (g_stackHeight g1 - Z.of_nat (length l) < p <= g_stackHeight g1) then None
    else m_stack g1 !! p) as Hm2' by (intros p; by rewrite Hm2, Hll, Z.sub_0_r). clear Hm2. rename Hm2' into Hm2.
  unfold appendItem. apply yields_modify.
  assert (Forall is_u256 (map v l)) as Hwords by (apply Forall_map, List.Forall_forall; intros i _; by eapply known_word).
  pose proof (generated_world_keys _ _ _ Hk1 Hw) as Hw1.
  assert (same_keys (m_classPositions g) (m_classPositions g2)) as Hk12 by by eapply same_keys_trans.
  assert (forall p, lo <= p <= g_stackHeight g1 - Z.of_nat (length l) <-> is_Some (m_stack g2 !! p)) as Hdom2.
  { intros p. rewrite Hm2. destruct (decide _) as [Hin|Hout]; [split; [lia|by intros [? ?]]|].
    rewrite <- (pl_from _ _ _ _ _ _ _ _ _ _ Hp1). lia. }
  assert (forall p, lo <= p < level -> m_stack g2 !! p = tgt !! p) as Hdone2.
  { intros p Hpr. rewrite Hm2, decide_False by lia. by apply (pl_done _ _ _ _ _ _ _ _ _ _ Hp1). }
  assert (m_classPositions g2 !! c = None) as Hnone2.
  { apply eq_None_not_Some. intros Hc. apply Hk12 in Hc. rewrite Hnone in Hc. by destruct Hc. }
  assert (map v (e_arguments e) = map v l \/ is_sequenced it = false) as Hseq.
  { destruct (is_sequenced it) eqn:Hq; [left|by right]. by rewrite Hsame by by apply commutative_store. }
  pose proof (item_results it _ _ Hask Hu ltac:(lia) Hlen) as Hres.
  assert (to_int (deposit it) = (if is_store it then 0 else 1) - Z.of_nat (length l)) as Hdep.
  { destruct (is_store it); [|by rewrite Hll; apply Hres]. destruct Hres as [Hop Hret].
    rewrite deposit_operation, Hret, <- Hlen, Hll by done. lia. }
  destruct (is_store it) eqn:Hstore.
  - destruct Hres as [Hop Hret]. rewrite bool_decide_eq_true_2, Hret by done. cbn [negb orb Nat.eqb].
    apply yields_assert. intros _. split; [done|].
    destruct Hseq as [Hargseq|Hq]; [|by rewrite (is_store_sequenced it Hstore) in Hq].
    set (P' := <[c := default ∅ (m_classPositions g2 !! c)]> (m_classPositions g2)).
    assert (forall k, is_Some (P' !! k) <-> is_Some (m_classPositions g !! k) \/ k = c) as HP'.
    { intros k. unfold P'. destruct (decide (c = k)) as [<-|Hne].
      - rewrite lookup_insert_eq. split; [by right|by eexists].
      - rewrite lookup_insert_ne by done. rewrite <- (Hk12 k). split; [by left|by intros [?|?]]. }
    destruct (exec_store it (map v l) st1 (m_classPositions g) P' c e w) as (w' & Hx & Hw'); try done;
      [by rewrite Hml|].
    exists (drop (length l) st1), w'. cbn. split; [|by split].
    destruct Hp1 as [Hex _ _ _ Htgt Hfin _ _]. split; cbn.
    + rewrite Hi2, exec_app, Hex. cbn [exec]. by rewrite Hx, Hml.
    + rewrite Hh2, Hdep. exact Hs2.
    + intros p. rewrite <- Hdom2, Hh2, Hdep. lia.
    + intros c' p. unfold P'. rewrite pos_set_insert, <- (Htr2 c' p).
      destruct (decide (c = c')) as [<-|]; [|done]. done.
    + by rewrite Ht2.
    + intros p c'. rewrite Hf2. apply Hfin.
    + rewrite Hh2, Hdep. lia.
    + exact Hdone2.
  - destruct Hres as [-> _]. apply yields_get, yields_modify. unfold insertPosition, gmodify. split; [done|].
    assert (exists w', exec_item it st1 w = Next (v c :: drop (length l) st1) w' /\ generated_world (m_classPositions g) w')
      as (w' & Hx & Hw').
    { destruct (is_sequenced it) eqn:Hq.
      - destruct Hseq as [Hargseq|?]; [|done]. pose proof (sequenced_cases it Hq Hstore) as Hload.
        destruct (exec_load it (map v l) st1 w (v c) Hload) as (w' & Hx & Hg' & Hs'); [| | |by apply Hw| |].
        + rewrite Hml, Hll. apply Hlen. by apply is_load_cases in Hload as [? _].
        + done.
        + by rewrite Hml.
        + rewrite <- Hargseq. by apply Hmay.
        + exists w'. rewrite Hx, Hml. split; [done|]. by eapply generated_world_same.
      - exists w. split; [|done]. rewrite Hvc, <- Hval, <- Hml.
        apply (exec_pure it (sequenceNumber e) (e_arguments e)); try done; [lia| |congruence| |apply Hw|apply Hw].
        + intros Hop. rewrite Hml, Hll. by apply Hlen.
        + by rewrite Hml. }
    set (h' := g_stackHeight g2 + to_int (deposit it)).
    assert (h' = g_stackHeight g1 - Z.of_nat (length l) + 1) as Hh' by (unfold h'; lia).
    set (P' := <[c := _]> _).
    assert (forall k, is_Some (P' !! k) <-> is_Some (m_classPositions g !! k) \/ k = c) as HP'.
    { intros k. unfold P'. cbn. destruct (decide (c = k)) as [<-|Hne].
      - rewrite lookup_insert_eq. split; [by right|by eexists].
      - rewrite lookup_insert_ne by done. rewrite <- (Hk12 k). split; [by left|by intros [?|?]]. }
    exists (v c :: drop (length l) st1), w'. cbn. split; [|split; [by eapply generated_world_add|done]].
    destruct Hp1 as [Hex _ _ _ Htgt Hfin _ _]. split; cbn.
    + rewrite Hi2, exec_app, Hex. cbn [exec]. by rewrite Hx.
    + fold h'. rewrite Hh'. exact (stack_ok_push st0 _ cl v _ c Hs2 (representative_range _ _ _ Hr)).
    + intros p. fold h'. destruct (decide (h' = p)) as [<-|Hne].
      * rewrite lookup_insert_eq. split; [by eexists|lia].
      * rewrite lookup_insert_ne by done. rewrite <- Hdom2. lia.
    + fold h'. apply (tracks_push (m_classPositions g2)); [done|].
      apply eq_None_not_Some. rewrite <- Hdom2. lia.
    + by rewrite Ht2.
    + intros p c'. rewrite Hf2. apply Hfin.
    + fold h'. lia.
    + intros p Hpr. fold h'. rewrite lookup_insert_ne by lia. by apply Hdone2.
Qed.

(** ** Generating a class *)

Context (known_cl : known cl v).
(** The stores of the block have classes with a sequence number. *)
Context (ops_class : forall o, In o ops -> exists r it,
  representative (m_representatives cl) (expression (fst o)) = Some r /\ item r = Some it /\
  is_store it = true /\ sequenceNumber r <> 0).

(** A class without a sequence number. *)
Definition pure_class (c : Z) : Prop :=
  exists e, representative (m_representatives cl) c = Some e /\ sequenceNumber e = 0.

Lemma pure_store o c : In o ops -> expression (fst o) = c -> ~ pure_class c.
Proof using ops_class.
  intros Ho <- (e & He & Hq). destruct (ops_class o Ho) as (r & it & Hr & _ & _ & Hn). congruence.
Qed.

(** Classes that are added to those generated: at most one with a sequence number. *)
Definition adds (P P' : gmap Z (gset Z)) (bound : Z) (extra : Z -> Prop) : Prop :=
  (forall k, is_Some (P !! k) -> is_Some (P' !! k)) /\
  (forall k, is_Some (P' !! k) -> is_Some (P !! k) \/ (k <= bound /\ (extra k \/ pure_class k))).

Lemma adds_keys P P' bound extra : same_keys P P' -> adds P P' bound extra.
Proof using. intros Hk. split; intros k ?; [by apply Hk|left; by apply Hk]. Qed.

Lemma adds_trans P1 P2 P3 b1 b2 extra :
  b1 <= b2 -> adds P1 P2 b1 (fun _ => False) -> adds P2 P3 b2 extra -> adds P1 P3 b2 extra.
Proof using.
  intros Hb [H1 H2] [H3 H4]. split; [auto|]. intros k Hk. destruct (H4 k Hk) as [Hk2|]; [|by right].
  destruct (H2 k Hk2) as [|(? & [[]|?])]; [by left|]. right. split; [lia|by right].
Qed.

Lemma adds_generated P P' bound o : adds P P' bound (fun _ => False) -> In o ops -> is_generated P o <-> is_generated P' o.
Proof using ops_class.
  intros [H1 H2] Ho. split; [apply H1|]. intros Hk. destruct (H2 _ Hk) as [|(_ & [[]|Hp])]; [done|].
  by destruct (pure_store o _ Ho eq_refl).
Qed.

Lemma may_generate_iff P P' c e it :
  (forall o, In o ops -> is_generated P o <-> is_generated P' o) -> may_generate P c e it -> may_generate P' c e it.
Proof using.
  intros Hk [Hload Hstore]. split.
  - intros Hl w Hw. apply Hload; [done|]. eapply generated_world_iff; [|exact Hw]. intros o Ho. symmetry. by apply Hk.
  - destruct (is_store it); [|done]. destruct Hstore as (o & x & H1 & H2 & H3 & H4 & H5 & H6). exists o, x.
    repeat (split; [done|]). rewrite <- (filter_ext_In (is_generated P) (is_generated P')) by done. rewrite <- H6.
    apply filter_ext_In. intros o' Ho'. by rewrite Hk.
Qed.

(** A pure class may always be generated. *)
Lemma may_generate_pure P c e it :
  representative (m_representatives cl) c = Some e -> item e = Some it -> sequenceNumber e = 0 ->
  may_generate P c e it.
Proof using ops_class known_cl.
  intros Hr Hit Hq. destruct (class_value _ _ _ _ _ _ _ known_cl Hr) as (it' & Hit' & Hask & _).
  assert (it' = it) as -> by congruence. rewrite Hq in Hask. apply asked_unsequenced in Hask.
  split.
  - intros Hl. apply is_load_cases in Hl as [Ht Hi]. unfold is_sequenced in Hask. rewrite Ht in Hask.
    by destruct Hi as [Hi|[Hi|Hi]]; rewrite Hi in Hask.
  - destruct (is_store it) eqn:Hs; [by rewrite (is_store_sequenced it Hs) in Hask|].
    intros o Ho E. apply (pure_store o c Ho E). by exists e.
Qed.

Lemma yields_query {A B} (f : ExpressionClasses -> option A) (k : A -> G B) g R :
  (forall a, f cl = Some a -> yields (k a) g R) -> yields (gbind (gquery f) k) g R.
Proof using.
  unfold yields, CSEStack.yields, gbind, gquery, gclasses. destruct (f cl) as [a|]; [|done]. intros Hk. exact (Hk a eq_refl).
Qed.

Definition class_generated (level : Z) (g : CSECodeGenerator) (bound : Z) (extra : Z -> Prop) (g' : CSECodeGenerator) : Prop :=
  exists st' w', placed level g' st' w' /\ generated_world (m_classPositions g') w' /\
    adds (m_classPositions g) (m_classPositions g') bound extra.

Lemma generateAll_yields (gen : Z -> G unit) bound level l :
  (forall a g st w, In a l -> placed level g st w -> generated_world (m_classPositions g) w ->
     yields (gen a) g (fun _ g' => class_generated level g bound (fun _ => False) g')) ->
  forall g st w, placed level g st w -> generated_world (m_classPositions g) w ->
  yields ((fix loop (l : list Z) : G unit :=
             match l with [] => gret tt | a :: l => gbind (gen a) (fun _ => loop l) end) l) g
    (fun _ g' => class_generated level g bound (fun _ => False) g').
Proof using.
  induction l as [|a l IH]; intros Hgen g st w Hp Hw.
  - apply yields_ret. exists st, w. split; [done|]. split; [done|]. by apply adds_keys.
  - eapply yields_bind; [by apply (Hgen a g st w); [left|..]|]. intros _ g1 (st1 & w1 & Hp1 & Hw1 & Ha1).
    eapply yields_last; [eapply (IH (fun a g st w Hin => Hgen a g st w (or_intror Hin)) g1 st1 w1); done|].
    intros _ g2 (st2 & w2 & Hp2 & Hw2 & Ha2). exists st2, w2. split; [done|]. split; [done|]. by eapply adds_trans.
Qed.

Lemma generateClassElement_yields d : forall c allow level g st w,
  0 <= c < Z.of_nat d -> placed level g st w -> generated_world (m_classPositions g) w ->
  (allow = true -> forall e it, representative (m_representatives cl) c = Some e -> item e = Some it ->
     is_sequenced it = true -> may_generate (m_classPositions g) c e it) ->
  yields (generateClassElement d c allow) g (fun _ g' =>
    class_generated level g c (fun k => k = c /\ allow = true) g' /\ is_Some (m_classPositions g' !! c)).
Proof using All.
  induction d as [|d IH]; intros c allow level g st w Hc Hp Hw Hready; [lia|]. cbn [generateClassElement].
  apply yields_get, yields_assert. intros _.
  eapply yields_bind; [by eapply (removeStackTopIfPossible_yields w0 st0 cl v lo tgt lo_start)|].
  intros _ g1 (st1 & Hp1 & Hk1 & _). apply yields_get. pose proof (generated_world_keys _ _ _ Hk1 Hw) as Hw1.
  destruct (m_classPositions g1 !! c) as [s|] eqn:Hs.
  { unfold gassert. destruct (negb _); [|done]. apply yields_ret. split; [|by eexists]. exists st1, w. split; [done|].
    split; [done|]. by apply adds_keys. }
  unfold representativeOf. apply yields_query. intros e Hr. apply yields_assert. intros Hallow.
  destruct (class_value _ _ _ _ _ _ _ known_cl Hr) as (it & Hit & Hask & Hlt & _). rewrite Hit. apply yields_assert.
  intros Hu. apply negb_true_iff, bool_decide_eq_false in Hu.
  eapply yields_bind; [eapply (generateAll_yields (fun a => generateClassElement d a false) (c - 1) level
    (reverse (e_arguments e))); [|exact Hp1|exact Hw1]|].
  { intros a g2 st2 w2 Ha Hp2 Hw2. apply list_elem_of_In in Ha. rewrite reverse_Permutation in Ha. rewrite Forall_forall in Hlt.
    specialize (Hlt a Ha). eapply yields_last; [by apply (IH a false level g2 st2 w2); [lia|..]|].
    intros _ g3 ((st3 & w3 & Hp3 & Hw3 & [H1 H2]) & _). exists st3, w3. split; [done|]. split; [done|].
    split; [done|]. intros k Hk. destruct (H2 k Hk) as [|(Hle & [[_ ?]|?])]; [by left|done|right].
    split; [lia|by right]. }
  intros _ g2 (st2 & w2 & Hp2 & Hw2 & Ha2).
  assert (forall o, In o ops -> is_generated (m_classPositions g) o <-> is_generated (m_classPositions g2) o) as Hgen.
  { intros o Ho. rewrite <- (adds_generated _ _ _ o Ha2 Ho). apply Hk1. }
  eapply yields_last; [apply (generateItem_yields level g2 st2 w2 c e it); try done|].
  - apply eq_None_not_Some. intros Hk. destruct Ha2 as [_ Ha2]. destruct (Ha2 c Hk) as [Hk'|(Hle & _)]; [|lia].
    rewrite Hs in Hk'. by destruct Hk'.
  - destruct (Z.eqb_spec (sequenceNumber e) 0) as [Hq|Hq]; [by apply may_generate_pure|].
    assert (allow = true) as Hal by (destruct allow; done).
    apply (may_generate_iff (m_classPositions g)); [done|]. apply Hready; try done.
    destruct (is_sequenced it) eqn:E; [done|]. by apply asked_plain in Hask.
  - intros _ g3 (st3 & w3 & Hp3 & Hw3 & Hk3). split; [|apply Hk3; by right]. exists st3, w3. split; [done|]. split; [done|].
    apply (adds_trans _ (m_classPositions g2) _ (c - 1)); [lia| |].
    + destruct Ha2 as [H1 H2]. split; [intros k Hk; apply H1; by apply Hk1|].
      intros k Hk. destruct (H2 k Hk) as [Hk'|?]; [left; by apply Hk1|by right].
    + split; [intros k Hk; apply Hk3; by left|]. intros k Hk. apply Hk3 in Hk as [Hk| ->]; [by left|]. right.
      split; [lia|]. destruct allow; [by left|right]. exists e. split; [done|]. cbn in Hallow. by apply Z.eqb_eq.
Qed.
End Generate.
