(* ===== verification/CSECode.v ===== *)
(** * CSECode: what the code generator starts with

    The maps of positions [CSECodeGenerator::generateCode] starts with, the cells a load
    reads, and the classes that are needed after the dependencies of the last stores and of
    the target stack have been added. *)

From stdpp Require Import sorting.
From S2P Require Import Prelude U256 CommonData Instruction AssemblyItem SemanticInformation Interpreter Pattern RuleList SimplificationRules ExpressionClasses KnownState CommonSubexpressionEliminator Machine RuleSound StateWorld StoreOrder MatchSound ClassSound WordClasses RuleWeight ClassShape ClassQueries KnownSound KnownFeed KnownBlock CSEDependencies CSEStack CSEGenerate.

#[local] Opaque ruleSet Rules writeWord toBigEndian fromBigEndian.

(** ** Maps on an interval *)

Definition interval (m : gmap Z Z) (lo : Z) (n : nat) : Prop :=
  forall p, is_Some (m !! p) <-> lo <= p < lo + Z.of_nat n.

#[export] Instance key_le_total : Total key_le.
Proof. intros p q. unfold key_le. lia. Qed.
#[export] Instance key_le_trans : Transitive key_le.
Proof. intros p q r. unfold key_le. lia. Qed.

(** The entries from position [p] on. *)
Fixpoint entries_from (m : gmap Z Z) (p : Z) (n : nat) : list (Z * Z) :=
  match n with
  | O => []
  | S n => (p, default 0 (m !! p)) :: entries_from m (p + 1) n
  end.

Lemma entries_from_In m p n q c :
  In (q, c) (entries_from m p n) <-> p <= q < p + Z.of_nat n /\ c = default 0 (m !! q).
Proof.
  revert p. induction n as [|n IH]; intros p; cbn [entries_from In]; [lia|]. rewrite IH. split.
  - intros [[= <- <-]|[Hr ->]]; (split; [lia|done]).
  - intros [Hr ->]. destruct (Z.eq_dec p q) as [->|]; [by left|right; split; [lia|done]].
Qed.

Lemma entries_from_sorted m p n : StronglySorted key_le (entries_from m p n).
Proof.
  revert p. induction n as [|n IH]; intros p; cbn [entries_from]; [constructor|]. constructor; [apply IH|].
  apply Forall_forall. intros [q c] Hq. apply list_elem_of_In, entries_from_In in Hq as [Hr _]. unfold key_le. cbn. lia.
Qed.

Lemma entries_from_NoDup m p n : NoDup (entries_from m p n).
Proof.
  revert p. induction n as [|n IH]; intros p; cbn [entries_from]; [constructor|]. constructor; [|apply IH].
  intros Hin. apply list_elem_of_In, entries_from_In in Hin as [Hr _]. lia.
Qed.

(** The entries of a map on an interval, in order. *)
Lemma entries_interval m lo n : interval m lo n -> entries m = entries_from m lo n.
Proof.
  intros Hm. unfold entries.
  assert (map_to_list m ≡ₚ entries_from m lo n) as Hperm.
  { apply NoDup_Permutation; [apply NoDup_map_to_list|apply entries_from_NoDup|]. intros [p c].
    rewrite elem_of_map_to_list, list_elem_of_In, entries_from_In, <- (Hm p). split.
    - intros ->. split; [by eexists|done].
    - intros [[c' Hc] ->]. by rewrite Hc. }
  apply (StronglySorted_unique_strong key_le).
  - intros [p c] [q d] Hp Hq H1 H2. rewrite merge_sort_Permutation, Hperm in Hp.
    apply list_elem_of_In, entries_from_In in Hp as [_ ->]. apply list_elem_of_In, entries_from_In in Hq as [_ ->].
    unfold key_le in *. cbn in *. assert (p = q) as -> by lia. done.
  - apply (StronglySorted_merge_sort key_le).
  - apply entries_from_sorted.
  - by rewrite merge_sort_Permutation.
Qed.

Lemma keys_interval m lo n : interval m lo n ->
  head (keys m) = (if Nat.eqb n 0 then None else Some lo) /\
  last (keys m) = (if Nat.eqb n 0 then None else Some (lo + Z.of_nat n - 1)).
Proof.
  intros Hm. unfold keys. rewrite (entries_interval m lo n Hm). destruct n as [|n]; [done|]. split; [done|].
  cbn [Nat.eqb]. clear Hm. revert lo. induction n as [|n IH]; intros lo; [cbn; f_equal; lia|].
  specialize (IH (lo + 1)). cbn [entries_from map last] in *. rewrite IH. f_equal. lia.
Qed.

(** ** Initial positions *)

Lemma positionsOf_fold l : forall P,
  let P' := fold_left (fun m (p : Z * Z) => <[snd p := {[ fst p ]} ∪ default ∅ (m !! snd p)]> m) l P in
  (forall c p, p ∈ pos_set P' c <-> p ∈ pos_set P c \/ In (p, c) l) /\
  (forall c, is_Some (P' !! c) <-> is_Some (P !! c) \/ exists p, In (p, c) l).
Proof.
  induction l as [|[q d] l IH]; intros P P'; cbn [fold_left In] in P'.
  - subst P'. split; [intros c p; cbn; tauto|]. intros c. cbn. split; [by left|by intros [?|[? []]]].
  - destruct (IH (<[d := {[ q ]} ∪ default ∅ (P !! d)]> P)) as [H1 H2]. cbn [fst snd] in P'. fold P' in H1, H2. split.
    + intros c p. rewrite H1, pos_set_insert. cbn [In]. destruct (decide (d = c)) as [->|Hne].
      * unfold pos_set. rewrite elem_of_union, elem_of_singleton. split.
        -- intros [[->|]|]; [right; by left|by left|right; by right].
        -- intros [|[[= ->]|]]; [left; by right|left; by left|by right].
      * split; [intros [|]; [by left|right; by right]|]. intros [|[[= ? ?]|]]; [by left|done|by right].
    + intros c. rewrite H2. cbn [In]. destruct (decide (d = c)) as [->|Hne].
      * rewrite lookup_insert_eq. split; [|left; by eexists]. intros _. right. exists q. by left.
      * rewrite lookup_insert_ne by done. split.
        -- intros [|[p Hp]]; [by left|right; exists p; by right].
        -- intros [|[p [[= ? ?]|Hp]]]; [by left|done|right; by exists p].
Qed.

Lemma positionsOf_tracks m :
  tracks (positionsOf m) m /\ forall c, is_Some (positionsOf m !! c) -> exists p, m !! p = Some c.
Proof.
  destruct (positionsOf_fold (entries m) ∅) as [H1 H2]. split.
  - intros c p. unfold positionsOf. rewrite H1. unfold pos_set. rewrite lookup_empty. cbn.
    rewrite entries_In. split; [intros [Hp|]; [by apply not_elem_of_empty in Hp|done]|by right].
  - intros c Hc. apply H2 in Hc as [[? Hc]|[p Hp]]; [by rewrite lookup_empty in Hc|]. exists p. by apply entries_In.
Qed.

(** ** The order of generation *)

#[local] Instance pair_le_total : Total pair_le.
Proof. intros p q. unfold pair_le. lia. Qed.
#[local] Instance pair_le_trans : Transitive pair_le.
Proof. intros p q r. unfold pair_le. lia. Qed.

Lemma sequence_sorted (S : gset (Z * Z)) :
  StronglySorted pair_le (merge_sort pair_le (elements S)) /\ NoDup (merge_sort pair_le (elements S)) /\
  forall p, In p (merge_sort pair_le (elements S)) <-> p ∈ S.
Proof.
  split; [apply (StronglySorted_merge_sort pair_le)|]. split.
  - eapply NoDup_Permutation_proper; [apply merge_sort_Permutation|apply NoDup_elements].
  - intros p. rewrite <- list_elem_of_In, merge_sort_Permutation. apply elem_of_elements.
Qed.

(** ** What a load reads *)

Section Reads.
Context {W H : Type} `{!World W H} `{!WorldLaws W H} `{!StateWorld W} {keccak256 : list Z -> Z}
  `{!StateLaws W H keccak256}.

(** The cells a load or a hash reads; one of more than 2^255 bytes reads none. *)
Definition read_cell (i : Instruction) (l : list Z) (t : Target) (a : Z) : Prop :=
  match i, l with
  | SLOAD, [k] => t = Storage /\ a = k
  | MLOAD, [p] => t = Memory /\ u256_sub a p < 32
  | KECCAK256, [p; n] => t = Memory /\ n <= 2 ^ 255 /\ u256_sub a p < n
  | _, _ => False
  end.

Lemma readBytes_ext m m' p n :
  (forall a, is_u256 a -> u256_sub a p < Z.of_nat n -> m a = m' a) -> Z.of_nat n <= 2 ^ 255 ->
  readBytes m p n = readBytes m' p n.
Proof using.
  intros Hm Hn. unfold readBytes. apply map_ext_in. intros i Hin. apply in_seq in Hin. apply Hm; [apply u256_range|].
  rewrite u256_sub_add, u256_id by (unfold is_u256, modulus; lia). lia.
Qed.

Lemma reads_cells it l w w' :
  is_load it = true -> length l = args (instructionInfo (m_instruction it)) -> Forall is_u256 l ->
  (forall t a, is_u256 a -> read_cell (m_instruction it) l t a -> cells w t a = cells w' t a) ->
  reads w (m_instruction it) l = reads w' (m_instruction it) l.
Proof using StateLaws0.
  intros Hl Hn Hw Hc. apply is_load_cases in Hl as [_ Hi].
  destruct Hi as [Hi|[Hi|Hi]]; rewrite Hi in *; cbv in Hn; destruct l as [|a [|n [|]]]; try discriminate Hn;
    apply Forall_cons in Hw as [Ha Hw].
  - by apply (Hc Storage a).
  - cbn [reads]. unfold readWord. apply (f_equal fromBigEndian). apply readBytes_ext; [|lia].
    intros b Hb Hlt. by apply (Hc Memory).
  - apply Forall_cons in Hw as [Hn' _]. cbn [reads]. apply law_hash; [done|done|]. intros Hle. unfold is_u256 in Hn'.
    apply readBytes_ext; [|lia]. intros b Hb Hlt. apply (Hc Memory); [done|]. split; [done|]. split; [done|lia].
Qed.

(** The distance to a cell, by way of a slot. *)
Lemma distance_cases a s p :
  is_u256 s -> is_u256 p ->
  let x := u256_sub a s in let y := u256_sub s p in
  is_u256 x /\ is_u256 y /\ (u256_sub a p = x + y /\ x + y < modulus \/ u256_sub a p = x + y - modulus /\ modulus <= x + y).
Proof using.
  intros Hs Hp x y. pose proof (u256_range (a - s)) as Hx. pose proof (u256_range (s - p)) as Hy.
  change (is_u256 x) in Hx. change (is_u256 y) in Hy. split; [done|]. split; [done|].
  assert (u256_sub a p = u256 (x + y)) as ->.
  { subst x y. unfold u256_sub, u256. rewrite <- Zplus_mod. apply (f_equal (fun z => z mod modulus)). lia. }
  clearbody x y. unfold is_u256 in *. destruct (Z_lt_le_dec (x + y) modulus) as [Hlt|Hle].
  - left. rewrite u256_id by (unfold is_u256; lia). done.
  - right. split; [|done]. replace (x + y) with (x + y - modulus + 1 * modulus) at 1 by lia. unfold u256.
    rewrite Z_mod_plus_full. apply Z.mod_small. lia.
Qed.

(** What is independent of a slot is not written by a store at the slot. *)
Lemma independent_cells v i args o t a :
  (forall c, is_u256 (v c)) -> is_u256 a -> independent v i args (slot o) -> read_cell i (map v args) t a ->
  covers v o t a = false.
Proof using.
  intros Hv Ha Hi Hr. apply not_true_is_false. intros Hc. unfold covers in Hc.
  apply andb_true_iff in Hc as [Ht Hc]. apply bool_decide_eq_true in Ht.
  destruct i; try done; destruct args as [|p [|n [|]]]; try done; cbn [map read_cell independent] in *.
  - destruct Hr as (-> & Hn & Hlt). apply Z.ltb_lt in Hc. pose proof (Hv n) as Hnw.
    destruct (distance_cases a (v (slot o)) (v p) (Hv _) (Hv _)) as (Hx & Hy & Hd).
    set (x := u256_sub a (v (slot o))) in *. set (y := u256_sub (v (slot o)) (v p)) in *. clearbody x y.
    rewrite (u2s_cases y Hy) in Hi. destruct (Z.ltb_spec y (2 ^ 255)); unfold is_u256, modulus in *; lia.
  - destruct Hr as (-> & Hlt). apply Z.ltb_lt in Hc.
    destruct (distance_cases a (v (slot o)) (v p) (Hv _) (Hv _)) as (Hx & Hy & Hd).
    set (x := u256_sub a (v (slot o))) in *. set (y := u256_sub (v (slot o)) (v p)) in *. clearbody x y.
    unfold is_u256, modulus in *. lia.
  - destruct Hr as (-> & ->). by apply Z.eqb_eq in Hc.
Qed.
End Reads.

(** ** The classes to generate *)

Section Roots.
Context {W H : Type} `{!World W H} `{!WorldLaws W H} `{!StateWorld W} {keccak256 : list Z -> Z}
  `{!StateLaws W H keccak256}.
Context (t : RuleTable) (rules : valid_rules t).
Context (w0 : W) (st0 : list Z) (ω : Z -> W).
Context (good0 : good w0) (goodω : forall s, good (ω s)) (words0 : Forall is_u256 st0).

Local Abbreviation known := (known (blockOp w0) (blockSeqop w0 ω) (blockPushed st0)).
Local Abbreviation generates := (generates w0 st0 ω).
Context (bound0 : Z).

Local Abbreviation settled := (ready bound0 (fun _ => False)).

(** The dependencies have been added, and the final classes. *)
Definition prepared (g g' : CSECodeGenerator) (final : list Z) : Prop :=
  exists l s, g' = set_neededBy l (set_finalClasses s g) /\ incl (m_neededBy g) l /\ forall c, In c final -> c ∈ s.

Lemma covered_prepared g cl v l s cl' v' c :
  shape cl -> grouped_ok cl (g_storeOperations g) -> extends cl cl' v v' -> incl (m_neededBy g) l ->
  covered g cl v c -> covered (set_neededBy l (set_finalClasses s g)) cl' v' c.
Proof using.
  intros Hs Hg He Hl Hc. apply (covered_mono (set_finalClasses s g) cl v); [done|exact Hg|done|by exists l|exact Hc].
Qed.

Lemma root_generates d c g cl v :
  known cl v -> settled g cl v -> asked_class bound0 cl c -> c < Z.of_nat d ->
  generates (fun n => addDependencies d n t c) g cl v (fun _ g' cl' v' =>
    more_needed g g' /\ settled g' cl' v' /\ covered g' cl' v' c).
Proof using All. intros Hk Hr Hc Hd. by apply (addDependencies_follows (keccak256 := keccak256)). Qed.

Lemma addAllDependencies_generates d ids : forall g cl v,
  known cl v -> settled g cl v -> Forall (fun c => asked_class bound0 cl c /\ c < Z.of_nat d) ids ->
  generates (fun n => addAllDependencies d n t ids) g cl v (fun _ g' cl' v' =>
    more_needed g g' /\ settled g' cl' v' /\ Forall (covered g' cl' v') ids).
Proof using All.
  induction ids as [|c ids IH]; intros g cl v Hk Hr Hids; cbn [addAllDependencies].
  { apply generates_ret; [done|]. split; [apply more_needed_refl|]. split; [done|constructor]. }
  apply Forall_cons in Hids as [[Hc Hd] Hids]. eapply generates_bind; [by apply root_generates|].
  intros _ g1 cl1 v1 Hk1 He1 _ (Hm1 & Hr1 & Hc1).
  eapply generates_last; [apply (IH g1 cl1 v1 Hk1 Hr1)|].
  { eapply Forall_impl; [exact Hids|]. intros x [Hx Hxd]. split; [by eapply asked_class_extends|done]. }
  intros _ g2 cl2 v2 Hk2 He2 (Hm2 & Hr2 & Hall). split; [by eapply more_needed_trans|]. split; [done|].
  constructor; [|done]. destruct Hk1 as (_ & _ & Hs1). eapply covered_mono; try done. by apply Hr1.
Qed.

Lemma addTargets_generates d targets : forall g cl v,
  known cl v -> settled g cl v -> Forall (fun c => asked_class bound0 cl c /\ c < Z.of_nat d) targets ->
  generates (fun n => addTargets d n t targets) g cl v (fun _ g' cl' v' =>
    prepared g g' (targets ++ elements (m_finalClasses g)) /\ settled g' cl' v').
Proof using All.
  induction targets as [|c targets IH]; intros g cl v Hk Hr Hids; cbn [addTargets].
  { apply generates_ret; [done|]. split; [|done]. exists (m_neededBy g), (m_finalClasses g).
    split; [by destruct g|]. split; [apply incl_refl|]. intros c Hc. by apply elem_of_elements, list_elem_of_In. }
  apply Forall_cons in Hids as [[Hc Hd] Hids]. apply generates_modify.
  set (g0 := set_finalClasses ({[ c ]} ∪ m_finalClasses g) g).
  assert (settled g0 cl v) as Hr0 by (destruct Hr as [H1 H2 H3]; by split).
  eapply generates_bind; [by apply root_generates|].
  intros _ g1 cl1 v1 Hk1 He1 _ ((l1 & -> & Hl1) & Hr1 & Hc1).
  eapply generates_last; [apply (IH _ cl1 v1 Hk1 Hr1)|].
  { eapply Forall_impl; [exact Hids|]. intros x [Hx Hxd]. split; [by eapply asked_class_extends|done]. }
  intros _ g2 cl2 v2 Hk2 He2 ((l2 & s2 & -> & Hl2 & Hs2) & Hr2). split; [|done].
  exists l2, s2. split; [done|]. split; [by eapply incl_tran|]. intros x Hx. apply Hs2, in_app_iff.
  apply in_app_iff in Hx as [[<-|Hx]|Hx]; [right|by left|right]; apply list_elem_of_In, elem_of_elements; cbn.
  - set_solver.
  - apply list_elem_of_In, elem_of_elements in Hx. set_solver.
Qed.

(** The classes that are needed, and those with a sequence number among them in order. *)
Definition is_needed (g : CSECodeGenerator) (c : Z) : Prop :=
  exists a b, In (a, b) (m_neededBy g) /\ (c = a \/ c = b).

Lemma needed_ids g c : In c (concat (map (fun p : Z * Z => [fst p; snd p]) (m_neededBy g))) <-> is_needed g c.
Proof using.
  rewrite in_concat. unfold is_needed. split.
  - intros (l & Hl & Hc). apply in_map_iff in Hl as ([a b] & <- & Hin). exists a, b. split; [done|].
    cbn in Hc. destruct Hc as [<-|[<-|[]]]; auto.
  - intros (a & b & Hin & Hc). exists [a; b]. split; [apply in_map_iff; by exists (a, b)|].
    cbn. destruct Hc as [->| ->]; auto.
Qed.

Lemma collectSequenced_spec cl i ids : forall found g,
  (forall c, In c ids -> in_range cl c) ->
  yields cl (collectSequenced i ids found) g (fun found' g' => g' = g /\ forall q c,
    (q, c) ∈ found' <-> (q, c) ∈ found \/
      (In c ids /\ q <> 0 /\ exists e, representative (m_representatives cl) c = Some e /\ sequenceNumber e = q)).
Proof using.
  induction ids as [|c ids IH]; intros found g Hin; cbn [collectSequenced].
  { apply yields_ret. split; [done|]. intros q c. cbn. tauto. }
  unfold representativeOf. apply yields_query. intros e He.
  destruct (Z.eqb_spec (sequenceNumber e) 0) as [Hq|Hq].
  - eapply yields_last; [apply IH; intros x Hx; apply Hin; by right|]. intros found' g' [-> Hf]. split; [done|].
    intros q x. rewrite Hf. cbn [In]. split; [tauto|].
    intros [?|([<-|?] & Hn & e' & He' & Hq')]; [by left|congruence|right; by eauto].
  - apply yields_assert. intros _. eapply yields_last; [apply IH; intros x Hx; apply Hin; by right|].
    intros found' g' [-> Hf]. split; [done|]. intros q x.
    rewrite Hf, elem_of_union, elem_of_singleton. cbn [In]. split.
    + intros [[[= -> ->]|?]|?]; [right|by left|right; tauto]. split; [by left|]. split; [done|]. by exists e.
    + intros [?|([<-|?] & Hn & e' & He' & Hq')]; [tauto|left; left; congruence|right; by eauto].
Qed.
End Roots.
