(* ===== verification/CSESequence.v ===== *)
(** * CSESequence: the loads and stores in their order

    The loads and stores that are needed are generated in the order of their sequence numbers.
    A load then reads what its class stands for, although stores before it may be missing: the
    last one to write a cell it reads is needed ([addDependencies]).  In the end the cells
    are those the block leaves, since the last store of every slot is needed. *)

From stdpp Require Import sorting.
From S2P Require Import Prelude U256 CommonData Instruction AssemblyItem SemanticInformation Interpreter Pattern RuleList SimplificationRules ExpressionClasses KnownState CommonSubexpressionEliminator Machine RuleSound StateWorld StoreOrder MatchSound ClassSound WordClasses RuleWeight ClassShape ClassQueries KnownSound KnownFeed KnownBlock CSEDependencies CSEStack CSEGenerate CSECode.

#[local] Opaque ruleSet Rules readWord readBytes writeWord toBigEndian fromBigEndian.

(** ** Positions in a list *)

(** A property of no element from a position on. *)
Lemma filter_before {A} (P : A -> Prop) `{!forall x, Decision (P x)} l n :
  (forall m x, l !! m = Some x -> P x -> (m < n)%nat) -> filter P l = filter P (take n l).
Proof.
  intros Hb. rewrite <- (take_drop n l) at 1. rewrite filter_app.
  assert (filter P (drop n l) = []) as ->; [|apply app_nil_r].
  destruct (filter P (drop n l)) as [|x k] eqn:E; [done|]. assert (x ∈ filter P (drop n l)) as Hx by (rewrite E; by left).
  apply list_elem_of_filter in Hx as [HP Hx]. apply list_elem_of_lookup in Hx as [i Hx].
  rewrite lookup_drop in Hx. specialize (Hb _ _ Hx HP). lia.
Qed.

(** A property of one more element, after the others. *)
Lemma filter_next {A} (P Q : A -> Prop) `{!forall x, Decision (P x)} `{!forall x, Decision (Q x)} l n x :
  l !! n = Some x -> (forall m y, l !! m = Some y -> P y -> (m < n)%nat) ->
  (forall m y, l !! m = Some y -> Q y <-> P y \/ m = n) -> filter Q l = filter P l ++ [x].
Proof.
  intros Hx HP HQ. rewrite (filter_before P l n HP).
  rewrite (filter_before Q l (S n)).
  2: { intros m y Hy Hq. apply (HQ m y Hy) in Hq as [Hp| ->]; [specialize (HP m y Hy Hp)|]; lia. }
  rewrite (take_S_r l n x Hx), filter_app.
  assert (filter Q [x] = [x]) as ->.
  { rewrite filter_cons_True, filter_nil; [done|]. apply (HQ n x Hx). by right. }
  f_equal. apply filter_ext_In. intros y Hy. apply list_elem_of_In, list_elem_of_lookup in Hy as [m Hy].
  apply lookup_take_Some in Hy as [Hy Hm]. rewrite (HQ m y Hy). split; [intros [|]; [done|lia]|by left].
Qed.

(** The elements of a sorted list around one of them. *)
Lemma sorted_middle pre p post :
  StronglySorted pair_le (pre ++ p :: post) -> NoDup (pre ++ p :: post) ->
  ~ In p pre /\ (forall q, In q pre -> fst q <= fst p) /\
  (forall q, In q (pre ++ p :: post) -> fst q < fst p -> In q pre).
Proof.
  intros Hs Hn. apply StronglySorted_app in Hs as (Hpre & _ & Hpost). apply NoDup_app in Hn as (_ & Hd & _).
  split; [intros Hp; apply list_elem_of_In in Hp; specialize (Hd p Hp); by destruct Hd; left|]. split.
  - intros q Hq. specialize (Hpre q p). unfold pair_le in Hpre.
    assert (q ∈ pre) as Hq' by by apply list_elem_of_In. specialize (Hpre Hq' ltac:(by left)). lia.
  - intros q Hq Hlt. apply in_app_or in Hq as [Hq|[<-|Hq]]; [done|lia|].
    apply StronglySorted_inv in Hpost as [_ Hpost]. rewrite List.Forall_forall in Hpost. specialize (Hpost q Hq).
    unfold pair_le in Hpost. lia.
Qed.

(** The last element of a list with a key. *)
Lemma last_in {A} (l : list A) : l <> [] -> exists x, last l = Some x /\ In x l.
Proof.
  intros Hl. destruct (last l) as [x|] eqn:E; [|by apply last_None in E].
  exists x. split; [done|]. apply last_Some in E as [l' ->]. apply in_or_app. right. by left.
Qed.

(** ** The stores and what they mean *)

Section Sequence.
Context {W H : Type} `{!World W H} `{!WorldLaws W H} `{!StateWorld W} {keccak256 : list Z -> Z}
  `{!StateLaws W H keccak256}.
Context (w0 : W) (st0 : list Z) (ω : Z -> W).
Context (good0 : good w0) (goodω : forall s, good (ω s)) (words0 : Forall is_u256 st0).

Local Abbreviation known := (known (blockOp w0) (blockSeqop w0 ω) (blockPushed st0)).

(** The part of the history that the generator relies on. *)
Record block_stores (cl : ExpressionClasses) (v : Z -> Z) (ops : list Store) : Prop := {
  bs_stored n o x : ops !! n = Some (o, x) -> stored cl n o x;
  bs_world n : (n <= length ops)%nat ->
    cells_eq (cells (ω (2 * Z.of_nat n + 1))) (apply_stores v (take n ops) (cells w0));
  bs_all i e it : representative (m_representatives cl) i = Some e -> item e = Some it -> is_store it = true ->
    exists o, In o ops /\ expression (fst o) = i;
  bs_bound i e : representative (m_representatives cl) i = Some e ->
    sequenceNumber e <= 2 * Z.of_nat (length ops) + 1 }.

Lemma history_stores s cl v ops cl' v' :
  history w0 ω s cl v ops -> extends cl cl' v v' -> grows cl cl' -> shape cl' -> block_stores cl' v' ops.
Proof using.
  intros [Hb Hq Hst Hwd Hall Hord] He Hg Hs. split.
  - intros n o x Hn. by eapply stored_extends, Hst.
  - intros n Hn tg a Ha. rewrite (apply_stores_values v v'); [by apply Hwd|]. apply Forall_forall. intros [o x] Hin.
    apply list_elem_of_lookup in Hin as [m Hm]. apply lookup_take_Some in Hm as [Hm _].
    destruct (Hst m o x Hm). split; by apply (ext_value _ _ _ _ He).
  - intros i e it Hi Hit Hsto. apply representative_lookup in Hi as [Hi H0].
    destruct (grows_lookup _ _ _ _ Hg Hi) as [Hi'|Hz].
    + destruct (Hall _ e it Hi' Hit Hsto) as (o & Ho & Heq). exists o. split; [done|]. rewrite Heq. lia.
    + destruct (sh_rep cl' Hs _ e Hi) as (it' & Hit' & Hask & _). assert (it' = it) as -> by congruence.
      by destruct (store_item_asked it _ _ Hsto Hask).
  - intros i e Hi. apply representative_lookup in Hi as [Hi H0].
    destruct (grows_lookup _ _ _ _ Hg Hi) as [Hi'|Hz]; [|lia]. specialize (Hb _ _ Hi'). lia.
Qed.

Context (cl : ExpressionClasses) (v : Z -> Z) (ops : list Store).
Context (known_cl : known cl v) (stores : block_stores cl v ops).

(** A store of the block, by its position. *)
Lemma store_class n o x : ops !! n = Some (o, x) ->
  store_sequenceNumber o = 2 * Z.of_nat n + 2 /\ target o <> Invalid /\
  exists r it, representative (m_representatives cl) (expression o) = Some r /\ item r = Some it /\
    m_type it = Operation /\ m_instruction it = store_instruction (target o) /\ is_store it = true /\
    e_arguments r = [slot o; x] /\ sequenceNumber r = store_sequenceNumber o.
Proof using stores.
  intros Hn. destruct (bs_stored _ _ _ stores n o x Hn) as [Hsl Hx Ht Hq (r & Hr & (it & Hit & He & Ha & Hs))].
  split; [done|]. split; [done|]. exists r, it. apply item_eqb_spec in He as [Hty Hi].
  assert (m_type it = Operation) as Hop by done. rewrite decide_True in Hi by done. cbn [m_instruction opItem] in Hi.
  split; [done|]. split; [done|]. split; [done|]. split; [done|]. split; [|split; [done|lia]].
  unfold is_store. rewrite Hop, Hi. by destruct (target o).
Qed.

Lemma store_index o : In o ops -> exists n, ops !! n = Some o.
Proof using. intros Hin. by apply list_elem_of_In, list_elem_of_lookup in Hin. Qed.

Lemma store_unique n m o o' : ops !! n = Some o -> ops !! m = Some o' ->
  expression (fst o) = expression (fst o') -> n = m.
Proof using stores.
  destruct o as [o x], o' as [o' x']. cbn [fst]. intros Hn Hm He.
  destruct (store_class n o x Hn) as (Hq & _ & r & it & Hr & _ & _ & _ & _ & _ & Hs).
  destruct (store_class m o' x' Hm) as (Hq' & _ & r' & it' & Hr' & _ & _ & _ & _ & _ & Hs').
  rewrite He in Hr. assert (r' = r) as -> by congruence. lia.
Qed.

Lemma ops_class o : In o ops -> exists r it,
  representative (m_representatives cl) (expression (fst o)) = Some r /\ item r = Some it /\
  is_store it = true /\ sequenceNumber r <> 0.
Proof using stores.
  intros Hin. destruct (store_index o Hin) as [n Hn]. destruct o as [o x].
  destruct (store_class n o x Hn) as (Hq & _ & r & it & Hr & Hit & _ & _ & Hs & _ & Hsq). exists r, it.
  split; [done|]. split; [done|]. split; [done|lia].
Qed.

(** ** What is needed *)

Context (bound0 : Z) (g0 : CSECodeGenerator) (settled0 : ready bound0 (fun _ => False) g0 cl v)
  (groups0 : grouped (map fst ops) (g_storeOperations g0))
  (fresh0 : forall o, In o ops -> ~ is_Some (m_classPositions g0 !! expression (fst o))).

Lemma needed_depends c : is_needed g0 c -> m_classPositions g0 !! c = None ->
  exists e it, representative (m_representatives cl) c = Some e /\ item e = Some it /\ depends g0 v c e it.
Proof using settled0.
  intros (a & b & Hin & Hc) Hn. destruct (rd_needed _ _ _ _ _ settled0 a b Hin) as (_ & _ & Ha & [Hb|[]]).
  assert (covered g0 cl v c) as [[? Hk]|Hcov] by (destruct Hc as [->| ->]; done); [congruence|done].
Qed.

(** The group of a store. *)
Lemma store_group n o x : ops !! n = Some (o, x) -> exists front others,
  In (key o, front :: others) (g_storeOperations g0) /\ StronglySorted earlier (front :: others) /\
  In o (front :: others) /\
  forall o', In o' (front :: others) -> key o' = key o /\ exists n' x', ops !! n' = Some (o', x').
Proof using groups0 settled0.
  intros Hn. assert (In o (map fst ops)) as Hin.
  { apply in_map_iff. exists (o, x). split; [done|]. apply list_elem_of_In. by apply list_elem_of_lookup_2 in Hn. }
  destruct groups0 as (_ & Hs & Ho). destruct (Ho o Hin) as [s Hgs]. destruct (Hs _ _ Hgs) as [-> Hne].
  destruct (filter _ (map fst ops)) as [|front others] eqn:E; [done|]. exists front, others. split; [done|].
  destruct (rd_groups _ _ _ _ _ settled0 _ _ Hgs) as (_ & Hsort & _). split; [done|]. rewrite <- E. split.
  - apply list_elem_of_In, list_elem_of_filter. split; [done|]. by apply list_elem_of_In.
  - intros o' Ho'. apply list_elem_of_In, list_elem_of_filter in Ho' as [Hk Ho']. split; [done|].
    apply list_elem_of_In, in_map_iff in Ho' as ([o2 x'] & Heq & Hin'). cbn in Heq. subst o2.
    apply list_elem_of_In, list_elem_of_lookup in Hin' as [n' Hn']. by exists n', x'.
Qed.

Lemma front_first front others o :
  StronglySorted earlier (front :: others) -> In o (front :: others) ->
  store_sequenceNumber front <= store_sequenceNumber o.
Proof using.
  intros Hs [<-|Hin]; [done|]. apply StronglySorted_inv in Hs as [_ Hs]. rewrite List.Forall_forall in Hs.
  specialize (Hs o Hin). unfold earlier in Hs. lia.
Qed.

(** A store before a load does not write what the load reads, or a store to the same slot, not
    before it, is needed. *)
Lemma load_store c e it n o x :
  is_needed g0 c -> m_classPositions g0 !! c = None -> representative (m_representatives cl) c = Some e ->
  item e = Some it -> is_load it = true -> ops !! n = Some (o, x) -> target o = target_of (m_instruction it) ->
  store_sequenceNumber o < sequenceNumber e ->
  independent v (m_instruction it) (e_arguments e) (slot o) \/
  exists n' o' x', ops !! n' = Some (o', x') /\ key o' = key o /\ (n <= n')%nat /\
    store_sequenceNumber o' < sequenceNumber e /\ is_needed g0 (expression o').
Proof using stores groups0 settled0.
  intros Hc Hn Hr Hit Hload Ho Ht Hlt.
  destruct (needed_depends c Hc Hn) as (e' & it' & Hr' & Hit' & _ & _ & Hd).
  assert (e' = e) as -> by congruence. assert (it' = it) as -> by congruence.
  destruct (store_group n o x Ho) as (front & others & Hg & Hs & Hin & Hall).
  pose proof (front_first _ _ _ Hs Hin) as Hfront. unfold key in Hg. rewrite Ht in Hg.
  destruct (Hd Hload (slot o) front others Hg ltac:(lia)) as [Hi|Hlast]; [by left|right].
  destruct (latestStore_spec front others (sequenceNumber e) Hs ltac:(lia)) as (o' & Hin' & Heq & Hlt' & Hmax).
  destruct (Hall o' Hin') as (Hk & n' & x' & Hn'). exists n', o', x'. split; [done|]. split; [done|].
  specialize (Hmax o Hin Hlt). destruct (store_class n o x Ho) as [Hq _].
  destruct (store_class n' o' x' Hn') as [Hq' _]. split; [lia|]. split; [done|].
  exists (latestStore front others (sequenceNumber e)), c. split; [done|]. left. by rewrite Heq.
Qed.

(** The last store to write a cell is needed, when the last store of every slot is. *)
Lemma last_store_needed tg a n o x :
  Forall (covered g0 cl v) (lastStores (g_storeOperations g0)) ->
  ops !! n = Some (o, x) -> covers v o tg a = true ->
  (forall m o', ops !! m = Some o' -> covers v (fst o') tg a = true -> (m <= n)%nat) ->
  is_needed g0 (expression o).
Proof using stores groups0 settled0 fresh0.
  intros Hroots Hn Hcov Hmax. destruct (store_group n o x Hn) as (front & others & Hg & Hs & Hin & Hall).
  destruct (last_in (front :: others) ltac:(done)) as (o2 & Hlast & Hin2).
  destruct (Hall o2 Hin2) as (Hk & n2 & x2 & Hn2).
  destruct (store_class n o x Hn) as (Hq & _). destruct (store_class n2 o2 x2 Hn2) as (Hq2 & _ & r & it & Hr & Hit & _ & _ & _ & Hargs & _).
  assert (covers v o2 tg a = true) as Hcov2.
  { unfold covers, key in *. injection Hk as -> ->. done. }
  specialize (Hmax n2 (o2, x2) Hn2 Hcov2).
  assert (store_sequenceNumber o <= store_sequenceNumber o2) as Hle.
  { apply last_Some in Hlast as [l' Hl]. rewrite Hl in Hs, Hin. apply StronglySorted_app in Hs as (Hs & _ & _).
    apply in_app_or in Hin as [Hin|[->|[]]]; [|done]. specialize (Hs o o2). unfold earlier in Hs.
    apply Z.lt_le_incl, Hs; [by apply list_elem_of_In|by left]. }
  assert (n2 = n) as -> by lia. assert (o2 = o) as -> by congruence.
  rewrite List.Forall_forall in Hroots. destruct (Hroots (expression o)) as [Hk0|(e & it' & He & Hit' & _ & Ha & _)].
  - unfold lastStores. apply list_elem_of_In, list_elem_of_omap. exists (key o, front :: others).
    split; [by apply list_elem_of_In|]. cbn [snd]. by rewrite Hlast.
  - destruct (fresh0 (o, x)); [|done]. apply list_elem_of_In. by eapply list_elem_of_lookup_2.
  - assert (e = r) as -> by congruence. exists (slot o), (expression o). split; [|by right]. apply Ha. rewrite Hargs. by left.
Qed.

(** ** Generating in order *)

Context (L : list (Z * Z)) (L_sorted : StronglySorted pair_le L) (L_unique : NoDup L)
  (L_spec : forall q c, In (q, c) L <-> is_needed g0 c /\ q <> 0 /\
     exists e, representative (m_representatives cl) c = Some e /\ sequenceNumber e = q).

Definition store_pair (o : Store) : Z * Z := (store_sequenceNumber (fst o), expression (fst o)).

Lemma store_in_order n o x : ops !! n = Some (o, x) -> is_needed g0 (expression o) -> In (store_pair (o, x)) L.
Proof using stores L_spec.
  intros Hn Hneed. destruct (store_class n o x Hn) as (Hq & _ & r & it & Hr & _ & _ & _ & _ & _ & Hs).
  apply L_spec. split; [done|]. split; [cbn; lia|]. by exists r.
Qed.

(** The classes generated: of the stores, those of the list. *)
Record in_turn (pre : list (Z * Z)) (P : gmap Z (gset Z)) : Prop := {
  it_stores o : In o ops -> is_generated P o <-> In (store_pair o) pre;
  it_keys c : is_Some (m_classPositions g0 !! c) -> is_Some (P !! c) }.

Lemma in_turn_earlier pre P q c post m o :
  L = pre ++ (q, c) :: post -> in_turn pre P -> ops !! m = Some o -> is_generated P o -> 2 * Z.of_nat m + 2 <= q.
Proof using stores L_sorted L_unique.
  intros HL [Hs _] Hm Hg. assert (In o ops) as Hin by (apply list_elem_of_In; by eapply list_elem_of_lookup_2).
  apply (Hs o Hin) in Hg. rewrite HL in L_sorted, L_unique.
  destruct (sorted_middle _ _ _ L_sorted L_unique) as (_ & Hle & _). specialize (Hle _ Hg).
  destruct o as [o x]. destruct (store_class m o x Hm) as (Hq & _). cbn in Hle. lia.
Qed.

Lemma load_may_generate pre P q c post e it :
  L = pre ++ (q, c) :: post -> in_turn pre P -> P !! c = None ->
  representative (m_representatives cl) c = Some e -> item e = Some it -> is_load it = true ->
  forall w, generated_world w0 v ops P w -> reads w (m_instruction it) (map v (e_arguments e)) = v c.
Proof using All.
  intros HL Ht HP Hr Hit Hload w [Hgood Henv Hcells]. pose proof Ht as [Hst Hkeys].
  destruct (class_value w0 st0 ω cl v c e known_cl Hr) as (it' & Hit' & Hask & _ & Hrange & Hlen & Hv).
  assert (it' = it) as -> by congruence.
  destruct (load_sequence _ _ _ Hload Hask) as (Hop & Hpos & Hodd). specialize (Hlen Hop).
  assert (Hq : In (q, c) L) by (rewrite HL; apply in_or_app; right; by left).
  apply L_spec in Hq as (Hneed & _ & e' & Hr' & Hq). assert (e' = e) as -> by congruence.
  rewrite Hv, (load_value w0 st0 ω) by by rewrite ?length_map. subst q.
  assert (forall x, is_u256 (v x)) as Hu by (intros x; by eapply known_word).
  assert (exists n, (n <= length ops)%nat /\ sequenceNumber e = 2 * Z.of_nat n + 1) as (n & Hn & Hqn).
  { pose proof (bs_bound _ _ _ stores c e Hr) as Hb. exists (Z.to_nat (sequenceNumber e / 2)).
    pose proof (Zdiv2_odd_eqn (sequenceNumber e)) as Hd. rewrite Hodd, Z.div2_div in Hd. lia. }
  apply (reads_cells it); [done|by rewrite length_map|apply Forall_map, Forall_true; intros x; apply Hu|].
  intros tg a Ha Hread. rewrite Hcells, Hqn, (bs_world _ _ _ stores n Hn) by done.
  rewrite (filter_before (is_generated P) ops n).
  2: { intros m o Hm Hg. pose proof (in_turn_earlier _ _ _ _ _ _ _ HL Ht Hm Hg). lia. }
  apply apply_stores_filter. intros [o x] Hlast.
  apply lastWriter_spec in Hlast as (m & Hm & Hcov & Hmax). apply lookup_take_Some in Hm as [Hm Hmn].
  destruct (store_class m o x Hm) as (Hqm & _). cbn [fst] in Hcov.
  assert (target o = target_of (m_instruction it)) as Htg.
  { unfold covers in Hcov. apply andb_true_iff in Hcov as [Hcov _]. apply bool_decide_eq_true in Hcov.
    apply is_load_cases in Hload as [_ Hi]. rewrite <- Hcov. clear - Hi Hread Hlen.
    destruct Hi as [Hi|[Hi|Hi]]; rewrite Hi in *; cbv in Hlen;
      destruct (e_arguments e) as [|? [|? [|]]]; try discriminate Hlen; cbn in Hread; by destruct Hread. }
  assert (m_classPositions g0 !! c = None) as Hn0.
  { apply eq_None_not_Some. intros Hk. apply Hkeys in Hk. rewrite HP in Hk. by destruct Hk. }
  destruct (load_store c e it m o x Hneed Hn0 Hr Hit Hload Hm Htg ltac:(lia)) as [Hi|(m' & o' & x' & Hm' & Hk & Hle & Hlt & Hneed')].
  - by rewrite (independent_cells v _ _ o tg a Hu Ha Hi Hread) in Hcov.
  - destruct (store_class m' o' x' Hm') as (Hqm' & _).
    assert (covers v o' tg a = true) as Hcov' by (unfold covers, key in *; injection Hk as -> ->; done).
    assert (m' <= m)%nat as Hle'.
    { apply (Hmax m' (o', x')); [|done]. apply lookup_take_Some. split; [done|lia]. }
    assert (m' = m) as -> by lia. rewrite Hm in Hm'. injection Hm' as <- <-.
    apply Hst; [apply list_elem_of_In; by eapply list_elem_of_lookup_2|].
    pose proof (store_in_order m o x Hm Hneed') as HinL. rewrite HL in HinL, L_sorted, L_unique.
    destruct (sorted_middle _ _ _ L_sorted L_unique) as (_ & _ & Hin). apply Hin; [done|]. cbn. lia.
Qed.

Lemma store_may_generate pre P q c post e it :
  L = pre ++ (q, c) :: post -> in_turn pre P ->
  representative (m_representatives cl) c = Some e -> item e = Some it -> is_store it = true ->
  exists o x, In (o, x) ops /\ expression o = c /\ e_arguments e = [slot o; x] /\ target o <> Invalid /\
    m_instruction it = store_instruction (target o) /\
    filter (fun o' => is_generated P o' \/ expression (fst o') = c) ops = filter (is_generated P) ops ++ [(o, x)].
Proof using All.
  intros HL Ht Hr Hit Hs. destruct (bs_all _ _ _ stores c e it Hr Hit Hs) as ([o x] & Hin & Ho). cbn in Ho.
  destruct (store_index _ Hin) as [n Hn].
  destruct (store_class n o x Hn) as (Hq & Htg & r & it' & Hr' & Hit' & _ & Hi & _ & Hargs & Hsq).
  rewrite Ho in Hr'. assert (r = e) as -> by congruence. assert (it' = it) as -> by congruence.
  assert (Hqc : In (q, c) L) by (rewrite HL; apply in_or_app; right; by left).
  apply L_spec in Hqc as (_ & _ & e' & Hr2 & Hqe). assert (e' = e) as -> by congruence.
  exists o, x. split; [done|]. split; [done|]. split; [done|]. split; [done|]. split; [done|].
  apply (filter_next _ _ _ n); [done| |].
  - intros m y Hm Hg. pose proof (in_turn_earlier _ _ _ _ _ _ _ HL Ht Hm Hg) as Hle.
    assert (m <> n); [|lia]. intros ->. assert (y = (o, x)) as -> by congruence.
    apply (it_stores _ _ Ht) in Hg; [|done]. unfold store_pair in Hg. cbn [fst] in Hg.
    rewrite Ho, <- Hsq, Hqe in Hg. rewrite HL in L_sorted, L_unique.
    by destruct (sorted_middle _ _ _ L_sorted L_unique) as (Hno & _).
  - intros m y Hm. split; (intros [Hg|He]; [by left|right]).
    + apply (store_unique m n y (o, x) Hm Hn). cbn [fst]. congruence.
    + subst m. assert (y = (o, x)) as -> by congruence. done.
Qed.

Lemma turn_may_generate pre P q c post e it :
  L = pre ++ (q, c) :: post -> in_turn pre P -> P !! c = None ->
  representative (m_representatives cl) c = Some e -> item e = Some it -> is_sequenced it = true ->
  may_generate w0 v ops P c e it.
Proof using All.
  intros HL Ht HP Hr Hit Hs. split.
  - intros Hload. by eapply load_may_generate.
  - destruct (is_store it) eqn:E; [by eapply store_may_generate|].
    intros o Ho Heq. destruct (ops_class o Ho) as (r & it' & Hr' & Hit' & Hst & _). rewrite Heq in Hr'.
    assert (r = e) as -> by congruence. assert (it' = it) as -> by congruence. congruence.
Qed.

(** The next class is generated. *)
Lemma in_turn_next pre P q c post P' :
  L = pre ++ (q, c) :: post -> in_turn pre P -> adds cl P P' c (fun k => k = c /\ true = true) -> is_Some (P' !! c) ->
  in_turn (pre ++ [(q, c)]) P'.
Proof using All.
  intros HL [Hs Hk] [H1 H2] Hc. split; [|auto]. intros o Ho. rewrite in_app_iff, <- (Hs o Ho).
  assert (Hqc : In (q, c) L) by (rewrite HL; apply in_or_app; right; by left).
  apply L_spec in Hqc as (_ & _ & e & Hr & Hq).
  destruct (store_index o Ho) as [n Hn]. destruct o as [o x].
  destruct (store_class n o x Hn) as (_ & _ & r & _ & Hr' & _ & _ & _ & _ & _ & Hsq).
  assert (expression o = c -> store_sequenceNumber o = q) as Hoq by (intros E; rewrite E in Hr'; congruence).
  unfold store_pair, is_generated in *. cbn [fst] in *. split.
  - intros Hg. destruct (H2 _ Hg) as [|(_ & [[E _]|Hp])]; [by left|right; left|].
    + by rewrite E, (Hoq E).
    + exfalso. by apply (pure_store cl ops ops_class (o, x) _ Ho eq_refl).
  - intros [Hg|[[= E1 E2]|[]]]; [by apply H1|by rewrite <- E2].
Qed.

(** ** The target stack *)

Context (lo : Z) (tgt : gmap Z Z) (lo_start : lo <= 1) (d : nat) (depth : bound0 <= Z.of_nat d).

Local Abbreviation placed := (placed w0 st0 cl v lo tgt).

Lemma needed_depth c : is_needed g0 c -> 0 <= c < Z.of_nat d.
Proof using depth settled0.
  intros (a & b & Hin & Hc). destruct (rd_needed _ _ _ _ _ settled0 a b Hin) as ([Ha Has] & [Hb Hbs] & _).
  unfold in_range in *. destruct Hc as [->| ->]; lia.
Qed.

(** What has been generated when the code so far has been run. *)
Definition output (pre : list (Z * Z)) (level : Z) (g : CSECodeGenerator) : Prop :=
  exists st w, placed level g st w /\ generated_world w0 v ops (m_classPositions g) w /\
    in_turn pre (m_classPositions g).

Lemma generateSequenced_yields post : forall pre level g,
  L = pre ++ post -> output pre level g ->
  yields cl (generateSequenced d post) g (fun _ g' => output L level g').
Proof using All.
  induction post as [|[q c] post IH]; intros pre level g HL (st & w & Hp & Hw & Ht); cbn [generateSequenced].
  { rewrite app_nil_r in HL. subst pre. apply yields_ret. by exists st, w. }
  assert (HL' : L = (pre ++ [(q, c)]) ++ post) by by rewrite <- app_assoc.
  apply yields_get.
  apply (yields_bind _ _ _ _ (fun _ g' => output (pre ++ [(q, c)]) level g')); [|intros _ g' Hg'; by apply (IH _ level g' HL')].
  case_bool_decide as Hgen.
  { apply yields_ret. exists st, w. split; [done|]. split; [done|]. eapply in_turn_next; try done. by apply adds_keys. }
  assert (Hqc : In (q, c) L) by (rewrite HL; apply in_or_app; right; by left).
  apply L_spec in Hqc as (Hneed & _ & e & Hr & _).
  eapply yields_last; [apply (generateClassElement_yields (keccak256 := keccak256) w0 st0 ω cl v lo tgt lo_start good0 goodω
    words0 ops known_cl ops_class d c true level g st w); [by apply needed_depth|done|done|]|].
  - intros _ e' it Hr' Hit Hs. eapply turn_may_generate; try done. by apply eq_None_not_Some.
  - intros _ g' ((st' & w' & Hp' & Hw' & Ha) & Hc). exists st', w'. split; [done|]. split; [done|]. by eapply in_turn_next.
Qed.

(** A class without loads and stores that have not been generated. *)
Lemma pure_yields c level g : asked_class bound0 cl c -> output L level g ->
  yields cl (generateClassElement d c false) g (fun _ g' => output L level g').
Proof using All.
  intros [Hc0 Hcs] (st & w & Hp & Hw & Ht).
  eapply yields_last; [apply (generateClassElement_yields (keccak256 := keccak256) w0 st0 ω cl v lo tgt lo_start good0 goodω
    words0 ops known_cl ops_class d c false level g st w); [unfold in_range in Hc0; lia|done|done|done]|].
  intros _ g' ((st' & w' & Hp' & Hw' & [H1 H2]) & Hc). exists st', w'. split; [done|]. split; [done|].
  destruct Ht as [Hs Hk]. split; [|auto]. intros o Ho. rewrite <- (Hs o Ho). symmetry.
  apply (adds_generated cl ops ops_class _ _ c o); [|done]. split; [done|].
  intros k Hk'. destruct (H2 k Hk') as [|(? & [[_ ?]|?])]; [by left|done|right; split; [done|by right]].
Qed.

Lemma output_same level g g' st w : in_turn L (m_classPositions g) -> generated_world w0 v ops (m_classPositions g) w ->
  placed level g' st w -> same_keys (m_classPositions g) (m_classPositions g') -> output L level g'.
Proof using.
  intros [Hs Hk] Hw Hp' Hsame. exists st, w. split; [done|]. split; [by eapply generated_world_keys|].
  split; [|intros c Hc; by apply Hsame, Hk]. intros o Ho. rewrite <- (Hs o Ho). symmetry. apply Hsame.
Qed.

(** A position that has its target is left alone from then on. *)
Lemma placed_level position g st w c :
  placed position g st w -> m_stack g !! position = Some c -> tgt !! position = Some c -> placed (position + 1) g st w.
Proof using.
  clear d depth. intros Hp Hm Ht. destruct (placed_value w0 st0 cl v lo tgt _ _ _ _ _ _ Hp Hm) as (Hr & _).
  destruct Hp as [Hx Hs Hf Htr Htg Hfin Hlv Hd]. split; try done; [lia|].
  intros p Hpr. destruct (Z.eq_dec p position) as [->|Hne]; [congruence|]. apply Hd. lia.
Qed.

(** The class at a position brought to the position above the level. *)
Lemma moveTarget_yields position c g from loc :
  output L position g -> position_of g c = Some from -> tgt !! position = Some c ->
  yields cl (gbind (if from <? position then appendDup from loc else appendOrRemoveSwap from loc)
      (fun _ => appendOrRemoveSwap position loc)) g (fun _ g' => output L (position + 1) g').
Proof using All.
  intros (st & w & Hp & Hw & Ht) Hfrom Htgt.
  pose proof (position_of_placed w0 st0 cl v lo tgt _ _ _ _ _ _ Hp Hfrom) as Hc.
  destruct (placed_value w0 st0 cl v lo tgt _ _ _ _ _ _ Hp Hc) as (Hr & _).
  pose proof (pl_level _ _ _ _ _ _ _ _ _ _ Hp) as Hlv.
  apply (yields_bind _ _ _ _ (fun _ g1 => exists st1, placed position g1 st1 w /\
    same_keys (m_classPositions g) (m_classPositions g1) /\ position <= g_stackHeight g1 /\
    m_stack g1 !! g_stackHeight g1 = Some c)).
  - destruct (Z.ltb_spec from position) as [Hlt|Hge].
    + eapply yields_last; [by apply (appendDup_yields w0 st0 cl v lo tgt lo_start position g st w from c)|].
      intros _ g1 (Hp1 & Hh & Hk & Hm). exists (v c :: st). split; [done|]. split; [done|]. rewrite Hh. split; [lia|].
      by rewrite Hm, lookup_insert_eq.
    + eapply yields_last; [apply (appendOrRemoveSwap_yields w0 st0 cl v lo tgt lo_start position g st w from); [done|lia]|].
      intros _ g1 (st1 & top & fr & Hp1 & Hh & Hk & Htop & Hfr & Hm & _). exists st1. split; [done|]. split; [done|].
      rewrite Hh. split; [lia|]. rewrite Hm. assert (fr = c) as -> by congruence.
      destruct (decide (from = g_stackHeight g)) as [->|Hne]; [rewrite lookup_insert_eq; congruence|].
      by rewrite lookup_insert_ne, lookup_insert_eq by done.
  - intros _ g1 (st1 & Hp1 & Hk1 & Hle & Htop).
    eapply yields_last; [apply (appendOrRemoveSwap_yields w0 st0 cl v lo tgt lo_start position g1 st1 w position); [done|lia]|].
    intros _ g2 (st2 & top & fr & Hp2 & Hh & Hk2 & Htop' & Hfr & Hm & _). assert (top = c) as -> by congruence.
    apply (output_same _ g g2 st2 w Ht Hw); [|by eapply same_keys_trans].
    apply (placed_level _ _ _ _ c Hp2); [|done]. by rewrite Hm, lookup_insert_eq.
Qed.

Lemma generateTarget_yields position c g :
  output L position g -> asked_class bound0 cl c -> tgt !! position = Some c ->
  yields cl (generateTarget d position c) g (fun _ g' => output L (position + 1) g').
Proof using All.
  intros Ho Hr Htgt. unfold generateTarget. apply yields_get. case_bool_decide as Hm.
  { apply yields_ret. destruct Ho as (st & w & Hp & Hw & Ht). exists st, w. split; [by eapply placed_level|done]. }
  eapply yields_bind; [by eapply pure_yields|]. intros ? g1 Ho1. cbn beta in Ho1. apply yields_get, yields_assert. intros _.
  case_bool_decide as Hpos.
  { apply yields_ret. destruct Ho1 as (st & w & Hp & Hw & Ht). exists st, w. split; [|done].
    eapply placed_level; [done| |done]. by apply (pl_tracks _ _ _ _ _ _ _ _ _ _ Hp). }
  unfold representativeOf. apply yields_query. intros e' _.
  eapply (yields_bind _ _ _ _ (fun p g' => g' = g1 /\ position_of g1 c = Some p)); [by apply classElementPosition_yields|].
  intros p g' [-> Hp]. by apply (moveTarget_yields position c).
Qed.

Lemma generateTargets_yields n : forall position g,
  output L position g -> (forall p, position <= p < position + Z.of_nat n ->
    exists c, tgt !! p = Some c /\ asked_class bound0 cl c) ->
  yields cl (generateTargets d (entries_from tgt position n)) g (fun _ g' => output L (position + Z.of_nat n) g').
Proof using All.
  induction n as [|n IH]; intros position g Ho Hc; cbn [entries_from generateTargets].
  { apply yields_ret. by rewrite Z.add_0_r. }
  destruct (Hc position ltac:(lia)) as (c & Ht & Hr). rewrite Ht. change (default 0 (Some c)) with c.
  eapply yields_bind; [by eapply generateTarget_yields|]. intros ? g1 Ho1. cbn beta in Ho1.
  eapply yields_last; [apply (IH (position + 1) g1 Ho1); intros p Hp; apply Hc; lia|].
  intros ? g2 Ho2. cbn beta in Ho2. by replace (position + Z.of_nat (S n)) with (position + 1 + Z.of_nat n) by lia.
Qed.

Lemma removeSurplus_yields n level : forall g,
  output L level g -> (size (m_stack g) < n)%nat -> yields cl (removeSurplus n) g (fun _ g' => output L level g').
Proof using All.
  induction n as [|n IH]; intros g (st & w & Hp & Hw & Ht) Hn; [lia|]. cbn [removeSurplus].
  eapply yields_bind; [by eapply (removeStackTopIfPossible_yields w0 st0 cl v lo tgt lo_start)|].
  intros b g1 (st1 & Hp1 & Hk & Hsize). pose proof (output_same _ g g1 st1 w Ht Hw Hp1 Hk) as Ho1.
  destruct b; [|by apply yields_ret]. apply IH; [done|]. specialize (Hsize eq_refl). lia.
Qed.
End Sequence.
