(* ===== verification/CSEOptimised.v ===== *)
(** * CSEOptimised: the code of a block and the item that breaks it

    [CSECodeGenerator::generateCode] returns or throws, and its items leave the target stack
    and the cells of the world the block leaves.
    [CommonSubexpressionEliminator::getOptimizedItems] looks at the item that breaks the
    block, which may feed further items, reads off the stack the block starts and ends with
    and generates its code. *)

From stdpp Require Import sorting.
From S2P Require Import Prelude U256 CommonData Instruction AssemblyItem SemanticInformation Interpreter Pattern RuleList SimplificationRules ExpressionClasses KnownState CommonSubexpressionEliminator Machine RuleSound MatchSound ClassSound WordClasses RuleWeight ClassShape ClassQueries StateWorld StoreOrder KnownSound KnownFeed KnownBlock CSEDependencies CSEStack CSEGenerate CSECode CSESequence.

#[local] Opaque ruleSet Rules readWord readBytes writeWord toBigEndian fromBigEndian.

Section Code.
Context {W H : Type} `{!World W H} `{!WorldLaws W H} `{!StateWorld W} {keccak256 : list Z -> Z}
  `{!StateLaws W H keccak256}.
Context (t : RuleTable) (rules : valid_rules t).
Context (w0 : W) (st0 : list Z) (ω : Z -> W).
Context (good0 : good w0) (goodω : forall s, good (ω s)) (words0 : Forall is_u256 st0).

Local Abbreviation known := (known (blockOp w0) (blockSeqop w0 ω) (blockPushed st0)).
Local Abbreviation generates := (generates w0 st0 ω).
Local Open Scope generator_scope.

Lemma generates_yields {A} (m : G A) g cl v Q (R : A -> CSECodeGenerator -> ExpressionClasses -> (Z -> Z) -> Prop) :
  known cl v -> yields cl m g Q -> (forall a g', Q a g' -> R a g' cl v) -> generates (fun _ => m) g cl v R.
Proof using.
  intros Hk Hm HR. unfold yields in Hm. exists 0%nat. destruct (m g cl) as [[a [g' cl']]|e|]; [|left; by exists e|done].
  destruct Hm as [-> HQ]. right. exists a, g', cl, v. split; [done|]. split; [done|]. split; [apply extends_refl|].
  split; [apply grows_refl|by apply HR].
Qed.

(** The stores of the block come in order, and their groups. *)
Lemma stores_sorted cl v ops : block_stores w0 ω cl v ops -> StronglySorted earlier (map fst ops).
Proof using.
  intros Hs. assert (forall k l, (forall n o, l !! n = Some o -> store_sequenceNumber (fst o) = 2 * Z.of_nat (k + n) + 2) ->
    StronglySorted earlier (map (fst : Store -> _) l)) as Hall.
  { intros k l. revert k. induction l as [|o l IH]; intros k Hl; cbn [map]; constructor.
    - apply (IH (S k)). intros n x Hn. rewrite (Hl (S n) x Hn). lia.
    - apply Forall_map, Forall_lookup_2. intros n x Hn. unfold earlier.
      rewrite (Hl 0%nat o eq_refl), (Hl (S n) x Hn). lia. }
  apply (Hall 0%nat). intros n [o x] Hn. by apply (store_class _ _ _ _ _ Hs) in Hn as [Hq _].
Qed.

Lemma stores_grouped cl v ops : block_stores w0 ω cl v ops -> grouped_ok cl (groupStores (map fst ops)).
Proof using.
  intros Hs k l Hin. destruct (groupStores_grouped (map fst ops)) as (_ & Hg & _). destruct (Hg k l Hin) as [-> Hne].
  split; [done|]. split; [by eapply StronglySorted_filter, stores_sorted|].
  intros o Ho. apply list_elem_of_In, list_elem_of_filter in Ho as [Hk Ho]. split; [done|].
  apply list_elem_of_In, in_map_iff in Ho as ([o' x] & Heq & Ho). cbn in Heq. subst o'.
  destruct (store_index _ _ Ho) as [n Hn]. destruct (bs_stored _ _ _ _ _ Hs n o x Hn) as [Hsl _ _ _ _].
  destruct (store_class _ _ _ _ _ Hs n o x Hn) as (Hq & _ & r & it & Hr & _ & _ & _ & _ & _ & Hsq).
  split; [done|]. split; [lia|]. split; [rewrite Hq, Z.odd_add, Z.odd_mul; done|]. by exists r.
Qed.

Lemma stores_range cl v ops : block_stores w0 ω cl v ops ->
  Forall (in_range cl) (lastStores (groupStores (map fst ops))).
Proof using.
  intros Hs. apply Forall_forall. intros c Hc. unfold lastStores in Hc.
  apply list_elem_of_omap in Hc as ([k l] & Hin & Hl).
  apply list_elem_of_In in Hin. destruct (stores_grouped _ _ _ Hs k l Hin) as (_ & _ & Hall). cbn [snd] in Hl.
  destruct (last l) as [o|] eqn:E; [|done]. injection Hl as <-. apply last_Some in E as [l' ->].
  destruct (Hall o) as (_ & _ & _ & _ & r & Hr & _); [apply in_or_app; right; by left|]. by eapply representative_range.
Qed.

Context (ops : list Store) (lo : Z) (lo_start : lo <= 1) (I T : gmap Z Z) (n : nat).
Context (initial : interval I lo (Z.to_nat (1 - lo))) (target : interval T lo n).

(** The generator when it starts, with its dependencies. *)
Definition started (l : list (Z * Z)) (s : gset Z) : CSECodeGenerator :=
  mkGen [] 0 l I (positionsOf I) (groupStores (map fst ops)) s T.

Lemma started_placed cl v l s : stack_ok st0 (set_stack 0 I emptyState) cl v st0 ->
  (forall c, In c (map snd (entries T)) -> c ∈ s) -> placed w0 st0 cl v lo T lo (started l s) st0 w0.
Proof using lo_start initial.
  intros Hs Hf. split; cbn; try done.
  - intros h. etrans; [|symmetry; apply (initial h)]. lia.
  - apply positionsOf_tracks.
  - intros p c Hc. apply Hf, in_map_iff. exists (p, c). split; [done|]. by apply entries_In.
  - lia.
Qed.

Context (fresh : forall p c o, I !! p = Some c -> In o ops -> expression (fst o) <> c).

Lemma started_fresh o : In o ops -> ~ is_Some (positionsOf I !! expression (fst o)).
Proof using fresh.
  intros Ho Hk. apply positionsOf_tracks in Hk as [p Hp]. by apply (fresh p _ o Hp Ho).
Qed.

Lemma started_output cl v l s : stack_ok st0 (set_stack 0 I emptyState) cl v st0 ->
  (forall c, In c (map snd (entries T)) -> c ∈ s) ->
  output w0 st0 cl v ops (started l s) lo T [] lo (started l s).
Proof using All.
  intros Hs Hf. exists st0, w0. split; [by apply started_placed|]. split; [|split].
  - split; [done|reflexivity|]. cbn [started m_classPositions].
    rewrite (filter_before _ ops 0); [done|]. intros m o Hm Hg. exfalso. apply (started_fresh o); [|done].
    apply list_elem_of_In. by eapply list_elem_of_lookup_2.
  - intros o Ho. split; [intros Hg; by apply (started_fresh o Ho)|done].
  - done.
Qed.

(** The items leave the target stack and the cells of the world at the end of the block. *)
Definition block_code (items : list AssemblyItem) (cl : ExpressionClasses) (v : Z -> Z) : Prop :=
  exists st w, exec items st0 w0 = Next st w /\ good w /\ same_environment w0 w /\
    cells_eq (cells w) (cells (ω (2 * Z.of_nat (length ops) + 1))) /\
    stack_ok st0 (set_stack (lo + Z.of_nat n - 1) T emptyState) cl v st.

Lemma block_output bound0 cl v g0 L g :
  block_stores w0 ω cl v ops -> ready bound0 (fun _ => False) g0 cl v ->
  g_storeOperations g0 = groupStores (map fst ops) ->
  (forall o, In o ops -> ~ is_Some (m_classPositions g0 !! expression (fst o))) ->
  Forall (covered g0 cl v) (lastStores (groupStores (map fst ops))) ->
  (forall q c, In (q, c) L <-> is_needed g0 c /\ q <> 0 /\
     exists e, representative (m_representatives cl) c = Some e /\ sequenceNumber e = q) ->
  g_stackHeight g = lo + Z.of_nat n - 1 ->
  output w0 st0 cl v ops g0 lo T L (lo + Z.of_nat n) g -> block_code (m_generatedItems g) cl v.
Proof using target.
  intros Hst Hr Hg Hf Hroots HL Hh (st & w & Hp & [Hgood Henv Hcells] & Ht).
  pose proof (groupStores_grouped (map fst ops)) as Hgr.
  exists st, w. split; [by apply Hp|]. split; [done|]. split; [done|]. split.
  - rewrite Hcells, (bs_world _ _ _ _ _ Hst (length ops) (le_n _)), firstn_all. intros tg a Ha.
    apply apply_stores_filter. intros [o x] Hlast. apply lastWriter_spec in Hlast as (m & Hm & Hcov & Hmax).
    apply (it_stores _ _ _ _ Ht); [apply list_elem_of_In; by eapply list_elem_of_lookup_2|].
    apply (store_in_order _ _ _ _ _ Hst g0 L HL m o x Hm). rewrite <- Hg in Hgr, Hroots.
    by apply (last_store_needed _ _ _ _ _ Hst bound0 g0 Hr Hgr Hf tg a m o x).
  - assert (m_stack g = T) as <-; [|rewrite <- Hh; apply Hp].
    apply map_eq. intros p. destruct (decide (lo <= p < lo + Z.of_nat n)) as [Hin|Hout]; [by apply Hp|].
    trans (@None Z); [|symmetry]; apply eq_None_not_Some; intros Hs.
    + apply (pl_from _ _ _ _ _ _ _ _ _ _ Hp) in Hs. lia.
    + by apply target in Hs.
Qed.

(** The part of [generateCode] after the dependencies have been added. *)
Definition emitCode (d : nat) (_initialSequenceNumber : Z) : G (list AssemblyItem) :=
  needed <-- gget m_neededBy ;;
  sequencedExpressions <-- collectSequenced _initialSequenceNumber (concat (map (fun p => [fst p; snd p]) needed)) ∅ ;;
  generateSequenced d (merge_sort pair_le (elements sequencedExpressions)) ;;;
  generateTargets d (entries T) ;;;
  size <-- gget (fun g => size (m_stack g)) ;;
  removeSurplus (S size) ;;;
  height <-- gget g_stackHeight ;;
  gassert (height =? match last (keys T) with
                     | Some h => h
                     | None => match keys I with h :: _ => h - 1 | [] => 0 end
                     end) OptimizerException ;;;
  gget m_generatedItems.

Lemma final_height :
  match last (keys T) with
  | Some h => h
  | None => match keys I with h :: _ => h - 1 | [] => 0 end
  end = lo + Z.of_nat n - 1.
Proof using initial target lo_start.
  destruct (keys_interval T lo n target) as [_ ->]. destruct (keys_interval I lo _ initial) as [Hh _].
  destruct (Nat.eqb_spec n 0) as [->|]; [|done]. destruct (keys I) as [|h l]; cbn [head] in Hh.
  - destruct (Nat.eqb_spec (Z.to_nat (1 - lo)) 0); [lia|done].
  - destruct (Nat.eqb_spec (Z.to_nat (1 - lo)) 0); [done|]. injection Hh as ->. lia.
Qed.

Lemma emitCode_yields d i cl v l s :
  known cl v -> block_stores w0 ω cl v ops -> stack_ok st0 (set_stack 0 I emptyState) cl v st0 ->
  (forall c, In c (map snd (entries T)) -> c ∈ s) ->
  ready (Z.of_nat d) (fun _ => False) (started l s) cl v ->
  Forall (covered (started l s) cl v) (lastStores (groupStores (map fst ops))) ->
  (forall p c, T !! p = Some c -> asked_class (Z.of_nat d) cl c) ->
  yields cl (emitCode d i) (started l s) (fun items _ => block_code items cl v).
Proof using All.
  intros Hk Hst Hs0 Hfin Hr Hroots HT. unfold emitCode. set (g0 := started l s) in *. apply yields_get.
  eapply yields_bind; [apply collectSequenced_spec|].
  { intros c Hc. apply needed_ids in Hc as (a & b & Hin & Hc).
    destruct (rd_needed _ _ _ _ _ Hr a b Hin) as ([Ha _] & [Hb _] & _). by destruct Hc as [->| ->]. }
  intros found g [-> Hfound]. destruct (sequence_sorted found) as (Hsort & Hnd & HLin).
  set (L := merge_sort pair_le (elements found)) in *.
  assert (forall q c, In (q, c) L <-> is_needed g0 c /\ q <> 0 /\
    exists e, representative (m_representatives cl) c = Some e /\ sequenceNumber e = q) as HL.
  { intros q c. rewrite HLin, Hfound, needed_ids. split; [intros [Hn|Hn]; [by apply not_elem_of_empty in Hn|done]|by right]. }
  pose proof (groupStores_grouped (map fst ops)) as Hgr.
  pose proof (started_fresh : forall o, In o ops -> ~ is_Some (m_classPositions g0 !! expression (fst o))) as Hf.
  assert (Z.of_nat d <= Z.of_nat d) as Hd by done.
  pose proof (started_output cl v l s Hs0 Hfin) as Ho.
  eapply yields_bind; [by eapply (generateSequenced_yields (keccak256 := keccak256) w0 st0 ω good0 goodω words0 cl v ops
    Hk Hst (Z.of_nat d) g0 Hr Hgr Hf L Hsort Hnd HL lo T lo_start d Hd L [])|].
  intros ? g1 Ho1. cbn beta in Ho1. rewrite (entries_interval T lo n target).
  eapply yields_bind; [eapply (generateTargets_yields (keccak256 := keccak256) w0 st0 ω good0 goodω words0 cl v ops
    Hk Hst (Z.of_nat d) g0 Hr Hgr Hf L Hsort Hnd HL lo T lo_start d Hd n); [exact Ho1|]|].
  { intros p Hp. apply target in Hp as [c Hc]. exists c. split; [done|by apply (HT p)]. }
  intros ? g2 Ho2. cbn beta in Ho2. apply yields_get.
  eapply yields_bind; [by eapply (removeSurplus_yields (keccak256 := keccak256) w0 st0 ω good0 goodω words0 cl v ops
    Hk Hst (Z.of_nat d) g0 Hr Hgr Hf L Hsort Hnd HL lo T lo_start d Hd); [exact Ho2|lia]|].
  intros ? g3 Ho3. cbn beta in Ho3. apply yields_get, yields_assert. rewrite final_height. intros Hh. apply Z.eqb_eq in Hh.
  unfold yields, gget. split; [done|]. by eapply block_output.
Qed.

(** [generateCode] returns or throws, and what it returns is the code of the block. *)
Lemma generateCode_generates d i cl v g :
  known cl v -> in_order cl -> (forall cl' v', known cl' v' -> extends cl cl' v v' -> grows cl cl' -> block_stores w0 ω cl' v' ops) ->
  stack_ok st0 (set_stack 0 I emptyState) cl v st0 ->
  (forall p c, T !! p = Some c -> in_range cl c) -> classes_size cl <= Z.of_nat d ->
  generates (fun k => generateCode d k t (groupStores (map fst ops)) i 0 I T) g cl v
    (fun items _ cl' v' => block_code items cl' v').
Proof using All.
  intros Hk Ho Hst Hs0 HT Hd. unfold generateCode. apply generates_modify. cbv beta.
  pose proof (Hst cl v Hk (extends_refl cl v) (grows_refl cl)) as Hst0.
  change (mkGen [] 0 [] I (positionsOf I) (groupStores (map fst ops)) ∅ T) with (started [] ∅).
  assert (ready (Z.of_nat d) (fun _ => False) (started [] ∅) cl v) as Hr0.
  { split; [done|exact (stores_grouped cl v ops Hst0)|intros ? ? []]. }
  assert (forall c, in_range cl c -> asked_class (Z.of_nat d) cl c /\ c < Z.of_nat d) as Hask.
  { intros c Hc. unfold asked_class, in_range in *. lia. }
  eapply generates_bind; [apply (addAllDependencies_generates (keccak256 := keccak256) t rules w0 st0 ω good0 goodω words0
    (Z.of_nat d)); [done|done|]|].
  { eapply Forall_impl; [exact (stores_range cl v ops Hst0)|]. exact Hask. }
  intros _ g1 cl1 v1 Hk1 He1 Hg1 ((l1 & -> & _) & Hr1 & Hroots).
  eapply generates_bind; [apply (addTargets_generates (keccak256 := keccak256) t rules w0 st0 ω good0 goodω words0
    (Z.of_nat d)); [done|done|]|].
  { apply Forall_forall. intros c Hc. apply list_elem_of_In, in_map_iff in Hc as ([p c'] & Heq & Hc). cbn in Heq. subst c'.
    apply entries_In in Hc. destruct (Hask c (HT p c Hc)) as [Ha Hlt]. split; [by eapply asked_class_extends|done]. }
  intros _ g2 cl2 v2 Hk2 He2 Hg2 ((l2 & s2 & -> & Hl2 & Hs2) & Hr2).
  pose proof (extends_trans _ _ _ _ _ _ He1 He2) as He.
  eapply (generates_yields (emitCode d i)); [done| |intros items g' Hb; exact Hb].
  apply emitCode_yields; [done|apply Hst; [done|done|by eapply grows_trans]|by eapply stack_ok_extends| |exact Hr2| |].
  - intros c Hc. apply Hs2, in_or_app. by left.
  - destruct Hk1 as (_ & _ & Hs1). eapply Forall_impl; [exact Hroots|]. intros c Hc.
    apply (covered_prepared (set_neededBy l1 (started [] ∅)) cl1 v1 l2 s2); [done|by eapply rd_groups|done|done|exact Hc].
  - intros p c Hc. eapply asked_class_extends; [exact He|]. by apply (Hask c), (HT p).
Qed.
End Code.

#[local] Opaque ruleSet Rules readWord readBytes writeWord toBigEndian fromBigEndian.

(** ** The lowest position *)

Lemma lowest_spec m :
  match lowest m with
  | Some h => is_Some (m !! h) /\ forall p, is_Some (m !! p) -> h <= p
  | None => forall p, m !! p = None
  end.
Proof.
  unfold lowest, keys. assert (StronglySorted key_le (entries m)) as Hs by apply (StronglySorted_merge_sort key_le).
  pose proof (entries_In m) as Hin. destruct (entries m) as [|[h c] l]; cbn [map head].
  - intros p. destruct (m !! p) as [c|] eqn:E; [|done]. by apply Hin in E.
  - split; [exists c; apply Hin; by left|]. intros p [c' Hp]. apply Hin in Hp as [[= <- <-]|Hp]; [done|].
    apply StronglySorted_inv in Hs as [_ Hs]. rewrite List.Forall_forall in Hs. by apply (Hs (p, c')).
Qed.

(** ** Items on the stack only *)

Lemma kret_noStore {A} (m : K A) s cl op x :
  kbind m (fun _ => kret noStore) s cl = Ret (op, x) -> op = noStore.
Proof. unfold kbind, kret. destruct (m s cl) as [[a [s' cl']]| |]; [|done..]. by intros [= <-]. Qed.

Lemma feed_noStore fuel t k it s cl op x :
  is_op it SWAP1 = true \/ is_op it POP = true -> feedItem fuel t k it s cl = Ret (op, x) -> op = noStore.
Proof.
  rewrite !is_op_spec. intros Hi.
  assert (m_type it = Operation) as Ht by (destruct Hi as [[? _]|[? _]]; done).
  unfold feedItem. rewrite Ht. unfold feedOperation, item_isDup, item_isSwap. rewrite Ht.
  unfold kbind at 1, kget at 1. unfold kbind at 1.
  destruct Hi as [[_ Hi]|[_ Hi]]; rewrite Hi; cbn [andb isDupInstruction isSwapInstruction negb bool_decide].
  - match goal with |- match ?e s cl with _ => _ end = _ -> _ =>
      destruct (e s cl) as [[op' [s1 cl1]]| |] eqn:E end; [|done..].
    cbn in E. apply kret_noStore in E as ->. by intros [= <- _].
  - cbn. by intros [= <- _].
Qed.

(** ** The item that breaks the block *)

(** The item [b] on the stack [st] does what [b'] does on [st']: they are the same, or [b] is a
    jump whose condition is known, or it returns no data. *)
Inductive broken : option AssemblyItem -> list Z -> option AssemblyItem -> list Z -> Prop :=
| broken_same b st : broken b st b st
| broken_jump b a c st loc j : is_op b JUMPI = true -> c <> 0 ->
    broken (Some b) (a :: c :: st) (Some (with_jumpType j (opItem JUMP loc))) (a :: st)
| broken_fall b a st : is_op b JUMPI = true -> broken (Some b) (a :: 0 :: st) None st
| broken_stop b a st loc : is_op b RETURN = true -> broken (Some b) (a :: 0 :: st) (Some (opItem STOP loc)) st.

Lemma item_eqb_op it i : item_eqb it (opItem i noLocation) = is_op it i.
Proof.
  apply eq_true_iff_eq. rewrite item_eqb_spec, is_op_spec. cbn. split.
  - intros [Ht Hi]. rewrite Ht in *. by rewrite decide_True in Hi by done.
  - intros [Ht Hi]. rewrite Ht. split; [done|]. by rewrite decide_True.
Qed.

(** An item after which no value is left: a tag, an assignment of an immutable, or an
    instruction without a result. *)
Definition quiet (it : AssemblyItem) : Prop :=
  match m_type it with
  | Tag | AssignImmutable => True
  | Operation => ret (instructionInfo (m_instruction it)) = 0%nat /\ special (m_instruction it) = false
  | _ => False
  end.

(** The state after the [default] case of [feedItem] for such an instruction. *)
Definition quietState (i : Instruction) (s : KnownState) : KnownState :=
  let s := if invalidatesMemory i then resetMemory s else s in
  let s := if invalidatesStorage i then resetStorage s else s in
  if invalidatesMemory i || invalidatesStorage i then set_sequenceNumber (unsigned (m_sequenceNumber s + 2)) s else s.

Lemma feedInstruction_quiet fuel t k it l s cl :
  quiet it -> m_type it = Operation ->
  feedInstruction fuel t k it l s cl = Ret (noStore, (quietState (m_instruction it) s, cl)).
Proof.
  unfold quiet, feedInstruction. intros Hq Ht. rewrite Ht in Hq. destruct Hq as [Hr Hs].
  destruct (m_instruction it); try discriminate Hr; try discriminate Hs; reflexivity.
Qed.

(** The item that breaks the block finds its arguments on the stack. *)
Definition breaking_arguments (breaking : option AssemblyItem) (st : list Z) : Prop :=
  forall b, breaking = Some b -> m_type b = Operation -> (args (instructionInfo (m_instruction b)) <= length st)%nat.

Lemma broken_quiet b st b' st' :
  broken b st b' st' -> (forall x, b = Some x -> quiet x) -> breaking_arguments b st ->
  (forall x, b' = Some x -> quiet x) /\ breaking_arguments b' st'.
Proof.
  intros [b0 st1|b0 a c st1 loc j Hi Hc|b0 a st1 Hi|b0 a st1 loc Hi] Hq Ha.
  - done.
  - split; [by intros x [= <-]|]. intros x [= <-] _. change (1 <= S (length st1))%nat. lia.
  - by split.
  - split; [by intros x [= <-]|]. intros x [= <-] _. change (0 <= length st1)%nat. lia.
Qed.

Section Optimised.
Context {W H : Type} `{!World W H} `{!WorldLaws W H} `{!StateWorld W} {keccak256 : list Z -> Z}
  `{!StateLaws W H keccak256}.
Context (t : RuleTable) (rules : valid_rules t).
Context (w0 : W) (st0 : list Z) (ω : Z -> W).
Context (good0 : good w0) (goodω : forall s, good (ω s)) (words0 : Forall is_u256 st0)
  (short0 : Z.of_nat (length st0) < modulus).

Local Abbreviation known := (known (blockOp w0) (blockSeqop w0 ω) (blockPushed st0)).
Local Abbreviation runs := (runs w0 st0 ω).

#[local] Instance bop_words : WordSemantics (blockOp w0).
Proof using WorldLaws0 StateLaws0 good0. exact (blockOp_words w0 good0). Qed.

(** What is known after a block has been fed, and its stores. *)
Record block_fed (s : KnownState) (cl : ExpressionClasses) (v : Z -> Z) (st : list Z) (w : W)
    (ops : StoreOperations) : Prop := {
  bf_known : known cl v;
  bf_stack : stack_ok st0 s cl v st;
  bf_state : state_ok (keccak256 := keccak256) w0 ω s cl v w;
  bf_history : exists h, history w0 ω s cl v h /\ map fst h = ops }.

(** More classes and more elements of the stack. *)
Lemma history_added s cl v h s' cl' v' :
  history w0 ω s cl v h -> shape cl' -> extends cl cl' v v' -> added s cl s' cl' ->
  m_sequenceNumber s' = m_sequenceNumber s -> exists h', history w0 ω s' cl' v' h' /\ map fst h' = map fst h.
Proof using World0 H.
  intros Hh Hs He Ha Hq.
  destruct (history_item w0 ω s cl v h s' cl' v' (ω (m_sequenceNumber s)) (ω (m_sequenceNumber s')) noStore)
    as (h' & Hf & Hh'); try done.
  - split; [done|]. rewrite Hq. reflexivity.
  - by exists h'.
Qed.

Lemma block_fed_elements s cl v st w ops s' cl' v' :
  block_fed s cl v st w ops -> known cl' v' -> extends cl cl' v v' -> grows cl cl' -> same_but_elements s s' ->
  stack_ok st0 s' cl' v' st -> block_fed s' cl' v' st w ops.
Proof using.
  intros [Hk Hst Hs (h & Hh & Hops)] Hk' He Hg Hsame Hst'. assert (m_sequenceNumber s' = m_sequenceNumber s) as Hq by by rewrite Hsame.
  split; [done|done| |].
  - rewrite Hsame. apply state_ok_elements. by eapply state_ok_extends.
  - destruct (history_added s cl v h s' cl' v' Hh) as (h' & Hh' & Hm); [by destruct Hk' as (_ & _ & ?)|done| |done|].
    + unfold added. rewrite Hq. exact (added_grows s _ _ Hg).
    + exists h'. split; [done|by rewrite Hm].
Qed.

Lemma block_fed_grows s cl v st w ops cl' v' :
  block_fed s cl v st w ops -> known cl' v' -> extends cl cl' v v' -> grows cl cl' -> block_fed s cl' v' st w ops.
Proof using.
  intros Hb Hk' He Hg. eapply block_fed_elements; try done; [apply same_but_elements_refl|].
  eapply stack_ok_extends; [exact He|apply Hb].
Qed.

(** An item on the stack only is fed. *)
Lemma feedStore_runs s cl v st w ops it st' :
  block_fed s cl v st w ops -> m_sequenceNumber s + 2 < 2 ^ 32 -> block_item it ->
  is_op it SWAP1 = true \/ is_op it POP = true -> exec_item it st w = Next st' w ->
  runs (fun n => feedStore n t keccak256 it ops) s cl v (fun ops' s' cl' v' =>
    ops' = ops /\ m_sequenceNumber s' = m_sequenceNumber s /\ block_fed s' cl' v' st' w ops).
Proof using All.
  intros [Hk Hst Hs (h & Hh & Hops)] Hq Hb Hi Hx.
  assert (whole_words it st) as Hww.
  { unfold whole_words. intros Hkc. rewrite !is_op_spec in *. destruct Hi as [[_ Hi]|[_ Hi]]; destruct Hkc; congruence. }
  destruct (feedItem_runs t rules w0 st0 ω good0 goodω words0 short0 s cl v w it st st' w Hk Hst Hs Hq Hb Hww Hx)
    as (_ & op & s' & cl' & v' & [n Hev] & Hk' & He & Ha & Ht & Hst' & Hs').
  assert (op = noStore) as -> by (by eapply feed_noStore, (Hev n)).
  destruct Ht as [Hq' _]. exists ops, s', cl', v'. split.
  { exists n. intros fuel Hf. unfold feedStore, kbind. rewrite Hev by done. done. }
  split; [done|]. split; [done|]. split; [done|]. split; [done|]. split; [done|].
  split; [done|done| |].
  - apply Hs'. rewrite Hq'. apply Hs.
  - destruct (history_added s cl v h s' cl' v' Hh) as (h' & Hh' & Hm); [by destruct Hk' as (_ & _ & ?)|done|done|done|].
    exists h'. split; [done|by rewrite Hm].
Qed.

(** The element below the top. *)
Lemma second_runs s cl v a c st w ops loc :
  block_fed s cl v (a :: c :: st) w ops ->
  runs (fun n => stackElement n t (m_stackHeight s - 1) loc) s cl v (fun i s' cl' v' =>
    m_sequenceNumber s' = m_sequenceNumber s /\ block_fed s' cl' v' (a :: c :: st) w ops /\
    in_range cl' i /\ v' i = c).
Proof using All.
  intros Hb. eapply runs_last; [apply (stackElement_runs (keccak256 := keccak256) t rules w0 st0 ω good0 goodω words0 short0 s cl v
    (a :: c :: st) (m_stackHeight s - 1) loc c); [apply Hb|apply Hb|lia|]|].
  { unfold at_height. by replace (m_stackHeight s - (m_stackHeight s - 1)) with 1 by lia. }
  intros i s' cl' v' Hk' He (Hsame & Hst' & Hi & Hv & _ & Hg & _). split; [by rewrite Hsame|].
  split; [by eapply block_fed_elements|by split].
Qed.

(** The classes are asked whether a class is zero or is not. *)
Lemma zero_query cl v c : known cl v -> in_range cl c ->
  exists b, knownZero cl c = Some b /\ (b = true -> v c = 0).
Proof using All.
  intros Hk Hc. by eapply (matchesClass_answers _ _ _ (blockSeqop_pure w0 ω) (blockSeqop_range w0 ω goodω)
    (blockPushed_range st0 words0) t rules cl v 0 c).
Qed.

Lemma item_operation i loc : m_type (opItem i loc) = Operation /\ m_instruction (opItem i loc) = i.
Proof using. done. Qed.

(** The top of the stack taken off. *)
Lemma feedPop_runs s cl v a st w ops loc :
  block_fed s cl v (a :: st) w ops -> m_sequenceNumber s + 2 < 2 ^ 32 ->
  runs (fun n => feedStore n t keccak256 (opItem POP loc) ops) s cl v (fun ops' s' cl' v' =>
    ops' = ops /\ m_sequenceNumber s' = m_sequenceNumber s /\ block_fed s' cl' v' st w ops).
Proof using All.
  intros Hb Hq. apply (feedStore_runs s cl v (a :: st)); try done; first [by right|by repeat split].
Qed.

Lemma feedPops_runs {A} (r : A) s cl v a c st w ops loc :
  block_fed s cl v (a :: c :: st) w ops -> m_sequenceNumber s + 2 < 2 ^ 32 ->
  runs (fun n => kbind (feedStore n t keccak256 (opItem POP loc) ops) (fun stores =>
      kbind (feedStore n t keccak256 (opItem POP loc) stores) (fun stores => kret (stores, r)))) s cl v
    (fun p s' cl' v' => p = (ops, r) /\ m_sequenceNumber s' = m_sequenceNumber s /\ block_fed s' cl' v' st w ops).
Proof using All.
  intros Hb Hq. eapply runs_bind; [by apply (feedPop_runs s cl v a)|].
  intros ops1 s1 cl1 v1 Hk1 He1 (-> & Hq1 & Hb1).
  eapply runs_bind; [apply (feedPop_runs s1 cl1 v1 c _ _ _ _ Hb1); by rewrite Hq1|].
  intros ops2 s2 cl2 v2 Hk2 He2 (-> & Hq2 & Hb2). apply runs_ret; [done|]. split; [done|]. split; [congruence|done].
Qed.

(** The stores and the item [optimizeBreakingItem] leaves. *)
Definition breaking_left (breaking : option AssemblyItem) (s : KnownState) (st : list Z) (w : W) (ops : StoreOperations)
    (r : StoreOperations * option AssemblyItem) (s' : KnownState) (cl' : ExpressionClasses) (v' : Z -> Z) : Prop :=
  exists st', fst r = ops /\ broken breaking st (snd r) st' /\ m_sequenceNumber s' = m_sequenceNumber s /\
    block_fed s' cl' v' st' w ops.

Lemma jump_runs s cl v b a c st w ops :
  block_fed s cl v (a :: c :: st) w ops -> m_sequenceNumber s + 2 < 2 ^ 32 -> is_op b JUMPI = true ->
  runs (fun n => optimizeBreakingItem n t keccak256 (Some b) ops) s cl v (breaking_left (Some b) s (a :: c :: st) w ops).
Proof using All.
  intros Hb Hq Hi. unfold optimizeBreakingItem. rewrite !item_eqb_op, Hi. apply runs_get.
  eapply runs_bind; [by apply second_runs|]. intros i s1 cl1 v1 Hk1 He1 (Hq1 & Hb1 & Hi1 & Hv1).
  eapply runs_bind; [apply runs_classes; by apply (knownNonZero_answers _ _ _ (blockSeqop_pure w0 ω)
    (blockSeqop_range w0 ω goodω) (blockPushed_range st0 words0) t rules cl1 v1 i)|].
  intros nonZero s2 cl2 v2 Hk2 He2 (-> & Hg2 & Hnz). pose proof (block_fed_grows _ _ _ _ _ _ _ _ Hb1 Hk2 He2 Hg2) as Hb2.
  assert (v2 i = c) as Hv2 by (rewrite (ext_value _ _ _ _ He2 i Hi1); done).
  destruct nonZero.
  - specialize (Hnz eq_refl). rewrite Hv1 in Hnz.
    eapply runs_bind; [apply (feedStore_runs s1 cl2 v2 (a :: c :: st) w ops (opItem SWAP1 (m_location b)) (c :: a :: st));
      [done|by rewrite Hq1|by repeat split|by left|done]|].
    intros ops3 s3 cl3 v3 Hk3 He3 (-> & Hq3 & Hb3).
    eapply runs_bind; [apply (feedPop_runs s3 cl3 v3 c _ _ _ _ Hb3); by rewrite Hq3, Hq1|].
    intros ops4 s4 cl4 v4 Hk4 He4 (-> & Hq4 & Hb4). apply runs_ret; [done|]. exists (a :: st). split; [done|].
    split; [by apply broken_jump|]. split; [congruence|done].
  - destruct (zero_query cl2 v2 i Hk2) as (zero & Hz & Hzero); [by eapply extends_in_range|].
    eapply runs_query; [exact Hz|]. destruct zero.
    + specialize (Hzero eq_refl). assert (c = 0) as -> by congruence.
      eapply runs_last; [apply (feedPops_runs None s1 cl2 v2 a 0 st); [done|by rewrite Hq1]|].
      intros r s3 cl3 v3 Hk3 He3 (-> & Hq3 & Hb3). exists st. split; [done|]. split; [by apply broken_fall|].
      split; [congruence|done].
    + apply runs_ret; [done|]. exists (a :: c :: st). split; [done|]. split; [apply broken_same|]. split; [done|exact Hb2].
Qed.

Lemma return_runs s cl v b a c st w ops :
  block_fed s cl v (a :: c :: st) w ops -> m_sequenceNumber s + 2 < 2 ^ 32 -> is_op b RETURN = true ->
  runs (fun n => optimizeBreakingItem n t keccak256 (Some b) ops) s cl v (breaking_left (Some b) s (a :: c :: st) w ops).
Proof using All.
  intros Hb Hq Hi. unfold optimizeBreakingItem. rewrite !item_eqb_op, Hi.
  assert (is_op b JUMPI = false) as ->.
  { apply not_true_is_false. intros Hj. rewrite !is_op_spec in *. destruct Hi, Hj. congruence. }
  apply runs_get. eapply runs_bind; [by apply second_runs|]. intros i s1 cl1 v1 Hk1 He1 (Hq1 & Hb1 & Hi1 & Hv1).
  destruct (zero_query cl1 v1 i Hk1 Hi1) as (zero & Hz & Hzero). eapply runs_query; [exact Hz|]. destruct zero.
  - specialize (Hzero eq_refl). assert (c = 0) as -> by congruence.
    eapply runs_last; [apply (feedPops_runs _ s1 cl1 v1 a 0 st); [done|by rewrite Hq1]|].
    intros r s3 cl3 v3 Hk3 He3 (-> & Hq3 & Hb3). exists st. split; [done|]. split; [by apply broken_stop|].
    split; [congruence|done].
  - apply runs_ret; [done|]. exists (a :: c :: st). split; [done|]. split; [apply broken_same|]. by split.
Qed.

Lemma optimizeBreakingItem_runs s cl v b st w ops :
  block_fed s cl v st w ops -> m_sequenceNumber s + 2 < 2 ^ 32 -> breaking_arguments b st ->
  runs (fun n => optimizeBreakingItem n t keccak256 b ops) s cl v (breaking_left b s st w ops).
Proof using All.
  intros Hb Hq Hargs. assert (breaking_left b s st w ops (ops, b) s cl v) as Hsame.
  { exists st. split; [done|]. split; [apply broken_same|]. by split. }
  destruct b as [b|]; [|apply runs_ret; [apply Hb|done]].
  destruct (is_op b JUMPI) eqn:Hj.
  { pose proof Hj as [Ht Hi]%is_op_spec. specialize (Hargs b eq_refl Ht). rewrite Hi in Hargs. cbv in Hargs.
    destruct st as [|a [|c st]]; cbn in Hargs; [lia..|]. by apply jump_runs. }
  destruct (is_op b RETURN) eqn:Hr.
  { pose proof Hr as [Ht Hi]%is_op_spec. specialize (Hargs b eq_refl Ht). rewrite Hi in Hargs. cbv in Hargs.
    destruct st as [|a [|c st]]; cbn in Hargs; [lia..|]. by apply return_runs. }
  unfold optimizeBreakingItem. rewrite !item_eqb_op, Hj, Hr. apply runs_ret; [apply Hb|done].
Qed.

(** The item that breaks the block is fed: it may add classes. *)
Lemma feedBreaking_eventually s cl v st w ops b :
  block_fed s cl v st w ops -> quiet b -> breaking_arguments (Some b) st ->
  exists op s' cl' v', eventually (fun n => feedItem n t keccak256 b s cl) (op, (s', cl')) /\
    extends cl cl' v v' /\ block_fed s cl' v' st w ops.
Proof using All.
  intros Hb Hq Ha. unfold feedItem. destruct (m_type b) eqn:Ht; try (unfold quiet in Hq; by rewrite Ht in Hq).
  - assert (special (m_instruction b) = false) as Hsp by (unfold quiet in Hq; rewrite Ht in Hq; apply Hq).
    unfold special in Hsp. apply orb_false_iff in Hsp as [Hsp Hpop]. apply orb_false_iff in Hsp as [Hdup Hswap].
    destruct (stackArguments_runs t rules w0 st0 ω good0 goodω words0 short0 (args (instructionInfo (m_instruction b)))
      s cl v st 0 (m_location b)) as (l & s1 & cl1 & v1 & [n Hn] & Hk1 & He1 & Ha1 & Hsame & Hst1 & _);
      [apply Hb|apply Hb|done|specialize (Ha b eq_refl Ht); cbn; lia|].
    eexists noStore, _, cl1, v1. split; [exists n; intros fuel Hf|split; [done|]].
    + unfold feedOperation, item_isDup, item_isSwap. rewrite Ht, Hdup, Hswap. cbn [andb].
      assert (negb (bool_decide (m_instruction b = POP)) = true) as ->.
      { apply negb_true_iff, bool_decide_eq_false. intros E. by rewrite E in Hpop. }
      unfold kbind at 1, kget. unfold kbind at 1. unfold kbind at 1. rewrite Hn by done.
      rewrite feedInstruction_quiet by done. reflexivity.
    + destruct Hb as [Hk Hst Hs (h & Hh & Hops)].
      assert (m_sequenceNumber s1 = m_sequenceNumber s) as Hq1 by by rewrite Hsame.
      destruct (history_added s cl v h s cl1 v1 Hh) as (h' & Hh' & Hm);
        [by destruct Hk1 as (_ & _ & ?)|done|unfold added in *; by rewrite Hq1 in Ha1|done|].
      split; [done|by eapply stack_ok_extends|by eapply state_ok_extends|]. exists h'. split; [done|by rewrite Hm].
  - exists noStore, s, cl, v. split; [apply eventually_ret|]. split; [apply extends_refl|done].
  - eexists noStore, _, cl, v. split; [exists 0%nat; intros fuel _; unfold feedOperation, kbind, kget; cbn; reflexivity|]. split; [apply extends_refl|done].
Qed.

(** ** The stack at the start and at the end *)

(** A class of an element of the stack the block started with. *)
Definition initial_class (cl : ExpressionClasses) (c : Z) : Prop :=
  exists r it, representative (m_representatives cl) c = Some r /\ item r = Some it /\ m_type it = UndefinedItem.

Lemma initial_class_extends cl cl' v v' c : extends cl cl' v v' -> initial_class cl c -> initial_class cl' c.
Proof using. intros He (r & it & Hr & Hit). exists r, it. split; [by eapply representative_extends|done]. Qed.

Lemma represented_initial cl c h loc : represented cl c (dataItem UndefinedItem (u256 h) loc) 0 [] -> initial_class cl c.
Proof using.
  intros (r & Hr & (it & Hit & He & _)). exists r, it. split; [done|]. split; [done|].
  by apply item_eqb_spec in He as [Ht _].
Qed.

(** The contents of [n] heights from [h] on, taken from the elements of [s']. *)
Record contents_of (h : Z) (n : nat) (m0 : gmap Z Z) (s : KnownState) (m : gmap Z Z) (s' : KnownState)
    (cl' : ExpressionClasses) : Prop := {
  ct_in p : h <= p < h + Z.of_nat n -> m !! p = m_stackElements s' !! p /\ is_Some (m !! p);
  ct_out p : ~ h <= p < h + Z.of_nat n -> m !! p = m0 !! p /\ m_stackElements s' !! p = m_stackElements s !! p;
  ct_old p c : m_stackElements s !! p = Some c -> m_stackElements s' !! p = Some c;
  ct_new p c : m_stackElements s' !! p = Some c -> m_stackElements s !! p = Some c \/ initial_class cl' c }.

Lemma stackContents_runs n : forall s cl v st h m0,
  known cl v -> stack_ok st0 s cl v st -> h + Z.of_nat n - 1 <= m_stackHeight s ->
  (forall p, h <= p < h + Z.of_nat n -> is_Some (at_height s st p)) ->
  runs (fun f => stackContents f t n h m0) s cl v (fun m s' cl' v' =>
    same_but_elements s s' /\ stack_ok st0 s' cl' v' st /\ grows cl cl' /\ contents_of h n m0 s m s' cl').
Proof using All.
  induction n as [|n IH]; intros s cl v st h m0 Hk Hst Hh Hat; cbn [stackContents].
  { apply runs_ret; [done|]. split; [apply same_but_elements_refl|]. split; [done|]. split; [apply grows_refl|].
    split; try (intros; lia); [by intros|done|by left]. }
  destruct (Hat h ltac:(lia)) as [x Hx].
  eapply runs_bind; [apply (stackElement_runs (keccak256 := keccak256) t rules w0 st0 ω good0 goodω words0 short0 s cl v
    st h noLocation x Hk Hst); [lia|done]|].
  intros c s1 cl1 v1 Hk1 He1 (Hsame1 & Hst1 & Hc & Hv & Hel & Hg1 & Hnew).
  assert (m_stackHeight s1 = m_stackHeight s) as Hh1 by by rewrite Hsame1.
  eapply runs_last; [apply (IH s1 cl1 v1 st (h + 1) (<[h := c]> m0) Hk1 Hst1); [lia|]|].
  { intros p Hp. unfold at_height. rewrite Hh1. apply Hat. lia. }
  intros m s2 cl2 v2 Hk2 He2 (Hsame2 & Hst2 & Hg2 & [Hin Hout Hold Hnew2]).
  split; [by eapply same_but_elements_trans|]. split; [done|]. split; [by eapply grows_trans|].
  destruct (Hout h ltac:(lia)) as [Hmh Heh]. rewrite lookup_insert_eq in Hmh. rewrite Hel, lookup_insert_eq in Heh.
  split.
  - intros p Hp. destruct (Z.eq_dec p h) as [->|Hne]; [rewrite Hmh, Heh; split; [done|by eexists]|]. apply Hin. lia.
  - intros p Hp. destruct (Hout p ltac:(lia)) as [Hm He]. rewrite Hm, He, Hel, !lookup_insert_ne by lia. by split.
  - intros p d Hd. apply Hold. rewrite Hel. destruct (Z.eq_dec p h) as [->|Hne].
    + rewrite lookup_insert_eq. destruct Hnew as [?|[? _]]; congruence.
    + by rewrite lookup_insert_ne.
  - intros p d Hd. destruct (Hnew2 p d Hd) as [Hd1|]; [|by right]. rewrite Hel in Hd1.
    destruct (Z.eq_dec p h) as [->|Hne].
    + rewrite lookup_insert_eq in Hd1. injection Hd1 as <-. destruct Hnew as [?|[_ Hrep]]; [by left|].
      right. eapply initial_class_extends; [exact He2|]. by eapply represented_initial.
    + rewrite lookup_insert_ne in Hd1 by done. by left.
Qed.
End Optimised.
