(* ===== verification/CSETheorems.v ===== *)
(** * CSETheorems: the contract of CommonSubexpressionEliminator

    The items [getOptimizedItems] returns for a block leave the stack, the storage and the
    memory the block leaves, up to what the item that breaks the block takes off the stack. *)

From stdpp Require Import sorting.
From S2P Require Import Prelude U256 CommonData Instruction AssemblyItem SemanticInformation Interpreter Pattern RuleList SimplificationRules ExpressionClasses KnownState CommonSubexpressionEliminator Machine RuleSound InterpreterWorld StateWorld StoreOrder MatchSound ClassSound WordClasses RuleWeight ClassShape ClassQueries KnownSound KnownFeed KnownBlock CSEDependencies CSEStack CSEGenerate CSECode CSESequence CSEOptimised.

#[local] Opaque ruleSet Rules readWord readBytes writeWord toBigEndian fromBigEndian.

Section Heights.
Context (st0 : list Z).

(** Stacks with the same known elements are equal. *)
Lemma stack_ok_unique s1 s2 cl v st1 st2 :
  stack_ok st0 s1 cl v st1 -> stack_ok st0 s2 cl v st2 -> m_stackHeight s1 = m_stackHeight s2 ->
  (forall h, h <= m_stackHeight s1 -> m_stackElements s1 !! h = m_stackElements s2 !! h) -> st1 = st2.
Proof.
  intros [Hk1 Hr1 _] [Hk2 Hr2 _] Hh He. apply list_eq. intros i.
  set (h := m_stackHeight s1 - Z.of_nat i). specialize (He h ltac:(unfold h; lia)).
  assert (st1 !! i = at_height s1 st1 h) as ->.
  { unfold at_height. apply (f_equal (fun n => st1 !! n)). unfold h. lia. }
  assert (st2 !! i = at_height s2 st2 h) as ->.
  { unfold at_height. apply (f_equal (fun n => st2 !! n)). unfold h. lia. }
  destruct (m_stackElements s1 !! h) as [c|] eqn:E; symmetry in He.
  - destruct (Hk1 h c E) as (_ & _ & ->), (Hk2 h c He) as (_ & _ & ->). done.
  - destruct (Hr1 h ltac:(unfold h; lia) E) as [_ ->], (Hr2 h ltac:(unfold h; lia) He) as [_ ->]. done.
Qed.

(** The lowest height the code of a block touches. *)
Definition minHeight (s : KnownState) : Z :=
  match lowest (m_stackElements s) with
  | Some h => Z.min (m_stackHeight s + 1) h
  | None => m_stackHeight s + 1
  end.

Lemma minHeight_spec s cl v st : stack_ok st0 s cl v st ->
  minHeight s <= 1 /\ minHeight s <= m_stackHeight s + 1 /\
  (forall p, is_Some (m_stackElements s !! p) -> minHeight s <= p) /\
  (forall p, minHeight s <= p <= m_stackHeight s -> is_Some (at_height s st p)) /\
  (forall p, minHeight s <= p <= 0 -> is_Some (st0 !! Z.to_nat (- p))).
Proof.
  intros [Hk Hr Hlen]. pose proof (lowest_spec (m_stackElements s)) as Hl.
  assert (1 <= m_stackHeight s -> is_Some (m_stackElements s !! 1)) as H1.
  { intros Hh. destruct (m_stackElements s !! 1) as [c|] eqn:E; [by eexists|]. destruct (Hr 1 Hh E). lia. }
  assert (minHeight s <= m_stackHeight s -> m_stackHeight s - minHeight s < Z.of_nat (length st)) as Hlow.
  { unfold minHeight. destruct (lowest _) as [h|]; [|lia]. destruct Hl as [[c Hc] _]. intros Hle.
    destruct (Hk h c Hc) as (Hh & _ & Hat). unfold at_height in Hat. apply lookup_lt_Some in Hat. lia. }
  unfold minHeight in *. split; [|split; [|split; [|split]]].
  - destruct (lowest _) as [h|].
    + destruct (Z_le_gt_dec 1 (m_stackHeight s)) as [Hh|Hh]; [|lia]. specialize (proj2 Hl 1 (H1 Hh)). lia.
    + destruct (Z_le_gt_dec 1 (m_stackHeight s)) as [Hh|Hh]; [|lia]. rewrite Hl in H1. by destruct (H1 Hh).
  - destruct (lowest _); lia.
  - intros p Hp. destruct (lowest _) as [h|].
    + specialize (proj2 Hl p Hp). lia.
    + rewrite Hl in Hp. by destruct Hp.
  - intros p Hp. unfold at_height. apply lookup_lt_is_Some_2. destruct (lowest _); lia.
  - intros p Hp. apply lookup_lt_is_Some_2. destruct (lowest _); lia.
Qed.
End Heights.

Section Correct.
Context {W H : Type} `{!World W H} `{!WorldLaws W H} `{!StateWorld W} {keccak256 : list Z -> Z}
  `{!StateLaws W H keccak256}.

(** The code does what the block and the item that breaks it do: it ends with the item [b'],
    and before that leaves a stack on which [b'] does what [b] does on [st]. *)
Definition optimised (st0 : list Z) (w0 : W) (b : option AssemblyItem) (st : list Z) (w : W)
    (code : list AssemblyItem) : Prop :=
  exists pre b' st' w', code = pre ++ option_list b' /\ exec pre st0 w0 = Next st' w' /\ same w w' /\
    broken b st b' st'.

Section Block.
Context (t : RuleTable) (rules : valid_rules t).
Context (w0 : W) (st0 : list Z) (ω : Z -> W).
Context (good0 : good w0) (goodω : forall s, good (ω s)) (words0 : Forall is_u256 st0)
  (short0 : Z.of_nat (length st0) < modulus).

Local Abbreviation known := (known (blockOp w0) (blockSeqop w0 ω) (blockPushed st0)).
Local Abbreviation block_fed := (block_fed (keccak256 := keccak256) w0 st0 ω).

Lemma empty_stack cl v : stack_ok st0 emptyState cl v st0.
Proof using.
  split; [intros h c Hc; discriminate Hc| |cbn; lia]. intros h Hh _. split; [done|]. unfold at_height. cbn.
  apply (f_equal (fun n => st0 !! n)). lia.
Qed.

Lemma contents_interval h n s m s' cl :
  contents_of h n ∅ s m s' cl -> interval m h n.
Proof using.
  intros Hc p. split.
  - intros Hp. destruct (decide (h <= p < h + Z.of_nat n)) as [|Hn]; [done|].
    destruct (ct_out _ _ _ _ _ _ _ Hc p Hn) as [Hm _]. rewrite Hm in Hp. by destruct Hp.
  - intros Hp. apply (ct_in _ _ _ _ _ _ _ Hc p Hp).
Qed.

(** The classes of the stack at the start. *)
Lemma initial_contents s cl v st :
  known cl v -> stack_ok st0 s cl v st -> let lo := minHeight s in exists s1 I cl1 v1,
    eventually (fun n => stackContents n t (Z.to_nat (0 + 1 - lo)) lo ∅ emptyState cl) (I, (s1, cl1)) /\
    m_stackHeight s1 = 0 /\ known cl1 v1 /\ extends cl cl1 v v1 /\ grows cl cl1 /\
    interval I lo (Z.to_nat (1 - lo)) /\ stack_ok st0 (set_stack 0 I emptyState) cl1 v1 st0 /\
    forall p c, I !! p = Some c -> initial_class cl1 c.
Proof using All.
  intros Hk Hst lo. destruct (minHeight_spec st0 s cl v st Hst) as (Hlo & _ & _ & _ & Hat0). fold lo in Hlo, Hat0.
  destruct (stackContents_runs (keccak256 := keccak256) t rules w0 st0 ω good0 goodω words0 short0
    (Z.to_nat (0 + 1 - lo)) emptyState cl v st0 lo ∅ Hk (empty_stack cl v))
    as (I & s1 & cl1 & v1 & HevI & Hk1 & He1 & _ & Hsame1 & Hst1 & Hg1 & HcI).
  { cbn. lia. }
  { intros p Hp. unfold at_height. cbn [m_stackHeight emptyState]. rewrite Z.sub_0_l. apply Hat0. lia. }
  assert (m_stackElements s1 = I) as HI.
  { apply map_eq. intros p. destruct (decide (lo <= p < lo + Z.of_nat (Z.to_nat (0 + 1 - lo)))) as [Hp|Hp].
    - by destruct (ct_in _ _ _ _ _ _ _ HcI p Hp) as [-> _].
    - destruct (ct_out _ _ _ _ _ _ _ HcI p Hp) as [-> ->]. done. }
  exists s1, I, cl1, v1. split; [done|]. split; [by rewrite Hsame1|]. split; [done|]. split; [done|]. split; [done|]. split.
  { replace (1 - lo) with (0 + 1 - lo) by lia. by eapply contents_interval. }
  split; [rewrite <- HI; rewrite Hsame1 in Hst1; exact Hst1|]. intros p c Hp. rewrite <- HI in Hp.
  by destruct (ct_new _ _ _ _ _ _ _ HcI p c Hp) as [Hp0|Hinit]; [discriminate Hp0|].
Qed.

(** The classes of the stack at the end, which they determine. *)
Lemma final_contents s cl v st w ops :
  block_fed s cl v st w ops -> let lo := minHeight s in let n := Z.to_nat (m_stackHeight s + 1 - lo) in
  exists s2 T cl2 v2,
    eventually (fun f => stackContents f t n lo ∅ s cl) (T, (s2, cl2)) /\
    extends cl cl2 v v2 /\ block_fed s2 cl2 v2 st w ops /\ interval T lo n /\
    (forall p c, T !! p = Some c -> in_range cl2 c) /\
    forall cl' v' st', extends cl2 cl' v2 v' ->
      stack_ok st0 (set_stack (lo + Z.of_nat n - 1) T emptyState) cl' v' st' -> st' = st.
Proof using All.
  intros Hb lo n. pose proof (bf_stack _ _ _ _ _ _ _ _ _ Hb) as Hst.
  destruct (minHeight_spec st0 s cl v st Hst) as (_ & Hlo & Hkeys & Hat & _). fold lo in Hlo, Hkeys, Hat.
  destruct (stackContents_runs (keccak256 := keccak256) t rules w0 st0 ω good0 goodω words0 short0
    n s cl v st lo ∅ (bf_known _ _ _ _ _ _ _ _ _ Hb) Hst)
    as (T & s2 & cl2 & v2 & HevT & Hk2 & He2 & _ & Hsame2 & Hst2 & Hg2 & HcT).
  { unfold n. lia. }
  { intros p Hp. apply Hat. unfold n in Hp. lia. }
  exists s2, T, cl2, v2. split; [done|]. split; [done|]. split; [by eapply block_fed_elements|].
  split; [by eapply contents_interval|]. split.
  - intros p c Hp. destruct (decide (lo <= p < lo + Z.of_nat n)) as [Hin|Hout].
    + destruct (ct_in _ _ _ _ _ _ _ HcT p Hin) as [Hm _]. rewrite Hm in Hp. by apply (so_known _ _ _ _ _ Hst2 p c Hp).
    + destruct (ct_out _ _ _ _ _ _ _ HcT p Hout) as [Hm _]. rewrite Hm in Hp. discriminate Hp.
  - intros cl' v' st' He' Hst'.
    apply (stack_ok_unique st0 _ s2 cl' v' _ _ Hst'); [by eapply stack_ok_extends|cbn; rewrite Hsame2; cbn; unfold n; lia|].
    cbn [set_stack m_stackHeight m_stackElements]. intros p Hp. destruct (decide (lo <= p)) as [Hle|Hlt].
    + by destruct (ct_in _ _ _ _ _ _ _ HcT p ltac:(lia)) as [Hm _].
    + destruct (ct_out _ _ _ _ _ _ _ HcT p ltac:(lia)) as [-> ->]. symmetry. apply eq_None_not_Some.
      intros Hs. apply Hkeys in Hs. lia.
Qed.

(** No store is an element of the stack at the start. *)
Lemma initial_fresh cl v h o c :
  block_stores w0 ω cl v h -> initial_class cl c -> In o h -> expression (fst o) <> c.
Proof using.
  intros Hst (r & it & Hr & Hit & Hty) Ho Heq.
  destruct (ops_class w0 ω cl v h Hst o Ho) as (r' & it' & Hr' & Hit' & Hsto & _).
  rewrite Heq, Hr in Hr'. injection Hr' as <-. rewrite Hit in Hit'. injection Hit' as <-.
  unfold is_store in Hsto. by rewrite Hty in Hsto.
Qed.

(** The code generated from the state at the end of a block. *)
Lemma generated_code s cl v st w ops lo :
  block_fed s cl v st w ops -> lo = minHeight s -> exists s1 I cl1 s2 T cl2,
    eventually (fun n => stackContents n t (Z.to_nat (0 + 1 - lo)) lo ∅ emptyState cl) (I, (s1, cl1)) /\
    m_stackHeight s1 = 0 /\
    eventually (fun n => stackContents n t (Z.to_nat (m_stackHeight s + 1 - lo)) lo ∅ s cl1) (T, (s2, cl2)) /\
    forall d i, classes_size cl2 <= Z.of_nat d -> exists n,
      (exists e, forall k, (n <= k)%nat ->
         generateCode d k t (groupStores ops) i 0 I T (mkGen [] 0 [] ∅ ∅ [] ∅ ∅) cl2 = Throws e) \/
      (exists items r w', (forall k, (n <= k)%nat ->
         generateCode d k t (groupStores ops) i 0 I T (mkGen [] 0 [] ∅ ∅ [] ∅ ∅) cl2 = Done (items, r)) /\
         exec items st0 w0 = Next st w' /\ same w w').
Proof using All.
  intros Hb ->. pose proof (bf_stack _ _ _ _ _ _ _ _ _ Hb) as Hst.
  destruct (minHeight_spec st0 s cl v st Hst) as (Hlo & _). set (lo := minHeight s) in *.
  destruct (initial_contents s cl v st (bf_known _ _ _ _ _ _ _ _ _ Hb) Hst)
    as (s1 & I & cl1 & v1 & HevI & Hh1 & Hk1 & He1 & Hg1 & HiI & HsI & Hinit).
  pose proof (block_fed_grows (keccak256 := keccak256) w0 st0 ω s cl v st w ops cl1 v1 Hb Hk1 He1 Hg1) as Hb1.
  destruct (final_contents s cl1 v1 st w ops Hb1) as (s2 & T & cl2 & v2 & HevT & He2 & Hb2 & HiT & HrT & Huniq).
  destruct (bf_history _ _ _ _ _ _ _ _ _ Hb2) as (h & Hh & Hops). pose proof (bf_known _ _ _ _ _ _ _ _ _ Hb2) as Hk2.
  exists s1, I, cl1, s2, T, cl2. split; [done|]. split; [done|]. split; [done|]. intros d i Hd.
  pose proof (fun cl' v' (Hk' : known cl' v') He Hg =>
    history_stores w0 ω s2 cl2 v2 h cl' v' Hh He Hg ltac:(by destruct Hk' as (_ & _ & ?))) as Hstores.
  pose proof (Hstores cl2 v2 Hk2 (extends_refl _ _) (grows_refl _)) as Hstores2.
  assert (forall p c o, I !! p = Some c -> In o h -> expression (fst o) <> c) as Hfresh.
  { intros p c o Hp Ho. eapply (initial_fresh cl2 v2 h); [done| |done]. eapply initial_class_extends; [exact He2|].
    by eapply Hinit. }
  destruct (generateCode_generates (keccak256 := keccak256) t rules w0 st0 ω good0 goodω words0 h lo Hlo I T
    (Z.to_nat (m_stackHeight s + 1 - lo)) HiI HiT Hfresh d i cl2 v2 (mkGen [] 0 [] ∅ ∅ [] ∅ ∅) Hk2
    (hs_order _ _ _ _ _ _ Hh) Hstores (stack_ok_extends st0 _ _ _ _ _ _ He2 HsI) HrT Hd) as (n & Hn).
  rewrite Hops in Hn. exists n.
  destruct Hn as [Ht|(items & g' & cl' & v' & Hn & Hk' & He' & _ & (st' & w' & Hx & Hgood & Henv & Hcells & Hst'))]; [by left|right].
  exists items, (g', cl'), w'. split; [done|]. apply (Huniq cl' v') in Hst' as ->; [|done]. split; [done|].
  pose proof (bf_state _ _ _ _ _ _ _ _ _ Hb2) as Hs2. apply cells_same.
  - rewrite Hcells, <- (hs_seq _ _ _ _ _ _ Hh). apply same_cells, Hs2.
  - etrans; [symmetry; apply (st_env _ _ _ _ _ _ Hs2)|done].
Qed.

(** The item that breaks the block is fed to the state for the next block. *)
Lemma nextState_eventually s cl v st w ops b :
  block_fed s cl v st w ops -> (forall x, b = Some x -> quiet x) -> breaking_arguments b st ->
  exists next cl' v', eventually (fun n => match b with
      | Some b => kbind (feedItem n t keccak256 b) (fun _ => kret tt) s cl
      | None => Ret (tt, (s, cl))
      end) (tt, (next, cl')) /\ extends cl cl' v v' /\ block_fed s cl' v' st w ops.
Proof using All.
  intros Hb Hq Ha. destruct b as [b|].
  - destruct (feedBreaking_eventually (keccak256 := keccak256) t rules w0 st0 ω good0 goodω words0 short0 s cl v st w ops b Hb
      (Hq b eq_refl) Ha) as (op & s' & cl' & v' & [n Hn] & He & Hb').
    exists s', cl', v'. split; [|by split]. exists n. intros fuel Hf. unfold kbind. by rewrite Hn.
  - exists s, cl, v. split; [exists 0%nat; done|]. split; [apply extends_refl|done].
Qed.

Lemma getOptimizedItems_block s cl v st w ops b :
  block_fed s cl v st w ops -> m_sequenceNumber s + 2 < 2 ^ 32 ->
  (forall x, b = Some x -> quiet x) -> breaking_arguments b st ->
  exists N, forall depth, (N <= depth)%nat -> exists n,
    (exists e, forall fuel, (n <= fuel)%nat ->
       getOptimizedItems fuel t keccak256 depth (mkEliminator emptyState s ops b) cl = Throws e) \/
    (exists code r, (forall fuel, (n <= fuel)%nat ->
       getOptimizedItems fuel t keccak256 depth (mkEliminator emptyState s ops b) cl = Done (code, r)) /\
       optimised st0 w0 b st w code).
Proof using All.
  intros Hb Hq Hquiet Hargs.
  destruct (optimizeBreakingItem_runs (keccak256 := keccak256) t rules w0 st0 ω good0 goodω words0 short0 s cl v b st w ops
    Hb Hq Hargs) as ([ops' b'] & s1 & cl1 & v1 & [n1 H1] & Hk1 & He1 & _ & (st1 & Hops & Hbroken & Hq1 & Hb1)).
  cbn in Hops, Hbroken. subst ops'. destruct (broken_quiet _ _ _ _ Hbroken Hquiet Hargs) as [Hquiet' Hargs'].
  destruct (nextState_eventually s1 cl1 v1 st1 w ops b' Hb1 Hquiet' Hargs') as (next & cl2 & v2 & [n2 H2] & He2 & Hb2).
  destruct (generated_code s1 cl2 v2 st1 w ops _ Hb2 eq_refl) as (s3 & I & cl3 & s4 & T & cl4 & [n3 H3] & Hh3 & [n4 H4] & Hgen).
  exists (Z.to_nat (classes_size cl4)). intros depth Hd. specialize (Hgen depth (m_sequenceNumber s3)).
  destruct Hgen as [n5 Hgen]; [unfold classes_size in *; lia|]. exists (n1 + n2 + n3 + n4 + n5)%nat.
  assert (forall fuel, (n1 + n2 + n3 + n4 + n5 <= fuel)%nat ->
    getOptimizedItems fuel t keccak256 depth (mkEliminator emptyState s ops b) cl =
    match generateCode depth fuel t (groupStores ops) (m_sequenceNumber s3) 0 I T (mkGen [] 0 [] ∅ ∅ [] ∅ ∅) cl4 with
    | Throws err => Throws err
    | NoFuel => NoFuel
    | Done (items, (_, cl)) => Done (items ++ option_list b', (mkEliminator next next [] None, cl))
    end) as Heq.
  { intros fuel Hf. unfold getOptimizedItems. cbn [m_breakingItem m_storeOperations m_state m_initialState].
    rewrite (H1 fuel) by lia. cbn [from_result]. rewrite (H2 fuel) by lia. cbn [from_result].
    fold (minHeight s1). change (m_stackHeight emptyState) with 0. rewrite (H3 fuel) by lia. cbn [from_result]. rewrite (H4 fuel) by lia. cbn [from_result].
    by rewrite Hh3. }
  destruct Hgen as [[e He]|(items & [g cl5] & w' & Hdone & Hx & Hsame)].
  - left. exists e. intros fuel Hf. by rewrite Heq, He by lia.
  - right. exists (items ++ option_list b'), (mkEliminator next next [] None, cl5). split.
    + intros fuel Hf. by rewrite Heq, Hdone by lia.
    + by exists items, b', st1, w'.
Qed.
End Block.

End Correct.

(** ** Blocks of test/libevmasm/Optimiser.cpp *)

Definition num (x : Z) : AssemblyItem := dataItem Push x noLocation.
Definition op (i : Instruction) : AssemblyItem := opItem i noLocation.

(** A hash that only depends on the number of bytes. *)
Definition sizeHash (l : list Z) : Z := Z.of_nat (length l).

(** The items the eliminator makes of a block from the empty state. *)
Definition getCSE (items : list AssemblyItem) : option (list AssemblyItem) :=
  t ← Rules;
  match feedItems 60 t sizeHash (eliminator emptyState) items false emptyClasses with
  | Ret ([], (e, cl)) =>
      match getOptimizedItems 60 t sizeHash 60 e cl with Done (code, _) => Some code | _ => None end
  | _ => None
  end.

Fixpoint items_eqb (a b : list AssemblyItem) : bool :=
  match a, b with
  | [], [] => true
  | x :: a, y :: b => item_eqb x y && items_eqb a b
  | _, _ => false
  end.

(** The tests: the items and what [checkCSE] expects of them. *)
Definition cse_tests : list (list AssemblyItem * list AssemblyItem) := [
  (* cse_negative_stack_access *)
  ([op DUP2; num 0],
   [op DUP2; num 0]);
  (* cse_intermediate_negative_stack *)
  ([op ADD; num 1; op DUP1],
   [op ADD; num 1; op DUP1]);
  (* cse_pop *)
  ([op POP],
   [op POP]);
  (* cse_unneeded_items *)
  ([op ADD; op SWAP1; op POP; num 7; num 8],
   [op ADD; op SWAP1; op POP; num 7; num 8]);
  (* cse_invariants *)
  ([op DUP1; op DUP1; num 0; op OR; op OR],
   [op DUP1]);
  (* cse_double_iszero *)
  ([op GT; op ISZERO; op ISZERO],
   [op GT]);
  (* cse_associativity *)
  ([op DUP1; op DUP1; num 0; op OR; op OR],
   [op DUP1]);
  (* cse_byte_ordering_bug *)
  ([num 31; op CALLVALUE; op BYTE],
   [num 31; op CALLVALUE; op BYTE]);
  (* cse_storage *)
  ([num 0; op SLOAD; num 0; op SLOAD; op ADD; num 0; op SSTORE],
   [num 0; op DUP1; op SLOAD; op DUP1; op ADD; op SWAP1; op SSTORE]);
  (* cse_noninterleaved_storage *)
  ([num 7; op DUP2; op SSTORE; op DUP1; op SLOAD; num 8; op DUP3; op SSTORE],
   [num 8; op DUP2; op SSTORE; num 7]);
  (* cse_interleaved_storage *)
  ([num 7; op DUP2; op SSTORE; op DUP2; op SLOAD; num 0; op DUP3; op SSTORE],
   [num 7; op DUP2; op SSTORE; op DUP2; op SLOAD; num 0; op DUP3; op SSTORE]);
  (* cse_interleaved_storage_same_value *)
  ([num 7; op DUP2; op SSTORE; op DUP2; op SLOAD; num 6; num 1; op ADD; op DUP3; op SSTORE],
   [num 7; op DUP2; op SSTORE; op DUP2; op SLOAD]);
  (* cse_deep_stack *)
  ([op ADD; op SWAP1; op POP; op SWAP8; op POP; op SWAP8; op POP; op SWAP8; op SWAP5; op POP; op POP; op POP; op POP;
    op POP],
   [op SWAP4; op SWAP12; op SWAP3; op SWAP11; op POP; op SWAP1; op SWAP3; op ADD; op SWAP8; op POP; op SWAP6; op POP;
    op POP; op POP; op POP; op POP; op POP]);
  (* cse_jumpi_no_jump *)
  ([num 0; num 1; op DUP2; dataItem PushTag 1 noLocation; op JUMPI],
   [num 0; num 1]);
  (* cse_jumpi_jump *)
  ([num 1; num 1; op DUP2; dataItem PushTag 1 noLocation; op JUMPI],
   [num 1; op DUP1; dataItem PushTag 1 noLocation; op JUMP]);
  (* cse_keccak256_twice_same_location *)
  ([op DUP2; op DUP1; op MSTORE; num 64; op DUP2; op KECCAK256; num 64; op DUP3; op KECCAK256],
   [op DUP2; op DUP1; op MSTORE; num 64; op DUP2; op KECCAK256; op DUP1]);
  (* cse_remove_unwanted_masking_of_address *)
  ([num 1461501637330902918203684832716283019655932542975; op CALLVALUE; op AND],
   [op CALLVALUE; num 1461501637330902918203684832716283019655932542975; op AND])].

#[local] Transparent ruleSet Rules readWord readBytes writeWord toBigEndian fromBigEndian.

Lemma cse_tests_pass :
  forallb (fun p => match getCSE (fst p) with Some code => items_eqb code (snd p) | None => false end) cse_tests = true.
Proof. vm_compute. reflexivity. Qed.

(** A store and a jump that is taken. *)
Definition jump_block : list AssemblyItem := [num 3; num 0; op SSTORE; num 1; dataItem PushTag 1 noLocation].

Lemma jump_block_ok : @block_ok _ _ (memoryWorld sizeHash) jump_block [] initialState.
Proof.
  vm_compute; repeat match goal with |- _ /\ _ => split end; try done; try (intros; discriminate); try lia.
Qed.

Lemma jump_block_runs :
  exists a w, @exec _ _ (memoryWorld sizeHash) jump_block [] initialState = Next [a; 1] w.
Proof. do 2 eexists. vm_compute. reflexivity. Qed.

