(* ===== verification/KnownTheorems.v ===== *)
(** * KnownTheorems: the contract of KnownState

    A block fed from the empty state gives true knowledge of the stack, storage and memory
    the machine ends with; the cache of hashes ignores the length, which is why the hashes
    of the block have to be of whole words; and a join keeps what both states know. *)

From stdpp Require Import sorting.
From S2P Require Import Prelude U256 CommonData Instruction AssemblyItem SemanticInformation Interpreter Pattern RuleList SimplificationRules ExpressionClasses KnownState CommonSubexpressionEliminator Machine RuleSound StateWorld MatchSound ClassSound WordClasses RuleWeight ClassShape ClassQueries InterpreterWorld StoreOrder KnownSound KnownFeed KnownBlock.

#[local] Opaque ruleSet Rules readWord readBytes writeWord toBigEndian fromBigEndian.

Section Knowledge.
Context {W H : Type} `{!World W H} `{!WorldLaws W H} `{!StateWorld W} {keccak256 : list Z -> Z}
  `{!StateLaws W H keccak256}.

(** The classes known of a state are those of the stack [st] and of the storage and memory of
    the world [w], where [v] are the values of the classes.  What is not known of the stack is
    where it was in the stack [st0] the block started with. *)
Record knows_state (st0 : list Z) (s : KnownState) (cl : ExpressionClasses) (v : Z -> Z)
    (st : list Z) (w : W) : Prop := {
  knows_stack h : h <= m_stackHeight s ->
    match m_stackElements s !! h with
    | Some c => st !! Z.to_nat (m_stackHeight s - h) = Some (v c)
    | None => h <= 0 /\ st !! Z.to_nat (m_stackHeight s - h) = st0 !! Z.to_nat (- h)
    end;
  knows_storage k c : m_storageContent s !! k = Some c -> sto w (v k) = v c;
  knows_memory k c : m_memoryContent s !! k = Some c -> readWord (mem w) (v k) = v c;
  knows_constants h c x : m_stackElements s !! h = Some c -> knownConstant cl c = Some (Some x) -> v c = x }.

End Knowledge.

(** ** Joins *)

Section Join.

(** [s'] is [s] with more unions of tags. *)
Definition more_unions (s s' : KnownState) : Prop :=
  (forall c, is_Some (m_tagUnions s !! c) -> is_Some (m_tagUnions s' !! c)) /\
  s' = set_tagUnions (m_tagUnions s') s.

Lemma more_unions_refl s : more_unions s s.
Proof using. split; [done|by destruct s]. Qed.

Lemma more_unions_trans s1 s2 s3 : more_unions s1 s2 -> more_unions s2 s3 -> more_unions s1 s3.
Proof using.
  intros [H1 E1] [H2 E2]. split; [auto|]. rewrite E2, E1. reflexivity.
Qed.

Lemma tagsInExpression_unions c s cl tags s' cl' :
  tagsInExpression c s cl = Ret (tags, (s', cl')) -> s' = s /\ cl' = cl.
Proof using.
  unfold tagsInExpression, kbind, kget, kret, kquery, kclasses. destruct (m_tagUnions s !! c); [by intros [= _ <- <-]|].
  destruct (representative _ c); cbn; [by intros [= _ <- <-]|done].
Qed.

Lemma unionId_lookup unions tags id : unionId unions tags = Some id -> unions !! id = Some tags.
Proof using.
  unfold unionId. destruct (List.find _ _) as [[id' tags']|] eqn:E; [|done]. intros [= <-].
  apply find_some in E as [Hin He]. apply bool_decide_eq_true in He as <-.
  apply elem_of_map_to_list, list_elem_of_In. exact Hin.
Qed.

Lemma tagUnion_unions tags s cl id s' cl' :
  tagUnion tags s cl = Ret (id, (s', cl')) -> more_unions s s' /\ is_Some (m_tagUnions s' !! id).
Proof using.
  unfold tagUnion, kbind, kget, kret, kclasses, kmodify.
  destruct (unionId (m_tagUnions s) tags) as [u|] eqn:E.
  - intros [= <- <- <-]. split; [apply more_unions_refl|]. rewrite (unionId_lookup _ _ _ E). by eexists.
  - destruct (newClass cl noLocation) as [[i cl2]|] eqn:En; cbn [lift]; [|done]. intros [= <- <- <-].
    cbn [m_tagUnions set_tagUnions]. split; [|rewrite lookup_insert_eq; by eexists].
    split; [|reflexivity]. intros c Hc. cbn. destruct (decide (i = c)) as [->|Hne].
    + rewrite lookup_insert_eq. by eexists.
    + by rewrite lookup_insert_ne.
Qed.

(** One element of the stack: what is put in its place, if anything. *)
Definition commonElement (_other : gmap Z Z) (stackDiff height c : Z) (kept : gmap Z Z) : K (gmap Z Z) :=
  match _other !! (height - stackDiff) with
  | None => kret kept
  | Some other =>
      if c =? other then kret (<[height := c]> kept)
      else kbind (tagsInExpression c) (fun theseTags => kbind (tagsInExpression other) (fun otherTags =>
        if negb (bool_decide (theseTags = ∅)) && negb (bool_decide (otherTags = ∅)) then
          kbind (tagUnion (theseTags ∪ otherTags)) (fun u => kret (<[height := u]> kept))
        else kret kept))
  end.

Lemma commonElement_spec _other d h c kept s cl kept' s' cl' :
  commonElement _other d h c kept s cl = Ret (kept', (s', cl')) ->
  more_unions s s' /\
  (if bool_decide (_other !! (h - d) = Some c) then kept' = <[h := c]> kept
   else kept' = kept \/ exists u, kept' = <[h := u]> kept /\ is_Some (m_tagUnions s' !! u)).
Proof using.
  unfold commonElement. destruct (_other !! (h - d)) as [o|] eqn:Eo.
  2: { intros [= <- <- <-]. split; [apply more_unions_refl|by left]. }
  destruct (Z.eqb_spec c o) as [->|Hne].
  { intros [= <- <- <-]. rewrite bool_decide_eq_true_2 by done. split; [apply more_unions_refl|done]. }
  rewrite bool_decide_eq_false_2 by congruence. unfold kbind at 1.
  destruct (tagsInExpression c s cl) as [[t1 [s1 cl1]]| |] eqn:E1; [|done..].
  apply tagsInExpression_unions in E1 as [-> ->]. unfold kbind at 1.
  destruct (tagsInExpression o s cl) as [[t2 [s2 cl2]]| |] eqn:E2; [|done..].
  apply tagsInExpression_unions in E2 as [-> ->]. destruct (_ && _).
  2: { intros [= <- <- <-]. split; [apply more_unions_refl|by left]. }
  unfold kbind at 1. destruct (tagUnion _ s cl) as [[u [s3 cl3]]| |] eqn:E3; [|done..].
  apply tagUnion_unions in E3 as [Hm Hu]. intros [= <- <- <-]. split; [done|]. right. by exists u.
Qed.

Lemma commonElements_cons _other d h c l kept s cl :
  commonElements _other d ((h, c) :: l) kept s cl =
  kbind (commonElement _other d h c kept) (commonElements _other d l) s cl.
Proof using. reflexivity. Qed.

(** Apart from unions, the elements kept are those of both states. *)
Lemma commonElements_spec _other d l : forall kept s cl kept' s' cl',
  NoDup (map fst l) ->
  commonElements _other d l kept s cl = Ret (kept', (s', cl')) ->
  more_unions s s' /\
  (forall h c, In (h, c) l -> _other !! (h - d) = Some c -> kept' !! h = Some c) /\
  (forall h, ~ In h (map fst l) -> kept' !! h = kept !! h) /\
  (forall h c, In h (map fst l) -> kept' !! h = Some c -> m_tagUnions s' !! c = None -> kept !! h = None ->
     In (h, c) l /\ _other !! (h - d) = Some c).
Proof using.
  induction l as [|[h0 c0] l IH]; intros kept s cl kept' s' cl' Hnd.
  - intros [= <- <- <-]. split; [apply more_unions_refl|]. by repeat split.
  - apply NoDup_cons in Hnd as [Hh0 Hnd]. rewrite commonElements_cons. unfold kbind.
    destruct (commonElement _other d h0 c0 kept s cl) as [[kept1 [s1 cl1]]| |] eqn:E; [|done..].
    apply commonElement_spec in E as [Hm1 Hk1]. intros Hr.
    destruct (IH kept1 s1 cl1 kept' s' cl' Hnd Hr) as (Hm & Hin & Hout & Hold). clear IH.
    assert (~ In h0 (map fst l)) as Hh0' by by rewrite <- list_elem_of_In.
    assert (forall h, h <> h0 -> kept1 !! h = kept !! h) as Hk1'.
    { intros h Hne. destruct (bool_decide _); [subst; by rewrite lookup_insert_ne|].
      destruct Hk1 as [->|(u & -> & _)]; [done|by rewrite lookup_insert_ne]. }
    split; [by eapply more_unions_trans|]. split; [|split].
    + intros h c [[= <- <-]|Hc] Ho; [|by apply Hin]. rewrite Hout by done.
      rewrite bool_decide_eq_true_2 in Hk1 by done. subst. apply lookup_insert_eq.
    + intros h Hh. cbn [map In fst] in Hh. rewrite Hout by tauto. apply Hk1'. intros ->. tauto.
    + intros h c [<-|Hh] Hc Hu Hn; cbn [fst] in *.
      * rewrite Hout in Hc by done. case_bool_decide.
        { subst. rewrite lookup_insert_eq in Hc. injection Hc as <-. split; [by left|done]. }
        destruct Hk1 as [->|(u & -> & Hu')]; [congruence|]. rewrite lookup_insert_eq in Hc. injection Hc as ->.
        destruct Hm as [Hm _]. destruct (Hm _ Hu'). congruence.
      * assert (h <> h0) as Hne by (intros ->; done). rewrite <- Hk1' in Hn by done.
        destruct (Hold h c Hh Hc Hu Hn). split; [by right|done].
Qed.

Lemma entries_NoDup m : NoDup (map fst (entries m)).
Proof using.
  apply (NoDup_Permutation_proper _ (map fst (map_to_list m))); [|apply NoDup_fst_map_to_list].
  apply Permutation_map, merge_sort_Permutation.
Qed.

Lemma common_of_entries _other d m s cl kept s' cl' h c :
  commonElements _other d (entries m) ∅ s cl = Ret (kept, (s', cl')) ->
  m_tagUnions s' !! c = None ->
  kept !! h = Some c <-> m !! h = Some c /\ _other !! (h - d) = Some c.
Proof using.
  intros Hc Hu. destruct (commonElements_spec _ _ _ _ _ _ _ _ _ (entries_NoDup m) Hc) as (_ & Hin & Hout & Hold).
  split.
  - intros Hk. destruct (in_dec Z.eq_dec h (map fst (entries m))) as [Hh|Hh].
    + destruct (Hold h c Hh Hk Hu (lookup_empty _)) as [H1 H2]. by apply entries_In in H1.
    + rewrite Hout in Hk by done. by rewrite lookup_empty in Hk.
  - intros [H1 H2]. apply Hin; [by apply entries_In|done].
Qed.

Lemma intersect_lookup (m m' : gmap Z Z) k c : intersect m m' !! k = Some c <-> m !! k = Some c /\ m' !! k = Some c.
Proof using. unfold intersect. rewrite map_lookup_filter_Some. done. Qed.

Lemma shiftDown_lookup n (m : gmap Z Z) h : shiftDown n m !! (h - n) = m !! h.
Proof using.
  unfold shiftDown. assert (Inj eq eq (fun h : Z => h - n)) by (intros x y; lia). exact (lookup_kmap (fun h => h - n) m h).
Qed.

(** C23 What a state knows after [reduceToCommonKnowledge] is what both states knew: an
    element at a distance from the top of the stack has a class, other than a union of tags,
    exactly when it had that class in both, and likewise the slots of the storage and the words
    of the memory.  The height is the smaller of the two. *)
Theorem reduceToCommonKnowledge_common (s other : KnownState) cl combine s' cl' :
  reduceToCommonKnowledge other combine s cl = Ret (tt, (s', cl')) ->
  m_stackHeight s' = Z.min (m_stackHeight s) (m_stackHeight other) /\
  (forall i c, m_tagUnions s' !! c = None ->
     m_stackElements s' !! (m_stackHeight s' - i) = Some c <->
     m_stackElements s !! (m_stackHeight s - i) = Some c /\
     m_stackElements other !! (m_stackHeight other - i) = Some c) /\
  (forall k c, m_storageContent s' !! k = Some c <->
     m_storageContent s !! k = Some c /\ m_storageContent other !! k = Some c) /\
  (forall k c, m_memoryContent s' !! k = Some c <->
     m_memoryContent s !! k = Some c /\ m_memoryContent other !! k = Some c) /\
  m_sequenceNumber s' =
    (if combine then Z.max (m_sequenceNumber s) (m_sequenceNumber other) else m_sequenceNumber s).
Proof using.
  unfold reduceToCommonKnowledge, kbind, kget, kmodify. set (d := m_stackHeight s - m_stackHeight other).
  destruct (commonElements _ d _ ∅ s cl) as [[kept [s1 cl1]]| |] eqn:E; [|done..].
  destruct (commonElements_spec _ _ _ _ _ _ _ _ _ (entries_NoDup _) E) as ([_ Hs1] & _).
  pose proof (fun h c => common_of_entries _ _ _ _ _ _ _ _ h c E) as Hkept. clear E.
  intros Hr. rewrite Hs1 in Hr. cbn in Hr.
  assert (s' = mkKnown (Z.min (m_stackHeight s) (m_stackHeight other))
    (if m_stackHeight other <? m_stackHeight s then shiftDown d kept else kept)
    (if combine then Z.max (m_sequenceNumber s) (m_sequenceNumber other) else m_sequenceNumber s)
    (intersect (m_storageContent s) (m_storageContent other))
    (intersect (m_memoryContent s) (m_memoryContent other))
    (m_knownKeccak256Hashes s) (m_tagUnions s1)) as ->.
  { destruct (Z.ltb_spec (m_stackHeight other) (m_stackHeight s)), combine; injection Hr as <- _;
      unfold set_stack, set_storageContent, set_memoryContent, set_sequenceNumber; cbn; f_equal; lia. }
  clear Hr Hs1. cbn. split; [done|]. split; [|split; [|split]]; [|intros k c; apply intersect_lookup..|done].
  intros i c Hu. destruct (Z.ltb_spec (m_stackHeight other) (m_stackHeight s)).
  - replace (Z.min _ _ - i) with ((m_stackHeight s - i) - d) by lia. rewrite shiftDown_lookup, Hkept by done.
    by replace (m_stackHeight s - i - d) with (m_stackHeight other - i) by lia.
  - rewrite Z.min_l, Hkept by (done || lia).
    by replace (m_stackHeight s - i - d) with (m_stackHeight other - i) by lia.
Qed.
End Join.

(** ** Concrete runs *)

(** [MSTORE(0, 7); KECCAK256(0, 32)]. *)
Definition example_block : list AssemblyItem :=
  [dataItem Push 7 noLocation; dataItem Push 0 noLocation; opItem MSTORE noLocation;
   dataItem Push 32 noLocation; dataItem Push 0 noLocation; opItem KECCAK256 noLocation].

(** A hash that only depends on the number of bytes. *)
Definition lengthHash (l : list Z) : Z := Z.of_nat (length l).

#[local] Transparent toBigEndian fromBigEndian readWord readBytes.

Ltac block_check :=
  vm_compute; repeat match goal with |- _ /\ _ => split end;
  try done; try (intros; discriminate); try lia.

Lemma example_block_ok : @block_ok _ _ (memoryWorld lengthHash) example_block [] initialState.
Proof. block_check. Qed.

(** The stack and the state [MSTORE(0, 7); KECCAK256(0, 32)] ends with. *)
Lemma example_block_runs :
  exists w, @exec _ _ (memoryWorld lengthHash) example_block [] initialState = Next [32] w.
Proof. eexists. vm_compute. reflexivity. Qed.


(** [KECCAK256(0, 32); KECCAK256(0, 31)]. *)
Definition keccak_lengths : list AssemblyItem :=
  [dataItem Push 32 noLocation; dataItem Push 0 noLocation; opItem KECCAK256 noLocation;
   dataItem Push 31 noLocation; dataItem Push 0 noLocation; opItem KECCAK256 noLocation].

Lemma keccak_classes :
  match Rules with
  | Some t =>
      match feedStores 20 t lengthHash keccak_lengths [] emptyState emptyClasses with
      | Ret ([], (s, cl)) =>
          match m_stackElements s !! 1, m_stackElements s !! 2 with Some c, Some c' => c =? c' | _, _ => false end
      | _ => false
      end
  | None => false
  end = true.
Proof. vm_compute. reflexivity. Qed.


(** Two states that agree on the top of the stack, at different heights. *)
Definition high_state : KnownState := mkKnown 2 {[ 1 := 0; 2 := 1 ]} 5 {[ 0 := 1 ]} ∅ ∅ ∅.
Definition low_state : KnownState := mkKnown 1 {[ 1 := 1 ]} 3 {[ 0 := 1; 1 := 1 ]} ∅ ∅ ∅.

Lemma reduceToCommonKnowledge_common_witness :
  exists s' cl', reduceToCommonKnowledge low_state true high_state emptyClasses = Ret (tt, (s', cl')) /\
    m_stackHeight s' = 1 /\ m_stackElements s' !! 1 = Some 1 /\ m_storageContent s' !! 0 = Some 1.
Proof.
  destruct (reduceToCommonKnowledge low_state true high_state emptyClasses) as [[[] [s' cl']]| |] eqn:E;
    [|discriminate E..].
  exists s', cl'. split; [reflexivity|].
  assert (m_tagUnions s' !! 1 = None) as Hu by (vm_compute in E; by injection E as <- _).
  destruct (reduceToCommonKnowledge_common _ _ _ _ _ _ E) as (Hh & Hst & Hsto & _).
  split; [exact Hh|]. split; [|by apply Hsto].
  rewrite Hh in Hst. by apply (Hst 0 1 Hu).
Defined.
