(* ===== verification/GasBound.v ===== *)
(** * GasBound: what GasMeter estimates is at least what an instruction costs

    [ownGas] and [memoryCost] give the cost of an instruction on the actual operands and storage,
    over unbounded integers; the meter's estimate is at least that, as long as what it knows is
    true of the machine and the memory accessed lies below 2^128, where no cost wraps.  [estimateMax]
    of any item keeps within these bounds. *)

From S2P Require Import Prelude U256 CommonData Instruction EVMVersion AssemblyItem SemanticInformation Interpreter Pattern RuleList SimplificationRules ExpressionClasses KnownState GasMeter GasEstimate Machine RuleSound StateWorld MatchSound ClassSound WordClasses ClassShape ClassQueries KnownSound KnownFeed.

#[local] Opaque ruleSet Rules readWord readBytes writeWord toBigEndian fromBigEndian.

(** ** Costs *)

(** The cost of memory up to a position, of 32-byte words. *)
Definition memoryCost (pos : Z) : Z :=
  let size := (pos + 31) / 32 in 3 * size + size * size / 512.

Definition operand (st : list Z) (k : nat) : Z := nth k st 0.

(** The memory an instruction accesses: offset and size. *)
Definition instructionSpans (i : Instruction) (st : list Z) : list (Z * Z) :=
  let o := operand st in
  match i with
  | MLOAD | MSTORE => [(o 0%nat, 32)]
  | MSTORE8 => [(o 0%nat, 1)]
  | RETURN | REVERT | KECCAK256 | LOG0 | LOG1 | LOG2 | LOG3 | LOG4 => [(o 0%nat, o 1%nat)]
  | CALLDATACOPY | CODECOPY | RETURNDATACOPY => [(o 0%nat, o 2%nat)]
  | EXTCODECOPY => [(o 1%nat, o 3%nat)]
  | CALL | CALLCODE => [(o 3%nat, o 4%nat); (o 5%nat, o 6%nat)]
  | DELEGATECALL | STATICCALL => [(o 2%nat, o 3%nat); (o 4%nat, o 5%nat)]
  | CREATE | CREATE2 => [(o 1%nat, o 2%nat)]
  | _ => []
  end.

Definition spans (it : AssemblyItem) (st : list Z) : list (Z * Z) :=
  match m_type it with Operation => instructionSpans (m_instruction it) st | _ => [] end.

(** Where a span ends; an empty one accesses nothing. *)
Definition span_end (s : Z * Z) : Z := if snd s =? 0 then 0 else fst s + snd s.
Definition reach (l : list (Z * Z)) : Z := fold_right (fun s m => Z.max (span_end s) m) 0 l.

(** The spans lie below 2^128. *)
Definition low (l : list (Z * Z)) : Prop := Forall (fun s => 0 <= fst s /\ 0 <= snd s /\ fst s + snd s < 2 ^ 128) l.

Definition wordCount (size : Z) : Z := (size + 31) / 32.

Section Cost.
Context (version : EVMVersion) (sto : Z -> Z) (newAccount : bool).

(** The cost of an instruction apart from memory: of the tier, of the words and bytes it works
    on, of the storage it changes, and of the account and the value of a call. *)
Definition instructionCost (i : Instruction) (st : list Z) : Z :=
  let o := operand st in
  let account := if newAccount then GasCosts.callNewAccountGas else 0 in
  let transfer := if o 2%nat =? 0 then 0 else GasCosts.callValueTransferGas in
  match i with
  | SSTORE =>
      if (o 1%nat =? 0) || negb (sto (o 0%nat) =? 0) then GasCosts.sstoreResetGas else GasCosts.sstoreSetGas
  | SLOAD => GasCosts.sloadGas version
  | KECCAK256 => GasCosts.keccak256Gas + GasCosts.keccak256WordGas * wordCount (o 1%nat)
  | CALLDATACOPY | CODECOPY | RETURNDATACOPY => default 0 (runGas i) + GasCosts.copyGas * wordCount (o 2%nat)
  | EXTCODECOPY => GasCosts.extCodeGas version + GasCosts.copyGas * wordCount (o 3%nat)
  | EXTCODESIZE => GasCosts.extCodeGas version
  | EXTCODEHASH | BALANCE => GasCosts.balanceGas version
  | LOG0 | LOG1 | LOG2 | LOG3 | LOG4 =>
      GasCosts.logGas + GasCosts.logTopicGas * getLogNumber i + GasCosts.logDataGas * o 1%nat
  | CALL => GasCosts.callGas version + o 0%nat + account + transfer
  | CALLCODE => GasCosts.callGas version + o 0%nat + transfer
  | DELEGATECALL | STATICCALL => GasCosts.callGas version + o 0%nat
  | SELFDESTRUCT => GasCosts.selfdestructGas version + account
  | CREATE | CREATE2 => GasCosts.createGas
  | EXP => GasCosts.expGas + GasCosts.expByteGas version * Z.of_nat (bytesRequired (o 1%nat))
  | _ => default 0 (runGas i)
  end.

Definition ownGas (it : AssemblyItem) (st : list Z) : Z :=
  match m_type it with
  | Operation => instructionCost (m_instruction it) st
  | Tag => 1
  | Push | PushTag | PushData | PushString | PushSub | PushSubSize | PushProgramSize | PushLibraryAddress
  | PushDeployTimeAddress => GasCosts.tier2Gas
  | _ => 0
  end.
End Cost.

(** The instructions the meter has a cost for: not the signals and those without a row in the table. *)
Definition metered (it : AssemblyItem) : bool :=
  match m_type it with
  | Operation =>
      match m_instruction it with
      | SSTORE | SLOAD | KECCAK256 | EXTCODESIZE | EXTCODEHASH | BALANCE | EXTCODECOPY | LOG0 | LOG1 | LOG2 | LOG3
      | LOG4 | CALL | CALLCODE | DELEGATECALL | STATICCALL | SELFDESTRUCT | CREATE | CREATE2 | EXP => true
      | i => match runGas i with Some _ => true | None => false end
      end
  | _ => true
  end.

(** ** Arithmetic of costs *)

Lemma memGas_cost pos : 0 <= pos < 2 ^ 128 -> memGas pos = memoryCost pos /\ 0 <= memoryCost pos < 2 ^ 250.
Proof.
  intros Hp. unfold memGas, memoryCost, GasCosts.memoryGas, GasCosts.quadCoeffDiv.
  assert (u256_add pos 31 = pos + 31) as -> by (apply u256_id; unfold is_u256, modulus; lia).
  set (size := (pos + 31) / 32). assert (0 <= size < 2 ^ 124) as Hs.
  { unfold size. split; [apply Z.div_pos; lia|apply Z.div_lt_upper_bound; lia]. }
  clearbody size. assert (0 <= size * size < 2 ^ 248) as Hq by nia.
  assert (0 <= size * size / 512 < 2 ^ 248) as Hd.
  { split; [apply Z.div_pos; lia|apply Z.div_lt_upper_bound; lia]. }
  unfold u256_mul. rewrite !u256_id by (unfold is_u256, modulus; lia).
  unfold u256_add. rewrite u256_id by (unfold is_u256, modulus; lia). lia.
Qed.

Lemma memoryCost_mono a b : 0 <= a <= b -> memoryCost a <= memoryCost b.
Proof.
  intros H. unfold memoryCost. set (x := (a + 31) / 32). set (y := (b + 31) / 32).
  assert (0 <= x <= y) as Hxy by (split; [apply Z.div_pos; lia|apply Z.div_le_mono; lia]).
  clearbody x y. assert (x * x / 512 <= y * y / 512) by (apply Z.div_le_mono; nia). lia.
Qed.

(** The estimate [r] covers the cost [own], and the memory from [l] to [p]. *)
Definition covers (own l p : Z) (r : GasConsumption * Z) : Prop :=
  gas_wf (fst r) /\ l <= snd r < 2 ^ 128 /\
  (isInfinite (fst r) = true \/
   own + (memoryCost (snd r) - memoryCost l) <= GasMeter.value (fst r) /\ p <= snd r).

Lemma gas_wf_gas n : is_u256 n -> gas_wf (gas n).
Proof. intros Hn. by split. Qed.

Lemma gas_wf_infinite : gas_wf infinite.
Proof. split; [apply is_u256_0|done]. Qed.

(** A sum is infinite or at least the sum of what its terms cover. *)
Lemma gas_add_covers g h a b :
  gas_wf g -> gas_wf h -> isInfinite g = true \/ a <= GasMeter.value g -> isInfinite h = true \/ b <= GasMeter.value h ->
  gas_wf (gas_add g h) /\ (isInfinite (gas_add g h) = true \/ a + b <= GasMeter.value (gas_add g h)).
Proof.
  intros Hg Hh Ha Hb. destruct (gas_add_ok g h Hg Hh) as [Hw He]. split; [done|].
  unfold amount in He. destruct (isInfinite g); [destruct (isInfinite (gas_add g h)); [by left|done]|].
  destruct (isInfinite h); [destruct (isInfinite (gas_add g h)); [by left|done]|].
  destruct (isInfinite (gas_add g h)); [by left|right]. destruct Ha, Hb; try done.
  unfold amount_add in He. cbn in He. destruct (_ <? _); [|done]. injection He as ->. lia.
Qed.

Lemma infinite_sum g h : gas_wf g -> gas_wf h -> isInfinite g = true \/ isInfinite h = true -> isInfinite (gas_add g h) = true.
Proof.
  intros Hg Hh Hi. destruct (gas_add_ok g h Hg Hh) as [_ He]. unfold amount in He.
  destruct (isInfinite (gas_add g h)); [done|]. destruct (isInfinite g), (isInfinite h), Hi; done.
Qed.

(** One estimate after the other. *)
Lemma covers_seq a b l p q r r' :
  covers a l p r -> covers b (snd r) q r' -> covers (a + b) l (Z.max p q) (gas_add (fst r) (fst r'), snd r').
Proof.
  intros (Hw & Hl & Hc) (Hw' & Hl' & Hc'). unfold covers. cbn [fst snd].
  destruct (gas_add_covers (fst r) (fst r') (a + (memoryCost (snd r) - memoryCost l))
    (b + (memoryCost (snd r') - memoryCost (snd r))) Hw Hw') as [Hw2 Hc2];
    [destruct Hc as [|[]]; [by left|by right]|destruct Hc' as [|[]]; [by left|by right]|].
  split; [done|]. split; [lia|]. destruct Hc2 as [Hi|Hc2]; [by left|].
  destruct Hc as [Hc|[_ Hp]]; [left; apply infinite_sum; auto|].
  destruct Hc' as [Hc'|[_ Hq]]; [left; apply infinite_sum; auto|]. right. lia.
Qed.

(** A cost without memory. *)
Lemma covers_own own l g :
  0 <= l < 2 ^ 128 -> gas_wf g -> isInfinite g = true \/ own <= GasMeter.value g -> covers own l 0 (g, l).
Proof.
  intros Hl Hg [Hi|Ho]; split; [done|split; [cbn; lia|by left]|done|split; [cbn; lia|right; cbn; lia]].
Qed.

Lemma covers_gas own n l : 0 <= l < 2 ^ 128 -> is_u256 n -> own <= n -> covers own l 0 (gas n, l).
Proof. intros Hl Hn Ho. apply covers_own; [done|by apply gas_wf_gas|by right]. Qed.

Lemma covers_infinite own l p q : 0 <= l <= q -> q < 2 ^ 128 -> covers own l p (infinite, q).
Proof. intros Hl Hq. split; [apply gas_wf_infinite|]. split; [cbn; lia|by left]. Qed.

Lemma covers_le own own' l p p' r : own' <= own -> p' <= p -> covers own l p r -> covers own' l p' r.
Proof. intros Ho Hp (Hw & Hl & Hc). split; [done|]. split; [done|]. destruct Hc as [Hc|[Hc Hr]]; [by left|right; lia]. Qed.

Lemma runGas_range i n : runGas i = Some n -> 0 <= n <= 20.
Proof. unfold runGas. destruct (bool_decide _); [|destruct (gasPriceTier _)]; intros [= <-]; vm_compute; split; discriminate. Qed.

Lemma small_word n : 0 <= n < 2 ^ 255 -> is_u256 n.
Proof. unfold is_u256, modulus. lia. Qed.

Lemma significant_bytes v : 0 < v < modulus -> Z.of_nat (bytesRequired v) <= (Z.log2 v + 1 + 7) / 8 <= 32.
Proof.
  intros Hv. set (n := (Z.log2 v + 1 + 7) / 8). pose proof (Z.log2_nonneg v) as H0. pose proof (Z.log2_spec v (proj1 Hv)) as [_ Hlt].
  assert (0 <= n) as Hn by (apply Z.div_pos; lia). split.
  - assert (bytesRequired v <= Z.to_nat n)%nat; [|lia]. apply bytesRequired_le; [unfold is_u256; lia|].
    rewrite Z2Nat.id by done. eapply Z.lt_le_trans; [exact Hlt|]. change 256 with (2 ^ 8). rewrite <- Z.pow_mul_r by lia.
    apply Z.pow_le_mono_r; [lia|]. pose proof (Z.div_mod (Z.log2 v + 1 + 7) 8 ltac:(lia)). fold n in H.
    pose proof (Z.mod_pos_bound (Z.log2 v + 1 + 7) 8 ltac:(lia)). lia.
  - assert (Z.log2 v < 256) by (apply Z.log2_lt_pow2; [lia|apply Hv]). assert (n < 33); [apply Z.div_lt_upper_bound; lia|lia].
Qed.

Lemma operand_lookup st k : (k < length st)%nat -> st !! k = Some (operand st k).
Proof. intros Hk. destruct (lookup_lt_is_Some_2 st k Hk) as [x Hx]. unfold operand. by rewrite nth_lookup, Hx. Qed.

(** A word of the stack. *)
Lemma operand_word st k : Forall is_u256 st -> (k < length st)%nat -> is_u256 (operand st k).
Proof. intros Hw Hk. by apply (Forall_lookup_1 _ _ _ _ Hw (operand_lookup st k Hk)). Qed.

Lemma span_low st ko ks : low [(operand st ko, operand st ks)] -> 0 <= operand st ks < 2 ^ 128.
Proof. intros [[L1 [L2 L3]] _]%Forall_cons. cbn [fst snd] in *. lia. Qed.

(** The costs that depend on the version. *)
Lemma fixed_covers n l : 0 <= l < 2 ^ 128 -> 0 <= n < 2 ^ 64 -> covers n l 0 (gas n, l).
Proof. intros Hl Hn. apply covers_gas; [done|apply small_word; lia|done]. Qed.

Lemma version_costs v :
  (0 <= GasCosts.balanceGas v < 2 ^ 64) /\ (0 <= GasCosts.extCodeGas v < 2 ^ 64) /\
  (0 <= GasCosts.sloadGas v < 2 ^ 64) /\ (0 <= GasCosts.selfdestructGas v < 2 ^ 64).
Proof. destruct v; vm_compute; repeat split; discriminate. Qed.

(** ** The meter on a true state *)

Section Meter.
Context {W H : Type} `{!World W H} `{!WorldLaws W H} `{!StateWorld W} {keccak256 : list Z -> Z}
  `{!StateLaws W H keccak256}.
Context (t : RuleTable) (rules : valid_rules t) (version : EVMVersion).
Context (w0 : W) (st0 : list Z) (ω : Z -> W).
Context (good0 : good w0) (goodω : forall s, good (ω s)) (words0 : Forall is_u256 st0)
  (short0 : Z.of_nat (length st0) < modulus).

Local Abbreviation known := (known (blockOp w0) (blockSeqop w0 ω) (blockPushed st0)).
Local Abbreviation runs := (runs w0 st0 ω).
Local Abbreviation stack_ok := (stack_ok st0).
Local Abbreviation state_ok := (state_ok (keccak256 := keccak256) w0 ω).

#[local] Instance block_words : WordSemantics (blockOp w0).
Proof using WorldLaws0 StateLaws0 good0. exact (blockOp_words w0 good0). Qed.

(** What the meter knows is true of the stack [st] and the world [w]. *)
Record true_of (st : list Z) (w : W) (s : KnownState) (cl : ExpressionClasses) (v : Z -> Z) : Prop := {
  to_known : known cl v;
  to_stack : stack_ok s cl v st;
  to_state : state_ok s cl v w }.

(** Operations that only add to what is known. *)
Definition meters {A} (st : list Z) (w : W) (m : nat -> K A) (s : KnownState) (cl : ExpressionClasses) (v : Z -> Z)
    (Q : A -> ExpressionClasses -> (Z -> Z) -> Prop) : Prop :=
  runs m s cl v (fun a s' cl' v' => same_but_elements s s' /\ true_of st w s' cl' v' /\ Q a cl' v').

Lemma meters_ret {A} st w (a : A) s cl v (Q : A -> ExpressionClasses -> (Z -> Z) -> Prop) :
  true_of st w s cl v -> Q a cl v -> meters st w (fun _ => kret a) s cl v Q.
Proof using. intros Hs HQ. apply runs_ret; [apply Hs|]. split; [apply same_but_elements_refl|done]. Qed.

Lemma meters_bind {A B} st w (m : nat -> K A) (k : nat -> A -> K B) s cl v Q R :
  meters st w m s cl v Q ->
  (forall a s' cl' v', true_of st w s' cl' v' -> extends cl cl' v v' -> m_storageContent s' = m_storageContent s ->
     Q a cl' v' -> meters st w (fun n => k n a) s' cl' v' R) ->
  meters st w (fun n => kbind (m n) (k n)) s cl v R.
Proof using.
  intros Hm Hk. eapply runs_bind; [exact Hm|]. intros a s1 cl1 v1 _ He (Hb & Hs & HQ).
  eapply runs_last; [apply (Hk a s1 cl1 v1 Hs He); [by rewrite Hb|done]|].
  intros b s2 cl2 v2 _ _ (Hb2 & Hs2 & HR). split; [by eapply same_but_elements_trans|done].
Qed.

Lemma meters_last {A} st w (m : nat -> K A) s cl v (Q R : A -> ExpressionClasses -> (Z -> Z) -> Prop) :
  meters st w m s cl v Q -> (forall a cl' v', extends cl cl' v v' -> Q a cl' v' -> R a cl' v') -> meters st w m s cl v R.
Proof using.
  intros Hm HR. eapply runs_last; [exact Hm|]. intros a s' cl' v' _ He (Hb & Hs & HQ). split; [done|]. split; [done|].
  by apply HR.
Qed.

(** An element of the stack. *)
Lemma relative_meters st w s cl v k x :
  true_of st w s cl v -> st !! k = Some x ->
  meters st w (fun n => relative n t (- Z.of_nat k)) s cl v (fun c cl' v' => in_range cl' c /\ v' c = x).
Proof using All.
  intros [Hk Hs Hw] Hx. unfold relative, relativeStackElement. apply runs_get.
  eapply runs_last; [apply (stackElement_runs t rules w0 st0 ω good0 goodω words0 short0 s cl v st _ noLocation x Hk Hs); [lia|]|].
  - unfold at_height. rewrite <- Hx. apply (f_equal (fun n => st !! n)). lia.
  - intros c s' cl' v' Hk' He (Hb & Hs' & Hc & Hv & _). split; [done|]. split; [|done]. split; [done|done|].
    eapply state_ok_same_but_elements; [exact Hb|]. by eapply state_ok_extends.
Qed.

(** A new class. *)
Lemma find_meters st w s cl v it l :
  true_of st w s cl v -> item_ok it (length l) -> asked it 0 l -> Forall (in_range cl) l ->
  meters st w (fun n => findClass n t 0 it l) s cl v (fun i cl' v' => in_range cl' i /\
    v' i = item_value (wordSemantics (blockOp w0) (blockSeqop w0 ω) (blockPushed st0)) it 0 (map v l)).
Proof using All.
  intros [Hk Hs Hw] Hit Ha Hl.
  eapply runs_last; [apply (find_runs t rules w0 st0 ω good0 goodω words0 short0); try done; by left|].
  intros i s' cl' v' Hk' He (-> & Hi & Hv). split; [apply same_but_elements_refl|]. split; [|done].
  split; [done|by eapply stack_ok_extends|by eapply state_ok_extends].
Qed.

(** A query that does not change the classes. *)
Lemma query_meters {A} st w s cl v (f : ExpressionClasses -> option A) a (Q : A -> ExpressionClasses -> (Z -> Z) -> Prop) :
  true_of st w s cl v -> f cl = Some a -> Q a cl v -> meters st w (fun _ => kquery f) s cl v Q.
Proof using.
  intros Hs Hf HQ. exists a, s, cl, v. split; [exists 0%nat; intros n _; unfold kquery, kclasses; by rewrite Hf|].
  split; [apply Hs|]. split; [apply extends_refl|]. split; [apply added_refl|]. split; [apply same_but_elements_refl|done].
Qed.

Lemma knownValue_meters st w s cl v c :
  true_of st w s cl v -> in_range cl c ->
  meters st w (fun _ => knownValue c) s cl v (fun o _ _ => forall x, o = Some x -> v c = x).
Proof using All.
  intros Hs Hc. destruct (knownConstant_answers _ _ _ (blockSeqop_pure w0 ω) (blockSeqop_range w0 ω goodω)
    (blockPushed_range st0 words0) t rules cl v c (to_known _ _ _ _ _ Hs) Hc) as (o & Ho & Hv).
  by eapply query_meters.
Qed.

Lemma knownZero_meters st w s cl v c :
  true_of st w s cl v -> in_range cl c ->
  meters st w (fun _ => kquery (fun cl => knownZero cl c)) s cl v (fun b _ _ => b = true -> v c = 0).
Proof using All.
  intros Hs Hc. destruct (matchesClass_answers _ _ _ (blockSeqop_pure w0 ω) (blockSeqop_range w0 ω goodω)
    (blockPushed_range st0 words0) t rules cl v 0 c (to_known _ _ _ _ _ Hs) is_u256_0 Hc) as (o & Ho & Hv).
  by eapply query_meters.
Qed.

(** The sum of two classes. *)
Lemma add_meters st w s cl v a b :
  true_of st w s cl v -> in_range cl a -> in_range cl b ->
  meters st w (fun n => findClass n t 0 (opItem ADD noLocation) [a; b]) s cl v
    (fun c cl' v' => in_range cl' c /\ v' c = u256_add (v a) (v b)).
Proof using All.
  intros Hs Ha Hb. pose proof (to_known _ _ _ _ _ Hs) as Hk. eapply meters_last; [apply find_meters; [done|done|done|constructor; [done|by apply Forall_singleton]]|].
  intros c cl' v' _ [Hc Hv]. split; [done|]. rewrite Hv. unfold item_value. cbn [m_type opItem m_instruction map].
  cbn [sem_seqop wordSemantics]. rewrite blockSeqop_pure by done. by rewrite op_ADD by (apply _ || by eapply known_word).
Qed.

Lemma memoryGasAt_meters st w s cl v c pos l :
  true_of st w s cl v -> in_range cl c -> v c = pos -> 0 <= pos < 2 ^ 128 -> 0 <= l < 2 ^ 128 ->
  meters st w (fun _ => memoryGasAt c l) s cl v (fun r _ _ => covers 0 l pos r).
Proof using All.
  intros Hs Hc Hpos Hp Hl. unfold memoryGasAt. eapply meters_bind; [by apply knownValue_meters|].
  intros o s1 cl1 v1 Hs1 _ _ Hx. destruct o as [x|]; [|by apply meters_ret; [|apply covers_infinite; lia]].
  pose proof (Hx x eq_refl) as Hvx. assert (x = pos) as -> by congruence.
  destruct (Z.ltb_spec pos l); (apply meters_ret; [done|]).
  - split; [by apply gas_wf_gas|]. cbn [fst snd gas GasMeter.value]. split; [lia|right; lia].
  - destruct (memGas_cost pos Hp) as [-> Hcp], (memGas_cost l Hl) as [-> Hcl].
    pose proof (memoryCost_mono l pos ltac:(lia)).
    assert (u256_sub (memoryCost pos) (memoryCost l) = memoryCost pos - memoryCost l) as ->
      by (apply u256_id, small_word; lia).
    split; [apply gas_wf_gas, small_word; lia|]. cbn [fst snd gas GasMeter.value]. split; [lia|right; lia].
Qed.

Lemma memoryGasOf_meters st w s cl v ko ks o sz l :
  true_of st w s cl v -> st !! ko = Some o -> st !! ks = Some sz ->
  0 <= o -> 0 <= sz -> o + sz < 2 ^ 128 -> 0 <= l < 2 ^ 128 ->
  meters st w (fun n => memoryGasOf n t (- Z.of_nat ko) (- Z.of_nat ks) l) s cl v
    (fun r _ _ => covers 0 l (span_end (o, sz)) r).
Proof using All.
  intros Hs Ho Hz Ho0 Hz0 Hlow Hl. unfold memoryGasOf.
  eapply meters_bind; [by apply relative_meters|]. intros c s1 cl1 v1 Hs1 _ _ [Hc Hvc].
  eapply meters_bind; [by apply knownZero_meters|]. intros zero s2 cl2 v2 Hs2 _ _ Hzero.
  destruct zero.
  { apply meters_ret; [done|]. unfold span_end. cbn [fst snd]. rewrite <- Hvc, (Hzero eq_refl). cbn [Z.eqb].
    apply covers_gas; [done|apply is_u256_0|done]. }
  eapply meters_bind; [by apply relative_meters|]. intros a s3 cl3 v3 Hs3 _ _ [Ha Hva].
  eapply meters_bind; [by apply relative_meters|]. intros b s4 cl4 v4 Hs4 He4 _ [Hb Hvb].
  eapply meters_bind; [apply add_meters; [done|by eapply extends_in_range|done]|].
  intros p s5 cl5 v5 Hs5 _ _ [Hp Hvp]. eapply meters_last; [apply (memoryGasAt_meters _ _ _ _ _ _ (o + sz)); try done; [|lia]|].
  - rewrite Hvp, Hvb, (ext_value _ _ _ _ He4 a Ha), Hva. apply u256_id, small_word. lia.
  - intros r cl' v' _ Hr. refine (covers_le _ _ _ _ _ _ _ _ Hr); [done|]. unfold span_end. cbn [fst snd].
    destruct (sz =? 0); lia.
Qed.

(** [gas += memoryGas] after what [g] covers. *)
Lemma plus_meters st w s cl v g (m : nat -> K (GasConsumption * Z)) own l p q :
  covers own l p (g, l) -> true_of st w s cl v -> meters st w m s cl v (fun r _ _ => covers 0 l q r) ->
  meters st w (fun n => plus g (m n)) s cl v (fun r _ _ => covers own l (Z.max p q) r).
Proof using.
  intros Hg Hs Hm. unfold plus. eapply meters_bind; [exact Hm|]. intros r s1 cl1 v1 Hs1 _ _ Hr.
  apply meters_ret; [done|]. rewrite <- (Z.add_0_r own). by apply (covers_seq own 0 l p q (g, l) r).
Qed.

Lemma accessGas_meters st w s cl v n g own o l :
  covers own l 0 (g, l) -> true_of st w s cl v -> st !! 0%nat = Some o ->
  0 <= n < 2 ^ 64 -> 0 <= o -> o + n < 2 ^ 128 -> 0 <= l < 2 ^ 128 ->
  meters st w (fun f => accessGas f t n g l) s cl v (fun r _ _ => covers own l (o + n) r).
Proof using All.
  intros Hg Hs Ho Hn Ho0 Hlow Hl. unfold accessGas.
  eapply meters_bind; [by apply (relative_meters st w s cl v 0 o)|]. intros a s1 cl1 v1 Hs1 _ _ [Ha Hva].
  eapply meters_bind; [apply find_meters; [done|split; [done|]|done|constructor]|].
  { intros _. cbn. apply small_word. lia. }
  intros b s2 cl2 v2 Hs2 He2 _ [Hb Hvb]. cbn [map] in Hvb.
  eapply meters_bind; [apply add_meters; [done|by eapply extends_in_range|done]|].
  intros p s3 cl3 v3 Hs3 _ _ [Hp Hvp]. eapply meters_last; [apply (plus_meters _ _ _ _ _ g (fun _ => memoryGasAt p l) own l 0 (o + n)); [done|done|]|].
  - apply memoryGasAt_meters; try done; [|lia].
    rewrite Hvp, (ext_value _ _ _ _ He2 a Ha), Hva, Hvb. cbn. apply u256_id, small_word. lia.
  - intros r cl' v' _ Hr. refine (covers_le _ _ _ _ _ _ _ _ Hr); [done|]. lia.
Qed.

(** [gas += wordGas] after what [m] covers. *)
Lemma words_meters st w s cl v mult k x (m : nat -> K (GasConsumption * Z)) own l p :
  true_of st w s cl v -> st !! k = Some x -> 0 <= x < 2 ^ 128 -> 0 <= mult < 2 ^ 64 -> 0 <= l ->
  meters st w m s cl v (fun r _ _ => covers own l p r) ->
  meters st w (fun n => words n t mult (- Z.of_nat k) (m n)) s cl v (fun r _ _ => covers (own + mult * wordCount x) l p r).
Proof using All.
  intros Hs Hx Hx0 Hm Hl Hc. unfold words. eapply meters_bind; [exact Hc|]. intros r s1 cl1 v1 Hs1 _ _ Hr.
  eapply meters_bind; [by apply relative_meters|]. intros c s2 cl2 v2 Hs2 _ _ [Hc2 Hvc].
  eapply (meters_bind _ _ (fun _ => wordGas mult c) _ _ _ _ (fun g _ _ => covers (mult * wordCount x) (snd r) 0 (g, snd r))).
  - unfold wordGas. eapply meters_bind; [by apply knownValue_meters|]. intros o s3 cl3 v3 Hs3 _ _ Ho.
    destruct Hr as (_ & Hr & _). destruct o as [y|]; [|by apply meters_ret; [|apply covers_infinite; lia]].
    assert (y = x) as -> by (rewrite <- (Ho y eq_refl); done). apply meters_ret; [done|].
    assert (u256_add x 31 = x + 31) as -> by (apply u256_id, small_word; lia). fold (wordCount x).
    assert (0 <= wordCount x < 2 ^ 128) as Hw.
    { unfold wordCount. split; [apply Z.div_pos; lia|apply Z.div_lt_upper_bound; lia]. }
    assert (u256_mul mult (wordCount x) = mult * wordCount x) as -> by (apply u256_id, small_word; nia).
    apply covers_gas; [lia|apply small_word; nia|done].
  - intros g s3 cl3 v3 Hs3 _ _ Hg. apply meters_ret; [done|].
    refine (covers_le _ _ _ _ _ _ _ _ (covers_seq own (mult * wordCount x) l p 0 r (g, snd r) Hr Hg)); [done|lia].
Qed.

Lemma run_meters st w s cl v i n : true_of st w s cl v -> runGas i = Some n ->
  meters st w (fun _ => GasEstimate.run i) s cl v (fun g _ _ => g = gas n).
Proof using.
  intros Hs Hn. unfold GasEstimate.run. eapply (meters_bind _ _ (fun _ => klift (runGas i)) _ _ _ _ (fun k _ _ => k = n)).
  - exists n, s, cl, v. split; [exists 0%nat; intros f _; unfold klift; by rewrite Hn|]. split; [apply Hs|].
    split; [apply extends_refl|]. split; [apply added_refl|]. split; [apply same_but_elements_refl|done].
  - intros k s1 cl1 v1 Hs1 _ _ ->. by apply meters_ret.
Qed.

Lemma sstoreGas_meters st w s cl v slot x l :
  true_of st w s cl v -> st !! 0%nat = Some slot -> st !! 1%nat = Some x -> 0 <= l < 2 ^ 128 ->
  meters st w (fun n => sstoreGas n t) s cl v (fun g _ _ => covers
    (if (x =? 0) || negb (sto w slot =? 0) then GasCosts.sstoreResetGas else GasCosts.sstoreSetGas) l 0 (g, l)).
Proof using All.
  intros Hs H0 H1 Hl. set (cost := if _ : bool then _ else _). unfold sstoreGas.
  assert (covers cost l 0 (gas GasCosts.sstoreSetGas, l)) as Hset
    by (apply covers_gas; [done|by apply small_word|unfold cost; by destruct (_ || _)]).
  assert ((x =? 0) || negb (sto w slot =? 0) = true -> covers cost l 0 (gas GasCosts.sstoreResetGas, l)) as Hreset
    by (intros Hc; apply covers_gas; [done|by apply small_word|unfold cost; by rewrite Hc]).
  eapply meters_bind; [by apply (relative_meters st w s cl v 0 slot)|]. intros a s1 cl1 v1 Hs1 _ _ [Ha Hva].
  eapply meters_bind; [by apply (relative_meters st w s1 cl1 v1 1 x)|]. intros b s2 cl2 v2 Hs2 He2 _ [Hb Hvb].
  eapply meters_bind; [by apply knownZero_meters|]. intros zero s3 cl3 v3 Hs3 He3 _ Hzero. destruct zero.
  { apply meters_ret; [done|]. apply Hreset. by rewrite <- Hvb, (Hzero eq_refl). }
  apply runs_get. destruct (m_storageContent s3 !! a) as [c|] eqn:Hc; [|by apply meters_ret].
  destruct (st_storage _ _ _ _ _ _ (to_state _ _ _ _ _ Hs3) a c Hc) as (_ & Hcr & Hsto).
  eapply (meters_bind _ _ (fun n => kclasses (fun cl => knownNonZero n t cl c)) _ _ _ _
    (fun b _ _ => b = true -> sto w slot <> 0)).
  - eapply runs_last; [apply (runs_classes w0 st0 ω), (knownNonZero_answers _ _ _ (blockSeqop_pure w0 ω) (blockSeqop_range w0 ω goodω)
      (blockPushed_range st0 words0) t rules); [apply Hs3|exact Hcr]|].
    intros nz s4 cl4 v4 Hk4 He4 (-> & _ & Hnz). split; [apply same_but_elements_refl|]. split.
    + destruct Hs3. split; [done|by eapply stack_ok_extends|by eapply state_ok_extends].
    + intros Ht Hz. apply (Hnz Ht). rewrite <- Hsto.
      by rewrite (ext_value _ _ _ _ He3 a (extends_in_range _ _ _ _ _ He2 Ha)), (ext_value _ _ _ _ He2 a Ha), Hva.
  - intros nz s4 cl4 v4 Hs4 _ _ Hnz. apply meters_ret; [done|]. destruct nz; [|done]. apply Hreset.
    specialize (Hnz eq_refl). destruct (Z.eqb_spec (sto w slot) 0); [done|]. by rewrite orb_true_r.
Qed.

Lemma logGas_meters st w s cl v i o sz l :
  true_of st w s cl v -> In i [LOG0; LOG1; LOG2; LOG3; LOG4] -> st !! 0%nat = Some o -> st !! 1%nat = Some sz ->
  0 <= o -> 0 <= sz -> o + sz < 2 ^ 128 -> 0 <= l < 2 ^ 128 ->
  meters st w (fun n => logGas n t i l) s cl v (fun r _ _ => covers
    (GasCosts.logGas + GasCosts.logTopicGas * getLogNumber i + GasCosts.logDataGas * sz) l (span_end (o, sz)) r).
Proof using All.
  intros Hs Hi Ho Hz Ho0 Hz0 Hlow Hl. unfold logGas.
  set (fixed := GasCosts.logGas + GasCosts.logTopicGas * getLogNumber i).
  assert (0 <= fixed < 2 ^ 64) as Hf by (repeat (destruct Hi as [<-|Hi]; [vm_compute; by split|]); done).
  eapply meters_bind; [apply (plus_meters _ _ _ _ _ _ (fun n => memoryGasOf n t 0 (-1) l) fixed l 0 (span_end (o, sz)));
    [apply covers_gas; [done|apply small_word; lia|done]|exact Hs|by apply (memoryGasOf_meters st w s cl v 0 1)]|].
  intros r s1 cl1 v1 Hs1 _ _ Hr.
  eapply meters_bind; [by apply (relative_meters st w s1 cl1 v1 1 sz)|]. intros c s2 cl2 v2 Hs2 _ _ [Hc Hvc].
  eapply meters_bind; [by apply knownValue_meters|]. intros x s3 cl3 v3 Hs3 _ _ Hx. apply meters_ret; [done|].
  pose proof Hr as (_ & Hrl & _). destruct x as [x|]; [|apply covers_infinite; lia].
  assert (x = sz) as -> by (rewrite <- (Hx x eq_refl); done).
  assert (u256_mul GasCosts.logDataGas sz = GasCosts.logDataGas * sz) as ->
    by (apply u256_id, small_word; unfold GasCosts.logDataGas; lia).
  refine (covers_le _ _ _ _ _ _ _ _ (covers_seq fixed (GasCosts.logDataGas * sz) l _ 0 r (gas (GasCosts.logDataGas * sz), snd r) Hr _));
    [done|lia|]. apply covers_gas; [lia|apply small_word; unfold GasCosts.logDataGas; lia|done].
Qed.

Lemma expGas_meters st w s cl v x l :
  true_of st w s cl v -> st !! 1%nat = Some x -> is_u256 x -> 0 <= l < 2 ^ 128 ->
  meters st w (fun n => expGas n t version) s cl v (fun g _ _ => covers
    (GasCosts.expGas + GasCosts.expByteGas version * Z.of_nat (bytesRequired x)) l 0 (g, l)).
Proof using All.
  intros Hs Hx Hw Hl. unfold expGas.
  eapply meters_bind; [by apply (relative_meters st w s cl v 1 x)|]. intros c s1 cl1 v1 Hs1 _ _ [Hc Hvc].
  eapply meters_bind; [by apply knownValue_meters|]. intros o s2 cl2 v2 Hs2 _ _ Ho. apply meters_ret; [done|].
  assert (0 <= GasCosts.expByteGas version <= 50) as Hb by (unfold GasCosts.expByteGas; destruct (version_ge _ _); lia).
  assert (forall n, Z.of_nat (bytesRequired x) <= n <= 32 ->
    covers (GasCosts.expGas + GasCosts.expByteGas version * Z.of_nat (bytesRequired x)) l 0
      (gas_add (gas GasCosts.expGas) (gas (GasCosts.expByteGas version * n)), l)) as Hn.
  { intros n Hn. refine (covers_le _ _ _ _ _ _ _ _ (covers_seq GasCosts.expGas _ l 0 0 (gas GasCosts.expGas, l)
      (gas (GasCosts.expByteGas version * n), l) _ _)); [|done|apply covers_gas; [done|by apply small_word|done]|apply covers_gas; [done|apply small_word; nia|reflexivity]].
    nia. }
  destruct o as [y|]; [assert (y = x) as -> by (rewrite <- (Ho y eq_refl); done)|].
  - destruct (Z.eqb_spec x 0) as [->|Hne]; [apply covers_gas; [done|by apply small_word|change (bytesRequired 0) with 0%nat; lia]|]. apply Hn, significant_bytes. unfold is_u256 in Hw. lia.
  - apply Hn. destruct (bytesRequired_spec x Hw) as (Hle & _). lia.
Qed.

(** The two spans of a call, after what [g] covers. *)
Lemma spans_meters st w s cl v g own (k1 k2 k3 k4 : nat) l :
  covers own l 0 (g, l) -> true_of st w s cl v -> (k1 < length st)%nat -> (k2 < length st)%nat ->
  (k3 < length st)%nat -> (k4 < length st)%nat -> 0 <= l < 2 ^ 128 ->
  let o := operand st in
  low [(o k1, o k2); (o k3, o k4)] ->
  meters st w (fun n => kbind (plus g (memoryGasOf n t (- Z.of_nat k1) (- Z.of_nat k2) l)) (fun r =>
    plus (fst r) (memoryGasOf n t (- Z.of_nat k3) (- Z.of_nat k4) (snd r)))) s cl v
    (fun r _ _ => covers own l (reach [(o k1, o k2); (o k3, o k4)]) r).
Proof using All.
  intros Hg Hs H1 H2 H3 H4 Hl o [[L1 [L2 L3]] [[L4 [L5 L6]] _]%Forall_cons]%Forall_cons. cbn [fst snd] in *.
  eapply meters_bind; [apply (plus_meters _ _ _ _ _ g (fun n => memoryGasOf n t _ _ l) own l 0 (span_end (o k1, o k2)) Hg Hs);
    apply (memoryGasOf_meters st w s cl v k1 k2 (o k1) (o k2)); try done; by apply operand_lookup|].
  intros r s1 cl1 v1 Hs1 _ _ Hr. pose proof Hr as (_ & Hrl & _). unfold plus.
  eapply meters_bind; [apply (memoryGasOf_meters st w s1 cl1 v1 k3 k4 (o k3) (o k4)); try done; [by apply operand_lookup..|lia]|].
  intros r' s2 cl2 v2 Hs2 _ _ Hr'. apply meters_ret; [done|]. rewrite <- (Z.add_0_r own).
  refine (covers_le _ _ _ _ _ _ _ _ (covers_seq own 0 l _ _ r r' Hr Hr')); [done|]. cbn [reach fold_right]. lia.
Qed.

(** The value a call transfers. *)
Definition transferCost (st : list Z) : Z := if operand st 2 =? 0 then 0 else GasCosts.callValueTransferGas.

Lemma transfer_meters st w s cl v g own l :
  covers own l 0 (g, l) -> true_of st w s cl v -> (2 < length st)%nat -> 0 <= l < 2 ^ 128 ->
  meters st w (fun n => kbind (relative n t (-2)) (fun c => kbind (kquery (fun cl => knownZero cl c)) (fun zero =>
    kret (if zero : bool then g else gas_add g (gas GasCosts.callValueTransferGas))))) s cl v
    (fun g _ _ => covers (own + transferCost st) l 0 (g, l)).
Proof using All.
  intros Hg Hs Hlen Hl.
  eapply meters_bind; [apply (relative_meters st w s cl v 2); [done|by apply operand_lookup]|]. intros c s1 cl1 v1 Hs1 _ _ [Hc Hvc].
  eapply meters_bind; [by apply knownZero_meters|]. intros zero s2 cl2 v2 Hs2 _ _ Hzero. apply meters_ret; [done|].
  unfold transferCost. rewrite <- Hvc. destruct zero.
  - rewrite (Hzero eq_refl). cbn [Z.eqb]. by rewrite Z.add_0_r.
  - refine (covers_le _ _ _ _ _ _ _ _ (covers_seq own GasCosts.callValueTransferGas l 0 0 (g, l) (gas GasCosts.callValueTransferGas, l) Hg _));
      [destruct (_ =? _); [unfold GasCosts.callValueTransferGas|]; lia|done|].
    apply covers_own; [done|by apply gas_wf_gas, small_word|by right].
Qed.

Lemma callGas_meters newAccount st w s cl v i l :
  true_of st w s cl v -> In i [CALL; CALLCODE; DELEGATECALL; STATICCALL] -> (args (instructionInfo i) <= length st)%nat ->
  Forall is_u256 st -> low (instructionSpans i st) -> 0 <= l < 2 ^ 128 ->
  meters st w (fun n => callGas n t version i l) s cl v (fun r _ _ =>
    covers (instructionCost version (sto w) newAccount i st) l (reach (instructionSpans i st)) r).
Proof using All.
  intros Hs Hi Hlen Hw Hlow Hl. unfold callGas.
  set (account := if newAccount then GasCosts.callNewAccountGas else 0).
  assert (0 <= account <= GasCosts.callNewAccountGas) as Hacc by (unfold account, GasCosts.callNewAccountGas; destruct newAccount; lia).
  assert (args (instructionInfo i) = match i with CALL | CALLCODE => 7 | _ => 6 end)%nat as Hargs
    by (destruct Hi as [<-|[<-|[<-|[<-|[]]]]]; reflexivity).
  rewrite Hargs in Hlen. assert (0 < length st)%nat as H0 by (destruct i; lia).
  eapply meters_bind; [apply (relative_meters st w s cl v 0); [done|by apply operand_lookup]|]. intros c s1 cl1 v1 Hs1 _ _ [Hc Hvc].
  eapply meters_bind; [by apply knownValue_meters|]. intros o s2 cl2 v2 Hs2 _ _ Ho.
  set (g := match o with Some value => _ | None => infinite end).
  assert (covers (GasCosts.callGas version + operand st 0) l 0 (g, l)) as Hg.
  { unfold g. destruct o as [x|]; [|apply covers_infinite; lia].
    rewrite <- Hvc, (Ho x eq_refl). assert (is_u256 x) as Hx.
    { rewrite <- (Ho x eq_refl), Hvc. by apply (Forall_lookup_1 _ _ _ _ Hw (operand_lookup st 0 H0)). }
    refine (covers_seq (GasCosts.callGas version) x l 0 0 (gas (GasCosts.callGas version), l) (gas x, l) _ _).
    - apply covers_gas; [done| |done]. unfold GasCosts.callGas. destruct (version_ge _ _); by apply small_word.
    - by apply covers_gas. }
  assert (covers (GasCosts.callGas version + operand st 0 + account) l 0 (gas_add g (gas GasCosts.callNewAccountGas), l)) as Hg'.
  { refine (covers_le _ _ _ _ _ _ _ _ (covers_seq _ GasCosts.callNewAccountGas l 0 0 (g, l) (gas GasCosts.callNewAccountGas, l) Hg _));
      [lia|done|]. by apply covers_gas; [|apply small_word|]. }
  clearbody g. destruct Hi as [<-|[<-|[<-|[<-|[]]]]]; cbn [instructionSpans instructionCost] in *;
    cbn [Z.eqb Z.sub Z.add Z.opp Z.pos_sub Pos.add Pos.succ Pos.eqb].
  - eapply meters_bind; [apply (transfer_meters st w s2 cl2 v2 _ _ l Hg' Hs2); [lia|done]|]. intros g2 s3 cl3 v3 Hs3 _ _ Hg2.
    apply (spans_meters st w s3 cl3 v3 g2 _ 3 4 5 6 l Hg2); try done; lia.
  - eapply meters_bind; [apply (transfer_meters st w s2 cl2 v2 _ _ l Hg Hs2); [lia|done]|]. intros g2 s3 cl3 v3 Hs3 _ _ Hg2.
    apply (spans_meters st w s3 cl3 v3 g2 _ 3 4 5 6 l Hg2); try done; lia.
  - apply (spans_meters st w s2 cl2 v2 g _ 2 3 4 5 l Hg); try done; lia.
  - apply (spans_meters st w s2 cl2 v2 g _ 2 3 4 5 l Hg); try done; lia.
Qed.

(** A fixed cost. *)
Lemma tier_meters st w s cl v i n l : true_of st w s cl v -> runGas i = Some n -> 0 <= l < 2 ^ 128 ->
  meters st w (fun _ => only l (GasEstimate.run i)) s cl v (fun r _ _ => covers n l 0 r).
Proof using All.
  intros Hs Hn Hl. unfold only. eapply meters_bind; [by apply run_meters|]. intros g s1 cl1 v1 Hs1 _ _ ->.
  apply meters_ret; [done|]. apply covers_gas; [done| |done]. apply small_word. pose proof (runGas_range i n Hn). lia.
Qed.

Lemma default_meters st w s cl v i l : true_of st w s cl v -> is_Some (runGas i) -> 0 <= l < 2 ^ 128 ->
  meters st w (fun _ => only l (GasEstimate.run i)) s cl v (fun r _ _ => covers (default 0 (runGas i)) l 0 r).
Proof using All. intros Hs [n Hn] Hl. rewrite Hn. by apply tier_meters. Qed.

(** A fixed cost first. *)
Lemma run_then st w s cl v i n l (m : nat -> GasConsumption -> K (GasConsumption * Z)) Q :
  true_of st w s cl v -> runGas i = Some n -> 0 <= l < 2 ^ 128 ->
  (forall s' cl' v', true_of st w s' cl' v' -> covers n l 0 (gas n, l) -> meters st w (fun f => m f (gas n)) s' cl' v' Q) ->
  meters st w (fun f => kbind (GasEstimate.run i) (m f)) s cl v Q.
Proof using All.
  intros Hs Hn Hl Hm. eapply meters_bind; [by apply run_meters|]. intros g s1 cl1 v1 Hs1 _ _ ->. apply Hm; [done|].
  apply covers_gas; [done| |done]. apply small_word. pose proof (runGas_range i n Hn). lia.
Qed.

(** A span of memory, after what [g] covers. *)
Lemma span_meters st w s cl v g own ko ks l :
  covers own l 0 (g, l) -> true_of st w s cl v -> (ko < length st)%nat -> (ks < length st)%nat -> 0 <= l < 2 ^ 128 ->
  low [(operand st ko, operand st ks)] ->
  meters st w (fun n => plus g (memoryGasOf n t (- Z.of_nat ko) (- Z.of_nat ks) l)) s cl v
    (fun r _ _ => covers own l (reach [(operand st ko, operand st ks)]) r).
Proof using All.
  intros Hg Hs H1 H2 Hl [[L1 [L2 L3]] _]%Forall_cons. cbn [fst snd] in *.
  eapply meters_last; [apply (plus_meters st w s cl v g _ own l 0 (span_end (operand st ko, operand st ks)) Hg Hs),
    (memoryGasOf_meters st w s cl v ko ks (operand st ko) (operand st ks)); try done; by apply operand_lookup|].
  intros r cl' v' _ Hr. refine (covers_le _ _ _ _ _ _ _ _ Hr); [done|]. cbn [reach fold_right]. lia.
Qed.
End Meter.

(** ** The estimate of an item *)

(** The instructions whose cost depends on nothing but their tier. *)
Definition plain_cost (i : Instruction) : bool :=
  match i with
  | SSTORE | SLOAD | KECCAK256 | EXTCODESIZE | EXTCODEHASH | BALANCE | EXTCODECOPY | LOG0 | LOG1 | LOG2 | LOG3
  | LOG4 | CALL | CALLCODE | DELEGATECALL | STATICCALL | SELFDESTRUCT | CREATE | CREATE2 | EXP | RETURN | REVERT
  | MLOAD | MSTORE | MSTORE8 | CALLDATACOPY | CODECOPY | RETURNDATACOPY => false
  | _ => true
  end.

Section Item.
Context {W H : Type} `{!World W H} `{!WorldLaws W H} `{!StateWorld W} {keccak256 : list Z -> Z}
  `{!StateLaws W H keccak256}.
Context (t : RuleTable) (rules : valid_rules t) (version : EVMVersion) (newAccount external : bool).
Context (w0 : W) (st0 : list Z) (ω : Z -> W).
Context (good0 : good w0) (goodω : forall s, good (ω s)) (words0 : Forall is_u256 st0)
  (short0 : Z.of_nat (length st0) < modulus).
(** A stack and a world that what is known is true of, and the largest memory access so far. *)
Context (st : list Z) (w : W) (s : KnownState) (cl : ExpressionClasses) (v : Z -> Z) (l : Z).
Context (Hs : true_of (keccak256 := keccak256) w0 st0 ω st w s cl v) (Hw : Forall is_u256 st) (Hl : 0 <= l < 2 ^ 128).

Local Abbreviation meters := (meters (keccak256 := keccak256) w0 st0 ω).

(** What the estimate of [i] has to cover. *)
Definition bounded_cost (i : Instruction) : Prop :=
  meters st w (fun n => instructionGas n t version i external l) s cl v (fun r _ _ =>
    covers (instructionCost version (sto w) newAccount i st) l (reach (instructionSpans i st)) r).

Lemma plain_bounded i : plain_cost i = true -> metered (opItem i noLocation) = true -> bounded_cost i.
Proof using All.
  intros Hp Hm. unfold bounded_cost. destruct i; try discriminate Hp; try discriminate Hm;
    (match goal with |- context [instructionGas _ _ _ ?i _ _] =>
      exact (default_meters t rules version w0 st0 ω good0 goodω words0 short0 st w s cl v i l Hs (ex_intro _ _ eq_refl) Hl) end).
Qed.

(** Copies of memory. *)
Lemma copy_bounded i n (ko ks : nat) :
  runGas i = Some n -> (ko < length st)%nat -> (ks < length st)%nat -> low [(operand st ko, operand st ks)] ->
  meters st w (fun f => kbind (GasEstimate.run i) (fun g => words f t GasCosts.copyGas (- Z.of_nat ks)
       (plus g (memoryGasOf f t (- Z.of_nat ko) (- Z.of_nat ks) l)))) s cl v
    (fun r _ _ => covers (n + GasCosts.copyGas * wordCount (operand st ks)) l (reach [(operand st ko, operand st ks)]) r).
Proof using All.
  intros Hn H1 H2 Hlow.
  eapply (run_then t rules version w0 st0 ω good0 goodω words0 short0 st w s cl v i n l); [done..|]. intros s1 cl1 v1 Hs1 Hg.
  eapply words_meters; [done..|by apply operand_lookup|by eapply span_low|done|lia|].
  by eapply span_meters.
Qed.

(** Spans of memory after a fixed cost. *)
Lemma span_bounded n (ko ks : nat) :
  0 <= n < 2 ^ 64 -> (ko < length st)%nat -> (ks < length st)%nat -> low [(operand st ko, operand st ks)] ->
  meters st w (fun f => plus (gas n) (memoryGasOf f t (- Z.of_nat ko) (- Z.of_nat ks) l)) s cl v
    (fun r _ _ => covers n l (reach [(operand st ko, operand st ks)]) r).
Proof using All. intros Hn H1 H2 Hlow. eapply span_meters; try done. by apply fixed_covers. Qed.

Lemma hashed_bounded n mult (ko ks : nat) :
  0 <= n < 2 ^ 64 -> 0 <= mult < 2 ^ 64 -> (ko < length st)%nat -> (ks < length st)%nat ->
  low [(operand st ko, operand st ks)] ->
  meters st w (fun f => words f t mult (- Z.of_nat ks)
       (plus (gas n) (memoryGasOf f t (- Z.of_nat ko) (- Z.of_nat ks) l))) s cl v
    (fun r _ _ => covers (n + mult * wordCount (operand st ks)) l (reach [(operand st ko, operand st ks)]) r).
Proof using All.
  intros Hn Hm H1 H2 Hlow. eapply words_meters; [done..|by apply operand_lookup|by eapply span_low|done|lia|].
  by apply span_bounded.
Qed.

(** A word or a byte of memory. *)
Lemma access_bounded i n size :
  runGas i = Some n -> (0 < length st)%nat -> 0 < size < 2 ^ 64 -> low [(operand st 0, size)] ->
  meters st w (fun f => kbind (GasEstimate.run i) (fun g => accessGas f t size g l)) s cl v
    (fun r _ _ => covers n l (reach [(operand st 0, size)]) r).
Proof using All.
  intros Hn H1 Hsize [[L1 [L2 L3]] _]%Forall_cons. cbn [fst snd] in *.
  eapply (run_then t rules version w0 st0 ω good0 goodω words0 short0 st w s cl v i n l); [done..|]. intros s1 cl1 v1 Hs1 Hg.
  eapply meters_last; [eapply (accessGas_meters t rules version w0 st0 ω good0 goodω words0 short0 st w s1 cl1 v1 size (gas n) n (operand st 0) l Hg Hs1);
    [by apply operand_lookup|lia..]|].
  intros r cl' v' _ Hr. refine (covers_le _ _ _ _ _ _ _ _ Hr); [done|]. unfold reach, span_end. cbn [fold_right fst snd].
  destruct (Z.eqb_spec size 0); lia.
Qed.

Lemma return_bounded i :
  runGas i = Some 0 -> (1 < length st)%nat -> low [(operand st 0, operand st 1)] ->
  meters st w (fun f => kbind (GasEstimate.run i) (fun g => plus g (memoryGasOf f t 0 (-1) l))) s cl v
    (fun r _ _ => covers 0 l (reach [(operand st 0, operand st 1)]) r).
Proof using All.
  intros Hn H1 Hlow. eapply (run_then t rules version w0 st0 ω good0 goodω words0 short0 st w s cl v i 0 l); [done..|].
  intros s1 cl1 v1 Hs1 Hg. apply (span_meters t rules version w0 st0 ω good0 goodω words0 short0 st w s1 cl1 v1 (gas 0) 0 0 1 l Hg Hs1); try done; lia.
Qed.

Lemma log_bounded i :
  In i [LOG0; LOG1; LOG2; LOG3; LOG4] -> (1 < length st)%nat -> low [(operand st 0, operand st 1)] ->
  meters st w (fun n => logGas n t i l) s cl v (fun r _ _ => covers
    (GasCosts.logGas + GasCosts.logTopicGas * getLogNumber i + GasCosts.logDataGas * operand st 1) l
    (reach [(operand st 0, operand st 1)]) r).
Proof using All.
  intros Hi H1 [[L1 [L2 L3]] _]%Forall_cons. cbn [fst snd] in *.
  eapply meters_last; [eapply (logGas_meters t rules version w0 st0 ω good0 goodω words0 short0 st w s cl v i (operand st 0) (operand st 1) l Hs Hi);
    [apply operand_lookup; lia|by apply operand_lookup|lia..]|].
  intros r cl' v' _ Hr. refine (covers_le _ _ _ _ _ _ _ _ Hr); [done|]. cbn [reach fold_right]. unfold span_end. cbn [fst snd].
  destruct (_ =? 0); lia.
Qed.

Lemma fixed_bounded n : 0 <= n < 2 ^ 64 -> meters st w (fun _ => kret (gas n, l)) s cl v (fun r _ _ => covers n l 0 r).
Proof using All. intros Hn. apply meters_ret; [done|]. by apply fixed_covers. Qed.

Lemma infinite_bounded own p : meters st w (fun _ => kret (infinite, l)) s cl v (fun r _ _ => covers own l p r).
Proof using All. apply meters_ret; [done|]. apply covers_infinite; lia. Qed.

Lemma create_bounded i :
  In i [CREATE; CREATE2] -> (2 < length st)%nat -> low (instructionSpans i st) -> bounded_cost i.
Proof using All.
  intros Hi Hlen Hlow. unfold bounded_cost.
  destruct Hi as [<-|[<-|[]]]; cbn [instructionSpans instructionCost instructionGas] in *;
    (destruct external; [apply infinite_bounded|apply (span_bounded GasCosts.createGas 1 2); [done|lia|lia|exact Hlow]]).
Qed.

Lemma call_bounded i :
  In i [CALL; CALLCODE; DELEGATECALL; STATICCALL] -> (args (instructionInfo i) <= length st)%nat ->
  low (instructionSpans i st) -> bounded_cost i.
Proof using All.
  intros Hi Hlen Hlow. unfold bounded_cost.
  pose proof (callGas_meters t rules version w0 st0 ω good0 goodω words0 short0 newAccount st w s cl v i l Hs Hi Hlen Hw Hlow Hl) as Hc.
  destruct Hi as [<-|[<-|[<-|[<-|[]]]]]; cbn [instructionGas];
    (destruct external; [apply infinite_bounded|exact Hc]).
Qed.

Lemma instruction_bounded i :
  (args (instructionInfo i) <= length st)%nat -> low (instructionSpans i st) ->
  metered (opItem i noLocation) = true -> bounded_cost i.
Proof using All.
  intros Hlen Hlow Hm. destruct (plain_cost i) eqn:Hp; [by apply plain_bounded|].
  destruct (version_costs version) as (Hbal & Hext & Hsload & Hself).
  destruct i; try discriminate Hp; clear Hp Hm;
    match type of Hlen with context [args ?x] => let n := eval vm_compute in (args x) in change (args x) with n in Hlen end;
    try (apply call_bounded; [solve [repeat (first [left; reflexivity | right])]|exact Hlen|exact Hlow]);
    try (apply create_bounded; [solve [repeat (first [left; reflexivity | right])]|lia|exact Hlow]);
    unfold bounded_cost; cbn [instructionSpans instructionCost instructionGas] in *;
    try (apply (copy_bounded _ 3 0 2); [reflexivity|lia|lia|exact Hlow]);
    try (apply log_bounded; [solve [repeat (first [left; reflexivity | right])]|lia|exact Hlow]);
    try (apply return_bounded; [reflexivity|lia|exact Hlow]);
    try (apply (access_bounded _ 3); [reflexivity|lia|done|exact Hlow]);
    try (by apply fixed_bounded).
  - unfold only. eapply meters_bind; [apply (expGas_meters t rules version w0 st0 ω good0 goodω words0 short0 st w s cl v (operand st 1) l Hs);
      [apply operand_lookup; lia|apply operand_word; [done|lia]|done]|]. intros g s1 cl1 v1 Hs1 _ _ Hg. by apply meters_ret.
  - apply (hashed_bounded GasCosts.keccak256Gas GasCosts.keccak256WordGas 0 1); [done|done|lia|lia|exact Hlow].
  - apply (hashed_bounded (GasCosts.extCodeGas version) GasCosts.copyGas 1 3); [done|done|lia|lia|exact Hlow].
  - unfold only. eapply meters_bind; [apply (sstoreGas_meters t rules version w0 st0 ω good0 goodω words0 short0 st w s cl v
      (operand st 0) (operand st 1) l Hs); [apply operand_lookup; lia..|done]|]. intros g s1 cl1 v1 Hs1 _ _ Hg. by apply meters_ret.
  - apply meters_ret; [done|]. refine (covers_le _ _ _ _ _ _ _ _ (covers_seq _ GasCosts.callNewAccountGas l 0 0
      (gas (GasCosts.selfdestructGas version), l) (gas GasCosts.callNewAccountGas, l) (fixed_covers _ _ Hl Hself) (fixed_covers _ _ Hl _)));
      [unfold GasCosts.callNewAccountGas; destruct newAccount; lia|done|done].
Qed.

(** The estimate of an item before it is fed. *)
Lemma item_bounded it :
  (m_type it = Operation -> args (instructionInfo (m_instruction it)) <= length st)%nat ->
  low (spans it st) -> metered it = true ->
  meters st w (fun n => itemGas n t version it external l) s cl v (fun r _ _ =>
    covers (ownGas version (sto w) newAccount it st) l (reach (spans it st)) r).
Proof using All.
  intros Hlen Hlow Hm. unfold itemGas, ownGas, spans, metered in *. destruct (m_type it) eqn:Ht;
    try (apply infinite_bounded);
    try (exact (tier_meters t rules version w0 st0 ω good0 goodω words0 short0 st w s cl v PUSH1 GasCosts.tier2Gas l Hs eq_refl Hl));
    try (exact (tier_meters t rules version w0 st0 ω good0 goodω words0 short0 st w s cl v JUMPDEST 1 l Hs eq_refl Hl)).
  by apply instruction_bounded; [apply Hlen| |].
Qed.
End Item.
