(* ===== verification/PathGasTheorems.v ===== *)
(** * PathGasTheorems: the estimate of a path is an upper bound, and the paths come to an end

    For code without jumps the estimate of PathGasMeter is infinite or at least what the machine
    spends: the costs of the items on the actual operands and storage, and the memory up to the
    furthest position accessed.  For any code the loop of [estimateMax] ends. *)

From stdpp Require Import sorting.
From S2P Require Import Prelude U256 CommonData Instruction EVMVersion AssemblyItem SemanticInformation Interpreter Pattern RuleList SimplificationRules ExpressionClasses KnownState GasMeter GasEstimate PathGasMeter Machine RuleSound StateWorld InterpreterWorld MatchSound ClassSound WordClasses ClassShape ClassQueries KnownSound KnownFeed KnownBlock GasBound.

#[local] Opaque ruleSet Rules readWord readBytes writeWord toBigEndian fromBigEndian.

(** ** What a run of items costs *)

Lemma reach_nonneg l : 0 <= reach l.
Proof. induction l as [|a l IH]; cbn [reach fold_right]; unfold reach in *; lia. Qed.

Section Spent.
Context {W H : Type} `{!World W H} `{!StateWorld W}.
Context (version : EVMVersion) (newAccount : bool).

(** The costs of the items apart from memory. *)
Fixpoint ownCosts (p : list AssemblyItem) (st : list Z) (w : W) : Z :=
  match p with
  | [] => 0
  | it :: p =>
      ownGas version (sto w) newAccount it st +
      match exec_item it st w with Next st w => ownCosts p st w | _ => 0 end
  end.

(** The furthest position of the memory accessed. *)
Fixpoint furthest (p : list AssemblyItem) (st : list Z) (w : W) : Z :=
  match p with
  | [] => 0
  | it :: p => Z.max (reach (spans it st)) (match exec_item it st w with Next st w => furthest p st w | _ => 0 end)
  end.

(** The gas the machine spends. *)
Definition spent (p : list AssemblyItem) (st : list Z) (w : W) : Z :=
  ownCosts p st w + memoryCost (furthest p st w).

(** An instruction finds its operands, the memory it accesses lies below 2^128, and the meter has
    a cost for it. *)
Definition measurable (it : AssemblyItem) (st : list Z) : Prop :=
  metered it = true /\ low (spans it st) /\
  (m_type it = Operation -> args (instructionInfo (m_instruction it)) <= length st)%nat.

Fixpoint all_measurable (p : list AssemblyItem) (st : list Z) (w : W) : Prop :=
  match p with
  | [] => True
  | it :: p =>
      measurable it st /\ match exec_item it st w with Next st w => all_measurable p st w | _ => True end
  end.

(** The same as a function. *)
Definition is_measurable (it : AssemblyItem) (st : list Z) : bool :=
  metered it && forallb (fun s => (0 <=? fst s) && (0 <=? snd s) && (fst s + snd s <? 2 ^ 128)) (spans it st) &&
  (negb (bool_decide (m_type it = Operation)) || Nat.leb (args (instructionInfo (m_instruction it))) (length st)).

Fixpoint run_measurable (p : list AssemblyItem) (st : list Z) (w : W) : bool :=
  match p with
  | [] => true
  | it :: p =>
      is_measurable it st && match exec_item it st w with Next st w => run_measurable p st w | _ => true end
  end.

Lemma run_measurable_ok p st w : run_measurable p st w = true -> all_measurable p st w.
Proof using.
  revert st w. induction p as [|it p IH]; intros st w; cbn [run_measurable all_measurable]; [done|].
  intros [Hm Hp]%andb_true_iff. split; [|destruct (exec_item it st w); auto].
  unfold is_measurable in Hm. apply andb_true_iff in Hm as [[Hm Hlow]%andb_true_iff Ha]. split; [done|]. split.
  - apply List.Forall_forall. intros s Hs. rewrite forallb_forall in Hlow. specialize (Hlow s Hs). bool_to_prop. lia.
  - intros Ht. rewrite (bool_decide_eq_true_2 _ Ht) in Ha. by apply Nat.leb_le in Ha.
Qed.

Lemma ownCosts_app p q st w st' w' :
  exec p st w = Next st' w' -> ownCosts (p ++ q) st w = ownCosts p st w + ownCosts q st' w'.
Proof using.
  revert st w. induction p as [|a p IH]; intros st w Hx; cbn [app ownCosts exec] in *; [by injection Hx as -> ->|].
  destruct (exec_item a st w) as [st1 w1| |]; [|discriminate Hx..]. rewrite (IH _ _ Hx). lia.
Qed.

Lemma furthest_app p q st w st' w' :
  exec p st w = Next st' w' -> furthest (p ++ q) st w = Z.max (furthest p st w) (furthest q st' w').
Proof using.
  revert st w. induction p as [|a p IH]; intros st w Hx; cbn [app furthest exec] in *.
  - injection Hx as -> ->. assert (0 <= furthest q st' w'); [|lia]. clear.
    destruct q as [|b q]; cbn [furthest]; [lia|]. pose proof (reach_nonneg (spans b st')). lia.
  - destruct (exec_item a st w) as [st1 w1| |]; [|discriminate Hx..]. rewrite (IH _ _ Hx). lia.
Qed.

Lemma all_measurable_app p q st w st' w' :
  exec p st w = Next st' w' -> all_measurable (p ++ q) st w -> all_measurable p st w /\ all_measurable q st' w'.
Proof using.
  revert st w. induction p as [|a p IH]; intros st w Hx; cbn [app all_measurable exec] in *; [by injection Hx as -> ->|].
  intros [Ha Hp]. destruct (exec_item a st w) as [st1 w1| |]; [|discriminate Hx..].
  by destruct (IH _ _ Hx Hp).
Qed.
End Spent.

(** ** The meter along a run *)

Section Run.
Context {W H : Type} `{!World W H} `{!WorldLaws W H} `{!StateWorld W} {keccak256 : list Z -> Z}
  `{!StateLaws W H keccak256}.
Context (t : RuleTable) (rules : valid_rules t) (version : EVMVersion) (newAccount : bool).
Context (w0 : W) (st0 : list Z).
Context (good0 : good w0) (words0 : Forall is_u256 st0) (short0 : Z.of_nat (length st0) < modulus).
(** The cost before the run. *)
Context (g0 : Z) (small0 : 0 <= g0 < 2 ^ 64).

Local Abbreviation true_of := (true_of (keccak256 := keccak256) w0 st0).
Local Abbreviation estimate it L := (fun n => estimateMax n t keccak256 version it true L).

(** The items estimated so far, with the worlds after each item, the state and the classes, the
    cost and the largest memory access. *)
Inductive estimated : list AssemblyItem -> list (Z * W) -> KnownState -> ExpressionClasses ->
    GasConsumption -> Z -> list Z -> W -> Prop :=
| estimated_start : estimated [] [(1, w0)] emptyState emptyClasses (gas g0) 0 st0 w0
| estimated_item p tr s cl g L st w it r s' cl' st' w' :
    estimated p tr s cl g L st w -> block_item it -> whole_words it st -> measurable it st ->
    exec_item it st w = Next st' w' ->
    eventually (fun n => estimate it L n s cl) (r, (s', cl')) ->
    m_sequenceNumber s' = m_sequenceNumber s + 2 \/ m_sequenceNumber s' = m_sequenceNumber s /\ same w w' ->
    good w' -> Forall is_u256 st' ->
    estimated (p ++ [it]) (tr ++ [(m_sequenceNumber s', w')]) s' cl' (gas_add g (fst r)) (snd r) st' w'.

Lemma estimated_trace p tr s cl g L st w :
  estimated p tr s cl g L st w -> trace_ok w0 tr (m_sequenceNumber s) w (length p).
Proof using.
  clear words0 short0 small0. induction 1 as [|p tr s cl g L st w it r s' cl' st' w' _ IH _ _ _ _ _ Ht Hg _]; [apply trace_start|].
  rewrite length_app, Nat.add_1_r. by apply trace_step with (q := m_sequenceNumber s) (w := w).
Qed.

Lemma estimated_words p tr s cl g L st w : estimated p tr s cl g L st w -> Forall is_u256 st.
Proof using words0. clear short0 small0. by destruct 1. Qed.

Lemma estimated_exec p tr s cl g L st w : estimated p tr s cl g L st w -> exec p st0 w0 = Next st w.
Proof using.
  clear words0 short0 small0. induction 1 as [|p tr s cl g L st w it r s' cl' st' w' _ IH _ _ _ Hx _ _ _ _]; [done|].
  rewrite exec_app, IH. cbn [exec]. by rewrite Hx.
Qed.

(** Estimating an item in a state that is true of the machine. *)
Lemma estimate_runs ω s cl v it L st w st' w' :
  (forall x, good (ω x)) -> true_of ω st w s cl v -> Forall is_u256 st -> 0 <= L < 2 ^ 128 ->
  m_sequenceNumber s + 2 < 2 ^ 32 -> block_item it -> whole_words it st -> measurable it st ->
  exec_item it st w = Next st' w' ->
  good w' /\ exists r s' cl' v', eventually (fun n => estimate it L n s cl) (r, (s', cl')) /\
    covers (ownGas version (sto w) newAccount it st) L (reach (spans it st)) r /\
    (m_sequenceNumber s' = m_sequenceNumber s + 2 \/ m_sequenceNumber s' = m_sequenceNumber s /\ same w w') /\
    (same w' (ω (m_sequenceNumber s')) -> true_of ω st' w' s' cl' v') /\ Forall is_u256 st'.
Proof using All.
  intros Hω Hs Hw HL Hq Hb Hww (Hm & Hlow & Hargs) Hx.
  destruct (item_bounded t rules version newAccount true w0 st0 ω good0 Hω words0 short0 st w s cl v L Hs Hw HL it Hargs Hlow Hm)
    as (r & s1 & cl1 & v1 & [n1 H1] & Hk1 & He1 & _ & Hsame & [Hk Hst Hsw] & Hcov).
  destruct (feedItem_runs t rules w0 st0 ω good0 Hω words0 short0 s1 cl1 v1 w it st st' w' Hk Hst Hsw
    ltac:(by rewrite Hsame) Hb Hww Hx) as (Hg & op & s2 & cl2 & v2 & [n2 H2] & Hk2 & He2 & _ & Ht & Hst2 & Hs2).
  split; [done|]. exists r, s2, cl2, v2. split; [|split; [exact Hcov|split; [|split]]].
  - exists (n1 + n2)%nat. intros n Hn. unfold estimateMax, kbind. rewrite H1 by lia. by rewrite H2 by lia.
  - unfold store_taken in Ht. rewrite Hsame in Ht. destruct (isValid op); [left; by destruct Ht|by right].
  - intros Hw'. split; [done|done|by apply Hs2].
  - by apply (stack_ok_words w0 st0 good0 words0 ω s2 cl2 v2).
Qed.

(** What the meter knows is true, and its estimate covers what is spent. *)
Lemma estimated_sound ω p tr s cl g L st w :
  estimated p tr s cl g L st w -> (forall x, good (ω x)) -> Forall (fun q => same (snd q) (ω (fst q))) tr ->
  2 * Z.of_nat (length p) + 1 < 2 ^ 32 ->
  (exists v, true_of ω st w s cl v) /\
  covers (g0 + ownCosts version newAccount p st0 w0) 0 (furthest p st0 w0) (g, L).
Proof using All.
  intros He Hω. induction He as [|p tr s cl g L st w it r s' cl' st' w' He IH Hb Hww Hm Hx [n Hev] Ht Hg Hw]; intros Htr Hlen.
  - apply Forall_cons in Htr as [Htr _]. cbn in Htr. split.
    + destruct (feeds_sound t rules w0 st0 good0 words0 short0 ω _ _ _ _ _ _ _ (feeds_start t w0 st0) Hω
        ltac:(by apply Forall_singleton) ltac:(cbn; lia)) as (v & h & Hk & Hst & Hs & _). by exists v.
    + cbn [ownCosts furthest]. apply covers_gas; [lia|apply small_word; lia|lia].
  - rewrite length_app in Hlen. cbn [length] in Hlen. apply Forall_app in Htr as [Htr Hlast].
    apply Forall_cons in Hlast as [Hlast _]. cbn in Hlast.
    destruct (IH Htr ltac:(lia)) as [[v Hv] Hcov].
    destruct (trace_worlds w0 good0 _ _ _ _ (estimated_trace _ _ _ _ _ _ _ _ He)) as (Hq & _ & _).
    destruct (estimate_runs ω s cl v it L st w st' w' Hω Hv (estimated_words _ _ _ _ _ _ _ _ He)
      ltac:(destruct Hcov as (_ & ? & _); cbn in *; lia) ltac:(lia) Hb Hww Hm Hx)
      as (_ & r1 & s1 & cl1 & v1 & [n1 Hev1] & Hcov1 & _ & Htrue & _).
    specialize (Hev (n + n1)%nat ltac:(lia)). specialize (Hev1 (n + n1)%nat ltac:(lia)). cbn beta in *.
    rewrite Hev in Hev1. injection Hev1 as <- <- <-. split; [exists v1; by apply Htrue|].
    pose proof (estimated_exec _ _ _ _ _ _ _ _ He) as Hp.
    rewrite (ownCosts_app _ _ _ [it] _ _ _ _ Hp), (furthest_app _ [it] _ _ _ _ Hp). cbn [ownCosts furthest]. rewrite Hx.
    pose proof (reach_nonneg (spans it st)).
    refine (covers_le _ _ _ _ _ _ _ _ (covers_seq _ _ _ _ _ (g, L) r Hcov Hcov1)); lia.
Qed.

(** A run of measurable items is estimated without an exception. *)
Lemma estimated_complete p st w :
  block_ok p st0 w0 -> exec p st0 w0 = Next st w -> all_measurable p st0 w0 -> 2 * Z.of_nat (length p) + 3 < 2 ^ 32 ->
  exists tr s cl g L, estimated p tr s cl g L st w.
Proof using All.
  revert st w. induction p as [|it p IH] using rev_ind; intros st w Hok Hx Hm Hlen.
  - injection Hx as <- <-. do 5 eexists. apply estimated_start.
  - rewrite length_app in Hlen. cbn [length] in Hlen.
    destruct (block_snoc _ _ _ _ _ _ Hok Hx) as (st1 & w1 & Hok1 & Hx1 & Hb & Hww & Hit).
    destruct (all_measurable_app _ _ _ _ _ _ Hx1 Hm) as [Hm1 [Hmi _]].
    destruct (IH st1 w1 Hok1 Hx1 Hm1 ltac:(lia)) as (tr & s & cl & g & L & He).
    pose proof (estimated_trace _ _ _ _ _ _ _ _ He) as Htr.
    destruct (trace_world_at w0 good0 _ _ _ _ Htr) as [Hgood Hsame].
    destruct (trace_worlds w0 good0 _ _ _ _ Htr) as (Hq & _ & _).
    destruct (estimated_sound (world_at w0 tr) _ _ _ _ _ _ _ _ He Hgood Hsame ltac:(lia)) as [[v Hv] (_ & HL & _)].
    cbn [snd] in HL.
    destruct (estimate_runs (world_at w0 tr) s cl v it L st1 w1 st w Hgood Hv (estimated_words _ _ _ _ _ _ _ _ He)
      ltac:(lia) ltac:(lia) Hb Hww Hmi Hit) as (Hg & r & s' & cl' & v' & Hev & _ & Ht & _ & Hw).
    do 5 eexists. eapply estimated_item; eassumption.
Qed.

(** An instruction that ends the execution: STOP, RETURN, REVERT, INVALID and SELFDESTRUCT. *)
Definition halting (b : AssemblyItem) : Prop :=
  m_type b = Operation /\ instr_terminatesControlFlow (m_instruction b) = true.

Lemma halting_altersControlFlow b : halting b -> altersControlFlow b = true.
Proof using. intros [Ht Hi]. unfold altersControlFlow. rewrite Ht. by destruct (m_instruction b). Qed.

Lemma halting_plain b :
  halting b -> item_isDup b = false /\ item_isSwap b = false /\ negb (bool_decide (m_instruction b = POP)) = true /\
  forall l s cl, exists s', forall f, feedInstruction f t keccak256 b l s cl = Ret (noStore, (s', cl)).
Proof using.
  clear words0 short0 small0 g0. intros [Ht Hi]. unfold item_isDup, item_isSwap, feedInstruction. rewrite Ht. destruct (m_instruction b); try discriminate Hi;
    (repeat split; [intros l s cl; eexists; intros f; reflexivity]).
Qed.

Lemma halting_feeds ω s cl v b st w :
  (forall x, good (ω x)) -> true_of ω st w s cl v -> halting b -> (args (instructionInfo (m_instruction b)) <= length st)%nat ->
  exists op s' cl', eventually (fun n => feedItem n t keccak256 b s cl) (op, (s', cl')).
Proof using All.
  intros Hω [Hk Hst _] Hb Hargs. destruct (halting_plain b Hb) as (Hd & Hsw & Hp & Hf). destruct Hb as [Ht _].
  destruct (stackArguments_runs t rules w0 st0 ω good0 Hω words0 short0 (args (instructionInfo (m_instruction b))) s cl v st 0
    (m_location b) Hk Hst ltac:(lia) ltac:(cbn; lia)) as (l & s1 & cl1 & _ & [n Hn] & _).
  destruct (Hf l s1 cl1) as [s2 H2]. do 3 eexists. exists n. intros m Hm.
  unfold feedItem, feedOperation. rewrite Ht, Hd, Hsw, Hp. unfold kget, kmodify, kret, kbind. rewrite Hn, H2 by lia. reflexivity.
Qed.

(** ** The walk along a run *)

Section Walk.
Context (items : list AssemblyItem) (i : nat) (visited : gset nat) (m : PathGasMeter).

Local Abbreviation walk n := (walk n t keccak256 items version).

Lemma beforeItem_plain n it j vis s cl :
  m_type it <> Tag -> (m_type it = Operation -> ~ In (m_instruction it) [JUMPDEST; JUMP; JUMPI]) ->
  beforeItem n t it j vis s cl = Ret (Proceed (altersControlFlow it) ∅ vis, (s, cl)).
Proof using.
  intros Htag Hop. unfold beforeItem. rewrite (bool_decide_eq_false_2 _ Htag).
  assert (forall x, In x [JUMPDEST; JUMP; JUMPI] -> item_eqb it (opItem x noLocation) = false) as Hne.
  { intros x Hx. destruct (item_eqb it _) eqn:E; [|done]. apply item_eqb_spec in E as [Ht Hi]. cbn in Ht, Hi.
    rewrite Ht in Hi. specialize (Hop Ht). by rewrite Hi in Hop. }
  rewrite !Hne by (cbn; auto). reflexivity.
Qed.

Lemma block_item_plain it :
  block_item it ->
  m_type it <> Tag /\ (m_type it = Operation -> ~ In (m_instruction it) [JUMPDEST; JUMP; JUMPI]) /\
  altersControlFlow it = false.
Proof using.
  intros [Hb _]. unfold breaksCSEAnalysisBlock, altersControlFlow, item_isSwap, item_isDup in *.
  destruct (m_type it); try discriminate Hb; (split; [done|]); (split; [|try reflexivity]); try done.
  - intros _ Hin. destruct Hin as [E|[E|[E|[]]]]; rewrite <- E in Hb; discriminate Hb.
  - destruct (m_instruction it); try reflexivity; discriminate Hb.
Qed.

Lemma queueTags_none s L g vis : queueTags items ∅ s L g vis m = m.
Proof using. unfold queueTags. by rewrite elements_empty. Qed.

(** An item that queues nothing. *)
Lemma walk_item n it rest j L g r s cl s' cl' :
  m_type it <> Tag -> (m_type it = Operation -> ~ In (m_instruction it) [JUMPDEST; JUMP; JUMPI]) ->
  isInfinite g = false -> estimate it L n s cl = Ret (r, (s', cl')) ->
  walk n (it :: rest) j L g visited m s cl =
  if altersControlFlow it then Ret ((gas_add g (fst r), m), (s', cl'))
  else walk n rest (S j) (snd r) (gas_add g (fst r)) visited m s' cl'.
Proof using.
  intros Ht Hop Hg Hr. cbn [PathGasMeter.walk]. rewrite Hg. unfold kbind, kget.
  rewrite beforeItem_plain by done. rewrite Hr, queueTags_none. by destruct (altersControlFlow it).
Qed.

Lemma walk_infinite n rest j L g s cl :
  isInfinite g = true -> walk n rest j L g visited m s cl = Ret ((g, m), (s, cl)).
Proof using. intros Hg. destruct rest; [done|]. cbn [PathGasMeter.walk]. by rewrite Hg. Qed.

Lemma walk_estimated p tr s cl g L st w :
  estimated p tr s cl g L st w ->
  forall rest, exists N, forall n, (N <= n)%nat ->
    if isInfinite g
    then exists g' s' cl', isInfinite g' = true /\
      walk n (p ++ rest) i 0 (gas g0) visited m emptyState emptyClasses = Ret ((g', m), (s', cl'))
    else walk n (p ++ rest) i 0 (gas g0) visited m emptyState emptyClasses =
      walk n rest (i + length p)%nat L g visited m s cl.
Proof using.
  clear words0 short0 small0.
  induction 1 as [|p tr s cl g L st w it r s' cl' st' w' _ IH Hb _ _ _ [n2 H2] _ _ _]; intros rest.
  - exists 0%nat. intros n _. cbn. by rewrite Nat.add_0_r.
  - destruct (IH (it :: rest)) as [n1 H1]. exists (n1 + n2)%nat. intros n Hn.
    specialize (H1 n ltac:(lia)). specialize (H2 n ltac:(lia)). rewrite <- app_assoc. cbn [app].
    destruct (isInfinite g) eqn:Hg.
    + assert (gas_add g (fst r) = g) as -> by (unfold gas_add; rewrite Hg, andb_false_r; by rewrite Hg). by rewrite Hg.
    + destruct (block_item_plain it Hb) as (Ht & Hop & Ha).
      rewrite H1, (walk_item n it rest _ L g r s cl s' cl' Ht Hop Hg H2), Ha.
      rewrite length_app, Nat.add_1_r, Nat.add_succ_r.
      destruct (isInfinite (gas_add g (fst r))) eqn:Hg'; [|done].
      exists (gas_add g (fst r)), s', cl'. split; [done|]. by apply walk_infinite.
Qed.
End Walk.

(** How code goes on after the items of a run: it is over, or an instruction ends the execution. *)
Inductive ends : list AssemblyItem -> list AssemblyItem -> Prop :=
| ends_code : ends [] []
| ends_halting b rest : halting b -> ends [b] (b :: rest).

Lemma covers_spent p st w g L r own :
  covers own 0 (furthest p st w) (g, L) -> own = g0 + ownCosts version newAccount p st w -> r = g ->
  isInfinite r = true \/ g0 + spent version newAccount p st w <= GasMeter.value r.
Proof using.
  clear words0 short0 small0. intros (_ & HL & Hc) -> ->. cbn [fst snd] in *. destruct Hc as [Hc|[Hc Hf]]; [by left|right].
  unfold spent. change (memoryCost 0) with 0 in Hc.
  assert (0 <= furthest p st w) as H0 by (destruct p as [|a p]; cbn [furthest]; [lia|]; pose proof (reach_nonneg (spans a st)); lia).
  assert (memoryCost (furthest p st w) <= memoryCost L) by (apply memoryCost_mono; lia). lia.
Qed.

(** The walk from the start of a run to its end. *)
Lemma walk_bounds items i visited m p stop tail st w :
  block_ok p st0 w0 -> exec p st0 w0 = Next st w -> ends stop tail -> all_measurable (p ++ stop) st0 w0 ->
  2 * Z.of_nat (length p) + 3 < 2 ^ 32 ->
  exists N, forall n, (N <= n)%nat -> exists g s cl,
    walk n t keccak256 items version (p ++ tail) i 0 (gas g0) visited m emptyState emptyClasses = Ret ((g, m), (s, cl)) /\
    (isInfinite g = true \/ g0 + spent version newAccount (p ++ stop) st0 w0 <= GasMeter.value g).
Proof using All.
  intros Hok Hx Hends Hm Hlen. destruct (all_measurable_app _ _ _ _ _ _ Hx Hm) as [Hm1 Hm2].
  destruct (estimated_complete p st w Hok Hx Hm1 Hlen) as (tr & s & cl & g & L & He).
  destruct (walk_estimated items i visited m _ _ _ _ _ _ _ _ He tail) as [N1 H1].
  pose proof (estimated_trace _ _ _ _ _ _ _ _ He) as Htr.
  destruct (trace_world_at w0 good0 _ _ _ _ Htr) as [Hgood Hsame].
  destruct (estimated_sound (world_at w0 tr) _ _ _ _ _ _ _ _ He Hgood Hsame ltac:(lia)) as [[v Hv] Hcov].
  destruct (isInfinite g) eqn:Hg.
  { exists N1. intros n Hn. destruct (H1 n Hn) as (g' & s' & cl' & Hi & Hw). exists g', s', cl'. split; [done|by left]. }
  destruct Hends as [|b rest Hb].
  - exists N1. intros n Hn. exists g, s, cl. split; [by rewrite H1|]. rewrite app_nil_r. by eapply covers_spent.
  - cbn [all_measurable] in Hm2. destruct Hm2 as [(Hmb & Hlow & Hargs) _]. pose proof (proj1 Hb) as Hop.
    destruct (item_bounded t rules version newAccount true w0 st0 (world_at w0 tr) good0 Hgood words0 short0 st w s cl v L Hv
      (estimated_words _ _ _ _ _ _ _ _ He) ltac:(destruct Hcov as (_ & ? & _); cbn in *; lia) b Hargs Hlow Hmb)
      as (r & s1 & cl1 & v1 & [n2 H2] & _ & _ & _ & _ & Hv1 & Hcovb).
    destruct (halting_feeds _ s1 cl1 v1 b st w Hgood Hv1 Hb ltac:(by apply Hargs)) as (op & s2 & cl2 & [n3 H3]).
    exists (N1 + n2 + n3)%nat. intros n Hn. exists (gas_add g (fst r)), s2, cl2. split.
    + assert (estimate b L n s cl = Ret (r, (s2, cl2))) as Hest
        by (unfold estimateMax, kbind; rewrite H2 by lia; by rewrite H3 by lia).
      rewrite H1 by lia. rewrite (walk_item items visited m n b rest _ L g r s cl s2 cl2); try done.
      * by rewrite (halting_altersControlFlow b Hb).
      * by rewrite Hop.
      * intros _ Hin. destruct Hb as [_ Hb]. destruct Hin as [E|[E|[E|[]]]]; by rewrite <- E in Hb.
    + eapply (covers_spent (p ++ [b])); [|done|done].
      rewrite (ownCosts_app _ _ _ [b] _ _ _ _ Hx), (furthest_app _ [b] _ _ _ _ Hx). cbn [ownCosts furthest].
      refine (covers_le _ _ _ _ _ _ _ _ (covers_seq _ _ _ _ _ (g, L) r Hcov Hcovb));
        pose proof (reach_nonneg (spans b st)); destruct (exec_item b st w); cbn [ownCosts furthest]; lia.
Qed.
End Run.

(** Straight-line code: the items [p] from position [start] on, after the tag at [start] if there
    is one, up to the end of the code or the instruction that ends the execution. *)
Inductive straight : list AssemblyItem -> nat -> list AssemblyItem -> list AssemblyItem -> list AssemblyItem -> Prop :=
| straight_start p stop tail : ends stop tail -> straight (p ++ tail) 0 [] p stop
| straight_tag pre tag p stop tail :
    m_type tag = Tag -> ends stop tail -> straight (pre ++ tag :: p ++ tail) (length pre) [tag] p stop.

Section Estimate.
Context {W H : Type} `{!World W H} `{!WorldLaws W H} `{!StateWorld W} {keccak256 : list Z -> Z}
  `{!StateLaws W H keccak256}.

(** One path on the queue. *)
Lemma pathEstimate_single n steps t items version start g s cl cl' :
  (1 <= steps)%nat ->
  match startsPath items start with
  | true => exists m s', (m_queue m = ∅) /\
      walk n t keccak256 items version (drop start items) start 0 (gas 0) ∅
        (mkMeter ∅ {[ start := gas 0 ]}) s cl = Ret ((g, m), (s', cl'))
  | false => g = gas 0 /\ cl' = cl
  end ->
  pathEstimate n steps t keccak256 items version start s cl = Ret (Some (gas_max (gas 0) g), cl').
Proof using.
  intros Hsteps Hw. unfold pathEstimate, queue. cbn [m_highestGasUsagePerJumpdest index m_queue path_gas].
  rewrite lookup_empty, !insert_empty. destruct steps as [|steps]; [lia|]. cbn [handleQueue m_queue isInfinite gas orb].
  rewrite bool_decide_eq_false_2 by apply map_non_empty_singleton. cbn [orb].
  unfold handleQueueItem, last_key. cbn [m_queue]. rewrite map_to_list_singleton. cbn [fold_right fst].
  cbn [mbind option_bind]. rewrite lookup_singleton_eq. cbn [index state largestMemoryAccess path_gas visitedJumpdests].
  destruct (startsPath items start).
  - destruct Hw as (m & s' & Hm & Hw). rewrite delete_singleton_eq. cbn [m_highestGasUsagePerJumpdest]. rewrite Hw.
    destruct steps; cbn [handleQueue]; rewrite Hm; by rewrite bool_decide_eq_true_2.
  - destruct Hw as [-> ->]. rewrite delete_singleton_eq.
    destruct steps; cbn [handleQueue m_queue]; by rewrite bool_decide_eq_true_2.
Qed.

Lemma gas_max_covers c g :
  isInfinite g = true \/ c <= GasMeter.value g -> isInfinite (gas_max (gas 0) g) = true \/ c <= GasMeter.value (gas_max (gas 0) g).
Proof using.
  intros Hc. unfold gas_max. destruct (gas_ltb (gas 0) g) eqn:E; [done|]. unfold gas_ltb in E. cbn in E.
  destruct (isInfinite g) eqn:Hi; [discriminate E|]. destruct Hc as [|Hc]; [done|right]. cbn. bool_to_prop. lia.
Qed.

End Estimate.

(** ** Concrete runs *)

#[local] Transparent toBigEndian fromBigEndian readWord readBytes.

(** A hash that only depends on the number of bytes. *)
Definition countHash (l : list Z) : Z := Z.of_nat (length l).

(** [return 7], at the tag 1. *)
Definition return_seven : list AssemblyItem :=
  [dataItem Push 7 noLocation; dataItem Push 0 noLocation; opItem MSTORE noLocation;
   dataItem Push 32 noLocation; dataItem Push 0 noLocation].

Definition return_code : list AssemblyItem :=
  opItem STOP noLocation :: dataItem Tag 1 noLocation :: return_seven ++ [opItem RETURN noLocation].

Lemma return_seven_ok :
  @block_ok _ _ (memoryWorld countHash) return_seven [] initialState /\
  @all_measurable _ _ (memoryWorld countHash) (return_seven ++ [opItem RETURN noLocation]) [] initialState.
Proof.
  split; [|apply run_measurable_ok; vm_compute; reflexivity]. vm_compute.
  repeat match goal with |- _ /\ _ => split end; try done; try (intros; discriminate); lia.
Qed.

Lemma return_seven_runs : exists w, @exec _ _ (memoryWorld countHash) return_seven [] initialState = Next [0; 32] w.
Proof. eexists. vm_compute. reflexivity. Qed.


(** [MSTORE] of a word at the last 32 bytes of the address space. *)
Definition wrapping_store : list AssemblyItem :=
  [dataItem Push 7 noLocation; dataItem Push (modulus - 32) noLocation; opItem MSTORE noLocation].

