(* ===== verification/Simulation.v ===== *)
(** * Simulation: replacing segments of code by segments of the same effect

    When a list of items is cut into windows and each window is replaced by items of the
    same effect, the new code behaves as the old one: jumps find the same tags, and a
    jump to the tag that follows may be dropped.  The optimisers of assembly items are
    instances. *)

From S2P Require Import Prelude U256 Instruction AssemblyItem SemanticInformation Interpreter RuleSound Machine.

Definition noTag (it : AssemblyItem) : Prop := m_type it <> Tag.

Lemma op_noTag it i : is_op it i = true -> noTag it.
Proof. intros [Ht _]%is_op_spec. unfold noTag. congruence. Qed.

Ltac no_tags :=
  repeat (apply Forall_cons_2 || apply Forall_nil_2); try assumption;
  try (by eapply op_noTag); try (unfold noTag; simpl; congruence).

Ltac fine_items := repeat first [assumption | apply Forall_cons_2 | apply Forall_nil_2].

Section Sound.
Context {W H : Type} `{!World W H} `{!WorldLaws W H}.


Definition words (st : list Z) : Prop := Forall is_u256 st.

(** The constant of an item is a word. *)
Definition item_words (it : AssemblyItem) : Prop := m_type it = Push -> is_u256 (m_data it).

Definition isTag (it : AssemblyItem) : bool := bool_decide (m_type it = Tag).
Definition tag_addresses (p : list AssemblyItem) : list Z :=
  map (fun it => addr (m_data it)) (List.filter isTag p).

(** ** Effects *)

(** An arithmetic instruction of one or two arguments. *)
Lemma exec_arith1 i a st w v :
  isStackInstruction i = false -> words (a :: st) -> eval_arith i [a] = Some v ->
  exec_instruction i (a :: st) w = Next (v :: st) w.
Proof using All.
  intros Hi Hw He. rewrite exec_perform by done.
  rewrite (eval_arith_args _ _ _ He). simpl. rewrite take_0, drop_0.
  apply Forall_cons in Hw as [Ha _].
  pose proof (perform_arith i [a] v w ltac:(words_list) He) as ->. done.
Qed.

Lemma exec_arith2 i a b st w v :
  isStackInstruction i = false -> words (a :: b :: st) -> eval_arith i [a; b] = Some v ->
  exec_instruction i (a :: b :: st) w = Next (v :: st) w.
Proof using All.
  intros Hi Hw He. rewrite exec_perform by done.
  rewrite (eval_arith_args _ _ _ He). simpl. rewrite take_0, drop_0.
  apply Forall_cons in Hw as [Ha Hw]. apply Forall_cons in Hw as [Hb _].
  pose proof (perform_arith i [a; b] v w ltac:(words_list) He) as ->. done.
Qed.

Lemma exec_underflow i st w :
  isStackInstruction i = false -> (length st < args (instructionInfo i))%nat ->
  exec_instruction i st w = End Underflow.
Proof using. intros Hi Hl. rewrite exec_perform by done. by rewrite (proj2 (Nat.ltb_lt _ _) Hl). Qed.

(** An operation is executed by its instruction. *)
Lemma exec_op it i st w : is_op it i = true -> exec_item it st w = exec_instruction i st w.
Proof using. intros [Ht <-]%is_op_spec. unfold exec_item. by rewrite Ht. Qed.

Lemma words_dup n st st' : words st -> dup n st = Some st' -> words st'.
Proof.
  unfold dup. intros Hw Hd. destruct (st !! (n - 1)%nat) as [x|] eqn:Hx; simplify_eq/=.
  constructor; [by eapply Forall_lookup_1|done].
Qed.

Lemma words_swap n st st' : words st -> swap n st = Some st' -> words st'.
Proof.
  unfold swap. intros Hw Hd. destruct (st !! 0%nat) as [a|] eqn:Ha; simplify_eq/=.
  destruct (st !! n) as [b|] eqn:Hb; simplify_eq/=.
  apply Forall_insert; [apply Forall_insert; [done|]|]; by eapply Forall_lookup_1.
Qed.

(** The stack keeps holding words. *)
Definition effect_words (e : Effect (W:=W) (H:=H)) : Prop :=
  match e with Next st _ | Goto _ st _ => words st | End _ => True end.

Lemma exec_instruction_words i st w : words st -> effect_words (exec_instruction i st w).
Proof using All.
  intros Hw. destruct (isStackInstruction i) eqn:Hi.
  - unfold isStackInstruction in Hi. unfold exec_instruction.
    destruct (isDupInstruction i).
    { destruct (dup _ st) eqn:Hd; simpl; [by eapply words_dup|done]. }
    destruct (isSwapInstruction i).
    { destruct (swap _ st) eqn:Hd; simpl; [by eapply words_swap|done]. }
    destruct i; try discriminate Hi.
    all: destruct st as [|a [|c st]]; try done; inversion Hw as [|? ? ? Hw']; subst; try done.
    inversion Hw'; subst. by destruct (c =? 0).
  - rewrite exec_perform by done. destruct (_ <? _)%nat; [done|].
    destruct (perform i (take _ st) w) as [[r w']|h] eqn:Hp; [|done]. simpl.
    apply perform_result in Hp as [_ Hr]; [|by apply Forall_take].
    apply Forall_app_2; [done|by apply Forall_drop].
Qed.

Lemma push_value_word it : item_words it -> is_u256 (push_value it).
Proof using All.
  unfold item_words, push_value. intros Hp. pose proof (addr_range (m_data it)).
  destruct (m_type it); try apply pushed_range; [by apply Hp|].
  unfold is_u256, modulus. lia.
Qed.

Lemma exec_item_words it st w : item_words it -> words st -> effect_words (exec_item it st w).
Proof using All.
  intros Hf Hw. pose proof (push_value_word it Hf). unfold exec_item.
  destruct (m_type it); try done; try (by constructor); [by apply exec_instruction_words|].
  destruct st; [done|]. by inversion Hw.
Qed.

Lemma exec_words seg st w : Forall item_words seg -> words st -> effect_words (exec seg st w).
Proof using All.
  intros Hs. revert st w. induction Hs as [|it seg Hit _ IH]; intros st w Hw; [done|]. simpl.
  pose proof (exec_item_words it st w Hit Hw) as He.
  destruct (exec_item it st w); [by apply IH|done|done].
Qed.
(** The replacement has the effect of the window, unless the window underflows. *)
Definition same_effect (seg o : list AssemblyItem) : Prop :=
  forall st w, words st -> exec seg st w = End Underflow \/ exec o st w = exec seg st w.

Lemma exec_cons it seg st w :
  exec (it :: seg) st w = match exec_item it st w with Next st w => exec seg st w | e => e end.
Proof using. done. Qed.

Lemma exec_one it st w : exec [it] st w = exec_item it st w.
Proof using. simpl. by destruct (exec_item it st w). Qed.

Lemma exec_pop it st w :
  is_op it POP = true ->
  exec_item it st w = match st with _ :: st => Next st w | [] => End Underflow end.
Proof using. intros Hp. by rewrite (exec_op _ _ _ _ Hp). Qed.

Lemma exec_pops n loc seg st w :
  exec (replicate n (opItem POP loc) ++ seg) st w =
  if (length st <? n)%nat then End Underflow else exec seg (drop n st) w.
Proof using.
  revert st. induction n as [|n IH]; intros st; [by rewrite drop_0|].
  cbn [replicate app]. rewrite exec_cons, (exec_pop (opItem POP loc)) by done.
  destruct st as [|x st]; [done|]. by rewrite IH.
Qed.

(** An item that pushes a value. *)
Lemma exec_push it st w :
  match m_type it with
  | Operation | Tag | AssignImmutable | UndefinedItem => False
  | _ => True
  end -> exec_item it st w = Next (push_value it :: st) w.
Proof using. unfold exec_item. by destruct (m_type it). Qed.

(** ** Windows *)



(** What the items of the code satisfy; the replacements keep it. *)
Section Windows.
Context (fine : AssemblyItem -> Prop) (fine_words : forall it, fine it -> item_words it).

(** A window and its replacement: same effect without tags, a tag kept, or a jump to
    the tag that follows. *)
Inductive window : list AssemblyItem -> list AssemblyItem -> Prop :=
| w_same seg o :
    Forall noTag seg -> Forall noTag o -> Forall fine o -> same_effect seg o -> window seg o
| w_tag t : m_type t = Tag -> fine t -> window [t] [t]
| w_jump pt j t :
    m_type pt = PushTag -> is_op j JUMP = true -> m_type t = Tag -> m_data pt = m_data t ->
    fine t -> window [pt; j; t] [t]
| w_jumpi pt j t loc :
    m_type pt = PushTag -> is_op j JUMPI = true -> m_type t = Tag -> m_data pt = m_data t ->
    fine t -> fine (opItem POP loc) -> window [pt; j; t] [opItem POP loc; t].

Record code_ok (p : list AssemblyItem) : Prop := {
  ok_items : Forall fine p;
  ok_tags : NoDup (tag_addresses p) }.

(** ** The rewritten code *)

(** Code cut into windows that have been replaced. *)
Inductive rewritten : list AssemblyItem -> list AssemblyItem -> Prop :=
| rew_nil : rewritten [] []
| rew_window seg o rest rest' :
    seg <> [] -> window seg o ->
    rewritten rest rest' -> rewritten (seg ++ rest) (o ++ rest').

Lemma rewritten_tag t rest rest' :
  m_type t = Tag -> fine t -> rewritten rest rest' -> rewritten (t :: rest) (t :: rest').
Proof using.
  intros Ht Hf Ho. by apply (rew_window [t] [t]); [|apply w_tag|].
Qed.

Lemma destination_noTag seg rest a :
  Forall noTag seg -> destination (seg ++ rest) a = destination rest a.
Proof using.
  induction 1 as [|it seg Hit _ IH]; [done|]. simpl.
  by rewrite bool_decide_eq_false_2 by done.
Qed.

Lemma destination_tag t rest a :
  m_type t = Tag ->
  destination (t :: rest) a = if addr (m_data t) =? a then Some (t :: rest) else destination rest a.
Proof using. intros Ht. simpl. by rewrite bool_decide_eq_true_2. Qed.

(** A tag and what follows it, in the original and the rewritten code. *)
Lemma rewritten_destination code code' a :
  rewritten code code' ->
  match destination code a with
  | Some c => exists c', destination code' a = Some c' /\ rewritten c c'
  | None => destination code' a = None
  end.
Proof using.
  induction 1 as [|seg o rest rest' Hne Hw Ho IH]; [done|].
  assert (forall t, m_type t = Tag -> fine t ->
    match destination (t :: rest) a with
    | Some c => exists c', destination (t :: rest') a = Some c' /\ rewritten c c'
    | None => destination (t :: rest') a = None
    end) as Htag.
  { intros t Ht Hft. rewrite !destination_tag by done. destruct (_ =? a); [|done].
    exists (t :: rest'). split; [done|]. by apply rewritten_tag. }
  destruct Hw as [seg o Hs Hn _ _|t Ht Hft|pt j t Hp Hj Ht Hd Hft|pt j t loc Hp Hj Ht Hd Hft Hfp].
  - by rewrite !destination_noTag.
  - by apply Htag.
  - rewrite (destination_noTag [pt; j] (t :: rest)); [by apply Htag|].
    no_tags.
  - rewrite (destination_noTag [pt; j] (t :: rest)) by no_tags.
    rewrite (destination_noTag [opItem POP loc] (t :: rest')) by no_tags. by apply Htag.
Qed.

Lemma tag_addresses_app l l' : tag_addresses (l ++ l') = tag_addresses l ++ tag_addresses l'.
Proof using. unfold tag_addresses. by rewrite List.filter_app, map_app. Qed.

Lemma tag_addresses_noTag l : Forall noTag l -> tag_addresses l = [].
Proof using.
  unfold tag_addresses. induction 1 as [|it l Hit _ IH]; [done|]. simpl. unfold isTag at 1.
  by rewrite bool_decide_eq_false_2.
Qed.

Lemma tag_addresses_tag t l : m_type t = Tag -> tag_addresses (t :: l) = addr (m_data t) :: tag_addresses l.
Proof using. intros Ht. unfold tag_addresses. simpl. unfold isTag at 1. by rewrite bool_decide_eq_true_2. Qed.

(** The rewritten code has the same tags and fine items. *)
Lemma rewritten_ok code code' :
  rewritten code code' -> Forall fine code ->
  tag_addresses code' = tag_addresses code /\ Forall fine code'.
Proof using.
  induction 1 as [|seg o rest rest' Hne Hw Ho IH]; intros Hfine; [done|].
  apply Forall_app in Hfine as [Hfs Hfr]. destruct (IH Hfr) as [Ht Hfo].
  rewrite !tag_addresses_app, Ht.
  destruct Hw as [seg o Hs Hn Hof _|t Htt Hft|pt j t Hp Hj Htt Hd Hft|pt j t loc Hp Hj Htt Hd Hft Hfp].
  - rewrite (tag_addresses_noTag seg), (tag_addresses_noTag o) by done.
    split; [done|]. by apply Forall_app_2.
  - split; [done|]. by apply Forall_app_2.
  - split; [|by apply Forall_app_2; fine_items].
    f_equal. change [pt; j; t] with ([pt; j] ++ [t]). rewrite tag_addresses_app.
    by rewrite (tag_addresses_noTag [pt; j]) by no_tags.
  - split; [|by apply Forall_app_2; fine_items].
    f_equal. change [pt; j; t] with ([pt; j] ++ [t]).
    change [opItem POP loc; t] with ([opItem POP loc] ++ [t]). rewrite !tag_addresses_app.
    by rewrite (tag_addresses_noTag [opItem POP loc]), (tag_addresses_noTag [pt; j]) by no_tags.
Qed.

(** A jump to a tag of the code goes to that tag. *)
Lemma destination_suffix pre t rest :
  NoDup (tag_addresses (pre ++ t :: rest)) -> m_type t = Tag ->
  destination (pre ++ t :: rest) (addr (m_data t)) = Some (t :: rest).
Proof using.
  induction pre as [|it pre IH]; intros Hnd Ht.
  - simpl. by rewrite bool_decide_eq_true_2, Z.eqb_refl.
  - simpl. destruct (bool_decide (m_type it = Tag)) eqn:Hit.
    + apply bool_decide_eq_true in Hit. simpl in Hnd. rewrite tag_addresses_tag in Hnd by done.
      apply NoDup_cons in Hnd as [Hni Hnd].
      destruct (Z.eqb_spec (addr (m_data it)) (addr (m_data t))) as [He|]; [|by apply IH].
      destruct Hni. rewrite He, tag_addresses_app, tag_addresses_tag by done.
      apply elem_of_app. right. by left.
    + apply IH; [|done]. unfold tag_addresses in *. simpl in Hnd. unfold isTag at 1 in Hnd.
      by rewrite Hit in Hnd.
Qed.

(** ** Simulation *)

Section Simulation.
Context (p p' : list AssemblyItem) (p_ok : code_ok p) (p_opt : rewritten p p').

Definition suffix_of (code : list AssemblyItem) : Prop := exists pre, p = pre ++ code.

Lemma suffix_fine code : suffix_of code -> Forall fine code.
Proof using p_ok.
  intros [pre Hp]. pose proof (ok_items p p_ok) as Hf. rewrite Hp in Hf.
  by apply Forall_app in Hf as [_ Hf].
Qed.

Lemma suffix_app seg rest : suffix_of (seg ++ rest) -> suffix_of rest.
Proof using. intros [pre Hp]. exists (pre ++ seg). by rewrite <- app_assoc. Qed.

Lemma destination_is_suffix a code : destination p a = Some code -> suffix_of code.
Proof using.
  unfold suffix_of. clear p_ok p_opt. induction p as [|it q IH]; [done|]. simpl.
  destruct (_ && _).
  - intros [= <-]. by exists [].
  - intros Hd. destruct (IH Hd) as [pre ->]. by exists (it :: pre).
Qed.

(** The two runs of a jump to the next tag meet at the tag. *)
Lemma jump_next pt j t rest :
  suffix_of (pt :: j :: t :: rest) -> m_type pt = PushTag -> m_type t = Tag -> m_data pt = m_data t ->
  destination p (addr (m_data pt)) = Some (t :: rest).
Proof using p_ok.
  intros [pre Hp] _ Ht ->. pose proof (ok_tags p p_ok) as Hnd. rewrite Hp in Hnd |- *.
  change (pre ++ pt :: j :: t :: rest) with (pre ++ [pt; j] ++ t :: rest) in *.
  rewrite app_assoc in *. by apply destination_suffix.
Qed.

Lemma exec_jump pt j st w :
  m_type pt = PushTag -> is_op j JUMP = true -> exec [pt; j] st w = Goto (addr (m_data pt)) st w.
Proof using.
  intros Hp Hj. rewrite exec_cons, exec_push by (by rewrite Hp).
  rewrite exec_one, (exec_op _ _ _ _ Hj). unfold push_value. by rewrite Hp.
Qed.

Lemma exec_jumpi pt j st w :
  m_type pt = PushTag -> is_op j JUMPI = true ->
  exec [pt; j] st w =
  match st with
  | c :: st => if c =? 0 then Next st w else Goto (addr (m_data pt)) st w
  | [] => End Underflow
  end.
Proof using.
  intros Hp Hj. rewrite exec_cons, exec_push by (by rewrite Hp).
  rewrite exec_one, (exec_op _ _ _ _ Hj). unfold push_value. rewrite Hp. by destruct st.
Qed.

Lemma evaluates_next it rest st w o :
  exec_item it st w = Next st w -> evaluates p' rest st w o -> evaluates p' (it :: rest) st w o.
Proof using. intros He Hr. apply (exec_run [it]). simpl. by rewrite He. Qed.

(** What a run of the original does, the rewritten code does. *)
Lemma forward n : forall code code' st w o,
  rewritten code code' -> suffix_of code -> words st ->
  run n p code st w = Some o -> o <> Underflow -> evaluates p' code' st w o.
Proof using All.
  induction (lt_wf n) as [n _ IH]. intros code code' st w o Ho Hs Hw Hr Hu.
  destruct Ho as [|seg out rest rest' Hne Hwin Hrest].
  { exists 1%nat. destruct n; [done|]. by simpl in *. }
  pose proof (suffix_app _ _ Hs) as Hs'. pose proof (suffix_fine _ Hs) as Hfine.
  apply Forall_app in Hfine as [Hfs _].
  destruct Hwin as [seg out _ _ _ Heff|t Ht Hft|pt j t Hp Hj Ht Hd Hft|pt j t loc Hp Hj Ht Hd Hft Hfp].
  - apply run_exec in Hr. pose proof (exec_words seg st w (Forall_impl _ _ _ Hfs fine_words) Hw) as Hws.
    destruct (Heff st w Hw) as [Hun|He]; [rewrite Hun in Hr; done|].
    apply exec_run. rewrite He. destruct (exec seg st w) as [st1 w1|a st1 w1|o1]; simpl in Hws.
    + destruct Hr as [Hle Hr]. destruct seg; [done|]. simpl in Hle.
      eapply (IH (n - length (a :: seg))%nat); eauto. simpl. lia.
    + pose proof (rewritten_destination p p' a p_opt) as Hdest.
      destruct (destination p a) as [c|] eqn:Hda; [|by rewrite Hdest].
      destruct Hdest as (c' & -> & Hoc). destruct Hr as (n' & Hn & Hr).
      eapply (IH n'); eauto. by eapply destination_is_suffix.
    + done.
  - destruct n as [|n]; [done|]. simpl in Hr. unfold exec_item in Hr. rewrite Ht in Hr.
    apply evaluates_next; [unfold exec_item; by rewrite Ht|]. eapply (IH n); eauto.
  - apply (run_exec [pt; j]) in Hr. rewrite exec_jump in Hr by done.
    rewrite (jump_next pt j t rest) in Hr by done. destruct Hr as (n' & Hn & Hr).
    apply (IH n' Hn (t :: rest) (t :: rest')); try done;
      [by apply rewritten_tag|by apply (suffix_app [pt; j])].
  - apply (run_exec [pt; j]) in Hr. rewrite exec_jumpi in Hr by done.
    destruct st as [|c st]; [done|]. apply (exec_run [opItem POP loc]). simpl.
    inversion Hw as [|? ? _ Hw']; subst.
    assert (exists n', (n' < n)%nat /\ run n' p (t :: rest) st w = Some o) as (n' & Hn & Hr').
    { destruct (c =? 0).
      - destruct Hr as [Hl Hr]. simpl in Hl. exists (n - 2)%nat. split; [lia|done].
      - by rewrite (jump_next pt j t rest) in Hr. }
    apply (IH n' Hn (t :: rest) (t :: rest')); try done;
      [by apply rewritten_tag|by apply (suffix_app [pt; j])].
Qed.

(** The original ends as the rewritten code does, or underflows. *)
Definition matched (code : list AssemblyItem) (st : list Z) (w : W) (o : Outcome (W:=W) (H:=H)) : Prop :=
  exists o', evaluates p code st w o' /\ (o' = o \/ o' = Underflow).

Lemma matched_exec seg rest st w o :
  match exec seg st w with
  | Next st' w' => matched rest st' w' o
  | Goto a st' w' =>
      match destination p a with
      | Some code => matched code st' w' o
      | None => o = BadJump
      end
  | End o' => o' = o \/ o' = Underflow
  end -> matched (seg ++ rest) st w o.
Proof using.
  unfold matched. intros Hm. destruct (exec seg st w) as [st1 w1|a st1 w1|o1] eqn:He.
  - destruct Hm as (o' & Hev & Ho). exists o'. split; [|done]. apply exec_run. by rewrite He.
  - destruct (destination p a) as [c|] eqn:Hd.
    + destruct Hm as (o' & Hev & Ho). exists o'. split; [|done]. apply exec_run. by rewrite He, Hd.
    + exists o. split; [|by left]. apply exec_run. by rewrite He, Hd.
  - exists o1. split; [|done]. apply exec_run. by rewrite He.
Qed.

Lemma exec_tag t st w : m_type t = Tag -> exec [t] st w = Next st w.
Proof using. intros Ht. rewrite exec_one. unfold exec_item. by rewrite Ht. Qed.

Lemma run_tag n t rest st w o :
  m_type t = Tag -> run n p' (t :: rest) st w = Some o -> run n p' rest st w = Some o.
Proof using.
  intros Ht Hr. destruct n as [|n]; [done|]. cbn [run] in Hr. unfold exec_item in Hr. rewrite Ht in Hr.
  apply (run_mono n); [done|lia].
Qed.

Lemma backward n : forall code code' st w o,
  rewritten code code' -> suffix_of code -> words st ->
  run n p' code' st w = Some o -> matched code st w o.
Proof using All.
  induction (lt_wf n) as [n _ IH]. intros code code' st w o Ho.
  revert st w. induction Ho as [|seg out rest rest' Hne Hwin Hrest IHrest]; intros st w Hs Hw Hr.
  { exists o. split; [|by left]. exists 1%nat. destruct n; [done|]. by simpl in *. }
  pose proof (suffix_app _ _ Hs) as Hs'. pose proof (suffix_fine _ Hs) as Hfine.
  apply Forall_app in Hfine as [Hfs _]. specialize (fun st w Hw => IHrest st w Hs' Hw).
  assert (forall t st w, m_type t = Tag -> words st -> run n p' (t :: rest') st w = Some o ->
    matched (t :: rest) st w o) as Htag.
  { intros t st1 w1 Ht Hw1 Hr1. apply (matched_exec [t]). rewrite exec_tag by done.
    apply IHrest; [done|]. by eapply run_tag. }
  destruct Hwin as [seg out _ _ _ Heff|t Ht Hft|pt j t Hp Hj Ht Hd Hft|pt j t loc Hp Hj Ht Hd Hft Hfp].
  - apply matched_exec. pose proof (exec_words seg st w (Forall_impl _ _ _ Hfs fine_words) Hw) as Hws.
    destruct (Heff st w Hw) as [Hun|He]; [rewrite Hun; by right|].
    apply run_exec in Hr. rewrite He in Hr.
    destruct (exec seg st w) as [st1 w1|a st1 w1|o1]; simpl in Hws.
    + destruct Hr as [Hle Hr]. apply IHrest; [done|]. eapply run_mono; [exact Hr|lia].
    + pose proof (rewritten_destination p p' a p_opt) as Hdest.
      destruct (destination p a) as [c|] eqn:Hda; [|by rewrite Hdest in Hr].
      destruct Hdest as (c' & Hc' & Hoc). rewrite Hc' in Hr. destruct Hr as (n' & Hn & Hr).
      apply (IH n' Hn c c'); try done. by eapply destination_is_suffix.
    + by left.
  - by apply Htag.
  - apply (matched_exec [pt; j]). rewrite exec_jump by done.
    rewrite (jump_next pt j t rest) by done. by apply Htag.
  - apply (matched_exec [pt; j]). rewrite exec_jumpi by done.
    destruct st as [|c st]; [by right|]. inversion Hw as [|? ? _ Hw']; subst.
    assert (matched (t :: rest) st w o) as Hm.
    { apply Htag; [done|done|]. apply (run_exec [opItem POP loc]) in Hr as [_ Hr].
      eapply run_mono; [exact Hr|lia]. }
    destruct (c =? 0); [done|]. by rewrite (jump_next pt j t rest).
Qed.
End Simulation.

(** ** Refinement *)

(** [p'] behaves as [p] on every stack and world: where the original does not
    underflow they end the same way, and the new code ends only where the original
    does. *)
Definition refines (p p' : list AssemblyItem) : Prop :=
  forall st w, Forall is_u256 st ->
    (forall o, evaluates p p st w o -> o <> Underflow -> evaluates p' p' st w o) /\
    (forall o, evaluates p' p' st w o ->
       exists o', evaluates p p st w o' /\ (o' = o \/ o' = Underflow)).

Lemma refines_refl p : refines p p.
Proof. intros st w _. split; [done|]. intros o Ho. exists o. split; [done|by left]. Qed.

Lemma refines_trans p1 p2 p3 : refines p1 p2 -> refines p2 p3 -> refines p1 p3.
Proof.
  intros H12 H23 st w Hw. destruct (H12 st w Hw) as [Hf1 Hb1]. destruct (H23 st w Hw) as [Hf2 Hb2].
  split; [by auto|]. intros o Ho. destruct (Hb2 o Ho) as (o2 & He2 & Hc2).
  destruct (Hb1 o2 He2) as (o1 & He1 & Hc1). exists o1. split; [done|]. naive_solver.
Qed.

Lemma rewritten_refines p p' : code_ok p -> rewritten p p' -> refines p p'.
Proof using All.
  intros Hp Ho st w Hw. assert (suffix_of p p) as Hs by (by exists []). split.
  - intros o [n Hn] Hu. by eapply forward.
  - intros o [n Hn]. by eapply backward.
Qed.

Lemma rewritten_code_ok p p' : code_ok p -> rewritten p p' -> code_ok p'.
Proof using All.
  intros [Hf Ht] Ho. destruct (rewritten_ok p p' Ho Hf) as [Hta Hfi].
  split; [done|]. by rewrite Hta.
Qed.

End Windows.
End Sound.
