(* ===== verification/ConstantSound.v ===== *)
(** * ConstantSound: what the constant optimiser computes

    Every routine [findRepresentation] builds computes its value: the check of
    [ComputeMethod] never fails, the routine pushes the value on the machine, and the
    search returns. *)

From S2P Require Import Prelude U256 CommonData Instruction EVMVersion AssemblyItem SemanticInformation Interpreter RuleSound Machine Simulation GasMeter ConstantOptimiser.

(** ** Routines *)

(** The routines of the search, with the value each computes. *)
Inductive computes (ver : EVMVersion) : Z -> list AssemblyItem -> Prop :=
| c_push v : is_u256 v -> computes ver v [push v]
| c_not v r : computes ver v r -> computes ver (u256_not v) (r ++ [op NOT])
| c_shl v r bits :
    hasBitwiseShifting ver = true -> 0 <= bits <= 255 -> computes ver v r ->
    computes ver (u256_shl v bits) (r ++ [push bits; op SHL])
| c_exp bits : 0 <= bits <= 255 -> computes ver (2 ^ bits) [push bits; push 2; op EXP]
| c_mul a b r r' :
    computes ver a r -> computes ver b r' -> computes ver (u256_mul b a) (r ++ r' ++ [op MUL])
| c_add a b r r' :
    computes ver a r -> computes ver b r' -> computes ver (u256_add b a) (r ++ r' ++ [op ADD])
| c_sub a b r r' :
    computes ver a r -> computes ver b r' -> computes ver (u256_sub b a) (r ++ r' ++ [op SUB]).

Lemma pow2_word bits : 0 <= bits <= 255 -> is_u256 (2 ^ bits).
Proof.
  intros Hb. unfold is_u256, modulus. pose proof (Z.pow_lt_mono_r 2 bits 256). lia.
Qed.

Lemma computes_word ver v r : computes ver v r -> is_u256 v.
Proof. destruct 1; try apply u256_range; [done|by apply pow2_word]. Qed.

(** An item of a routine: a word pushed or an operation of fixed cost. *)
Definition routine_item (it : AssemblyItem) : Prop :=
  (exists v, is_u256 v /\ it = push v) \/
  exists i, In i [NOT; SHL; EXP; MUL; ADD; SUB] /\ it = op i.

Lemma computes_items ver v r : computes ver v r -> Forall routine_item r /\ r <> [].
Proof.
  assert (forall i, In i [NOT; SHL; EXP; MUL; ADD; SUB] -> routine_item (op i)) as Hop
    by (intros i Hi; right; eauto).
  assert (forall v, 0 <= v <= 255 -> routine_item (push v)) as Hpush
    by (intros x Hx; left; exists x; split; [apply u256_small; lia|done]).
  induction 1; repeat match goal with H : _ /\ _ |- _ => destruct H end;
    (split; [|first [done | by destruct r]]);
    rewrite ?Forall_app; repeat split; try assumption;
    repeat (apply Forall_cons_2 || apply Forall_nil_2);
    try (apply Hop; simpl; tauto); try (apply Hpush; lia).
  left. eauto.
Qed.

(** ** The check *)

Lemma computes_check p v r :
  computes (evmVersion p) v r ->
  forall rest stack, checkLoop p (r ++ rest) stack = checkLoop p rest (v :: stack).
Proof.
  induction 1 as [v Hv|v r Hr IH|v r bits Hs Hb Hr IH|bits Hb|a b r r' Ha IHa Hb IHb
                 |a b r r' Ha IHa Hb IHb|a b r r' Ha IHa Hb IHb];
    intros rest stack; rewrite <- ?app_assoc; try done; rewrite ?IH, ?IHa, ?IHb; try done.
  - simpl. unfold checkOperation. simpl. rewrite Hs.
    rewrite (proj2 (Z.leb_le bits 255)) by lia. done.
  - simpl. unfold checkOperation. simpl.
    destruct (Z.ltb_spec 255 bits); [lia|]. by rewrite u256_id by (by apply pow2_word).
Qed.

Lemma computes_checkRepresentation p v r :
  computes (evmVersion p) v r -> checkRepresentation p v r = Ret true.
Proof.
  intros Hr. unfold checkRepresentation. rewrite <- (app_nil_r r), (computes_check _ _ _ Hr).
  simpl. by rewrite Z.eqb_refl.
Qed.

(** ** The gas of a routine *)

Lemma routine_item_run it : routine_item it -> exists g, simpleRunGas [it] = Some g.
Proof.
  intros [(v & _ & ->)|(i & Hi & ->)]; [by eexists|].
  repeat destruct Hi as [<-|Hi]; [eexists; vm_compute; reflexivity..|destruct Hi].
Qed.

Lemma simpleRunGas_cons it l :
  simpleRunGas (it :: l) = (g ← simpleRunGas [it]; gas ← simpleRunGas l; Some (g + gas)).
Proof.
  simpl. destruct (match m_type it with Push => _ | _ => _ end) as [g|]; simpl; [|done].
  by rewrite Z.add_0_r.
Qed.

Lemma routine_bytes it : routine_item it -> exists b, item_bytesRequired it 3 = Some b.
Proof. intros [(v & _ & ->)|(i & _ & ->)]; by eexists. Qed.

Lemma gasNeeded_total p r : Forall routine_item r -> exists g, gasNeeded p r = Some g.
Proof.
  intros Hr. unfold gasNeeded, routineBytes.
  assert (exists g, simpleRunGas r = Some g) as [g ->].
  { induction Hr as [|it r Hit _ [g Hg]]; [by eexists|].
    destruct (routine_item_run it Hit) as [g' Hg']. rewrite simpleRunGas_cons, Hg', Hg. by eexists. }
  assert (exists b, items_bytesRequired r 3 = Some b) as [b ->].
  { induction Hr as [|it r Hit _ [b Hb]]; [by eexists|]. simpl.
    destruct (routine_bytes it Hit) as [b' ->]. simpl. rewrite Hb. by eexists. }
  by eexists.
Qed.

(** ** Decomposition *)

Lemma decompose_spec v bits u l :
  is_u256 v -> 0x10000 <= v -> 9 <= bits <= 255 -> decompose v bits = Some (u, l) ->
  v = u * 2 ^ bits + l /\ 0 < u /\ Z.abs l < 2 ^ (bits - 8).
Proof.
  intros Hv Hge Hb Hd. unfold decompose in Hd. destruct (negb _ && negb _); [done|].
  pose proof (pow2_word bits ltac:(lia)) as Hp.
  assert (0 < 2 ^ bits) as Hpos by (apply Z.pow_pos_nonneg; lia).
  assert (u256_shl 1 bits = 2 ^ bits) as Hsl.
  { unfold u256_shl. rewrite Z.shiftl_1_l. by apply u256_id. }
  assert (u256_shr v bits = v / 2 ^ bits) as Hsu by (unfold u256_shr; apply Z.shiftr_div_pow2; lia).
  assert (Z.land v (u256_sub (2 ^ bits) 1) = v mod 2 ^ bits) as Hl.
  { unfold u256_sub. rewrite u256_id by (unfold is_u256 in *; lia).
    replace (2 ^ bits - 1) with (Z.ones bits) by (rewrite Z.ones_equiv; lia). apply Z.land_ones. lia. }
  assert (u256_shr (2 ^ bits) 8 = 2 ^ (bits - 8)) as Hs8.
  { unfold u256_shr. rewrite Z.shiftr_div_pow2 by lia. symmetry. apply Z.pow_sub_r; lia. }
  assert (2 ^ bits = 256 * 2 ^ (bits - 8)) as Hb8.
  { replace bits with (8 + (bits - 8)) at 1 by lia. rewrite Z.pow_add_r by lia. done. }
  assert (512 <= 2 ^ bits) as H512 by (change 512 with (2 ^ 9); apply Z.pow_le_mono_r; lia).
  rewrite Hsl, Hsu, Hl, Hs8 in Hd. clear Hsl Hsu Hl Hs8.
  pose proof (Z.div_mod v (2 ^ bits) ltac:(lia)) as Hdm. pose proof (Z.mod_pos_bound v (2 ^ bits) Hpos).
  assert (0 <= v / 2 ^ bits) by (apply Z.div_pos; lia || apply Hv).
  assert (is_u256 (v / 2 ^ bits + 1)) as Hu1.
  { unfold is_u256, modulus in *. pose proof (Z.div_lt v (2 ^ bits)). lia. }
  unfold u256_add in Hd. rewrite (u256_id _ Hu1) in Hd.
  destruct (_ <? v mod 2 ^ bits) in Hd;
    match type of Hd with (if ?a =? 0 then _ else if ?b <=? ?c then _ else _) = _ =>
      destruct (Z.eqb_spec a 0); [discriminate Hd|];
      destruct (Z.leb_spec b c); [discriminate Hd|]
    end; injection Hd as <- <-; split_and!; lia.
Qed.

Lemma pow_bytes_step n : (0 < n)%nat -> 256 ^ Z.of_nat n = 256 * 256 ^ (Z.of_nat n - 1).
Proof.
  intros Hn. replace (Z.of_nat n) with (Z.succ (Z.of_nat n - 1)) at 1 by lia.
  apply Z.pow_succ_r. lia.
Qed.

(** The parts have fewer bytes than the value. *)
Lemma decompose_bytes v bits u l :
  is_u256 v -> 0x10000 <= v -> 9 <= bits <= 255 -> decompose v bits = Some (u, l) ->
  is_u256 u /\ (bytesRequired u < bytesRequired v)%nat /\
  is_u256 (Z.abs l) /\ (bytesRequired (Z.abs l) < bytesRequired v)%nat.
Proof.
  intros Hv Hge Hb Hd. destruct (decompose_spec v bits u l Hv Hge Hb Hd) as (Heq & Hu & Hl).
  destruct (bytesRequired_spec v Hv) as (H32 & Hlt & Hlow).
  set (n := bytesRequired v) in *. assert (2 <= n)%nat as Hn.
  { destruct n as [|[|n]]; simpl in Hlt; lia. }
  rewrite (pow_bytes_step n) in Hlt by lia.
  replace (Z.of_nat n - 1) with (Z.of_nat (n - 1)) in Hlt by lia.
  set (K := 256 ^ Z.of_nat (n - 1)) in *.
  assert (256 <= K) as HK.
  { unfold K. change 256 with (256 ^ 1) at 1. apply Z.pow_le_mono_r; lia. }
  assert (2 ^ bits = 256 * 2 ^ (bits - 8)) as Hb8.
  { replace bits with (8 + (bits - 8)) at 1 by lia. rewrite Z.pow_add_r by lia. done. }
  assert (2 <= 2 ^ (bits - 8)) as H2 by (change 2 with (2 ^ 1) at 1; apply Z.pow_le_mono_r; lia).
  assert (u < K) as HuK by nia.
  assert (2 ^ (bits - 8) <= K) as HlK.
  { destruct (Z.le_gt_cases (2 ^ (bits - 8)) K) as [|Hgt]; [done|exfalso].
    assert (K = 2 ^ (8 * Z.of_nat (n - 1))) as HKp by (unfold K; by rewrite Z.pow_mul_r by lia).
    rewrite HKp in Hgt. apply Z.pow_lt_mono_r_iff in Hgt; [|lia|lia].
    assert (2 * K <= 2 ^ (bits - 8)).
    { rewrite HKp, <- (Z.pow_succ_r 2) by lia. apply Z.pow_le_mono_r; lia. }
    nia. }
  assert (is_u256 u) as Huw by (unfold is_u256 in *; nia).
  assert (is_u256 (Z.abs l)) as Hlw by (unfold is_u256 in *; nia).
  assert (bytesRequired u <= n - 1)%nat by (by apply bytesRequired_le).
  assert (bytesRequired (Z.abs l) <= n - 1)%nat by (apply bytesRequired_le; [done|]; fold K; lia).
  split_and!; [done|lia|done|lia].
Qed.

(** ** The search *)

Section Search.
Context (p : Params) (rec : Z -> Z -> Result (list AssemblyItem * Z)) (n : nat).
Context (rec_ok : forall x s, is_u256 x -> (bytesRequired x < n)%nat ->
  exists r s', rec x s = Ret (r, s') /\ computes (evmVersion p) x r).

(** The upper part, shifted. *)
Lemma upper_ok bits u s :
  0 <= bits <= 255 -> is_u256 u -> (bytesRequired u < n)%nat ->
  exists r s',
    (if hasBitwiseShifting (evmVersion p) then
       '(r, s) ← rec u s; Ret (r ++ [push bits; op SHL], s)
     else if negb (u =? 1) then
       '(r, s) ← rec u s; Ret ([push bits; push 2; op EXP] ++ r ++ [op MUL], s)
     else Ret ([push bits; push 2; op EXP], s)) = Ret (r, s') /\
    computes (evmVersion p) (u256 (u * 2 ^ bits)) r.
Proof using rec_ok.
  intros Hb Hu Hn. destruct (rec_ok u s Hu Hn) as (r & s' & Hr & Hc).
  destruct (hasBitwiseShifting (evmVersion p)) eqn:Hs.
  - rewrite Hr. eexists _, _. split; [done|]. rewrite <- Z.shiftl_mul_pow2 by lia.
    by apply (c_shl _ u).
  - destruct (Z.eqb_spec u 1) as [->|Hne]; cbn [negb].
    + eexists _, _. split; [done|]. rewrite Z.mul_1_l, u256_id by (by apply pow2_word). by apply c_exp.
    + rewrite Hr. eexists _, _. split; [done|]. apply c_mul; [by apply c_exp|done].
Qed.

Lemma buildRoutine_ok v bits u l s :
  is_u256 v -> 0x10000 <= v -> bytesRequired v = n -> 9 <= bits <= 255 ->
  decompose v bits = Some (u, l) ->
  exists r s', buildRoutine p rec bits u l s = Ret (r, s') /\ computes (evmVersion p) v r.
Proof using rec_ok.
  intros Hv Hge Hn Hb Hd. destruct (decompose_spec v bits u l Hv Hge Hb Hd) as (Heq & Hu & _).
  destruct (decompose_bytes v bits u l Hv Hge Hb Hd) as (Huw & Hub & Hlw & Hlb).
  rewrite Hn in Hub, Hlb.
  unfold buildRoutine. rewrite (u256_id _ Hlw).
  destruct (Z.eqb_spec l 0) as [->|Hne]; cbn [negb].
  - cbn [mbind Result_bind]. destruct (upper_ok bits u s ltac:(lia) Huw Hub) as (r & s' & -> & Hc).
    eexists _, _. split; [done|]. simpl. rewrite app_nil_r. rewrite Z.add_0_r in Heq.
    by rewrite <- Heq, u256_id in Hc.
  - destruct (rec_ok _ s Hlw Hlb) as (r1 & s1 & -> & Hc1). cbn [mbind Result_bind].
    destruct (upper_ok bits u s1 ltac:(lia) Huw Hub) as (r2 & s2 & -> & Hc2). cbn [mbind Result_bind].
    eexists _, _. split; [done|].
    destruct (Z.ltb_spec 0 l) as [Hl|Hl]; [|destruct (Z.ltb_spec l 0); [|lia]].
    + rewrite Z.abs_eq in Hc1 by lia. pose proof (c_add _ _ _ _ _ Hc1 Hc2) as Hc.
      unfold u256_add, u256 in Hc. rewrite Zplus_mod_idemp_l, <- Heq in Hc. by rewrite Z.mod_small in Hc.
    + rewrite Z.abs_neq in Hc1 by lia. pose proof (c_sub _ _ _ _ _ Hc1 Hc2) as Hc.
      unfold u256_sub, u256 in Hc. rewrite Zminus_mod_idemp_l, Z.sub_opp_r, <- Heq in Hc.
      by rewrite Z.mod_small in Hc.
Qed.

Lemma searchBits_ok v k : forall routine best s,
  is_u256 v -> 0x10000 <= v -> bytesRequired v = n -> (k <= 247)%nat ->
  computes (evmVersion p) v routine ->
  exists r s', searchBits p rec k v routine best s = Ret (r, s') /\ computes (evmVersion p) v r.
Proof using rec_ok.
  induction k as [|k IH]; intros routine best s Hv Hge Hn Hk Hc; [by eexists _, _|].
  cbn [searchBits]. destruct (0 <? s); [|by eexists _, _].
  destruct (decompose v _) as [[u l]|] eqn:Hd; [|apply IH; auto; lia].
  destruct (buildRoutine_ok v (Z.of_nat (S k) + 8) u l s Hv Hge Hn ltac:(lia) Hd) as (r & s' & -> & Hr).
  cbn [mbind Result_bind]. destruct (gasNeeded_total p r) as [g ->].
  { by apply (computes_items _ _ _ Hr). }
  cbn [lift mbind Result_bind]. destruct (g <? best); apply IH; auto; lia.
Qed.
End Search.

Lemma not_word v : is_u256 v -> is_u256 (u256_not v).
Proof. intros Hv. rewrite u256_not_eq by done. unfold is_u256, u256_max in *. lia. Qed.

Lemma not_involutive v : is_u256 v -> u256_not (u256_not v) = v.
Proof.
  intros Hv. rewrite (u256_not_eq (u256_not v)) by (by apply not_word). rewrite u256_not_eq by done. lia.
Qed.

(** The search returns a routine that computes the value. *)
Lemma findRepresentation_computes p fuel : forall v s,
  is_u256 v -> (bytesRequired v < fuel)%nat ->
  exists r s', findRepresentation fuel p v s = Ret (r, s') /\ computes (evmVersion p) v r.
Proof.
  induction fuel as [|fuel IH]; intros v s Hv Hf; [lia|]. cbn [findRepresentation].
  destruct (Z.ltb_spec v 0x10000) as [|Hge]; [eexists _, _; split; [done|]; by constructor|].
  destruct (Nat.ltb_spec (bytesRequired (u256_not v)) (bytesRequired v)) as [Hlt|_].
  - destruct (IH (u256_not v) s) as (r & s' & -> & Hr); [by apply not_word|lia|].
    eexists _, _. split; [done|]. rewrite <- (not_involutive v) by done. by constructor.
  - assert (computes (evmVersion p) v [push v]) as Hc by (by constructor).
    destruct (gasNeeded_total p [push v]) as [g ->]; [by apply (computes_items _ _ _ Hc)|].
    cbn [lift mbind Result_bind]. apply (searchBits_ok p _ (bytesRequired v)); try done.
    intros x s' Hx Hxb. apply IH; [done|lia].
Qed.

Lemma ComputeMethod_computes p v :
  is_u256 v -> exists r, ComputeMethod p v = Ret r /\ computes (evmVersion p) v r.
Proof.
  intros Hv. pose proof (bytesRequired_spec v Hv) as (H32 & _).
  destruct (findRepresentation_computes p 33 v 10000 Hv ltac:(lia)) as (r & s' & Hf & Hc).
  exists r. split; [|done]. unfold ComputeMethod. rewrite Hf. cbn [mbind Result_bind].
  by rewrite (computes_checkRepresentation p v r Hc).
Qed.

(** ** The gas estimates *)

Lemma methodDataGas_total p l :
  l <> [] -> Z.of_nat (length l) < 2 ^ 64 -> exists g, methodDataGas p l = Some g.
Proof.
  intros Hl Hlen. unfold methodDataGas. destruct l as [|b l]; [done|].
  destruct (dataGas_returns (b :: l) (isCreation p) (evmVersion p) Hlen) as (g & Hg & _).
  exists g. by rewrite Hg.
Qed.

Lemma literal_gas_total p v : is_u256 v -> exists g, literal_gasNeeded p v = Some g.
Proof.
  intros Hv. unfold literal_gasNeeded. pose proof (bytesRequired_spec v Hv) as (H32 & _).
  assert (length (toCompactBigEndian v 1) = Nat.max 1 (bytesRequired v)) as Hl
    by apply toBigEndian_length.
  destruct (methodDataGas_total p (toCompactBigEndian v 1)) as [g Hg]; [|lia|].
  - destruct (toCompactBigEndian v 1); [simpl in Hl; lia|done].
  - rewrite Hg. by eexists.
Qed.

Lemma copy_gas_total p v : exists g, copy_gasNeeded p v = Some g.
Proof.
  unfold copy_gasNeeded. pose proof (toBigEndian_length 32 v) as Hl.
  destruct (methodDataGas_total p (toBigEndian 32 v)) as [g Hg]; [|lia|].
  - destruct (toBigEndian 32 v); [simpl in Hl; lia|done].
  - rewrite Hg. by eexists.
Qed.
