(* ===== verification/ConstantTheorems.v ===== *)
(** * ConstantTheorems: the contract of the constant optimiser

    A computed routine pushes its constant, the copy routine pushes the word stored in
    the data of the assembly, and so the optimised code refines the original. *)

From S2P Require Import Prelude U256 CommonData Instruction EVMVersion AssemblyItem SemanticInformation Interpreter RuleSound Machine Simulation GasMeter ConstantOptimiser ConstantSound.

Section Routines.
Context {W H : Type} `{!World W H} `{!WorldLaws W H}.

Lemma exec_push_word v st w : exec_item (push v) st w = Next (v :: st) w.
Proof using. done. Qed.

Lemma exec_op_item i st w : exec_item (op i) st w = exec_instruction i st w.
Proof using. done. Qed.

(** A routine pushes the value it computes. *)
Lemma computes_exec ver v r :
  computes ver v r -> forall st w, words st -> exec r st w = Next (v :: st) w.
Proof using All.
  induction 1 as [v Hv|v r Hr IH|v r bits Hs Hb Hr IH|bits Hb|a b r r' Ha IHa Hb IHb
                 |a b r r' Ha IHa Hb IHb|a b r r' Ha IHa Hb IHb]; intros st w Hw; [done|..];
    rewrite ?exec_app.
  - rewrite IH, exec_one, exec_op_item by done.
    apply exec_arith1; [done| |done]. constructor; [by eapply computes_word|done].
  - rewrite IH by done. rewrite exec_cons, exec_push_word, exec_one, exec_op_item.
    apply exec_arith2; [done| |].
    + constructor; [apply u256_small; lia|]. constructor; [by eapply computes_word|done].
    + cbn [eval_arith]. destruct (Z.ltb_spec 255 bits); [lia|done].
  - rewrite exec_cons, exec_push_word, exec_cons, exec_push_word, exec_one, exec_op_item.
    assert (is_u256 2) as H2 by done. assert (is_u256 bits) as Hbw by (apply u256_small; lia).
    rewrite (exec_arith2 EXP 2 bits st w (2 ^ bits)); [done|done|constructor; [done|by constructor]|].
    rewrite eval_arith_EXP by done. by rewrite u256_id by (by apply pow2_word).
  - rewrite IHa by done. pose proof (computes_word _ _ _ Ha) as Hwa. rewrite exec_app, IHb by (by constructor).
    rewrite exec_one, exec_op_item. apply exec_arith2; [done| |done].
    constructor; [by eapply computes_word|by constructor].
  - rewrite IHa by done. pose proof (computes_word _ _ _ Ha) as Hwa. rewrite exec_app, IHb by (by constructor).
    rewrite exec_one, exec_op_item. apply exec_arith2; [done| |done].
    constructor; [by eapply computes_word|by constructor].
  - rewrite IHa by done. pose proof (computes_word _ _ _ Ha) as Hwa. rewrite exec_app, IHb by (by constructor).
    rewrite exec_one, exec_op_item. apply exec_arith2; [done| |done].
    constructor; [by eapply computes_word|by constructor].
Qed.

(** ** The copy routine *)

(** The first word of memory, and the instructions of the copy routine on it: MLOAD and
    MSTORE access it and CODECOPY fills it with the 32 bytes of data at an offset of the
    code.  The world does not record the size of memory. *)
Class MemoryWorld := {
  word0 : W -> Z;
  set_word0 : Z -> W -> W }.

Context `{memory : !MemoryWorld}.

Record memory_laws (dat : gmap Z (list Z)) : Prop := {
  word0_word w : is_u256 (word0 w);
  mload0 w : perform MLOAD [0] w = inl ([word0 w], w);
  mstore0 v w : is_u256 v -> perform MSTORE [0; v] w = inl ([], set_word0 v w);
  codecopy0 h d w :
    dat !! h = Some d -> length d = 32%nat ->
    perform CODECOPY [0; pushed PushData h; 32] w = inl ([], set_word0 (fromBigEndian d) w);
  word0_set v w : is_u256 v -> word0 (set_word0 v w) = v;
  set_word0_back v w : is_u256 v -> set_word0 (word0 w) (set_word0 v w) = w }.

Definition copyItems (h : Z) : list AssemblyItem := <[4%nat := dataItem PushData h noLocation]> copyRoutine.

Lemma fromBigEndian_word v : is_u256 v -> fromBigEndian (toBigEndian 32 v) = v.
Proof using.
  intros Hv. rewrite fromBigEndian_value by (rewrite ?toBigEndian_length; auto using toBigEndian_bytes).
  rewrite be_value_toBigEndian by apply Hv. by apply Z.mod_small.
Qed.

Lemma exec_step it seg st w st' w' :
  exec_item it st w = Next st' w' -> exec (it :: seg) st w = exec seg st' w'.
Proof using. intros He. by rewrite exec_cons, He. Qed.

Lemma exec_next i l st w r w' :
  isStackInstruction i = false -> length l = args (instructionInfo i) ->
  perform i l w = inl (r, w') -> exec_instruction i (l ++ st) w = Next (r ++ st) w'.
Proof using.
  intros Hi Hl Hp. rewrite exec_perform by done. rewrite length_app, Hl.
  destruct (Nat.ltb_spec (args (instructionInfo i) + length st) (args (instructionInfo i))); [lia|].
  by rewrite <- Hl, take_app_length, drop_app_length, Hp.
Qed.

Lemma copyItems_exec dat h v st w :
  memory_laws dat -> is_u256 v -> dat !! h = Some (toBigEndian 32 v) ->
  exec (copyItems h) st w = Next (v :: st) w.
Proof using All.
  intros L Hv Hh. unfold copyItems, copyRoutine. cbn [insert list_insert].
  set (w1 := set_word0 v w).
  assert (is_u256 (word0 w)) as Hw0 by apply (word0_word _ L).
  rewrite (exec_step _ _ _ _ (0 :: st) w) by done.
  rewrite (exec_step _ _ _ _ (0 :: 0 :: st) w) by done.
  rewrite (exec_step _ _ _ _ (word0 w :: 0 :: st) w)
    by (apply (exec_next MLOAD [0] (0 :: st) w [word0 w] w); [done|done|apply (mload0 _ L)]).
  rewrite (exec_step _ _ _ _ (32 :: word0 w :: 0 :: st) w) by done.
  rewrite (exec_step _ _ _ _ (pushed PushData h :: 32 :: word0 w :: 0 :: st) w) by done.
  rewrite (exec_step _ _ _ _ (0 :: pushed PushData h :: 32 :: word0 w :: 0 :: st) w) by done.
  rewrite (exec_step _ _ _ _ (word0 w :: 0 :: st) w1).
  2: { apply (exec_next CODECOPY [0; pushed PushData h; 32] (word0 w :: 0 :: st) w [] w1); [done|done|].
       rewrite (codecopy0 _ L h (toBigEndian 32 v)) by (done || apply toBigEndian_length).
       by rewrite fromBigEndian_word. }
  rewrite (exec_step _ _ _ _ (0 :: word0 w :: 0 :: st) w1) by done.
  rewrite (exec_step _ _ _ _ (v :: word0 w :: 0 :: st) w1).
  2: { apply (exec_next MLOAD [0] (word0 w :: 0 :: st) w1 [v] w1); [done|done|].
       rewrite (mload0 _ L). unfold w1. by rewrite (word0_set _ L). }
  rewrite (exec_step _ _ _ _ (0 :: word0 w :: v :: st) w1) by done.
  rewrite (exec_step _ _ _ _ (v :: st) w); [done|].
  apply (exec_next MSTORE [0; word0 w] (v :: st) w1 [] w); [done|done|].
  rewrite (mstore0 _ L) by done. unfold w1. by rewrite (set_word0_back _ L).
Qed.

(** ** Replacements *)

Section Replace.
Context (keccak256 : list Z -> Z) (ver : EVMVersion).

(** A computed routine, or the copy routine of data the assembly holds. *)
Definition replacement_ok (dat : gmap Z (list Z)) (v : Z) (r : list AssemblyItem) : Prop :=
  is_u256 v /\
  (computes ver v r \/
   exists h, r = copyItems h /\ h = keccak256 (toBigEndian 32 v) /\ dat !! h = Some (toBigEndian 32 v)).

(** The words have different hashes. *)
Definition no_collision : Prop := forall v v',
  is_u256 v -> is_u256 v' ->
  keccak256 (toBigEndian 32 v) = keccak256 (toBigEndian 32 v') -> v = v'.

Lemma replacement_insert dat v v' r :
  no_collision -> is_u256 v -> replacement_ok dat v' r ->
  replacement_ok (<[keccak256 (toBigEndian 32 v) := toBigEndian 32 v]> dat) v' r.
Proof using.
  intros Hk Hv (Hv' & Hr). split; [done|]. destruct Hr as [Hr|(h & -> & -> & Hh)]; [by left|].
  right. eexists. split_and!; [done..|].
  destruct (decide (keccak256 (toBigEndian 32 v) = keccak256 (toBigEndian 32 v'))) as [He|Hne].
  - rewrite <- (Hk v v') by done. by rewrite lookup_insert_eq.
  - by rewrite lookup_insert_ne.
Qed.

Lemma copyItems_ok h :
  Forall noTag (copyItems h) /\ Forall item_words (copyItems h) /\ copyItems h <> [].
Proof using.
  split_and!; [..|done]; unfold copyItems, copyRoutine; cbn [insert list_insert];
    repeat (apply Forall_cons_2 || apply Forall_nil_2); unfold noTag, item_words; simpl; try done.
Qed.

Lemma routine_item_ok it : routine_item it -> noTag it /\ item_words it.
Proof using.
  intros [(v & Hv & ->)|(i & _ & ->)]; split; unfold noTag, item_words; simpl; done.
Qed.

Lemma replacement_items dat v r :
  replacement_ok dat v r -> Forall noTag r /\ Forall item_words r.
Proof using.
  intros (_ & [Hr|(h & -> & _)]).
  - apply computes_items in Hr as [Hr _].
    split; (eapply Forall_impl; [exact Hr|]); intros it Hit; by apply routine_item_ok.
  - destruct (copyItems_ok h) as (? & ? & _). done.
Qed.

Lemma replacement_effect dat it v r :
  memory_laws dat -> replacement_ok dat v r -> m_type it = Push -> m_data it = v ->
  same_effect [it] r.
Proof using All.
  intros L (Hv & Hr) Ht <- st w Hw. right.
  rewrite exec_one, exec_push by (by rewrite Ht). unfold push_value. rewrite Ht.
  destruct Hr as [Hr|(h & -> & -> & Hh)]; [by eapply computes_exec|by eapply copyItems_exec].
Qed.

(** Every replacement is right. *)
Definition pending_ok (dat : gmap Z (list Z)) (pending : gmap Z (list AssemblyItem)) : Prop :=
  forall v r, pending !! v = Some r -> replacement_ok dat v r.

Lemma rewritten_keep it rest rest' :
  item_words it -> rewritten item_words rest rest' -> rewritten item_words (it :: rest) (it :: rest').
Proof using.
  intros Hit Hr. destruct (decide (m_type it = Tag)) as [Ht|Ht]; [by apply rewritten_tag|].
  apply (rew_window _ [it] [it]); [done| |done].
  apply w_same; [by apply Forall_singleton..|]. intros st w _. by right.
Qed.

Lemma replaceConstants_rewritten dat pending items :
  memory_laws dat -> pending_ok dat pending -> Forall item_words items ->
  rewritten item_words items (replaceConstants items pending).
Proof using All.
  intros L Hp. induction 1 as [|it items Hit _ IH]; [constructor|]. simpl.
  destruct (bool_decide_reflect (m_type it = Push)) as [Ht|_]; [|by apply rewritten_keep].
  destruct (pending !! m_data it) as [r|] eqn:Hr; [|by apply rewritten_keep].
  apply (rew_window _ [it] r); [done| |done]. specialize (Hp _ _ Hr).
  destruct (replacement_items _ _ _ Hp) as [Hn Hf].
  apply w_same; [|done|done|by eapply replacement_effect].
  constructor; [|done]. unfold noTag. congruence.
Qed.
End Replace.
End Routines.

(** ** The loop *)

Section Loop.
Context (keccak256 : list Z -> Z) (isCreation : bool) (runs : Z) (ver : EVMVersion).

Lemma copy_execute_ok v asm :
  copy_execute keccak256 v asm =
  Some (copyItems (keccak256 (toBigEndian 32 v)),
        mkAssembly (m_items asm) (<[keccak256 (toBigEndian 32 v) := toBigEndian 32 v]> (m_assemblyData asm))).
Proof using. unfold copy_execute. by rewrite toBigEndian_length. Qed.

(** A constant's replacement is right, if it has one, and the others stay right. *)
Lemma optimiseConstant_ok v mult asm :
  is_u256 v ->
  exists r n asm',
    optimiseConstant keccak256 isCreation runs ver v mult asm = Ret (r, n, asm') /\
    m_items asm' = m_items asm /\
    (no_collision keccak256 -> forall pending,
       pending_ok keccak256 ver (m_assemblyData asm) pending ->
       pending_ok keccak256 ver (m_assemblyData asm')
         (match r with [] => pending | _ => <[v := r]> pending end)).
Proof using.
  intros Hv. unfold optimiseConstant. set (p := mkParams isCreation runs mult ver).
  destruct (literal_gas_total p v Hv) as [lit ->]. destruct (copy_gas_total p v) as [cp ->].
  destruct (ComputeMethod_computes p v Hv) as (routine & -> & Hc).
  destruct (computes_items _ _ _ Hc) as [Hitems Hne].
  destruct (gasNeeded_total p routine Hitems) as [g Hg].
  cbn [lift mbind Result_bind]. rewrite Hg. cbn [lift mbind Result_bind].
  destruct (_ && _); [rewrite copy_execute_ok|destruct (_ && _)]; cbn [lift mbind Result_bind];
    eexists _, _, _; (split; [done|]); (split; [done|]); intros Hk pending Hp.
  - destruct (copyItems (keccak256 _)) eqn:He; [by destruct (copyItems_ok (keccak256 (toBigEndian 32 v)))|].
    rewrite <- He. intros v' r' [[<- <-]|[_ Hr']]%lookup_insert_Some.
    + split; [done|]. right. eexists. split_and!; [done..|]. apply lookup_insert_eq.
    + apply replacement_insert; auto.
  - destruct routine as [|it routine]; [done|].
    intros v' r' [[<- <-]|[_ Hr']]%lookup_insert_Some; [|by apply Hp]. split; [done|]. by left.
  - done.
Qed.

Lemma constantLoop_ok pushes : forall n pending asm,
  Forall (fun vn => is_u256 vn.1) pushes ->
  exists n' pending' asm',
    optimiseLoop keccak256 isCreation runs ver pushes n pending asm = Ret (n', pending', asm') /\
    m_items asm' = m_items asm /\
    (no_collision keccak256 -> pending_ok keccak256 ver (m_assemblyData asm) pending ->
     pending_ok keccak256 ver (m_assemblyData asm') pending').
Proof using.
  induction pushes as [|[v mult] pushes IH]; intros n pending asm Hp; [by eexists _, _, _|].
  apply Forall_cons in Hp as [Hv Hp]. cbn [optimiseLoop]. destruct (v <? 0x100); [by apply IH|].
  destruct (optimiseConstant_ok v mult asm Hv) as (r & k & asm1 & -> & Hi & Hok).
  cbn [mbind Result_bind].
  destruct (IH (n + k) (match r with [] => pending | _ => <[v := r]> pending end) asm1 Hp)
    as (n' & pending' & asm' & -> & Hi' & Hok').
  eexists _, _, _. split; [done|]. split; [congruence|]. auto.
Qed.

Lemma countPush_words v pushes :
  is_u256 v -> Forall (fun vn => is_u256 vn.1) pushes -> Forall (fun vn => is_u256 vn.1) (countPush v pushes).
Proof using.
  intros Hv. induction 1 as [|[v' n] pushes Hv' Hp IH]; simpl; [by apply Forall_singleton|].
  repeat case_match; by repeat apply Forall_cons_2.
Qed.

Lemma countPushes_words items :
  Forall item_words items -> Forall (fun vn => is_u256 vn.1) (countPushes items).
Proof using.
  unfold countPushes. assert (Forall (fun vn : Z * Z => is_u256 vn.1) []) as Hnil by constructor.
  revert Hnil. generalize (@nil (Z * Z)) as acc. intros acc Hacc Hi. revert acc Hacc.
  induction Hi as [|it items Hit _ IH]; intros acc Hacc; [done|]. simpl. apply IH.
  destruct (bool_decide_reflect (m_type it = Push)) as [Ht|_]; [|done].
  apply countPush_words; [by apply Hit|done].
Qed.

(** The optimiser returns; the new code replaces constants by right routines. *)
Lemma optimiseConstants_ok asm :
  Forall item_words (m_items asm) ->
  exists n asm' pending,
    optimiseConstants keccak256 isCreation runs ver asm = Ret (n, asm') /\
    m_items asm' = replaceConstants (m_items asm) pending /\
    (no_collision keccak256 -> pending_ok keccak256 ver (m_assemblyData asm') pending).
Proof using.
  intros Hi. unfold optimiseConstants.
  destruct (constantLoop_ok _ 0 ∅ asm (countPushes_words _ Hi)) as (n & pending & asm' & -> & Hitems & Hok).
  cbn [mbind Result_bind]. eexists _, _, pending. split; [done|].
  assert (no_collision keccak256 -> pending_ok keccak256 ver (m_assemblyData asm') pending) as Hok'.
  { intros Hk. apply Hok; [done|]. intros v r Hr. by rewrite lookup_empty in Hr. }
  destruct (bool_decide_reflect (pending = ∅)) as [->|_]; simpl; (split; [|done]).
  - rewrite Hitems. clear. induction (m_items asm) as [|it l IH]; [done|]. simpl.
    rewrite <- IH, lookup_empty. by destruct (bool_decide _).
  - by rewrite Hitems.
Qed.
End Loop.

(** ** Theorems *)

(** The constructor of [ComputeMethod] returns for every word: the search ends,
    its check does not fail, and the routine pushes the word on the machine. *)
Theorem ComputeMethod_pushes {W H} `{!World W H} `{!WorldLaws W H} p v st w :
  is_u256 v -> Forall is_u256 st ->
  exists r, ComputeMethod p v = Ret r /\ exec r st w = Next (v :: st) w.
Proof.
  intros Hv Hw. destruct (ComputeMethod_computes p v Hv) as (r & Hr & Hc).
  exists r. split; [done|]. by eapply computes_exec.
Qed.

(** C25 [optimiseConstants] returns on code whose constants are words: no assertion
    of the optimiser fails, and everything but constants is kept, in order. *)
Theorem optimiseConstants_returns keccak256 isCreation runs ver asm :
  Forall item_words (m_items asm) ->
  exists n asm' pending,
    optimiseConstants keccak256 isCreation runs ver asm = Ret (n, asm') /\
    m_items asm' = replaceConstants (m_items asm) pending.
Proof.
  intros Hi. destruct (optimiseConstants_ok keccak256 isCreation runs ver asm Hi)
    as (n & asm' & pending & Ho & Hp & _). eauto.
Qed.

(** C24 [optimiseConstants] refines the code, in a world whose memory and data obey the
    laws for the data of the resulting assembly, when the words have different hashes. *)
Theorem optimiseConstants_refines {W H} `{!World W H} `{!WorldLaws W H} `{memory : !@MemoryWorld W}
    keccak256 isCreation runs ver asm n asm' :
  code_ok item_words (m_items asm) -> no_collision keccak256 ->
  optimiseConstants keccak256 isCreation runs ver asm = Ret (n, asm') ->
  memory_laws (m_assemblyData asm') ->
  refines (m_items asm) (m_items asm').
Proof.
  intros Hc Hk Ho L.
  destruct (optimiseConstants_ok keccak256 isCreation runs ver asm (ok_items _ _ Hc))
    as (n' & asm1 & pending & Ho' & Hi & Hok).
  rewrite Ho in Ho'. injection Ho' as <- <-. rewrite Hi.
  apply (rewritten_refines item_words (fun _ Hit => Hit)); [done|].
  eapply replaceConstants_rewritten; [done|by apply Hok|by apply ok_items].
Qed.

(** ** A world with one word of memory *)

Definition MemoryWord : Set := { w : Z | (0 <=? w) && (w <? modulus) = true }.

Lemma MemoryWord_word (w : MemoryWord) : is_u256 (proj1_sig w).
Proof. destruct w as [w Hw]. simpl. bool_to_prop. unfold is_u256. lia. Qed.

Definition memory_word (v : Z) : MemoryWord.
Proof. exists (u256 v). abstract (pose proof (u256_range v) as [? ?]; apply andb_true_intro; lia). Defined.

Lemma MemoryWord_eq (w w' : MemoryWord) : proj1_sig w = proj1_sig w' -> w = w'.
Proof.
  destruct w as [w Hw], w' as [w' Hw']. simpl. intros ->. f_equal. apply Eqdep_dec.UIP_dec.
  apply bool_dec.
Qed.

Section Memory.
Context (dat : gmap Z (list Z)).

Definition memory_access (i : Instruction) (l : list Z) (w : MemoryWord) : option (list Z * MemoryWord) :=
  match i, l with
  | MLOAD, [_] => Some ([proj1_sig w], w)
  | MSTORE, [_; v] => Some ([], memory_word v)
  | CODECOPY, [_; h; _] =>
      Some ([], match dat !! h with Some d => memory_word (fromBigEndian d) | None => w end)
  | _, _ => None
  end.

Definition memory_perform (i : Instruction) (l : list Z) (w : MemoryWord) : (list Z * MemoryWord) + unit :=
  match memory_access i l w with
  | Some r => inl r
  | None =>
      if instr_terminatesControlFlow i then inr tt
      else match eval_arith i l with
           | Some v => inl ([u256 v], w)
           | None => inl (replicate (ret (instructionInfo i)) 0, w)
           end
  end.

Lemma memory_access_ok i l w r w' :
  memory_access i l w = Some (r, w') ->
  length r = ret (instructionInfo i) /\ Forall is_u256 r /\ instr_terminatesControlFlow i = false /\
  eval_arith i l = None /\ (sideEffects (instructionInfo i) = false -> w' = w).
Proof.
  intros H. destruct i; try discriminate H; destruct l as [|a [|b [|c [|]]]]; try discriminate H;
    injection H as <- <-; (split_and!; [done| |done|done|done]); try done.
  apply Forall_singleton, MemoryWord_word.
Qed.

#[local] Instance memoryWorld : World MemoryWord unit := {
  perform := memory_perform;
  assign _ _ w := w;
  addr d := d mod 2 ^ 32;
  pushed _ d := u256 d }.

#[local] Instance memoryWords : @MemoryWorld MemoryWord := {
  word0 := @proj1_sig _ _;
  set_word0 v _ := memory_word v }.

Lemma memoryWorld_arith i l v : eval_arith i l = Some v -> Forall is_u256 l ->
  is_u256 v /\ ret (instructionInfo i) = 1%nat.
Proof.
  intros Ha Hl. split; [by eapply eval_arith_range|]. destruct i; try discriminate Ha; done.
Qed.

Lemma memoryWord_laws : WorldLaws MemoryWord unit.
Proof.
  split.
  - intros i l w r w' Hp Hl. cbn [perform memoryWorld] in Hp. unfold memory_perform in Hp.
    destruct (memory_access i l w) as [[r1 w1]|] eqn:Hm.
    { injection Hp as -> ->. apply memory_access_ok in Hm. tauto. }
    destruct (instr_terminatesControlFlow i); [done|].
    destruct (eval_arith i l) as [v|] eqn:Ha; injection Hp as <- <-.
    + destruct (memoryWorld_arith _ _ _ Ha Hl) as [_ ->]. split; [done|]. apply Forall_singleton, u256_range.
    + split; [apply length_replicate|]. apply Forall_replicate, is_u256_0.
  - intros i l v w Hl Ha. destruct (memoryWorld_arith _ _ _ Ha Hl) as [Hv Hr].
    cbn [perform memoryWorld]. unfold memory_perform.
    destruct (memory_access i l w) as [[r1 w1]|] eqn:Hm; [apply memory_access_ok in Hm as (_ & _ & _ & Hn & _); congruence|].
    rewrite Ha, u256_id by done. by destruct i.
  - intros i l w Hs Hsig Hst Hl Hw. cbn [perform memoryWorld]. unfold memory_perform.
    destruct (memory_access i l w) as [[r1 w1]|] eqn:Hm.
    { apply memory_access_ok in Hm as (_ & _ & _ & _ & ->); [|done]. by eexists. }
    assert (instr_terminatesControlFlow i = false) as -> by (by destruct i).
    destruct (eval_arith i l); by eexists.
  - intros i l w Ht. exists tt. cbn [perform memoryWorld]. unfold memory_perform.
    destruct (memory_access i l w) as [[r1 w1]|] eqn:Hm; [apply memory_access_ok in Hm as (_ & _ & Hn & _ & _); congruence|].
    by rewrite Ht.
  - intros d. by apply Z.mod_pos_bound.
  - intros t d. apply u256_range.
Qed.

Lemma memoryWorld_memory :
  (forall h d, dat !! h = Some d -> is_u256 h) -> memory_laws dat.
Proof.
  intros Hd. split; cbn [perform memoryWorld word0 set_word0 memoryWords]; unfold memory_perform.
  - apply MemoryWord_word.
  - done.
  - done.
  - intros h d w Hh _. cbn [pushed memoryWorld]. rewrite (u256_id h) by eauto.
    unfold memory_access. by rewrite Hh.
  - intros v w Hv. by apply u256_id.
  - intros v w Hv. apply MemoryWord_eq. simpl. apply u256_id, MemoryWord_word.
Qed.
End Memory.

(** ** Concrete runs *)

(** Two shifted bytes, which are computed, and a word without pattern pushed five times,
    which is copied; the code is run once. *)
Definition pattern_free : Z := 0x123456789abcdef0fedcba98765432100f1e2d3c4b5a69788796a5b4c3d2e1f0.
Definition shifted_byte : Z := 0xff * 2 ^ 240.
Definition example_assembly : Assembly :=
  mkAssembly ([push shifted_byte; dataItem Tag 1 noLocation] ++ replicate 5 (push pattern_free)) ∅.
Definition example_optimised : Assembly :=
  mkAssembly ([push 0xff; push 240; op SHL; dataItem Tag 1 noLocation]
              ++ concat (replicate 5 (copyItems pattern_free)))
    {[ pattern_free := toBigEndian 32 pattern_free ]}.

Lemma example_assembly_run :
  optimiseConstants be_value false 1 Istanbul example_assembly = Ret (2, example_optimised).
Proof. vm_compute. reflexivity. Qed.

Lemma be_value_no_collision : no_collision be_value.
Proof.
  intros v v' Hv Hv'. rewrite <- !fromBigEndian_value by
    (rewrite ?toBigEndian_length; auto using toBigEndian_bytes).
  by rewrite !fromBigEndian_word.
Qed.

Lemma example_assembly_ok :
  code_ok item_words (m_items example_assembly) (W:=MemoryWord) (H:=unit)
    (World0:=memoryWorld (m_assemblyData example_optimised)).
Proof.
  split; [|apply NoDup_singleton].
  repeat constructor; unfold item_words, is_u256, modulus; simpl; done.
Qed.

Lemma optimiseConstants_refines_witness :
  @refines _ _ (memoryWorld (m_assemblyData example_optimised))
    (m_items example_assembly) (m_items example_optimised).
Proof.
  apply (@optimiseConstants_refines _ _ (memoryWorld (m_assemblyData example_optimised))
           (memoryWord_laws _) memoryWords be_value false 1 Istanbul example_assembly 2);
    [apply example_assembly_ok|apply be_value_no_collision|apply example_assembly_run|].
  apply memoryWorld_memory. intros h d Hh. cbn [m_assemblyData example_optimised] in Hh.
  apply lookup_singleton_Some in Hh as [<- _]. done.
Defined.

Lemma ComputeMethod_pushes_witness :
  exists r, ComputeMethod (mkParams false 1 1 Istanbul) shifted_byte = Ret r /\
    @exec _ _ (memoryWorld ∅) r [7] (memory_word 0) = Next [shifted_byte; 7] (memory_word 0).
Proof.
  apply (@ComputeMethod_pushes _ _ (memoryWorld ∅) (memoryWord_laws ∅)); [done|].
  by apply Forall_singleton.
Defined.

Lemma optimiseConstants_returns_witness :
  exists n asm' pending,
    optimiseConstants be_value false 1 Istanbul example_assembly = Ret (n, asm') /\
    m_items asm' = replaceConstants (m_items example_assembly) pending.
Proof. apply optimiseConstants_returns, (ok_items _ _ example_assembly_ok). Defined.
