(* ===== verification/PeepholeSound.v ===== *)
(** * PeepholeSound: the peephole optimiser preserves the behaviour of the code

    Each method replaces its window by items of the same effect; the optimised code
    then simulates the original and is simulated by it, jumps included.  The code has
    distinct tags, holds none of the signal instructions, and the original run does not
    pop from an empty stack. *)

From S2P Require Import Prelude U256 Instruction AssemblyItem SemanticInformation Interpreter RuleSound Machine Simulation Peephole.

Section Sound.
Context {W H : Type} `{!World W H} `{!WorldLaws W H}.
(** Constants are words, and no item is a signal instruction. *)
Definition item_fine (it : AssemblyItem) : Prop :=
  item_words it /\
  (m_type it = Operation -> isSignalInstruction (m_instruction it) = false).

(** ** The windows *)

Lemma PushPop_effect push pop :
  is_op pop POP = true ->
  item_isDup push ||
     match m_type push with
     | Push | PushString | PushTag | PushSub | PushSubSize | PushProgramSize | PushData
     | PushLibraryAddress => true
     | _ => false
     end = true ->
  same_effect [push; pop] [].
Proof using.
  intros Hp Hc st w _. rewrite exec_cons. apply orb_true_iff in Hc as [Hd|Hc].
  - rewrite item_isDup_exec by done. unfold dup.
    destruct (st !! _) as [x|]; [right|by left]. simpl. by rewrite exec_pop.
  - right. rewrite exec_push by (by destruct (m_type push)). by rewrite exec_one, exec_pop.
Qed.

Lemma OpPop_effect op pop :
  is_op pop POP = true -> m_type op = Operation ->
  isSignalInstruction (m_instruction op) = false ->
  ret (instructionInfo (m_instruction op)) = 1%nat ->
  sideEffects (instructionInfo (m_instruction op)) = false ->
  same_effect [op; pop]
    (replicate (args (instructionInfo (m_instruction op))) (opItem POP (m_location op))).
Proof using All.
  intros Hp Ht Hs Hr He st w Hw.
  assert (isStackInstruction (m_instruction op) = false) as Hi
    by (destruct (m_instruction op); first [reflexivity|discriminate Hr]).
  rewrite exec_cons. unfold exec_item. rewrite Ht, exec_perform by done.
  rewrite <- (app_nil_r (replicate _ _)), exec_pops.
  destruct (Nat.ltb_spec (length st) (args (instructionInfo (m_instruction op)))) as [|Hl]; [by left|].
  assert (words (take (args (instructionInfo (m_instruction op))) st)) as Hwt by (by apply Forall_take).
  destruct (perform_pure (m_instruction op)
    (take (args (instructionInfo (m_instruction op))) st) w He Hs Hi) as [r Hpr]; [|exact Hwt|].
  { rewrite length_take. lia. }
  right. rewrite Hpr. destruct (perform_result _ _ _ _ _ Hpr Hwt) as [Hlen _].
  rewrite Hr in Hlen. destruct r as [|x [|]]; try done. cbn [app].
  by rewrite exec_one, exec_pop.
Qed.

Lemma DoublePush_effect p1 p2 :
  m_type p1 = Push -> m_type p2 = Push -> m_data p1 = m_data p2 ->
  same_effect [p1; p2] [p1; opItem DUP1 (m_location p2)].
Proof using.
  intros H1 H2 Hd st w _. right. rewrite !exec_cons, !(exec_push p1) by (by rewrite H1).
  rewrite !exec_one, (exec_push p2) by (by rewrite H2).
  unfold push_value. by rewrite H1, H2, Hd.
Qed.

Lemma DoubleSwap_effect s1 s2 :
  item_eqb s1 s2 = true -> item_isSwap s1 = true -> same_effect [s1; s2] [].
Proof using.
  intros He Hs st w _. pose proof Hs as [Ht Hi]%item_isSwap_spec.
  apply item_eqb_spec in He as [Ht2 Hi2]. rewrite decide_True in Hi2 by done.
  assert (item_isSwap s2 = true) as Hs2 by (apply item_isSwap_spec; split; congruence).
  rewrite exec_cons, item_isSwap_exec by done.
  destruct (swap _ st) as [st'|] eqn:Hsw; [right|by left]. cbn [or_underflow].
  rewrite exec_one, item_isSwap_exec by done. rewrite <- Hi2. by rewrite (swap_swap _ _ _ Hsw).
Qed.

(** Swapping the two topmost elements. *)
Lemma exec_swap1 it st w :
  is_op it SWAP1 = true ->
  exec_item it st w = match st with a :: b :: st => Next (b :: a :: st) w | _ => End Underflow end.
Proof using. intros Hs. rewrite (exec_op _ _ _ _ Hs). by destruct st as [|a [|b st]]. Qed.

Lemma CommutativeSwap_effect sw op :
  is_op sw SWAP1 = true -> isCommutativeOperation op = true -> same_effect [sw; op] [op].
Proof using All.
  intros Hs Hc st w Hw. rewrite exec_cons, exec_swap1 by done.
  destruct st as [|a [|b st]]; [by left|by left|right]. rewrite !exec_one.
  unfold isCommutativeOperation in Hc. unfold exec_item. destruct (m_type op); try done.
  assert (words (b :: a :: st)) as Hw' by (eapply Permutation_Forall, Hw; constructor).
  assert (isStackInstruction (m_instruction op) = false /\
    exists f, (forall x y, eval_arith (m_instruction op) [x; y] = Some (f x y)) /\ f a b = f b a)
    as (Hi & f & Hf & Hfc).
  { destruct (m_instruction op); try discriminate Hc; (split; [done|]); eexists; (split; [reflexivity|]);
      simpl; unfold u256_add, u256_mul; try (f_equal; lia);
      auto using Z.land_comm, Z.lor_comm, Z.lxor_comm. }
  rewrite !(exec_arith2 _ _ _ _ _ _ Hi) by (try apply Hf; done). by rewrite Hfc.
Qed.

Lemma SwapComparison_effect sw op i loc :
  is_op sw SWAP1 = true -> m_type op = Operation ->
  assoc (m_instruction op) swappableOps = Some i -> same_effect [sw; op] [opItem i loc].
Proof using All.
  intros Hs Ht Ha st w Hw. rewrite exec_cons, exec_swap1 by done.
  rewrite exec_one. unfold exec_item at 1. cbn [m_type opItem].
  assert (isStackInstruction (m_instruction op) = false /\ isStackInstruction i = false /\
    exists f g, (forall x y, eval_arith (m_instruction op) [x; y] = Some (f x y)) /\
      (forall x y, eval_arith i [x; y] = Some (g x y)) /\ forall x y, f x y = g y x)
    as (Hi & Hj & f & g & Hf & Hg & Hfg).
  { apply assoc_In in Ha. simpl in Ha. destruct Ha as [Ha|[Ha|[Ha|[Ha|[]]]]]; injection Ha as <- <-;
      (split; [done|split; [done|]]); do 2 eexists; (split; [reflexivity|]); split; reflexivity. }
  destruct st as [|a [|b st]]; [by left|by left|right]. rewrite exec_one. unfold exec_item at 1. rewrite Ht.
  assert (words (b :: a :: st)) as Hw' by (eapply Permutation_Forall, Hw; constructor).
  cbn [m_instruction opItem].
  rewrite (exec_arith2 _ _ _ _ _ _ Hj Hw (Hg a b)), (exec_arith2 _ _ _ _ _ _ Hi Hw' (Hf b a)).
  by rewrite Hfg.
Qed.

Lemma swap_dup n st x :
  (1 <= n)%nat -> st !! (n - 1)%nat = Some x -> swap n (x :: st) = Some (x :: st).
Proof.
  intros Hn Hx. unfold swap. destruct n as [|n]; [lia|]. simpl in Hx |- *.
  rewrite Nat.sub_0_r in Hx. rewrite Hx. simpl. by rewrite list_insert_id.
Qed.

Lemma DupSwap_effect dp sw :
  item_isDup dp = true -> item_isSwap sw = true ->
  getDupNumber (m_instruction dp) = getSwapNumber (m_instruction sw) ->
  same_effect [dp; sw] [dp].
Proof using.
  intros Hd Hs Hn st w _. rewrite exec_cons, exec_one, item_isDup_exec by done.
  assert (1 <= Z.to_nat (getSwapNumber (m_instruction sw)))%nat as Hpos.
  { apply item_isSwap_spec in Hs as [_ Hs']. destruct (m_instruction sw); try discriminate Hs'; vm_compute; lia. }
  rewrite Hn. unfold dup at 1 2 3.
  destruct (st !! _) as [x|] eqn:Hx; [right|by left].
  cbn [mbind option_bind or_underflow]. rewrite exec_one, item_isSwap_exec by done.
  by rewrite swap_dup.
Qed.

(** The truth of a word after two ISZERO. *)
Lemma iszero_iszero c : (bool_word (bool_word (c =? 0) =? 0) =? 0) = (c =? 0).
Proof. by destruct (c =? 0). Qed.

Lemma exec_iszero it c st w :
  is_op it ISZERO = true -> words (c :: st) ->
  exec_item it (c :: st) w = Next (bool_word (c =? 0) :: st) w.
Proof using All. intros Hi Hw. rewrite (exec_op _ _ _ _ Hi). by apply exec_arith1. Qed.

Lemma IsZeroIsZeroJumpI_effect z1 z2 pt j :
  is_op z1 ISZERO = true -> is_op z2 ISZERO = true -> m_type pt = PushTag ->
  is_op j JUMPI = true -> same_effect [z1; z2; pt; j] [pt; j].
Proof using All.
  intros H1 H2 Hp Hj st w Hw. destruct st as [|c st].
  { left. rewrite exec_cons, (exec_op _ _ _ _ H1). done. }
  right. rewrite (exec_cons z1), exec_iszero by done.
  assert (words (bool_word (c =? 0) :: st)) as Hw'
    by (inversion Hw; constructor; [apply bool_word_range|done]).
  rewrite (exec_cons z2), exec_iszero by done.
  rewrite !(exec_cons pt), !exec_push by (by rewrite Hp).
  rewrite !exec_one, !(exec_op _ _ _ _ Hj). unfold exec_instruction. simpl.
  by rewrite iszero_iszero.
Qed.

(** A mask that covers 32 bits leaves a tag's address unchanged. *)
Lemma tag_mask m d : Z.land m 0xFFFFFFFF = 0xFFFFFFFF -> Z.land m (addr d) = addr d.
Proof using All.
  intros Hm. pose proof (addr_range d) as Hr.
  assert (Z.land 0xFFFFFFFF (addr d) = addr d) as Ha.
  { rewrite Z.land_comm. change 0xFFFFFFFF with (Z.ones 32). rewrite Z.land_ones by done.
    by apply Z.mod_small. }
  by rewrite <- Ha, Z.land_assoc, Hm.
Qed.

Lemma exec_and it a b st w :
  is_op it AND = true -> words (a :: b :: st) ->
  exec_item it (a :: b :: st) w = Next (Z.land a b :: st) w.
Proof using All. intros Hi Hw. rewrite (exec_op _ _ _ _ Hi). by apply exec_arith2. Qed.

Lemma TagConjunctions_effect pt pc a it :
  is_op a AND = true -> item_words pt -> item_words pc ->
  (m_type pt = PushTag /\ m_type pc = Push /\ hasTagMask pc = true /\ it = pt) \/
  (m_type pc = PushTag /\ m_type pt = Push /\ hasTagMask pt = true /\ it = pc) ->
  same_effect [pt; pc; a] [it].
Proof using All.
  intros Ha Hfp Hfc Hc st w Hw. right. unfold hasTagMask in Hc.
  assert (exec [pt; pc; a] st w = Next (Z.land (push_value pc) (push_value pt) :: st) w) as ->.
  { rewrite (exec_cons pt), (exec_push pt) by (destruct Hc as [(-> & _)|(_ & -> & _)]; done).
    rewrite (exec_cons pc), (exec_push pc) by (destruct Hc as [(_ & -> & _)|(-> & _)]; done).
    rewrite exec_one, exec_and by (try done; repeat constructor; try apply push_value_word; done). done. }
  rewrite exec_one, exec_push by (destruct Hc as [(Ht & _ & _ & ->)|(Ht & _ & _ & ->)]; by rewrite Ht).
  unfold push_value.
  destruct Hc as [(H1 & H2 & Hm%Z.eqb_eq & ->)|(H1 & H2 & Hm%Z.eqb_eq & ->)]; rewrite H1, H2.
  - by rewrite tag_mask.
  - by rewrite Z.land_comm, tag_mask.
Qed.

Lemma TruthyAnd_effect p n a :
  m_type p = Push -> m_data p = 0 -> is_op n NOT = true -> is_op a AND = true ->
  same_effect [p; n; a] [].
Proof using All.
  intros Hp Hd Hn Ha st w Hw. rewrite (exec_cons p), exec_push by (by rewrite Hp).
  unfold push_value. rewrite Hp, Hd.
  rewrite (exec_cons n), (exec_op _ _ _ _ Hn).
  rewrite (exec_arith1 NOT 0 st w u256_max) by (try done; by constructor).
  rewrite exec_one. destruct st as [|x st].
  { left. by rewrite (exec_op _ _ _ _ Ha). }
  right. inversion Hw; subst.
  rewrite exec_and by (first [done|by constructor]).
  rewrite Z.land_comm, u256_land_ones. by rewrite u256_id.
Qed.

(** What ends a block never falls through. *)
Lemma endsBlock_effect it seg st w :
  endsBlock it = true -> exec (it :: seg) st w = exec [it] st w.
Proof using All.
  intros He. rewrite exec_cons, exec_one.
  assert (match exec_item it st w with Next _ _ => False | _ => True end) as Hn;
    [|by destruct (exec_item it st w)].
  assert (exists i, is_op it i = true /\ (i = JUMP \/ instr_terminatesControlFlow i = true))
    as (i & Hi & Hc).
  { unfold endsBlock in He. rewrite !orb_true_iff in He.
    destruct He as [[[[[He|He]|He]|He]|He]|He]; eexists; (split; [exact He|]); auto. }
  rewrite (exec_op _ _ _ _ Hi). destruct Hc as [->|Hc]; [by destruct st|].
  rewrite exec_perform by (by destruct i). destruct (_ <? _)%nat; [done|].
  destruct (perform_halts i (take (args (instructionInfo i)) st) w Hc) as [h ->]. done.
Qed.

(** ** Every method replaces a window *)
Definition method_ok (m : Method) : Prop :=
  forall code o n, Forall item_fine code -> applyMethod m code = Some (o, n) ->
    exists seg rest, code = seg ++ rest /\ length seg = n /\ (1 <= n)%nat /\ window item_fine seg o.

Lemma item_fine_words it : item_fine it -> item_words it.
Proof. by intros []. Qed.

Lemma fine_op loc i : isSignalInstruction i = false -> item_fine (opItem i loc).
Proof. by split. Qed.

(** The conditions of the methods as propositions. *)
Ltac conditions :=
  repeat match goal with
  | H : output_if ?b _ = Some _ |- _ => unfold output_if in H; destruct b eqn:?; simplify_eq
  | H : (_ && _)%bool = true |- _ => apply andb_true_iff in H as [? ?]
  | H : bool_decide _ = true |- _ => apply bool_decide_eq_true in H
  | H : (_ =? _) = true |- _ => apply Z.eqb_eq in H
  | H : item_isDup _ = true |- _ => let H' := fresh in pose proof H as H'; apply item_isDup_spec in H' as [? _]; revert H
  | H : item_isSwap _ = true |- _ => let H' := fresh in pose proof H as H'; apply item_isSwap_spec in H' as [? _]; revert H
  end; intros.

Ltac fine_lists :=
  repeat match goal with
  | H : Forall item_fine (_ :: _) |- _ => apply Forall_cons in H as [? H]
  end.

Ltac fines := repeat first [assumption | apply Forall_cons_2 | apply Forall_nil_2 | by apply fine_op].

(** A window of two items. *)
Ltac window2 :=
  intros code o n Hfine Ha; cbn [applyMethod] in Ha;
  destruct code as [|a [|b rest]]; try discriminate Ha; cbn -[assoc] in Ha.

Lemma PushPop_ok : method_ok (Simple PushPop).
Proof using All.
  window2. destruct (output_if _ _) eqn:Ho; simplify_eq/=. conditions. fine_lists.
  exists [a; b], rest. repeat split; [lia|]. apply w_same; [|done|done|by apply PushPop_effect].
  no_tags. unfold noTag. intros Ht. rewrite Ht, orb_false_r in *.
  match goal with H : item_isDup a = true |- _ => apply item_isDup_spec in H as [? _] end. congruence.
Qed.

Lemma OpPop_ok : method_ok (Simple OpPop).
Proof using All.
  window2. destruct (is_op b POP && _) eqn:Hc; [|discriminate Ha].
  destruct (_ && _) eqn:Hc2 in Ha; simplify_eq/=. conditions. fine_lists.
  rewrite Nat.eqb_eq, negb_true_iff in *.
  exists [a; b], rest. repeat split; [lia|]. apply w_same; [no_tags| | |].
  - apply Forall_replicate. discriminate.
  - apply Forall_replicate, fine_op. done.
  - apply OpPop_effect; try done.
    by match goal with H : item_fine a |- _ => apply H end.
Qed.

Lemma DoublePush_ok : method_ok (Simple DoublePush).
Proof using All.
  window2. destruct (output_if _ _) eqn:Ho; simplify_eq/=. conditions. fine_lists.
  exists [a; b], rest. repeat split; [lia|].
  apply w_same; [no_tags|no_tags| |by apply DoublePush_effect].
  fines.
Qed.

Lemma DoubleSwap_ok : method_ok (Simple DoubleSwap).
Proof using All.
  window2. destruct (output_if _ _) eqn:Ho; simplify_eq/=. conditions. fine_lists.
  exists [a; b], rest. repeat split; [lia|].
  apply w_same; [|done|done|by apply DoubleSwap_effect].
  apply item_eqb_spec in H0 as [? _]. no_tags.
Qed.

Lemma CommutativeSwap_ok : method_ok (Simple CommutativeSwap).
Proof using All.
  window2. destruct (output_if _ _) eqn:Ho; simplify_eq/=. conditions. fine_lists.
  assert (m_type b = Operation) by (unfold isCommutativeOperation in *; by destruct (m_type b)).
  exists [a; b], rest. repeat split; [lia|].
  apply w_same; [no_tags|no_tags| |by apply CommutativeSwap_effect]. fines.
Qed.

Lemma SwapComparison_ok : method_ok (Simple SwapComparison).
Proof using All.
  window2. destruct (is_op a SWAP1 && _) eqn:Hc; [|discriminate Ha].
  destruct (assoc (m_instruction b) swappableOps) as [i|] eqn:Hi; [|discriminate Ha].
  injection Ha as <- <-. conditions. fine_lists.
  exists [a; b], rest. repeat split; [lia|].
  apply w_same; [no_tags|no_tags| |by eapply SwapComparison_effect].
  apply Forall_cons_2; [|done]. apply fine_op. apply assoc_In in Hi. simpl in Hi.
  destruct Hi as [Hi|[Hi|[Hi|[Hi|[]]]]]; by injection Hi as _ <-.
Qed.

Lemma DupSwap_ok : method_ok (Simple DupSwap).
Proof using All.
  window2. destruct (output_if _ _) eqn:Ho; simplify_eq/=. conditions. fine_lists.
  exists [a; b], rest. repeat split; [lia|].
  apply w_same; [no_tags|no_tags|fines|by apply DupSwap_effect].
Qed.

Lemma IsZeroIsZeroJumpI_ok : method_ok (Simple IsZeroIsZeroJumpI).
Proof using All.
  intros code o n Hfine Ha. cbn [applyMethod] in Ha.
  destruct code as [|a [|b [|c [|j rest]]]]; try discriminate Ha. cbn in Ha.
  destruct (output_if _ _) eqn:Ho; simplify_eq/=. conditions. fine_lists.
  exists [a; b; c; j], rest. repeat split; [lia|].
  apply w_same; [no_tags|no_tags|fines|by apply IsZeroIsZeroJumpI_effect].
Qed.

Lemma JumpToNext_ok : method_ok (Simple JumpToNext).
Proof using All.
  intros code o n Hfine Ha. cbn [applyMethod] in Ha.
  destruct code as [|a [|b [|t rest]]]; try discriminate Ha. cbn in Ha.
  destruct (output_if _ _) eqn:Ho; simplify_eq/=. conditions. fine_lists.
  exists [a; b; t], rest. repeat split; [lia|].
  destruct (is_op b JUMPI) eqn:Hj; simpl.
  - apply w_jumpi; fines.
  - rewrite orb_false_r in *. by apply w_jump.
Qed.

Lemma TagConjunctions_ok : method_ok (Simple TagConjunctions).
Proof using All.
  intros code o n Hfine Ha. cbn [applyMethod] in Ha.
  destruct code as [|a [|b [|c rest]]]; try discriminate Ha. cbn in Ha.
  destruct (is_op c AND) eqn:Hc; [|discriminate Ha]. cbn [negb] in Ha. fine_lists.
  exists [a; b; c], rest.
  destruct (bool_decide (m_type a = PushTag) && _ && _) eqn:E1; simplify_eq/=.
  - conditions. repeat split; [lia|].
    apply w_same; [no_tags|no_tags|fines|]. apply TagConjunctions_effect; auto using item_fine_words.
  - destruct (bool_decide (m_type b = PushTag) && _ && _) eqn:E2; simplify_eq/=. clear E1.
    conditions. repeat split; [lia|].
    apply w_same; [no_tags|no_tags|fines|]. apply TagConjunctions_effect; auto using item_fine_words.
Qed.

Lemma TruthyAnd_ok : method_ok (Simple TruthyAnd).
Proof using All.
  intros code o n Hfine Ha. cbn [applyMethod] in Ha.
  destruct code as [|a [|b [|c rest]]]; try discriminate Ha. cbn in Ha.
  destruct (output_if _ _) eqn:Ho; simplify_eq/=. conditions. fine_lists.
  exists [a; b; c], rest. repeat split; [lia|].
  apply w_same; [no_tags|no_tags|fines|by apply TruthyAnd_effect].
Qed.

Lemma untilTag_split it :
  exists seg rest, it = seg ++ rest /\ length seg = untilTag it /\ Forall noTag seg.
Proof.
  induction it as [|a it (seg & rest & -> & Hl & Hn)]; [by exists [], []|]. simpl.
  destruct (bool_decide (m_type a = Tag)) eqn:Ht.
  - by exists [], (a :: seg ++ rest).
  - apply bool_decide_eq_false in Ht. exists (a :: seg), rest.
    split; [done|]. split; [simpl; by rewrite Hl|by constructor].
Qed.

Lemma endsBlock_op it : endsBlock it = true -> m_type it = Operation.
Proof.
  unfold endsBlock. rewrite !orb_true_iff.
  intros [[[[[He|He]|He]|He]|He]|He]; by apply is_op_spec in He as [? _].
Qed.

Lemma UnreachableCode_ok : method_ok UnreachableCode.
Proof using All.
  intros code o n Hfine Ha. cbn [applyMethod] in Ha. unfold unreachableCode in Ha.
  destruct code as [|a code]; [discriminate Ha|].
  destruct (endsBlock a) eqn:He; [|discriminate Ha]. cbn [negb] in Ha.
  destruct (untilTag_split code) as (seg & rest & -> & Hl & Hn).
  destruct (1 <? _)%nat; [|discriminate Ha]. simplify_eq. fine_lists.
  exists (a :: seg), rest. split; [done|]. split; [simpl; by rewrite Hl|]. split; [lia|].
  pose proof (endsBlock_op a He).
  apply w_same; [constructor; [no_tags|done]|no_tags|fines|].
  intros st w _. right. symmetry. by apply endsBlock_effect.
Qed.

Lemma Identity_ok : method_ok (Simple Identity).
Proof using All.
  intros code o n Hfine Ha. cbn [applyMethod] in Ha.
  destruct code as [|a rest]; [discriminate Ha|]. cbn in Ha. simplify_eq. fine_lists.
  exists [a], rest. repeat split; [lia|].
  destruct (decide (m_type a = Tag)) as [Ht|Ht]; [by apply w_tag|].
  apply w_same; [by constructor|by constructor|by constructor|]. intros st w _. by right.
Qed.

Lemma methods_ok : Forall method_ok methods.
Proof using All.
  unfold methods.
  repeat apply Forall_cons_2; auto using PushPop_ok, OpPop_ok, DoublePush_ok, DoubleSwap_ok,
    CommutativeSwap_ok, SwapComparison_ok, DupSwap_ok, IsZeroIsZeroJumpI_ok, JumpToNext_ok,
    UnreachableCode_ok, TagConjunctions_ok, TruthyAnd_ok, Identity_ok.
Qed.

Lemma firstMethod_ok ms code o n :
  Forall method_ok ms -> Forall item_fine code -> firstMethod ms code = Some (o, n) ->
  exists seg rest, code = seg ++ rest /\ length seg = n /\ (1 <= n)%nat /\ window item_fine seg o.
Proof using All.
  intros Hms Hf. induction Hms as [|m ms Hm _ IH]; [done|]. simpl.
  destruct (applyMethod m code) as [[o' n']|] eqn:Ha; [|done]. intros [= -> ->]. by apply Hm.
Qed.

(** ** [optimise] and its loop *)

Lemma firstMethod_total it : it <> [] -> exists o n, firstMethod methods it = Some (o, n).
Proof using.
  intros Hne. destruct it as [|a it]; [done|]. unfold methods. cbn [firstMethod].
  repeat match goal with
  | |- context [match applyMethod ?m ?l with _ => _ end] =>
      destruct (applyMethod m l) as [[]|] eqn:?; [by do 2 eexists|]
  end. discriminate.
Qed.

Lemma optimiseLoop_ok fuel : forall items i out,
  Forall item_fine items -> (i <= length items)%nat -> (length items - i <= fuel)%nat ->
  exists o, optimiseLoop fuel (mkOptimiser items i out) = Ret (mkOptimiser items (length items) (out ++ o)) /\
    rewritten item_fine (drop i items) o.
Proof using All.
  induction fuel as [|fuel IH]; intros items i out Hfine Hi Hfuel; cbn [optimiseLoop Peephole.items Peephole.i].
  - assert (i = length items) as -> by lia. rewrite Nat.ltb_irrefl. exists [].
    rewrite app_nil_r, drop_all. split; [done|constructor].
  - destruct (Nat.ltb_spec i (length items)) as [Hlt|Hge].
    + destruct (firstMethod_total (drop i items)) as (o & n & Hf).
      { intros Hd%(f_equal length). rewrite length_drop in Hd. simpl in Hd. lia. }
      destruct (firstMethod_ok methods (drop i items) o n methods_ok (Forall_drop _ _ _ Hfine) Hf)
        as (seg & rest & Hseg & Hl & Hn & Hw).
      unfold applyMethods. cbn [Peephole.items Peephole.i]. rewrite Hf. cbn [mbind option_bind lift Result_bind].
      assert (drop (i + n) items = rest) as Hrest.
      { rewrite <- drop_drop, Hseg, <- Hl. apply drop_app_length. }
      assert (length seg + length rest = length items - i)%nat as Hlen
        by (rewrite <- length_app, <- Hseg; apply length_drop).
      destruct (IH items (i + n)%nat (out ++ o) Hfine) as (o' & Ho' & Hopt); [lia|lia|].
      exists (o ++ o'). cbn [Peephole.out]. rewrite Ho', app_assoc. split; [done|].
      rewrite Hseg. apply rew_window; [|done|by rewrite <- Hrest].
      destruct seg; [simpl in Hl; lia|done].
    + assert (i = length items) as -> by lia. exists [].
      rewrite app_nil_r, drop_all. split; [done|constructor].
Qed.

(** The optimised code, when [optimise] returns. *)
Lemma optimise_cases items changed items' :
  Forall item_fine items -> optimise items = Ret (changed, items') ->
  if changed then rewritten item_fine items items' else items' = items.
Proof using All.
  intros Hf. unfold optimise.
  destruct (optimiseLoop_ok (length items) items 0 [] Hf) as (o & -> & Ho); [lia|lia|].
  cbn [mbind Result_bind Peephole.out app]. rewrite drop_0 in Ho.
  destruct (_ <? _)%nat; [by intros [= <- <-]|].
  destruct (_ =? _)%nat; [|by intros [= <- <-]].
  destruct (items_bytesRequired o 3) as [b|]; [|done]. cbn [mbind Result_bind lift].
  destruct (items_bytesRequired items 3) as [b'|]; [|done]. cbn [mbind Result_bind lift].
  destruct (_ || _); by intros [= <- <-].
Qed.
End Sound.
