(* ===== verification/PeepholeTheorems.v ===== *)
(** * PeepholeTheorems: the contract of the peephole optimiser

    The optimiser refines the code it is given, repeated or not; it terminates; and the
    restriction on the signal instructions cannot be dropped. *)

From Stdlib Require Import Relation_Operators Wellfounded.
From S2P Require Import Prelude U256 CommonData Instruction AssemblyItem SemanticInformation Interpreter RuleSound Machine Simulation InterpreterWorld Peephole PeepholeSound.

(** ** Termination

    A change makes the code shorter, or keeps its length and makes it cheaper, so the loop of the
    optimiser ends. *)

(** The bytes of an item beyond its opcode. *)
Definition weight (it : AssemblyItem) : Z := default 1 (item_bytesRequired it 3) - 1.
Fixpoint weights (l : list AssemblyItem) : Z :=
  match l with [] => 0 | it :: l => weight it + weights l end.

(** An item that has a size: not undefined, and an immutable occurs a number of times. *)
Definition item_sized (it : AssemblyItem) : Prop :=
  m_type it <> UndefinedItem /\
  match m_immutableOccurrences it with Some n => 0 <= n | None => True end.

Lemma weight_nonneg it : item_sized it -> 0 <= weight it.
Proof.
  unfold weight, item_bytesRequired. intros [_ Ho].
  destruct (m_type it); simpl; try lia.
  destruct (m_immutableOccurrences it); simpl; lia.
Qed.

Lemma opItem_sized i loc : item_sized (opItem i loc).
Proof. by split. Qed.

Lemma weights_nonneg l : Forall item_sized l -> 0 <= weights l.
Proof.
  induction 1 as [|it l Hit _ IH]; simpl; [lia|]. pose proof (weight_nonneg it Hit). lia.
Qed.

Lemma weights_app l l' : weights (l ++ l') = weights l + weights l'.
Proof. induction l; simpl; lia. Qed.

Lemma weight_op it i : is_op it i = true -> weight it = 0.
Proof. intros [Ht _]%is_op_spec. unfold weight, item_bytesRequired. by rewrite Ht. Qed.

Lemma weights_replicate n i loc : weights (replicate n (opItem i loc)) = 0.
Proof. induction n; simpl; [done|]. rewrite IHn. done. Qed.

Lemma bytesRequired_weights l b : items_bytesRequired l 3 = Some b -> b = Z.of_nat (length l) + weights l.
Proof.
  revert b. induction l as [|it l IH]; intros b; simpl; [by intros [= <-]|].
  unfold weight. destruct (item_bytesRequired it 3) as [c|]; [|done]. simpl.
  destruct (items_bytesRequired l 3) as [s|]; [|done]. simpl. intros [= <-].
  specialize (IH s eq_refl). lia.
Qed.

(** A method's output is not heavier than the items it consumes. *)
Definition method_lighter (m : Method) : Prop :=
  forall code o n, Forall item_sized code -> applyMethod m code = Some (o, n) ->
    (1 <= n <= length code)%nat /\ weights o <= weights (take n code) /\ Forall item_sized o.

Ltac occ :=
  repeat first [assumption | apply Forall_cons_2 | apply Forall_nil_2 | apply opItem_sized].

Ltac weigh Hocc :=
  repeat match goal with
  | H : Forall item_sized (_ :: _) |- _ =>
      let Ho := fresh "Ho" in apply Forall_cons in H as [Ho H]; pose proof (weight_nonneg _ Ho)
  end;
  split; [simpl; lia|]; split; [cbn [take weights]; try lia|occ].

Lemma numberOfPops_le l : 0 <= numberOfPops l <= Z.of_nat (length l).
Proof. unfold numberOfPops. pose proof (List.filter_length_le (fun it => is_op it POP) l). lia. Qed.

Lemma weight_opItem i loc : weight (opItem i loc) = 0.
Proof. done. Qed.

Lemma untilTag_le it : (untilTag it <= length it)%nat.
Proof. induction it as [|a it IH]; simpl; [done|]. destruct (bool_decide _); lia. Qed.

Lemma UnreachableCode_lighter : method_lighter UnreachableCode.
Proof.
  intros code o n Hocc Ha. cbn [applyMethod] in Ha. unfold unreachableCode in Ha.
  destruct code as [|a rest]; [done|]. destruct (negb (endsBlock a)); [done|].
  pose proof (untilTag_le rest). destruct (1 <? _)%nat; [|done]. injection Ha as <- <-.
  apply Forall_cons in Hocc as [Ho Hocc].
  pose proof (weights_nonneg _ (Forall_take _ (untilTag rest) _ Hocc)).
  split; [simpl; lia|]. split; [cbn [take weights]; lia|]. occ.
Qed.

Lemma methods_lighter : Forall method_lighter methods.
Proof.
  unfold methods. repeat apply Forall_cons_2; [..|apply Forall_nil_2];
    try apply UnreachableCode_lighter; intros code o n Hocc Ha; cbn [applyMethod] in Ha.
  12: destruct code as [|a rest]; [done|]; cbn in Ha; simplify_eq; weigh Hocc; done.
  all: destruct code as [|a [|b [|c [|e rest]]]]; try discriminate Ha;
    cbn -[assoc instructionInfo] in Ha; unfold output_if in Ha;
    try (destruct (assoc _ _)); repeat case_match; simplify_eq/=; weigh Hocc; rewrite ?weights_replicate, ?weight_opItem; try lia.
  all: apply Forall_replicate, opItem_sized.
Qed.

(** The output of [applyMethods] is not heavier than what it consumes. *)
Lemma firstMethod_lighter ms code o n :
  Forall method_lighter ms -> Forall item_sized code -> firstMethod ms code = Some (o, n) ->
  (1 <= n <= length code)%nat /\ weights o <= weights (take n code) /\ Forall item_sized o.
Proof.
  intros Hms Hocc. induction Hms as [|m ms Hm _ IH]; [done|]. simpl.
  destruct (applyMethod m code) as [[o' n']|] eqn:Ha; [|done]. intros [= -> ->]. by apply Hm.
Qed.

Lemma firstMethod_some it : it <> [] -> exists o n, firstMethod methods it = Some (o, n).
Proof.
  intros Hne. destruct it as [|a it]; [done|]. unfold methods. cbn [firstMethod].
  repeat match goal with
  | |- context [match applyMethod ?m ?l with _ => _ end] =>
      destruct (applyMethod m l) as [[]|] eqn:?; [by do 2 eexists|]
  end. discriminate.
Qed.

Lemma optimiseLoop_lighter fuel : forall items i out,
  Forall item_sized items -> (i <= length items)%nat -> (length items - i <= fuel)%nat ->
  exists o, optimiseLoop fuel (mkOptimiser items i out) = Ret (mkOptimiser items (length items) (out ++ o)) /\
    weights o <= weights (drop i items) /\ Forall item_sized o.
Proof.
  induction fuel as [|fuel IH]; intros items i out Hocc Hi Hfuel; cbn [optimiseLoop Peephole.items Peephole.i].
  - assert (i = length items) as -> by lia. rewrite Nat.ltb_irrefl. exists [].
    by rewrite app_nil_r, drop_all.
  - destruct (Nat.ltb_spec i (length items)) as [Hlt|Hge].
    + destruct (firstMethod_some (drop i items)) as (o & n & Hf).
      { intros Hd%(f_equal length). rewrite length_drop in Hd. simpl in Hd. lia. }
      destruct (firstMethod_lighter methods (drop i items) o n methods_lighter (Forall_drop _ _ _ Hocc) Hf)
        as (Hn & Hw & Ho).
      unfold applyMethods. cbn [Peephole.items Peephole.i]. rewrite Hf. cbn [mbind option_bind lift Result_bind].
      rewrite length_drop in Hn.
      destruct (IH items (i + n)%nat (out ++ o) Hocc) as (o' & Ho' & Hw' & Hocc'); [lia|lia|].
      exists (o ++ o'). cbn [Peephole.out]. rewrite Ho', app_assoc. split; [done|].
      split; [|by apply Forall_app_2].
      rewrite weights_app, <- (take_drop n (drop i items)), weights_app, drop_drop. lia.
    + assert (i = length items) as -> by lia. exists [].
      by rewrite app_nil_r, drop_all.
Qed.

(** ** The measure of the repeated optimiser *)

Definition measure (l : list AssemblyItem) : nat * (nat * nat) :=
  (length l, (Z.to_nat (weights l), (length l - Z.to_nat (numberOfPops l))%nat)).

(** The lexicographic order of the measure. *)
Definition cheaper (l' l : list AssemblyItem) : Prop :=
  slexprod nat (nat * nat) lt (slexprod nat nat lt lt) (measure l') (measure l).

Lemma cheaper_wf : well_founded cheaper.
Proof.
  apply (wf_inverse_image (list AssemblyItem) _ _ measure).
  apply wf_slexprod; [apply lt_wf|]. apply wf_slexprod; apply lt_wf.
Qed.

Lemma optimise_cheaper items items' :
  Forall item_sized items -> optimise items = Ret (true, items') ->
  cheaper items' items /\ Forall item_sized items'.
Proof.
  intros Hocc. unfold optimise.
  destruct (optimiseLoop_lighter (length items) items 0 [] Hocc) as (o & -> & Hw & Ho); [lia|lia|].
  cbn [mbind Result_bind Peephole.out app]. rewrite drop_0 in Hw. unfold cheaper, measure.
  destruct (Nat.ltb_spec (length o) (length items)) as [Hlt|Hge].
  { intros [= <-]. split; [by left|done]. }
  destruct (Nat.eqb_spec (length o) (length items)) as [Heq|]; [|done].
  destruct (items_bytesRequired o 3) as [b|] eqn:Hb; [|done]. cbn [mbind Result_bind lift].
  destruct (items_bytesRequired items 3) as [b'|] eqn:Hb'; [|done]. cbn [mbind Result_bind lift].
  apply bytesRequired_weights in Hb, Hb'.
  destruct ((b <? b') || _) eqn:Hc; [|done]. intros [= <-]. split; [|done].
  rewrite Heq. right. pose proof (weights_nonneg _ Ho). pose proof (weights_nonneg _ Hocc).
  destruct (Z.eq_dec (weights o) (weights items)) as [Hwe|Hwn].
  - rewrite Hwe. right. apply orb_true_iff in Hc as [Hc|Hc].
    + apply Z.ltb_lt in Hc. lia.
    + apply Z.ltb_lt in Hc. pose proof (numberOfPops_le o). pose proof (numberOfPops_le items). lia.
  - left. lia.
Qed.

Lemma items_bytesRequired_sized l : Forall item_sized l -> exists b, items_bytesRequired l 3 = Some b.
Proof.
  induction 1 as [|it l [Hit _] _ [b IH]]; [by exists 0|]. simpl.
  assert (exists c, item_bytesRequired it 3 = Some c) as [c ->].
  { unfold item_bytesRequired.
    destruct (m_type it), (m_immutableOccurrences it); try done; by eexists. }
  rewrite IH. simpl. by eexists.
Qed.

(** [optimise] returns on sized items. *)
Lemma optimise_returns items :
  Forall item_sized items -> exists changed items', optimise items = Ret (changed, items').
Proof.
  intros Hs. unfold optimise.
  destruct (optimiseLoop_lighter (length items) items 0 [] Hs) as (o & -> & _ & Ho); [lia|lia|].
  cbn [mbind Result_bind Peephole.out app].
  destruct (_ <? _)%nat; [by do 2 eexists|].
  destruct (_ =? _)%nat; [|by do 2 eexists].
  destruct (items_bytesRequired_sized o Ho) as [b ->].
  destruct (items_bytesRequired_sized items Hs) as [b' ->]. cbn [mbind Result_bind lift].
  destruct (_ || _); by do 2 eexists.
Qed.

Lemma optimise_unchanged items items' : optimise items = Ret (false, items') -> items' = items.
Proof.
  unfold optimise. destruct (optimiseLoop _ _) as [s| |]; [|done|done]. cbn [mbind Result_bind].
  destruct (_ <? _)%nat; [done|]. destruct (_ =? _)%nat; [|congruence].
  destruct (items_bytesRequired (out s) 3); [|done]. cbn [mbind Result_bind lift].
  destruct (items_bytesRequired items 3); [|done]. cbn [mbind Result_bind lift].
  destruct (_ || _); congruence.
Qed.

(** ** Refinement *)

Section Refinement.
Context {W H : Type} `{!World W H} `{!WorldLaws W H}.

Local Abbreviation code_ok := (code_ok item_fine).

Lemma optimise_step p changed p' :
  code_ok p -> optimise p = Ret (changed, p') -> refines p p' /\ code_ok p'.
Proof using All.
  intros Hp Ho. pose proof (optimise_cases p changed p' (ok_items _ p Hp) Ho) as Hc.
  destruct changed; [|subst; by split; [apply refines_refl|]].
  split; [by apply (rewritten_refines item_fine item_fine_words)
         |by apply (rewritten_code_ok item_fine item_fine_words p)].
Qed.

Lemma peepholeLoop_ok fuel : forall count p count' p',
  code_ok p -> peepholeLoop fuel count p = Ret (count', p') ->
  refines p p' /\ code_ok p' /\ optimise p' = Ret (false, p').
Proof using All.
  induction fuel as [|fuel IH]; intros count p count' p' Hp Hl; [done|]. cbn [peepholeLoop] in Hl.
  destruct (optimise p) as [[changed p1]| |] eqn:Ho; [|done|done]. cbn [mbind Result_bind] in Hl.
  destruct (optimise_step p changed p1 Hp Ho) as [Hr Hp1]. destruct changed.
  - destruct (count + 1 <? 64000); [|done]. cbn [assertThrow lift mbind Result_bind] in Hl.
    destruct (IH _ _ _ _ Hp1 Hl) as (Hr' & Hp' & Hfix).
    split; [by eapply refines_trans|done].
  - injection Hl as <- <-.
    pose proof (optimise_cases p false p1 (ok_items _ p Hp) Ho) as Hc. simpl in Hc. by subst.
Qed.

(** C2 One call of [PeepholeOptimiser::optimise] refines the code: on every stack of
    words and in every world whose instructions obey the laws of the interface, the
    optimised code ends exactly as the original wherever that does not underflow the
    stack, and ends only where the original ends.  The code's tags are distinct and it
    holds no signal instruction. *)
Theorem optimise_refines p changed p' :
  code_ok p -> optimise p = Ret (changed, p') -> refines p p'.
Proof using All. intros Hp Ho. by apply (optimise_step p changed p' Hp Ho). Qed.

End Refinement.

(** ** Concrete runs *)

(** [PUSH 5; POP; tag 1; PUSH 7]: [PUSH 5; POP] is removed. *)
Definition example_code : list AssemblyItem :=
  [dataItem Push 5 noLocation; opItem POP noLocation; dataItem Tag 1 noLocation;
   dataItem Push 7 noLocation].

Lemma example_code_ok : @code_ok _ _ (interpWorld (fun _ => 0)) item_fine example_code.
Proof.
  split.
  - repeat constructor; try done; try (intros _; unfold is_u256, modulus; simpl; lia).
  - apply NoDup_singleton.
Qed.

Lemma optimise_refines_witness :
  @refines _ _ (interpWorld (fun _ => 0)) example_code
    [dataItem Tag 1 noLocation; dataItem Push 7 noLocation].
Proof.
  apply (@optimise_refines _ _ (interpWorld (fun _ => 0)) (interpWorld_laws (fun _ => 0)) _ true);
    [apply example_code_ok|reflexivity].
Defined.


(** C3 [while (peepOpt.optimise())] terminates on every list of items that have a size:
    [optimise] always returns, and the relation between the items after and before a call
    that returns true is well founded. *)
Theorem optimise_terminates :
  (forall items, Forall item_sized items ->
     exists changed items', optimise items = Ret (changed, items') /\ Forall item_sized items') /\
  well_founded (fun items' items => Forall item_sized items /\ optimise items = Ret (true, items')).
Proof.
  split.
  - intros items Hs. destruct (optimise_returns items Hs) as ([] & items' & Ho).
    + exists true, items'. split; [done|]. by apply (optimise_cheaper items).
    + exists false, items'. split; [done|]. by rewrite (optimise_unchanged _ _ Ho).
  - apply (wf_incl _ _ cheaper); [|apply cheaper_wf].
    intros items' items [Hs Ho]. by apply optimise_cheaper.
Qed.

(** C40 The restriction on signal instructions is needed: the instruction table declares
    DELETESIGNAL free of side effects, so [optimise] turns [DELETESIGNAL; POP] into
    [POP] and the deletion never happens. *)
Theorem deletesignal_removed {W H} `{!World W H} x r st w w' loc :
  perform DELETESIGNAL [x] w = inl ([r], w') ->
  let p := [opItem DELETESIGNAL loc; opItem POP loc] in
  let p' := [opItem POP loc] in
  optimise p = Ret (true, p') /\
  evaluates p p (x :: st) w (Finished st w') /\
  evaluates p' p' (x :: st) w (Finished st w).
Proof.
  intros Hp p p'. split; [reflexivity|]. split.
  - exists 3%nat. simpl. unfold exec_item. simpl. unfold exec_instruction. simpl.
    by rewrite take_0, drop_0, Hp.
  - by exists 2%nat.
Qed.

(** A world that records the signals that exist: DELETESIGNAL deletes one. *)
Definition signalWorld : World (gset Z) unit := {|
  perform i l w :=
    inl (replicate (ret (instructionInfo i)) 1,
         if bool_decide (i = DELETESIGNAL) then w ∖ list_to_set l else w);
  assign _ _ w := w;
  addr d := d;
  pushed _ d := d |}.

Lemma deletesignal_removed_witness :
  let p := [opItem DELETESIGNAL noLocation; opItem POP noLocation] in
  let p' := [opItem POP noLocation] in
  optimise p = Ret (true, p') /\
  @evaluates _ _ signalWorld p p [5] {[ 5; 6 ]} (Finished [] {[ 6 ]}) /\
  @evaluates _ _ signalWorld p' p' [5] {[ 5; 6 ]} (Finished [] {[ 5; 6 ]}).
Proof.
  apply (@deletesignal_removed _ _ signalWorld 5 1 [] {[ 5; 6 ]} {[ 6 ]} noLocation).
  vm_compute. reflexivity.
Defined.
