(* ===== verification/BlockRun.v ===== *)
(** * BlockRun: code that runs through the same items

    What a run does from a place in the code on is fixed by the items control runs through up to
    the first jump that is always taken, tags left out ([blockItems]), and by where the jumps go
    ([same_targets]). *)

From S2P Require Import Prelude U256 Instruction AssemblyItem SemanticInformation BlockDeduplicator Machine.

(** Control does not continue after the item. *)
Definition stops (it : AssemblyItem) : bool :=
  altersControlFlow it && negb (item_eqb it (opItem JUMPI noLocation)).

Fixpoint blockItems (code : list AssemblyItem) : list AssemblyItem :=
  match code with
  | [] => []
  | it :: code =>
      if is_tag it then blockItems code
      else it :: if stops it then [] else blockItems code
  end.

(** Equal items, as [operator==] compares them. *)
Definition items_eq : list AssemblyItem -> list AssemblyItem -> Prop := Forall2 (fun a b => item_eqb a b = true).

#[export] Instance item_eqb_equivalence : Equivalence (fun a b => item_eqb a b = true).
Proof.
  split.
  - intros a. apply item_eqb_spec. split; [done|]. by case_decide.
  - intros a b. rewrite !item_eqb_spec. intros [Ht Hd]. rewrite <- Ht. split; [done|]. by case_decide.
  - intros a b c. rewrite !item_eqb_spec. intros [Ht Hd] [Ht' Hd']. rewrite <- Ht in Ht', Hd'.
    split; [done|]. case_decide; congruence.
Qed.

Lemma item_eqb_sym a b : item_eqb a b = true -> item_eqb b a = true.
Proof. apply item_eqb_equivalence. Qed.

#[export] Instance items_eq_equivalence : Equivalence items_eq.
Proof. unfold items_eq. apply _. Qed.

Lemma stops_spec it : stops it = true ->
  m_type it = Operation /\ (m_instruction it = JUMP \/ instr_terminatesControlFlow (m_instruction it) = true).
Proof.
  unfold stops, altersControlFlow, item_eqb. destruct (m_type it) eqn:Ht; try done.
  destruct (m_instruction it) eqn:Hi; cbn; intros Hs; try discriminate Hs; split; try done; by auto.
Qed.

(** Code without items but tags. *)
Lemma blockItems_nil code : blockItems code = [] -> Forall (fun it => is_tag it = true) code.
Proof.
  induction code as [|it code IH]; [by constructor|]. cbn. destruct (is_tag it) eqn:E; [|done].
  intros Hb. constructor; [done|by apply IH].
Qed.

(** The first item of code, after its tags. *)
Lemma blockItems_cons code x l : blockItems code = x :: l ->
  exists tags rest, code = tags ++ x :: rest /\ Forall (fun it => is_tag it = true) tags /\ is_tag x = false /\
    l = if stops x then [] else blockItems rest.
Proof.
  induction code as [|it code IH]; [done|]. cbn. destruct (is_tag it) eqn:E.
  - intros Hb. destruct (IH Hb) as (tags & rest & -> & Ht & Hx). exists (it :: tags), rest.
    split; [done|]. split; [by constructor|done].
  - intros [= <- <-]. by exists [], code.
Qed.

Lemma blockItems_filter keep code :
  (forall it, is_tag it = false -> keep it = true) -> blockItems (List.filter keep code) = blockItems code.
Proof.
  intros Hk. induction code as [|it code IH]; [done|]. cbn. destruct (is_tag it) eqn:E.
  - destruct (keep it); [|done]. cbn. by rewrite E.
  - rewrite Hk by done. cbn. rewrite E. by rewrite IH.
Qed.

Section Run.
Context {W H : Type} `{!World W H} `{!WorldLaws W H}.

Lemma item_eqb_exec a b st w : item_eqb a b = true -> exec_item a st w = exec_item b st w.
Proof using.
  intros [Ht Hd]%item_eqb_spec. unfold exec_item, push_value. rewrite <- Ht.
  destruct (m_type a); first [rewrite decide_True in Hd by done | rewrite decide_False in Hd by done];
    first [done | by rewrite Hd].
Qed.

Lemma exec_tag_next it st w : is_tag it = true -> exec_item it st w = Next st w.
Proof using. intros Ht%bool_decide_eq_true. unfold exec_item. by rewrite Ht. Qed.

Lemma stops_exec it st w st' w' : stops it = true -> exec_item it st w <> Next st' w'.
Proof using WorldLaws0.
  intros [Ht Hi]%stops_spec. unfold exec_item. rewrite Ht. destruct Hi as [->|Hi].
  - cbn. by destruct st.
  - rewrite exec_perform by (by destruct (m_instruction it)).
    destruct (_ <? _)%nat; [done|]. destruct (perform_halts (m_instruction it) (take (args (instructionInfo (m_instruction it))) st) w Hi) as [h ->]. done.
Qed.

(** The run of [code] jumps to an address. *)
Inductive jumps (p : list AssemblyItem) : list AssemblyItem -> list Z -> W -> Z -> Prop :=
| jumps_here it code st w a st' w' :
    exec_item it st w = Goto a st' w' -> jumps p (it :: code) st w a
| jumps_next it code st w st' w' a :
    exec_item it st w = Next st' w' -> jumps p code st' w' a -> jumps p (it :: code) st w a
| jumps_there it code st w b st' w' code' a :
    exec_item it st w = Goto b st' w' -> destination p b = Some code' -> jumps p code' st' w' a ->
    jumps p (it :: code) st w a.

(** The addresses a run that ends jumps to. *)
Fixpoint jumpsOf (fuel : nat) (p code : list AssemblyItem) (st : list Z) (w : W) : list Z :=
  match fuel, code with
  | S fuel, it :: code =>
      match exec_item it st w with
      | Next st w => jumpsOf fuel p code st w
      | Goto a st w =>
          a :: match destination p a with Some code => jumpsOf fuel p code st w | None => [] end
      | End _ => []
      end
  | _, _ => []
  end.

Lemma jumps_In n p : forall code st w o a,
  run n p code st w = Some o -> jumps p code st w a -> In a (jumpsOf n p code st w).
Proof using.
  induction n as [|n IH]; intros code st w o a Hr Hj; [done|].
  destruct Hj as [it code st w a st1 w1 Hx|it code st w st1 w1 a Hx Hj|it code st w b st1 w1 code' a Hx Hd Hj];
    cbn [run jumpsOf] in Hr |- *; rewrite Hx in Hr |- *.
  - by left.
  - by eapply IH.
  - right. rewrite Hd in Hr |- *. by eapply IH.
Qed.

(** Jumps to an address go to the same items in both programs. *)
Definition same_target (p p' : list AssemblyItem) (a : Z) : Prop :=
  match destination p a, destination p' a with
  | Some code, Some code' => items_eq (blockItems code) (blockItems code')
  | None, None => True
  | _, _ => False
  end.

Lemma skip_tags p tags code st w o :
  Forall (fun it => is_tag it = true) tags -> evaluates p code st w o -> evaluates p (tags ++ code) st w o.
Proof using.
  intros Ht Hc. apply exec_run. induction Ht as [|it tags Hit _ IH]; [done|]. cbn. by rewrite exec_tag_next.
Qed.

Lemma skip_tags_run p tags code st w o n :
  Forall (fun it => is_tag it = true) tags -> run n p (tags ++ code) st w = Some o ->
  exists m, (m <= n)%nat /\ run m p code st w = Some o.
Proof using.
  intros Ht. revert n. induction Ht as [|it tags Hit _ IH]; intros n Hr; [by exists n|].
  destruct n as [|n]; [done|]. cbn in Hr. rewrite exec_tag_next in Hr by done.
  destruct (IH n Hr) as (m & Hm & Hr'). exists m. split; [lia|done].
Qed.

Lemma jumps_tags p tags code st w a :
  Forall (fun it => is_tag it = true) tags -> jumps p code st w a -> jumps p (tags ++ code) st w a.
Proof using.
  intros Ht Hj. induction Ht as [|it tags Hit _ IH]; [done|]. eapply jumps_next; [by apply exec_tag_next|done].
Qed.

Section Same.
Context (p p' : list AssemblyItem).

(** Where both runs are after the same first item. *)
Lemma same_first code code' :
  items_eq (blockItems code) (blockItems code') ->
  (Forall (fun it => is_tag it = true) code /\ Forall (fun it => is_tag it = true) code') \/
  exists tags x rest tags' x' rest', code = tags ++ x :: rest /\ code' = tags' ++ x' :: rest' /\
    Forall (fun it => is_tag it = true) tags /\ Forall (fun it => is_tag it = true) tags' /\
    (forall st w, exec_item x st w = exec_item x' st w) /\
    (forall st w st' w', exec_item x st w = Next st' w' -> items_eq (blockItems rest) (blockItems rest')).
Proof using WorldLaws0.
  intros He. destruct (blockItems code) as [|x l] eqn:Hb.
  - left. inversion He as [Hb'|]. split; [by apply blockItems_nil|]. by apply blockItems_nil.
  - right. inversion He as [|? x' ? l' Hx Hl E1 Hb']; subst. symmetry in Hb'.
    destruct (blockItems_cons _ _ _ Hb) as (tags & rest & -> & Ht & _ & ->).
    destruct (blockItems_cons _ _ _ Hb') as (tags' & rest' & -> & Ht' & _ & ->).
    exists tags, x, rest, tags', x', rest'. split; [done|]. split; [done|]. split; [done|]. split; [done|].
    split; [intros st w; by apply item_eqb_exec|]. intros st w st1 w1 Hn.
    destruct (stops x) eqn:Hs; [by apply stops_exec in Hn|]. destruct (stops x') eqn:Hs'; [|done].
    rewrite (item_eqb_exec x x') in Hn by done. by apply stops_exec in Hn.
Qed.

Lemma same_items_forward n : forall code code' st w o,
  items_eq (blockItems code) (blockItems code') ->
  (forall a, jumps p code st w a -> same_target p p' a) ->
  run n p code st w = Some o -> evaluates p' code' st w o.
Proof using WorldLaws0.
  induction (lt_wf n) as [n _ IH]. intros code code' st w o He Hj Hr.
  destruct (same_first code code' He) as [[Ht Ht']|(tags & x & rest & tags' & x' & rest' & -> & -> & Ht & Ht' & Hx & Hrest)].
  - rewrite <- (app_nil_r code) in Hr. apply skip_tags_run in Hr as (m & _ & Hr); [|done].
    rewrite <- (app_nil_r code'). apply skip_tags; [done|]. exists 1%nat. by destruct m.
  - apply skip_tags_run in Hr as (m & Hm & Hr); [|done]. apply skip_tags; [done|].
    assert (forall a, jumps p (x :: rest) st w a -> same_target p p' a) as Hj'.
    { intros a Ha. apply Hj. by apply jumps_tags. }
    destruct m as [|m]; [done|]. cbn in Hr. destruct (exec_item x st w) as [st1 w1|a st1 w1|o1] eqn:Hx1.
    + destruct (IH m ltac:(lia) rest rest' st1 w1 o) as [k Hk]; [by eapply Hrest| |done|].
      { intros a Ha. apply Hj'. by eapply jumps_next. }
      exists (S k). cbn. by rewrite <- Hx, Hx1.
    + pose proof (Hj' a ltac:(by eapply jumps_here)) as Ha. unfold same_target in Ha.
      destruct (destination p a) as [c|] eqn:Hc, (destination p' a) as [c'|] eqn:Hc'; try done.
      * destruct (IH m ltac:(lia) c c' st1 w1 o Ha) as [k Hk]; [|done|].
        { intros b Hb. apply Hj'. by eapply jumps_there. }
        exists (S k). cbn. by rewrite <- Hx, Hx1, Hc'.
      * exists 1%nat. cbn. by rewrite <- Hx, Hx1, Hc'.
    + exists 1%nat. cbn. by rewrite <- Hx, Hx1.
Qed.

Lemma same_items_backward n : forall code code' st w o,
  items_eq (blockItems code) (blockItems code') ->
  (forall a, jumps p code st w a -> same_target p p' a) ->
  run n p' code' st w = Some o -> evaluates p code st w o.
Proof using WorldLaws0.
  induction (lt_wf n) as [n _ IH]. intros code code' st w o He Hj Hr.
  destruct (same_first code code' He) as [[Ht Ht']|(tags & x & rest & tags' & x' & rest' & -> & -> & Ht & Ht' & Hx & Hrest)].
  - rewrite <- (app_nil_r code') in Hr. apply skip_tags_run in Hr as (m & _ & Hr); [|done].
    rewrite <- (app_nil_r code). apply skip_tags; [done|]. exists 1%nat. by destruct m.
  - apply skip_tags_run in Hr as (m & Hm & Hr); [|done]. apply skip_tags; [done|].
    assert (forall a, jumps p (x :: rest) st w a -> same_target p p' a) as Hj'.
    { intros a Ha. apply Hj. by apply jumps_tags. }
    destruct m as [|m]; [done|]. cbn in Hr. rewrite <- Hx in Hr. destruct (exec_item x st w) as [st1 w1|a st1 w1|o1] eqn:Hx1.
    + destruct (IH m ltac:(lia) rest rest' st1 w1 o) as [k Hk]; [by eapply Hrest| |done|].
      { intros a Ha. apply Hj'. by eapply jumps_next. }
      exists (S k). cbn. by rewrite Hx1.
    + pose proof (Hj' a ltac:(by eapply jumps_here)) as Ha. unfold same_target in Ha.
      destruct (destination p a) as [c|] eqn:Hc, (destination p' a) as [c'|] eqn:Hc'; try done.
      * destruct (IH m ltac:(lia) c c' st1 w1 o Ha) as [k Hk]; [|done|].
        { intros b Hb. apply Hj'. by eapply jumps_there. }
        exists (S k). cbn. by rewrite Hx1, Hc.
      * exists 1%nat. cbn. by rewrite Hx1, Hc.
    + exists 1%nat. cbn. by rewrite Hx1.
Qed.

(** Code with the same items, whose jumps go to the same items, runs the same way. *)
Lemma same_items_evaluate code code' st w o :
  items_eq (blockItems code) (blockItems code') ->
  (forall a, jumps p code st w a -> same_target p p' a) ->
  evaluates p code st w o <-> evaluates p' code' st w o.
Proof using WorldLaws0.
  intros He Hj. split; intros [n Hn]; [by eapply same_items_forward|by eapply same_items_backward].
Qed.
End Same.

(** Every jump goes to the same place in the same program. *)
Lemma same_target_refl p a : same_target p p a.
Proof using. unfold same_target. by destruct (destination p a). Qed.
End Run.
