(* ===== verification/BlockOrder.v ===== *)
(** * BlockOrder: the order of the blocks, BlockDeduplicator.cpp:45-71

    [comparator] orders the indices of tags by the sequences of items control runs through, so it
    is a strict weak order, as [std::set] needs it, and tags neither of which is less have equal
    sequences. *)

From S2P Require Import Prelude U256 Instruction AssemblyItem SemanticInformation ExpressionClasses BlockDeduplicator ClassSound Machine BlockRun.

(** What the order of items looks at. *)
Definition item_value (it : AssemblyItem) : Z :=
  match m_type it with Operation => opcode (m_instruction it) | _ => m_data it end.

Lemma item_ltb_value a b :
  item_ltb a b = (type_index (m_type a) <? type_index (m_type b)) ||
    ((type_index (m_type a) =? type_index (m_type b)) && (item_value a <? item_value b)).
Proof.
  unfold item_ltb, item_value. case_bool_decide as Ht; cbn [negb].
  - rewrite <- Ht, Z.ltb_irrefl, Z.eqb_refl. by destruct (m_type a).
  - destruct (Z.eqb_spec (type_index (m_type a)) (type_index (m_type b))) as [E|E]; [by apply type_index_inj in E|].
    cbn [andb]. by rewrite orb_false_r.
Qed.

Lemma item_eqb_value a b :
  item_eqb a b = (type_index (m_type a) =? type_index (m_type b)) && (item_value a =? item_value b).
Proof.
  unfold item_eqb, item_value. case_bool_decide as Ht; cbn [andb].
  - rewrite <- Ht, Z.eqb_refl. cbn [andb]. destruct (m_type a); try done.
    case_bool_decide as Hi; [by rewrite Hi, Z.eqb_refl|]. symmetry. apply Z.eqb_neq. intros E. by apply opcode_inj in E.
  - destruct (Z.eqb_spec (type_index (m_type a)) (type_index (m_type b))) as [E|E]; [by apply type_index_inj in E|done].
Qed.

Lemma is_tag_eqb a b : item_eqb a b = true -> is_tag a = is_tag b.
Proof. intros [Ht _]%item_eqb_spec. unfold is_tag. by rewrite Ht. Qed.

(** The numbers whose lexicographic order is that of the items. *)
Fixpoint item_keys (l : list AssemblyItem) : list Z :=
  match l with
  | [] => []
  | it :: l => type_index (m_type it) :: item_value it :: item_keys l
  end.

Lemma item_keys_eq l l' : item_keys l = item_keys l' <-> items_eq l l'.
Proof.
  revert l'. induction l as [|it l IH]; intros [|it' l']; cbn; try (by split; [done|inversion 1]).
  - split.
    + intros [= Ht Hv Hl]. constructor; [|by apply IH]. by rewrite item_eqb_value, Ht, Hv, !Z.eqb_refl.
    + inversion 1 as [|? ? ? ? Hi Hl]; subst. rewrite item_eqb_value in Hi.
      apply andb_true_iff in Hi as [Ht%Z.eqb_eq Hv%Z.eqb_eq]. by rewrite Ht, Hv, (proj2 (IH l') Hl).
Qed.

Lemma ids_ltb_cons2 t v a t' v' b :
  ids_ltb (t :: v :: a) (t' :: v' :: b) =
  if (t <? t') || ((t =? t') && (v <? v')) then true
  else if (t' <? t) || ((t' =? t) && (v' <? v)) then false
  else ids_ltb a b.
Proof.
  cbn [ids_ltb]. destruct (Z.ltb_spec t t'), (Z.ltb_spec t' t), (Z.eqb_spec t t'), (Z.eqb_spec t' t),
    (Z.ltb_spec v v'), (Z.ltb_spec v' v), (Z.eqb_spec v v'); cbn [orb andb]; try reflexivity; lia.
Qed.

Lemma ids_ltb_irrefl a : ids_ltb a a = false.
Proof. induction a as [|x a IH]; [done|]. cbn. by rewrite Z.ltb_irrefl, Z.eqb_refl, IH. Qed.

Lemma ids_ltb_trans a b c : ids_ltb a b = true -> ids_ltb b c = true -> ids_ltb a c = true.
Proof.
  revert b c. induction a as [|x a IH]; intros [|y b] [|z c]; cbn; try done.
  rewrite !orb_true_iff, !andb_true_iff, !Z.ltb_lt, !Z.eqb_eq.
  intros [Hxy|[-> Hab]] [Hyz|[-> Hbc]]; [left; lia|by left|by left|right; split; [done|by eapply IH]].
Qed.

(** ** The sequence of an iterator *)

Definition sequence (b : BlockIterator) : list AssemblyItem :=
  map (dereference (replaceItem b) (replaceWith b)) (blockItems (bi_it b)).

(** The iterator is at the end or at an item that is no tag. *)
Definition at_item (b : BlockIterator) : Prop :=
  match bi_it b with [] => True | it :: _ => is_tag it = false end.

Lemma skipTags_items l : blockItems (skipTags l) = blockItems l.
Proof. induction l as [|it l IH]; [done|]. cbn. destruct (is_tag it) eqn:E; [done|]. cbn. by rewrite E. Qed.

Lemma skipTags_at l : match skipTags l with [] => True | it :: _ => is_tag it = false end.
Proof. induction l as [|it l IH]; [done|]. cbn. by destruct (is_tag it) eqn:E. Qed.

Lemma skipTags_length l : (length (skipTags l) <= length l)%nat.
Proof. induction l as [|it l IH]; [done|]. cbn. destruct (is_tag it); cbn; lia. Qed.

Lemma increment_at b : at_item (increment b).
Proof. unfold at_item, increment. cbn. destruct (bi_it b) as [|it l]; [done|]. destruct (_ && _); [done|]. apply skipTags_at. Qed.

Lemma increment_length b : (length (bi_it (increment b)) <= length (bi_it b) - 1)%nat.
Proof.
  unfold increment. cbn. destruct (bi_it b) as [|it l]; [done|]. destruct (_ && _); cbn; [lia|].
  pose proof (skipTags_length l). lia.
Qed.

Lemma sequence_cons b it l : bi_it b = it :: l -> is_tag it = false ->
  sequence b = dereference (replaceItem b) (replaceWith b) it :: sequence (increment b).
Proof.
  intros Hb Ht. unfold sequence, increment. rewrite Hb. cbn [blockItems bi_it replaceItem replaceWith]. rewrite Ht.
  cbn [map]. f_equal. fold (stops it). destruct (stops it); [done|]. by rewrite skipTags_items.
Qed.

Lemma lexicographical_compare_keys fuel : forall first second,
  at_item first -> at_item second -> (length (bi_it first) <= fuel)%nat ->
  lexicographical_compare fuel first second = ids_ltb (item_keys (sequence first)) (item_keys (sequence second)).
Proof.
  induction fuel as [|fuel IH]; intros first second Ha Hb Hf; unfold at_item in Ha, Hb; cbn [lexicographical_compare];
    destruct (bi_it first) as [|x l] eqn:Hx, (bi_it second) as [|y l'] eqn:Hy.
  1, 5: by unfold sequence; rewrite Hx, Hy.
  1, 4: by unfold sequence at 1; rewrite Hx, (sequence_cons second y l').
  1, 2: rewrite ?Hx in Hf; cbn in Hf; lia.
  - unfold sequence at 2. by rewrite Hy, (sequence_cons first x l).
  - rewrite (sequence_cons first x l), (sequence_cons second y l') by done. cbn [item_keys].
    rewrite ids_ltb_cons2, <- !item_ltb_value.
    destruct (item_ltb _ _); [done|]. destruct (item_ltb _ _); [done|].
    apply IH; [apply increment_at|apply increment_at|]. pose proof (increment_length first) as Hi. rewrite Hx in Hi.
    cbn [length] in Hi, Hf. lia.
Qed.

(** ** The order of indices *)

Section Order.
Context (m_items : list AssemblyItem).

Lemma pushTagAt_type i : m_type (pushTagAt m_items i) = PushTag.
Proof.
  unfold pushTagAt. destruct (m_items !! i) as [it|]; [|done]. unfold is_tag. case_bool_decide as Ht; [|done].
  unfold pushTag, isTagItem. by rewrite Ht.
Qed.

Lemma blockAt_at i : at_item (blockAt m_items i).
Proof.
  unfold blockAt, at_item. cbn [bi_it replaceItem replaceWith].
  destruct (drop i m_items) as [|it l] eqn:Hd; [done|].
  destruct (is_tag (dereference _ _ it)) eqn:E; [apply increment_at|]. cbn [bi_it].
  unfold dereference in E. destruct (item_eqb it _) eqn:Ei; [|done]. rewrite (is_tag_eqb _ _ Ei).
  unfold is_tag. by rewrite pushTagAt_type.
Qed.

(** The sequence of items from an index on, the own tag's pushes replaced. *)
Definition blockSequence (i : nat) : list AssemblyItem :=
  map (dereference (Some (pushTagAt m_items i)) (Some pushSelf)) (blockItems (drop i m_items)).

Lemma blockAt_sequence i : sequence (blockAt m_items i) = blockSequence i.
Proof.
  unfold sequence, blockAt, blockSequence. cbn [bi_it replaceItem replaceWith].
  destruct (drop i m_items) as [|it l] eqn:Hd; [done|].
  destruct (is_tag (dereference _ _ it)) eqn:E; [|done].
  assert (is_tag it = true) as Ht.
  { unfold dereference in E. destruct (item_eqb it _) eqn:Ei; [|done]. done. }
  cbn [increment bi_it replaceItem replaceWith blockItems]. rewrite Ht. fold (stops it).
  assert (stops it = false) as ->.
  { apply not_true_iff_false. intros [Ho _]%stops_spec. apply bool_decide_eq_true in Ht. congruence. }
  by rewrite skipTags_items.
Qed.

Lemma comparator_keys i j :
  comparator m_items i j = ids_ltb (item_keys (blockSequence i)) (item_keys (blockSequence j)).
Proof.
  unfold comparator. destruct (Nat.eqb_spec i j) as [->|Hij]; [by rewrite ids_ltb_irrefl|].
  rewrite lexicographical_compare_keys; [by rewrite !blockAt_sequence|apply blockAt_at|apply blockAt_at|].
  unfold blockAt. cbn [bi_it replaceItem replaceWith].
  assert (length (drop i m_items) <= length m_items)%nat as Hl by (rewrite length_drop; lia).
  destruct (drop i m_items) as [|it l] eqn:Hd; [cbn in *; lia|].
  destruct (is_tag _); [|cbn [bi_it]; lia].
  etrans; [apply increment_length|]. cbn [bi_it]. lia.
Qed.

(** Neither of the indices is less than the other. *)
Definition incomparable (i j : nat) : Prop := comparator m_items i j = false /\ comparator m_items j i = false.

Lemma incomparable_sequence i j : incomparable i j <-> items_eq (blockSequence i) (blockSequence j).
Proof.
  unfold incomparable. rewrite !comparator_keys, <- item_keys_eq. split.
  - intros [Hij Hji]. by apply ids_ltb_trichotomy.
  - intros ->. by rewrite ids_ltb_irrefl.
Qed.

Lemma findSeen_incomparable i seen j : findSeen m_items i seen = Some j -> In j seen /\ incomparable i j.
Proof.
  intros [Hin Hc]%List.find_some. split; [done|]. apply andb_true_iff in Hc as [Hij Hji]. by apply negb_true_iff in Hij, Hji.
Qed.
End Order.

(** C27 The comparator of [BlockDeduplicator::deduplicate] is a strict weak order of the indices, as
    [std::set] needs it: irreflexive and transitive, and indices neither of which is less form an
    equivalence; two of them have the same sequence of items, pushes of the own tag aside. *)
Theorem comparator_order m_items :
  (forall i, comparator m_items i i = false) /\
  (forall i j k, comparator m_items i j = true -> comparator m_items j k = true -> comparator m_items i k = true) /\
  Equivalence (incomparable m_items) /\
  forall i j, incomparable m_items i j <-> items_eq (blockSequence m_items i) (blockSequence m_items j).
Proof.
  split; [intros i; by rewrite comparator_keys, ids_ltb_irrefl|].
  split; [intros i j k; rewrite !comparator_keys; apply ids_ltb_trans|].
  split; [|apply incomparable_sequence]. split.
  - intros i. by rewrite incomparable_sequence.
  - intros i j. by rewrite !incomparable_sequence.
  - intros i j k. rewrite !incomparable_sequence. apply transitivity.
Qed.
