(* ===== verification/BlockSound.v ===== *)
(** * BlockSound: the rounds of BlockDeduplicator::deduplicate

    Every round unifies pairs of tags, the second before the first, and makes the pushes of the
    first ones pushes of the last in a chain of replacements.  The pairs found so far lead to equal
    items ([unified]), and a round that changes something lowers the sum of the places of the pushed
    tags ([round_spec]). *)

From S2P Require Import Prelude U256 Instruction AssemblyItem SemanticInformation ExpressionClasses JumpdestRemover BlockDeduplicator Machine BlockRun BlockOrder.

(** The ids of the tags, in order. *)
Definition tag_ids (items : list AssemblyItem) : list Z := map m_data (List.filter is_tag items).

(** The tags are distinct and of this assembly, and none is the one that stands for the own tag. *)
Record tags_ok (items : list AssemblyItem) : Prop := {
  tags_local : Forall local_tag items;
  tags_distinct : NoDup (tag_ids items) }.

(** The tag with an id is at an index. *)
Definition tag_at (items : list AssemblyItem) (i : nat) (a : Z) : Prop :=
  exists t, items !! i = Some t /\ is_tag t = true /\ m_data t = a.

(** The index of the first tag with an id. *)
Fixpoint tagIndex (items : list AssemblyItem) (a : Z) : nat :=
  match items with
  | [] => 0
  | it :: items => if is_tag it && (m_data it =? a) then 0 else S (tagIndex items a)
  end.

Lemma tag_at_id items i a : tag_at items i a -> In a (tag_ids items).
Proof.
  intros (t & Hl & Ht & <-). apply in_map, List.filter_In. split; [|done]. by apply list_elem_of_In, list_elem_of_lookup_2 with i.
Qed.

Lemma tag_at_cons_S it items i a : tag_at (it :: items) (S i) a <-> tag_at items i a.
Proof. done. Qed.

Lemma tag_at_index items i a : NoDup (tag_ids items) -> tag_at items i a -> tagIndex items a = i.
Proof.
  revert i. induction items as [|it items IH]; intros i Hnd Ha; [by destruct Ha as (t & Hl & _)|].
  unfold tag_ids in Hnd. cbn [List.filter] in Hnd. cbn [tagIndex]. destruct i as [|i].
  - destruct Ha as (t & [= <-] & Ht & <-). by rewrite Ht, Z.eqb_refl.
  - apply tag_at_cons_S in Ha. destruct (is_tag it) eqn:Ht.
    + cbn [map] in Hnd. apply NoDup_cons in Hnd as [Hn Hnd]. destruct (Z.eqb_spec (m_data it) a) as [<-|Hne].
      * destruct Hn. apply list_elem_of_In. by eapply tag_at_id.
      * cbn [andb]. f_equal. by apply IH.
    + cbn [andb]. f_equal. by apply IH.
Qed.

Lemma tag_ids_filter f items : NoDup (tag_ids items) -> NoDup (tag_ids (List.filter f items)).
Proof.
  unfold tag_ids. induction items as [|it l IH]; intros Hn; [done|]. cbn [List.filter] in Hn |- *.
  destruct (is_tag it) eqn:E; cbn [map] in Hn.
  - apply NoDup_cons in Hn as [Hni Hn]. destruct (f it); [|by apply IH]. cbn [List.filter]. rewrite E. cbn [map].
    constructor; [|by apply IH]. intros Hin. apply Hni. apply list_elem_of_In in Hin. apply list_elem_of_In.
    apply in_map_iff in Hin as (x & <- & Hx). apply in_map. apply List.filter_In in Hx as [Hx Htx].
    apply List.filter_In in Hx as [Hx _]. by apply List.filter_In.
  - destruct (f it); [|by apply IH]. cbn [List.filter]. rewrite E. by apply IH.
Qed.

Lemma tag_at_local items i a : Forall local_tag items -> tag_at items i a -> 0 <= a <= size_t_max.
Proof.
  intros Hl (t & Hi & Ht%bool_decide_eq_true & <-). by apply (Forall_lookup_1 _ _ _ _ Hl Hi).
Qed.

(** ** Chains of replacements *)

Inductive final (M : gmap Z Z) : Z -> Z -> Prop :=
| final_here s : M !! s = None -> final M s s
| final_step s s' z : M !! s = Some s' -> final M s' z -> final M s z.

Lemma final_det M s z z' : final M s z -> final M s z' -> z = z'.
Proof. intros Hz. revert z'. induction Hz; intros z' Hz'; inversion Hz'; subst; try congruence. apply IHHz. congruence. Qed.

Lemma lastReplacement_final fuel M s z : lastReplacement fuel M s = Ret z -> final M s z.
Proof.
  revert s. induction fuel as [|fuel IH]; intros s; [done|]. cbn [lastReplacement].
  destruct (M !! s) as [s'|] eqn:E; [|intros [= <-]; by apply final_here]. intros Hr. eapply final_step; [done|by apply IH].
Qed.

(** Every entry leads to a tag that is before it. *)
Definition descending (M : gmap Z Z) (r : Z -> nat) : Prop := forall a e, M !! a = Some e -> (r e < r a)%nat.

Lemma lastReplacement_returns M r fuel s :
  descending M r -> (r s < fuel)%nat -> exists z, lastReplacement fuel M s = Ret z.
Proof.
  intros Hd. revert s. induction fuel as [|fuel IH]; intros s Hr; [lia|]. cbn [lastReplacement].
  destruct (M !! s) as [s'|] eqn:E; [|by exists s]. apply IH. pose proof (Hd _ _ E). lia.
Qed.

Lemma final_descending M r s z : descending M r -> final M s z -> (r z <= r s)%nat.
Proof. intros Hd. induction 1 as [|s s' z E _ IH]; [done|]. pose proof (Hd _ _ E). lia. Qed.

Lemma final_none M s z : final M s z -> M !! z = None.
Proof. by induction 1. Qed.

Lemma final_value M s z : final M s z -> z = s \/ exists a, M !! a = Some z.
Proof. induction 1 as [|s s' z E _ [->|]]; [by left|right; by exists s|by right]. Qed.

(** ** One item *)

(** The tag of this assembly that an item pushes. *)
Definition pushedTag (it : AssemblyItem) : option Z :=
  match m_type it with
  | PushTag =>
      match splitForeignPushTag it with
      | Some (subId, tag) => if subId =? size_t_max then Some tag else None
      | None => None
      end
  | _ => None
  end.

(** The item after a round with the replacements [M]. *)
Definition retargets (M : gmap Z Z) (it it' : AssemblyItem) : Prop :=
  match pushedTag it ≫= fun a => M !! a with
  | None => it' = it
  | Some e => exists z, final M e z /\ it' = setData it (z mod 2 ^ 64)
  end.

Lemma splitForeign_push it : m_type it = PushTag -> exists subId tag, splitForeignPushTag it = Some (subId, tag).
Proof. intros Ht. unfold splitForeignPushTag, isTagItem. rewrite Ht. by do 2 eexists. Qed.

Lemma replaceTag_retargets fuel M it c it' :
  replaceTag fuel M size_t_max it = Ret (c, it') ->
  retargets M it it' /\ c = bool_decide (is_Some (pushedTag it ≫= fun a => M !! a)).
Proof.
  unfold replaceTag, retargets, pushedTag. destruct (decide (m_type it = PushTag)) as [Ht|Ht].
  2: { destruct (m_type it); try done; intros [= <- <-]; by split. }
  rewrite Ht. destruct (splitForeign_push it Ht) as (subId & tag & Hs). rewrite Hs. cbn [lift mbind Result_bind option_bind].
  destruct (Z.eqb_spec subId size_t_max) as [->|Hne]; cbn [negb mbind option_bind]; [|intros [= <- <-]; by split].
  destruct (M !! tag) as [e|]; [|intros [= <- <-]; by split].
  destruct (lastReplacement fuel M e) as [z| |] eqn:Hz; [|done|done]. apply lastReplacement_final in Hz.
  unfold setPushTagSubIdAndTag, isTagItem. rewrite Ht. cbn [assertThrow mbind option_bind].
  rewrite Z.eqb_refl. cbn [negb mbind option_bind lift Result_bind]. intros [= <- <-]. split; [by exists z|done].
Qed.

Lemma replaceTag_returns fuel M r it :
  descending M r -> (forall a e, M !! a = Some e -> (r e < fuel)%nat) ->
  exists c it', replaceTag fuel M size_t_max it = Ret (c, it').
Proof.
  intros Hd Hf. unfold replaceTag. destruct (decide (m_type it = PushTag)) as [Ht|Ht].
  2: { destruct (m_type it); try done; by do 2 eexists. }
  rewrite Ht. destruct (splitForeign_push it Ht) as (subId & tag & Hs). rewrite Hs. cbn [lift mbind Result_bind option_bind].
  destruct (Z.eqb_spec subId size_t_max) as [->|Hne]; cbn [negb]; [|by do 2 eexists].
  destruct (M !! tag) as [e|] eqn:He; [|by do 2 eexists].
  destruct (lastReplacement_returns M r fuel e Hd (Hf _ _ He)) as [z ->]. cbn [mbind Result_bind].
  unfold setPushTagSubIdAndTag, isTagItem. rewrite Ht. cbn [assertThrow mbind option_bind].
  rewrite Z.eqb_refl. by do 2 eexists.
Qed.

Lemma retargets_cases M it it' : retargets M it it' ->
  it' = it \/ m_type it = PushTag /\ exists a e z, pushedTag it = Some a /\ M !! a = Some e /\ final M e z /\
    it' = setData it (z mod 2 ^ 64).
Proof.
  unfold retargets. destruct (pushedTag it) as [a|] eqn:Hp; cbn; [|by left].
  destruct (M !! a) as [e|] eqn:He; [|by left]. intros (z & Hz & ->). right.
  split; [|by exists a, e, z]. unfold pushedTag in Hp. by destruct (m_type it).
Qed.

Lemma retargets_type M it it' : retargets M it it' -> m_type it' = m_type it /\ m_instruction it' = m_instruction it.
Proof. intros [->|(_ & a & e & z & _ & _ & _ & ->)]%retargets_cases; done. Qed.

Lemma retargets_tag M it it' : retargets M it it' -> is_tag it' = is_tag it /\ (is_tag it = true -> it' = it).
Proof.
  intros Hr. split; [unfold is_tag; by destruct (retargets_type _ _ _ Hr) as [-> _]|]. unfold is_tag.
  rewrite bool_decide_eq_true. intros Ht. apply retargets_cases in Hr as [->|[Hp _]]; [done|congruence].
Qed.

Lemma retargets_stops M it it' : retargets M it it' -> stops it' = stops it.
Proof.
  intros Hr. destruct (retargets_type _ _ _ Hr) as [Ht Hi]. unfold stops, altersControlFlow, item_eqb. rewrite Ht, Hi.
  by destruct (m_type it).
Qed.

Lemma pushedTag_eqb x y : item_eqb x y = true -> pushedTag x = pushedTag y.
Proof.
  intros [Ht Hd]%item_eqb_spec. unfold pushedTag, splitForeignPushTag, isTagItem. rewrite <- Ht.
  destruct (m_type x); try done. rewrite decide_False in Hd by done. by rewrite Hd.
Qed.

(** Equal items stay equal. *)
Lemma retargets_eqb M x y x' y' :
  item_eqb x y = true -> retargets M x x' -> retargets M y y' -> item_eqb x' y' = true.
Proof.
  intros He. unfold retargets. rewrite <- (pushedTag_eqb x y He).
  destruct (pushedTag x ≫= _) as [e|]; [|by intros -> ->]. intros (z & Hz & ->) (z' & Hz' & ->).
  rewrite (final_det _ _ _ _ Hz Hz'). apply item_eqb_spec in He as [Ht Hd]. apply item_eqb_spec. cbn. split; [done|].
  by case_decide.
Qed.

Lemma item_eqb_push x a : item_eqb x (dataItem PushTag a noLocation) = true <-> m_type x = PushTag /\ m_data x = a.
Proof.
  rewrite item_eqb_spec. cbn. split; intros [Ht Hd]; (split; [done|]); rewrite Ht in *;
    [by rewrite decide_False in Hd by done|by rewrite decide_False by done].
Qed.

Lemma item_eqb_pushes x y : m_type x = PushTag -> m_type y = PushTag -> m_data x = m_data y -> item_eqb x y = true.
Proof. intros Hx Hy Hd. apply item_eqb_spec. rewrite Hx, Hy. split; [done|]. by rewrite decide_False. Qed.

Lemma pushedTag_own x a : 0 <= a <= size_t_max -> item_eqb x (dataItem PushTag a noLocation) = true ->
  pushedTag x = Some a.
Proof.
  intros Ha He. rewrite (pushedTag_eqb _ _ He). unfold pushedTag. cbn [m_type dataItem].
  by rewrite split_local by done.
Qed.

Lemma mod_local z : 0 <= z <= size_t_max -> z mod 2 ^ 64 = z.
Proof. unfold size_t_max. intros Hz. apply Z.mod_small. lia. Qed.

(** Pushes of two tags become equal when one tag is replaced by the other. *)
Lemma retargets_own M a e x y x' y' :
  0 <= a <= size_t_max -> 0 <= e <= size_t_max -> M !! a = Some e ->
  item_eqb x (dataItem PushTag a noLocation) = true -> item_eqb y (dataItem PushTag e noLocation) = true ->
  retargets M x x' -> retargets M y y' -> item_eqb x' y' = true.
Proof.
  intros Ha Hb He Hx Hy. unfold retargets. rewrite (pushedTag_own x a Ha Hx), (pushedTag_own y e Hb Hy).
  cbn. rewrite He. intros (z & Hz & ->). apply item_eqb_push in Hx as [Hx _], Hy as [Hy Hyd].
  destruct (M !! e) as [e2|] eqn:He2; intros Hy'.
  - destruct Hy' as (z' & Hz' & ->). rewrite (final_det M e z z' Hz (final_step _ _ _ _ He2 Hz')).
    by apply item_eqb_pushes.
  - subst y'. rewrite (final_det M e z e Hz (final_here _ _ He2)), mod_local by done. by apply item_eqb_pushes.
Qed.

(** ** Pairs of unified tags *)

(** The tags have the same items, or the same ones up to pushes of the own tag. *)
Definition unified (items : list AssemblyItem) (p : Z * Z) : Prop :=
  exists i j, tag_at items i (fst p) /\ tag_at items j (snd p) /\ (j < i)%nat /\
    items_eq (blockItems (drop i items)) (blockItems (drop j items)).
Definition equal_blocks (items : list AssemblyItem) (p : Z * Z) : Prop :=
  exists i j, tag_at items i (fst p) /\ tag_at items j (snd p) /\ (j < i)%nat /\
    items_eq (blockSequence items i) (blockSequence items j).

Definition no_self (items : list AssemblyItem) : Prop := Forall (fun it => item_eqb it pushSelf = false) items.

Lemma tag_at_push items i a : tag_at items i a -> pushTagAt items i = dataItem PushTag a noLocation.
Proof.
  intros (t & Hi & Ht & <-). unfold pushTagAt. rewrite Hi, Ht. unfold is_tag in Ht. apply bool_decide_eq_true in Ht.
  unfold pushTag, isTagItem. by rewrite Ht.
Qed.

Lemma retargets_blockItems M l l' :
  Forall2 (retargets M) l l' -> Forall2 (retargets M) (blockItems l) (blockItems l').
Proof.
  induction 1 as [|it it' l l' Hr _ IH]; [by constructor|]. cbn.
  destruct (retargets_tag _ _ _ Hr) as [-> _]. rewrite (retargets_stops _ _ _ Hr).
  destruct (is_tag it); [done|]. constructor; [done|]. destruct (stops it); [by constructor|done].
Qed.

Lemma tag_at_retargets M items items' i a :
  Forall2 (retargets M) items items' -> tag_at items i a -> tag_at items' i a.
Proof.
  intros Hr (t & Hi & Ht & Ha). destruct (Forall2_lookup_l _ _ _ _ _ Hr Hi) as (t' & Hi' & Hrt).
  destruct (retargets_tag _ _ _ Hrt) as [_ Heq]. rewrite (Heq Ht) in Hi'. by exists t.
Qed.

Lemma items_eq_retargets M A B A' B' :
  items_eq A B -> Forall2 (retargets M) A A' -> Forall2 (retargets M) B B' -> items_eq A' B'.
Proof.
  intros He. revert A' B'. induction He as [|x y A B Hxy _ IH]; intros A' B' HA HB;
    inversion HA; inversion HB; subst; constructor; [by eapply retargets_eqb|by apply IH].
Qed.

Lemma unified_retargets M items items' p :
  Forall2 (retargets M) items items' -> unified items p -> unified items' p.
Proof.
  intros Hr (i & j & Ha & He & Hij & Heq). exists i, j.
  split; [by eapply tag_at_retargets|]. split; [by eapply tag_at_retargets|]. split; [done|].
  eapply items_eq_retargets; [exact Heq|..]; apply retargets_blockItems; by apply Forall2_drop.
Qed.

Lemma no_self_blockItems l : no_self l -> no_self (blockItems l).
Proof.
  induction 1 as [|it l Hit _ IH]; [by constructor|]. cbn. destruct (is_tag it); [done|].
  constructor; [done|]. destruct (stops it); [by constructor|done].
Qed.

(** Items that are equal up to pushes of the own tag. *)
Lemma retargets_dereference M a e x y x' y' :
  0 <= a <= size_t_max -> 0 <= e <= size_t_max -> M !! a = Some e ->
  item_eqb x pushSelf = false -> item_eqb y pushSelf = false ->
  item_eqb (dereference (Some (dataItem PushTag a noLocation)) (Some pushSelf) x)
           (dereference (Some (dataItem PushTag e noLocation)) (Some pushSelf) y) = true ->
  retargets M x x' -> retargets M y y' -> item_eqb x' y' = true.
Proof.
  intros Ha He HM Hx Hy. unfold dereference.
  destruct (item_eqb x (dataItem PushTag a noLocation)) eqn:Ex,
    (item_eqb y (dataItem PushTag e noLocation)) eqn:Ey; intros Hxy.
  - by apply (retargets_own M a e).
  - assert (item_eqb y pushSelf = true) as E by (by apply item_eqb_sym). congruence.
  - congruence.
  - by apply retargets_eqb.
Qed.

Lemma equal_blocks_retargets M items items' p :
  tags_ok items -> no_self items -> M !! fst p = Some (snd p) ->
  Forall2 (retargets M) items items' -> equal_blocks items p -> unified items' p.
Proof.
  intros [Hl _] Hn HM Hr (i & j & Ha & He & Hij & Heq). exists i, j.
  split; [by eapply tag_at_retargets|]. split; [by eapply tag_at_retargets|]. split; [done|].
  unfold blockSequence in Heq. rewrite (tag_at_push _ _ _ Ha), (tag_at_push _ _ _ He) in Heq.
  apply (tag_at_local _ _ _ Hl) in Ha, He.
  pose proof (no_self_blockItems _ (Forall_drop _ i _ Hn)) as Hi.
  pose proof (no_self_blockItems _ (Forall_drop _ j _ Hn)) as Hj.
  pose proof (retargets_blockItems _ _ _ (Forall2_drop _ _ _ i Hr)) as Hri.
  pose proof (retargets_blockItems _ _ _ (Forall2_drop _ _ _ j Hr)) as Hrj.
  revert Heq Hi Hj Hri Hrj. generalize (blockItems (drop i items)), (blockItems (drop j items)),
    (blockItems (drop i items')), (blockItems (drop j items')). clear -Ha He HM.
  intros A B A' B' Heq. revert B A' B' Heq. induction A as [|x A IH]; intros B A' B' Heq HA HB HrA HrB.
  - inversion Heq as [E|]; destruct B; [|done]. inversion HrA; inversion HrB; subst. constructor.
  - destruct B as [|y B]; [inversion Heq|]. cbn in Heq. apply Forall2_cons in Heq as [Hxy Heq].
    apply Forall_cons in HA as [Hx HA], HB as [Hy HB].
    inversion HrA as [|? x' ? A1 Hrx HrA']; inversion HrB as [|? y' ? B1 Hry HrB']; subst.
    constructor; [by eapply (retargets_dereference M (fst p) (snd p) x y)|by eapply IH].
Qed.

(** ** A round *)

Lemma findBlocks_entries m_items : forall items i seen M,
  items = drop i m_items -> Forall (fun j => (j < i)%nat /\ exists e, tag_at m_items j e) seen ->
  forall a e, findBlocks m_items items i seen M !! a = Some e -> M !! a = Some e \/ equal_blocks m_items (a, e).
Proof.
  induction items as [|it items IH]; intros i seen M Hd Hseen a e; [by left|]. cbn [findBlocks].
  assert (items = drop (S i) m_items) as Hd'.
  { rewrite <- Nat.add_1_r, <- drop_drop, <- Hd. done. }
  assert (m_items !! i = Some it) as Hit.
  { rewrite <- (Nat.add_0_r i), <- lookup_drop, <- Hd. done. }
  assert (Forall (fun j => (j < S i)%nat /\ exists e, tag_at m_items j e) seen) as Hseen'.
  { eapply Forall_impl; [exact Hseen|]. intros j [Hj ?]. split; [lia|done]. }
  destruct (is_tag it) eqn:Ht; cbn [negb]; [|by apply IH].
  assert (tag_at m_items i (m_data it)) as Hat by by exists it.
  destruct (findSeen m_items i seen) as [j|] eqn:Hf.
  - apply findSeen_incomparable in Hf as [Hin Hinc]. rewrite List.Forall_forall in Hseen.
    destruct (Hseen j Hin) as (Hj & e' & He'). intros Hl. apply IH in Hl as [Hl|Hl]; [|by right|done|done].
    rewrite lookup_insert in Hl. case_decide as E; [|by left]. injection Hl as Hl. subst a. right.
    pose proof He' as (u & Hu & _ & Hue). rewrite Hu in Hl. exists i, j. cbn [fst snd].
    split; [done|]. split; [by rewrite <- Hl, Hue|]. split; [done|]. by apply incomparable_sequence.
  - apply IH; [done|]. apply Forall_app_2; [done|]. apply Forall_singleton. split; [lia|by exists (m_data it)].
Qed.

Lemma applyTagReplacement_retargets fuel M : forall items c items',
  applyTagReplacement fuel items M size_t_max = Ret (c, items') ->
  Forall2 (retargets M) items items' /\
  (c = true <-> Exists (fun it => is_Some (pushedTag it ≫= fun a => M !! a)) items).
Proof.
  induction items as [|it items IH]; intros c items'; cbn [applyTagReplacement].
  - intros [= <- <-]. split; [constructor|]. split; [done|inversion 1].
  - destruct (replaceTag fuel M size_t_max it) as [[c1 it']| |] eqn:E; cbn [mbind Result_bind]; [|done|done].
    destruct (applyTagReplacement fuel items M size_t_max) as [[c2 items1]| |] eqn:E2; cbn [mbind Result_bind]; [|done|done].
    intros [= <- <-]. destruct (IH _ _ eq_refl) as [Hr Hc]. apply replaceTag_retargets in E as [Hit ->].
    split; [by constructor|]. by rewrite orb_true_iff, bool_decide_eq_true, Exists_cons, Hc.
Qed.

Lemma applyTagReplacement_returns fuel M r items :
  descending M r -> (forall a e, M !! a = Some e -> (r e < fuel)%nat) ->
  exists c items', applyTagReplacement fuel items M size_t_max = Ret (c, items').
Proof.
  intros Hd Hf. induction items as [|it items IH]; [by do 2 eexists|]. cbn [applyTagReplacement].
  destruct (replaceTag_returns fuel M r it Hd Hf) as (c & it' & ->). destruct IH as (c' & items' & ->).
  by do 2 eexists.
Qed.

Lemma retargets_ids M items items' :
  Forall2 (retargets M) items items' ->
  tag_ids items' = tag_ids items /\ (Forall local_tag items -> Forall local_tag items') /\
  forall a, tagIndex items' a = tagIndex items a.
Proof.
  induction 1 as [|it it' l l' Hr _ (Hids & Hl & Hi)]; [done|].
  destruct (retargets_tag _ _ _ Hr) as [Ht Heq]. unfold tag_ids in *. cbn [List.filter tagIndex]. rewrite Ht.
  split; [|split].
  - destruct (is_tag it) eqn:E; [|done]. cbn [map]. by rewrite Hids, Heq.
  - intros [Hit Hf]%Forall_cons. constructor; [|by apply Hl]. intros Hty. rewrite Heq; [by apply Hit; rewrite <- (proj1 (retargets_type _ _ _ Hr))|].
    rewrite <- Ht. by apply bool_decide_eq_true.
  - intros a. rewrite Hi. destruct (is_tag it) eqn:E; [by rewrite Heq|done].
Qed.

Lemma pushedTag_set it z : m_type it = PushTag -> 0 <= z <= size_t_max -> pushedTag (setData it z) = Some z.
Proof.
  intros Ht Hz. unfold pushedTag. cbn [setData m_type]. rewrite Ht. rewrite split_local; [done| |done].
  unfold isTagItem. cbn. by rewrite Ht.
Qed.

(** The values of the replacements are ids of tags. *)
Definition local_values (M : gmap Z Z) : Prop := forall a e, M !! a = Some e -> 0 <= e <= size_t_max.

Lemma final_local M a e z : local_values M -> M !! a = Some e -> final M e z -> 0 <= z <= size_t_max.
Proof. intros Hl He Hz. apply final_value in Hz as [->|[a' Ha']]; by eapply Hl. Qed.

Lemma retargets_no_self M items items' :
  local_values M -> no_self items -> Forall2 (retargets M) items items' -> no_self items'.
Proof.
  intros Hl Hn Hr. induction Hr as [|it it' l l' Hit _ IH]; [done|]. apply Forall_cons in Hn as [Hi Hn].
  constructor; [|by apply IH]. apply retargets_cases in Hit as [->|(_ & a & e & z & _ & He & Hz & ->)]; [done|].
  apply not_true_iff_false. intros [_ Hd]%item_eqb_push. cbn in Hd.
  rewrite mod_local in Hd by (by eapply final_local). pose proof (final_local _ _ _ _ Hl He Hz) as Hz'.
  rewrite Hd in Hz'. vm_compute in Hz'. by destruct Hz'.
Qed.

(** ** The places of the pushed tags *)

Section Places.
Context (r : Z -> nat).

Definition place (it : AssemblyItem) : nat := match pushedTag it with Some a => r a | None => 0 end.
Definition places (items : list AssemblyItem) : nat := list_sum (map place items).

Lemma retargets_place M it it' :
  descending M r -> local_values M -> retargets M it it' ->
  (place it' <= place it)%nat /\
  (is_Some (pushedTag it ≫= fun a => M !! a) -> (place it' < place it)%nat).
Proof using.
  intros Hd Hl Hr. pose proof Hr as Hr'. apply retargets_cases in Hr as [->|(Ht & a & e & z & Hp & He & Hz & ->)].
  - split; [done|]. intros [e He]. unfold retargets in Hr'. rewrite He in Hr'.
    destruct Hr' as (z & Hz & Hit). destruct (pushedTag it) as [a|] eqn:Hp; [|done]. cbn in He.
    assert (m_type it = PushTag) as Ht by (unfold pushedTag in Hp; by destruct (m_type it)).
    rewrite mod_local in Hit by (by eapply final_local).
    pose proof (pushedTag_set it z Ht ltac:(by eapply final_local)) as Hp'. rewrite <- Hit, Hp in Hp'.
    injection Hp' as ->. apply final_none in Hz. congruence.
  - unfold place. rewrite mod_local by (by eapply final_local). rewrite Hp, (pushedTag_set it z Ht) by (by eapply final_local).
    pose proof (Hd _ _ He). pose proof (final_descending _ _ _ _ Hd Hz). split; [lia|]. intros _. lia.
Qed.

Lemma retargets_places M items items' :
  descending M r -> local_values M -> Forall2 (retargets M) items items' ->
  (places items' <= places items)%nat /\
  (Exists (fun it => is_Some (pushedTag it ≫= fun a => M !! a)) items -> (places items' < places items)%nat).
Proof using.
  intros Hd Hl. unfold places. induction 1 as [|it it' l l' Hr _ [IHle IHlt]]; [split; [done|inversion 1]|].
  cbn [map list_sum foldr]. fold (list_sum (map place l)) (list_sum (map place l')).
  destruct (retargets_place M it it' Hd Hl Hr) as [Hle Hlt]. split; [lia|].
  intros [Hx|Hx]%Exists_cons; [apply Hlt in Hx|apply IHlt in Hx]; lia.
Qed.
End Places.

(** ** All rounds *)

(** The pairs of tags unified so far. *)
Record rounds_ok (items : list AssemblyItem) (pairs : list (Z * Z)) (M : gmap Z Z) : Prop := {
  ro_tags : tags_ok items;
  ro_self : no_self items;
  ro_unified : Forall (unified items) pairs;
  ro_replaced : forall a e, M !! a = Some e -> In (a, e) pairs }.

(** [it'] is [it], or pushes a tag that the tag [it] pushes is unified with. *)
Definition moves (pairs : list (Z * Z)) (it it' : AssemblyItem) : Prop :=
  it' = it \/ exists a z, m_type it = PushTag /\ pushedTag it = Some a /\ rtc (fun a e => In (a, e) pairs) a z /\
    it' = setData it z /\ pushedTag it' = Some z.

Lemma final_rtc M pairs s z : (forall a e, M !! a = Some e -> In (a, e) pairs) -> final M s z ->
  rtc (fun a e => In (a, e) pairs) s z.
Proof. intros HM. induction 1 as [|s s' z E _ IH]; [done|]. eapply rtc_l; [by apply HM|done]. Qed.

Lemma retargets_moves M pairs it it' :
  local_values M -> (forall a e, M !! a = Some e -> In (a, e) pairs) -> retargets M it it' -> moves pairs it it'.
Proof.
  intros Hl HM [->|(Ht & a & e & z & Hp & He & Hz & ->)]%retargets_cases; [by left|]. right. exists a, z.
  rewrite mod_local by (by eapply final_local). split; [done|]. split; [done|]. split.
  - eapply rtc_l; [by apply HM|]. by eapply final_rtc.
  - split; [done|]. apply pushedTag_set; [done|]. by eapply final_local.
Qed.

Lemma moves_trans pairs it it1 it' : moves pairs it it1 -> moves pairs it1 it' -> moves pairs it it'.
Proof.
  intros [->|(a & z & Ht & Hp & Hr & -> & Hp')]; [done|].
  intros [->|(a1 & z1 & Ht1 & Hp1 & Hr1 & -> & Hp1')]; right; [by exists a, z|]. exists a, z1.
  rewrite Hp' in Hp1. injection Hp1 as <-. split; [done|]. split; [done|]. split; [by etrans|done].
Qed.

Lemma moves_incl pairs pairs' it it' : incl pairs pairs' -> moves pairs it it' -> moves pairs' it it'.
Proof.
  intros Hi [->|(a & z & Ht & Hp & Hr & Hm)]; [by left|]. right. exists a, z. split; [done|]. split; [done|]. split; [|done].
  eapply rtc_subrel; [|exact Hr]. intros x y Hxy. by apply Hi.
Qed.

Lemma unified_index items a e : NoDup (tag_ids items) -> unified items (a, e) -> (tagIndex items e < tagIndex items a)%nat.
Proof.
  intros Hn (i & j & Hi & Hj & Hij & _). cbn in *. by rewrite (tag_at_index _ _ _ Hn Hi), (tag_at_index _ _ _ Hn Hj).
Qed.

(** The replacements a round finds. *)
Lemma findBlocks_spec items pairs M : rounds_ok items pairs M ->
  let M1 := findBlocks items items 0 [] M in
  descending M1 (tagIndex items) /\ local_values M1 /\
  forall a e, M1 !! a = Some e -> In (a, e) pairs \/ equal_blocks items (a, e).
Proof.
  intros [Ht Hs Hu HM] M1.
  assert (forall a e, M1 !! a = Some e -> In (a, e) pairs \/ equal_blocks items (a, e)) as HM1.
  { intros a e He. apply findBlocks_entries in He as [He|He]; [by left; apply HM|by right|done|done]. }
  assert (forall a e, M1 !! a = Some e -> exists i j, tag_at items i a /\ tag_at items j e /\ (j < i)%nat) as Hat.
  { intros a e [Hin|(i & j & Hi & Hj & Hij & _)]%HM1; [|by exists i, j]. rewrite List.Forall_forall in Hu.
    destruct (Hu _ Hin) as (i & j & Hi & Hj & Hij & _). by exists i, j. }
  split; [|split; [|done]]; intros a e (i & j & Hi & Hj & Hij)%Hat.
  - by rewrite (tag_at_index _ _ _ (tags_distinct _ Ht) Hi), (tag_at_index _ _ _ (tags_distinct _ Ht) Hj).
  - by apply (tag_at_local _ _ _ (tags_local _ Ht) Hj).
Qed.

Lemma retargets_none M items items' :
  Forall2 (retargets M) items items' ->
  (forall it, In it items -> (pushedTag it ≫= fun a => M !! a) = None) -> items' = items.
Proof.
  induction 1 as [|it it' l l' Hit _ IH]; intros Hn; [done|]. f_equal; [|by apply IH; intros; apply Hn; right].
  unfold retargets in Hit. by rewrite (Hn it (or_introl eq_refl)) in Hit.
Qed.

Lemma round_spec fuel items pairs M c items' :
  rounds_ok items pairs M -> let M1 := findBlocks items items 0 [] M in
  applyTagReplacement fuel items M1 size_t_max = Ret (c, items') ->
  exists pairs', incl pairs pairs' /\ rounds_ok items' pairs' M1 /\ Forall2 (moves pairs') items items' /\
    (forall a, tagIndex items' a = tagIndex items a) /\
    if c then (places (tagIndex items) items' < places (tagIndex items) items)%nat
    else items' = items /\ forall it a, In it items -> pushedTag it = Some a -> M1 !! a = None.
Proof.
  intros Hok M1 [Hr Hc]%applyTagReplacement_retargets. destruct (findBlocks_spec items pairs M Hok) as (Hd & Hl & HM1).
  fold M1 in Hd, Hl, HM1. destruct Hok as [[Htl Htd] Hs Hu HM]. exists (pairs ++ map_to_list M1).
  assert (forall a e, M1 !! a = Some e -> In (a, e) (pairs ++ map_to_list M1)) as Hin.
  { intros a e He. apply in_or_app. right. by apply list_elem_of_In, elem_of_map_to_list. }
  destruct (retargets_ids _ _ _ Hr) as (Hids & Hloc & Hidx).
  split; [intros x Hx; apply in_or_app; by left|]. split; [split|split; [|split; [done|]]].
  - split; [by apply Hloc|]. by rewrite Hids.
  - by eapply retargets_no_self.
  - apply Forall_app_2; [eapply Forall_impl; [exact Hu|]; intros p Hp; by eapply unified_retargets|].
    apply List.Forall_forall. intros [a e] He%list_elem_of_In%elem_of_map_to_list. pose proof He as He'.
    apply HM1 in He' as [He'|He']; [|by eapply equal_blocks_retargets].
    rewrite List.Forall_forall in Hu. eapply unified_retargets; [exact Hr|by apply Hu].
  - done.
  - eapply Forall2_impl; [exact Hr|]. intros it it' Hit. by eapply retargets_moves.
  - destruct (retargets_places _ M1 items items' Hd Hl Hr) as [_ Hlt]. destruct c; [by apply Hlt, Hc|].
    assert (forall it, In it items -> (pushedTag it ≫= fun a => M1 !! a) = None) as Hnone.
    { intros it Hit. apply eq_None_not_Some. intros Hx. assert (false = true); [|done]. apply Hc, List.Exists_exists. by exists it. }
    split.
    + by eapply retargets_none.
    + intros it a Hit Hp. specialize (Hnone it Hit). by rewrite Hp in Hnone.
Qed.

Lemma deduplicateLoop_spec fuel : forall k items pairs M k' items' M',
  rounds_ok items pairs M -> deduplicateLoop fuel k items M = Ret (k', items', M') ->
  exists pairs', incl pairs pairs' /\ rounds_ok items' pairs' M' /\ Forall2 (moves pairs') items items' /\ k <= k' /\
    (k' = k -> items' = items) /\ forall it a, In it items' -> pushedTag it = Some a -> M' !! a = None.
Proof.
  induction fuel as [|fuel IH]; intros k items pairs M k' items' M' Hok; [done|]. cbn [deduplicateLoop].
  destruct (applyTagReplacement (S fuel) items _ size_t_max) as [[c items1]| |] eqn:E; cbn [mbind Result_bind]; [|done|done].
  destruct (round_spec _ _ _ _ _ _ Hok E) as (pairs1 & Hi1 & Hok1 & Hm1 & _ & Hc). destruct c.
  - intros Hl. destruct (IH _ _ _ _ _ _ _ Hok1 Hl) as (pairs' & Hi & Hok' & Hm & Hk & _ & Hn). exists pairs'.
    split; [by eapply incl_tran|]. split; [done|]. split; [|split; [lia|split; [lia|done]]].
    revert Hm1 Hm. clear -Hi. intros Hm1. revert items'. induction Hm1 as [|it it1 l l1 Hit _ IH]; intros items' Hm.
    + inversion Hm; subst. constructor.
    + inversion Hm as [|? it' ? l' Hit' Hl']; subst. constructor; [|by apply IH].
      eapply moves_trans; [|exact Hit']. by eapply moves_incl.
  - intros [= <- <- <-]. destruct Hc as [-> Hn]. by exists pairs1.
Qed.

Lemma tagIndex_length items a : (tagIndex items a <= length items)%nat.
Proof. induction items as [|it items IH]; [done|]. cbn. destruct (_ && _); lia. Qed.

Lemma deduplicateLoop_returns fuel : forall k items pairs M,
  rounds_ok items pairs M -> (places (tagIndex items) items + length items < fuel)%nat ->
  exists k' items' M', deduplicateLoop fuel k items M = Ret (k', items', M').
Proof.
  induction fuel as [|fuel IH]; intros k items pairs M Hok Hf; [lia|]. cbn [deduplicateLoop].
  destruct (findBlocks_spec _ _ _ Hok) as (Hd & _ & _).
  destruct (applyTagReplacement_returns (S fuel) _ _ items Hd) as (c & items1 & E).
  { intros a e _. pose proof (tagIndex_length items e). lia. }
  rewrite E. cbn [mbind Result_bind]. destruct (round_spec _ _ _ _ _ _ Hok E) as (pairs1 & _ & Hok1 & Hm & Hi & Hc).
  destruct c; [|by do 3 eexists]. eapply IH; [exact Hok1|]. rewrite <- (Forall2_length _ _ _ Hm).
  assert (places (tagIndex items1) items1 = places (tagIndex items) items1) as ->; [|lia].
  unfold places. f_equal. apply map_ext. intros it. unfold place. destruct (pushedTag it); [apply Hi|done].
Qed.

(** A round that changes something, and so all of them, lowers the sum of the places. *)
Lemma deduplicateLoop_places fuel : forall k items pairs M k' items' M',
  rounds_ok items pairs M -> deduplicateLoop fuel k items M = Ret (k', items', M') ->
  k' = k /\ items' = items \/
  k < k' /\ (places (tagIndex items') items' < places (tagIndex items) items)%nat.
Proof.
  induction fuel as [|fuel IH]; intros k items pairs M k' items' M' Hok; [done|]. cbn [deduplicateLoop].
  destruct (applyTagReplacement (S fuel) items _ size_t_max) as [[c items1]| |] eqn:E; cbn [mbind Result_bind]; [|done|done].
  destruct (round_spec _ _ _ _ _ _ Hok E) as (pairs1 & _ & Hok1 & _ & Hi & Hc). destruct c.
  - assert (places (tagIndex items1) items1 = places (tagIndex items) items1) as Hp.
    { unfold places. f_equal. apply map_ext. intros it. unfold place. destruct (pushedTag it); [apply Hi|done]. }
    intros Hl. right. destruct (IH _ _ _ _ _ _ _ Hok1 Hl) as [[-> ->]|[Hk Hlt]]; lia.
  - intros [= <- <- <-]. left. by destruct Hc.
Qed.

(** ** More fuel *)

Lemma lastReplacement_mono fuel fuel' M s z :
  (fuel <= fuel')%nat -> lastReplacement fuel M s = Ret z -> lastReplacement fuel' M s = Ret z.
Proof.
  revert fuel' s. induction fuel as [|fuel IH]; intros fuel' s Hf; [done|]. destruct fuel' as [|fuel']; [lia|].
  cbn [lastReplacement]. destruct (M !! s); [|done]. apply IH. lia.
Qed.

Lemma replaceTag_mono fuel fuel' M subId it r :
  (fuel <= fuel')%nat -> replaceTag fuel M subId it = Ret r -> replaceTag fuel' M subId it = Ret r.
Proof.
  intros Hf. unfold replaceTag. destruct (m_type it); try done.
  destruct (lift (splitForeignPushTag it)) as [[sub tag]| |]; cbn [mbind Result_bind]; try done.
  destruct (negb (sub =? subId)); [done|]. destruct (M !! tag) as [e|]; [|done].
  destruct (lastReplacement fuel M e) as [z| |] eqn:E; cbn [mbind Result_bind]; [|done|done].
  by rewrite (lastReplacement_mono _ _ _ _ _ Hf E).
Qed.

Lemma applyTagReplacement_mono fuel fuel' M subId items r :
  (fuel <= fuel')%nat -> applyTagReplacement fuel items M subId = Ret r -> applyTagReplacement fuel' items M subId = Ret r.
Proof.
  intros Hf. revert r. induction items as [|it items IH]; intros r; [done|]. cbn [applyTagReplacement].
  destruct (replaceTag fuel M subId it) as [[c it']| |] eqn:E; cbn [mbind Result_bind]; [|done|done].
  rewrite (replaceTag_mono _ _ _ _ _ _ Hf E). cbn [mbind Result_bind].
  destruct (applyTagReplacement fuel items M subId) as [[c' l]| |]; cbn [mbind Result_bind]; [|done|done].
  by rewrite (IH _ eq_refl).
Qed.

Lemma deduplicateLoop_mono fuel : forall fuel' k items M r,
  (fuel <= fuel')%nat -> deduplicateLoop fuel k items M = Ret r -> deduplicateLoop fuel' k items M = Ret r.
Proof.
  induction fuel as [|fuel IH]; intros fuel' k items M r Hf; [done|]. destruct fuel' as [|fuel']; [lia|].
  cbn [deduplicateLoop]. set (M1 := findBlocks items items 0 [] M).
  destruct (applyTagReplacement (S fuel) items M1 size_t_max) as [[c l]| |] eqn:E; cbn [mbind Result_bind]; [|done|done].
  rewrite (applyTagReplacement_mono _ _ _ _ _ _ Hf E). cbn [mbind Result_bind]. destruct c; [|done]. apply IH. lia.
Qed.

Lemma deduplicate_mono fuel fuel' items r :
  (fuel <= fuel')%nat -> deduplicate fuel items = Ret r -> deduplicate fuel' items = Ret r.
Proof.
  intros Hf. unfold deduplicate. destruct (_ || _); [done|].
  destruct (deduplicateLoop fuel 0 items ∅) as [[[k l] M]| |] eqn:E; cbn [mbind Result_bind]; [|done|done].
  by rewrite (deduplicateLoop_mono _ _ _ _ _ _ Hf E).
Qed.
