(* ===== verification/TagTheorems.v ===== *)
(** * TagTheorems: the contracts of JumpdestRemover and BlockDeduplicator

    Removing tags is safe for code that only jumps to tags that are referred to; unified tags are
    interchangeable in the code [deduplicate] returns; where each jump goes to one of several
    unified tags, both steps together keep the behaviour of the code. *)

From Stdlib Require Import Relations.
From S2P Require Import Prelude U256 Instruction AssemblyItem SemanticInformation JumpdestRemover BlockDeduplicator Machine BlockRun BlockOrder BlockSound Interpreter RuleSound InterpreterWorld.

(** The tag at an address, in the items that are kept. *)
Lemma destination_kept {W H} `{!World W H} keep q a :
  match destination (List.filter keep q) a with
  | Some c => exists i t, q !! i = Some t /\ is_tag t = true /\ keep t = true /\ addr (m_data t) = a /\
      c = List.filter keep (drop i q)
  | None => forall t, In t q -> is_tag t = true -> keep t = true -> addr (m_data t) <> a
  end.
Proof.
  induction q as [|it q IH]; [by intros t []|]. cbn [List.filter].
  assert (match destination (List.filter keep q) a with
          | Some c => exists i t, (it :: q) !! i = Some t /\ is_tag t = true /\ keep t = true /\ addr (m_data t) = a /\
              c = List.filter keep (drop i (it :: q))
          | None => forall t, In t q -> is_tag t = true -> keep t = true -> addr (m_data t) <> a
          end) as IH'.
  { destruct (destination _ a); [|done]. destruct IH as (i & t & Hi & Ht). by exists (S i), t. }
  destruct (keep it) eqn:Hk.
  - cbn [destination]. fold (is_tag it).
    destruct (is_tag it && (addr (m_data it) =? a)) eqn:E.
    + apply andb_true_iff in E as [Ht Ha%Z.eqb_eq]. exists 0%nat, it. cbn. by rewrite Hk.
    + destruct (destination _ a); [done|]. intros t [<-|Hin] Ht Hkt; [|by apply IH'].
      rewrite Ht in E. cbn in E. by apply Z.eqb_neq in E.
  - destruct (destination _ a); [done|]. intros t [<-|Hin] Ht Hkt; [congruence|by apply IH'].
Qed.

Lemma destination_filter {W H} `{!World W H} keep q a :
  (forall t, In t q -> addr (m_data t) = a -> keep t = true) ->
  destination (List.filter keep q) a = List.filter keep <$> destination q a.
Proof.
  induction q as [|it q IH]; intros Hk; [done|]. cbn [List.filter destination].
  specialize (IH (fun t Hin => Hk t (or_intror Hin))).
  destruct (bool_decide (m_type it = Tag) && (addr (m_data it) =? a)) eqn:E.
  - pose proof E as [_ Ha%Z.eqb_eq]%andb_true_iff. rewrite (Hk it (or_introl eq_refl) Ha). cbn [destination].
    rewrite E. cbn. by rewrite (Hk it (or_introl eq_refl) Ha).
  - destruct (keep it); [|done]. cbn [destination]. by rewrite E.
Qed.

Lemma filter_all {A} (l : list A) : List.filter (fun _ => true) l = l.
Proof. induction l as [|x l IH]; [done|]. cbn. by rewrite IH. Qed.

Lemma destination_at {W H} `{!World W H} q a :
  match destination q a with
  | Some c => exists i t, q !! i = Some t /\ is_tag t = true /\ addr (m_data t) = a /\ c = drop i q
  | None => forall t, In t q -> is_tag t = true -> addr (m_data t) <> a
  end.
Proof.
  pose proof (destination_kept (fun _ => true) q a) as Hd. rewrite filter_all in Hd.
  destruct (destination q a); [|naive_solver]. destruct Hd as (i & t & Hi & Ht & _ & Ha & ->).
  exists i, t. by rewrite filter_all.
Qed.

(** A jump to an address goes to the same items when tags are removed, if all the tags at the
    address have the same items and one of them is kept. *)
Lemma kept_target {W H} `{!World W H} keep p a :
  (forall it, is_tag it = false -> keep it = true) ->
  (forall i j t u, p !! i = Some t -> p !! j = Some u -> is_tag t = true -> is_tag u = true ->
     addr (m_data t) = a -> addr (m_data u) = a ->
     items_eq (blockItems (drop i p)) (blockItems (drop j p))) ->
  (forall t, In t p -> is_tag t = true -> addr (m_data t) = a ->
     exists u, In u p /\ is_tag u = true /\ keep u = true /\ addr (m_data u) = a) ->
  same_target p (List.filter keep p) a.
Proof.
  intros Hk Heq Hkept. unfold same_target. pose proof (destination_at p a) as Hd.
  pose proof (destination_kept keep p a) as Hd'.
  destruct (destination p a) as [c|], (destination (List.filter keep p) a) as [c'|].
  - destruct Hd as (i & t & Hi & Ht & Ha & ->), Hd' as (j & u & Hj & Hu & _ & Ha' & ->).
    rewrite blockItems_filter by done. by eapply Heq.
  - destruct Hd as (i & t & Hi & Ht & Ha & ->). destruct (Hkept t) as (u & Hin & Hu & Hku & Hua); [|done|done|].
    + by apply list_elem_of_In, list_elem_of_lookup_2 with i.
    + by destruct (Hd' u Hin Hu Hku).
  - destruct Hd' as (j & u & Hj & Hu & _ & Ha' & ->). destruct (Hd u); [|done|done].
    by apply list_elem_of_In, list_elem_of_lookup_2 with j.
  - done.
Qed.

(** ** JumpdestRemover *)

(** The references [optimise] finds. *)
Definition references (outside : gset Z) (p : list AssemblyItem) : gset Z := referencedTags p size_t_max ∪ outside.

(** On tags of the assembly itself, [JumpdestRemover::optimise] returns the items without
    the unreferenced tags and whether there were any; nothing is left to remove then. *)
Theorem jumpdest_returns outside p :
  Forall local_tag p -> exists changed p',
    JumpdestRemover.optimise outside p = Some (changed, p') /\
    (changed = true <-> exists t, In t p /\ is_tag t = true /\ m_data t ∉ references outside p) /\
    (forall it, In it p' <-> In it p /\ (is_tag it = true -> m_data it ∈ references outside p)) /\
    JumpdestRemover.optimise outside p' = Some (false, p').
Proof.
  intros Hl. set (R := references outside p). set (p' := List.filter (kept_tag R) p).
  assert (forall it, kept_tag R it = true <-> (is_tag it = true -> m_data it ∈ R)) as Hk.
  { intros it. unfold kept_tag, is_tag. rewrite orb_true_iff, negb_true_iff, bool_decide_eq_false, !bool_decide_eq_true.
    destruct (decide (m_type it = Tag)); naive_solver. }
  exists (negb (Nat.eqb (length p') (length p))), p'.
  split; [by apply optimise_local|]. split; [|split].
  - rewrite negb_true_iff, Nat.eqb_neq. unfold p'. rewrite filter_length_all. split.
    + intros Hn. destruct (List.existsb (fun it => negb (kept_tag R it)) p) eqn:E.
      * apply List.existsb_exists in E as (t & Hin & Ht). exists t. split; [done|]. unfold kept_tag in Ht.
        rewrite negb_orb, negb_involutive, andb_true_iff, negb_true_iff, bool_decide_eq_false in Ht. by destruct Ht.
      * destruct Hn. intros x Hx. apply negb_false_iff. rewrite <- not_true_iff_false in E |- *.
        intros Hf. apply E, List.existsb_exists. by exists x.
    + intros (t & Hin & Ht & Hn) Hall. by apply Hn, Hk; [apply Hall|].
  - intros it. unfold p'. by rewrite List.filter_In, Hk.
  - assert (references outside p' = R) as HR.
    { unfold references. assert (referencedTags p' size_t_max = referencedTags p size_t_max) as ->; [|done].
      apply referencedTags_filter. intros it Ht. apply Hk. unfold is_tag. by rewrite Ht. }
    assert (Forall local_tag p') as Hl'.
    { rewrite List.Forall_forall in Hl |- *. intros it [Hin _]%List.filter_In. by apply Hl. }
    rewrite optimise_local by done. change (referencedTags p' size_t_max ∪ outside) with (references outside p').
    rewrite HR. unfold p' at 1 3. rewrite filter_twice. fold p'. by rewrite Nat.eqb_refl.
Qed.

Section Jumpdest.
Context {W H : Type} `{!World W H} `{!WorldLaws W H}.

(** C19 Removing the tags no push and no other assembly refers to does not change what code does
    that never jumps to one of them: it ends exactly as before, and only then. *)
Theorem jumpdest_preserves outside p changed p' st w :
  JumpdestRemover.optimise outside p = Some (changed, p') ->
  (forall t, In t p -> is_unreferenced (references outside p) t = true -> ~ jumps p p st w (addr (m_data t))) ->
  forall o, evaluates p p st w o <-> evaluates p' p' st w o.
Proof.
  intros [-> _]%optimise_kept Hj o. fold (references outside p) in *. set (keep := is_kept (references outside p)).
  assert (forall it, is_tag it = false -> keep it = true) as Hk.
  { intros it Ht%bool_decide_eq_false. by apply is_kept_tags. }
  assert (forall a, jumps p p st w a -> forall t, In t p -> addr (m_data t) = a -> keep t = true) as Hkept.
  { intros a Ha t Hin <-. apply negb_true_iff, not_true_iff_false. intros Hu. by eapply Hj. }
  rewrite (same_items_evaluate p (List.filter keep p) p (List.filter keep p)); [done|by rewrite blockItems_filter|].
  intros a Ha. unfold same_target. rewrite destination_filter by (by apply Hkept).
  destruct (destination p a); [|done]. cbn. by rewrite blockItems_filter.
Qed.
End Jumpdest.

(** ** BlockDeduplicator *)

Lemma destination_tag_at {W H} `{!World W H} p i d c :
  NoDup (tag_ids p) -> (forall t u, In t p -> In u p -> is_tag t = true -> is_tag u = true ->
    addr (m_data t) = addr (m_data u) -> m_data t = m_data u) ->
  tag_at p i d -> destination p (addr d) = Some c -> c = drop i p.
Proof.
  intros Hn Hinj Hi Hd. pose proof (destination_at p (addr d)) as Ha. rewrite Hd in Ha.
  destruct Ha as (j & u & Hj & Hu & Ha & ->). pose proof Hi as (t & Hl & Ht & Htd).
  assert (m_data u = d) as Hud.
  { rewrite <- Htd in Ha |- *. apply Hinj; try done; by apply list_elem_of_In; eapply list_elem_of_lookup_2. }
  assert (tag_at p j d) as Hj' by by exists u.
  by rewrite <- (tag_at_index _ _ _ Hn Hi), (tag_at_index _ _ _ Hn Hj').
Qed.

Lemma deduplicate_ok p :
  tags_ok p -> existsb (fun item => item_eqb item (dataItem PushTag (m_data pushSelf) noLocation)) p = false ->
  rounds_ok p [] ∅.
Proof.
  intros Ht He. split; [done| |by constructor|done].
  apply List.Forall_forall. intros x Hx. apply not_true_iff_false. intros E. rewrite <- not_true_iff_false in He.
  apply He, List.existsb_exists. by exists x.
Qed.

(** The pairs of tags that are unified, for the items before and after. *)
Definition unifies (p p' : list AssemblyItem) (pairs : list (Z * Z)) : Prop :=
  Forall (unified p') pairs /\ Forall2 (moves pairs) p p'.

Lemma deduplicate_unifies fuel p changed p' M :
  tags_ok p -> deduplicate fuel p = Ret (changed, p', M) ->
  tags_ok p' /\ (changed = false -> p' = p) /\ exists pairs, unifies p p' pairs /\
    (forall a e, M !! a = Some e -> In (a, e) pairs) /\
    forall it a, In it p' -> pushedTag it = Some a -> M !! a = None.
Proof.
  intros Ht. unfold deduplicate. destruct (_ || _) eqn:E.
  - intros [= <- <- <-]. split; [done|]. split; [done|]. exists []. split; [|done].
    split; [by constructor|]. apply Forall2_same_length_lookup_2; [done|]. intros i x y Hx Hy. left. congruence.
  - apply orb_false_iff in E as [_ E].
    destruct (deduplicateLoop fuel 0 p ∅) as [[[k p1] M1]| |] eqn:Hl; cbn [mbind Result_bind]; [|done|done].
    intros [= <- <- <-].
    destruct (deduplicateLoop_spec fuel 0 p [] ∅ k p1 M1 (deduplicate_ok p Ht E) Hl)
      as (pairs & _ & [Htags _ Hu HM] & Hm & Hk & Hk0 & Hn).
    split; [done|]. split; [intros Hc%Z.ltb_ge; apply Hk0; lia|]. by exists pairs.
Qed.

(** Tags linked by pairs have the same items. *)
Lemma linked_items p pairs a b :
  NoDup (tag_ids p) -> Forall (unified p) pairs -> clos_refl_sym_trans _ (fun a e => In (a, e) pairs) a b ->
  a = b \/ exists i j, tag_at p i a /\ tag_at p j b /\ items_eq (blockItems (drop i p)) (blockItems (drop j p)).
Proof.
  intros Hn Hu. induction 1 as [a b Hin|a|a b _ IH|a b c _ IH1 _ IH2].
  - right. rewrite List.Forall_forall in Hu. destruct (Hu _ Hin) as (i & j & Hi & Hj & _ & He). by exists i, j.
  - by left.
  - destruct IH as [->|(i & j & Hi & Hj & He)]; [by left|right]. exists j, i. split; [done|]. split; [done|]. by symmetry.
  - destruct IH1 as [->|(i & j & Hi & Hj & He)]; [done|]. destruct IH2 as [<-|(j' & k & Hj' & Hk & He')]; [right; by exists i, j|].
    right. exists i, k. split; [done|]. split; [done|].
    rewrite <- (tag_at_index _ _ _ Hn Hj), (tag_at_index _ _ _ Hn Hj') in He. by etrans.
Qed.

(** A local push holds nothing but the id of its tag. *)
Definition proper_push (it : AssemblyItem) : Prop := forall a, pushedTag it = Some a -> m_data it = a.

Section Linked.
Context {W H : Type} `{!World W H} `{!WorldLaws W H}.

(** Items that do the same, tags being the same. *)
Definition same_exec (it it' : AssemblyItem) : Prop :=
  (forall st w, exec_item it st w = exec_item it' st w) /\ m_type it' = m_type it /\
  (m_type it = Tag -> m_data it' = m_data it).

Lemma same_exec_destination q q' a : Forall2 same_exec q q' ->
  match destination q a, destination q' a with
  | Some c, Some c' => Forall2 same_exec c c'
  | None, None => True
  | _, _ => False
  end.
Proof using.
  induction 1 as [|it it' q q' (Hx & Ht & Hd) Hq IH]; [done|]. cbn [destination]. rewrite Ht.
  case_bool_decide as E; [|done]. rewrite Hd by done. destruct (addr (m_data it) =? a); [|done]. by constructor.
Qed.

Lemma same_exec_run p p' n : Forall2 same_exec p p' -> forall code code' st w,
  Forall2 same_exec code code' -> run n p code st w = run n p' code' st w.
Proof using.
  intros Hp. induction n as [|n IH]; intros code code' st w Hc; [done|]. destruct Hc as [|it it' code code' (Hx & _) Hc]; [done|].
  cbn [run]. rewrite Hx. destruct (exec_item it' st w) as [st1 w1|a st1 w1|o]; [by apply IH| |done].
  pose proof (same_exec_destination p p' a Hp) as Hd. destruct (destination p a), (destination p' a); try done. by apply IH.
Qed.

Lemma same_exec_jumps p p' code' st w a : Forall2 same_exec p p' -> jumps p' code' st w a ->
  forall code, Forall2 same_exec code code' -> jumps p code st w a.
Proof using.
  intros Hp. induction 1 as [it' code' st w a st1 w1 Hx1|it' code' st w st1 w1 a Hx1 _ IH|it' code' st w b st1 w1 c' a Hx1 Hd' _ IH];
    intros code Hc; inversion Hc as [|it ? code1 ? (Hx & _) Hc1]; subst; rewrite <- Hx in Hx1.
  - by eapply jumps_here.
  - eapply jumps_next; [done|by apply IH].
  - pose proof (same_exec_destination p p' b Hp) as Hd. rewrite Hd' in Hd.
    destruct (destination p b) as [c|] eqn:E; [|done]. eapply jumps_there; [done|exact E|by apply IH].
Qed.

Context (p p' : list AssemblyItem) (pairs : list (Z * Z)).
Context (tags : tags_ok p') (p_unified : Forall (unified p') pairs).

(** In a world where unified tags have one address, the pushes of them are the same. *)
Lemma moves_exec it it' :
  (forall a e, In (a, e) pairs -> addr a = addr e) -> proper_push it -> moves pairs it it' -> same_exec it it'.
Proof using.
  intros Haddr Hp [->|(a & z & Ht & Ha & Hr & -> & _)]; [done|]. split; [|split; [done|cbn; congruence]].
  intros st w. unfold exec_item, push_value. cbn [setData m_type m_data]. rewrite Ht, (Hp a Ha). do 2 f_equal.
  clear -Haddr Hr. induction Hr as [|x y z Hxy _ IH]; [done|]. by rewrite (Haddr _ _ Hxy).
Qed.

Context (linked : forall t u, In t p' -> In u p' -> is_tag t = true -> is_tag u = true ->
  addr (m_data t) = addr (m_data u) <-> clos_refl_sym_trans _ (fun a e => In (a, e) pairs) (m_data t) (m_data u)).

Lemma pair_address a e : In (a, e) pairs -> addr a = addr e.
Proof using linked p_unified.
  intros Hin. destruct (proj1 (List.Forall_forall _ _) p_unified _ Hin) as (i & j & (t & Hi & Ht & Ha) & (u & Hj & Hu & He) & _).
  cbn in Ha, He. rewrite <- Ha, <- He. apply linked; try done; try (by apply list_elem_of_In; eapply list_elem_of_lookup_2).
  rewrite Ha, He. by apply rst_step.
Qed.

Lemma linked_target keep a :
  (forall it, is_tag it = false -> keep it = true) ->
  (forall t, In t p' -> is_tag t = true -> addr (m_data t) = a -> keep t = true \/ exists e, In (m_data t, e) pairs) ->
  same_target p' (List.filter keep p') a.
Proof using tags p_unified linked.
  intros Hk Ha. apply kept_target; [done| |].
  - intros i j t u Hi Hj Ht Hu Hta Hua. pose proof (tags_distinct _ tags) as Hn.
    assert (addr (m_data t) = addr (m_data u)) as Hl by congruence.
    apply linked in Hl; try done; try (by apply list_elem_of_In; eapply list_elem_of_lookup_2).
    assert (tag_at p' i (m_data t)) as Hti by (by exists t). assert (tag_at p' j (m_data u)) as Huj by (by exists u).
    apply (linked_items p' pairs) in Hl as [He|(i' & j' & Hi' & Hj' & He)]; [|..|done|done].
    + rewrite He in Hti. by rewrite <- (tag_at_index _ _ _ Hn Hti), (tag_at_index _ _ _ Hn Huj).
    + by rewrite <- (tag_at_index _ _ _ Hn Hti), <- (tag_at_index _ _ _ Hn Huj), (tag_at_index _ _ _ Hn Hi'), (tag_at_index _ _ _ Hn Hj').
  - intros t Hin Ht Hta. apply list_elem_of_In, list_elem_of_lookup in Hin as [i Hi]. revert t Hi Ht Hta.
    induction (lt_wf i) as [i _ IH]. intros t Hi Ht Hta.
    assert (In t p') as Hin by by apply list_elem_of_In, list_elem_of_lookup_2 with i.
    destruct (Ha t Hin Ht Hta) as [Hkt|[e He]]; [by exists t|].
    destruct (proj1 (List.Forall_forall _ _) p_unified _ He) as (i' & j & Hi' & (u & Hj & Hu & Hue) & Hij & _). cbn in Hi', Hue.
    assert (tag_at p' i (m_data t)) as Hti by by exists t.
    rewrite <- (tag_at_index _ _ _ (tags_distinct _ tags) Hti), (tag_at_index _ _ _ (tags_distinct _ tags) Hi') in IH.
    apply (IH j Hij u Hj Hu). by rewrite Hue, <- (pair_address _ _ He).
Qed.
End Linked.

(** C8 In the code [BlockDeduplicator::deduplicate] returns, each pair of unified tags is
    interchangeable: a run from the one ends as a run from the other, in every world.  Only pushes of
    tags have changed, each to a tag its tag has been unified with, the replaced tags are not pushed
    any more, and if nothing was changed the code is as before. *)
Theorem deduplicate_correct fuel p changed p' M :
  tags_ok p -> deduplicate fuel p = Ret (changed, p', M) ->
  (changed = false -> p' = p) /\
  (forall it a, In it p' -> pushedTag it = Some a -> M !! a = None) /\
  exists pairs, (forall a e, M !! a = Some e -> In (a, e) pairs) /\ Forall2 (moves pairs) p p' /\
    forall a e, In (a, e) pairs -> exists i j, tag_at p' i a /\ tag_at p' j e /\ (j < i)%nat /\
      forall W H (world : World W H) (laws : WorldLaws W H) st w o,
        evaluates p' (drop i p') st w o <-> evaluates p' (drop j p') st w o.
Proof.
  intros Ht Hd. destruct (deduplicate_unifies _ _ _ _ _ Ht Hd) as (_ & Hc & pairs & [Hu Hm] & HM & Hn).
  split; [done|]. split; [done|]. exists pairs. split; [done|]. split; [done|]. intros a e Hin.
  rewrite List.Forall_forall in Hu. destruct (Hu _ Hin) as (i & j & Hi & Hj & Hij & He). exists i, j.
  split; [done|]. split; [done|]. split; [done|]. intros W H world laws st w o.
  apply same_items_evaluate; [done|]. intros b _. apply same_target_refl.
Qed.

(** C26 [deduplicate] terminates on code with distinct tags of the assembly itself: the
    loops over the rounds and along the chains of replacements end. *)
Theorem deduplicate_returns p :
  tags_ok p -> exists n, forall fuel, (n <= fuel)%nat ->
    exists changed p' M, deduplicate fuel p = Ret (changed, p', M).
Proof.
  intros Ht. exists (S (places (tagIndex p) p + length p)). intros fuel Hf. unfold deduplicate.
  destruct (_ || _) eqn:E; [by do 3 eexists|]. apply orb_false_iff in E as [_ E].
  destruct (deduplicateLoop_returns fuel 0 p [] ∅ (deduplicate_ok p Ht E)) as (k & p' & M & ->); [lia|].
  by do 3 eexists.
Qed.

(** C7 Unification and removal of tags together: in a world that gives the unified tags one
    address, and other tags different ones, the code after [deduplicate] and
    [JumpdestRemover::optimise] ends exactly as the code before, if that only jumps to tags that are
    referred to or unified. *)
Theorem deduplicate_remove_preserves fuel p changed p' M outside removed p'' :
  tags_ok p -> Forall proper_push p -> deduplicate fuel p = Ret (changed, p', M) ->
  JumpdestRemover.optimise outside p' = Some (removed, p'') ->
  exists pairs, Forall (unified p') pairs /\ (forall a e, M !! a = Some e -> In (a, e) pairs) /\
  forall W H (world : World W H) (laws : WorldLaws W H),
  (forall t u, In t p' -> In u p' -> is_tag t = true -> is_tag u = true ->
     addr (m_data t) = addr (m_data u) <-> clos_refl_sym_trans _ (fun a e => In (a, e) pairs) (m_data t) (m_data u)) ->
  forall st w,
  (forall a, jumps p p st w a -> forall t, In t p' -> is_tag t = true -> addr (m_data t) = a ->
     m_data t ∈ references outside p' \/ exists e, In (m_data t, e) pairs) ->
  forall o, evaluates p p st w o <-> evaluates p'' p'' st w o.
Proof.
  intros Ht Hp Hd [-> _]%optimise_kept. fold (references outside p'). destruct (deduplicate_unifies _ _ _ _ _ Ht Hd) as (Ht' & _ & pairs & [Hu Hm] & HM & _).
  exists pairs. split; [done|]. split; [done|]. intros W H world laws Hlinked st w Hj o.
  set (keep := is_kept (references outside p')).
  assert (forall it, is_tag it = false -> keep it = true) as Hk.
  { intros it Hit%bool_decide_eq_false. by apply is_kept_tags. }
  assert (Forall2 same_exec p p') as Hx.
  { pose proof (pair_address p' pairs Hu Hlinked) as Ha. clear -Hp Hm Ha. revert Hp. induction Hm as [|it it' q q' Hit _ IH]; intros Hq; [done|].
    apply Forall_cons in Hq as [Hi Hq]. constructor; [by eapply moves_exec|by apply IH]. }
  assert (evaluates p p st w o <-> evaluates p' p' st w o) as ->.
  { unfold evaluates. split; intros [n Hn]; exists n; [rewrite <- Hn; symmetry|rewrite <- Hn]; by apply same_exec_run. }
  apply same_items_evaluate; [by rewrite blockItems_filter|].
  intros a Ha. eapply (same_exec_jumps p p') in Ha; [|done|done]. apply (linked_target p' pairs); [done|done|done|done|].
  intros t Hin Hit Hta. destruct (Hj a Ha t Hin Hit Hta) as [Hr|?]; [left|by right].
  unfold keep, is_kept, is_unreferenced. rewrite unreferenced_local.
  - by rewrite (bool_decide_eq_true_2 (m_data t ∈ _)), andb_false_r.
  - pose proof (tags_local _ Ht') as Hl. rewrite List.Forall_forall in Hl. by apply Hl.
Qed.

(** ** Concrete code *)

(** The tests of BlockDeduplicator in test/libevmasm/Optimiser.cpp: the number of tags that are
    pushed after [deduplicate], or nothing if it changes nothing. *)
Definition ins (i : Instruction) : AssemblyItem := opItem i noLocation.
Definition data (t : AssemblyItemType) (d : Z) : AssemblyItem := dataItem t d noLocation.

Definition pushedTags (p : list AssemblyItem) : gset Z := list_to_set (omap pushedTag p).

Definition deduplicated (p : list AssemblyItem) : option nat :=
  match deduplicate 30 p with
  | Ret (true, p', _) => Some (size (pushedTags p'))
  | _ => None
  end.

Definition immutable_blocks (x y a b : Z) : list AssemblyItem :=
  [data PushTag 2; data PushTag 1; data Tag 1; data Push x; data AssignImmutable a; ins JUMP;
   data Tag 2; data Push y; data AssignImmutable b; ins JUMP].

Definition block_loops : list AssemblyItem :=
  [data Push 0; ins SLOAD; data PushTag 1; data PushTag 2; ins JUMPI; ins JUMP;
   data Tag 1; data Push 5; data Push 6; ins SSTORE; data PushTag 1; ins JUMP;
   data Tag 2; data Push 5; data Push 6; ins SSTORE; data PushTag 2; ins JUMP].

Example block_deduplicator_tests :
  deduplicated
    [data PushTag 2; data PushTag 1; data PushTag 3; data Push 6; ins SWAP3; ins JUMP;
     data Tag 1; data Push 6; ins SWAP3; ins JUMP; data Tag 2; data Push 6; ins SWAP3; ins JUMP; data Tag 3] = Some 2%nat /\
  deduplicated (immutable_blocks 42 42 0x1234 0x1234) = Some 1%nat /\
  deduplicated (immutable_blocks 42 23 0x1234 0x1234) = None /\
  deduplicated (immutable_blocks 42 42 0x1234 0xABCD) = None /\
  deduplicated block_loops = Some 1%nat.
Proof. vm_compute. done. Qed.

(** Two tags with equal blocks, and a jump to the second. *)
Definition two_blocks : list AssemblyItem :=
  [data PushTag 2; ins JUMP; data Tag 1; data Push 5; ins STOP; data Tag 2; data Push 5; ins STOP].
Definition two_blocks_unified : list AssemblyItem :=
  [data PushTag 1; ins JUMP; data Tag 1; data Push 5; ins STOP; data Tag 2; data Push 5; ins STOP].
Definition two_blocks_removed : list AssemblyItem :=
  [data PushTag 1; ins JUMP; data Tag 1; data Push 5; ins STOP; data Push 5; ins STOP].

Lemma small_tags p : forallb (fun it => negb (is_tag it) || ((0 <=? m_data it) && (m_data it <=? size_t_max))) p = true ->
  Forall local_tag p.
Proof.
  intros Hp. apply List.Forall_forall. intros x Hx Ht. rewrite forallb_forall in Hp. specialize (Hp x Hx).
  unfold is_tag in Hp. rewrite bool_decide_eq_true_2 in Hp by done. cbn [negb orb] in Hp.
  apply andb_true_iff in Hp as [Hl Hu]. lia.
Qed.

Lemma two_blocks_tags : tags_ok two_blocks.
Proof. split; [by apply small_tags|]. vm_compute. apply NoDup_ListNoDup. repeat constructor; cbn; lia. Qed.

Lemma two_blocks_pushes : Forall proper_push two_blocks.
Proof. repeat constructor; intros a Ha; vm_compute in Ha; try discriminate Ha; by injection Ha as <-. Qed.

Lemma jumpdest_returns_witness : exists changed p',
  JumpdestRemover.optimise ∅ two_blocks_unified = Some (changed, p') /\
  (changed = true <-> exists t, In t two_blocks_unified /\ is_tag t = true /\ m_data t ∉ references ∅ two_blocks_unified) /\
  (forall it, In it p' <-> In it two_blocks_unified /\ (is_tag it = true -> m_data it ∈ references ∅ two_blocks_unified)) /\
  JumpdestRemover.optimise ∅ p' = Some (false, p').
Proof. apply (jumpdest_returns ∅ two_blocks_unified). by apply small_tags. Defined.

Definition oneAddress : World InterpreterState (Stop * InterpreterState) := relabelled (interpWorld (fun _ => 0)) (fun _ => 0).

Lemma oneAddress_laws : @WorldLaws _ _ oneAddress.
Proof. apply relabelled_laws; [apply interpWorld_laws|]. intros d. lia. Qed.

Lemma removal_run : JumpdestRemover.optimise ∅ two_blocks_unified = Some (true, two_blocks_removed).
Proof. vm_compute. reflexivity. Qed.

Lemma jumpdest_preserves_witness : (length two_blocks_removed < length two_blocks_unified)%nat /\ forall o,
  @evaluates _ _ (interpWorld (fun _ => 0)) two_blocks_unified two_blocks_unified [] initialState o <->
  @evaluates _ _ (interpWorld (fun _ => 0)) two_blocks_removed two_blocks_removed [] initialState o.
Proof.
  split; [apply Nat.ltb_lt; vm_compute; reflexivity|].
  apply (@jumpdest_preserves _ _ (interpWorld (fun _ => 0)) (interpWorld_laws (fun _ => 0)) ∅ two_blocks_unified true
    two_blocks_removed [] initialState removal_run).
  intros t Hin Hu Hj. eapply (jumps_In 10) in Hj; [|vm_compute; reflexivity].
  repeat (destruct Hin as [<-|Hin]; [vm_compute in Hu, Hj; first [discriminate Hu|by destruct Hj]|]). destruct Hin.
Defined.

Lemma deduplicate_run : deduplicate 20 two_blocks = Ret (true, two_blocks_unified, {[ 2 := 1 ]}).
Proof. vm_compute. reflexivity. Qed.

Lemma deduplicate_correct_witness :
  exists pairs, (forall a e, ({[ 2 := 1 ]} : gmap Z Z) !! a = Some e -> In (a, e) pairs) /\
    Forall2 (moves pairs) two_blocks two_blocks_unified /\
    forall a e, In (a, e) pairs -> exists i j, tag_at two_blocks_unified i a /\ tag_at two_blocks_unified j e /\ (j < i)%nat /\
      forall W H (world : World W H) (laws : WorldLaws W H) st w o,
        evaluates two_blocks_unified (drop i two_blocks_unified) st w o <->
        evaluates two_blocks_unified (drop j two_blocks_unified) st w o.
Proof. apply (deduplicate_correct 20 two_blocks true two_blocks_unified {[ 2 := 1 ]} two_blocks_tags deduplicate_run). Defined.

Lemma deduplicate_returns_witness :
  exists n, forall fuel, (n <= fuel)%nat -> exists changed p' M, deduplicate fuel two_blocks = Ret (changed, p', M).
Proof. apply (deduplicate_returns two_blocks two_blocks_tags). Defined.

Lemma deduplicate_remove_preserves_witness : (length two_blocks_removed < length two_blocks)%nat /\ forall o,
  @evaluates _ _ oneAddress two_blocks two_blocks [] initialState o <->
  @evaluates _ _ oneAddress two_blocks_removed two_blocks_removed [] initialState o.
Proof.
  split; [apply Nat.ltb_lt; vm_compute; reflexivity|].
  destruct (deduplicate_remove_preserves 20 two_blocks true two_blocks_unified {[ 2 := 1 ]} ∅ true two_blocks_removed
    two_blocks_tags two_blocks_pushes deduplicate_run removal_run) as (pairs & _ & HM & Hrun).
  assert (In (2, 1) pairs) as Hin by by apply HM.
  assert (forall t, In t two_blocks_unified -> is_tag t = true -> m_data t = 1 \/ m_data t = 2) as Htags.
  { intros t Ht Hty. repeat (destruct Ht as [<-|Ht]; [vm_compute in Hty; first [discriminate Hty|by auto]|]). destruct Ht. }
  apply (Hrun _ _ oneAddress oneAddress_laws).
  - intros t u Ht Hu Htt Htu. split; [intros _|done].
    assert (clos_refl_sym_trans Z (fun a e => In (a, e) pairs) 2 1) as H21 by by apply rst_step.
    destruct (Htags t Ht Htt) as [-> | ->], (Htags u Hu Htu) as [-> | ->]; try apply rst_refl; [by apply rst_sym|done].
  - intros a _ t Ht Htt _. destruct (Htags t Ht Htt) as [-> | ->]; [left|right; by exists 1].
    by vm_compute.
Defined.
