(* ===== verification/AssemblyTheorems.v ===== *)
(** * AssemblyTheorems: the loop of Assembly::optimiseInternal

    Every iteration that changes something makes the items simpler, in an order without infinite
    descent; and two ways in which the optimiser fails that its code does not foresee. *)

From Stdlib Require Import Relation_Operators Wellfounded.
From S2P Require Import Prelude U256 CommonData Instruction EVMVersion AssemblyItem SemanticInformation Interpreter RuleSound InterpreterWorld SimplificationRules ExpressionClasses KnownState CommonSubexpressionEliminator GasMeter ConstantOptimiser Peephole JumpdestRemover BlockDeduplicator Assembly Machine Simulation PeepholeSound PeepholeTheorems MatchSound BlockRun BlockOrder BlockSound TagTheorems.

(** ** Tags *)

Lemma tags_ok_ids l : tags_ok l <-> Forall (fun a => 0 <= a <= size_t_max) (tag_ids l) /\ NoDup (tag_ids l).
Proof.
  assert (Forall local_tag l <-> Forall (fun a => 0 <= a <= size_t_max) (tag_ids l)) as Hl.
  { unfold tag_ids. induction l as [|it l IH]; [done|]. rewrite Forall_cons, IH. cbn [List.filter]. unfold local_tag at 1.
    unfold is_tag at 2. case_bool_decide as Ht; cbn [map]; rewrite ?Forall_cons; naive_solver. }
  rewrite <- Hl. split; [by intros [? ?]|by intros [? ?]].
Qed.

(** Lists with the same image under every function to words are equal. *)
Lemma map_eq_all (l l' : list Z) :
  (forall f : Z -> Z, (forall d, 0 <= f d < 2 ^ 32) -> map f l = map f l') -> l = l'.
Proof.
  intros Hf. apply list_eq. intros i. assert (length l = length l') as Hlen.
  { specialize (Hf (fun _ => 0) ltac:(lia)). apply (f_equal length) in Hf. by rewrite !length_map in Hf. }
  destruct (l !! i) as [x|] eqn:Hx; [|symmetry; apply lookup_ge_None in Hx; apply lookup_ge_None; lia].
  destruct (l' !! i) as [y|] eqn:Hy; [|apply lookup_ge_None in Hy; apply lookup_lt_Some in Hx; lia].
  specialize (Hf (fun d => if d =? x then 1 else 0) ltac:(intros d; cbn beta; destruct (d =? x); lia)).
  apply (f_equal (fun k => k !! i)) in Hf. rewrite !list_lookup_fmap, Hx, Hy in Hf. cbn in Hf.
  rewrite Z.eqb_refl in Hf. destruct (Z.eqb_spec y x); congruence.
Qed.

(** One call of the peephole optimiser keeps the tags. *)
Lemma peephole_tags items changed items' :
  Forall item_fine items -> Peephole.optimise items = Ret (changed, items') ->
  tag_ids items' = tag_ids items /\ Forall item_fine items'.
Proof.
  intros Hf Ho.
  assert (forall f : Z -> Z, (forall d, 0 <= f d < 2 ^ 32) ->
    map f (tag_ids items') = map f (tag_ids items) /\ Forall item_fine items') as Hall.
  { intros f Hr. set (world := relabelled (interpWorld (fun _ => 0)) f).
    pose proof (relabelled_laws _ (interpWorld_laws (fun _ => 0)) f Hr) as laws. fold world in laws.
    pose proof (@optimise_cases _ _ world laws items changed items' Hf Ho) as Hc. destruct changed; [|by subst].
    destruct (rewritten_ok item_fine items items' Hc Hf) as [Ht Hf']. split; [|done].
    unfold tag_ids. rewrite !map_map. exact Ht. }
  split; [apply map_eq_all; intros f Hr; by apply Hall|]. by apply (Hall (fun _ => 0)).
Qed.

(** ** The order in which the items get simpler *)

(** The number of items, the bytes beyond the opcodes, the items that are no POP, and the places of
    the pushed tags. *)
Definition complexity (l : list AssemblyItem) : nat * (nat * (nat * nat)) :=
  (length l, (Z.to_nat (weights l), ((length l - Z.to_nat (numberOfPops l))%nat, places (tagIndex l) l))).

Definition simpler (l' l : list AssemblyItem) : Prop :=
  slexprod nat (nat * (nat * nat)) lt (slexprod nat (nat * nat) lt (slexprod nat nat lt lt)) (complexity l') (complexity l).

Lemma simpler_wf : well_founded simpler.
Proof.
  apply (wf_inverse_image (list AssemblyItem) _ _ complexity).
  repeat (apply wf_slexprod; [apply lt_wf|]). apply lt_wf.
Qed.

Lemma shorter_simpler l' l : (length l' < length l)%nat -> simpler l' l.
Proof. intros Hl. by left. Qed.

Lemma slexprod_cases {A B} (R : A -> A -> Prop) (S : B -> B -> Prop) x x' y y' :
  slexprod A B R S (x, y) (x', y') <-> R x x' \/ x = x' /\ S y y'.
Proof.
  split; [|intros [Hr|[-> Hs]]; [by left|by right]]. intros Hs. inversion Hs; subst; [by left|by right].
Qed.

Lemma cheaper_simpler l' l : cheaper l' l -> simpler l' l.
Proof.
  unfold cheaper, simpler, measure, complexity. rewrite !slexprod_cases. tauto.
Qed.

(** What the loop needs of the items: constants are words, no signal instructions, sizes, and
    distinct tags. *)
Record items_ok (l : list AssemblyItem) : Prop := {
  io_fine : Forall item_fine l;
  io_sized : Forall item_sized l;
  io_tags : tags_ok l }.

(** A step that changed nothing, or counted a change to simpler items. *)
Definition progressed (p p' : Progress) : Prop :=
  p_items p' = p_items p /\ count p' = count p \/
  clos_trans _ simpler (p_items p') (p_items p) /\ count p < count p'.

Lemma progressed_refl p : progressed p p.
Proof. by left. Qed.

Lemma progressed_trans p1 p2 p3 : progressed p1 p2 -> progressed p2 p3 -> progressed p1 p3.
Proof.
  intros [[Hi Hc]|[Hi Hc]] [[Hi' Hc']|[Hi' Hc']].
  - left. split; congruence.
  - right. rewrite <- Hi. split; [done|lia].
  - right. rewrite Hi'. split; [done|lia].
  - right. split; [by eapply t_trans|lia].
Qed.

(** *** JumpdestRemover *)

Lemma jumpdestStep_ok p p' : items_ok (p_items p) -> jumpdestStep p = Ret p' ->
  progressed p p' /\ items_ok (p_items p').
Proof.
  intros [Hf Hs Ht]. unfold jumpdestStep. rewrite optimise_local by apply Ht. cbn [lift mbind Result_bind].
  intros [= <-]. set (keep := kept_tag _). split.
  - unfold progressed. cbn [p_items count]. pose proof (List.filter_length_le keep (p_items p)) as Hle.
    destruct (Nat.eqb_spec (length (List.filter keep (p_items p))) (length (p_items p))) as [E|E]; cbn [negb].
    + left. split; [by apply filter_length_id|done].
    + right. split; [|lia]. apply t_step, shorter_simpler. lia.
  - cbn [p_items]. split; [by apply filter_Forall..|]. split; [apply filter_Forall, Ht|apply tag_ids_filter, Ht].
Qed.

(** *** PeepholeOptimiser *)

Lemma peepholeLoop_progress fuel : forall c l c' l', items_ok l -> peepholeLoop fuel c l = Ret (c', l') ->
  items_ok l' /\ (l' = l /\ c' = c \/ clos_trans _ simpler l' l /\ c < c').
Proof.
  induction fuel as [|fuel IH]; intros c l c' l' Hok; [done|]. cbn [peepholeLoop].
  destruct (Peephole.optimise l) as [[changed l1]| |] eqn:E; cbn [mbind Result_bind]; [|done|done]. destruct changed.
  - destruct (c + 1 <? 64000); cbn [assertThrow lift mbind Result_bind]; [|done]. intros Hl.
    destruct (optimise_cheaper _ _ (io_sized _ Hok) E) as [Hc Hs].
    destruct (peephole_tags _ _ _ (io_fine _ Hok) E) as [Ht Hf].
    destruct (IH _ _ _ _ (Build_items_ok l1 Hf Hs ltac:(by apply tags_ok_ids; rewrite Ht; apply tags_ok_ids, Hok)) Hl) as [Hok' Hp].
    split; [done|]. right. apply cheaper_simpler in Hc.
    destruct Hp as [[-> ->]|[Hp Hlt]]; (split; [|lia]); [by apply t_step|]. eapply t_trans; [exact Hp|by apply t_step].
  - intros [= <- <-]. rewrite (optimise_unchanged _ _ E). split; [done|by left].
Qed.

Lemma peepholeStep_ok p p' : items_ok (p_items p) -> peepholeStep p = Ret p' -> progressed p p' /\ items_ok (p_items p').
Proof.
  intros Hok. unfold peepholeStep. destruct (peephole (count p) (p_items p)) as [[c l]| |] eqn:E; cbn [mbind Result_bind]; [|done|done].
  intros [= <-]. unfold peephole in E. destruct (peepholeLoop_progress _ _ _ _ _ Hok E) as [Hok' Hp]. by split.
Qed.

(** *** BlockDeduplicator *)

Lemma moves_kept pairs l l' : Forall2 (moves pairs) l l' ->
  (Forall item_fine l -> Forall item_fine l') /\ (Forall item_sized l -> Forall item_sized l') /\
  length l' = length l /\ weights l' = weights l /\ numberOfPops l' = numberOfPops l.
Proof.
  induction 1 as [|it it' l l' Hm _ (Hf & Hs & Hl & Hw & Hp)]; [done|].
  assert (m_type it' = m_type it /\ m_instruction it' = m_instruction it /\ m_immutableOccurrences it' = m_immutableOccurrences it /\
    (m_type it = PushTag \/ it' = it) /\ weight it' = weight it) as (Ht & Hi & Ho & Hd & Hwi).
  { destruct Hm as [->|(a & z & Ht & _ & _ & -> & _)]; [by auto 6|]. cbn. split; [done|]. split; [done|]. split; [done|].
    split; [by left|]. unfold weight, item_bytesRequired. cbn. by rewrite Ht. }
  split; [|split; [|split; [|split]]].
  - intros [[Hwd Hsig] Hr]%Forall_cons. constructor; [|by apply Hf]. split; [|by rewrite Ht, Hi].
    unfold item_words in *. rewrite Ht. intros Hpush. destruct Hd as [Hd| ->]; [congruence|by apply Hwd].
  - intros [[Hu Hn] Hr]%Forall_cons. constructor; [|by apply Hs]. split; [by rewrite Ht|by rewrite Ho].
  - cbn. by rewrite Hl.
  - cbn. by rewrite Hwi, Hw.
  - assert (is_op it' POP = is_op it POP) as E by (unfold is_op; by rewrite Ht, Hi).
    unfold numberOfPops in *. cbn [List.filter]. rewrite E. destruct (is_op it POP); cbn [length]; lia.
Qed.

Lemma deduplicateStep_ok fuel p p' : items_ok (p_items p) -> deduplicateStep fuel p = Ret p' ->
  progressed p p' /\ items_ok (p_items p').
Proof.
  intros [Hf Hs Ht]. unfold deduplicateStep.
  destruct (deduplicate fuel (p_items p)) as [[[changed l] M]| |] eqn:E; cbn [mbind Result_bind]; [|done|done].
  destruct (deduplicate_unifies _ _ _ _ _ Ht E) as (Ht' & Hsame & pairs & [_ Hm] & _).
  destruct (moves_kept _ _ _ Hm) as (Hf' & Hs' & Hl & Hw & Hp).
  assert (items_ok l) as Hok' by (split; auto). destruct changed.
  - destruct (recordReplacements _ _ _) as [[o r]| |]; cbn [mbind Result_bind]; [|done|done]. intros [= <-]. split; [|done].
    right. cbn [count p_items]. split; [|lia]. apply t_step. unfold simpler, complexity. rewrite Hl, Hw, Hp. right. right. right.
    unfold deduplicate in E. destruct (_ || _) eqn:Eself; [congruence|]. apply orb_false_iff in Eself as [_ Eself].
    destruct (deduplicateLoop fuel 0 (p_items p) ∅) as [[[k l1] M1]| |] eqn:El; cbn [mbind Result_bind] in E; [|done|done].
    injection E as Ek <- <-. destruct (deduplicateLoop_places _ _ _ _ _ _ _ _ (deduplicate_ok _ Ht Eself) El) as [[-> _]|[_ Hlt]]; done.
  - intros [= <-]. split; [|done]. left. cbn. by rewrite Hsame.
Qed.

(** *** CommonSubexpressionEliminator *)

Lemma splitBlock_rest msize items block b rest : splitBlock msize items = (block, b, rest) ->
  items = block ++ option_list b ++ rest.
Proof.
  revert block b rest. induction items as [|it items IH]; intros block b rest; cbn [splitBlock]; [by intros [= <- <- <-]|].
  destruct (breaksCSEAnalysisBlock it msize); [by intros [= <- <- <-]|].
  destruct (splitBlock msize items) as [[block' b'] rest']. intros [= <- <- <-]. cbn. by rewrite (IH _ _ _ eq_refl).
Qed.

Lemma optimisedChunk_rest fuel depth rules keccak256 usesMSize items rest chunk :
  optimisedChunk fuel depth rules keccak256 usesMSize items = Ret (rest, chunk) ->
  exists orig, items = orig ++ rest /\ take (length items - length rest) items = orig.
Proof.
  unfold optimisedChunk, feedItems. cbn [m_breakingItem eliminator m_storeOperations m_state].
  destruct (splitBlock usesMSize items) as [[block b] rest'] eqn:Hs.
  destruct (feedStores _ _ _ _ _ _ _) as [[stores [s cl]]| |]; cbn [mbind Result_bind]; [|done|done].
  intros Hc. assert (rest = rest') as ->; [by destruct (getOptimizedItems _ _ _ _ _ _) as [[]|[]|]; congruence|].
  apply splitBlock_rest in Hs. rewrite app_assoc in Hs. exists (block ++ option_list b). split; [done|].
  rewrite Hs, length_app. replace (_ + _ - _)%nat with (length (block ++ option_list b)) by lia. apply take_app_length.
Qed.

Lemma optimiseChunks_length fuel depth rules keccak256 usesMSize n : forall items replaced l,
  optimiseChunks fuel depth rules keccak256 n usesMSize items = Ret (replaced, l) ->
  0 <= replaced /\ Z.of_nat (length l) + replaced <= Z.of_nat (length items) /\ (replaced = 0 -> l = items).
Proof.
  induction n as [|n IH]; intros items replaced l; destruct items as [|it items]; cbn [optimiseChunks];
    try (intros [= <- <-]; done); try done.
  destruct (optimisedChunk _ _ _ _ _ _) as [[rest chunk]| |] eqn:Hc; cbn [mbind Result_bind]; [|done|done].
  destruct (optimisedChunk_rest _ _ _ _ _ _ _ _ Hc) as (orig & Hi & Ho). rewrite Ho. rewrite Hi, length_app. clear Hi Ho Hc.
  destruct (optimiseChunks fuel depth rules keccak256 n usesMSize rest) as [[r o]| |] eqn:E; cbn [mbind Result_bind]; [|done|done].
  destruct (IH _ _ _ E) as (Hr & Hl & H0).
  assert (forall l, Ret (r, orig ++ o) = Ret (replaced, l) ->
    0 <= replaced /\ Z.of_nat (length l) + replaced <= Z.of_nat (length orig + length rest) /\ (replaced = 0 -> l = orig ++ rest)) as Hkeep.
  { intros l' [= <- <-]. rewrite length_app. split; [done|]. split; [lia|]. intros E0. by rewrite H0. }
  destruct chunk as [chunk|]; [|by apply Hkeep]. destruct (Nat.ltb_spec (length chunk) (length orig)); [|by apply Hkeep].
  intros [= <- <-]. rewrite length_app. lia.
Qed.

Lemma cseStep_progress fuel depth rules keccak256 p p' :
  cseStep fuel depth rules keccak256 p = Ret p' -> progressed p p'.
Proof.
  unfold cseStep. destruct (optimiseChunks _ _ _ _ _ _ _) as [[r l]| |] eqn:E; cbn [mbind Result_bind]; [|done|done].
  destruct (optimiseChunks_length _ _ _ _ _ _ _ _ _ E) as (Hr & Hl & H0).
  destruct (Nat.ltb_spec (length l) (length (p_items p))) as [Hlt|Hge]; intros [= <-].
  - right. cbn. split; [by apply t_step, shorter_simpler|lia].
  - left. cbn. split; [done|]. assert (r = 0) by lia. lia.
Qed.

(** ** The loop *)

Lemma runIf_ok b step p p' :
  (step p = Ret p' -> progressed p p' /\ items_ok (p_items p')) -> items_ok (p_items p) -> runIf b step p = Ret p' ->
  progressed p p' /\ items_ok (p_items p').
Proof. intros Hs Hok. unfold runIf. destruct b; [done|]. intros [= <-]. by split; [apply progressed_refl|]. Qed.

(** The steps before the eliminator's, and an iteration. *)
Lemma optimiseOnce_steps fuel depth rules keccak256 settings p p' :
  items_ok (p_items p) -> optimiseOnce fuel depth rules keccak256 settings p = Ret p' ->
  exists p3, progressed (mkProgress 0 (p_items p) (tagsReferencedFromOutside p) (tagReplacements p)) p3 /\
    items_ok (p_items p3) /\ runIf (runCSE settings) (cseStep fuel depth rules keccak256) p3 = Ret p'.
Proof.
  intros Hok. unfold optimiseOnce. set (p0 := mkProgress 0 _ _ _).
  destruct (runIf _ jumpdestStep p0) as [p1| |] eqn:E1; cbn [mbind Result_bind]; [|done|done].
  destruct (runIf _ peepholeStep p1) as [p2| |] eqn:E2; cbn [mbind Result_bind]; [|done|done].
  destruct (runIf _ (deduplicateStep fuel) p2) as [p3| |] eqn:E3; cbn [mbind Result_bind]; [|done|done].
  apply runIf_ok in E1 as [H1 Hok1]; [|intros; by apply jumpdestStep_ok|done].
  apply runIf_ok in E2 as [H2 Hok2]; [|intros; by apply peepholeStep_ok|done].
  apply runIf_ok in E3 as [H3 Hok3]; [|intros; by eapply deduplicateStep_ok|done].
  intros E4. exists p3. split; [|done]. eapply progressed_trans; [exact H1|]. by eapply progressed_trans.
Qed.

Lemma optimiseOnce_progress fuel depth rules keccak256 settings p p' :
  items_ok (p_items p) -> optimiseOnce fuel depth rules keccak256 settings p = Ret p' ->
  p_items p' = p_items p /\ count p' = 0 \/ clos_trans _ simpler (p_items p') (p_items p) /\ 0 < count p'.
Proof.
  intros Hok Ho. destruct (optimiseOnce_steps _ _ _ _ _ _ _ Hok Ho) as (p3 & Hp & _ & Hc).
  assert (progressed p3 p') as Hp' by (unfold runIf in Hc; destruct (runCSE settings);
    [by eapply cseStep_progress|injection Hc as <-; apply progressed_refl]).
  exact (progressed_trans _ _ _ Hp Hp').
Qed.

(** With enough fuel a computation has a result that is not for lack of fuel. *)
Definition settles {A} (f : nat -> Result A) : Prop :=
  exists n r, r <> OutOfFuel /\ forall fuel, (n <= fuel)%nat -> f fuel = r.

Lemma settles_const {A} (r : Result A) : r <> OutOfFuel -> settles (fun _ => r).
Proof. intros Hr. by exists 0%nat, r. Qed.

Lemma settles_bind {A B} (f : nat -> Result A) (k : nat -> A -> Result B) :
  settles f -> (forall a fuel, f fuel = Ret a -> settles (fun n => k n a)) -> settles (fun n => a ← f n; k n a).
Proof.
  intros (n & r & Hr & Hn) Hk. destruct r as [a| |]; [|exists n, Exception; split; [done|]; intros fuel Hf; by rewrite Hn|by destruct Hr].
  destruct (Hk a n (Hn n (le_n n))) as (m & r & Hr' & Hm). exists (n + m)%nat, r. split; [done|]. intros fuel Hf.
  rewrite Hn by lia. cbn [mbind Result_bind]. apply Hm. lia.
Qed.

Lemma peepholeLoop_returns fuel : forall c l, items_ok l -> 64000 - c <= Z.of_nat fuel -> (0 < fuel)%nat ->
  peepholeLoop fuel c l <> OutOfFuel.
Proof.
  induction fuel as [|fuel IH]; intros c l Hok Hf H0; [lia|]. cbn [peepholeLoop].
  destruct (optimise_returns l (io_sized _ Hok)) as (changed & l' & E). rewrite E. cbn [mbind Result_bind].
  destruct changed; [|done]. destruct (Z.ltb_spec (c + 1) 64000); cbn [assertThrow lift mbind Result_bind]; [|done].
  apply IH; [|lia|lia]. destruct (optimise_cheaper _ _ (io_sized _ Hok) E) as [_ Hs].
  destruct (peephole_tags _ _ _ (io_fine _ Hok) E) as [Ht Hfi]. split; [done|done|].
  apply tags_ok_ids. rewrite Ht. apply tags_ok_ids, Hok.
Qed.

Lemma recordReplacements_returns l : forall outside M, recordReplacements l outside M <> OutOfFuel.
Proof.
  induction l as [|[a e] l IH]; intros outside M; [done|]. cbn [recordReplacements].
  destruct ((a <=? size_t_max) && (e <=? size_t_max)); [|discriminate]. cbn [assertThrow lift mbind Result_bind].
  destruct (negb _); [apply IH|discriminate].
Qed.

Lemma runIf_settles b (step : nat -> Progress -> Result Progress) p :
  settles (fun n => step n p) -> settles (fun n => runIf b (step n) p).
Proof. intros Hs. destruct b; [done|]. by apply (settles_const (Ret p)). Qed.

(** Without the eliminator an iteration returns or throws. *)
Lemma optimiseOnce_settles depth rules keccak256 settings p :
  runCSE settings = false -> items_ok (p_items p) ->
  settles (fun fuel => optimiseOnce fuel depth rules keccak256 settings p).
Proof.
  intros Hcse Hok. unfold optimiseOnce. rewrite Hcse. set (p0 := mkProgress 0 _ _ _).
  apply settles_bind; [apply (runIf_settles _ (fun _ => jumpdestStep))|intros p1 _ E1].
  { apply settles_const. unfold jumpdestStep. rewrite optimise_local by apply Hok. done. }
  apply runIf_ok in E1 as [H1 Hok1]; [|intros; by apply jumpdestStep_ok|done].
  apply settles_bind; [apply (runIf_settles _ (fun _ => peepholeStep))|intros p2 _ E2].
  { apply settles_const. unfold peepholeStep, peephole.
    pose proof (peepholeLoop_returns (Z.to_nat 64001) (count p1) (p_items p1) Hok1) as Hp.
    destruct (peepholeLoop _ _ _) as [[]| |]; [done|done|]. exfalso. apply Hp; [|lia|done].
    destruct H1 as [[_ ->]|[_ Hc]]; cbn in *; lia. }
  apply runIf_ok in E2 as [H2 Hok2]; [|intros; by apply peepholeStep_ok|done].
  apply settles_bind; [apply runIf_settles|intros p3 n _; by apply (settles_const (Ret p3))].
  unfold deduplicateStep. apply settles_bind; [|intros [[changed l] M] n _].
  - destruct (deduplicate_returns (p_items p2) (io_tags _ Hok2)) as [n Hn].
    destruct (Hn n (le_n n)) as (c & l & M & E). exists n, (Ret (c, l, M)). split; [done|].
    intros fuel Hf. by eapply deduplicate_mono.
  - destruct changed; [|by apply settles_const]. apply settles_const.
    pose proof (recordReplacements_returns (entries M) (tagsReferencedFromOutside p2) (tagReplacements p2)) as Hr.
    by destruct (recordReplacements _ _ _) as [[]| |].
Qed.

(** C30 The loop of [optimiseInternal] ends on items with distinct tags, constants that are words
    and no signal instructions: there is no infinite sequence of iterations that change something,
    the eliminator's included; without the eliminator, whose fuel is not bounded here, the loop
    returns or throws. *)
Theorem optimiseItems_terminates depth rules keccak256 settings :
  well_founded (fun p' p => items_ok (p_items p) /\
    exists fuel, optimiseOnce fuel depth rules keccak256 settings p = Ret p' /\ 0 < count p') /\
  (runCSE settings = false -> forall p, items_ok (p_items p) ->
    exists n r, r <> OutOfFuel /\ forall fuel k, (n <= fuel)%nat -> (n <= k)%nat ->
      optimiseItems fuel depth rules keccak256 k settings p = r).
Proof.
  assert (well_founded (fun p' p : Progress => clos_trans _ simpler (p_items p') (p_items p))) as Hwf.
  { apply (wf_inverse_image Progress _ (clos_trans _ simpler) p_items), wf_clos_trans, simpler_wf. }
  split.
  - apply (wf_incl _ _ _) with (2 := Hwf). intros p' p (Hok & fuel & Ho & Hc).
    destruct (optimiseOnce_progress _ _ _ _ _ _ _ Hok Ho) as [[_ Hc0]|[Hs _]]; [lia|done].
  - intros Hcse p. induction (Hwf p) as [p _ IH]. intros Hok.
    destruct (optimiseOnce_settles depth rules keccak256 settings p Hcse Hok) as (n & r & Hr & Hn).
    destruct r as [p'| |]; [|exists (S n), Exception; split; [done|]; intros fuel [|k] Hf Hk; [lia|]; cbn [optimiseItems]; by rewrite Hn by lia|by destruct Hr].
    pose proof (Hn n (le_n n)) as E. destruct (optimiseOnce_progress _ _ _ _ _ _ _ Hok E) as [[_ Hc]|[Hs Hc]].
    + exists (S n), (Ret p'). split; [done|]. intros fuel [|k] Hf Hk; [lia|]. cbn [optimiseItems]. rewrite Hn by lia.
      cbn [mbind Result_bind]. by rewrite Hc.
    + destruct (optimiseOnce_steps _ _ _ _ _ _ _ Hok E) as (p3 & _ & Hok3 & E3). rewrite Hcse in E3. injection E3 as ->.
      destruct (IH p' Hs Hok3) as (m & r & Hr' & Hm). exists (S (n + m)), r. split; [done|].
      intros fuel [|k] Hf Hk; [lia|]. cbn [optimiseItems]. rewrite Hn by lia. cbn [mbind Result_bind].
      destruct (Z.ltb_spec 0 (count p')); [|lia]. apply Hm; lia.
Qed.

(** ** Two failures *)

Definition lengthHash (l : list Z) : Z := Z.of_nat (length l).

(** The optimiser on an assembly without data, with enough fuel for the examples. *)
Definition tree (items : list AssemblyItem) (subs : list AssemblyTree) : AssemblyTree := mkTree (mkAssembly items ∅) subs.

Definition tagLoop (self target : Z) : list AssemblyItem :=
  [data Tag self; data PushTag self; data PushTag self; ins EQ; data PushTag target; ins JUMPI; ins STOP].

Definition revertBlock (tag : Z) : list AssemblyItem :=
  [data Tag tag; data Push 7; ins SLOAD; ins POP; data Push 0; data Push 0; ins REVERT].

(** Three blocks that push their own tag and one of two equal blocks. *)
Definition tagLoops : list AssemblyItem :=
  ins STOP :: tagLoop 1 7 ++ tagLoop 2 8 ++ tagLoop 3 8 ++ revertBlock 7 ++ revertBlock 8.

(** What is left of them. *)
Definition lostTags : list AssemblyItem :=
  [ins STOP; data Tag 2; data Push 0; ins DUP1; ins REVERT].

(** A push of a tag of the sub-assembly 0, stored. *)
Definition pushOfSub (tag : Z) : list AssemblyItem :=
  [data PushTag (2 ^ 64 + tag); data Push 0; ins SSTORE; ins STOP].

(** The tags the super-assembly refers to are not all kept: [optimiseInternal] follows the
    replacements of one round of [deduplicate] only one step where it updates the tags referenced
    from outside (Assembly.cpp:461), while [applyTagReplacement] follows them to the end.  With the
    full optimiser, code that pushes a tag of its sub-assembly becomes code that pushes a tag the
    optimised sub-assembly does not have. *)
Theorem outside_tag_lost :
  tags_ok tagLoops /\ pushedTag (data PushTag 3) = Some 3 /\ In 3 (tag_ids tagLoops) /\
  splitForeignPushTag (data PushTag (2 ^ 64 + 3)) = Some (0, 3) /\
  exists t items sub, Rules = Some t /\
    optimise 60 60 t lengthHash true Istanbul true 200 (tree (pushOfSub 3) [tree tagLoops []]) =
      Ret (tree items [tree sub []]) /\
    In (data PushTag (2 ^ 64 + 1)) items /\ splitForeignPushTag (data PushTag (2 ^ 64 + 1)) = Some (0, 1) /\
    ~ In 1 (tag_ids sub).
Proof.
  split; [split; [by apply small_tags|vm_compute; apply NoDup_ListNoDup; repeat constructor; cbn; lia]|].
  split; [done|]. split; [vm_compute; auto 10|]. split; [done|].
  destruct Rules_bucket as (t & Ht & _). exists t.
  assert (match Rules with
          | Some t => optimise 60 60 t lengthHash true Istanbul true 200 (tree (pushOfSub 3) [tree tagLoops []])
          | None => OutOfFuel
          end = Ret (tree (pushOfSub 1) [tree lostTags []])) as E by (vm_compute; reflexivity).
  rewrite Ht in E. exists (pushOfSub 1), lostTags. split; [done|]. split; [exact E|]. split; [by left|]. split; [done|].
  vm_compute. intros [Hf|[]]. discriminate Hf.
Qed.

(** Two pairs of equal blocks, the second equal only after its sum has been computed. *)
Definition equalSums : list AssemblyItem :=
  [data PushTag 1; data PushTag 2; data PushTag 3; data PushTag 4; ins JUMP;
   data Tag 1; data Push 7; ins STOP; data Tag 2; data Push 7; ins STOP;
   data Tag 3; data Push 1; data Push 2; ins ADD; ins STOP; data Tag 4; data Push 3; ins STOP].

(** With the deduplicator and the eliminator but without the jumpdest remover, which the
    settings allow, a replaced tag stays in the code and is found again in a later iteration, where
    "Replacement already known" is thrown; with the jumpdest remover the same code is optimised. *)
Theorem replacement_known_throws :
  items_ok equalSums /\ exists t, Rules = Some t /\
  optimiseWith 60 60 t lengthHash (mkSettings false false false true true false Istanbul 200) (tree equalSums []) = Exception /\
  exists a, optimiseWith 60 60 t lengthHash (mkSettings false true false true true false Istanbul 200) (tree equalSums []) = Ret a.
Proof.
  split.
  { split; [| |split; [by apply small_tags|]].
    - repeat constructor; try done; intros _; unfold is_u256, modulus; cbn; lia.
    - repeat constructor; done.
    - vm_compute. apply NoDup_ListNoDup. repeat constructor; cbn; lia. }
  destruct Rules_bucket as (t & Ht & _). exists t. split; [done|].
  assert (match Rules with
          | Some t => optimiseWith 60 60 t lengthHash (mkSettings false false false true true false Istanbul 200) (tree equalSums [])
          | None => OutOfFuel
          end = Exception) as E by (vm_compute; reflexivity).
  assert (match Rules with
          | Some t => match optimiseWith 60 60 t lengthHash (mkSettings false true false true true false Istanbul 200) (tree equalSums [])
                      with Ret _ => true | _ => false end
          | None => false
          end = true) as E' by (vm_compute; reflexivity).
  rewrite Ht in E, E'. split; [exact E|]. destruct (optimiseWith _ _ _ _ (mkSettings false true _ _ _ _ _ _) _); [by eexists|done..].
Qed.
