(* ===== verification/AssembleSound.v ===== *)
(** * AssembleSound: the layout of assembled code

    Filling in values is a list of writes at places that do not overlap ([patch]); what is appended
    afterwards leaves them alone ([grown]).  Emission leaves a trace: the offset, the bytes and the
    reference of every item. *)

From S2P Require Import Prelude U256 CommonData Instruction AssemblyItem KnownState RuleList ConstantOptimiser LinkerObject Assemble.

(** ** Patches *)

Definition patch (P : list (Z * list Z)) (l : list Z) : list Z :=
  fold_left (fun l pb => write (fst pb) (snd pb) l) P l.

(** Patches below [n]. *)
Definition below (n : Z) (P : list (Z * list Z)) : Prop :=
  Forall (fun pb => 0 <= fst pb /\ fst pb + sizeOf (snd pb) <= n) P.

(** Two patches at the same place are equal, others do not overlap. *)
Definition apart (P : list (Z * list Z)) : Prop :=
  forall pb pb', In pb P -> In pb' P ->
    pb = pb' \/ fst pb + sizeOf (snd pb) <= fst pb' \/ fst pb' + sizeOf (snd pb') <= fst pb.

Lemma patch_length P l : length (patch P l) = length l.
Proof. revert l. induction P as [|pb P IH]; intros l; [done|]. cbn [patch fold_left]. fold (patch P). by rewrite IH, write_length. Qed.

Lemma patch_cons pb P l : patch (pb :: P) l = patch P (write (fst pb) (snd pb) l).
Proof. done. Qed.

Lemma write_app offset bs l t :
  0 <= offset -> offset + sizeOf bs <= sizeOf l -> write offset bs (l ++ t) = write offset bs l ++ t.
Proof.
  intros H0 Hl. unfold write, sizeOf in *. rewrite length_app, take_app_le, drop_app_le by lia.
  rewrite !(take_ge bs) by lia. by rewrite <- !app_assoc.
Qed.

Lemma patch_app P l t : below (sizeOf l) P -> patch P (l ++ t) = patch P l ++ t.
Proof.
  revert l. induction P as [|pb P IH]; intros l; [done|]. intros [[H0 Hl] HP]%Forall_cons. rewrite !patch_cons.
  rewrite write_app by done. apply IH. unfold sizeOf. by rewrite write_length.
Qed.

(** Where nothing is written. *)
Lemma patch_other P l a n :
  below (sizeOf l) P -> 0 <= a ->
  Forall (fun pb => a + Z.of_nat n <= fst pb \/ fst pb + sizeOf (snd pb) <= a) P ->
  sub_list a n (patch P l) = sub_list a n l.
Proof.
  intros HP Ha. revert l HP. induction P as [|pb P IH]; intros l; [done|].
  intros [[H0 Hl] HP]%Forall_cons [Hd HD]%Forall_cons. rewrite patch_cons, IH; [|unfold sizeOf; by rewrite write_length|done].
  apply sub_list_write_other; unfold sizeOf in *; lia.
Qed.

(** What is written is there at the end. *)
Lemma patch_same P l p bs :
  below (sizeOf l) P -> apart P -> In (p, bs) P -> sub_list p (length bs) (patch P l) = bs.
Proof.
  revert l. induction P as [|pb P IH]; intros l; [done|]. intros [[H0 Hl] HP]%Forall_cons HA Hin. rewrite patch_cons.
  assert (HA' : apart P) by (intros ? ? ? ?; apply HA; by right).
  assert (HP' : below (sizeOf (write (fst pb) (snd pb) l)) P) by (unfold sizeOf; by rewrite write_length).
  destruct (List.In_dec (prod_eq_dec (A:=Z) (B:=list Z)) (p, bs) P) as [Hin'|Hin']; [by apply IH|].
  destruct Hin as [->|Hin]; [|done]. cbn [fst snd] in *. unfold sizeOf in *.
  rewrite patch_other; [by apply sub_list_write|done|done|].
  apply List.Forall_forall. intros pb' Hpb'.
  destruct (HA (p, bs) pb') as [<-|Hd]; [by left|by right|done|]. cbn [fst snd] in Hd. unfold sizeOf in *. lia.
Qed.

(** [l'] is [l] after the patches [P] below [n], and more. *)
Definition grown (n : Z) (P : list (Z * list Z)) (l l' : list Z) : Prop :=
  n <= sizeOf l /\ below n P /\ exists t, l' = patch P l ++ t.

Lemma below_app n P P' : below n (P ++ P') <-> below n P /\ below n P'.
Proof. apply Forall_app. Qed.

Lemma below_le n n' P : n <= n' -> below n P -> below n' P.
Proof. intros Hn HP. eapply Forall_impl; [exact HP|]. intros pb [H0 H1]. split; [done|]. lia. Qed.

Lemma grown_length n P l l' : grown n P l l' -> sizeOf l <= sizeOf l'.
Proof. intros (_ & _ & t & ->). unfold sizeOf. rewrite length_app, patch_length. lia. Qed.

Lemma grown_refl n l : n <= sizeOf l -> grown n [] l l.
Proof. intros Hn. split; [done|]. split; [constructor|]. exists []. by rewrite app_nil_r. Qed.

Lemma grown_trans n P P' l l' l'' : grown n P l l' -> grown n P' l' l'' -> grown n (P ++ P') l l''.
Proof.
  intros (Hn & HP & t & ->) (Hn' & HP' & t' & ->). split; [done|]. split; [by apply below_app|].
  exists (t ++ t'). unfold patch at 3. rewrite fold_left_app. fold (patch P l). fold (patch P').
  rewrite patch_app by (eapply below_le; [|done]; unfold sizeOf in *; rewrite patch_length; lia).
  by rewrite app_assoc.
Qed.

Lemma grown_write n p bs l : n <= sizeOf l -> 0 <= p -> p + sizeOf bs <= n -> grown n [(p, bs)] l (write p bs l).
Proof.
  intros Hn H0 Hp. split; [done|]. split; [constructor; [by split|constructor]|]. exists []. by rewrite app_nil_r.
Qed.

Lemma grown_append n l t : n <= sizeOf l -> grown n [] l (l ++ t).
Proof. intros Hn. split; [done|]. split; [constructor|]. by exists t. Qed.

Lemma sub_list_app_l a n l t : 0 <= a -> a + Z.of_nat n <= sizeOf l -> sub_list a n (l ++ t) = sub_list a n l.
Proof. intros Ha Hn. unfold sub_list, sizeOf in *. by rewrite drop_app_le, take_app_le by (rewrite ?length_drop; lia). Qed.

(** Beyond the patches the bytes stay. *)
Lemma grown_high n P l l' a m :
  grown n P l l' -> 0 <= n <= a -> a + Z.of_nat m <= sizeOf l -> sub_list a m l' = sub_list a m l.
Proof.
  intros (Hn & HP & t & ->) Ha Hm.
  rewrite sub_list_app_l by (unfold sizeOf in *; rewrite ?patch_length; lia).
  apply patch_other; [by apply (below_le n)|lia|]. eapply Forall_impl; [exact HP|]. intros pb Hpb. cbn in Hpb. lia.
Qed.

Lemma grown_other n P l l' a m :
  grown n P l l' -> 0 <= a -> a + Z.of_nat m <= sizeOf l ->
  Forall (fun pb => a + Z.of_nat m <= fst pb \/ fst pb + sizeOf (snd pb) <= a) P -> sub_list a m l' = sub_list a m l.
Proof.
  intros (Hn & HP & t & ->) Ha Hm HD.
  rewrite sub_list_app_l by (unfold sizeOf in *; rewrite ?patch_length; lia).
  apply patch_other; [by apply (below_le n)|done|done].
Qed.

Lemma grown_same n P l l' p bs : grown n P l l' -> apart P -> In (p, bs) P -> sub_list p (length bs) l' = bs.
Proof.
  intros (Hn & HP & t & ->) HA Hin. pose proof (proj1 (List.Forall_forall _ _) HP _ Hin) as Hb. cbn in Hb.
  rewrite sub_list_app_l by (unfold sizeOf in *; rewrite ?patch_length; lia).
  apply patch_same; [by apply (below_le n)|done|done].
Qed.

(** [bs] is in the code [c] at [off]. *)
Definition holds (c : list Z) (off : Z) (bs : list Z) : Prop :=
  0 <= off /\ off + sizeOf bs <= sizeOf c /\ sub_list off (length bs) c = bs.

Lemma holds_grown n P l l' off bs : 0 <= n <= off -> holds l off bs -> grown n P l l' -> holds l' off bs.
Proof.
  intros Hn (H0 & Hl & Hs) Hg. pose proof (grown_length _ _ _ _ Hg). split; [done|]. split; [lia|].
  rewrite <- Hs at 2. eapply grown_high; [exact Hg|done|done].
Qed.

Lemma holds_append l bs : holds (l ++ bs) (sizeOf l) bs.
Proof.
  unfold holds, sizeOf. rewrite length_app. split; [lia|]. split; [lia|]. unfold sub_list.
  by rewrite Nat2Z.id, drop_app_length, take_ge.
Qed.

(** ** The trace of the emission *)

(** What is filled in: the position of a tag, the offset of data or of a sub-assembly, or the size. *)
Inductive Ref : Type := RefTag (target : Z * Z) | RefData (hash : Z) | RefSub (id : Z) | RefSize.

Definition tagRefs (p : Z) (r : option Ref) : list (Z * (Z * Z)) :=
  match r with Some (RefTag t) => [(p, t)] | _ => [] end.
Definition dataRefs (p : Z) (r : option Ref) : list (Z * Z) :=
  match r with Some (RefData h) => [(h, unsigned p)] | _ => [] end.
Definition subRefs (p : Z) (r : option Ref) : list (Z * Z) :=
  match r with Some (RefSub id) => [(id, p)] | _ => [] end.
Definition sizeRefs (p : Z) (r : option Ref) : list Z :=
  match r with Some RefSize => [unsigned p] | _ => [] end.

(** The bytes and the reference of every item. *)
Definition Trace : Type := list (list Z * option Ref).

(** [f] of the references of a trace that starts at [o]. *)
Fixpoint refsOf {A} (f : Z -> option Ref -> list A) (o : Z) (tr : Trace) : list A :=
  match tr with
  | [] => []
  | (c, r) :: tr => f (o + 1) r ++ refsOf f (o + sizeOf c) tr
  end.

Definition allRefs (p : Z) (r : option Ref) : list (Z * Ref) :=
  match r with Some r => [(p, r)] | None => [] end.

Lemma insertMulti_Permutation ref l : insertMulti ref l ≡ₚ l ++ [ref].
Proof.
  induction l as [|ref' l IH]; [done|]. cbn [insertMulti]. destruct (fst ref <? fst ref').
  - by rewrite (Permutation_app_comm (ref' :: l)).
  - by rewrite IH.
Qed.

Section Trace.
Context (linkData : LinkData) (m_subs : list AssembledTree) (nt nd : nat).

Definition refSize (r : Ref) : nat := match r with RefTag _ => nt | _ => nd end.

(** A reference is the room after the first byte. *)
Definition wellSized (t : list Z * option Ref) : Prop :=
  match snd t with Some r => exists b, fst t = b :: hole (refSize r) | None => True end.

(** [e'] may come after [e]. *)
Definition later (e e' : Emission) : Prop :=
  position e <= position e' /\
  (forall k, k < position e -> e_linkReferences e' !! k = e_linkReferences e !! k) /\
  (forall k p, p <> size_t_max -> tagPositions e !! k = Some p -> tagPositions e' !! k = Some p) /\
  (forall id name l, m_immutables linkData !! id = Some name -> e_immutableReferences e !! id = Some (name, l) ->
     exists l', e_immutableReferences e' !! id = Some (name, l ++ l')).

(** What the item [i] at [o] leaves, where [e'] is what it leaves or comes later. *)
Definition emitted (immutables : gmap Z (list Z * list Z)) (o : Z) (i : AssemblyItem) (e' : Emission)
    (c : list Z) (r : option Ref) : Prop :=
  match m_type i with
  | Operation => c = [opcode (m_instruction i)] /\ r = None
  | PushString => (exists s, m_strings linkData !! m_data i = Some s /\ c = opcode PUSH32 :: padded s) /\ r = None
  | Push => c = pushBytes (Nat.max 1 (bytesRequired (m_data i))) (m_data i) /\ r = None
  | PushTag => exists t, splitForeignPushTag i = Some t /\ c = pushByte nt :: hole nt /\ r = Some (RefTag t)
  | PushData => c = pushByte nd :: hole nd /\ r = Some (RefData (m_data i))
  | PushSub => c = pushByte nd :: hole nd /\ r = Some (RefSub (m_data i))
  | PushSubSize =>
      (exists sub, subAssemblyById m_subs (m_subPaths linkData) (m_data i) = Some sub /\
         c = pushBytes (Nat.max 1 (bytesRequired (codeSize sub))) (codeSize sub)) /\ r = None
  | PushProgramSize => c = pushByte nd :: hole nd /\ r = Some RefSize
  | PushLibraryAddress =>
      (exists name, m_libraries linkData !! m_data i = Some name /\ e_linkReferences e' !! (o + 1) = Some name) /\
      c = opcode PUSH20 :: hole 20 /\ r = None
  | PushImmutable =>
      (exists name l, m_immutables linkData !! m_data i = Some name /\
         e_immutableReferences e' !! m_data i = Some (name, l) /\ In (o + 1) l) /\
      c = opcode PUSH32 :: hole 32 /\ r = None
  | AssignImmutable => c = assignCode (occurrences immutables (m_data i)) /\ r = None
  | PushDeployTimeAddress => c = opcode PUSH20 :: hole 20 /\ r = None
  | Tag =>
      tagPositions e' !! Z.to_nat (m_data i mod 2 ^ 64) = Some o /\ o < 0xffffffff /\ c = [opcode JUMPDEST] /\ r = None
  | UndefinedItem => False
  end.

(** The immutables that are left to be assigned after an item. *)
Definition assigned (i : AssemblyItem) (immutables : gmap Z (list Z * list Z)) : gmap Z (list Z * list Z) :=
  match m_type i with AssignImmutable => delete (m_data i) immutables | _ => immutables end.

(** Every link reference has 20 bytes of room. *)
Definition linked (references : gmap Z (list Z)) (c : list Z) : Prop :=
  forall k name, references !! k = Some name -> 0 <= k /\ k + 20 <= sizeOf c.

Definition stepped (i : AssemblyItem) (e e' : Emission) (c : list Z) (r : option Ref) : Prop :=
  code e' = code e ++ c /\ wellSized (c, r) /\
  tagRef e' = tagRef e ++ tagRefs (position e + 1) r /\
  dataRef e' = dataRef e ++ dataRefs (position e + 1) r /\
  subRef e' ≡ₚ subRef e ++ subRefs (position e + 1) r /\
  sizeRef e' = sizeRef e ++ sizeRefs (position e + 1) r /\
  immutableReferencesBySub e' = assigned i (immutableReferencesBySub e) /\
  later e e' /\ emitted (immutableReferencesBySub e) (position e) i e' c r /\
  (linked (e_linkReferences e) (code e) -> linked (e_linkReferences e') (code e')).

Lemma later_refl e : later e e.
Proof. split; [lia|]. split; [done|]. split; [done|]. intros id name l _ H. exists []. by rewrite app_nil_r. Qed.

Lemma later_trans e e' e'' : later e e' -> later e' e'' -> later e e''.
Proof.
  intros (Hp & Hl & Ht & Hi) (Hp' & Hl' & Ht' & Hi'). split; [lia|].
  split; [intros k Hk; rewrite Hl' by lia; by apply Hl|]. split; [intros; by apply Ht', Ht|].
  intros id name l Hn H. destruct (Hi _ _ _ Hn H) as [l' H']. destruct (Hi' _ _ _ Hn H') as [l'' H''].
  exists (l' ++ l''). by rewrite app_assoc.
Qed.

Lemma emitted_later immutables o i e e' c r :
  later e e' -> o + sizeOf c <= position e -> emitted immutables o i e c r -> emitted immutables o i e' c r.
Proof.
  intros (Hp & Hl & Ht & Hi) Ho. unfold emitted. destruct (m_type i); try done.
  - intros (Hpos & Hm & Hc). split; [apply Ht; [unfold size_t_max; lia|done]|done].
  - intros ((name & Hn & Hr) & -> & ->). split; [|done]. exists name.
    rewrite Hl by (unfold sizeOf in Ho; cbn in Ho; lia). done.
  - intros ((name & l & Hn & Hr & Hin) & Hc). split; [|done].
    destruct (Hi _ _ _ Hn Hr) as [l' Hr']. exists name, (l ++ l'). split; [done|]. split; [done|]. apply in_or_app. by left.
Qed.

Lemma noteInvalid_inv i e e0 :
  noteInvalid i e = Some e0 ->
  e0 = e \/ (tagPositions e !! 0%nat = Some size_t_max /\ e0 = set_tagPosition 0 (position e) e).
Proof.
  unfold noteInvalid. destruct (m_type i); try (by intros [= <-]; left);
    (destruct (tagPositions e !! 0%nat) as [pos|]; [|done]; cbn [mbind option_bind];
     destruct (Z.eqb_spec pos size_t_max) as [->|_]; intros [= <-]; [by right|by left]).
Qed.

Lemma set_tagPosition_later id pos e :
  tagPositions e !! Z.to_nat id = Some size_t_max -> later e (set_tagPosition id pos e).
Proof.
  intros Hm. split; [done|]. split; [done|]. split; [|exact (proj2 (proj2 (proj2 (later_refl e))))].
  intros k p Hp Hk. cbn [set_tagPosition tagPositions]. rewrite list_lookup_insert_ne; [done|]. congruence.
Qed.

Lemma position_put bs e : position (put bs e) = position e + sizeOf bs.
Proof. unfold position, put, sizeOf. cbn [code]. rewrite length_app. lia. Qed.

(** An item that adds bytes and at most one reference. *)
Lemma stepped_put i e e1 c r :
  code e1 = code e ++ c -> wellSized (c, r) ->
  tagRef e1 = tagRef e ++ tagRefs (position e + 1) r ->
  dataRef e1 = dataRef e ++ dataRefs (position e + 1) r ->
  subRef e1 ≡ₚ subRef e ++ subRefs (position e + 1) r ->
  sizeRef e1 = sizeRef e ++ sizeRefs (position e + 1) r ->
  e_linkReferences e1 = e_linkReferences e -> tagPositions e1 = tagPositions e ->
  e_immutableReferences e1 = e_immutableReferences e ->
  immutableReferencesBySub e1 = assigned i (immutableReferencesBySub e) ->
  emitted (immutableReferencesBySub e) (position e) i e1 c r -> stepped i e e1 c r.
Proof.
  intros Hc Hw Ht Hd Hs Hz Hl Hp Hi Hb He. do 7 (split; [done|]). split; [|split; [done|]].
  - split; [unfold position, sizeOf; rewrite Hc, length_app; lia|]. rewrite Hl, Hp, Hi. exact (proj2 (later_refl e)).
  - unfold linked, sizeOf. rewrite Hl, Hc, length_app. intros H k name Hk. specialize (H k name Hk). lia.
Qed.

Lemma assigned_other i m : m_type i <> AssignImmutable -> assigned i m = m.
Proof. unfold assigned. by destruct (m_type i). Qed.

(** An item without a reference. *)
Ltac plain_item Ht :=
  do 2 eexists; apply stepped_put with (r := None);
    [reflexivity|done|by rewrite app_nil_r..|done|done|done|by rewrite assigned_other, ?app_nil_r by (rewrite Ht; done)|].

(** An item with a reference: room after a byte. *)
Ltac reference_item b n r Ht :=
  exists (b :: hole n), (Some r); apply stepped_put;
    [cbn [put add_tagRef add_dataRef add_subRef add_sizeRef code]; by rewrite <- app_assoc|by exists b|
     unfold position, sizeOf; cbn [put add_tagRef add_dataRef add_subRef add_sizeRef code tagRef dataRef subRef sizeRef
       tagRefs dataRefs subRefs sizeRefs length]; rewrite ?length_app, ?Nat2Z.inj_add, ?app_nil_r,
       ?insertMulti_Permutation; done..|
     by rewrite assigned_other by (rewrite Ht; done)|unfold emitted; rewrite Ht].

Lemma stepped_note i k p e e' c r :
  tagPositions e !! Z.to_nat k = Some size_t_max -> stepped i (set_tagPosition k p e) e' c r -> stepped i e e' c r.
Proof.
  intros Hk (Hc & Hw & Ht & Hd & Hs & Hz & Hb & Hl & He & Hlink). do 7 (split; [done|]).
  split; [|by split]. by eapply later_trans; [apply set_tagPosition_later|].
Qed.

Lemma emitTag_stepped i e e' :
  m_type i = Tag -> emitItem linkData m_subs nt nd i e = Some e' -> exists c r, stepped i e e' c r.
Proof.
  intros Ht. unfold emitItem. rewrite Ht. destruct (negb (m_data i =? 0)); [|done]. cbn [assertThrow mbind option_bind].
  destruct (splitForeignPushTag i) as [[subId t]|]; [|done]. cbn [mbind option_bind].
  destruct (subId =? size_t_max); [|done]. cbn [assertThrow mbind option_bind].
  destruct (position e <? 0xffffffff) eqn:Hp; [|done]. cbn [assertThrow mbind option_bind]. bool_to_prop.
  destruct (tagPositions e !! Z.to_nat (m_data i mod 2 ^ 64)) as [pos|] eqn:Hpos; [|done]. cbn [mbind option_bind].
  destruct (Z.eqb_spec pos size_t_max) as [->|]; [|done]. cbn [assertThrow mbind option_bind]. intros [= <-].
  exists [opcode JUMPDEST], None. eapply stepped_note; [exact Hpos|].
  apply stepped_put; [reflexivity|done|by rewrite app_nil_r..|done|done|done|by rewrite assigned_other by (rewrite Ht; done)|].
  unfold emitted. rewrite Ht. split; [|done]. cbn [put set_tagPosition tagPositions].
  rewrite list_lookup_insert_eq; [done|]. by apply lookup_lt_is_Some; exists size_t_max.
Qed.

Lemma emitLibrary_stepped i e e' :
  m_type i = PushLibraryAddress -> emitItem linkData m_subs nt nd i e = Some e' -> exists c r, stepped i e e' c r.
Proof.
  intros Ht. unfold emitItem. rewrite Ht. destruct (m_libraries linkData !! m_data i) as [name|] eqn:Hn; [|done].
  cbn [mbind option_bind]. intros [= <-]. exists (opcode PUSH20 :: hole 20), None.
  split; [cbn [put add_linkReference code]; by rewrite <- app_assoc|]. do 5 (split; [by rewrite ?app_nil_r|]).
  split; [by rewrite assigned_other by (rewrite Ht; done)|]. rewrite !position_put.
  change (sizeOf [opcode PUSH20]) with 1. split; [|split].
  - split; [unfold position, sizeOf; cbn [put add_linkReference code]; rewrite !length_app; lia|].
    split; [|exact (proj2 (proj2 (later_refl e)))]. intros k Hk. cbn [put add_linkReference e_linkReferences].
    apply lookup_insert_ne. rewrite ?position_put. unfold sizeOf. cbn [length]. lia.
  - unfold emitted. rewrite Ht. split; [|done]. exists name. split; [done|]. cbn [put add_linkReference e_linkReferences].
    apply lookup_insert_eq.
  - intros Hlink k name' Hk. cbn [put add_linkReference e_linkReferences code] in *.
    unfold sizeOf, position in *. rewrite !length_app. cbn [length hole repeat].
    apply lookup_insert_Some in Hk as [[<- _]|[_ Hk]]; [unfold sizeOf; cbn [length]; lia|].
    specialize (Hlink _ _ Hk). unfold sizeOf in Hlink. lia.
Qed.

Lemma emitImmutable_stepped i e e' :
  m_type i = PushImmutable -> emitItem linkData m_subs nt nd i e = Some e' -> exists c r, stepped i e e' c r.
Proof.
  intros Ht. unfold emitItem. rewrite Ht. destruct (m_immutables linkData !! m_data i) as [name|] eqn:Hn; [|done].
  cbn [mbind option_bind]. intros [= <-]. exists (opcode PUSH32 :: hole 32), None.
  split; [cbn [put add_immutableReference code]; by rewrite <- app_assoc|]. do 5 (split; [by rewrite ?app_nil_r|]).
  split; [by rewrite assigned_other by (rewrite Ht; done)|]. rewrite !position_put.
  change (sizeOf [opcode PUSH32]) with 1. split; [|split].
  - split; [unfold position, sizeOf; cbn [put add_immutableReference code]; rewrite !length_app; lia|].
    split; [done|]. split; [done|]. intros id name' l Hn' Hl. cbn [put add_immutableReference e_immutableReferences].
    destruct (decide (m_data i = id)) as [<-|Hne].
    + rewrite lookup_insert_eq, Hl. replace name' with name by congruence. by eexists.
    + rewrite lookup_insert_ne by done. exists []. by rewrite app_nil_r.
  - unfold emitted. rewrite Ht. split; [|done]. cbn [put add_immutableReference e_immutableReferences].
    do 2 eexists. split; [done|]. split; [apply lookup_insert_eq|]. apply in_or_app. right. by left.
  - intros Hlink k name' Hk. cbn [put add_immutableReference e_linkReferences code] in *.
    specialize (Hlink _ _ Hk). unfold sizeOf in *. rewrite !length_app. lia.
Qed.

Lemma emitItem_stepped i e e' : emitItem linkData m_subs nt nd i e = Some e' -> exists c r, stepped i e e' c r.
Proof.
  intros H0. pose proof H0 as H. unfold emitItem in H. destruct (m_type i) eqn:Ht; try done.
  - injection H as <-. plain_item Ht. unfold emitted. by rewrite Ht.
  - injection H as <-. plain_item Ht. unfold emitted. by rewrite Ht.
  - destruct (m_strings linkData !! m_data i) as [s|] eqn:Hs; [|done]. injection H as <-.
    plain_item Ht. unfold emitted. rewrite Ht. split; [|done]. by exists s.
  - destruct (splitForeignPushTag i) as [t|] eqn:Hs; [|done]. injection H as <-.
    reference_item (pushByte nt) nt (RefTag t) Ht. by exists t.
  - destruct (m_data i <=? size_t_max); [|done]. injection H as <-.
    by reference_item (pushByte nd) nd (RefSub (m_data i)) Ht.
  - destruct (m_data i <=? size_t_max); [|done]. cbn [assertThrow mbind option_bind] in H.
    destruct (subAssemblyById m_subs (m_subPaths linkData) (m_data i)) as [sub|] eqn:Hs; [|done]. injection H as <-.
    plain_item Ht. unfold emitted. rewrite Ht. split; [|done]. by exists sub.
  - injection H as <-. by reference_item (pushByte nd) nd RefSize Ht.
  - by eapply emitTag_stepped.
  - injection H as <-. by reference_item (pushByte nd) nd (RefData (m_data i)) Ht.
  - by eapply emitLibrary_stepped.
  - injection H as <-. plain_item Ht. unfold emitted. by rewrite Ht.
  - by eapply emitImmutable_stepped.
  - injection H as <-. do 2 eexists. apply stepped_put with (r := None); [reflexivity|done|by rewrite app_nil_r..|done|done|done| |].
    + unfold assigned. by rewrite Ht.
    + unfold emitted. by rewrite Ht.
Qed.
(** The items of a trace that starts at [o]. *)
Fixpoint emittedAll (immutables : gmap Z (list Z * list Z)) (o : Z) (items : list AssemblyItem) (e' : Emission)
    (tr : Trace) : Prop :=
  match items, tr with
  | [], [] => True
  | i :: items, (c, r) :: tr =>
      emitted immutables o i e' c r /\ emittedAll (assigned i immutables) (o + sizeOf c) items e' tr
  | _, _ => False
  end.

Definition traced (items : list AssemblyItem) (e e' : Emission) (tr : Trace) : Prop :=
  code e' = code e ++ concat (map fst tr) /\ Forall wellSized tr /\
  tagRef e' = tagRef e ++ refsOf tagRefs (position e) tr /\
  dataRef e' = dataRef e ++ refsOf dataRefs (position e) tr /\
  subRef e' ≡ₚ subRef e ++ refsOf subRefs (position e) tr /\
  sizeRef e' = sizeRef e ++ refsOf sizeRefs (position e) tr /\
  later e e' /\ emittedAll (immutableReferencesBySub e) (position e) items e' tr /\
  (linked (e_linkReferences e) (code e) -> linked (e_linkReferences e') (code e')).

Lemma step_stepped i e e0 e' :
  noteInvalid i e = Some e0 -> emitItem linkData m_subs nt nd i e0 = Some e' -> exists c r, stepped i e e' c r.
Proof.
  intros [->|[Hm ->]]%noteInvalid_inv He; [by eapply emitItem_stepped|].
  destruct (emitItem_stepped _ _ _ He) as (c & r & Hs). exists c, r. by apply (stepped_note i 0 (position e)).
Qed.

Lemma emitItems_traced items e e' : emitItems linkData m_subs nt nd items e = Some e' -> exists tr, traced items e e' tr.
Proof.
  revert e. induction items as [|i items IH]; intros e H; cbn [emitItems] in H.
  - injection H as <-. exists []. repeat (split; [by rewrite ?app_nil_r || constructor|]). split; [apply later_refl|done].
  - destruct (noteInvalid i e) as [e0|] eqn:H0; [|done]. cbn [mbind option_bind] in H.
    destruct (emitItem linkData m_subs nt nd i e0) as [e1|] eqn:H1; [|done]. cbn [mbind option_bind] in H.
    destruct (IH _ H) as (tr & Hc & Hw & Ht & Hd & Hs & Hz & Hl & He & Hlink).
    destruct (step_stepped _ _ _ _ H0 H1) as (c & r & Hc1 & Hw1 & Ht1 & Hd1 & Hs1 & Hz1 & Hb1 & Hl1 & He1 & Hlink1).
    assert (position e1 = position e + sizeOf c) as Hp
      by (unfold position, sizeOf; rewrite Hc1, length_app; lia).
    rewrite Hp, Hb1 in *. exists ((c, r) :: tr). unfold traced. cbn [refsOf map fst concat emittedAll].
    rewrite !app_assoc, <- Hc1, <- Ht1, <- Hd1, <- Hz1. split; [done|]. split; [by constructor|].
    split; [done|]. split; [done|]. split; [by rewrite Hs, Hs1|]. split; [done|].
    split; [by eapply later_trans|]. split; [split; [|done]|by intros HH; apply Hlink, Hlink1].
    eapply emitted_later; [exact Hl|by rewrite Hp|done].
Qed.

(** Where the references are. *)
Lemma refsOf_all {A} (f : Z -> option Ref -> list A) o tr x :
  (forall p, f p None = []) -> In x (refsOf f o tr) ->
  exists p r, In (p, r) (refsOf allRefs o tr) /\ In x (f p (Some r)).
Proof.
  intros Hf. revert o. induction tr as [|[c r] tr IH]; intros o; [done|]. cbn [refsOf]. intros [H|H]%in_app_or.
  - destruct r as [r|]; [|by rewrite Hf in H]. exists (o + 1), r. split; [by left|done].
  - destruct (IH _ H) as (p & r' & Hp & Hx). exists p, r'. split; [apply in_or_app; by right|done].
Qed.

Lemma refsOf_in {A} (f : Z -> option Ref -> list A) o tr p r x :
  In (p, r) (refsOf allRefs o tr) -> In x (f p (Some r)) -> In x (refsOf f o tr).
Proof.
  revert o. induction tr as [|[c r'] tr IH]; intros o; [done|]. cbn [refsOf]. intros [H|H]%in_app_or Hx; apply in_or_app.
  - destruct r' as [r'|]; [|done]. destruct H as [[= -> ->]|[]]. by left.
  - right. by eapply IH.
Qed.

Lemma refsOf_range o tr p r :
  Forall wellSized tr -> In (p, r) (refsOf allRefs o tr) ->
  o + 1 <= p /\ p + Z.of_nat (refSize r) <= o + sizeOf (concat (map fst tr)).
Proof.
  intros Hw. revert o. induction Hw as [|[c r'] tr Hc Hw IH]; intros o; [done|]. cbn [refsOf map fst concat].
  unfold sizeOf in *. rewrite length_app. intros [H|H]%in_app_or.
  - destruct r' as [r'|]; [|done]. destruct H as [[= <- <-]|[]]. destruct Hc as [b Hc]. cbn [fst] in Hc. subst c.
    unfold hole. cbn [length]. rewrite repeat_length. lia.
  - specialize (IH _ H). lia.
Qed.

Lemma refsOf_apart o tr p r p' r' :
  Forall wellSized tr -> In (p, r) (refsOf allRefs o tr) -> In (p', r') (refsOf allRefs o tr) ->
  (p, r) = (p', r') \/ p + Z.of_nat (refSize r) <= p' \/ p' + Z.of_nat (refSize r') <= p.
Proof.
  intros Hw. revert o. induction Hw as [|[c r0] tr Hc Hw IH]; intros o; [done|]. cbn [refsOf].
  assert (forall p r, In (p, r) (allRefs (o + 1) r0) -> p = o + 1 /\ r0 = Some r /\ sizeOf c = 1 + Z.of_nat (refSize r)) as Hh.
  { intros q s Hq. destruct r0 as [r0|]; [|done]. destruct Hq as [[= <- <-]|[]]. destruct Hc as [b Hc]. cbn [fst] in Hc.
    subst c. unfold hole, sizeOf. cbn [length]. rewrite repeat_length. split; [done|]. split; [done|lia]. }
  intros [H|H]%in_app_or [H'|H']%in_app_or; [..|by eapply IH].
  - destruct (Hh _ _ H) as (-> & -> & _), (Hh _ _ H') as (-> & [= ->] & _). by left.
  - destruct (Hh _ _ H) as (-> & -> & Hs). pose proof (refsOf_range _ _ _ _ Hw H'). right. left. lia.
  - destruct (Hh _ _ H') as (-> & -> & Hs). pose proof (refsOf_range _ _ _ _ Hw H). right. right. lia.
Qed.
End Trace.

(** ** Filling in *)

(** The moved link references of an appended object. *)
Lemma moved_lookup (n : Z) (l : list (Z * list Z)) (m : gmap Z (list Z)) k :
  List.NoDup (map fst l) ->
  fold_left (fun m ref => <[fst ref + n := snd ref]> m) l m !! k =
    match assoc (k - n) l with Some v => Some v | None => m !! k end.
Proof.
  revert m. induction l as [|[k' v'] l IH]; intros m Hn; [done|]. cbn [fold_left map fst] in *. inversion Hn as [|? ? Hk Hn']; subst.
  rewrite IH by done. cbn [assoc fst snd]. destruct (decide (k - n = k')) as [<-|Hne].
  - destruct (assoc (k - n) l) as [v|] eqn:Ha.
    + exfalso. apply Hk, in_map_iff. exists (k - n, v). split; [done|]. by apply assoc_In.
    + replace (k - n + n) with k by lia. apply lookup_insert_eq.
  - destruct (assoc (k - n) l); [done|]. apply lookup_insert_ne. lia.
Qed.

Lemma append_links this other k :
  linkReferences (append this other) !! k =
    match linkReferences other !! (k - sizeOf (bytecode this)) with Some v => Some v | None => linkReferences this !! k end.
Proof. unfold append. cbn [linkReferences]. rewrite moved_lookup by apply ordered_nodup. by rewrite assoc_ordered. Qed.

Lemma append_linked this other :
  linked (linkReferences this) (bytecode this) -> linked (linkReferences other) (bytecode other) ->
  linked (linkReferences (append this other)) (bytecode (append this other)).
Proof.
  intros Ht Ho k name. rewrite append_links. cbn [append bytecode]. unfold sizeOf in *. rewrite length_app.
  destruct (linkReferences other !! _) as [v|] eqn:E.
  - intros _. specialize (Ho _ _ E). unfold sizeOf in Ho. lia.
  - intros Hk. specialize (Ht _ _ Hk). unfold sizeOf in Ht. lia.
Qed.

Section Fill.
Context (linkData : LinkData) (m_subs : list AssembledTree) (nt nd : nat).

(** The code of a sub-assembly is at [off], with its link references. *)
Definition placed (ret : LinkerObject) (off : Z) (sub : LinkerObject) : Prop :=
  holds (bytecode ret) off (bytecode sub) /\
  forall k name, linkReferences sub !! k = Some name -> linkReferences ret !! (off + k) = Some name.

(** The object [ret'] is [ret] after patches and additions that do not touch what was there. *)
Definition extends (n : Z) (P : list (Z * list Z)) (ret ret' : LinkerObject) : Prop :=
  grown n P (bytecode ret) (bytecode ret') /\
  (forall k, k < sizeOf (bytecode ret) -> linkReferences ret' !! k = linkReferences ret !! k) /\
  linked (linkReferences ret') (bytecode ret') /\ immutableReferences ret' = immutableReferences ret.

Lemma layout_extends_trans n P P' ret ret' ret'' :
  extends n P ret ret' -> extends n P' ret' ret'' -> extends n (P ++ P') ret ret''.
Proof.
  intros (Hg & Hl & Hk & Hi) (Hg' & Hl' & Hk' & Hi'). split; [by eapply grown_trans|].
  split; [|split; [done|congruence]]. intros k Hlt. pose proof (grown_length _ _ _ _ Hg). rewrite Hl' by lia. by apply Hl.
Qed.

Lemma linked_length references c c' : sizeOf c <= sizeOf c' -> linked references c -> linked references c'.
Proof. intros Hc H k name Hk. specialize (H k name Hk). lia. Qed.

(** A change of the code alone. *)
Lemma extends_onCode n P ret c :
  linked (linkReferences ret) (bytecode ret) -> grown n P (bytecode ret) c -> extends n P ret (onCode (fun _ => c) ret).
Proof.
  intros Hl Hg. split; [done|]. split; [done|]. split; [|done]. eapply linked_length; [|exact Hl]. by eapply grown_length.
Qed.

Lemma placed_extends n P ret ret' off sub :
  0 <= n <= off -> linked (linkReferences sub) (bytecode sub) ->
  placed ret off sub -> extends n P ret ret' -> placed ret' off sub.
Proof.
  intros Hn Hs [Hh Hl] (Hg & Hk & _). split; [by eapply holds_grown|]. intros k name Hkn.
  destruct (Hs _ _ Hkn). destruct Hh as (_ & Hh & _). rewrite Hk by lia. by apply Hl.
Qed.

Lemma extends_append n ret other :
  n <= sizeOf (bytecode ret) -> linked (linkReferences ret) (bytecode ret) -> linked (linkReferences other) (bytecode other) ->
  extends n [] ret (append ret other) /\ placed (append ret other) (sizeOf (bytecode ret)) other.
Proof.
  intros Hn Hr Ho. split.
  - split; [by apply grown_append|]. split; [|split; [by apply append_linked|done]].
    intros k Hk. rewrite append_links. destruct (linkReferences other !! _) as [v|] eqn:E; [|done].
    specialize (Ho _ _ E). lia.
  - split; [apply holds_append|]. intros k name Hk. rewrite append_links.
    replace (sizeOf (bytecode ret) + k - sizeOf (bytecode ret)) with k by lia. by rewrite Hk.
Qed.

Definition subPatch (at_ : Z -> Z) (ref : Z * Z) : Z * list Z := (snd ref, toBigEndian nd (at_ (snd ref))).

Lemma placeSubs_extends n refs ret ret' :
  (forall id sub, subAssemblyById m_subs (m_subPaths linkData) id = Some sub ->
     linked (linkReferences (a_object sub)) (bytecode (a_object sub))) ->
  0 <= n <= sizeOf (bytecode ret) -> linked (linkReferences ret) (bytecode ret) ->
  Forall (fun ref => 0 <= snd ref /\ snd ref + Z.of_nat nd <= n) refs -> List.NoDup (map snd refs) ->
  placeSubs linkData m_subs nd refs ret = Some ret' ->
  exists at_, extends n (map (subPatch at_) refs) ret ret' /\
    forall id p, In (id, p) refs -> exists sub,
      subAssemblyById m_subs (m_subPaths linkData) id = Some sub /\ n <= at_ p /\ placed ret' (at_ p) (a_object sub).
Proof.
  intros Hsubs Hn. assert (0 <= n) as H0 by lia. revert ret Hn.
  induction refs as [|[id p] refs IH]; intros ret Hn Hl Hr Hd H; cbn [placeSubs] in H.
  - injection H as <-. exists (fun _ => 0). split; [|done]. split; [apply grown_refl; lia|done].
  - apply Forall_cons in Hr as [Hp Hr]. cbn [snd map] in *. inversion Hd as [|? ? Hnot Hd']; subst.
    destruct (subAssemblyById m_subs (m_subPaths linkData) id) as [sub|] eqn:Hsub; [|done].
    cbn [mbind option_bind] in H. set (size := sizeOf (bytecode ret)) in *.
    set (ret1 := onCode (write p (toBigEndian nd size)) ret) in *.
    assert (extends n [(p, toBigEndian nd size)] ret ret1) as H1.
    { apply extends_onCode; [done|]. apply grown_write; unfold sizeOf in *; rewrite ?toBigEndian_length; lia. }
    assert (sizeOf (bytecode ret1) = size) as Hsize by (unfold sizeOf, ret1; cbn [onCode bytecode]; by rewrite write_length).
    destruct (extends_append n ret1 (a_object sub)) as [H2 Hplaced]; [lia|apply H1|by eapply Hsubs|].
    destruct (IH (append ret1 (a_object sub))) as (at_ & H3 & Hat); [|apply H2|done|done|done|].
    { pose proof (grown_length _ _ _ _ (proj1 H2)). lia. }
    exists (fun q => if decide (q = p) then size else at_ q).
    assert (map (subPatch (fun q => if decide (q = p) then size else at_ q)) refs = map (subPatch at_) refs) as Hmap.
    { apply map_ext_in. intros [id' q] Hq. unfold subPatch. cbn [snd]. rewrite decide_False; [done|].
      intros ->. apply Hnot, in_map_iff. by exists (id', p). }
    split.
    + unfold subPatch at 1. cbn [map snd]. rewrite decide_True by done. rewrite Hmap.
      change (?x :: ?l) with ([x] ++ [] ++ l). eapply layout_extends_trans; [exact H1|]. by eapply layout_extends_trans.
    + intros id' q [[= <- <-]|Hq].
      * exists sub. rewrite decide_True by done. split; [done|]. split; [lia|].
        eapply placed_extends; [|by eapply Hsubs| |exact H3]; [lia|]. by rewrite <- Hsize.
      * destruct (Hat _ _ Hq) as (sub' & Hsub' & Ha & Hpl). exists sub'. rewrite decide_False; [done|].
        intros ->. apply Hnot, in_map_iff. by exists (id', p).
Qed.

Definition tagPatch (positions : list Z) (ref : Z * (Z * Z)) : Z * list Z :=
  (fst ref, toBigEndian nt (default 0 (lookupTag m_subs nt positions (fst (snd ref)) (snd (snd ref))))).

Lemma fillTags_extends n positions refs ret ret' :
  n <= sizeOf (bytecode ret) -> linked (linkReferences ret) (bytecode ret) ->
  Forall (fun ref => 0 <= fst ref /\ fst ref + Z.of_nat nt <= n) refs ->
  fillTags m_subs nt positions refs ret = Some ret' ->
  extends n (map (tagPatch positions) refs) ret ret' /\
  forall p t, In (p, t) refs -> is_Some (lookupTag m_subs nt positions (fst t) (snd t)).
Proof.
  intros Hn Hl Hr. revert ret Hn Hl. induction Hr as [|[p [s t]] refs Hp Hr IH]; intros ret Hn Hl H; cbn [fillTags] in H.
  - injection H as <-. split; [|done]. split; [by apply grown_refl|done].
  - destruct (lookupTag m_subs nt positions s t) as [pos|] eqn:Ht; [|done]. cbn [mbind option_bind fst] in *.
    assert (extends n [(p, toBigEndian nt pos)] ret (onCode (write p (toBigEndian nt pos)) ret)) as H1.
    { apply extends_onCode; [done|]. apply grown_write; unfold sizeOf in *; rewrite ?toBigEndian_length; lia. }
    destruct (fun a b => IH _ a b H) as [H2 Hs]; [pose proof (grown_length _ _ _ _ (proj1 H1)); lia|apply H1|].
    split.
    + cbn [map]. unfold tagPatch at 1. cbn [fst snd]. rewrite Ht. change (?x :: ?l) with ([x] ++ l). by eapply layout_extends_trans.
    + intros q u [[= <- <-]|Hq]; [cbn [fst snd]; rewrite Ht; by eexists|by eapply Hs].
Qed.

(** Writes of the same bytes, one after the other. *)
Lemma fold_writes n (bs : list Z -> list Z) (ps : list Z) c :
  (forall c c' : list Z, sizeOf c = sizeOf c' -> bs c = bs c') ->
  fold_left (fun c p => write p (bs c) c) ps c = patch (map (fun p => (p, bs c)) ps) c /\
  (n <= sizeOf c -> Forall (fun p => 0 <= p /\ p + sizeOf (bs c) <= n) ps ->
   grown n (map (fun p => (p, bs c)) ps) c (patch (map (fun p => (p, bs c)) ps) c)).
Proof.
  intros Hb. split.
  - assert (forall c0, sizeOf c0 = sizeOf c ->
      fold_left (fun c p => write p (bs c) c) ps c0 = patch (map (fun p => (p, bs c)) ps) c0) as Hg; [|by apply Hg].
    induction ps as [|p ps IH]; intros c0 Hc; [done|]. cbn [fold_left map]. rewrite patch_cons. cbn [fst snd].
    rewrite (Hb c0 c Hc). apply IH. unfold sizeOf in *. by rewrite write_length.
  - intros Hn Hp. split; [done|]. split; [|exists []; by rewrite app_nil_r].
    unfold below. apply Forall_map. eapply Forall_impl; [exact Hp|done].
Qed.

Lemma toBigEndian_sizes (c c' : list Z) : sizeOf c = sizeOf c' -> toBigEndian nd (sizeOf c) = toBigEndian nd (sizeOf c').
Proof. by intros ->. Qed.

Lemma fillSizes_extends n refs ret :
  n <= sizeOf (bytecode ret) -> linked (linkReferences ret) (bytecode ret) ->
  Forall (fun p => 0 <= p /\ p + Z.of_nat nd <= n) refs ->
  extends n (map (fun p => (p, toBigEndian nd (sizeOf (bytecode ret)))) refs) ret (fillSizes nd refs ret).
Proof.
  intros Hn Hl Hr. destruct (fold_writes n (fun c => toBigEndian nd (sizeOf c)) refs (bytecode ret) toBigEndian_sizes) as [He Hg].
  unfold fillSizes. apply (extends_onCode n _ ret); [done|]. rewrite He. apply Hg; [done|].
  eapply Forall_impl; [exact Hr|]. intros p. cbn beta. unfold sizeOf. by rewrite toBigEndian_length.
Qed.

(** The references to a piece of data. *)
Definition dataPatches (dataRef : list (Z * Z)) (h off : Z) : list (Z * list Z) :=
  map (fun p => (p, toBigEndian nd off)) (map snd (List.filter (fun ref => fst ref =? h) dataRef)).

Lemma fold_left_snd {A} (f : A -> Z -> A) (l : list (Z * Z)) c :
  fold_left (fun c ref => f c (snd ref)) l c = fold_left f (map snd l) c.
Proof. revert c. induction l as [|r l IH]; intros c; [done|]. apply IH. Qed.

Lemma placeData_step n dataRef hash data ret :
  n <= sizeOf (bytecode ret) -> linked (linkReferences ret) (bytecode ret) ->
  Forall (fun ref => 0 <= snd ref /\ snd ref + Z.of_nat nd <= n) dataRef ->
  let filled := fold_left (fun c ref => write (snd ref) (toBigEndian nd (sizeOf c)) c)
                  (List.filter (fun ref => fst ref =? hash) dataRef) (bytecode ret) in
  extends n (dataPatches dataRef hash (sizeOf (bytecode ret))) ret (onCode (fun _ => filled ++ data) ret) /\
  holds (filled ++ data) (sizeOf (bytecode ret)) data.
Proof.
  intros Hn Hl Hr filled. set (refs := List.filter (fun ref => fst ref =? hash) dataRef) in *.
  destruct (fold_writes n (fun c => toBigEndian nd (sizeOf c)) (map snd refs) (bytecode ret) toBigEndian_sizes) as [He Hg].
  assert (filled = patch (dataPatches dataRef hash (sizeOf (bytecode ret))) (bytecode ret)) as Hf.
  { unfold dataPatches. fold refs. rewrite <- He.
    apply (fold_left_snd (fun c p => write p (toBigEndian nd (sizeOf c)) c)). }
  assert (sizeOf filled = sizeOf (bytecode ret)) as Hs by (unfold sizeOf; by rewrite Hf, patch_length).
  split; [|rewrite <- Hs; apply holds_append].
  apply extends_onCode; [done|]. rewrite <- (app_nil_r (dataPatches _ _ _)).
  apply (grown_trans n _ _ _ filled); [|apply grown_append; lia]. rewrite Hf. apply Hg; [done|].
  apply Forall_map, List.Forall_forall. intros ref [Hin _]%filter_In. unfold sizeOf. rewrite toBigEndian_length.
  exact (proj1 (List.Forall_forall _ _) Hr _ Hin).
Qed.

(** What is known after the data is placed. *)
Definition dataPlaced (n : Z) (dataRef : list (Z * Z)) (m_data : list (Z * list Z)) (at_ : Z -> Z)
    (P : list (Z * list Z)) (ret' : LinkerObject) : Prop :=
  (forall pb, In pb P -> exists h data, In (h, fst pb) dataRef /\ In (h, data) m_data /\ snd pb = toBigEndian nd (at_ h)) /\
  (forall h p data, In (h, p) dataRef -> In (h, data) m_data ->
     In (p, toBigEndian nd (at_ h)) P /\ n <= at_ h /\ holds (bytecode ret') (at_ h) data).

(** Data nothing refers to is not placed. *)
Lemma dataPlaced_skip n dataRef hash data m_data at_ P ret' :
  List.filter (fun ref => fst ref =? hash) dataRef = [] ->
  dataPlaced n dataRef m_data at_ P ret' -> dataPlaced n dataRef ((hash, data) :: m_data) at_ P ret'.
Proof.
  intros Hf [HP Hd]. split.
  - intros pb Hpb. destruct (HP _ Hpb) as (h & d & ? & ? & ?). exists h, d. split; [done|]. split; [by right|done].
  - intros h p d Hin [[= <- <-]|Hm]; [|by apply Hd]. exfalso.
    apply (in_nil (a := (hash, p))). rewrite <- Hf. apply filter_In. split; [done|]. cbn [fst]. by rewrite Z.eqb_refl.
Qed.

(** Data that is placed first, at [off]. *)
Lemma dataPlaced_cons n dataRef hash data m_data at_ P P1 off ret1 ret' :
  ~ In hash (map fst m_data) -> P1 = dataPatches dataRef hash off -> 0 <= n <= off ->
  holds (bytecode ret1) off data -> extends n P ret1 ret' ->
  dataPlaced n dataRef m_data at_ P ret' ->
  dataPlaced n dataRef ((hash, data) :: m_data) (fun h => if h =? hash then off else at_ h) (P1 ++ P) ret'.
Proof.
  intros Hnot -> Hn Hh Hx [HP Hd].
  assert (forall h d, In (h, d) m_data -> (h =? hash) = false) as Hne.
  { intros h d Hin. apply Z.eqb_neq. intros ->. apply Hnot, in_map_iff. by exists (hash, d). }
  split.
  - intros pb [Hpb|Hpb]%in_app_or.
    + apply in_map_iff in Hpb as (p & <- & ([h p'] & <- & [Hin Hf]%filter_In)%in_map_iff). cbn [fst snd] in *.
      apply Z.eqb_eq in Hf as ->. exists hash, data. rewrite Z.eqb_refl. split; [done|]. split; [by left|done].
    + destruct (HP _ Hpb) as (h & d & Hin & Hm & Hv). exists h, d. rewrite (Hne _ _ Hm).
      split; [done|]. split; [by right|done].
  - intros h p d Hin [[= <- <-]|Hm].
    + rewrite Z.eqb_refl. split; [|split; [lia|by eapply holds_grown; [|exact Hh|apply Hx]]].
      apply in_or_app. left. apply in_map_iff. exists p. split; [done|]. apply in_map_iff. exists (hash, p). split; [done|].
      apply filter_In. split; [done|apply Z.eqb_refl].
    + rewrite (Hne _ _ Hm). destruct (Hd _ _ _ Hin Hm) as (Hp & Hr). split; [apply in_or_app; by right|done].
Qed.

Lemma placeData_extends n dataRef m_data ret :
  0 <= n <= sizeOf (bytecode ret) -> linked (linkReferences ret) (bytecode ret) ->
  Forall (fun ref => 0 <= snd ref /\ snd ref + Z.of_nat nd <= n) dataRef -> List.NoDup (map fst m_data) ->
  exists at_ P, extends n P ret (placeData nd dataRef m_data ret) /\
    dataPlaced n dataRef m_data at_ P (placeData nd dataRef m_data ret).
Proof.
  intros Hn Hl Hr. revert ret Hn Hl. induction m_data as [|[hash data] m_data IH]; intros ret Hn Hl Hd; cbn [placeData].
  - exists (fun _ => 0), []. split; [|done]. split; [apply grown_refl; lia|done].
  - cbn [map fst] in Hd. inversion Hd as [|? ? Hnot Hd']; subst.
    destruct (placeData_step n dataRef hash data ret ltac:(lia) Hl Hr) as [H1 Hh].
    destruct (List.filter _ dataRef) as [|r refs] eqn:Hf.
    + destruct (IH ret Hn Hl Hd') as (at_ & P & Hx & Hp). exists at_, P. split; [done|]. by apply dataPlaced_skip.
    + rewrite <- Hf in *.
      match goal with |- context [placeData nd dataRef m_data ?o] => set (ret1 := o) in * end.
      destruct (IH ret1) as (at_ & P & Hx & Hp); [|apply H1|done|].
      { pose proof (grown_length _ _ _ _ (proj1 H1)). lia. }
      do 2 eexists. split; [by eapply layout_extends_trans|].
      eapply (dataPlaced_cons _ _ _ _ _ _ _ _ _ ret1); [exact Hnot|done|done|exact Hh|exact Hx|exact Hp].
Qed.
End Fill.

(** ** All phases *)

(** The link references of the sub-assemblies are in their code. *)
Definition subsLinked (linkData : LinkData) (m_subs : list AssembledTree) : Prop :=
  forall id sub, subAssemblyById m_subs (m_subPaths linkData) id = Some sub ->
    linked (linkReferences (a_object sub)) (bytecode (a_object sub)).

Definition startEmission (linkData : LinkData) (immutables : gmap Z (list Z * list Z)) : Emission :=
  mkEmission [] (repeat size_t_max (Z.to_nat (m_usedTags linkData))) [] [] [] [] ∅ ∅ immutables.

Lemma unsigned_range x : 0 <= x -> 0 <= unsigned x <= x.
Proof. intros Hx. unfold unsigned. split; [apply Z.mod_pos_bound; lia|by apply Z.mod_le]. Qed.

Section Phases.
Context (linkData : LinkData) (m_data : gmap Z (list Z)) (m_subs : list AssembledTree) (nt nd : nat).

(** The references of a trace lie in the code. *)
Lemma refs_in_code {A} (f : Z -> option Ref -> list A) (pos : A -> Z) (size : nat) tr :
  (forall p, f p None = []) ->
  (forall p r x, 0 <= p -> In x (f p (Some r)) -> 0 <= pos x <= p /\ size = refSize nt nd r) -> Forall (wellSized nt nd) tr ->
  Forall (fun x => 0 <= pos x /\ pos x + Z.of_nat size <= sizeOf (concat (map fst tr))) (refsOf f 0 tr).
Proof.
  intros Hn Hf Hw. apply List.Forall_forall. intros x Hx. destruct (refsOf_all f 0 tr x Hn Hx) as (p & r & Hp & Hx').
  pose proof (refsOf_range _ _ _ _ _ _ Hw Hp). destruct (Hf p r x ltac:(lia) Hx') as [Hpos ->]. lia.
Qed.

Lemma refs_nodup {A} (f : Z -> option Ref -> list A) (pos : A -> Z) o tr :
  (forall p, f p None = []) -> (forall p r x, In x (f p (Some r)) -> pos x = p) ->
  (forall p r, (length (f p r) <= 1)%nat) -> Forall (wellSized nt nd) tr -> List.NoDup (map pos (refsOf f o tr)).
Proof.
  intros Hn Hf Hl Hw. revert o. induction Hw as [|[c r] tr Hc Hw IH]; intros o; [constructor|]. cbn [refsOf].
  specialize (Hl (o + 1) r). destruct (f (o + 1) r) as [|x [|]] eqn:E; [apply IH| |cbn in Hl; lia]. cbn [app map].
  constructor; [|apply IH]. intros (y & Hy & Hin)%in_map_iff.
  destruct r as [r|]; [|by rewrite Hn in E]. assert (pos x = o + 1) as Hx by (eapply Hf; rewrite E; by left).
  destruct (refsOf_all f _ tr y Hn Hin) as (p & r' & Hp & Hy'). rewrite (Hf _ _ _ Hy') in Hy.
  pose proof (refsOf_range _ _ _ _ _ _ Hw Hp). destruct Hc as [b Hc]. cbn [fst] in Hc. subst c.
  unfold sizeOf in *. cbn [length] in *. lia.
Qed.

(** What the phases leave of an emission. *)
Record phases (e : Emission) (sep : list Z) (atS atD : Z -> Z) (PD : list (Z * list Z)) (a : AssembledTree) : Prop := {
  ph_positions : a_positions a = tagPositions e;
  ph_subs : a_subs a = m_subs;
  ph_extends :
    extends (sizeOf (code e))
      (map (subPatch nd atS) (subRef e) ++ map (tagPatch m_subs nt (tagPositions e)) (tagRef e) ++ PD ++
         map (fun p => (p, toBigEndian nd (sizeOf (bytecode (a_object a))))) (sizeRef e))
      (mkLinkerObject (code e ++ sep) (e_linkReferences e) (e_immutableReferences e)) (a_object a);
  ph_sub : forall id p, In (id, p) (subRef e) -> exists sub,
    subAssemblyById m_subs (m_subPaths linkData) id = Some sub /\ placed (a_object a) (atS p) (a_object sub);
  ph_tag : forall p t, In (p, t) (tagRef e) -> is_Some (lookupTag m_subs nt (tagPositions e) (fst t) (snd t));
  ph_data : dataPlaced nd (sizeOf (code e)) (dataRef e) (ordered m_data) atD PD (a_object a);
  ph_aux : exists off, off + sizeOf (m_auxiliaryData linkData) = sizeOf (bytecode (a_object a)) /\
    holds (bytecode (a_object a)) off (m_auxiliaryData linkData);
  ph_sep : sep = if nonEmpty m_subs || negb (bool_decide (m_data = ∅)) || nonEmpty (m_auxiliaryData linkData)
                 then [opcode INVALID] else [] }.

Lemma extends_add n ret t : n <= sizeOf (bytecode ret) -> linked (linkReferences ret) (bytecode ret) ->
  extends n [] ret (onCode (fun c => c ++ t) ret).
Proof.
  intros Hn Hl. apply (extends_onCode n [] ret (bytecode ret ++ t)); [done|]. by apply grown_append.
Qed.

Lemma extends_length n P ret ret' : extends n P ret ret' -> sizeOf (bytecode ret) <= sizeOf (bytecode ret').
Proof. intros [Hg _]. by eapply grown_length. Qed.

Lemma fillSizes_length refs ret : sizeOf (bytecode (fillSizes nd refs ret)) = sizeOf (bytecode ret).
Proof.
  unfold fillSizes. cbn [onCode bytecode].
  destruct (fold_writes 0 (fun c => toBigEndian nd (sizeOf c)) refs (bytecode ret) (toBigEndian_sizes nd)) as [-> _].
  unfold sizeOf. by rewrite patch_length.
Qed.

Lemma dataPlaced_extends n refs data atD PD P ret ret' :
  0 <= n -> dataPlaced nd n refs data atD PD ret -> extends n P ret ret' -> dataPlaced nd n refs data atD PD ret'.
Proof.
  intros Hn [HP HD] [Hg _]. split; [done|]. intros h p d Hin Hm. destruct (HD h p d Hin Hm) as (Hp & Hat & Hh).
  split; [done|]. split; [done|]. by eapply holds_grown; [|exact Hh|exact Hg].
Qed.

Lemma emitAll_phases items immutables a :
  subsLinked linkData m_subs -> emitAll items m_data linkData m_subs immutables (nt, nd) = Some a ->
  exists e tr sep atS atD PD,
    traced linkData m_subs nt nd items (startEmission linkData immutables) e tr /\ phases e sep atS atD PD a.
Proof.
  intros Hsubs. unfold emitAll. fold (startEmission linkData immutables).
  destruct (emitItems _ _ _ _ _ _) as [e|] eqn:He; [|done]. cbn [mbind option_bind].
  destruct (bool_decide (immutableReferencesBySub e = ∅)); [|done]. cbn [assertThrow mbind option_bind].
  set (sep := if _ : bool then [opcode INVALID] else []).
  set (ret := mkLinkerObject (code e ++ sep) (e_linkReferences e) (e_immutableReferences e)).
  destruct (placeSubs _ _ _ _ _) as [ret1|] eqn:H1; [|done]. cbn [mbind option_bind].
  destruct (fillTags _ _ _ _ _) as [ret2|] eqn:H2; [|done]. cbn [mbind option_bind]. intros [= <-].
  apply emitItems_traced in He as [tr Htr]. exists e, tr, sep.
  pose proof Htr as (Hc & Hw & Ht & Hd & Hs & Hz & Hl & Hem & Hlink). cbn [startEmission code tagRef dataRef subRef sizeRef app] in *.
  change (position (startEmission linkData immutables)) with 0 in *.
  set (n := sizeOf (code e)). assert (0 <= n) as H0 by apply Nat2Z.is_nonneg. assert (n = sizeOf (concat (map fst tr))) as Hn by (unfold n; by rewrite Hc).
  assert (n <= sizeOf (bytecode ret)) as Hnret by (unfold n, ret, sizeOf; cbn [bytecode]; rewrite length_app; lia).
  assert (linked (linkReferences ret) (bytecode ret)) as Hlret.
  { eapply linked_length; [|apply Hlink; intros k name Hk; cbn [startEmission e_linkReferences] in Hk; by rewrite lookup_empty in Hk]. done. }
  destruct (placeSubs_extends linkData m_subs nd n (subRef e) ret ret1) as (atS & X1 & HS); [done|done|done|..|done|].
  { rewrite Hs, Hn. apply (refs_in_code subRefs snd nd); [done| |done]. intros p [] x Hp; try done. intros [<-|[]]. cbn. lia. }
  { apply NoDup_ListNoDup. rewrite Hs. apply NoDup_ListNoDup, (refs_nodup subRefs snd); [done|..|by intros p [[]|]; cbn; lia|done].
    intros p [] x; try done. by intros [<-|[]]. }
  pose proof (extends_length _ _ _ _ X1) as L1.
  destruct (fillTags_extends m_subs nt n (tagPositions e) (tagRef e) ret1 ret2) as (X2 & HT); [lia|apply X1| |done|].
  { rewrite Ht, Hn. apply (refs_in_code tagRefs fst nt); [done| |done]. intros p [] x Hp; try done. intros [<-|[]]. cbn. lia. }
  pose proof (extends_length _ _ _ _ X2) as L2.
  destruct (placeData_extends nd n (dataRef e) (ordered m_data) ret2) as (atD & PD & X3 & HD); [lia|apply X2| |apply ordered_nodup|].
  { rewrite Hd, Hn. apply (refs_in_code dataRefs snd nd); [done| |done]. intros p [] x Hp; try done.
    intros [<-|[]]. split; [by apply unsigned_range|done]. }
  pose proof (extends_length _ _ _ _ X3) as L3.
  pose proof (extends_add n (placeData nd (dataRef e) (ordered m_data) ret2) (m_auxiliaryData linkData) ltac:(lia) ltac:(apply X3)) as X4.
  pose proof (extends_length _ _ _ _ X4) as L4.
  match type of X4 with extends _ _ _ ?o => set (ret4 := o) in * end.
  pose proof (fillSizes_extends nd n (sizeRef e) ret4 ltac:(lia) ltac:(apply X4)) as X5.
  rewrite <- (fillSizes_length (sizeRef e) ret4) in X5.
  assert (Forall (fun p => 0 <= p /\ p + Z.of_nat nd <= n) (sizeRef e)) as Hsz.
  { rewrite Hz, Hn. apply (refs_in_code sizeRefs id nd); [done| |done]. intros p [] x Hp; try done.
    intros [<-|[]]. split; [by apply unsigned_range|done]. }
  specialize (X5 Hsz). pose proof (layout_extends_trans _ _ _ _ _ _ X4 X5) as X45. cbn [app] in X45.
  pose proof (layout_extends_trans _ _ _ _ _ _ X3 X45) as X35. pose proof (layout_extends_trans _ _ _ _ _ _ X2 X35) as X25.
  exists atS, atD, PD. split; [done|]. constructor; [done|done|..].
  - by eapply layout_extends_trans.
  - intros id p Hin. destruct (HS id p Hin) as (sub & Hsub & Hat & Hp). exists sub. split; [done|].
    eapply placed_extends; [|by eapply Hsubs|exact Hp|exact X25]. lia.
  - done.
  - eapply dataPlaced_extends; [|exact HD|exact X45]. lia.
  - exists (sizeOf (bytecode (placeData nd (dataRef e) (ordered m_data) ret2))). cbn [a_object]. split.
    + rewrite fillSizes_length. unfold ret4, sizeOf. cbn [onCode bytecode]. rewrite length_app. lia.
    + eapply holds_grown; [|apply holds_append|apply X5]. lia.
  - done.
Qed.
End Phases.
