(* ===== verification/AssembleTheorems.v ===== *)
(** * AssembleTheorems: assembled code is laid out as its items say

    [itemCode] says what bytes an item stands for, given where tags, data and sub-assemblies are in
    the finished object; [laidOut] says it of a list of items. *)

From Stdlib Require Import Ascii.
From S2P Require Import Prelude U256 CommonData Instruction AssemblyItem KnownState RuleList ConstantOptimiser LinkerObject Assemble AssembleSound.

(** ** The specification *)

Section Spec.
Context (linkData : LinkData) (assemblyData : gmap Z (list Z)) (m_subs : list AssembledTree).
Context (obj : LinkerObject) (positions : list Z) (nt nd : nat).

(** The bytes [c] of the item [i] at [o], where [nt] bytes are reserved for tags and [nd] for other
    references; [immutables] are those not assigned yet. *)
Definition itemCode (immutables : gmap Z (list Z * list Z)) (o : Z) (i : AssemblyItem) (c : list Z) : Prop :=
  match m_type i with
  | Operation => c = [opcode (m_instruction i)]
  | PushString => exists s, m_strings linkData !! m_data i = Some s /\ c = opcode PUSH32 :: padded s
  | Push => c = pushBytes (Nat.max 1 (bytesRequired (m_data i))) (m_data i)
  | PushTag => exists subId tagId pos, splitForeignPushTag i = Some (subId, tagId) /\
      lookupTag m_subs nt positions subId tagId = Some pos /\ c = pushBytes nt pos
  | PushData =>
      match assemblyData !! m_data i with
      | Some data => exists off, c = pushBytes nd off /\ holds (bytecode obj) off data
      | None => c = pushByte nd :: hole nd
      end
  | PushSub => exists sub off, subAssemblyById m_subs (m_subPaths linkData) (m_data i) = Some sub /\
      c = pushBytes nd off /\ placed obj off (a_object sub)
  | PushSubSize => exists sub, subAssemblyById m_subs (m_subPaths linkData) (m_data i) = Some sub /\
      c = pushBytes (Nat.max 1 (bytesRequired (codeSize sub))) (codeSize sub)
  | PushProgramSize => c = pushBytes nd (sizeOf (bytecode obj))
  | PushLibraryAddress => exists name, m_libraries linkData !! m_data i = Some name /\
      linkReferences obj !! (o + 1) = Some name /\ c = opcode PUSH20 :: hole 20
  | PushImmutable => exists name l, m_immutables linkData !! m_data i = Some name /\
      immutableReferences obj !! m_data i = Some (name, l) /\ In (o + 1) l /\ c = opcode PUSH32 :: hole 32
  | AssignImmutable => c = assignCode (occurrences immutables (m_data i))
  | PushDeployTimeAddress => c = opcode PUSH20 :: hole 20
  | Tag => positions !! Z.to_nat (m_data i mod 2 ^ 64) = Some o /\ c = [opcode JUMPDEST]
  | UndefinedItem => False
  end.

Fixpoint laidOut (immutables : gmap Z (list Z * list Z)) (o : Z) (items : list AssemblyItem) (chunks : list (list Z)) : Prop :=
  match items, chunks with
  | [], [] => True
  | i :: items, c :: chunks => itemCode immutables o i c /\ laidOut (assigned i immutables) (o + sizeOf c) items chunks
  | _, _ => False
  end.
End Spec.

(** ** From the trace to the layout *)

Section Filled.
Context (nt nd : nat) (F : list Z) (P : list (Z * list Z)) (val : Z -> Ref -> list Z).

Definition filled (o : Z) (c : list Z) (r : option Ref) : list Z :=
  match r with None => c | Some r => take 1 c ++ val (o + 1) r end.

(** The bytes of every entry of the trace in the finished code. *)
Fixpoint cut (o : Z) (tr : Trace) : list (list Z) :=
  match tr with
  | [] => []
  | (c, _) :: tr => sub_list o (length c) F :: cut (o + sizeOf c) tr
  end.

Fixpoint filledAll (o : Z) (tr : Trace) : Prop :=
  match tr with
  | [] => True
  | (c, r) :: tr => sub_list o (length c) F = filled o c r /\ filledAll (o + sizeOf c) tr
  end.

Lemma sub_list_split o a b (l : list Z) : 0 <= o ->
  sub_list o (a + b) l = sub_list o a l ++ sub_list (o + Z.of_nat a) b l.
Proof.
  intros Ho. unfold sub_list. rewrite Z2Nat.inj_add, Nat2Z.id, <- drop_drop by lia.
  generalize (drop (Z.to_nat o) l). clear. intros l. revert l. induction a as [|a IH]; intros l; [done|].
  destruct l as [|x l]; cbn [take drop Nat.add app]; [by rewrite !take_nil|]. by rewrite IH.
Qed.

Lemma sub_list_length o n (l : list Z) : 0 <= o -> o + Z.of_nat n <= sizeOf l -> length (sub_list o n l) = n.
Proof. intros Ho Hn. unfold sub_list, sizeOf in *. rewrite length_take, length_drop. lia. Qed.

Lemma concat_cut o tr : 0 <= o -> concat (cut o tr) = sub_list o (length (concat (map fst tr))) F.
Proof.
  revert o. induction tr as [|[c r] tr IH]; intros o Ho; [done|]. cbn [cut map fst concat].
  rewrite length_app, sub_list_split by done. rewrite IH by (unfold sizeOf; lia). done.
Qed.

(** The references of the trace from [o] on are patched, or their room stays; other patches are before [o]. *)
Definition patched (o : Z) (tr : Trace) : Prop :=
  (forall p r, In (p, r) (refsOf allRefs o tr) ->
     In (p, val p r) P \/
     (val p r = hole (refSize nt nd r) /\
      forall pb, In pb P -> fst pb + sizeOf (snd pb) <= p \/ p + Z.of_nat (refSize nt nd r) <= fst pb)) /\
  (forall pb, In pb P -> fst pb + sizeOf (snd pb) <= o \/
     exists r, In (fst pb, r) (refsOf allRefs o tr) /\ sizeOf (snd pb) = Z.of_nat (refSize nt nd r)).

Lemma patched_tail o c r tr : Forall (wellSized nt nd) ((c, r) :: tr) -> patched o ((c, r) :: tr) -> patched (o + sizeOf c) tr.
Proof.
  intros [Hc Hw]%Forall_cons [H1 H2]. split.
  - intros p r' Hp. apply H1. cbn [refsOf]. apply in_or_app. by right.
  - intros pb Hpb. destruct (H2 pb Hpb) as [Hb|(r' & Hin & Hs)]; [left; unfold sizeOf in *; lia|].
    cbn [refsOf] in Hin. apply in_app_or in Hin as [Hin|Hin]; [|right; by exists r'].
    left. destruct r as [r|]; [|done]. destruct Hin as [[= <- <-]|[]]. destruct Hc as [b Hc]. cbn [fst] in Hc. subst c.
    rewrite Hs. unfold sizeOf, hole. cbn [length]. rewrite repeat_length. lia.
Qed.

(** The entry at the head of the trace. *)
Lemma filled_head n l pre c r tr post :
  grown n P l F -> apart P ->
  l = pre ++ concat (map fst ((c, r) :: tr)) ++ post ->
  Forall (wellSized nt nd) ((c, r) :: tr) -> (forall p r, length (val p r) = refSize nt nd r) ->
  patched (sizeOf pre) ((c, r) :: tr) -> sub_list (sizeOf pre) (length c) F = filled (sizeOf pre) c r.
Proof.
  intros Hg HA Hl Hw Hval Hp. pose proof (patched_tail _ _ _ _ Hw Hp) as [Hp1 Hp2]. destruct Hp as [H1 H2].
  apply Forall_cons in Hw as [Hc Hw]. set (o := sizeOf pre) in *. assert (0 <= o) as Ho by apply Nat2Z.is_nonneg.
  cbn [map fst concat] in Hl. rewrite <- app_assoc in Hl.
  assert (sub_list o (length c) l = c) as Hlc.
  { subst l. unfold sub_list, o, sizeOf. rewrite Nat2Z.id, drop_app_length. by rewrite take_app_length. }
  assert (o + sizeOf c <= sizeOf l) as Hol by (subst l; unfold o, sizeOf; rewrite !length_app; lia).
  destruct r as [r|]; cbn [filled].
  - destruct Hc as [b Hc]. cbn [fst] in Hc. subst c. cbn [length take app] in *. unfold hole in *. rewrite repeat_length in *.
    assert (sizeOf (b :: repeat 0 (refSize nt nd r)) = 1 + Z.of_nat (refSize nt nd r)) as Hs
      by (unfold sizeOf; cbn [length]; rewrite repeat_length; lia).
    change (S (refSize nt nd r)) with (1 + refSize nt nd r)%nat in *. rewrite sub_list_split in Hlc |- * by done.
    apply (app_inj_1 _ [b]) in Hlc as [Hl1 Hl2]; [|apply sub_list_length; [done|]; rewrite Hs in Hol; cbn [length]; lia].
    rewrite Hs in *. change (b :: take 0 (repeat 0 (refSize nt nd r)) ++ val (o + 1) r) with ([b] ++ val (o + 1) r). apply (f_equal2 (@app Z)).
    + rewrite <- Hl1. eapply grown_other; [exact Hg|done|lia|]. apply List.Forall_forall. intros pb Hpb.
      destruct (H2 pb Hpb) as [Hb|(r' & Hin & _)]; [by right|]. left.
      destruct Hin as [[= <- <-]|Hin]; [done|]. pose proof (refsOf_range _ _ _ _ _ _ Hw Hin). lia.
    + destruct (H1 (o + 1) r) as [Hin|[Hhole Hno]]; [by left| |].
      * rewrite <- (Hval (o + 1) r). by eapply grown_same.
      * rewrite Hhole, <- Hl2. eapply grown_other; [exact Hg|lia|lia|].
        apply List.Forall_forall. intros pb Hpb. destruct (Hno pb Hpb); [by right|by left].
  - rewrite <- Hlc at 2. eapply grown_other; [exact Hg|done|exact Hol|]. apply List.Forall_forall. intros pb Hpb.
    destruct (H2 pb Hpb) as [Hb|(r' & Hin & Hs)]; [by right|]. left.
    pose proof (refsOf_range _ _ _ _ _ _ Hw Hin) as Hr. unfold sizeOf in *. lia.
Qed.

Lemma filledAll_grown n l pre tr post :
  grown n P l F -> apart P -> l = pre ++ concat (map fst tr) ++ post ->
  Forall (wellSized nt nd) tr -> (forall p r, length (val p r) = refSize nt nd r) ->
  patched (sizeOf pre) tr -> filledAll (sizeOf pre) tr.
Proof.
  intros Hg HA Hl Hw Hval. revert pre Hl. induction tr as [|[c r] tr IH]; intros pre Hl Hp; [done|].
  split; [by eapply filled_head|].
  assert (sizeOf pre + sizeOf c = sizeOf (pre ++ c)) as Heq by (unfold sizeOf; rewrite length_app; lia).
  pose proof (patched_tail _ _ _ _ Hw Hp) as Hp'. apply Forall_cons in Hw as [_ Hw]. rewrite Heq in *.
  apply IH; [done| |done]. rewrite Hl. cbn [map fst concat]. by rewrite <- !app_assoc.
Qed.
End Filled.

Section Layout.
Context (linkData : LinkData) (assemblyData : gmap Z (list Z)) (m_subs : list AssembledTree) (nt nd : nat).
Context (items : list AssemblyItem) (immutables : gmap Z (list Z * list Z)) (a : AssembledTree).
Context (e : Emission) (tr : Trace) (sep : list Z) (atS atD : Z -> Z) (PD : list (Z * list Z)).
Hypothesis Htr : traced linkData m_subs nt nd items (startEmission linkData immutables) e tr.
Hypothesis Hph : phases linkData assemblyData m_subs nt nd e sep atS atD PD a.
Hypothesis Hsize : sizeOf (bytecode (a_object a)) < 2 ^ 32.

Definition valueOf (p : Z) (r : Ref) : list Z :=
  match r with
  | RefTag t => toBigEndian nt (default 0 (lookupTag m_subs nt (tagPositions e) (fst t) (snd t)))
  | RefData h => match assemblyData !! h with Some _ => toBigEndian nd (atD h) | None => hole nd end
  | RefSub _ => toBigEndian nd (atS p)
  | RefSize => toBigEndian nd (sizeOf (bytecode (a_object a)))
  end.

Definition allPatches : list (Z * list Z) :=
  map (subPatch nd atS) (subRef e) ++ map (tagPatch m_subs nt (tagPositions e)) (tagRef e) ++ PD ++
    map (fun p => (p, toBigEndian nd (sizeOf (bytecode (a_object a))))) (sizeRef e).

Lemma valueOf_length p r : length (valueOf p r) = refSize nt nd r.
Proof.
  destruct r; cbn [valueOf refSize]; rewrite ?toBigEndian_length; try done.
  destruct (assemblyData !! hash); [apply toBigEndian_length|apply repeat_length].
Qed.

(** The positions of references are below 2^32. *)
Lemma ref_position p r : In (p, r) (refsOf allRefs 0 tr) -> unsigned p = p.
Proof.
  intros Hin. destruct Htr as (Hc & Hw & _). pose proof (refsOf_range _ _ _ _ _ _ Hw Hin) as Hr.
  pose proof (extends_length _ _ _ _ (ph_extends _ _ _ _ _ _ _ _ _ _ _ Hph)) as Hl. cbn [bytecode startEmission code app] in *.
  apply Z.mod_small. rewrite Hc in Hl. unfold sizeOf in *. rewrite length_app in Hl. lia.
Qed.

(** Every patch is the value of a reference. *)
Lemma patch_ref pb : In pb allPatches ->
  exists r, In (fst pb, r) (refsOf allRefs 0 tr) /\ snd pb = valueOf (fst pb) r /\
    forall h, r = RefData h -> is_Some (assemblyData !! h).
Proof.
  destruct Htr as (_ & _ & Ht & Hd & Hs & Hz & _). cbn [startEmission tagRef dataRef subRef sizeRef app] in *.
  change (position (startEmission linkData immutables)) with 0 in *.
  unfold allPatches. intros [Hin|[Hin|[Hin|Hin]%in_app_or]%in_app_or]%in_app_or.
  - apply in_map_iff in Hin as ([id p] & <- & Hin). rewrite <- list_elem_of_In, Hs, list_elem_of_In in Hin.
    destruct (refsOf_all subRefs _ _ _ ltac:(done) Hin) as (p' & [] & Hp & Hin'); try done.
    destruct Hin' as [[= <- <-]|[]]. by exists (RefSub id0).
  - apply in_map_iff in Hin as ([p t] & <- & Hin). rewrite Ht in Hin.
    destruct (refsOf_all tagRefs _ _ _ ltac:(done) Hin) as (p' & [] & Hp & Hin'); try done.
    destruct Hin' as [[= <- <-]|[]]. by exists (RefTag target).
  - destruct (ph_data _ _ _ _ _ _ _ _ _ _ _ Hph) as [HP _]. destruct (HP _ Hin) as (h & d & Hh & Hm & Hv).
    rewrite Hd in Hh. destruct (refsOf_all dataRefs _ _ _ ltac:(done) Hh) as (p' & [] & Hp & Hin'); try done.
    destruct Hin' as [[= <- Hp']|[]]. rewrite (ref_position _ _ Hp) in Hp'. subst p'.
    apply elem_of_ordered in Hm. exists (RefData hash). cbn [valueOf]. rewrite Hm. split; [done|]. split; [done|].
    intros ? [= <-]. rewrite Hm. by eexists.
  - apply in_map_iff in Hin as (p & <- & Hin). rewrite Hz in Hin.
    destruct (refsOf_all sizeRefs _ _ _ ltac:(done) Hin) as (p' & [] & Hp & Hin'); try done.
    destruct Hin' as [<-|[]]. rewrite (ref_position _ _ Hp). by exists RefSize.
Qed.

Lemma allPatches_apart : apart allPatches.
Proof.
  intros [p bs] [p' bs'] (r & Hr & Hb & _)%patch_ref (r' & Hr' & Hb' & _)%patch_ref. cbn [fst snd] in *. subst.
  destruct Htr as (_ & Hw & _).
  destruct (refsOf_apart _ _ _ _ _ _ _ _ Hw Hr Hr') as [[= -> ->]|H]; [by left|right].
  unfold sizeOf. rewrite !valueOf_length. lia.
Qed.

Lemma allPatches_patched : patched nt nd allPatches valueOf 0 tr.
Proof.
  pose proof Htr as (_ & Hw & Ht & Hd & Hs & Hz & _). cbn [startEmission tagRef dataRef subRef sizeRef app] in *.
  change (position (startEmission linkData immutables)) with 0 in *. split.
  - intros p r Hp. unfold allPatches. destruct r as [t|h|id|]; cbn [valueOf].
    + left. apply in_or_app. right. apply in_or_app. left. apply in_map_iff. exists (p, t). split; [done|].
      rewrite Ht. eapply refsOf_in; [exact Hp|by left].
    + destruct (assemblyData !! h) as [d|] eqn:Hh; [left|right].
      * apply in_or_app. right. apply in_or_app. right. apply in_or_app. left.
        apply (ph_data _ _ _ _ _ _ _ _ _ _ _ Hph) with (data := d); [|by apply elem_of_ordered].
        rewrite Hd. eapply refsOf_in; [exact Hp|]. cbn [dataRefs]. rewrite (ref_position _ _ Hp). by left.
      * split; [done|]. intros pb Hpb. destruct (patch_ref pb Hpb) as (r & Hr & Hv & Hdata).
        destruct (refsOf_apart _ _ _ _ _ _ _ _ Hw Hp Hr) as [[= Hpp <-]|H].
        { destruct (Hdata h eq_refl) as [d Hh']. congruence. }
        unfold sizeOf. rewrite Hv, valueOf_length. cbn [refSize] in *. lia.
    + left. apply in_or_app. left. apply in_map_iff. exists (id, p). split; [done|].
      rewrite <- list_elem_of_In, Hs, list_elem_of_In. eapply refsOf_in; [exact Hp|by left].
    + left. do 2 (apply in_or_app; right). apply in_or_app. right. apply in_map_iff. exists p. split; [done|].
      rewrite Hz. eapply refsOf_in; [exact Hp|]. cbn [sizeRefs]. rewrite (ref_position _ _ Hp). by left.
  - intros pb Hpb. right. destruct (patch_ref pb Hpb) as (r & Hr & Hv & _). exists r. split; [done|].
    unfold sizeOf. by rewrite Hv, valueOf_length.
Qed.

Lemma trace_filled : filledAll (bytecode (a_object a)) valueOf 0 tr.
Proof.
  pose proof Htr as (Hc & Hw & _). destruct (ph_extends _ _ _ _ _ _ _ _ _ _ _ Hph) as [Hg _]. cbn [bytecode startEmission code app] in *.
  change 0 with (sizeOf (@nil Z)). eapply (filledAll_grown nt nd _ allPatches valueOf _ _ [] tr sep);
    [exact Hg|apply allPatches_apart|by rewrite Hc|done|apply valueOf_length|apply allPatches_patched].
Qed.

(** An item's bytes in the finished code. *)
Lemma item_laid immutables' o i c r :
  emitted linkData m_subs nt nd immutables' o i e c r -> wellSized nt nd (c, r) ->
  (forall r', r = Some r' -> In (o + 1, r') (refsOf allRefs 0 tr)) -> o + sizeOf c <= sizeOf (code e) ->
  itemCode linkData assemblyData m_subs (a_object a) (a_positions a) nt nd immutables' o i (filled valueOf o c r).
Proof.
  intros He Hw Hr Ho. pose proof (ph_extends _ _ _ _ _ _ _ _ _ _ _ Hph) as (Hg & Hlink & _ & Himm).
  rewrite (ph_positions _ _ _ _ _ _ _ _ _ _ _ Hph). cbn [linkReferences immutableReferences bytecode] in *.
  unfold emitted in He. unfold itemCode. destruct (m_type i).
  - done.
  - by destruct He as [-> ->].
  - by destruct He as [-> ->].
  - by destruct He as [(s & ? & ->) ->]; exists s.
  - destruct He as (t & Hs & -> & ->). specialize (Hr _ eq_refl).
    destruct (ph_tag _ _ _ _ _ _ _ _ _ _ _ Hph (o + 1) t) as [pos Hpos].
    { destruct Htr as (_ & _ & -> & _). eapply refsOf_in; [exact Hr|by left]. }
    exists (fst t), (snd t), pos. split; [by destruct t|]. split; [done|]. cbn [filled valueOf take app hole]. by rewrite Hpos.
  - destruct He as (-> & ->). specialize (Hr _ eq_refl).
    destruct (ph_sub _ _ _ _ _ _ _ _ _ _ _ Hph (m_data i) (o + 1)) as (sub & Hsub & Hp).
    { destruct Htr as (_ & _ & _ & _ & Hs & _). rewrite <- list_elem_of_In, Hs, list_elem_of_In. eapply refsOf_in; [exact Hr|by left]. }
    exists sub, (atS (o + 1)). done.
  - by destruct He as [(sub & ? & ->) ->]; exists sub.
  - by destruct He as [-> ->].
  - by destruct He as (? & _ & -> & ->).
  - destruct He as (-> & ->). specialize (Hr _ eq_refl). cbn [filled valueOf take app hole].
    destruct (assemblyData !! m_data i) as [d|] eqn:Hd; [|done]. exists (atD (m_data i)). split; [done|].
    apply (ph_data _ _ _ _ _ _ _ _ _ _ _ Hph) with (p := o + 1); [|by apply elem_of_ordered].
    destruct Htr as (_ & _ & _ & -> & _). eapply refsOf_in; [exact Hr|]. cbn [dataRefs]. rewrite (ref_position _ _ Hr). by left.
  - destruct He as ((name & Hn & Hl) & -> & ->). exists name. split; [done|]. split; [|done].
    rewrite Hlink; [done|]. unfold sizeOf in *. rewrite length_app. cbn in Ho. lia.
  - by destruct He as [-> ->].
  - destruct He as ((name & l & Hn & Hl & Hin) & -> & ->). exists name, l. by rewrite Himm.
  - by destruct He as [-> ->].
Qed.

Lemma items_laid immutables' o items' tr' :
  emittedAll linkData m_subs nt nd immutables' o items' e tr' -> Forall (wellSized nt nd) tr' ->
  filledAll (bytecode (a_object a)) valueOf o tr' ->
  (forall x, In x (refsOf allRefs o tr') -> In x (refsOf allRefs 0 tr)) ->
  o + sizeOf (concat (map fst tr')) <= sizeOf (code e) ->
  laidOut linkData assemblyData m_subs (a_object a) (a_positions a) nt nd immutables' o items'
    (cut (bytecode (a_object a)) o tr').
Proof.
  revert immutables' o tr'. induction items' as [|i items' IH]; intros immutables' o [|[c r] tr']; try done.
  intros [He Hes] [Hw Hws]%Forall_cons [Hf Hfs] Hr Ho. cbn [laidOut cut map fst concat refsOf] in *.
  assert (o + sizeOf c + sizeOf (concat (map fst tr')) <= sizeOf (code e)) as Ho'
    by (unfold sizeOf in *; rewrite length_app in Ho; lia).
  assert (sizeOf (sub_list o (length c) (bytecode (a_object a))) = sizeOf c) as Hlen.
  { rewrite Hf. unfold sizeOf. destruct r as [r|]; [|done]. destruct Hw as [b Hb]. cbn [fst] in Hb. subst c.
    unfold hole. cbn [filled take app length]. rewrite take_0. cbn [app]. by rewrite valueOf_length, repeat_length. }
  split; [|rewrite Hlen; apply IH; try done; intros x Hx; apply Hr, in_or_app; by right].
  rewrite Hf. apply item_laid; [done|done| |].
  - intros r' ->. apply Hr. by left.
  - unfold sizeOf in *. lia.
Qed.

(** What follows the code: an INVALID if there is anything to follow. *)
Lemma phases_separated :
  nonEmpty m_subs || negb (bool_decide (assemblyData = ∅)) || nonEmpty (m_auxiliaryData linkData) = true ->
  sub_list (sizeOf (concat (map fst tr))) 1 (bytecode (a_object a)) = [opcode INVALID].
Proof.
  intros Hd. destruct (ph_extends _ _ _ _ _ _ _ _ _ _ _ Hph) as [Hg _]. destruct Htr as (Hc & _).
  pose proof (ph_sep _ _ _ _ _ _ _ _ _ _ _ Hph) as Hsep. rewrite Hd in Hsep. cbn [bytecode startEmission code app] in *.
  rewrite <- Hc. assert (0 <= sizeOf (code e)) by apply Nat2Z.is_nonneg. subst sep.
  erewrite grown_high; [|exact Hg|lia|unfold sizeOf; rewrite length_app; cbn [length]; lia].
  apply (holds_append (code e) [opcode INVALID]).
Qed.

Lemma phases_laid :
  exists chunks rest, bytecode (a_object a) = concat chunks ++ rest /\
    laidOut linkData assemblyData m_subs (a_object a) (a_positions a) nt nd immutables 0 items chunks /\
    (nonEmpty m_subs || negb (bool_decide (assemblyData = ∅)) || nonEmpty (m_auxiliaryData linkData) = true ->
     take 1 rest = [opcode INVALID]) /\
    exists rest', bytecode (a_object a) = rest' ++ m_auxiliaryData linkData.
Proof.
  pose proof Htr as (Hc & Hw & _ & _ & _ & _ & _ & Hem & _).
  exists (cut (bytecode (a_object a)) 0 tr), (drop (length (concat (map fst tr))) (bytecode (a_object a))).
  split; [rewrite concat_cut by done; symmetry; apply take_drop|]. split; [|split].
  - apply items_laid; [done|done|apply trace_filled|done|]. rewrite Hc. done.
  - intros Hd%phases_separated. unfold sub_list, sizeOf in Hd. by rewrite Nat2Z.id in Hd.
  - destruct (ph_aux _ _ _ _ _ _ _ _ _ _ _ Hph) as (off & Hoff & H0 & _ & Hs).
    exists (take (Z.to_nat off) (bytecode (a_object a))). rewrite <- Hs. unfold sub_list.
    rewrite (take_ge (drop _ _)) by (rewrite length_drop; unfold sizeOf in *; lia). symmetry. apply take_drop.
Qed.
End Layout.

(** ** Trees of assemblies *)

Fixpoint tree_induction (P : ObjectTree -> Prop)
  (H : forall assembly linkData m_subs, Forall P m_subs -> P (mkObject assembly linkData m_subs)) (t : ObjectTree) : P t :=
  match t with
  | mkObject assembly linkData m_subs =>
      H assembly linkData m_subs
        ((fix go l : Forall P l :=
            match l with [] => Forall_nil_2 P | s :: l => Forall_cons_2 P s l (tree_induction P H s) (go l) end) m_subs)
  end.

Lemma assembleSubs_Forall2 f subs subs' :
  assembleSubs f subs = Ret subs' -> Forall2 (fun s s' => f s = Ret s') subs subs'.
Proof.
  revert subs'. induction subs as [|s subs IH]; intros subs' H; cbn [assembleSubs] in H; [by injection H as <-|].
  destruct (f s) as [s'| |] eqn:Hs; try done. cbn [mbind Result_bind] in H.
  destruct (assembleSubs f subs) as [l| |]; try done. injection H as <-. constructor; [done|by apply IH].
Qed.

(** The link references of an assembled object and of its sub-assemblies are in their code. *)
Fixpoint linkedTree (a : AssembledTree) : Prop :=
  match a with
  | mkAssembled o _ subs => linked (linkReferences o) (bytecode o) /\ fold_right and True (map linkedTree subs)
  end.

Lemma linkedTree_object a : linkedTree a -> linked (linkReferences (a_object a)) (bytecode (a_object a)).
Proof. destruct a. by intros [H _]. Qed.

Lemma linkedTree_sub subs n sub : fold_right and True (map linkedTree subs) -> subs !! n = Some sub -> linkedTree sub.
Proof.
  revert n. induction subs as [|s subs IH]; intros n H Hn; [done|]. destruct H as [Hs H].
  destruct n as [|n]; [by injection Hn as <-|by eapply IH].
Qed.

Lemma followPath_linked path a a' : linkedTree a -> followPath path a = Some a' -> linkedTree a'.
Proof.
  revert a. induction path as [|id path IH]; intros a Ha H; cbn [followPath] in H; [by injection H as <-|].
  destruct (a_subs a !! Z.to_nat id) as [s|] eqn:Hs; [|done]. eapply IH; [|exact H].
  destruct a as [o p subs]. destruct Ha as [_ Ha]. by eapply linkedTree_sub.
Qed.

Lemma linkedTree_subs linkData subs : fold_right and True (map linkedTree subs) -> subsLinked linkData subs.
Proof.
  intros H id sub. unfold subAssemblyById. destruct (decodeSubPath _ _ _) as [[|i path]|]; try done.
  destruct (subs !! Z.to_nat i) as [s|] eqn:Hs; [|done]. cbn [mbind option_bind]. intros Hp.
  apply linkedTree_object. eapply followPath_linked; [|exact Hp]. by eapply linkedTree_sub.
Qed.

Lemma assembleFlat_inv assembly linkData subs a :
  assembleFlat assembly linkData subs = Ret a ->
  exists immutables items immutables' nt nd,
    collectImmutables subs ∅ = Some immutables /\ noteOccurrences immutables (m_items assembly) = (items, immutables') /\
    emitAll items (m_assemblyData assembly) linkData subs immutables' (nt, nd) = Some a.
Proof.
  unfold assembleFlat. destruct (collectImmutables subs ∅) as [immutables|]; [|done]. cbn [lift mbind Result_bind].
  destruct (noteOccurrences _ _) as [items immutables'] eqn:Hn. destruct (assertThrow _); [|done]. cbn [lift mbind Result_bind].
  destruct (assemblyBytesRequired _ _ _ _) as [size| |]; try done. cbn [mbind Result_bind].
  destruct (referenceSizes _ _ _) as [nt nd]. destruct (emitAll _ _ _ _ _ _) as [a'|] eqn:He; [|done].
  intros [= <-]. by exists immutables, items, immutables', nt, nd.
Qed.

Lemma emitAll_linked items data linkData subs immutables nt nd a :
  fold_right and True (map linkedTree subs) ->
  emitAll items data linkData subs immutables (nt, nd) = Some a -> linkedTree a.
Proof.
  intros Hs H. destruct (emitAll_phases _ _ _ _ _ _ _ _ (linkedTree_subs linkData subs Hs) H) as (e & tr & sep & atS & atD & PD & _ & Hph).
  destruct (ph_extends _ _ _ _ _ _ _ _ _ _ _ Hph) as (_ & _ & Hl & _).
  pose proof (ph_subs _ _ _ _ _ _ _ _ _ _ _ Hph) as Hsub. destruct a as [o p s]. cbn [a_subs a_object] in *. by subst s.
Qed.

Lemma assemble_inv assembly linkData subs a :
  assemble (mkObject assembly linkData subs) = Ret a ->
  exists subs', Forall2 (fun s s' => assemble s = Ret s') subs subs' /\ assembleFlat assembly linkData subs' = Ret a.
Proof.
  cbn [assemble]. destruct (assertThrow _); [|done]. cbn [lift mbind Result_bind].
  destruct (assembleSubs assemble subs) as [subs'| |] eqn:Hs; try done. cbn [mbind Result_bind].
  intros H. exists subs'. split; [by apply assembleSubs_Forall2|done].
Qed.

Lemma assemble_linked t a : assemble t = Ret a -> linkedTree a.
Proof.
  revert a. induction t as [assembly linkData subs IH] using tree_induction. intros a (subs' & Hs & H)%assemble_inv.
  apply assembleFlat_inv in H as (imm & items & imm' & nt & nd & _ & _ & He).
  eapply emitAll_linked; [|exact He]. clear -IH Hs. induction Hs as [|s s' subs subs' Hs _ IHs]; [done|].
  apply Forall_cons in IH as [Hh IH]. split; [by apply Hh|by apply IHs].
Qed.

(** The notes of the occurrences change nothing of the layout. *)
Lemma assigned_occurrences i m m' :
  (forall id, occurrences m id = occurrences m' id) -> forall id, occurrences (assigned i m) id = occurrences (assigned i m') id.
Proof.
  intros H id. unfold assigned. destruct (m_type i); try apply H. unfold occurrences.
  destruct (decide (m_data i = id)) as [->|Hne]; [by rewrite !lookup_delete_eq|].
  rewrite !lookup_delete_ne by done. apply H.
Qed.

Lemma laidOut_noted linkData data subs obj positions nt nd imm items items' imm' :
  noteOccurrences imm items = (items', imm') ->
  (forall id, occurrences imm' id = occurrences imm id) /\
  forall m m' o chunks, (forall id, occurrences m id = occurrences m' id) ->
    laidOut linkData data subs obj positions nt nd m o items' chunks ->
    laidOut linkData data subs obj positions nt nd m' o items chunks.
Proof.
  revert imm items' imm'. induction items as [|i items IH]; intros imm items' imm' H; cbn [noteOccurrences] in H.
  - injection H as <- <-. split; [done|]. by intros m m' o [|].
  - assert (exists i' imm1 items1, items' = i' :: items1 /\ noteOccurrences imm1 items = (items1, imm') /\
      m_type i' = m_type i /\ m_data i' = m_data i /\ m_instruction i' = m_instruction i /\
      (forall id, occurrences imm1 id = occurrences imm id)) as (i' & imm1 & items1 & -> & Hn & Ht & Hd & Hi & Ho).
    { destruct (m_type i) eqn:Ht; destruct (noteOccurrences _ items) as [items1 imm1] eqn:Hn; injection H as <- <-;
        [by exists i, imm, items1..|]. do 3 eexists. split; [done|]. split; [exact Hn|]. cbn [set_occurrences m_type m_data m_instruction].
      do 3 (split; [done|]). intros id. unfold occurrences. destruct (decide (m_data i = id)) as [->|Hne].
      - rewrite lookup_insert_eq. by destruct (imm !! id) as [[? ?]|].
      - by rewrite lookup_insert_ne. }
    destruct (IH _ _ _ Hn) as [Ho' Hl]. split; [intros id; by rewrite Ho', Ho|].
    intros m m' o [|c chunks] Hm; [done|]. cbn [laidOut]. intros [Hc Hcs]. split.
    + unfold itemCode, splitForeignPushTag, isTagItem in *. rewrite <- ?Ht, <- ?Hd, <- ?Hi. rewrite <- ?Hm. exact Hc.
    + eapply Hl; [|exact Hcs]. intros id. rewrite <- (assigned_occurrences i m m' Hm).
      unfold assigned. by rewrite Ht, Hd.
Qed.


(** ** Examples: test/libevmasm/Assembler.cpp *)

Section Example.
Let op i := opItem i noLocation.
Let item t d := dataItem t d noLocation.

(** The assembly of the test all_assembly_items, with short keys for the hashes of the names. *)
Definition exampleItems : list AssemblyItem :=
  [item Tag 1; item Push 1; item Push 2; op KECCAK256; item PushProgramSize 0; item PushLibraryAddress 7;
   item PushTag 1; op JUMP; item PushData 166; item PushSubSize 0; item PushSub 0; item PushDeployTimeAddress 0;
   item AssignImmutable 195; item Push 2; item AssignImmutable 38; op STOP].
Definition exampleAssembly : Assembly := mkAssembly exampleItems {[ 166 := [1; 2; 3; 4] ]}.
Definition exampleLinkData : LinkData :=
  mkLinkData false 2 [0x42; 0x66; 0xee; 0xaa] ∅ {[ 7 := str "someLibrary" ]}
    {[ 195 := str "someOtherImmutable"; 38 := str "someImmutable" ]} [].
Definition exampleSub : ObjectTree :=
  mkObject (mkAssembly [item PushImmutable 38; op INVALID] ∅)
    (mkLinkData false 1 [] ∅ ∅ {[ 38 := str "someImmutable" ]} []) [].
Definition exampleHash (_ : list Z) : list Z := str "bf005014d9d0f534b8fcb268bd84c491a2380f4acd260d1ccfe9cd8201f7e994".
End Example.

Definition unwrap (r : Result AssembledTree) : AssembledTree :=
  match r with Ret a => a | _ => mkAssembled emptyObject [] [] end.

Definition exampleObject : AssembledTree := unwrap (assemble (mkObject exampleAssembly exampleLinkData [exampleSub])).

Lemma example_assembled : assemble (mkObject exampleAssembly exampleLinkData [exampleSub]) = Ret exampleObject.
Proof. vm_compute. reflexivity. Qed.

(** The hexadecimal code the test expects. *)
Example example_hex :
  LinkerObject.toHex exampleHash (a_object exampleObject)
  = str "5b6001600220606f73__$bf005014d9d0f534b8fcb268bd84c491a2$__60005660676022604573" ++
    str "0000000000000000000000000000000000000000506002806001525000fe7f" ++
    str "0000000000000000000000000000000000000000000000000000000000000000fe010203044266eeaa".
Proof. vm_compute. reflexivity. Qed.


(** ** Termination *)

Lemma unsigned_bytes x : (bytesRequired (unsigned x) <= 4)%nat.
Proof.
  pose proof (Z.mod_pos_bound x (2 ^ 32) ltac:(lia)). apply bytesRequired_le; unfold unsigned, is_u256, modulus; [|apply H].
  split; [lia|]. eapply Z.lt_trans; [apply H|done].
Qed.

(** Four bytes address whatever an [unsigned] counts. *)
Lemma assemblyBytesRequired_returns items data tagSize k :
  0 <= tagSize < 2 ^ 32 -> (0 < k)%nat -> 4 - tagSize < Z.of_nat k -> assemblyBytesRequired k items data tagSize <> OutOfFuel.
Proof.
  revert tagSize. induction k as [|k IH]; intros tagSize Ht H0 Hk; [lia|]. cbn [assemblyBytesRequired].
  destruct (items_bytesRequired items tagSize) as [n|]; [|done]. cbn [lift mbind Result_bind].
  match goal with |- context [bytesRequired (unsigned ?x)] => pose proof (unsigned_bytes x) end.
  destruct (_ <=? tagSize) eqn:E; [done|]. bool_to_prop.
  assert (unsigned (tagSize + 1) = tagSize + 1) as -> by (apply Z.mod_small; lia). apply IH; lia.
Qed.

(** C34 [assemble] returns an object or throws: the sizes are found within five rounds, whatever the
    assembly and its sub-assemblies hold. *)
Theorem assemble_returns t : assemble t <> OutOfFuel.
Proof.
  induction t as [assembly linkData subs IH] using tree_induction. cbn [assemble].
  destruct (assertThrow _); [|done]. cbn [lift mbind Result_bind].
  assert (assembleSubs assemble subs <> OutOfFuel) as Hs.
  { clear -IH. induction IH as [|s subs Hs _ IHs]; [done|]. cbn [assembleSubs].
    destruct (assemble s); [|done..]. cbn [mbind Result_bind]. by destruct (assembleSubs assemble subs). }
  destruct (assembleSubs assemble subs) as [subs'| |]; [|done..]. cbn [mbind Result_bind]. unfold assembleFlat.
  destruct (collectImmutables _ _); [|done]. cbn [lift mbind Result_bind].
  destruct (noteOccurrences _ _) as [items imm]. destruct (assertThrow _); [|done]. cbn [lift mbind Result_bind].
  assert (0 <= unsigned (subTagSize subs') < 2 ^ 32) by (apply Z.mod_pos_bound; lia).
  pose proof (assemblyBytesRequired_returns items (m_assemblyData assembly) (unsigned (subTagSize subs')) 5) as Hr.
  destruct (assemblyBytesRequired _ _ _ _) as [size| |]; [|done|by destruct Hr; [lia..|]]. cbn [mbind Result_bind].
  by destruct (emitAll _ _ _ _ _ _).
Qed.

(** ** Offsets that do not fit *)

Definition plainLinkData : LinkData := mkLinkData false 1 [] ∅ ∅ ∅ [].

(** A sub-assembly of 150 bytes. *)
Definition subOf150 : ObjectTree := mkObject (mkAssembly (opItem CALLER noLocation :: repeat (opItem ADDRESS noLocation) 149) ∅) plainLinkData [].

(** Every push of a sub-assembly's offset appends another copy of its code, while the size of the
    references is estimated for one.  With three pushes of the offset of a sub-assembly of 150 bytes
    the third copy is at 308, but 308 modulo 256 is pushed, where the sub-assembly is not; nothing is
    thrown. *)
Theorem offset_truncated :
  let code := repeat (dataItem PushSub 0 noLocation) 3 ++ [opItem STOP noLocation] in
  let sub := opcode CALLER :: repeat (opcode ADDRESS) 149 in
  exists a, assemble (mkObject (mkAssembly code ∅) plainLinkData [subOf150]) = Ret a /\
    bytecode (a_object a) = concat (map (pushBytes 1) [8; 158; 308 mod 256]) ++ [opcode STOP; opcode INVALID] ++ sub ++ sub ++ sub /\
    sub_list 308 150 (bytecode (a_object a)) = sub /\ sub_list 52 150 (bytecode (a_object a)) <> sub.
Proof.
  eexists. split; [vm_compute; reflexivity|]. split; [vm_compute; reflexivity|]. split; [vm_compute; reflexivity|].
  vm_compute. discriminate.
Qed.

(** Code with references to a piece of data of 3 bytes and a tag at the end. *)
Definition fullCode : Assembly :=
  mkAssembly
    (dataItem PushTag 1 noLocation :: opItem JUMP noLocation :: repeat (opItem ADDRESS noLocation) 221 ++
     concat (repeat [dataItem PushData 5 noLocation; opItem POP noLocation] 8) ++ [dataItem Tag 1 noLocation; opItem STOP noLocation])
    {[ 5 := [1; 2; 3] ]}.

(** References to data are counted with the size of a tag although more bytes may be reserved for
    them, so the code can be larger than estimated: with 53 bytes of auxiliary data (the size of the
    metadata's hash) the offsets take two bytes, the tag is at 256 where one byte was reserved for tags, and
    the assertion "Tag too large for reserved space." fails; without auxiliary data the same code is assembled. *)
Theorem tag_space_exceeded :
  assemblyBytesRequired 5 (m_items fullCode) (m_assemblyData fullCode) 1 = Ret 254 /\
  assemble (mkObject fullCode (mkLinkData false 2 (repeat 0 53) ∅ ∅ ∅ []) []) = Exception /\
  exists a, assemble (mkObject fullCode (mkLinkData false 2 [] ∅ ∅ ∅ []) []) = Ret a.
Proof. split; [vm_compute; reflexivity|]. split; [vm_compute; reflexivity|]. eexists. vm_compute. reflexivity. Qed.

(** ** Paths of sub-assemblies *)

(** The ids given to paths count down from the largest [size_t], above the ids of the sub-assemblies. *)
Fixpoint pathsOk {A} (m_subs : list A) (m_subPaths : list (list Z * Z)) : Prop :=
  match m_subPaths with
  | [] => True
  | (_, id) :: m_subPaths => id = size_t_max - sizeOf m_subPaths /\ sizeOf m_subs <= id /\ pathsOk m_subs m_subPaths
  end.

Lemma pathsOk_range {A} (subs : list A) paths path id :
  pathsOk subs paths -> In (path, id) paths -> size_t_max - sizeOf paths < id <= size_t_max /\ sizeOf subs <= id.
Proof.
  induction paths as [|[path' id'] paths IH]; [done|]. intros (Hid & Hs & Hp) [[= -> ->]|Hin]; unfold sizeOf in *; cbn [length].
  - lia.
  - specialize (IH Hp Hin). lia.
Qed.

Lemma decode_stored {A} (subs : list A) paths path id :
  pathsOk subs paths -> In (path, id) paths -> decodeSubPath subs paths id = Some path.
Proof.
  intros Hp Hin. unfold decodeSubPath. pose proof (pathsOk_range _ _ _ _ Hp Hin) as [_ Hs].
  destruct (Z.ltb_spec id (sizeOf subs)); [lia|].
  assert (find (fun subId => snd subId =? id) paths = Some (path, id)) as ->; [|done].
  induction paths as [|[path' id'] paths IH]; [done|]. destruct Hp as (Hid & Hs' & Hp). cbn [find snd].
  destruct Hin as [[= -> ->]|Hin]; [by rewrite Z.eqb_refl|].
  pose proof (pathsOk_range _ _ _ _ Hp Hin). destruct (Z.eqb_spec id' id); [lia|]. by apply IH.
Qed.

(** C35 [decodeSubPath] reads back the path [encodeSubPath] was given, from the id it returns, and so it does for
    all paths stored before: the ids stay distinct from one another and from the sub-assemblies' own. *)
Theorem subPath_roundtrip (m_subs : list AssembledTree) m_subPaths path id m_subPaths' :
  pathsOk m_subs m_subPaths -> sizeOf m_subPaths <= size_t_max -> encodeSubPath m_subs m_subPaths path = Some (id, m_subPaths') ->
  pathsOk m_subs m_subPaths' /\ decodeSubPath m_subs m_subPaths' id = Some path /\
  forall path' id', In (path', id') m_subPaths -> decodeSubPath m_subs m_subPaths' id' = Some path'.
Proof.
  intros Hp Hlen. unfold encodeSubPath. destruct path as [|x [|y path]]; [done|..].
  - destruct (x <? sizeOf m_subs) eqn:Hx; [|done]. cbn [assertThrow mbind option_bind]. intros [= <- <-].
    split; [done|]. split; [unfold decodeSubPath; by rewrite Hx|]. intros. by apply decode_stored.
  - set (p := x :: y :: path) in *. destruct (assoc p m_subPaths) as [objectId|] eqn:Ha.
    + intros [= <- <-]. apply assoc_In in Ha. split; [done|]. split; [by apply decode_stored|].
      intros. by apply decode_stored.
    + set (objectId := (size_t_max - sizeOf m_subPaths) mod 2 ^ 64).
      destruct (sizeOf m_subs <=? objectId) eqn:Hs; [|done]. cbn [assertThrow mbind option_bind]. bool_to_prop. intros [= <- <-].
      assert (objectId = size_t_max - sizeOf m_subPaths) as Hid
        by (apply Z.mod_small; unfold size_t_max, sizeOf in *; lia).
      assert (pathsOk m_subs ((p, objectId) :: m_subPaths)) as Hok by done.
      split; [done|]. split; [apply decode_stored; [done|by left]|]. intros path' id' Hin. apply decode_stored; [done|by right].
Qed.

Definition exampleSubs : list AssembledTree := [exampleObject].
Definition examplePath : list Z := [0; 0; 2].
Definition examplePaths : list (list Z * Z) := [([0; 1], size_t_max)].

Lemma subPath_roundtrip_witness :
  exists id m_subPaths',
    encodeSubPath exampleSubs examplePaths examplePath = Some (id, m_subPaths') /\
    pathsOk exampleSubs m_subPaths' /\
    decodeSubPath exampleSubs m_subPaths' id = Some examplePath /\
    forall path' id', In (path', id') examplePaths ->
      decodeSubPath exampleSubs m_subPaths' id' = Some path'.
Proof.
  do 2 eexists. split; [reflexivity|].
  apply (subPath_roundtrip exampleSubs examplePaths examplePath); [by repeat split|done|reflexivity].
Defined.
