(* ===== verification/ExpressionTheorems.v ===== *)
(** * ExpressionTheorems: the contract of ExpressionClasses

    On classes reached from the empty ones, [find] returns and gives an expression the
    class of its value, and what the known-value queries answer is true; the rules they
    use preserve the value of every expression. *)

From S2P Require Import Prelude U256 CommonData Instruction EVMVersion AssemblyItem SemanticInformation Interpreter Pattern RuleList SimplificationRules ExpressionClasses RuleSound MatchSound ClassSound WordClasses RuleWeight ClassTotal ClassQueries.

#[local] Opaque ruleSet Rules.

(** The classes the operations build from the empty ones. *)
Inductive reachable (t : RuleTable) : ExpressionClasses -> Prop :=
| r_empty : reachable t (mkClasses [] [])
| r_find fuel cl seq it l i cl' :
    reachable t cl -> item_ok it (length l) -> Forall (fun i => 0 <= i < classes_size cl) l ->
    find fuel t seq cl it l = Ret (i, cl') -> reachable t cl'
| r_newClass cl loc i cl' :
    reachable t cl -> newClass cl loc = Some (i, cl') -> reachable t cl'.

(** Every semantics is consistent with them. *)
Lemma reachable_consistent S `{!SemanticsLaws S} t cl :
  Rules = Some t -> reachable t cl -> exists v, consistent S cl v.
Proof.
  intros Ht. pose proof (fun fuel => find_sound S t fuel Ht) as Hsound. clear Ht.
  induction 1 as [|fuel cl seq it l i cl' _ [v Hv] Hit Hl Hf|cl loc i cl' _ [v Hv] Hn].
  - eexists. apply empty_consistent, _.
  - pose proof (Hsound fuel seq cl it l v Hv Hit Hl) as Hok. rewrite Hf in Hok.
    destruct Hok as (v' & Hv' & _). by exists v'.
  - destruct (newClass_ok S cl v loc Hv) as (j & cl1 & v' & Hn' & Hv' & _).
    rewrite Hn in Hn'. injection Hn' as <- <-. by exists v'.
Qed.

(** The query of an operation on a class, with enough fuel for it and [slack] more. *)
Lemma find_op_returns t cl μ i l slack :
  Rules = Some t -> consistent weightSemantics cl μ -> length l = args (instructionInfo i) ->
  Forall (fun i => 0 <= i < classes_size cl) l -> 0 <= slack ->
  exists fuel r cl' μ', find fuel t 0 cl (opItem i noLocation) l = Ret (r, cl') /\
    consistent weightSemantics cl' μ' /\ 0 <= r < classes_size cl' /\ μ' r + slack <= Z.of_nat fuel.
Proof.
  intros Ht Hc Hl Hin Hs. set (w := item_value weightSemantics (opItem i noLocation) 0 (map μ l)).
  assert (1 <= w) as Hw.
  { apply (item_value_range weightSemantics); [split; [intros _; simpl; by rewrite length_map|done]|].
    apply (values_dom weightSemantics), (cv_range _ _ _ (con_value _ _ _ Hc)). }
  destruct (find_returns t (Z.to_nat (w + slack)) 0 cl (opItem i noLocation) l μ Ht Hc)
    as (r & cl' & μ' & Hf & Hc' & _ & Hr & Hμ); [by split|done|fold w; lia|].
  clear Ht. fold w in Hμ. exists (Z.to_nat (w + slack)), r, cl', μ'. repeat (split; [done|]). lia.
Qed.

Section Words.
Context (op : Instruction -> list Z -> Z) `{!WordSemantics op}
  (seqop : Z -> Instruction -> list Z -> Z) (pushed : AssemblyItemType -> Z -> Z)
  (seqop_pure : forall s i l, readsState i = false -> seqop s i l = op i l)
  (seqop_range : forall s i l, Forall is_u256 l -> is_u256 (seqop s i l))
  (pushed_range : forall t x, is_u256 (pushed t x)).
Local Abbreviation S := (wordSemantics op seqop pushed).
Local Abbreviation laws := (wordSemantics_laws op seqop pushed seqop_pure seqop_range pushed_range).

(** C21 Every rule of [simplificationRuleList] is sound: when its pattern matches with
    the groups bound to words, A, B and C to constants, and the rule is feasible, the
    pattern its action builds has the value of the pattern matched. *)
Theorem rules_sound v m ρ r p' :
  In r (ruleSet v) -> good_match m ρ -> Forall (binds_const m) constGroups ->
  match feasible r with Some f => f m = Some true | None => True end ->
  action r m = Some p' -> peval op ρ p' = peval op ρ (pattern r).
Proof using WordSemantics0.
  intros Hr. pose proof (ruleSet_sound op v) as Hs. rewrite List.Forall_forall in Hs.
  by apply (Hs r Hr).
Qed.

(** [Rules::findFirstMatch] does not throw on a well-formed operation, and the action
    of the rule it finds builds a pattern with the value of the expression. *)
Theorem findFirstMatch_correct t reps v e it x :
  Rules = Some t -> closed reps -> classes_value S reps v ->
  item e = Some it -> m_type it = Operation -> expr_value S v e x -> args_in reps e ->
  exists res, findFirstMatch t reps e = Some res /\
    match res with
    | None => True
    | Some (r, m) => exists p', action r m = Some p' /\ peval op (group_value S v m) p' = x
    end.
Proof using All.
  intros Ht Hc Hv Hi Ho He Ha.
  destruct (@findFirstMatch_spec S laws t reps v e it x Ht Hc Hv Hi Ho He Ha) as (res & Hf & Hok).
  clear Ht. exists res. split; [done|]. destruct res as [[r m]|]; [|done].
  destruct Hok as (p' & Hact & _ & _ & Hval). exists p'. split; [done|].
  rewrite <- (pvalue_peval op seqop pushed). symmetry. exact Hval.
Qed.

(** C20 [ExpressionClasses::find] returns: the recursion through [tryToSimplify] and
    [rebuildExpression] ends, nothing throws, and the class returned has the value of the
    item on the values of its arguments; the values of the classes there were do not
    change. *)
Theorem find_correct t cl v seq it l :
  Rules = Some t -> reachable t cl -> consistent S cl v ->
  item_ok it (length l) -> Forall (fun i => 0 <= i < classes_size cl) l ->
  exists fuel i cl' v', find fuel t seq cl it l = Ret (i, cl') /\ reachable t cl' /\
    consistent S cl' v' /\ extends cl cl' v v' /\ 0 <= i < classes_size cl' /\
    v' i = item_value S it seq (map v l).
Proof using All.
  intros Ht Hr Hc Hit Hl. destruct (reachable_consistent weightSemantics t cl Ht Hr) as [μ Hμ].
  set (fuel := Z.to_nat (item_value weightSemantics it seq (map μ l))).
  destruct (find_returns t fuel seq cl it l μ Ht Hμ Hit Hl)
    as (i & cl' & _ & Hf & _); [unfold fuel; lia|].
  pose proof (@find_sound S laws t fuel Ht seq cl it l v Hc Hit Hl) as Hok. clear Ht. rewrite Hf in Hok.
  destruct Hok as (v' & Hc' & He & Hi & Hv).
  exists fuel, i, cl', v'. split; [exact Hf|]. split; [by eapply r_find|]. repeat (split; [done|]). by symmetry.
Qed.

(** C22 [knownToBeDifferent] returns, and when it answers true the classes have
    different values. *)
Theorem knownToBeDifferent_correct t cl v _a _b :
  Rules = Some t -> reachable t cl -> consistent S cl v ->
  0 <= _a < classes_size cl -> 0 <= _b < classes_size cl ->
  exists fuel b cl', knownToBeDifferent fuel t cl _a _b = Ret (b, cl') /\ (b = true -> v _a <> v _b).
Proof using All.
  intros Ht Hr Hc Ha Hb. destruct (reachable_consistent weightSemantics t cl Ht Hr) as [μ Hμ].
  destruct (find_op_returns t cl μ SUB [_a; _b] 2 Ht Hμ) as (fuel & i & cl1 & μ1 & Hf & Hc1 & Hi & Hle);
    [clear Ht; done|clear Ht; by repeat constructor; lia|lia|].
  destruct (find_returns t fuel 0 cl1 (opItem ISZERO noLocation) [i] μ1 Ht Hc1)
    as (j & cl2 & μ2 & Hf2 & Hc2 & _ & Hj & _);
    [clear Ht; done|clear Ht; by apply Forall_singleton|clear Ht; unfold item_value; cbn; unfold op_weight; simpl; lia|].
  destruct (matchesClass_total cl2 μ2 (Word 0) j Hc2 (Word_ok 0) Hj) as [b Hmb].
  assert (knownToBeDifferent fuel t cl _a _b = Ret (b, cl2)) as Hk.
  { unfold knownToBeDifferent. rewrite Hf. cbn [mbind Result_bind]. unfold knownNonZero.
    rewrite Hf2. cbn [mbind Result_bind]. by rewrite Hmb. }
  exists fuel, b, cl2. split; [exact Hk|]. intros ->.
  by apply (knownToBeDifferent_value op seqop pushed seqop_pure seqop_range pushed_range t fuel cl v _a _b cl2 Ht).
Qed.

(** [knownToBeDifferentBy32] returns, and when it answers true the values of the
    classes are at least 32 apart. *)
Theorem knownToBeDifferentBy32_correct t cl v _a _b :
  Rules = Some t -> reachable t cl -> consistent S cl v ->
  0 <= _a < classes_size cl -> 0 <= _b < classes_size cl ->
  exists fuel b cl', knownToBeDifferentBy32 fuel t cl _a _b = Ret (b, cl') /\
    (b = true -> 32 <= Z.abs (v _a - v _b)).
Proof using All.
  intros Ht Hr Hc Ha Hb. destruct (reachable_consistent weightSemantics t cl Ht Hr) as [μ Hμ].
  destruct (find_op_returns t cl μ SUB [_a; _b] 0 Ht Hμ) as (fuel & i & cl1 & μ1 & Hf & Hc1 & Hi & Hle);
    [clear Ht; done|clear Ht; by repeat constructor; lia|lia|].
  destruct (knownConstant_total cl1 μ1 i Hc1 Hi) as [o Hk].
  assert (exists b, knownToBeDifferentBy32 fuel t cl _a _b = Ret (b, cl1)) as [b Hk32].
  { unfold knownToBeDifferentBy32. rewrite Hf. cbn [mbind Result_bind]. rewrite Hk. by eexists. }
  exists fuel, b, cl1. split; [exact Hk32|]. intros ->.
  by apply (knownToBeDifferentBy32_value op seqop pushed seqop_pure seqop_range pushed_range t fuel cl v _a _b cl1 Ht).
Qed.
End Words.

(** ** Concrete runs *)

(** The words of the interpreter's initial state; what is unknown is 0. *)
Definition exampleOp : Instruction -> list Z -> Z := interp_value (fun _ => 0) initialState.
Definition exampleSemantics : Semantics := wordSemantics exampleOp (fun _ => exampleOp) (fun _ _ => 0).

#[local] Instance exampleOp_words : WordSemantics exampleOp.
Proof. apply interp_semantics. split; vm_compute; by split. Qed.

Lemma exampleOp_range (s : Z) i l : Forall is_u256 l -> is_u256 (exampleOp i l).
Proof. intros _. apply interp_range. Qed.

#[local] Instance exampleSemantics_laws : SemanticsLaws exampleSemantics.
Proof. apply (wordSemantics_laws exampleOp (fun _ => exampleOp)); auto using exampleOp_range, is_u256_0. Qed.

(** Two classes for something unknown. *)
Lemma two_classes : exists t cl v,
  Rules = Some t /\ reachable t cl /\ consistent exampleSemantics cl v /\ classes_size cl = 2.
Proof.
  destruct Rules_bucket as (t & Ht & _). exists t.
  pose proof (empty_consistent exampleSemantics) as H0.
  destruct (newClass_ok exampleSemantics _ _ noLocation H0) as (i & cl & v & Hn & Hc & _ & Hi & _).
  destruct (newClass_ok exampleSemantics cl v noLocation Hc) as (i' & cl' & v' & Hn' & Hc' & _ & Hi' & _).
  exists cl', v'. split; [done|]. split.
  - eapply r_newClass; [|exact Hn']. eapply r_newClass; [apply r_empty|exact Hn].
  - split; [exact Hc'|]. clear Ht t. vm_compute in Hn. injection Hn as <- <-.
    vm_compute in Hn'. by injection Hn' as <- <-.
Qed.

(** x + 5 and x + 6 are known to be different. *)
Example different_example :
  match Rules, newClass (mkClasses [] []) noLocation with
  | Some t, Some (x, cl) =>
      match ('(five, cl) ← find 9 t 0 cl (dataItem Push 5 noLocation) [];
             '(six, cl) ← find 9 t 0 cl (dataItem Push 6 noLocation) [];
             '(a, cl) ← find 9 t 0 cl (opItem ADD noLocation) [x; five];
             '(b, cl) ← find 9 t 0 cl (opItem ADD noLocation) [x; six];
             knownToBeDifferent 9 t cl a b) with
      | Ret (b, _) => b
      | _ => false
      end
  | _, _ => false
  end = true.
Proof. vm_compute. reflexivity. Qed.

Lemma rules_sound_witness :
  let e c := mkExpression 0 (Some (dataItem Push c noLocation)) [] 0 in
  let m : MatchGroups := {[ 1%nat := e 3; 2%nat := e 4 ]} in
  let ρ g := match g with 1%nat => 3 | 2%nat => 4 | _ => 0 end in
  peval exampleOp ρ (Word 7) = peval exampleOp ρ (Builtins.ADD groupA groupB).
Proof.
  intros e m ρ.
  apply (rules_sound exampleOp None m ρ
    (rule (Builtins.ADD groupA groupB) (with2 groupA groupB (fun a b => Word (u256_add a b))) false) (Word 7)).
  - left. reflexivity.
  - split.
    + intros [|[|[|g]]]; split; simpl; unfold modulus; lia.
    + intros g e' it Hg Hi _. unfold m in Hg.
      apply lookup_insert_Some in Hg as [[<- <-]|[_ Hg]]; [by injection Hi as <-|].
      apply lookup_singleton_Some in Hg as [<- <-]. by injection Hi as <-.
  - repeat (apply Forall_cons_2 || apply Forall_nil_2); intros e' it Hg Hi; unfold m in Hg;
      (apply lookup_insert_Some in Hg as [[_ <-]|[_ Hg]]; [by injection Hi as <-|];
       apply lookup_singleton_Some in Hg as [_ <-]; by injection Hi as <-).
  - exact I.
  - reflexivity.
Defined.

Lemma findFirstMatch_correct_witness :
  exists t cl v, Rules = Some t /\ reachable t cl /\ consistent exampleSemantics cl v /\
    exists res, findFirstMatch t (m_representatives cl)
                  (mkExpression noId (Some (opItem XOR noLocation)) [0; 0] 0) = Some res /\
      match res with
      | None => True
      | Some (r, m) => exists p', action r m = Some p' /\
          peval exampleOp (group_value exampleSemantics v m) p' = exampleOp XOR [v 0; v 0]
      end.
Proof.
  destruct two_classes as (t & cl & v & Ht & Hr & Hc & Hs). exists t, cl, v. do 3 (split; [done|]).
  apply (findFirstMatch_correct exampleOp (fun _ => exampleOp) (fun _ _ => 0)
           (fun _ _ _ _ => eq_refl) exampleOp_range (fun _ _ => is_u256_0) t (m_representatives cl) v
           (mkExpression noId (Some (opItem XOR noLocation)) [0; 0] 0) (opItem XOR noLocation) _ Ht
           (con_closed _ _ _ Hc) (con_value _ _ _ Hc) eq_refl eq_refl).
  - clear Ht. intros it [= <-]. by split.
  - clear Ht. unfold args_in. simpl. unfold classes_size in Hs. rewrite Hs. by repeat constructor.
Defined.

Lemma find_correct_witness :
  exists t cl v, Rules = Some t /\ reachable t cl /\ consistent exampleSemantics cl v /\
    exists fuel i cl' v', find fuel t 0 cl (opItem SUB noLocation) [0; 1] = Ret (i, cl') /\
      reachable t cl' /\ consistent exampleSemantics cl' v' /\ extends cl cl' v v' /\
      0 <= i < classes_size cl' /\ v' i = exampleOp SUB [v 0; v 1].
Proof.
  destruct two_classes as (t & cl & v & Ht & Hr & Hc & Hs). exists t, cl, v. do 3 (split; [done|]).
  apply (find_correct exampleOp (fun _ => exampleOp) (fun _ _ => 0)
           (fun _ _ _ _ => eq_refl) exampleOp_range (fun _ _ => is_u256_0) t cl v 0
           (opItem SUB noLocation) [0; 1] Ht Hr Hc); [by split|].
  clear Ht. rewrite Hs. by repeat constructor.
Defined.

Lemma knownToBeDifferent_correct_witness :
  exists t cl v, Rules = Some t /\ reachable t cl /\ consistent exampleSemantics cl v /\
    exists fuel b cl', knownToBeDifferent fuel t cl 0 1 = Ret (b, cl') /\ (b = true -> v 0 <> v 1).
Proof.
  destruct two_classes as (t & cl & v & Ht & Hr & Hc & Hs). exists t, cl, v. do 3 (split; [done|]).
  apply (knownToBeDifferent_correct exampleOp (fun _ => exampleOp) (fun _ _ => 0)
           (fun _ _ _ _ => eq_refl) exampleOp_range (fun _ _ => is_u256_0) t cl v 0 1 Ht Hr Hc);
    rewrite Hs; by split.
Defined.

Lemma knownToBeDifferentBy32_correct_witness :
  exists t cl v, Rules = Some t /\ reachable t cl /\ consistent exampleSemantics cl v /\
    exists fuel b cl', knownToBeDifferentBy32 fuel t cl 0 1 = Ret (b, cl') /\
      (b = true -> 32 <= Z.abs (v 0 - v 1)).
Proof.
  destruct two_classes as (t & cl & v & Ht & Hr & Hc & Hs). exists t, cl, v. do 3 (split; [done|]).
  apply (knownToBeDifferentBy32_correct exampleOp (fun _ => exampleOp) (fun _ _ => 0)
           (fun _ _ _ _ => eq_refl) exampleOp_range (fun _ _ => is_u256_0) t cl v 0 1 Ht Hr Hc);
    rewrite Hs; by split.
Defined.
